(* ===== verification/_CoqProject ===== *)
-Q . S2P
Prelude.v
Encoding.v
Json.v
GoTime.v
TimeParse.v
Statekit.v
Config.v
Progressive.v
Model.v
Lifecycle.v
Depgraph.v
Risk.v
Analysis.v
Security.v
Provenance.v
Auth.v
Jwks.v
Store.v
World.v
Git.v
ConfigLoad.v
ImageSelect.v
Transport.v
ImageAuto.v
EngineBase.v
EngineGates.v
EngineRollback.v
EngineDeploy.v
Reap.v
Reconcile.v
Watch.v
Scenario.v
Surface.v
Api.v
Grpc.v
Mcp.v
Ui.v
Daemon.v
LoadScenario.v
Validate.v
Process.v
Outbound.v
Boot.v
KubeRender.v
KubeCluster.v
KubeTarget.v
Hosts.v
Plugins.v
Marketplace.v
Cli.v
Client.v
Frame.v
EngineLocks.v
EngineMoves.v
EngineSession.v
SurfaceSafety.v
EngineSafety.v
EngineVerify.v
EngineCanary.v
EngineQueue.v
ReconcileSafety.v
WatchSafety.v
DaemonSafety.v
ImageSafety.v
KubeSafety.v
KubeVerdicts.v
PluginSafety.v
PluginWire.v
Conformance.v
MarketSafety.v
CliSafety.v
OutboundSafety.v
BootSafety.v
Probes.v
Migrate.v
Rows.v
