(* ===== verification/Prelude.v ===== *)
(** * Rollops: a verification library for the rollout engine

    Rollops deploys a configured service to a target (kubernetes, ssh, ftp or a
    plugin), step by step when the strategy asks for it, checks the result, and
    promotes or rolls back.  A daemon watches Git repositories, reconciles what
    they declare, and serves operators and agents over HTTP, gRPC, MCP and a web
    console.  This library models the part of it that decides: the lifecycle of a
    rollout, the canary machine, the gates in front of and behind a deploy, the
    store, the engine that puts them together, the watcher, the surfaces with
    their authentication and authorization, and the daemon around them all.

    ** How the parts fit

    A request reaches the engine ([src/internal/engine]).  It passes the
    guardrails (freeze, rate limit, policy floor), the risk gate and external
    governance, takes the target's lock, captures a rollout, and either stops at
    awaiting-approval or deploys and hands the rollout to the stepper.  The
    stepper walks the plan's weights, probing health at each; a step that bakes
    is continued by a later tick.  A rollout that got through is verifying: the
    automatic gate, or an operator, runs the post-deploy gates and promotes it or
    re-applies the prior manifest.  Every transition goes through the lifecycle
    chart and is saved in the store with a history row.

    Requests come from two sides.  The watcher ([src/internal/reconcile]) pulls
    each repository, loads its configurations, bumps images through Git, orders
    the batch by dependencies, asks every target first (preflight), and
    reconciles each configuration with the engine.  The surfaces authenticate a
    caller, ask the RBAC policy, and call one operation.  The daemon
    ([src/cmd/rollopsd]) builds policy, tokens and listeners from the environment
    and runs both on one engine.

    ** Files

    - [Prelude] (this file): errors, results, the strings and sorting functions
      of Go's library that the sources use, shared lemmas, tactics and hints.
    - [Encoding]: base64 in its four forms, [strings.EqualFold], bounded readers.
    - [Json]: [encoding/json] as the sources use it, its scanner, its values and
      its texts with UTF-8, and what is read back of what was written.
    - [GoTime], [TimeParse]: [time.Duration], [ParseDuration], instants as
      nanoseconds, their RFC 3339 text and its parser; the text orders instants
      to the second.
    - [Statekit]: the statechart library, which is not part of the sources.  Its
      interpreter is the class [Statechart], what its documentation says of it
      is [StatechartLaws], and [ref_statechart] is an interpreter that has the
      laws, with either answer to what the documentation leaves open (whether
      an eventless transition fires after a restored timer).
    - [Config]: [config/config.go] after decoding, and [promote/promote.go].
    - [Progressive]: [progressive/progressive.go] and [machine.go].
    - [Model], [Lifecycle]: [rollout/model.go] and [rollout/lifecycle.go].
    - [Depgraph], [Risk], [Analysis], [Security]: the packages of these names
      ([Risk] also has [condition]; floats are binary64, [PrimFloat]).
    - [Provenance]: [security/provenance.go], [sourcegate.go], [blob.go] and the
      artifact gate of [boot/boot.go].
    - [Auth], [Jwks]: the authenticators of [internal/api] (tokens, OIDC) and the
      cache of a provider's keys under any number of requests at once.
    - [Store]: the interface of [store/store.go] as the class [Store] with its
      contract [StoreLaws], and in the module [Sqlite] the implementation of
      [store/sqlite/sqlite.go] as tables of values whose statements may fail,
      which is proved to have the laws.
    - [World]: the state of the engine and everything it talks to.  [World] is
      the store, the held locks, the in-memory freeze, the redactor's values, the
      clock's reading count and the trace of outside effects; [M] is the state
      monad over it.  [Env] answers for every system outside (targets, routers,
      flag providers, metrics, commands, secrets, governance, verifier, Git,
      registries, clock) as a function of the trace, so answers may change over
      time in any way.  [Engine] is what [engine.New] is configured with.
    - [Git], [ConfigLoad]: [internal/git] (working tree, pull requests, webhook)
      and [internal/config]'s [repo.go], [clusters.go] and [rolloutset.go].
    - [ImageSelect], [ImageAuto]: [internal/imageupdate] and
      [reconcile/imageauto.go].
    - [Transport]: [internal/servertls] and the listeners of the daemon.
    - [EngineBase], [EngineGates], [EngineRollback], [EngineDeploy]: the
      operations of [engine.go], [stepper.go], [locks.go], [fleet.go],
      [smoke.go] and [deployment_facts.go], under the sources' names; the parts
      of long functions have lower-case names ([apply_gates], [drive_loop]).
    - [Reap], [Reconcile], [Watch]: [internal/reconcile].
    - [Validate]: [config/validate.go].
    - [Process], [KubeRender], [KubeCluster], [KubeTarget]: the kubernetes target
      ([internal/target/kubernetes]) as programs over the trace of the tools they
      start; [Tools] answers for [kubectl], [helm], the file system and the
      codecs.  [KubeTarget] is written against the record [Cluster] of the
      source's interface.
    - [Hosts]: the SSH and FTP targets against the class [FileHost] with its laws
      [FileLaws], their transports, and the registry of target kinds.
    - [Plugins]: [internal/pluginhost], [pkg/plugin], the plugin adapters of
      targets, flags, routers and metrics, and the Gateway API router.
    - [PluginWire], [Conformance]: the documents the plugin protocol sends, and the
      conformance suites of [pkg/conformance] and [pkg/flagconformance].
    - [Outbound]: the services the program calls, as programs over the trace of
      their requests, with the class [Net] answering: [internal/secrets], the
      governance provider, [internal/notify], the Prometheus client and the tokens
      of a GitHub App.
    - [Boot]: [engine.New] with its options and [internal/boot].
    - [Probes]: the liveness and readiness probes, the metrics of the ticks
      ([internal/metrics], [reconcile/metrics.go]), the retries and the breaker
      around a target ([internal/step], against the class [Fortify]), and
      [internal/studio].
    - [Migrate]: opening the database with the migrations the program embeds,
      against the class [Ddl], and the encoding of a command in its column.
    - [Rows]: [SaveRollout] and [LoadRollout] of [store/sqlite/sqlite.go] as the
      SQL they send - columns, bound values, JSON, times as text, the upsert, the
      transaction - and what [Store] abstracts of them.
    - [Surface], [Api], [Grpc], [Mcp], [Ui]: what the surfaces share, and
      [api/server.go], [grpcapi/server.go], [internal/mcp] and [ui/ui.go].
    - [Daemon]: [cmd/rollopsd/main.go].
    - [Marketplace], [Cli], [Client]: [internal/registry], [internal/cli] and
      [grpcapi/client.go] with [cmd/rollops].  A command is a program over the
      state of its backend, the record [Operations], and the trace of what it
      prints and asks the host; the engine in process and the client of a daemon
      are two such backends.
    - [Scenario], [LoadScenario]: a concrete world, engine, configurations and
      file systems, on which the operations are evaluated.
    - [Frame], [EngineLocks], [EngineMoves]: what each operation leaves alone
      (levels of effects: probing, executing, all), that it returns the locks it
      takes, and which moves it makes on stored rollouts.
    - [EngineSession], [EngineSafety], [EngineVerify], [EngineCanary],
      [EngineQueue]: the engine's theorems.  [ReconcileSafety], [WatchSafety],
      [ImageSafety], [SurfaceSafety], [DaemonSafety], [KubeSafety],
      [KubeVerdicts], [PluginSafety], [MarketSafety], [CliSafety],
      [OutboundSafety], [BootSafety]: those of the parts around it.

    ** What is proved

    - Sessions ([EngineSession]).  An [Operation] is a call of any operation that
      changes state; a session is any list of them, with every outside system and
      the store answering or failing arbitrarily.  Through any session a stored
      rollout keeps its identity and moves only along the chart; a rollout that
      awaits approval is released by [Approve] only; all locks are returned.
    - The daemon ([SurfaceSafety], [DaemonSafety]).  Serving a message on any
      surface is a session of operations the policy grants the caller; through
      any interleaving of messages, watcher ticks, webhooks and timers the
      approval gate holds; agents only look by default; nobody enters the console
      without a credential, a cookie counting as the password of the visit that was
      given it.
    - Admission ([EngineSafety]).  A freeze, also an unreadable one, stops all
      deploys; an apply that needs approval, also for the history its target has
      at that moment, deploys nothing; one rollout per
      target; no rollback over a one-way migration; four eyes.
    - Verification ([EngineVerify]).  Promotion needs every gate to pass; the
      automatic gate promotes or restores the prior manifest; a dry run changes
      nothing and predicts the gates.
    - Canary ([EngineCanary], [Progressive]).  The stepper's loop terminates, a
      healthy rollout ends verifying, a bake is waited out, and a canary machine
      completes only through its health gates or by a promote.
    - Queue ([EngineQueue]).  The freeze is durable before it acts, the schedule
      queue drains exactly, and three theorems that exhibit what the sources'
      comments deny (a rejected manifest restored by a rollback, an approver not
      stored, a policy floor that never stops a schedule).
    - Reconciling ([ReconcileSafety], [WatchSafety], [Reap]).  A reconcile that
      says so has settled the rollout; a batch is ordered by dependencies and
      applies as a whole or not at all; dependents wait; a target is retired only
      on repeated evidence.
    - Images ([ImageSafety], [ImageSelect]).  A new image is deployed only after
      it was written, committed and pushed to Git, pins survive, the chosen tag is
      the newest admitted, and credentials go only to https realms of the registry.
    - Targets ([KubeSafety], [KubeVerdicts], [Hosts]).  A kubernetes target stays
      in its namespace and off the repository's credentials as long as no declared
      value is an option of [kubectl], changes only what carries its label, reads
      its sources below the configuration's directory when there is one, and gives
      no verdict on a cluster that shows signs of being unreachable; a path is one
      word of a remote shell; an applied version is observed.  Theorems and
      examples exhibit what goes wrong: declared values that are options, ways out
      of the root, a missing [kubectl] that reads as unhealthy, a syntax error that
      is hidden or hangs, ignored differences that still show, and a rollback that
      restores nothing.
    - Plugins ([PluginSafety], [PluginWire], [Conformance]).  A binary runs only after its pin and signature
      hold of what was read, with the confined environment, and is handed on only
      within the policy; a refused plugin is torn down; a target behind a plugin,
      over the JSON documents of the protocol, is the target itself, for UTF-8 texts
      and but for an unknown health, which becomes an error, and passes the
      conformance suite when the target does; a handshake is understood; standard
      error is capped.
    - Services ([OutboundSafety], [Json]).  A governor that does not answer allows
      nothing, and is asked exactly what is at stake; a webhook carries a signature of what it sends; every channel is
      tried; a secret reference stays below its store; a metric sees every series;
      a token that is handed out is new or live; JSON is read back as written, up to what
      is not UTF-8.
    - Starting ([BootSafety], [Migrate]).  An engine that boots has its guardrails
      and the freeze the store has; a database of any earlier version is opened
      with every column the store names, and opening it again changes nothing.
    - Watching over it ([Probes]).  The liveness probe fails exactly when at most
      64 processes are left, the readiness probe exactly when the store cannot be
      read; every outcome of a tick is counted once, and the gauge is the age of
      the oldest rollout in flight; a guarded target is called a bounded number of
      times.  One theorem exhibits a circuit breaker that never opens because it is
      built anew for every operation.
    - Commands ([CliSafety], [MarketSafety], [Client]).  No sequence of commands
      but [approve] releases the gate; the commands that look change nothing;
      [apply --wait] ends with the verdict and polls no more after its deadline;
      what a plugin command installs is the published file of that name or the one
      the operator named, signed where that is required; the two modes agree on the operations that control a rollout.  Two
      theorems exhibit a rollback that restores the broken release after a failed
      read, and an update that depends on the order of a map.
    - Trust.  [Provenance]: what the gate admits was signed, built and proved as
      configured, and to which commit the proof is joined.  [Auth]: an identity is the one a valid signature vouches for.
      [Jwks]: one fetch at a time, no request stranded, refetches rate-limited.
      [Transport]: nothing exposed in plaintext, and rotation never takes a
      listener down.  [Git]: the webhook ticks on a signed payload only.
    - Configuration.  [Validate]: exactly the well-formed configurations pass and
      those cannot fail the engine for their form.  [ConfigLoad]: a checkout is
      read completely and, by path, below its root, a set expands to one target each.
    - Components.  [Lifecycle]: [Send] refines the chart [lc_next] for every
      interpreter with the laws.  [Rows]: a save is all or nothing, and what was
      saved is loaded, through SQL and JSON.  [Store]: exact leases, order of
      the list, and where the text of instants breaks it.  [Security]: exact
      authorization and environment filtering.  [Risk]: a riskier change never
      scores lower or passes where a safer one is held, and auto-proceed is earned.  [Analysis]: a pass has evidence.  [Depgraph]:
      topological layers, cycles, dependents.

    ** Bounds and fuel

    The loop of [driveStepper] has no measure in its text.  [drive_loop] takes
    fuel and [drive_fuel] is one round per step of the plan and one more;
    [drive_loop_terminates] proves that more fuel changes nothing.  [layers_loop]
    has as much fuel as the graph has nodes, [HasCycle_iff_cycle] shows that it
    suffices; [walk] visits each node once; [replace_all], [groups] and
    [bearer_params] consume a character per round and have the string's length;
    [ipv6_groups] reads at most the eight groups of an address.  The loop over
    the documents of a manifest ([scanManifestDocs]) takes fuel, one round per
    document and one more suffices when the manifest can be read to its end, and
    no fuel does otherwise; both are proved.  The wait of [apply --wait] takes
    fuel and needs one round per poll of its timeout and two more, for any clock
    that goes on ([wait_ends_with_the_verdict]).  The JSON parser has two units of
    fuel per byte and two more; [first_value_complete] proves that more changes
    nothing.  Its nesting is the library's ten thousand.  Health retries
    are the source's three attempts, pages of tags its cap of a thousand.
    Integers of the sources ([int] counts, weights, indexes) are [Z]: none is near
    the 64-bit range, and durations come from [ParseDuration], which rejects what
    overflows; conversions to [int32] and the exponent of a key are written out
    with their wrap-around.

    ** Not modelled

    Goroutines inside an operation: an operation is one step of a session, so the
    theorems on locks speak of sequences of operations, and lease renewal inside
    an operation is left out; [Jwks] is the exception, its requests interleave at
    every operation on the mutex.  Deadlines of contexts appear only where the
    code asks whether the context is done.  YAML decoding, the JSON decoder where a
    value is of the configuration's own types ([Json] is the decoder of the
    services and plugins), regular expressions of operators, the CEL compiler, the JSON schema library, cosign,
    cryptography, TLS itself and the session library are arguments.  The targets
    are parameters of the engine: its theorems hold for every target, and the
    built-in ones have their own.  The generated gRPC code, the serving loop of a
    plugin, dialling, process groups, HTML templates, log lines, timeouts and the
    shutdown of the daemon are left out: they hold no decision of the program.
    JSON descriptors kept on a rollout are the decoded value, or a mark that the
    bytes do not decode. *)

From stdpp Require Export base numbers sorting pretty strings gmap list.

(** ** Notations

    Go's [==] and [!=] on comparable values, as boolean tests. *)
Declare Scope go_scope.
Delimit Scope go_scope with go.
Notation "x == y" := (bool_decide (x = y)) (at level 38, no associativity) : go_scope.
Notation "x != y" := (negb (bool_decide (x = y))) (at level 38, no associativity) : go_scope.
Open Scope go_scope.
Open Scope Z_scope.

(** ** Errors

    A Go [error] value. The sentinels callers test with [errors.Is] are
    constructors; [Errorf] is a plain message and [Wrap pre e post] is
    [fmt.Errorf] with one [%w]. [err_str] is the [Error] method. *)
Inductive err : Type :=
| ErrTargetBusy
| ErrNotFound
| ErrUnsupported
| ErrFrozen
| ErrRateLimited
| ErrNotLeader
| Errorf (msg : string)
| Wrap (pre : string) (e : err) (post : string).

#[global] Instance err_eq_dec : EqDecision err.
Proof. solve_decision. Defined.

Fixpoint err_str (e : err) : string :=
  match e with
  | ErrTargetBusy => "engine: target busy: a rollout is already in progress"
  | ErrNotFound => "store: not found"
  | ErrUnsupported => "engine: target does not support this operation"
  | ErrFrozen => "security: rollouts are frozen (emergency kill-switch active)"
  | ErrRateLimited => "security: agent rate limit exceeded"
  | ErrNotLeader => "watch: not reconcile leader"
  | Errorf msg => msg
  | Wrap pre e post => pre +:+ err_str e +:+ post
  end.

(** [errors.Is]: the sentinel reached by unwrapping. *)
Fixpoint errors_Is (e target : err) : bool :=
  bool_decide (e = target) ||
  match e with Wrap _ e' _ => errors_Is e' target | _ => false end.

(** A call that returns a value or an error. *)
Inductive result (A : Type) : Type :=
| Ok (a : A)
| Err (e : err).
Arguments Ok {A} a.
Arguments Err {A} e.

Definition is_ok {A} (r : result A) : bool :=
  match r with Ok _ => true | Err _ => false end.

Notation "'try' x <- c ; k" :=
  (match c with Ok x => k | Err e => Err e end)
  (at level 10, x pattern, c at level 100, k at level 200,
   format "'[v' 'try'  x  <-  c ;  '/' k ']'") : go_scope.

(** ** Strings

    The part of Go's [strings], [strconv] and [path/filepath] the sources use,
    on byte strings. *)
Definition str_len (s : string) : nat := String.length s.

Definition HasPrefix (s p : string) : bool := String.prefix p s.

Definition HasSuffix (s p : string) : bool :=
  String.prefix (String.rev p) (String.rev s).

Fixpoint str_drop (n : nat) (s : string) : string :=
  match n, s with
  | O, _ => s
  | S n, String _ s => str_drop n s
  | S _, EmptyString => EmptyString
  end.

Fixpoint str_take (n : nat) (s : string) : string :=
  match n, s with
  | O, _ => EmptyString
  | S n, String c s => String c (str_take n s)
  | S _, EmptyString => EmptyString
  end.

Definition TrimPrefix (s p : string) : string :=
  if HasPrefix s p then str_drop (str_len p) s else s.

Definition TrimSuffix (s p : string) : string :=
  if HasSuffix s p then str_take (str_len s - str_len p) s else s.

Fixpoint trim_left (s : string) : string :=
  match s with
  | String c s' => if Ascii.is_space c then trim_left s' else s
  | EmptyString => EmptyString
  end.

(** [strings.TrimSpace] on ASCII white space. *)
Definition TrimSpace (s : string) : string :=
  String.rev (trim_left (String.rev (trim_left s))).

(** [strings.IndexByte]. *)
Fixpoint IndexByte (s : string) (c : Ascii.ascii) : option nat :=
  match s with
  | EmptyString => None
  | String d s' => if bool_decide (d = c) then Some O else S <$> IndexByte s' c
  end.

(** [strings.Contains]. *)
Fixpoint Contains (s sub : string) : bool :=
  HasPrefix s sub ||
  match s with String _ s' => Contains s' sub | EmptyString => false end.

Definition lower_ascii (c : Ascii.ascii) : Ascii.ascii :=
  let n := Ascii.nat_of_ascii c in
  if (65 <=? n)%nat && (n <=? 90)%nat then Ascii.ascii_of_nat (n + 32) else c.

(** [strings.ToLower] on ASCII. *)
Fixpoint ToLower (s : string) : string :=
  match s with
  | EmptyString => EmptyString
  | String c s' => String (lower_ascii c) (ToLower s')
  end.

(** [strings.Split s sep] for a one-byte separator. *)
Fixpoint split_go (sep : Ascii.ascii) (cur s : string) : list string :=
  match s with
  | EmptyString => [String.rev cur]
  | String c s' =>
      if bool_decide (c = sep) then String.rev cur :: split_go sep EmptyString s'
      else split_go sep (String c cur) s'
  end.
Definition Split (s : string) (sep : Ascii.ascii) : list string :=
  split_go sep EmptyString s.

(** [strings.Join]. *)
Fixpoint Join (l : list string) (sep : string) : string :=
  match l with
  | [] => ""
  | [s] => s
  | s :: l => s +:+ sep +:+ Join l sep
  end.

(** The verb [%q] on printable ASCII: a quoted string with the quote and the
    backslash escaped. *)
Definition dquote : Ascii.ascii := Ascii.ascii_of_nat 34.
Definition backslash : Ascii.ascii := Ascii.ascii_of_nat 92.
Fixpoint quote_body (s : string) : string :=
  match s with
  | EmptyString => String dquote EmptyString
  | String c s' =>
      if bool_decide (c = dquote) || bool_decide (c = backslash)
      then String backslash (String c (quote_body s'))
      else String c (quote_body s')
  end.
Definition quote (s : string) : string := String dquote (quote_body s).

(** [sort.Strings]: byte order. *)
Definition sort_strings : list string → list string := merge_sort String.le.

(** ** Tactics and hints *)
Create HintDb rollops discriminated.

(** Case analysis on the innermost test of the goal or a hypothesis, followed
    by the clean-up every proof of the library starts with. *)
Ltac split_bool :=
  repeat match goal with
  | H : _ && _ = true |- _ => apply andb_prop in H; destruct H
  | H : _ || _ = false |- _ => apply orb_false_elim in H; destruct H
  | H : _ || _ = true |- _ => apply orb_prop in H; destruct H
  | H : negb _ = true |- _ => apply negb_true_iff in H
  | H : negb _ = false |- _ => apply negb_false_iff in H
  | H : bool_decide _ = true |- _ => apply bool_decide_eq_true in H
  | H : bool_decide _ = false |- _ => apply bool_decide_eq_false in H
  | H : (_ <=? _) = true |- _ => apply Z.leb_le in H
  | H : (_ <=? _) = false |- _ => apply Z.leb_gt in H
  | H : (_ <? _) = true |- _ => apply Z.ltb_lt in H
  | H : (_ <? _) = false |- _ => apply Z.ltb_ge in H
  end.

(** A closed decidable fact, by evaluation. *)
Ltac by_decision := apply (bool_decide_unpack _); vm_compute; exact I.

(** Destructs the discriminee of a [match] in the goal, keeping its equation. *)
Ltac case_goal :=
  match goal with
  | |- context [match ?x with _ => _ end] => destruct x eqn:?
  end.

Ltac case_hyp H :=
  match type of H with
  | context [match ?x with _ => _ end] => destruct x eqn:?
  end.

(** ** Generic lemmas *)
#[local] Arguments String.append : simpl nomatch.

Lemma sort_strings_perm l : sort_strings l ≡ₚ l.
Proof. apply merge_sort_Permutation. Qed.

Lemma sort_strings_sorted l : Sorted String.le (sort_strings l).
Proof. apply Sorted_merge_sort, _. Qed.

Lemma elem_of_sort_strings x l : x ∈ sort_strings l ↔ x ∈ l.
Proof. by rewrite sort_strings_perm. Qed.

Lemma filter_none {A} (P : A → Prop) `{!∀ x, Decision (P x)} l :
  Forall (λ x, ¬ P x) l → filter P l = [].
Proof.
  induction 1 as [|x l Hx _ IH]; [done|]. by rewrite filter_cons, decide_False.
Qed.

Lemma str_app_empty_r (s : string) : s +:+ "" = s.
Proof. induction s as [|c s IH]; simpl; [done|by rewrite IH]. Qed.

Lemma str_app_assoc (a b c : string) : a +:+ (b +:+ c) = (a +:+ b) +:+ c.
Proof. induction a as [|x a IH]; simpl; [done|]. by rewrite IH. Qed.

Lemma str_app_eq_empty (a b : string) : a +:+ b = "" → a = "" ∧ b = "".
Proof. by destruct a, b. Qed.

Lemma str_length_app (a b : string) :
  str_len (a +:+ b) = (str_len a + str_len b)%nat.
Proof. unfold str_len. induction a; simpl; lia. Qed.

Lemma HasPrefix_app p s : HasPrefix (p +:+ s) p = true.
Proof.
  unfold HasPrefix. induction p as [|c p IH]; simpl.
  - by destruct s.
  - destruct (Ascii.ascii_dec c c); [done|congruence].
Qed.

Lemma HasPrefix_spec s p : HasPrefix s p = true ↔ ∃ r, s = p +:+ r.
Proof.
  unfold HasPrefix. split.
  - revert p. induction s as [|c s IH]; intros [|d p]; simpl; intros H; try done.
    + by exists "".
    + by exists (String c s).
    + destruct (Ascii.ascii_dec d c); [|done]. subst.
      destruct (IH p H) as [r ->]. by exists r.
  - intros [r ->]. apply HasPrefix_app.
Qed.

#[export] Hint Resolve sort_strings_sorted : rollops.
