(* ===== verification/Encoding.v ===== *)
(** * Texts of bytes

    What the sources use of [encoding/base64] (all four encodings),
    [strings.EqualFold], and facts on decimal numbers in texts.  Bytes are the
    characters of a string. *)

From S2P Require Import Prelude.

(** ** Base64 *)

(** An encoding: the URL alphabet or the standard one, padded or raw. *)
Record Encoding := { enc_url : bool; enc_pad : bool }.

Definition StdEncoding : Encoding := {| enc_url := false; enc_pad := true |}.
Definition RawStdEncoding : Encoding := {| enc_url := false; enc_pad := false |}.
Definition URLEncoding : Encoding := {| enc_url := true; enc_pad := true |}.
Definition RawURLEncoding : Encoding := {| enc_url := true; enc_pad := false |}.

Definition byte (c : Ascii.ascii) : Z := Z.of_nat (Ascii.nat_of_ascii c).
Definition char (n : Z) : Ascii.ascii := Ascii.ascii_of_nat (Z.to_nat n).
Definition padding : Ascii.ascii := char 61.

(** The letter of six bits, and back. *)
Definition letter (url : bool) (n : Z) : Ascii.ascii :=
  char (if n <? 26 then 65 + n else if n <? 52 then 71 + n else if n <? 62 then n - 4
        else if n =? 62 then (if url then 45 else 43) else (if url then 95 else 47)).

Definition sextet (url : bool) (c : Ascii.ascii) : option Z :=
  let b := byte c in
  if (65 <=? b) && (b <=? 90) then Some (b - 65)
  else if (97 <=? b) && (b <=? 122) then Some (b - 71)
  else if (48 <=? b) && (b <=? 57) then Some (b + 4)
  else if b =? (if url then 45 else 43) then Some 62
  else if b =? (if url then 95 else 47) then Some 63
  else None.

(** [EncodeToString]: three bytes are four letters; one or two bytes at the end
    are two or three letters, padded to four. *)
Fixpoint EncodeToString (enc : Encoding) (s : string) : string :=
  let l n := letter (enc_url enc) n in
  let pad s := if enc_pad enc then s else EmptyString in
  match s with
  | String a (String b (String c s)) =>
      String (l (byte a / 4)) (String (l (byte a mod 4 * 16 + byte b / 16))
        (String (l (byte b mod 16 * 4 + byte c / 64)) (String (l (byte c mod 64)) (EncodeToString enc s))))
  | String a (String b EmptyString) =>
      String (l (byte a / 4)) (String (l (byte a mod 4 * 16 + byte b / 16))
        (String (l (byte b mod 16 * 4)) (pad (String padding EmptyString))))
  | String a EmptyString =>
      String (l (byte a / 4)) (String (l (byte a mod 4 * 16)) (pad (String padding (String padding EmptyString))))
  | EmptyString => EmptyString
  end.

(** [decodeQuantum], repeated: four letters are three bytes.  A text with
    padding ends with it, two letters before it at least; the bits beyond the
    last byte are not looked at. *)
Fixpoint decode_quanta (enc : Encoding) (s : string) : option string :=
  let first x y := char ((x * 4 + y / 16) mod 256) in
  let second y z := char ((y * 16 + z / 4) mod 256) in
  let third z u := char ((z * 64 + u) mod 256) in
  let is_pad c := enc_pad enc && bool_decide (c = padding) in
  match s with
  | EmptyString => Some EmptyString
  | String _ EmptyString => None
  | String a (String b s) =>
      x ← sextet (enc_url enc) a;
      y ← sextet (enc_url enc) b;
      match s with
      | EmptyString => if enc_pad enc then None else Some (String (first x y) EmptyString)
      | String c s =>
          if is_pad c then
            match s with
            | String d EmptyString => if is_pad d then Some (String (first x y) EmptyString) else None
            | _ => None
            end
          else
            z ← sextet (enc_url enc) c;
            match s with
            | EmptyString =>
                if enc_pad enc then None else Some (String (first x y) (String (second y z) EmptyString))
            | String d s =>
                if is_pad d then
                  if s == "" then Some (String (first x y) (String (second y z) EmptyString)) else None
                else
                  u ← sextet (enc_url enc) d;
                  rest ← decode_quanta enc s;
                  Some (String (first x y) (String (second y z) (String (third z u) rest)))
            end
      end
  end.

Fixpoint drop_newlines (s : string) : string :=
  match s with
  | EmptyString => EmptyString
  | String c s => if (byte c =? 10) || (byte c =? 13) then drop_newlines s else String c (drop_newlines s)
  end.

(** [DecodeString]: line ends are ignored wherever they are. *)
Definition DecodeString (enc : Encoding) (s : string) : option string :=
  decode_quanta enc (drop_newlines s).

Example decode_demo :
  DecodeString StdEncoding "TWE=" = Some "Ma" ∧ DecodeString RawStdEncoding "TWE" = Some "Ma" ∧
  DecodeString StdEncoding "TWE" = None ∧ DecodeString RawStdEncoding "TWE=" = None ∧
  DecodeString StdEncoding "TQ==TWE=" = None ∧ EncodeToString RawURLEncoding "??>" = "Pz8-".
Proof. vm_compute. auto 10. Qed.

(** ** [strings.EqualFold]

    Upper and lower case letters are equal, and so are the two other characters
    that fold to an ASCII letter: the long s (bytes C5 BF) and the Kelvin sign
    (E2 84 AA).  It is exact whenever one of the texts is ASCII. *)
Fixpoint fold_case (s : string) : string :=
  match s with
  | EmptyString => EmptyString
  | String c s1 =>
      match s1 with
      | String d s2 =>
          if (byte c =? 197) && (byte d =? 191) then String (char 115) (fold_case s2)
          else match s2 with
               | String e s3 =>
                   if (byte c =? 226) && (byte d =? 132) && (byte e =? 170) then String (char 107) (fold_case s3)
                   else String (lower_ascii c) (fold_case s1)
               | EmptyString => String (lower_ascii c) (fold_case s1)
               end
      | EmptyString => String (lower_ascii c) EmptyString
      end
  end.
Definition EqualFold (s t : string) : bool := fold_case s == fold_case t.

(** [io.LimitReader] with the limit of one mebibyte. *)
Definition limited (body : string) : string :=
  if 1048576 <? Z.of_nat (str_len body) then str_take (Z.to_nat 1048576) body else body.

(** ** Facts on base64 *)
Lemma byte_range c : 0 ≤ byte c < 256.
Proof. unfold byte. pose proof (Ascii.nat_ascii_bounded c). lia. Qed.

Lemma char_byte c : char (byte c) = c.
Proof. unfold char, byte. rewrite Nat2Z.id. apply Ascii.ascii_nat_embedding. Qed.

Lemma byte_char n : 0 ≤ n < 256 → byte (char n) = n.
Proof. intros Hn. unfold byte, char. rewrite Ascii.nat_ascii_embedding by lia. lia. Qed.

Lemma sextet_letter url n : 0 ≤ n < 64 → sextet url (letter url n) = Some n.
Proof.
  intros Hn.
  assert (forallb (λ n, bool_decide (sextet url (letter url n) = Some n)) (seqZ 0 64) = true) as H
    by (destruct url; vm_compute; done).
  rewrite forallb_forall in H. specialize (H n). rewrite bool_decide_eq_true in H.
  apply H, list_elem_of_In, elem_of_seqZ. lia.
Qed.

Lemma sextet_range url c n : sextet url c = Some n → 0 ≤ n < 64.
Proof. unfold sextet. intros H. repeat case_match; simplify_eq; split_bool; lia. Qed.

(** Bounds on the six-bit parts of bytes. *)
Ltac by_parts := Z.to_euclidean_division_equations; lia.

(** A letter is neither the padding nor a line end. *)
Lemma letter_plain url n : 0 ≤ n < 64 →
  letter url n ≠ padding ∧ (byte (letter url n) =? 10) || (byte (letter url n) =? 13) = false.
Proof.
  intros Hn. pose proof (sextet_letter url n Hn) as Hs. split.
  - intros Hp. rewrite Hp in Hs. by destruct url.
  - apply not_true_iff_false. intros Hb. unfold sextet in Hs.
    assert (byte (letter url n) = 10 ∨ byte (letter url n) = 13) as [Hc|Hc] by (split_bool; lia);
      rewrite Hc in Hs; by destruct url.
Qed.

(** Induction on a text three characters at a time. *)
Lemma string_ind3 (P : string → Prop) :
  P "" → (∀ a, P (String a "")) → (∀ a b, P (String a (String b ""))) →
  (∀ a b c s, P s → P (String a (String b (String c s)))) → ∀ s, P s.
Proof.
  intros H0 H1 H2 H3. fix IH 1. intros [|a [|b [|c s]]]; [done|apply H1|apply H2|apply H3, IH].
Qed.

Lemma drop_newlines_letter url n s : 0 ≤ n < 64 →
  drop_newlines (String (letter url n) s) = String (letter url n) (drop_newlines s).
Proof. intros Hn. simpl. by destruct (letter_plain url n Hn) as [_ ->]. Qed.

Lemma drop_newlines_EncodeToString enc s :
  drop_newlines (EncodeToString enc s) = EncodeToString enc s.
Proof.
  induction s as [|a|a b|a b c s IH] using string_ind3; [done|..];
    pose proof (byte_range a); try pose proof (byte_range b); try pose proof (byte_range c);
    cbn [EncodeToString]; rewrite !drop_newlines_letter
      by by_parts; [by destruct (enc_pad enc)..|by rewrite IH].
Qed.

(** The bytes come back from their six-bit parts. *)
Lemma first_byte a r : 0 ≤ r < 16 →
  char ((byte a / 4 * 4 + (byte a mod 4 * 16 + r) / 16) mod 256) = a.
Proof.
  intros Hr. pose proof (byte_range a). rewrite <- (char_byte a) at 3. f_equal.
  by_parts.
Qed.
Lemma second_byte q b r : 0 ≤ r < 4 →
  char (((q * 16 + byte b / 16) * 16 + (byte b mod 16 * 4 + r) / 4) mod 256) = b.
Proof.
  intros Hr. pose proof (byte_range b). rewrite <- (char_byte b) at 3. f_equal.
  by_parts.
Qed.
Lemma first_byte_0 a : char ((byte a / 4 * 4 + (byte a mod 4 * 16) / 16) mod 256) = a.
Proof. rewrite <- (Z.add_0_r (byte a mod 4 * 16)). by apply first_byte. Qed.
Lemma second_byte_0 q b :
  char (((q * 16 + byte b / 16) * 16 + (byte b mod 16 * 4) / 4) mod 256) = b.
Proof. rewrite <- (Z.add_0_r (byte b mod 16 * 4)). by apply second_byte. Qed.
Lemma third_byte q c :
  char (((q * 4 + byte c / 64) * 64 + byte c mod 64) mod 256) = c.
Proof.
  pose proof (byte_range c). rewrite <- (char_byte c) at 3. f_equal.
  by_parts.
Qed.

Lemma decode_quanta_EncodeToString enc s : decode_quanta enc (EncodeToString enc s) = Some s.
Proof.
  assert (∀ n, 0 ≤ n < 64 → bool_decide (letter (enc_url enc) n = padding) = false) as Hl
    by (intros n Hn; apply bool_decide_eq_false, letter_plain; done).
  induction s as [|a|a b|a b c s IH] using string_ind3; [done|..];
    pose proof (byte_range a); try pose proof (byte_range b); try pose proof (byte_range c);
    cbn [EncodeToString decode_quanta]; destruct (enc_pad enc) eqn:Hp; simpl;
    repeat (rewrite ?sextet_letter, ?Hl by by_parts; simpl); rewrite ?IH; simpl; do 2 f_equal;
    rewrite ?first_byte, ?first_byte_0, ?second_byte, ?second_byte_0, ?third_byte by by_parts; done.
Qed.

Lemma DecodeString_EncodeToString enc s : DecodeString enc (EncodeToString enc s) = Some s.
Proof.
  unfold DecodeString. by rewrite drop_newlines_EncodeToString, decode_quanta_EncodeToString.
Qed.

(** Two encodings that both read a text read the same bytes. *)
Lemma sextet_agree u1 u2 c x y : sextet u1 c = Some x → sextet u2 c = Some y → x = y.
Proof.
  unfold sextet. intros H1 H2. repeat case_match; simplify_eq; try done; split_bool; lia.
Qed.

Lemma sextet_padding url : sextet url padding = None.
Proof. by destruct url. Qed.

(** One bind or case of a decoder that answered, and one pair of equal reads. *)
Ltac unbind :=
  match goal with
  | H : _ ≫= _ = Some _ |- _ => apply bind_Some in H as (? & ? & ?)
  | _ => case_match
  end.
Ltac agree :=
  match goal with
  | H1 : sextet _ ?c = Some ?a, H2 : sextet _ ?c = Some ?b |- _ =>
      assert (a = b) as -> by (eapply sextet_agree; eassumption); clear H1
  end.

Lemma decode_quanta_agree e1 e2 s x y :
  decode_quanta e1 s = Some x → decode_quanta e2 s = Some y → x = y.
Proof.
  remember (String.length s) as n eqn:Hn. assert (String.length s ≤ n)%nat as Hle by lia. clear Hn.
  revert s Hle x y. induction n as [|n IH]; intros [|a [|b s]] Hle x y H1 H2; simpl in *; simplify_eq; try done; try lia.
  destruct s as [|c [|d s]]; simpl in *; repeat unbind; simplify_eq; try done; split_bool;
    subst; rewrite ?sextet_padding in *; try done; repeat agree; try done.
  do 3 f_equal. eapply (IH s); [lia|eassumption..].
Qed.

Lemma DecodeString_agree e1 e2 s x y :
  DecodeString e1 s = Some x → DecodeString e2 s = Some y → x = y.
Proof. apply decode_quanta_agree. Qed.

(** ** Decimal numbers in texts *)
Definition space : Ascii.ascii := char 32.
Fixpoint no_space (s : string) : Prop :=
  match s with EmptyString => True | String c s => c ≠ space ∧ no_space s end.

Lemma no_space_digits x s : no_space s → no_space (pretty_N_go x s).
Proof.
  revert s. induction (N.lt_wf_0 x) as [x _ IH]. intros s Hs.
  assert (x = 0 ∨ 0 < x)%N as [-> | Hx] by lia; [by rewrite pretty_N_go_0|].
  rewrite pretty_N_go_step by done. apply IH; [by apply N.div_lt|].
  split; [|done]. unfold pretty_N_char. by repeat case_match.
Qed.

Lemma no_space_pretty (n : nat) : no_space (pretty n).
Proof.
  unfold pretty, pretty_nat, pretty, pretty_N. case_decide; [by split|]. by apply no_space_digits.
Qed.

(** A text cut at its first space. *)
Lemma cut_at_space a b r r' :
  no_space a → no_space b → a +:+ String space r = b +:+ String space r' → a = b ∧ r = r'.
Proof.
  revert b. induction a as [|c a IH]; intros [|d b]; simpl; intros Ha Hb H; simplify_eq; try naive_solver.
Qed.

Lemma str_app_inj_length (a b r r' : string) :
  str_len a = str_len b → a +:+ r = b +:+ r' → a = b ∧ r = r'.
Proof.
  revert b. induction a as [|c a IH]; intros [|d b]; unfold str_len; simpl; intros Hl H; [done..|].
  injection H as -> H. injection Hl as Hl. by destruct (IH b Hl H) as [-> ->].
Qed.
