(* ===== verification/Json.v ===== *)
(** * JSON

    What the sources use of [encoding/json] (and of [unicode/utf8] under it):
    [Marshal] of the compact form with HTML escaping, the scanner and the
    decoder of [Unmarshal] and of [Decoder.Decode], and the rules by which a
    document fills a struct.  A number keeps its literal.  The text of a syntax
    error is not kept.  The theorems: what is encoded is decoded again, and the
    fuel of the parser is always enough. *)

From S2P Require Import Prelude Encoding.

(** ** Characters of a text *)
Definition byte_in (lo hi : Z) (c : Ascii.ascii) : bool := let n := Z.of_nat (Ascii.nat_of_ascii c) in (lo <=? n) && (n <=? hi).

(** The second byte of a sequence of three and of four. *)
Definition second_of_three (a b : Ascii.ascii) : bool :=
  byte_in (if byte_in 0xE0 0xE0 a then 0xA0 else 0x80) (if byte_in 0xED 0xED a then 0x9F else 0xBF) b.
Definition second_of_four (a b : Ascii.ascii) : bool :=
  byte_in (if byte_in 0xF0 0xF0 a then 0x90 else 0x80) (if byte_in 0xF4 0xF4 a then 0x8F else 0xBF) b.

Definition two_bytes (a b : Ascii.ascii) : bool := byte_in 0xC2 0xDF a && byte_in 0x80 0xBF b.
Definition three_bytes (a b c : Ascii.ascii) : bool := byte_in 0xE0 0xEF a && second_of_three a b && byte_in 0x80 0xBF c.
Definition four_bytes (a b c d : Ascii.ascii) : bool :=
  byte_in 0xF0 0xF4 a && second_of_four a b && byte_in 0x80 0xBF c && byte_in 0x80 0xBF d.

(** [utf8.DecodeRune], repeated: the encoded characters, [None] for a byte that
    begins none. *)
Fixpoint runes (s : string) : list (option string) :=
  match s with
  | "" => []
  | String a s1 =>
      if byte_in 0 0x7F a then Some (String a "") :: runes s1 else
      match s1 with
      | "" => None :: runes s1
      | String b s2 =>
          if two_bytes a b then Some (String a (String b "")) :: runes s2 else
          match s2 with
          | "" => None :: runes s1
          | String c s3 =>
              if three_bytes a b c then Some (String a (String b (String c ""))) :: runes s3 else
              match s3 with
              | "" => None :: runes s1
              | String d s4 =>
                  if four_bytes a b c d then Some (String a (String b (String c (String d "")))) :: runes s4
                  else None :: runes s1
              end
          end
      end
  end.

(** [utf8.ValidString]. *)
Definition valid_utf8 (s : string) : bool := forallb (λ r, bool_decide (is_Some r)) (runes s).

Definition bytes_of (l : list Z) : string := foldr (λ n s, String (char n) s) "" l.
(** U+FFFD, the replacement character. *)
Definition replacement : string := bytes_of [0xEF; 0xBF; 0xBD].

Definition concat_str (l : list string) : string := foldr (λ s t, s +:+ t) "" l.

(** Every byte that begins no character becomes the replacement character. *)
Definition ToValid (s : string) : string := concat_str (from_option id replacement <$> runes s).

Definition letter_u : Ascii.ascii := char 117.
Definition open_bracket : Ascii.ascii := char 91.
Definition close_bracket : Ascii.ascii := char 93.
Definition open_brace : Ascii.ascii := char 123.
Definition close_brace : Ascii.ascii := char 125.
Definition value_separator : Ascii.ascii := char 44.
Definition name_separator : Ascii.ascii := char 58.

(** ** Values *)
Inductive json :=
| JNull
| JBool (b : bool)
| JNum (lit : string)
| JStr (s : string)
| JArr (l : list json)
| JObj (l : list (string * json)).

(** ** Encoding *)
Definition low_hex (n : Z) : Ascii.ascii := char (if n <? 10 then 48 + n else 87 + n).
Definition u_escape (n : Z) : string :=
  String backslash (String letter_u (String (low_hex (n / 4096)) (String (low_hex (n / 256 mod 16))
    (String (low_hex (n / 16 mod 16)) (String (low_hex (n mod 16)) ""))))).

(** One ASCII character ([htmlSafeSet] and the short escapes). *)
Definition escape_ascii (c : Ascii.ascii) : string :=
  let n := byte c in
  if (n =? 34) || (n =? 92) then String backslash (String c "")
  else if n =? 8 then String backslash "b"
  else if n =? 12 then String backslash "f"
  else if n =? 10 then String backslash "n"
  else if n =? 13 then String backslash "r"
  else if n =? 9 then String backslash "t"
  else if (n <? 32) || (n =? 60) || (n =? 62) || (n =? 38) then u_escape n
  else String c "".

Definition line_separator : string := bytes_of [0xE2; 0x80; 0xA8].
Definition paragraph_separator : string := bytes_of [0xE2; 0x80; 0xA9].

Definition escape_rune (r : option string) : string :=
  match r with
  | None => u_escape 0xFFFD
  | Some (String c "") => escape_ascii c
  | Some r => if r == line_separator then u_escape 0x2028
              else if r == paragraph_separator then u_escape 0x2029 else r
  end.

(** [appendString] with [escapeHTML], as [Marshal] calls it. *)
Definition escape (s : string) : string := concat_str (escape_rune <$> runes s).
Definition print_string (s : string) : string := String dquote (escape s +:+ String dquote "").

Fixpoint Marshal (v : json) : string :=
  match v with
  | JNull => "null"
  | JBool true => "true"
  | JBool false => "false"
  | JNum lit => lit
  | JStr s => print_string s
  | JArr l => "[" +:+ Join (Marshal <$> l) "," +:+ "]"
  | JObj l => "{" +:+ Join ((λ kv, print_string kv.1 +:+ ":" +:+ Marshal kv.2) <$> l) "," +:+ "}"
  end.

(** ** Decoding *)
Definition hex_value (c : Ascii.ascii) : option Z :=
  let n := byte c in
  if (48 <=? n) && (n <=? 57) then Some (n - 48)
  else if (97 <=? n) && (n <=? 102) then Some (n - 87)
  else if (65 <=? n) && (n <=? 70) then Some (n - 55)
  else None.

(** [getu4]. *)
Definition hex4 (a b c d : Ascii.ascii) : option Z :=
  w ← hex_value a; x ← hex_value b; y ← hex_value c; z ← hex_value d;
  Some (((w * 16 + x) * 16 + y) * 16 + z).

(** The escapes of one letter. *)
Definition short_escape (c : Ascii.ascii) : option Ascii.ascii :=
  let n := byte c in
  if (n =? 34) || (n =? 92) || (n =? 47) then Some c
  else if n =? 98 then Some (char 8)
  else if n =? 102 then Some (char 12)
  else if n =? 110 then Some (char 10)
  else if n =? 114 then Some (char 13)
  else if n =? 116 then Some (char 9)
  else None.

(** [stateInString] and the states of an escape: the text up to the closing
    quote, as it is written, and what follows it. *)
Fixpoint scan_string (s : string) : option (string * string) :=
  match s with
  | "" => None
  | String a s1 =>
      if a == dquote then Some ("", s1)
      else if a == backslash then
        match s1 with
        | "" => None
        | String e s2 =>
            if e == letter_u then
              match s2 with
              | String b (String c (String d (String f s3))) =>
                  _ ← hex4 b c d f; '(body, rest) ← scan_string s3;
                  Some (String a (String e (String b (String c (String d (String f body))))), rest)
              | _ => None
              end
            else _ ← short_escape e; '(body, rest) ← scan_string s2; Some (String a (String e body), rest)
        end
      else if byte_in 0 0x1F a then None
      else '(body, rest) ← scan_string s1; Some (String a body, rest)
  end.

(** [utf8.EncodeRune] of a character that is no surrogate. *)
Definition EncodeRune (n : Z) : string :=
  if n <=? 0x7F then bytes_of [n]
  else if n <=? 0x7FF then bytes_of [0xC0 + n / 64; 0x80 + n mod 64]
  else if n <=? 0xFFFF then bytes_of [0xE0 + n / 4096; 0x80 + n / 64 mod 64; 0x80 + n mod 64]
  else bytes_of [0xF0 + n / 262144; 0x80 + n / 4096 mod 64; 0x80 + n / 64 mod 64; 0x80 + n mod 64].

Definition IsSurrogate (n : Z) : bool := (0xD800 <=? n) && (n <? 0xE000).

(** [utf16.DecodeRune] of two halves. *)
Definition surrogate_pair (a b : Z) : option Z :=
  if (0xD800 <=? a) && (a <? 0xDC00) && (0xDC00 <=? b) && (b <? 0xE000)
  then Some ((a - 0xD800) * 1024 + (b - 0xDC00) + 0x10000) else None.

(** The escapes of a scanned text, resolved. *)
Fixpoint unescape (s : string) : string :=
  match s with
  | "" => ""
  | String a s1 =>
      if a == backslash then
        match s1 with
        | "" => ""
        | String e s2 =>
            if e == letter_u then
              match s2 with
              | String b (String c (String d (String f s3))) =>
                  let r := default 0 (hex4 b c d f) in
                  if IsSurrogate r then
                    match s3 with
                    | String a' (String e' (String b' (String c' (String d' (String f' s4))))) =>
                        match (if (a' == backslash) && (e' == letter_u) then hex4 b' c' d' f' ≫= surrogate_pair r else None) with
                        | Some full => EncodeRune full +:+ unescape s4
                        | None => replacement +:+ unescape s3
                        end
                    | _ => replacement +:+ unescape s3
                    end
                  else EncodeRune r +:+ unescape s3
              | _ => ""
              end
            else String (default e (short_escape e)) (unescape s2)
        end
      else String a (unescape s1)
  end.

(** [unquoteBytes]: an escape is ASCII, so the characters of the raw text are
    those of its parts. *)
Definition unquote (s : string) : string := unescape (ToValid s).

Definition is_ws (c : Ascii.ascii) : bool := let n := byte c in (n =? 32) || (n =? 9) || (n =? 13) || (n =? 10).
Fixpoint skip_ws (s : string) : string :=
  match s with
  | String c s' => if is_ws c then skip_ws s' else s
  | "" => ""
  end.

Definition json_digit (c : Ascii.ascii) : bool := byte_in 48 57 c.
Fixpoint span_digits (s : string) : string * string :=
  match s with
  | String c s' => if json_digit c then let '(d, rest) := span_digits s' in (String c d, rest) else ("", s)
  | "" => ("", "")
  end.

(** One digit at least. *)
Definition some_digits (s : string) : option (string * string) :=
  let '(d, rest) := span_digits s in if d == "" then None else Some (d, rest).

Definition scan_int (s : string) : option (string * string) :=
  match s with
  | String c s' => if byte c =? 48 then Some ("0", s') else some_digits s
  | "" => None
  end.
Definition scan_frac (s : string) : option (string * string) :=
  match s with
  | String c s' => if byte c =? 46 then '(d, rest) ← some_digits s'; Some (String c d, rest) else Some ("", s)
  | "" => Some ("", "")
  end.
Definition scan_exp_sign (s : string) : string * string :=
  match s with
  | String c s' => if (byte c =? 43) || (byte c =? 45) then (String c "", s') else ("", s)
  | "" => ("", "")
  end.
Definition scan_exp (s : string) : option (string * string) :=
  match s with
  | String c s' =>
      if (byte c =? 101) || (byte c =? 69) then
        let '(sign, s'') := scan_exp_sign s' in
        '(d, rest) ← some_digits s''; Some (String c (sign +:+ d), rest)
      else Some ("", s)
  | "" => Some ("", "")
  end.
Definition scan_sign (s : string) : string * string :=
  match s with
  | String c s' => if byte c =? 45 then ("-", s') else ("", s)
  | "" => ("", "")
  end.

Definition scan_number (s : string) : option (string * string) :=
  let '(sign, s) := scan_sign s in
  '(int, s) ← scan_int s; '(frac, s) ← scan_frac s; '(exp, s) ← scan_exp s;
  Some (sign +:+ int +:+ frac +:+ exp, s).

(** A literal without structure. *)
Definition scan_word (s : string) : option (json * string) :=
  if HasPrefix s "null" then Some (JNull, str_drop 4 s)
  else if HasPrefix s "true" then Some (JBool true, str_drop 4 s)
  else if HasPrefix s "false" then Some (JBool false, str_drop 5 s)
  else '(lit, rest) ← scan_number s; Some (JNum lit, rest).

Definition maxNestingDepth : nat := 10000.

(** The first character after white space, and what follows it. *)
Definition next_token (s : string) : option (Ascii.ascii * string) :=
  match skip_ws s with String c s => Some (c, s) | "" => None end.

Fixpoint json_value (fuel depth : nat) (s : string) {struct fuel} : option (json * string) :=
  match fuel with
  | O => None
  | S fuel =>
      '(c, s1) ← next_token s;
      if c == dquote then '(body, rest) ← scan_string s1; Some (JStr (unquote body), rest)
      else if c == open_bracket then
        match depth with
        | O => None
        | S depth => match next_token s1 with
                     | None => None
                     | Some (c, rest) => if c == close_bracket then Some (JArr [], rest)
                                         else '(l, rest) ← json_items fuel depth s1; Some (JArr l, rest)
                     end
        end
      else if c == open_brace then
        match depth with
        | O => None
        | S depth => match next_token s1 with
                     | None => None
                     | Some (c, rest) => if c == close_brace then Some (JObj [], rest)
                                         else '(l, rest) ← json_members fuel depth s1; Some (JObj l, rest)
                     end
        end
      else scan_word (String c s1)
  end
with json_items (fuel depth : nat) (s : string) {struct fuel} : option (list json * string) :=
  match fuel with
  | O => None
  | S fuel =>
      '(v, s1) ← json_value fuel depth s; '(c, s2) ← next_token s1;
      if c == value_separator then '(l, rest) ← json_items fuel depth s2; Some (v :: l, rest)
      else if c == close_bracket then Some ([v], s2) else None
  end
with json_members (fuel depth : nat) (s : string) {struct fuel} : option (list (string * json) * string) :=
  match fuel with
  | O => None
  | S fuel =>
      '(q, s0) ← next_token s;
      if negb (q == dquote) then None else
      '(key, s1) ← scan_string s0; '(p, s2) ← next_token s1;
      if negb (p == name_separator) then None else
      '(v, s3) ← json_value fuel depth s2; '(c, s4) ← next_token s3;
      if c == value_separator then '(l, rest) ← json_members fuel depth s4; Some ((unquote key, v) :: l, rest)
      else if c == close_brace then Some ([(unquote key, v)], s4) else None
  end.

(** Every character takes two steps at most. *)
Definition enough_fuel (s : string) : nat := 2 * str_len s + 2.

(** The first value of a text, and what follows it. *)
Definition first_value (s : string) : option (json * string) := json_value (enough_fuel s) maxNestingDepth s.

Definition bad_json : err := Errorf "json: invalid document".

(** [json.Unmarshal] and [Decoder.Decode] up to the value. *)
Definition Unmarshal (s : string) : result json :=
  match first_value s with
  | Some (v, rest) => if skip_ws rest == "" then Ok v else Err bad_json
  | None => Err bad_json
  end.
Definition Decode (s : string) : result json :=
  match first_value s with Some (v, _) => Ok v | None => Err bad_json end.

(** ** Filling a struct

    A member goes to the field of its name, upper or lower case; [null] leaves
    a field as it is; unknown members are ignored; any other type is an error. *)
Definition wrong_type : err := Errorf "json: cannot unmarshal value into Go struct field".

Definition into_string (old : string) (v : json) : result string :=
  match v with JStr s => Ok s | JNull => Ok old | _ => Err wrong_type end.
Definition into_bool (old : bool) (v : json) : result bool :=
  match v with JBool b => Ok b | JNull => Ok old | _ => Err wrong_type end.

Fixpoint fold_members {A} (step : A → string → json → result A) (a : A) (l : list (string * json)) : result A :=
  match l with
  | [] => Ok a
  | (k, v) :: l => try a <- step a k v; fold_members step a l
  end.

Definition into_struct {A} (step : A → string → json → result A) (old : A) (v : json) : result A :=
  match v with JObj l => fold_members step old l | JNull => Ok old | _ => Err wrong_type end.

(** A [map[string]string]; [null] makes the map nil, and [null] as a member is
    the empty text. *)
Definition strings_member (m : gmap string string) (k : string) (v : json) : result (gmap string string) :=
  try s <- into_string "" v; Ok (<[k := s]> m).
Definition into_strings (old : gmap string string) (v : json) : result (gmap string string) :=
  match v with
  | JNull => Ok ∅
  | _ => into_struct strings_member old v
  end.

(** A map is written by its sorted keys; the empty map stands for the nil map,
    which is [null]. *)
Definition of_strings (m : gmap string string) : json :=
  if (size m =? 0)%nat then JNull else
  JObj ((λ k, (k, JStr (default "" (m !! k)))) <$> sort_strings (elements (dom m))).

(** [omitempty]. *)
Definition omit_empty_member (name s : string) : list (string * json) := if s == "" then [] else [(name, JStr s)].

Example json_demo :
  Decode (String open_brace (print_string "a<" +:+ " :[1.5e-3 , null,true]} junk")) =
    Ok (JObj [("a<", JArr [JNum "1.5e-3"; JNull; JBool true])]) ∧
  Unmarshal "[1] x" = Err bad_json ∧ Unmarshal "[01]" = Err bad_json ∧ Unmarshal "[1,]" = Err bad_json ∧
  Marshal (JStr (bytes_of [60; 255; 9])) =
    String dquote (String backslash ("u003c" +:+ String backslash ("ufffd" +:+ String backslash ("t" +:+ String dquote "")))) ∧
  Unmarshal (String dquote (String backslash ("ud83d" +:+ String backslash ("ude00" +:+ String dquote "")))) =
    Ok (JStr (bytes_of [0xF0; 0x9F; 0x98; 0x80])).
Proof. vm_compute. auto 10. Qed.

(** ** The fuel of the parser *)
Lemma bind_ext {A B} (o : option A) (f g : A → option B) : (∀ x, o = Some x → f x = g x) → o ≫= f = o ≫= g.
Proof. destruct o; simpl; auto. Qed.

Lemma skip_ws_len s : (str_len (skip_ws s) ≤ str_len s)%nat.
Proof. induction s as [|c s IH]; simpl; [done|]. destruct (is_ws c); unfold str_len in *; simpl; lia. Qed.

Lemma token_len s c r : next_token s = Some (c, r) → (str_len r < str_len s)%nat.
Proof.
  unfold next_token. pose proof (skip_ws_len s) as Hs. destruct (skip_ws s) as [|d t]; [done|].
  intros [= -> ->]. unfold str_len in *. simpl in Hs. lia.
Qed.

(** Induction on the length of a text. *)
Lemma shorter_ind (P : string → Prop) : (∀ s, (∀ t, (str_len t < str_len s)%nat → P t) → P s) → ∀ s, P s.
Proof. intros H s. exact (well_founded_ind (well_founded_ltof _ str_len) P H s). Qed.

Lemma scan_string_len s : ∀ body rest, scan_string s = Some (body, rest) → (str_len rest < str_len s)%nat.
Proof.
  unfold str_len. induction s as [s IH] using shorter_ind. intros body rest.
  destruct s as [|a s]; [done|]. cbn [scan_string]. intros E. unfold str_len in *.
  repeat (case_match; simplify_option_eq; try done); simpl in *;
    try match goal with H : scan_string ?t = Some _ |- _ => apply IH in H end; lia.
Qed.

Lemma span_digits_len s d rest : span_digits s = (d, rest) → (str_len rest ≤ str_len s)%nat ∧ (d ≠ "" → str_len rest < str_len s)%nat.
Proof.
  revert d rest. induction s as [|c s IH]; simpl; intros d rest E; [by simplify_eq|].
  repeat case_match; simplify_eq; unfold str_len in *; simpl in *; [|done]. destruct (IH _ _ eq_refl). lia.
Qed.

Lemma some_digits_len s d rest : some_digits s = Some (d, rest) → (str_len rest < str_len s)%nat.
Proof.
  unfold some_digits. destruct (span_digits s) as [d' r] eqn:E. case_bool_decide; [done|]. intros [= <- <-].
  by apply span_digits_len in E as [_ ?]; auto.
Qed.

Lemma scan_number_len s lit rest : scan_number s = Some (lit, rest) → (str_len rest < str_len s)%nat.
Proof.
  unfold scan_number, scan_sign, scan_int, scan_frac, scan_exp, scan_exp_sign. intros E.
  repeat (case_match; simplify_option_eq; try done);
    repeat match goal with H : some_digits _ = Some _ |- _ => apply some_digits_len in H end; unfold str_len in *; simpl in *; lia.
Qed.

Lemma str_len_drop n s : str_len (str_drop n s) = (str_len s - n)%nat.
Proof. revert s. unfold str_len. induction n as [|n IH]; intros [|c s]; simpl; auto. Qed.

Lemma HasPrefix_len s p : HasPrefix s p = true → (str_len p ≤ str_len s)%nat.
Proof. intros (r & ->)%HasPrefix_spec. rewrite str_length_app. lia. Qed.

Lemma scan_word_len s v rest : scan_word s = Some (v, rest) → (str_len rest < str_len s)%nat.
Proof.
  unfold scan_word. intros E. repeat (case_match; simplify_option_eq; try done); rewrite ?str_len_drop;
    try match goal with H : HasPrefix _ _ = true |- _ => apply HasPrefix_len in H; unfold str_len in *; simpl in *; lia end.
  by eapply scan_number_len.
Qed.

(** Every parser consumes something. *)
Lemma parsers_len fuel : ∀ depth s,
  (∀ v r, json_value fuel depth s = Some (v, r) → (str_len r < str_len s)%nat) ∧
  (∀ l r, json_items fuel depth s = Some (l, r) → (str_len r < str_len s)%nat) ∧
  (∀ l r, json_members fuel depth s = Some (l, r) → (str_len r < str_len s)%nat).
Proof.
  induction fuel as [|fuel IH]; intros depth s; [done|].
  assert (∀ d t v r, json_value fuel d t = Some (v, r) → (str_len r < str_len t)%nat) as Hv by (intros d t; apply IH).
  assert (∀ d t v r, json_items fuel d t = Some (v, r) → (str_len r < str_len t)%nat) as Hi by (intros d t; apply IH).
  assert (∀ d t v r, json_members fuel d t = Some (v, r) → (str_len r < str_len t)%nat) as Hm by (intros d t; apply IH).
  clear IH. cbn [json_value json_items json_members].
  repeat split; intros v r E; simplify_option_eq; repeat (case_match; simplify_option_eq; try done);
    repeat match goal with
    | H : next_token _ = Some _ |- _ => apply token_len in H
    | H : scan_string _ = Some _ |- _ => apply scan_string_len in H
    | H : scan_word _ = Some _ |- _ => apply scan_word_len in H
    | H : json_value _ _ _ = Some _ |- _ => apply Hv in H
    | H : json_items _ _ _ = Some _ |- _ => apply Hi in H
    | H : json_members _ _ _ = Some _ |- _ => apply Hm in H
    end; unfold str_len in *; simpl in *; lia.
Qed.

(** With enough fuel, more makes no difference. *)
Lemma parsers_stable fuel : ∀ fuel' depth s,
  (2 * str_len s + 2 ≤ fuel → 2 * str_len s + 2 ≤ fuel' → json_value fuel depth s = json_value fuel' depth s)%nat ∧
  (2 * str_len s + 3 ≤ fuel → 2 * str_len s + 3 ≤ fuel' → json_items fuel depth s = json_items fuel' depth s)%nat ∧
  (2 * str_len s + 3 ≤ fuel → 2 * str_len s + 3 ≤ fuel' → json_members fuel depth s = json_members fuel' depth s)%nat.
Proof.
  induction fuel as [|fuel IH]; intros [|fuel'] depth s; [split; [|split]; lia..|].
  cbn [json_value json_items json_members]. split; [|split]; intros H1 H2.
  - apply bind_ext. intros [c s1] Ht%token_len. repeat (case_match; try done); f_equal; apply IH; lia.
  - replace (json_value fuel depth s) with (json_value fuel' depth s) by (symmetry; apply IH; lia).
    apply bind_ext. intros [v s1] Hv%parsers_len. apply bind_ext. intros [c s2] Ht%token_len.
    repeat (case_match; try done). f_equal. apply IH; lia.
  - apply bind_ext. intros [q s0] Hq%token_len. case_match; [done|].
    apply bind_ext. intros [k s1] Hk%scan_string_len. apply bind_ext. intros [p s2] Hp%token_len. case_match; [done|].
    replace (json_value fuel depth s2) with (json_value fuel' depth s2) by (symmetry; apply IH; lia).
    apply bind_ext. intros [v s3] Hv%parsers_len. apply bind_ext. intros [c s4] Ht%token_len.
    repeat (case_match; try done). f_equal. apply IH; lia.
Qed.

(** The parser finds what any fuel finds. *)
Lemma first_value_complete fuel s : (enough_fuel s ≤ fuel)%nat → first_value s = json_value fuel maxNestingDepth s.
Proof. intros Hf. apply parsers_stable; unfold enough_fuel in *; lia. Qed.

(** ** Characters and their escapes *)
Definition is_rune (r : string) : bool :=
  match r with
  | String a "" => byte_in 0 0x7F a
  | String a (String b "") => two_bytes a b
  | String a (String b (String c "")) => three_bytes a b c
  | String a (String b (String c (String d ""))) => four_bytes a b c d
  | _ => false
  end.

Definition rune_ok (r : option string) : Prop := from_option (λ r, is_rune r = true) True r.

Lemma runes_ok s : Forall rune_ok (runes s).
Proof.
  induction s as [s IH] using shorter_ind. unfold str_len in IH. destruct s as [|a s]; [constructor|]. cbn [runes].
  repeat (case_match; try (constructor; [done || (simpl; done)|]; apply IH; simpl; lia)).
Qed.

Ltac byte_tests :=
  unfold two_bytes, three_bytes, four_bytes, second_of_three, second_of_four, byte_in in *; cbv zeta in *; split_bool.

Lemma runes_cons r s : is_rune r = true → runes (r +:+ s) = Some r :: runes s.
Proof.
  destruct r as [|a [|b [|c [|d [|? ?]]]]]; try done; intros Hr; cbn [is_rune] in Hr; unfold String.app; fold String.app;
    cbn [String.app runes].
  - by rewrite Hr.
  - destruct (byte_in 0 0x7F a) eqn:Ha; [exfalso; byte_tests; lia|]. by rewrite Hr.
  - destruct (byte_in 0 0x7F a) eqn:Ha; [exfalso; byte_tests; lia|].
    destruct (two_bytes a b) eqn:Hb; [exfalso; byte_tests; lia|]. by rewrite Hr.
  - destruct (byte_in 0 0x7F a) eqn:Ha; [exfalso; byte_tests; lia|].
    destruct (two_bytes a b) eqn:Hb; [exfalso; byte_tests; lia|].
    destruct (three_bytes a b c) eqn:Hc; [exfalso; byte_tests; lia|]. by rewrite Hr.
Qed.

(** By the bits of an ASCII character. *)
Ltac by_bits c := destruct c as [[] [] [] [] [] [] [] []]; intros H; solve [discriminate H | repeat split; reflexivity].

Lemma escape_ascii_scan c t : byte_in 0 0x7F c = true →
  scan_string (escape_ascii c +:+ t) = '(body, rest) ← scan_string t; Some (escape_ascii c +:+ body, rest).
Proof. by_bits c. Qed.

Lemma escape_ascii_unescape c t : byte_in 0 0x7F c = true → unescape (escape_ascii c +:+ t) = String c (unescape t).
Proof. by_bits c. Qed.

Lemma escape_ascii_valid c t : byte_in 0 0x7F c = true → ToValid (escape_ascii c +:+ t) = escape_ascii c +:+ ToValid t.
Proof. by_bits c. Qed.

Fixpoint high (s : string) : bool := match s with String c s => byte_in 0x80 0xFF c && high s | "" => true end.

Lemma rune_high r : is_rune r = true → (∃ c, r = String c "" ∧ byte_in 0 0x7F c = true) ∨ high r = true.
Proof.
  destruct r as [|a [|b [|c [|d [|? ?]]]]]; try done; cbn [is_rune high]; intros Hr; [left; by exists a|right..];
    byte_tests; repeat case_match; split_bool;
    rewrite !andb_true_iff, ?Z.leb_le; repeat split; try done; lia.
Qed.

Lemma high_byte c : byte_in 0x80 0xFF c = true → (c == dquote) = false ∧ (c == backslash) = false ∧ byte_in 0 0x1F c = false.
Proof. by_bits c. Qed.

Lemma high_scan r t : high r = true → scan_string (r +:+ t) = '(body, rest) ← scan_string t; Some (r +:+ body, rest).
Proof.
  induction r as [|c r IH]; cbn [high]; intros Hr; [change ("" +:+ t) with t; by destruct (scan_string t) as [[]|]|]. split_bool.
  change (String c r +:+ t) with (String c (r +:+ t)). cbn [scan_string].
  destruct (high_byte c) as (-> & -> & ->); [done|]. rewrite IH by done. by destruct (scan_string t) as [[]|].
Qed.

Lemma high_unescape r t : high r = true → unescape (r +:+ t) = r +:+ unescape t.
Proof.
  induction r as [|c r IH]; cbn [high]; intros Hr; [done|]. split_bool.
  change (String c r +:+ t) with (String c (r +:+ t)). cbn [unescape].
  destruct (high_byte c) as (_ & -> & _); [done|]. by rewrite IH.
Qed.

(** An escaped character, read back. *)
Record rune_reads (r : option string) : Prop := {
  read_scan : ∀ t, scan_string (escape_rune r +:+ t) = '(body, rest) ← scan_string t; Some (escape_rune r +:+ body, rest);
  read_valid : ∀ t, ToValid (escape_rune r +:+ t) = escape_rune r +:+ ToValid t;
  read_unescape : ∀ t, unescape (escape_rune r +:+ t) = from_option id replacement r +:+ unescape t;
}.

Lemma runes_app_valid r t : is_rune r = true → ToValid (r +:+ t) = r +:+ ToValid t.
Proof. intros Hr. unfold ToValid. by rewrite runes_cons. Qed.

Lemma rune_reads_ok r : rune_ok r → rune_reads r.
Proof.
  destruct r as [r|]; [|by intros _; split]. simpl. intros Hr.
  destruct (rune_high r Hr) as [(c & -> & Hc)|Hh].
  { cbn [escape_rune]. split; intros t; [by apply escape_ascii_scan|by apply escape_ascii_valid|by apply escape_ascii_unescape]. }
  assert (escape_rune (Some r) = if r == line_separator then u_escape 0x2028
          else if r == paragraph_separator then u_escape 0x2029 else r) as Hesc.
  { destruct r as [|a [|b r]]; [done| |done]. simpl in Hr, Hh. exfalso. byte_tests. lia. }
  split; intros t; rewrite Hesc; clear Hesc; repeat case_bool_decide; subst; try done.
  - by apply high_scan.
  - by apply runes_app_valid.
  - by apply high_unescape.
Qed.

Lemma concat_cons {A} (f : A → string) a l : concat_str (f <$> a :: l) = f a +:+ concat_str (f <$> l).
Proof. done. Qed.

Lemma escape_reads rs t : Forall rune_ok rs →
  scan_string (concat_str (escape_rune <$> rs) +:+ String dquote t) = Some (concat_str (escape_rune <$> rs), t) ∧
  ToValid (concat_str (escape_rune <$> rs)) = concat_str (escape_rune <$> rs) ∧
  unescape (concat_str (escape_rune <$> rs)) = concat_str (from_option id replacement <$> rs).
Proof.
  induction 1 as [|r rs Hr _ (Hs & Hv & Hu)]; [done|]. apply rune_reads_ok in Hr as [Rs Rv Ru].
  rewrite !concat_cons, <- str_app_assoc, Rs, Rv, Ru, Hs, Hv, Hu. done.
Qed.

Lemma scan_escape s t : scan_string (escape s +:+ String dquote t) = Some (escape s, t).
Proof. apply escape_reads, runes_ok. Qed.

Lemma unquote_escape s : unquote (escape s) = ToValid s.
Proof. unfold unquote, escape. destruct (escape_reads (runes s) "" (runes_ok s)) as (_ & -> & ->). done. Qed.

Lemma concat_runes s : valid_utf8 s = true → ToValid s = s.
Proof.
  unfold valid_utf8, ToValid. induction s as [s IH] using shorter_ind. unfold str_len in IH. destruct s as [|a s]; [done|].
  cbn [runes]. intros H. repeat (case_match; try done); rewrite concat_cons; simpl in H; (apply IH in H; [|simpl; lia]); by rewrite H.
Qed.

(** ** Numbers followed by something *)
Definition stops (s : string) : Prop :=
  match s with String c _ => json_digit c = false ∧ byte c ≠ 46 ∧ byte c ≠ 101 ∧ byte c ≠ 69 | "" => True end.

Lemma span_digits_app s t d r : span_digits s = (d, r) → stops t → span_digits (s +:+ t) = (d, r +:+ t).
Proof.
  revert d r. induction s as [|c s IH]; cbn [span_digits]; intros d r E Ht.
  - simplify_eq. change (span_digits t = ("", t)). destruct t as [|c t]; [done|]. simpl in *. by destruct Ht as [-> _].
  - change (String c s +:+ t) with (String c (s +:+ t)). cbn [span_digits]. destruct (json_digit c); [|by simplify_eq].
    destruct (span_digits s) as [d' r'] eqn:Es. simplify_eq. by rewrite (IH _ _ eq_refl Ht).
Qed.

Lemma some_digits_app s t d r : some_digits s = Some (d, r) → stops t → some_digits (s +:+ t) = Some (d, r +:+ t).
Proof.
  unfold some_digits. intros E Ht. destruct (span_digits s) as [d' r'] eqn:Es.
  rewrite (span_digits_app _ _ _ _ Es Ht). case_bool_decide; by simplify_eq.
Qed.

Lemma scan_int_app s t d r : scan_int s = Some (d, r) → stops t → scan_int (s +:+ t) = Some (d, r +:+ t).
Proof.
  destruct s as [|c s]; [done|]. cbn [scan_int]. change (String c s +:+ t) with (String c (s +:+ t)). cbn [scan_int].
  destruct (byte c =? 48); [by intros [= <- <-]|]. apply (some_digits_app (String c s)).
Qed.

Lemma scan_frac_app s t d r : scan_frac s = Some (d, r) → stops t → scan_frac (s +:+ t) = Some (d, r +:+ t).
Proof.
  destruct s as [|c s].
  - intros [= <- <-] Ht. change (scan_frac t = Some ("", t)). destruct t as [|c t]; [done|]. simpl in *.
    destruct (Z.eqb_spec (byte c) 46); [naive_solver|done].
  - change (String c s +:+ t) with (String c (s +:+ t)). cbn [scan_frac]. destruct (byte c =? 46); [|by intros [= <- <-]].
    intros ([d' r'] & E & [= <- <-])%bind_Some Ht. by rewrite (some_digits_app _ _ _ _ E Ht).
Qed.

Lemma scan_exp_app s t d r : scan_exp s = Some (d, r) → stops t → scan_exp (s +:+ t) = Some (d, r +:+ t).
Proof.
  destruct s as [|c s].
  - intros [= <- <-] Ht. change (scan_exp t = Some ("", t)). destruct t as [|c t]; [done|]. simpl in *.
    destruct (Z.eqb_spec (byte c) 101), (Z.eqb_spec (byte c) 69); naive_solver.
  - change (String c s +:+ t) with (String c (s +:+ t)). cbn [scan_exp]. destruct (_ || _); [|by intros [= <- <-]].
    destruct s as [|e s]; [done|]. change (String e s +:+ t) with (String e (s +:+ t)). cbn [scan_exp_sign].
    destruct (_ || _); intros ([d' r'] & E & [= <- <-])%bind_Some Ht;
      [by rewrite (some_digits_app _ _ _ _ E Ht)|].
    change (String e (s +:+ t)) with (String e s +:+ t). by rewrite (some_digits_app _ _ _ _ E Ht).
Qed.

Lemma scan_number_app s t lit r : scan_number s = Some (lit, r) → stops t → scan_number (s +:+ t) = Some (lit, r +:+ t).
Proof.
  intros E Ht. destruct s as [|c s]; [done|]. unfold scan_number in *.
  change (String c s +:+ t) with (String c (s +:+ t)). cbn [scan_sign] in *.
  destruct (byte c =? 45); apply bind_Some in E as ([i s1] & Ei & ([f s2] & Ef & ([x s3] & Ex & [= <- <-])%bind_Some)%bind_Some);
    change (String c (s +:+ t)) with (String c s +:+ t);
    rewrite (scan_int_app _ _ _ _ Ei Ht); simpl; rewrite (scan_frac_app _ _ _ _ Ef Ht); simpl;
    by rewrite (scan_exp_app _ _ _ _ Ex Ht).
Qed.

(** ** What is encoded is decoded *)
Fixpoint well_formed (v : json) : bool :=
  match v with
  | JNum lit => scan_number lit == Some (lit, "")
  | JArr l => forallb well_formed l
  | JObj l => forallb (λ kv, well_formed kv.2) l
  | _ => true
  end.

Fixpoint nesting (v : json) : nat :=
  match v with
  | JArr l => S (foldr max O (nesting <$> l))
  | JObj l => S (foldr max O ((λ kv, nesting kv.2) <$> l))
  | _ => O
  end.

(** The value with every text made UTF-8. *)
Fixpoint ToValid_json (v : json) : json :=
  match v with
  | JStr s => JStr (ToValid s)
  | JArr l => JArr (ToValid_json <$> l)
  | JObj l => JObj ((λ kv, (ToValid kv.1, ToValid_json kv.2)) <$> l)
  | _ => v
  end.

Section Induction.
Variable P : json → Prop.
Hypothesis Hnull : P JNull.
Hypothesis Hbool : ∀ b, P (JBool b).
Hypothesis Hnum : ∀ lit, P (JNum lit).
Hypothesis Hstr : ∀ s, P (JStr s).
Hypothesis Harr : ∀ l, Forall P l → P (JArr l).
Hypothesis Hobj : ∀ l, Forall (P ∘ snd) l → P (JObj l).

Fixpoint json_nested_ind (v : json) : P v :=
  match v with
  | JNull => Hnull
  | JBool b => Hbool b
  | JNum lit => Hnum lit
  | JStr s => Hstr s
  | JArr l => Harr l ((fix go l : Forall P l := match l with [] => Forall_nil_2 P | v :: l => Forall_cons_2 P v l (json_nested_ind v) (go l) end) l)
  | JObj l => Hobj l ((fix go l : Forall (P ∘ snd) l :=
      match l with [] => Forall_nil_2 (P ∘ snd) | kv :: l => Forall_cons_2 (P ∘ snd) kv l (json_nested_ind kv.2) (go l) end) l)
  end.
End Induction.

(** [finds parse s x rest]: with enough fuel, the parser reads [x] off [s]. *)
Definition finds {A} (parse : nat → string → option (A * string)) (s : string) (x : A) (rest : string) : Prop :=
  ∃ f, ∀ f', (f ≤ f')%nat → parse f' s = Some (x, rest).

Definition reads_back (v : json) : Prop := ∀ depth rest,
  well_formed v = true → (nesting v ≤ depth)%nat → stops rest → finds (λ f, json_value f depth) (Marshal v +:+ rest) (ToValid_json v) rest.

Lemma finds_step {A} (parse : nat → string → option (A * string)) s x rest :
  finds (λ f, parse (S f)) s x rest → finds parse s x rest.
Proof. intros [f Hf]. exists (S f). intros [|f'] Hf'; [lia|]. apply Hf. lia. Qed.

Lemma print_string_app s t : print_string s +:+ t = String dquote (escape s +:+ String dquote t).
Proof.
  unfold print_string. change (String dquote ((escape s +:+ String dquote "") +:+ t) = String dquote (escape s +:+ String dquote t)).
  by rewrite <- str_app_assoc.
Qed.

Lemma value_string f depth s : json_value (S f) depth (String dquote s) = '(body, rest) ← scan_string s; Some (JStr (unquote body), rest).
Proof. reflexivity. Qed.
Lemma value_items f depth s c t : next_token s = Some (c, t) → (c == close_bracket) = false →
  json_value (S f) (S depth) (String open_bracket s) = '(l, rest) ← json_items f depth s; Some (JArr l, rest).
Proof.
  intros Ht Hc. change (json_value (S f) (S depth) (String open_bracket s)) with
    (match next_token s with None => None | Some (c, rest) => if c == close_bracket then Some (JArr [], rest)
       else '(l, rest) ← json_items f depth s; Some (JArr l, rest) end). by rewrite Ht, Hc.
Qed.
Lemma value_members f depth s :
  json_value (S f) (S depth) (String open_brace (String dquote s)) = '(l, rest) ← json_members f depth (String dquote s); Some (JObj l, rest).
Proof. reflexivity. Qed.

Lemma string_reads_back s depth rest : finds (λ f, json_value f depth) (print_string s +:+ rest) (JStr (ToValid s)) rest.
Proof. apply finds_step. exists O. intros f _. by rewrite print_string_app, value_string, scan_escape, <- unquote_escape. Qed.

Lemma digit_head c t : json_digit c = true ∨ byte c = 45 →
  next_token (String c t) = Some (c, t) ∧ (c == dquote) = false ∧ (c == open_bracket) = false ∧ (c == open_brace) = false ∧
  (c == close_bracket) = false ∧ HasPrefix (String c t) "null" = false ∧ HasPrefix (String c t) "true" = false ∧ HasPrefix (String c t) "false" = false.
Proof. destruct c as [[] [] [] [] [] [] [] []]; (intros [H|H]; [|]); solve [discriminate H | repeat split; reflexivity]. Qed.

Lemma number_head s x : scan_number s = Some x → ∃ c t, s = String c t ∧ (json_digit c = true ∨ byte c = 45).
Proof.
  destruct s as [|c s]; [done|]. intros E. exists c, s. split; [done|]. unfold scan_number in E. cbn [scan_sign] in E.
  destruct (Z.eqb_spec (byte c) 45); [by right|left]. cbn [scan_int] in E. destruct (Z.eqb_spec (byte c) 48) as [H0|].
  - unfold json_digit, byte_in. fold (byte c). rewrite H0. done.
  - unfold some_digits in E. cbn [span_digits] in E. by destruct (json_digit c).
Qed.

Lemma number_reads_back lit : reads_back (JNum lit).
Proof.
  intros depth rest Hw%bool_decide_eq_true _ Hs. apply finds_step. exists O. intros f _.
  pose proof (scan_number_app _ _ _ _ Hw Hs) as Hn. destruct (number_head _ _ Hw) as (c & t & -> & Hc).
  change (Marshal (JNum (String c t))) with (String c t). change (String c t +:+ rest) with (String c (t +:+ rest)) in *.
  destruct (digit_head c (t +:+ rest) Hc) as (Ht & H1 & H2 & H3 & _ & P1 & P2 & P3).
  cbn [json_value]. rewrite Ht. cbn [mbind option_bind]. rewrite H1, H2, H3. unfold scan_word. by rewrite P1, P2, P3, Hn.
Qed.

Lemma Marshal_head v r : well_formed v = true → ∃ c t, next_token (Marshal v +:+ r) = Some (c, t) ∧ (c == close_bracket) = false.
Proof.
  destruct v as [|[]|lit|s|l|l]; intros Hw; try (eexists _, _; split; reflexivity).
  apply bool_decide_eq_true, number_head in Hw as (c & t & -> & Hc).
  destruct (digit_head c (t +:+ r) Hc) as (Ht & _ & _ & _ & H1 & _). by exists c, (t +:+ r).
Qed.

Lemma stops_comma t : stops (String value_separator t).
Proof. done. Qed.
Lemma stops_bracket t : stops (String close_bracket t).
Proof. done. Qed.
Lemma stops_brace t : stops (String close_brace t).
Proof. done. Qed.
#[local] Hint Resolve stops_comma stops_bracket stops_brace : core.

Lemma items_read_back depth rest l : ∀ v, reads_back v → Forall reads_back l → forallb well_formed (v :: l) = true →
  (foldr max O (nesting <$> v :: l) ≤ depth)%nat →
  finds (λ f, json_items f depth) (Join (Marshal <$> v :: l) "," +:+ String close_bracket rest) (ToValid_json <$> v :: l) rest.
Proof.
  induction l as [|v' l IH]; intros v Hv Hl Hw Hd; cbn [forallb fmap list_fmap foldr] in Hw, Hd; split_bool; apply finds_step.
  - destruct (Hv depth (String close_bracket rest)) as [f Hf]; [done|lia|done|]. exists f. intros f' Hf'.
    cbn [json_items]. cbn [fmap list_fmap Join]. by rewrite Hf.
  - inversion Hl as [|? ? Hv' Hl']; subst. destruct (IH v' Hv' Hl') as [g Hg]; [cbn [forallb snd]; by rewrite !andb_true_iff|cbn [fmap list_fmap foldr snd] in *; lia|].
    change (Join (Marshal <$> v :: v' :: l) ",") with (Marshal v +:+ String value_separator (Join (Marshal <$> v' :: l) ",")).
    rewrite <- str_app_assoc. change (String value_separator ?s +:+ ?t) with (String value_separator (s +:+ t)).
    destruct (Hv depth (String value_separator (Join (Marshal <$> v' :: l) "," +:+ String close_bracket rest))) as [f Hf]; [done|lia|done|].
    exists (f + g)%nat. intros f' Hf'. cbn [json_items]. rewrite Hf by lia. cbn [mbind option_bind].
    change (next_token (String value_separator ?s)) with (Some (value_separator, s)). cbn [mbind option_bind].
    change (value_separator == value_separator) with true. cbv iota. by rewrite Hg by lia.
Qed.

Lemma member_step f depth key s : json_members (S f) depth (print_string key +:+ String name_separator s) =
  '(v, s3) ← json_value f depth s; '(c, s4) ← next_token s3;
  if c == value_separator then '(l, rest) ← json_members f depth s4; Some ((ToValid key, v) :: l, rest)
  else if c == close_brace then Some ([(ToValid key, v)], s4) else None.
Proof.
  rewrite print_string_app. cbn [json_members]. change (next_token (String dquote ?s)) with (Some (dquote, s)). cbn [mbind option_bind].
  change (negb (dquote == dquote)) with false. cbv iota. rewrite scan_escape. cbn [mbind option_bind].
  change (next_token (String name_separator s)) with (Some (name_separator, s)). cbn [mbind option_bind].
  change (negb (name_separator == name_separator)) with false. cbv iota. by rewrite unquote_escape.
Qed.

Definition print_member (kv : string * json) : string := print_string kv.1 +:+ ":" +:+ Marshal kv.2.
Definition ToValid_member (kv : string * json) : string * json := (ToValid kv.1, ToValid_json kv.2).

Lemma members_read_back depth rest l : ∀ kv, reads_back kv.2 → Forall (reads_back ∘ snd) l →
  forallb (λ kv, well_formed kv.2) (kv :: l) = true → (foldr max O ((λ kv, nesting kv.2) <$> kv :: l) ≤ depth)%nat →
  finds (λ f, json_members f depth) (Join (print_member <$> kv :: l) "," +:+ String close_brace rest) (ToValid_member <$> kv :: l) rest.
Proof.
  induction l as [|kv' l IH]; intros [k v] Hv Hl Hw Hd; cbn [forallb fmap list_fmap foldr fst snd] in Hv, Hw, Hd; split_bool;
    apply finds_step.
  - destruct (Hv depth (String close_brace rest)) as [f Hf]; [done|lia|done|]. exists f. intros f' Hf'.
    cbn [fmap list_fmap Join]. unfold print_member. cbn [fst snd]. rewrite <- str_app_assoc.
    change ((":" +:+ Marshal v) +:+ ?t) with (String name_separator (Marshal v +:+ t)). by rewrite member_step, Hf.
  - inversion Hl as [|? ? Hv' Hl']; subst. destruct (IH kv' Hv' Hl') as [g Hg]; [cbn [forallb snd]; by rewrite !andb_true_iff|cbn [fmap list_fmap foldr snd] in *; lia|].
    change (Join (print_member <$> (k, v) :: kv' :: l) ",") with (print_member (k, v) +:+ String value_separator (Join (print_member <$> kv' :: l) ",")).
    unfold print_member at 1. cbn [fst snd]. rewrite <- !str_app_assoc.
    change (":" +:+ Marshal v +:+ ?t) with (String name_separator (Marshal v +:+ t)). change (String value_separator ?s +:+ ?t) with (String value_separator (s +:+ t)).
    destruct (Hv depth (String value_separator (Join (print_member <$> kv' :: l) "," +:+ String close_brace rest))) as [f Hf]; [done|lia|done|].
    exists (f + g)%nat. intros f' Hf'. rewrite member_step, Hf by lia. cbn [mbind option_bind].
    change (next_token (String value_separator ?s)) with (Some (value_separator, s)). cbn [mbind option_bind].
    change (value_separator == value_separator) with true. cbv iota. by rewrite Hg by lia.
Qed.

Lemma words_read f depth rest :
  json_value (S f) depth ("null" +:+ rest) = Some (JNull, rest) ∧ json_value (S f) depth ("true" +:+ rest) = Some (JBool true, rest) ∧
  json_value (S f) depth ("false" +:+ rest) = Some (JBool false, rest).
Proof.
  change (json_value (S f) depth ("null" +:+ rest)) with (scan_word ("null" +:+ rest)).
  change (json_value (S f) depth ("true" +:+ rest)) with (scan_word ("true" +:+ rest)).
  change (json_value (S f) depth ("false" +:+ rest)) with (scan_word ("false" +:+ rest)).
  unfold scan_word. by rewrite !HasPrefix_app.
Qed.

Lemma all_read_back v : reads_back v.
Proof.
  induction v as [| | | |[|v l] Hl|[|[k v] l] Hl] using json_nested_ind; intros depth rest Hw Hd Hs.
  - apply finds_step. exists O. intros f _. apply words_read.
  - apply finds_step. exists O. intros f _. destruct b; apply words_read.
  - by apply number_reads_back.
  - apply string_reads_back.
  - destruct depth; [simpl in Hd; lia|]. apply finds_step. exists O. intros f _. reflexivity.
  - destruct depth as [|depth]; [simpl in Hd; lia|]. inversion Hl as [|? ? Hv Hl']; subst. simpl in Hd.
    destruct (items_read_back depth rest l v Hv Hl' Hw) as [f Hf]; [simpl; lia|]. apply finds_step. exists f. intros f' Hf'.
    change (Marshal (JArr (v :: l)) +:+ rest) with (String open_bracket ((Join (Marshal <$> v :: l) "," +:+ "]") +:+ rest)).
    rewrite <- str_app_assoc. change ("]" +:+ rest) with (String close_bracket rest).
    assert (∃ t, Join (Marshal <$> v :: l) "," +:+ String close_bracket rest = Marshal v +:+ t) as [t Ht].
    { destruct l as [|v' l]; [by eexists|]. simpl. rewrite <- str_app_assoc. by eexists. }
    destruct (Marshal_head v t) as (c & t' & Hc & Hb); [simpl in Hw; by split_bool|].
    rewrite (value_items _ _ _ c t'); [by rewrite Hf|by rewrite Ht|done].
  - destruct depth; [simpl in Hd; lia|]. apply finds_step. exists O. intros f _. reflexivity.
  - destruct depth as [|depth]; [simpl in Hd; lia|]. inversion Hl as [|? ? Hv Hl']; subst. simpl in Hd.
    destruct (members_read_back depth rest l (k, v) Hv Hl' Hw) as [f Hf]; [simpl; lia|]. apply finds_step. exists f. intros f' Hf'.
    change (Marshal (JObj ((k, v) :: l)) +:+ rest) with (String open_brace ((Join (print_member <$> (k, v) :: l) "," +:+ "}") +:+ rest)).
    rewrite <- str_app_assoc. change ("}" +:+ rest) with (String close_brace rest). specialize (Hf f' Hf').
    assert (∃ t, Join (print_member <$> (k, v) :: l) "," +:+ String close_brace rest = String dquote t) as [t Ht].
    { destruct l as [|kv' l]; by eexists. }
    rewrite Ht in *. by rewrite value_members, Hf.
Qed.

(** What [Marshal] writes, [Unmarshal] and [Decode] read back, with every text
    made UTF-8, up to the nesting the decoder accepts. *)
Lemma Marshal_first v rest : well_formed v = true → (nesting v ≤ maxNestingDepth)%nat → stops rest →
  first_value (Marshal v +:+ rest) = Some (ToValid_json v, rest).
Proof.
  intros Hw Hd Hs. destruct (all_read_back v maxNestingDepth rest Hw Hd Hs) as [f Hf].
  rewrite (first_value_complete (f + enough_fuel (Marshal v +:+ rest))) by lia. apply Hf. lia.
Qed.

Lemma Unmarshal_Marshal v : well_formed v = true → (nesting v ≤ maxNestingDepth)%nat → Unmarshal (Marshal v) = Ok (ToValid_json v).
Proof.
  intros Hw Hd. unfold Unmarshal. pose proof (Marshal_first v "" Hw Hd I) as H. rewrite str_app_empty_r in H. by rewrite H.
Qed.

Lemma Decode_Marshal v rest : well_formed v = true → (nesting v ≤ maxNestingDepth)%nat → stops rest →
  Decode (Marshal v +:+ rest) = Ok (ToValid_json v).
Proof. intros Hw Hd Hs. unfold Decode. by rewrite Marshal_first. Qed.

Fixpoint valid_json (v : json) : bool :=
  match v with
  | JStr s => valid_utf8 s
  | JArr l => forallb valid_json l
  | JObj l => forallb (λ kv, valid_utf8 kv.1 && valid_json kv.2) l
  | _ => true
  end.

Lemma ToValid_json_id v : valid_json v = true → ToValid_json v = v.
Proof.
  induction v as [| | |s|l IH|l IH] using json_nested_ind; try done; cbn [valid_json ToValid_json]; intros Hv; f_equal.
  - by apply concat_runes.
  - induction IH as [|v l Hv' _ IHl]; [done|]. cbn [forallb] in Hv. split_bool. cbn [fmap list_fmap]. f_equal; auto.
  - induction IH as [|[k v] l Hv' _ IHl]; [done|]. cbn [forallb fst snd] in Hv. split_bool. cbn [fmap list_fmap fst snd].
    rewrite concat_runes by done. f_equal; [f_equal; by apply Hv'|auto].
Qed.

(** A document of valid texts comes back as it was. *)
Lemma Unmarshal_exact v : well_formed v = true → valid_json v = true → (nesting v ≤ maxNestingDepth)%nat → Unmarshal (Marshal v) = Ok v.
Proof. intros. by rewrite Unmarshal_Marshal, ToValid_json_id. Qed.

Lemma shallow n : (n ≤ 100)%nat → (n ≤ maxNestingDepth)%nat.
Proof. intros Hn. transitivity 100%nat; [done|]. apply Nat.leb_le. vm_compute. reflexivity. Qed.

(** ** Decimal numbers *)
Fixpoint all_digits (s : string) : bool := match s with String c s => json_digit c && all_digits s | "" => true end.

Lemma span_all s : all_digits s = true → span_digits s = (s, "").
Proof. induction s as [|c s IH]; [done|]. cbn [all_digits span_digits]. intros H. split_bool. by rewrite H, IH. Qed.

Lemma pretty_digit x : (x < 10)%N → json_digit (pretty_N_char x) = true ∧ (x ≠ 0%N → byte (pretty_N_char x) ≠ 48).
Proof.
  intros Hx. assert (x = 0 ∨ x = 1 ∨ x = 2 ∨ x = 3 ∨ x = 4 ∨ x = 5 ∨ x = 6 ∨ x = 7 ∨ x = 8 ∨ x = 9)%N as Hc by lia.
  naive_solver.
Qed.

Lemma pretty_go_digits x : (0 < x)%N → ∀ s, all_digits s = true →
  ∃ c t, pretty_N_go x s = String c t ∧ byte c ≠ 48 ∧ json_digit c = true ∧ all_digits t = true.
Proof.
  induction (N.lt_wf_0 x) as [x _ IH]. intros Hx s Hs. rewrite pretty_N_go_step by done.
  destruct (pretty_digit (x `mod` 10)) as [Hd Hz]; [apply N.mod_lt; lia|].
  destruct (decide (x / 10 = 0)%N) as [E|E].
  - rewrite E, pretty_N_go_0. eexists _, s. split; [done|]. split; [|done]. apply Hz. apply N.div_small_iff in E; [|lia]. rewrite N.mod_small; lia.
  - apply IH; [by apply N.div_lt|by apply N.neq_0_lt_0|]. cbn [all_digits]. by rewrite Hd.
Qed.

Lemma some_digits_head c t : byte c ≠ 48 → json_digit c = true → all_digits t = true → scan_int (String c t) = Some (String c t, "").
Proof.
  intros Hz Hd Ht. cbn [scan_int]. destruct (Z.eqb_spec (byte c) 48); [done|]. unfold some_digits.
  rewrite span_all by (cbn [all_digits]; by rewrite Hd). done.
Qed.

Lemma pretty_pos_number p sign : scan_sign (sign +:+ pretty (Npos p)) = (sign, pretty (Npos p)) → 
  scan_number (sign +:+ pretty (Npos p)) = Some (sign +:+ pretty (Npos p), "").
Proof.
  intros Hs. unfold scan_number. rewrite Hs. change (pretty (Npos p)) with (pretty_N_go (Npos p) "").
  destruct (pretty_go_digits (Npos p) ltac:(lia) "" eq_refl) as (c & t & -> & Hz & Hd & Ht).
  rewrite some_digits_head by done. cbn [mbind option_bind scan_frac scan_exp]. by rewrite !str_app_empty_r.
Qed.

(** An integer is written as a JSON number. *)
Lemma pretty_number (z : Z) : scan_number (pretty z) = Some (pretty z, "").
Proof.
  destruct z as [|p|p]; [done| |].
  - apply (pretty_pos_number p ""). change ("" +:+ pretty (Npos p)) with (pretty_N_go (Npos p) "").
    change (pretty (Npos p)) with (pretty_N_go (Npos p) "").
    destruct (pretty_go_digits (Npos p) ltac:(lia) "" eq_refl) as (c & t & -> & _ & Hd & _). cbn [scan_sign].
    destruct (Z.eqb_spec (byte c) 45) as [E|]; [|done]. unfold json_digit, byte_in in Hd. unfold byte in E. rewrite E in Hd. done.
  - by apply (pretty_pos_number p "-").
Qed.
