(* ===== verification/GoTime.v ===== *)
(** * Go time values

    [time.Duration] and [time.Time] as the sources use them: nanosecond counts
    ([Z]), [time.ParseDuration], and the [RFC3339Nano] text of a UTC time that
    [internal/store/sqlite] writes to its TEXT columns and compares in SQL. *)

From S2P Require Import Prelude.

Definition Duration : Type := Z.
Definition Millisecond : Duration := 1000000.
Definition Second : Duration := 1000000000.
Definition Minute : Duration := 60 * Second.
Definition Hour : Duration := 60 * Minute.

(** ** [time.ParseDuration] *)
Module ParseDuration.

Definition digit (c : Ascii.ascii) : option Z :=
  let n := Z.of_nat (Ascii.nat_of_ascii c) in
  if (48 <=? n) && (n <=? 57) then Some (n - 48) else None.

Definition is_digit (c : Ascii.ascii) : bool :=
  match digit c with Some _ => true | None => false end.

(** [leadingInt]: the value of the longest digit prefix and the rest; [None]
    when the value exceeds 2^63. *)
Fixpoint leading_int (acc : Z) (s : string) : option (Z * string) :=
  match s with
  | String c s' =>
      match digit c with
      | Some d => if 2 ^ 63 <? acc * 10 + d then None else leading_int (acc * 10 + d) s'
      | None => Some (acc, s)
      end
  | EmptyString => Some (acc, EmptyString)
  end.

(** [leadingFraction]: numerator and denominator of the digits after the point;
    digits that would overflow are dropped. *)
Fixpoint leading_fraction (acc scale : Z) (s : string) : Z * Z * string :=
  match s with
  | String c s' =>
      match digit c with
      | Some d =>
          if 2 ^ 63 <? acc * 10 + d then leading_fraction acc scale s'
          else leading_fraction (acc * 10 + d) (scale * 10) s'
      | None => (acc, scale, s)
      end
  | EmptyString => (acc, scale, EmptyString)
  end.

Definition point : Ascii.ascii := Ascii.ascii_of_nat 46.

Fixpoint span_unit (s : string) : string * string :=
  match s with
  | String c s' =>
      if bool_decide (c = point) || is_digit c then (EmptyString, s)
      else let '(u, r) := span_unit s' in (String c u, r)
  | EmptyString => (EmptyString, EmptyString)
  end.

Definition unit_of (u : string) : option Z :=
  if u == "ns" then Some 1
  else if u == "us" then Some 1000
  else if u == "ms" then Some Millisecond
  else if u == "s" then Some Second
  else if u == "m" then Some Minute
  else if u == "h" then Some Hour
  else None.

(** One [number unit] group per iteration; every group consumes input, so the
    length of the string bounds the iterations. *)
Fixpoint groups (fuel : nat) (d : Z) (s : string) : option Z :=
  match fuel, s with
  | _, EmptyString => Some d
  | O, _ => None
  | S fuel, String c _ =>
      if negb (bool_decide (c = point) || is_digit c) then None else
      match leading_int 0 s with
      | None => None
      | Some (v, s1) =>
          let pre := negb (str_len s =? str_len s1)%nat in
          let '(f, scale, s2, post) :=
            match s1 with
            | String c1 s1' =>
                if bool_decide (c1 = point) then
                  let '(f, scale, s2) := leading_fraction 0 1 s1' in
                  (f, scale, s2, negb (str_len s1' =? str_len s2)%nat)
                else (0, 1, s1, false)
            | EmptyString => (0, 1, s1, false)
            end in
          if negb pre && negb post then None else
          let '(u, s3) := span_unit s2 in
          match unit_of u with
          | None => None
          | Some unit =>
              if 2 ^ 63 / unit <? v then None else
              let v' := v * unit + f * unit / scale in
              if 2 ^ 63 <? v' then None else
              if 2 ^ 63 <? d + v' then None else groups fuel (d + v') s3
          end
      end
  end.

End ParseDuration.

Definition ParseDuration (s : string) : result Duration :=
  let bad := Err (Errorf ("time: invalid duration " +:+ quote s)) in
  let '(neg, body) :=
    match s with
    | String c s' =>
        if bool_decide (c = Ascii.ascii_of_nat 45) then (true, s')
        else if bool_decide (c = Ascii.ascii_of_nat 43) then (false, s')
        else (false, s)
    | EmptyString => (false, s)
    end in
  if body == "0" then Ok 0
  else if body == "" then bad
  else match ParseDuration.groups (str_len body) 0 body with
       | None => bad
       | Some d =>
           if neg then Ok (- d)
           else if 2 ^ 63 - 1 <? d then bad else Ok d
       end.

Example parse_5m : ParseDuration "5m" = Ok (5 * Minute).
Proof. reflexivity. Qed.
Example parse_1h30m : ParseDuration "1h30m" = Ok (90 * Minute).
Proof. reflexivity. Qed.
Example parse_1_5s : ParseDuration "1.5s" = Ok (1500 * Millisecond).
Proof. reflexivity. Qed.
Example parse_5min : is_ok (ParseDuration "5min") = false.
Proof. reflexivity. Qed.
Example parse_empty : is_ok (ParseDuration "") = false.
Proof. reflexivity. Qed.

(** ** [time.Time] in UTC and its [RFC3339Nano] text *)
Definition Time : Type := Z.  (* nanoseconds since the Unix epoch *)

(** The zero [time.Time]: the first of January of year 1. *)
Definition zero_time : Time := -62135596800 * Second.

Record Civil := { c_year : Z; c_month : Z; c_day : Z }.

(** Proleptic Gregorian date of a day number counted from 1970-01-01. *)
Definition civil_of_days (days : Z) : Civil :=
  let z := days + 719468 in
  let era := z / 146097 in
  let doe := z mod 146097 in
  let yoe := (doe - doe / 1460 + doe / 36524 - doe / 146096) / 365 in
  let doy := doe - (365 * yoe + yoe / 4 - yoe / 100) in
  let mp := (5 * doy + 2) / 153 in
  let d := doy - (153 * mp + 2) / 5 + 1 in
  let m := if mp <? 10 then mp + 3 else mp - 9 in
  {| c_year := yoe + era * 400 + (if m <=? 2 then 1 else 0); c_month := m; c_day := d |}.

Definition digit_char (d : Z) : Ascii.ascii := Ascii.ascii_of_nat (Z.to_nat (48 + d)).

(** Decimal digits of [n], zero padded to [w] places. *)
Fixpoint pad (w : nat) (n : Z) (rest : string) : string :=
  match w with
  | O => rest
  | S w => pad w (n / 10) (String (digit_char (n mod 10)) rest)
  end.

(** The fraction of a second: nine digits, trailing zeros removed, nothing at
    all when it is zero. *)
Fixpoint trim_zeros (w : nat) (n : Z) : nat * Z :=
  match w with
  | O => (O, n)
  | S w' => if n mod 10 =? 0 then trim_zeros w' (n / 10) else (w, n)
  end.
Definition fraction (ns : Z) (rest : string) : string :=
  match trim_zeros 9 ns with
  | (O, _) => rest
  | (w, n) => String ParseDuration.point (pad w n rest)
  end.

(** [t.Format(time.RFC3339Nano)] for a UTC time. *)
Definition FormatRFC3339Nano (t : Time) : string :=
  let secs := t / Second in
  let ns := t mod Second in
  let days := secs / 86400 in
  let sod := secs mod 86400 in
  let c := civil_of_days days in
  pad 4 (c_year c) ("-" +:+ pad 2 (c_month c) ("-" +:+ pad 2 (c_day c) ("T" +:+
  pad 2 (sod / 3600) (":" +:+ pad 2 (sod / 60 mod 60) (":" +:+ pad 2 (sod mod 60)
  (fraction ns "Z")))))).

#[global] Arguments FormatRFC3339Nano : simpl never.

Example format_epoch : FormatRFC3339Nano 0 = "1970-01-01T00:00:00Z".
Proof. reflexivity. Qed.
Example format_half : FormatRFC3339Nano (1790000000 * Second + 500000000) = "2026-09-21T14:13:20.5Z".
Proof. reflexivity. Qed.
Example format_leap : FormatRFC3339Nano (951782400 * Second + 120) = "2000-02-29T00:00:00.00000012Z".
Proof. reflexivity. Qed.

(** [t.Format("20060102T150405.000000000")], the id layout: fixed width. *)
Definition FormatID (t : Time) : string :=
  let secs := t / Second in
  let sod := secs mod 86400 in
  let c := civil_of_days (secs / 86400) in
  pad 4 (c_year c) (pad 2 (c_month c) (pad 2 (c_day c) ("T" +:+
  pad 2 (sod / 3600) (pad 2 (sod / 60 mod 60) (pad 2 (sod mod 60)
  ("." +:+ pad 9 (t mod Second) "")))))).

Example format_id : FormatID (1790000000 * Second + 500000000) = "20260921T141320.500000000".
Proof. reflexivity. Qed.

(** ** Text order

    SQL compares the time columns as text, so the order of [FormatRFC3339Nano]
    is what [ORDER BY] and [expires_at <= ?] see. *)
Definition then_ (c d : comparison) : comparison := match c with Eq => d | _ => c end.

Lemma compare_cons c1 s1 c2 s2 :
  String.compare (String c1 s1) (String c2 s2) = then_ (Ascii.compare c1 c2) (String.compare s1 s2).
Proof. simpl. by destruct (Ascii.compare c1 c2). Qed.

Lemma compare_same c s1 s2 : String.compare (String c s1) (String c s2) = String.compare s1 s2.
Proof.
  rewrite compare_cons. replace (Ascii.compare c c) with Eq; [done|].
  unfold Ascii.compare. by rewrite N.compare_refl.
Qed.

Definition digits : list Z := [0;1;2;3;4;5;6;7;8;9].

Lemma digit_compare x y :
  0 ≤ x < 10 → 0 ≤ y < 10 → Ascii.compare (digit_char x) (digit_char y) = (x ?= y).
Proof.
  intros Hx Hy.
  assert (forallb (λ p, bool_decide (Ascii.compare (digit_char p.1) (digit_char p.2) = (p.1 ?= p.2)))
    (list_prod digits digits) = true) as H by (vm_compute; reflexivity).
  rewrite forallb_forall in H. specialize (H (x, y)). apply bool_decide_eq_true in H; [done|].
  assert (∀ z, 0 ≤ z < 10 → In z digits) as Hd by (intros z Hz; unfold digits; simpl; lia).
  apply in_prod; auto.
Qed.

Lemma compare_pad w a b r1 r2 :
  0 ≤ a < 10 ^ Z.of_nat w → 0 ≤ b < 10 ^ Z.of_nat w →
  String.compare (pad w a r1) (pad w b r2) = then_ (a ?= b) (String.compare r1 r2).
Proof.
  revert a b r1 r2. induction w as [|w IH]; intros a b r1 r2 Ha Hb; cbn [pad].
  - replace a with 0 by (simpl in *; lia). replace b with 0 by (simpl in *; lia). done.
  - rewrite Nat2Z.inj_succ, Z.pow_succ_r in Ha, Hb by lia.
    pose proof (Z.div_mod a 10). pose proof (Z.mod_pos_bound a 10).
    pose proof (Z.div_mod b 10). pose proof (Z.mod_pos_bound b 10).
    rewrite IH by lia. rewrite compare_cons, digit_compare by lia.
    destruct (Z.compare_spec (a / 10) (b / 10)), (Z.compare_spec (a mod 10) (b mod 10)),
      (Z.compare_spec a b); simpl; try done; try lia.
Qed.

(** The calendar: a number that grows with the date. *)
Definition civil_key (c : Civil) : Z := (c_year c * 12 + c_month c) * 32 + c_day c.

(** The steps of [civil_of_days]: year of the 400-year era, first day of that
    year, and month and day from the day of the year, in years that start in
    March. *)
Definition yoe_sum (doe : Z) : Z := doe - doe / 1460 + doe / 36524 - doe / 146096.
Definition yoe_of (doe : Z) : Z := yoe_sum doe / 365.
Definition year_start (y : Z) : Z := 365 * y + y / 4 - y / 100.
Definition md_key (doy : Z) : Z :=
  let mp := (5 * doy + 2) / 153 in mp * 32 + (doy - (153 * mp + 2) / 5 + 1).

Fixpoint all_below (n : nat) (f : Z → bool) : bool :=
  match n with O => true | S n => f (Z.of_nat n) && all_below n f end.

Lemma all_below_spec n f z : all_below n f = true → 0 ≤ z < Z.of_nat n → f z = true.
Proof.
  induction n as [|n IH]; intros H Hz; [lia|]. simpl in H. apply andb_prop in H as [H1 H2].
  destruct (decide (z = Z.of_nat n)) as [->|]; [done|]. apply IH; [done|lia].
Qed.

Lemma yoe_mono d d' : d ≤ d' → yoe_of d ≤ yoe_of d'.
Proof.
  intros Hle. apply Z.div_le_mono; [lia|].
  replace d' with (d + Z.of_nat (Z.to_nat (d' - d))) by lia.
  induction (Z.to_nat (d' - d)) as [|n IH]; [rewrite Z.add_0_r; lia|].
  etransitivity; [exact IH|]. replace (d + Z.of_nat (S n)) with (d + Z.of_nat n + 1) by lia.
  unfold yoe_sum. Z.to_euclidean_division_equations. lia.
Qed.

Definition year_last (y : Z) : Z := if y =? 399 then 146096 else year_start (y + 1) - 1.

(** The year of every day of an era, from the first and last day of each year. *)
Lemma yoe_bounds doe :
  0 ≤ doe < 146097 →
  0 ≤ yoe_of doe < 400 ∧ year_start (yoe_of doe) ≤ doe < year_start (yoe_of doe) + 366.
Proof.
  intros Hd.
  assert (all_below 400 (λ y, (yoe_of (year_start y) =? y) && (yoe_of (year_last y) =? y)
    && (year_last y <? year_start y + 366)) = true) as Hall by (vm_compute; reflexivity).
  assert (∃ y, 0 ≤ y < 400 ∧ year_start y ≤ doe ≤ year_last y) as (y & Hy & Hb).
  { assert (∀ n : nat, (n ≤ 400)%nat → doe < year_start (Z.of_nat n) ∨ n = 400%nat →
      ∃ y, 0 ≤ y < 400 ∧ year_start y ≤ doe ≤ year_last y) as Hex.
    { induction n as [|n IH]; intros Hn Hlt; [change (year_start (Z.of_nat 0)) with 0 in Hlt; lia|].
      destruct (Z_lt_le_dec doe (year_start (Z.of_nat n))); [apply IH; [lia|by left]|].
      exists (Z.of_nat n). split; [lia|]. split; [done|]. unfold year_last.
      destruct (Z.eqb_spec (Z.of_nat n) 399); [lia|]. destruct Hlt as [Hlt|Hlt]; [|lia].
      replace (Z.of_nat n + 1) with (Z.of_nat (S n)) by lia. lia. }
    apply (Hex 400%nat); [lia|by right]. }
  pose proof (all_below_spec _ _ y Hall Hy) as H. cbv beta in H.
  repeat (apply andb_prop in H as [H ?]).
  assert (yoe_of doe = y) as ->.
  { pose proof (yoe_mono _ _ (proj1 Hb)). pose proof (yoe_mono _ _ (proj2 Hb)). lia. }
  lia.
Qed.

Definition mp_of (doy : Z) : Z := (5 * doy + 2) / 153.
Definition dom_of (doy : Z) : Z := doy - (153 * mp_of doy + 2) / 5 + 1.

Lemma md_ok doy :
  0 ≤ doy < 366 →
  md_key doy < md_key (doy + 1) ∧ 0 ≤ mp_of doy < 12 ∧ 1 ≤ dom_of doy ≤ 31.
Proof.
  intros Hd.
  assert (all_below 366 (λ d, (md_key d <? md_key (d + 1)) && (0 <=? mp_of d) && (mp_of d <? 12) &&
    (1 <=? dom_of d) && (dom_of d <=? 31)) = true) as Hall by (vm_compute; reflexivity).
  pose proof (all_below_spec _ _ doy Hall Hd) as H. cbv beta in H.
  repeat (apply andb_prop in H as [H ?]). lia.
Qed.

Lemma md_mono d d' : 0 ≤ d < d' → d' < 366 → md_key d < md_key d'.
Proof.
  intros Hd Hd'. replace d' with (d + 1 + Z.of_nat (Z.to_nat (d' - d - 1))) in * by lia.
  induction (Z.to_nat (d' - d - 1)) as [|n IH].
  - rewrite Z.add_0_r. apply md_ok. lia.
  - etransitivity; [apply IH; lia|].
    replace (d + 1 + Z.of_nat (S n)) with (d + 1 + Z.of_nat n + 1) by lia. apply md_ok. lia.
Qed.

(** A day as (era, day of era), and the key of its date in those terms. *)
Lemma civil_key_eq days :
  let era := (days + 719468) / 146097 in
  let doe := (days + 719468) mod 146097 in
  civil_key (civil_of_days days) =
    (400 * era + yoe_of doe) * 384 + md_key (doe - year_start (yoe_of doe)) + 96 ∧
  1 ≤ c_month (civil_of_days days) ≤ 12 ∧ 1 ≤ c_day (civil_of_days days) ≤ 31.
Proof.
  intros era doe. pose proof (Z.mod_pos_bound (days + 719468) 146097 ltac:(lia)) as Hm. fold doe in Hm.
  destruct (yoe_bounds doe Hm) as [Hy Hd].
  destruct (md_ok (doe - year_start (yoe_of doe))) as (_ & Hmp & Hdom); [lia|].
  unfold civil_of_days, civil_key. cbv zeta. fold era doe. cbn [c_year c_month c_day].
  fold (yoe_sum doe). fold (yoe_of doe). fold (year_start (yoe_of doe)).
  fold (mp_of (doe - year_start (yoe_of doe))). fold (dom_of (doe - year_start (yoe_of doe))).
  change (md_key ?x) with (mp_of x * 32 + dom_of x).
  destruct (Z.ltb_spec (mp_of (doe - year_start (yoe_of doe))) 10);
    destruct (Z.leb_spec (mp_of (doe - year_start (yoe_of doe)) + 3) 2); try lia;
    destruct (Z.leb_spec (mp_of (doe - year_start (yoe_of doe)) - 9) 2); try lia.
Qed.

Lemma civil_key_mono d d' : d < d' → civil_key (civil_of_days d) < civil_key (civil_of_days d').
Proof.
  intros Hlt. destruct (civil_key_eq d) as [-> _], (civil_key_eq d') as [-> _].
  set (z := d + 719468). set (z' := d' + 719468).
  pose proof (Z.mod_pos_bound z 146097 ltac:(lia)) as Hm. pose proof (Z.div_mod z 146097 ltac:(lia)) as Hz.
  pose proof (Z.mod_pos_bound z' 146097 ltac:(lia)) as Hm'. pose proof (Z.div_mod z' 146097 ltac:(lia)) as Hz'.
  assert (z < z') as Hzz by lia. clearbody z z'.
  set (e := z / 146097) in *. set (e' := z' / 146097) in *.
  set (o := z mod 146097) in *. set (o' := z' mod 146097) in *.
  destruct (yoe_bounds o Hm) as [Hy Hd], (yoe_bounds o' Hm') as [Hy' Hd'].
  assert (∀ x, md_key x = mp_of x * 32 + dom_of x) as Hk by done.
  destruct (md_ok (o - year_start (yoe_of o)) ltac:(lia)) as (_ & ? & ?).
  destruct (md_ok (o' - year_start (yoe_of o')) ltac:(lia)) as (_ & ? & ?).
  assert (400 * e + yoe_of o < 400 * e' + yoe_of o' ∨ (e = e' ∧ yoe_of o = yoe_of o' ∧ o < o')) as Hc.
  { assert (e < e' ∨ (e = e' ∧ o < o')) as [?|[He Ho]] by lia; [left; lia|].
    pose proof (yoe_mono o o' ltac:(lia)). lia. }
  destruct Hc as [Hc|(He & Hyy & Ho)].
  - rewrite !Hk. lia.
  - rewrite He, Hyy in *. pose proof (md_mono (o - year_start (yoe_of o')) (o' - year_start (yoe_of o'))). lia.
Qed.

Lemma compare_app_same p a b : String.compare (p +:+ a) (p +:+ b) = String.compare a b.
Proof. induction p as [|c p IH]; [done|]. etransitivity; [apply compare_same|done]. Qed.

Lemma then_lt3 a a' b b' c c' d :
  (a < a' ∨ (a = a' ∧ (b < b' ∨ (b = b' ∧ c < c')))) →
  then_ (a ?= a') (then_ (b ?= b') (then_ (c ?= c') d)) = Lt.
Proof.
  destruct (Z.compare_spec a a'), (Z.compare_spec b b'), (Z.compare_spec c c'); simpl; lia || done.
Qed.

Definition year_of (t : Time) : Z := c_year (civil_of_days (t / Second / 86400)).

Lemma text_order t t' :
  0 ≤ year_of t ≤ 9999 → 0 ≤ year_of t' ≤ 9999 →
  t / Second < t' / Second →
  String.compare (FormatRFC3339Nano t) (FormatRFC3339Nano t') = Lt.
Proof.
  intros Hy Hy' Hlt. unfold FormatRFC3339Nano. cbv zeta. unfold year_of in *.
  set (s := t / Second) in *. set (s' := t' / Second) in *.
  destruct (civil_key_eq (s / 86400)) as (_ & Hm & Hd), (civil_key_eq (s' / 86400)) as (_ & Hm' & Hd').
  pose proof (Z.mod_pos_bound s 86400 ltac:(lia)) as Hs.
  pose proof (Z.mod_pos_bound s' 86400 ltac:(lia)) as Hs'.
  assert (∀ x, 0 ≤ x < 86400 → 0 ≤ x / 3600 < 100 ∧ 0 ≤ x / 60 mod 60 < 100 ∧ 0 ≤ x mod 60 < 100) as Hf
    by (intros x Hx; Z.to_euclidean_division_equations; lia).
  destruct (Hf _ Hs) as (? & ? & ?), (Hf _ Hs') as (? & ? & ?).
  rewrite compare_pad, compare_app_same, compare_pad, compare_app_same, compare_pad, compare_app_same,
    compare_pad, compare_app_same, compare_pad, compare_app_same, compare_pad by lia.
  pose proof (Z.div_mod s 86400 ltac:(lia)). pose proof (Z.div_mod s' 86400 ltac:(lia)).
  assert (s / 86400 < s' / 86400 ∨ (s / 86400 = s' / 86400 ∧ s mod 86400 < s' mod 86400)) as [Hday|[-> Hsod]] by lia.
  - apply then_lt3. pose proof (civil_key_mono _ _ Hday) as Hk. unfold civil_key in Hk. lia.
  - rewrite !Z.compare_refl. simpl. apply then_lt3.
    Z.to_euclidean_division_equations. lia.
Qed.
