(* ===== verification/TimeParse.v ===== *)
(** * Reading times back

    [time.Parse] of the standard library with the layout [RFC3339], which
    [RFC3339Nano] shares but for the fraction it prints: the configuration's
    schedule and every time column of the store go through it.  The theorem at
    the end is the round trip that lets the store's model keep times as numbers. *)

From S2P Require Import Prelude GoTime.

Module TimeParse.
Import ParseDuration.

(** ** Fields *)
Definition expect (c : Ascii.ascii) (s : string) : option string :=
  match s with String c' s => if bool_decide (c' = c) then Some s else None | EmptyString => None end.

(** [getnum]: two digits, or one when the field is not fixed. *)
Definition getnum (fixed : bool) (s : string) : option (Z * string) :=
  match s with
  | String a s1 =>
      x ← digit a;
      match s1 with
      | String b s2 => match digit b with
                       | Some y => Some (10 * x + y, s2)
                       | None => if fixed then None else Some (x, s1)
                       end
      | EmptyString => if fixed then None else Some (x, s1)
      end
  | EmptyString => None
  end.

(** The four digits of the year. *)
Definition getyear (s : string) : option (Z * string) :=
  match s with
  | String a (String b (String c (String d s))) =>
      x ← digit a; y ← digit b; z ← digit c; u ← digit d;
      Some (1000 * x + 100 * y + 10 * z + u, s)
  | _ => None
  end.

Definition char (n : nat) : Ascii.ascii := Ascii.ascii_of_nat n.
Definition dash : Ascii.ascii := char 45.
Definition plus : Ascii.ascii := char 43.
Definition comma : Ascii.ascii := char 44.
Definition colon : Ascii.ascii := char 58.

(** Digits after the point: nine count, the rest is dropped ([parseNanoseconds]). *)
Fixpoint nanos (places : nat) (acc : Z) (s : string) : Z * string :=
  match s with
  | String c s' => match digit c with
                   | Some d => match places with
                               | O => nanos O acc s'
                               | S p => nanos p (acc + d * 10 ^ Z.of_nat p) s'
                               end
                   | None => (acc, s)
                   end
  | EmptyString => (acc, s)
  end.

(** An optional fraction: a point or a comma with a digit behind it. *)
Definition getfraction (s : string) : Z * string :=
  match s with
  | String p (String d _ as s') =>
      if (bool_decide (p = point) || bool_decide (p = comma)) && is_digit d then nanos 9 0 s' else (0, s)
  | _ => (0, s)
  end.

(** [Z], or a signed offset in seconds. *)
Definition getzone (s : string) : option (Z * string) :=
  match s with
  | String c s' =>
      if bool_decide (c = char 90) then Some (0, s')
      else if bool_decide (c = plus) || bool_decide (c = dash) then
        '(hr, s') ← getnum true s';
        s' ← expect colon s';
        '(mm, s') ← getnum true s';
        if (24 <? hr) || (60 <? mm) then None
        else Some ((if bool_decide (c = dash) then -1 else 1) * (hr * 3600 + mm * 60), s')
      else None
  | EmptyString => None
  end.

(** ** Dates *)
Definition leap (y : Z) : bool := (y mod 4 =? 0) && (negb (y mod 100 =? 0) || (y mod 400 =? 0)).

Definition daysIn (m y : Z) : Z :=
  if m =? 2 then (if leap y then 29 else 28)
  else if (m =? 4) || (m =? 6) || (m =? 9) || (m =? 11) then 30 else 31.

(** Day number from 1970-01-01. *)
Definition days_of_civil (c : Civil) : Z :=
  let y := if c_month c <=? 2 then c_year c - 1 else c_year c in
  let mp := if c_month c <=? 2 then c_month c + 9 else c_month c - 3 in
  let yoe := y mod 400 in
  let doy := (153 * mp + 2) / 5 + c_day c - 1 in
  y / 400 * 146097 + (year_start yoe + doy) - 719468.

(** ** [time.Parse(time.RFC3339, s)] *)
Definition parse (s : string) : option Time :=
  '(year, s) ← getyear s;
  s ← expect dash s;
  '(month, s) ← getnum true s;
  if (month <=? 0) || (12 <? month) then None else
  s ← expect dash s;
  '(day, s) ← getnum true s;
  s ← expect (char 84) s;
  '(hour, s) ← getnum false s;
  if 24 <=? hour then None else
  s ← expect colon s;
  '(min, s) ← getnum true s;
  if 60 <=? min then None else
  s ← expect colon s;
  '(sec, s) ← getnum true s;
  if 60 <=? sec then None else
  let '(nsec, s) := getfraction s in
  '(offset, s) ← getzone s;
  if s != "" then None
  else if (day <? 1) || (daysIn month year <? day) then None
  else
    let days := days_of_civil {| c_year := year; c_month := month; c_day := day |} in
    Some ((days * 86400 + hour * 3600 + min * 60 + sec - offset) * Second + nsec).
End TimeParse.

(** The error text names the layout and the value; here only that it fails. *)
Definition ParseRFC3339 (s : string) : result Time :=
  match TimeParse.parse s with
  | Some t => Ok t
  | None => Err (Errorf ("parsing time " +:+ quote s))
  end.

Example parse_times :
  ParseRFC3339 "1970-01-02T00:00:00.5Z" = Ok (86400 * Second + 500000000) ∧
  ParseRFC3339 "2000-02-29T1:02:03,1234567899+01:00" = Ok (951782400 * Second + 123 * Second + 123456789) ∧
  is_ok (ParseRFC3339 "2001-02-29T00:00:00Z") = false ∧
  is_ok (ParseRFC3339 "2001-02-28T00:00:00") = false ∧
  is_ok (ParseRFC3339 "tomorrow") = false.
Proof. vm_compute. done. Qed.

(** ** The round trip *)
Section RoundTrip.
Import ParseDuration TimeParse.

Lemma digit_digit_char d : 0 ≤ d < 10 → digit (digit_char d) = Some d.
Proof.
  intros Hd. assert (forallb (λ d, bool_decide (digit (digit_char d) = Some d)) digits = true) as H
    by (vm_compute; reflexivity).
  rewrite forallb_forall in H. specialize (H d). apply bool_decide_eq_true in H; [done|].
  unfold digits; simpl; lia.
Qed.

Lemma getnum_pad fixed n rest : 0 ≤ n < 100 → getnum fixed (pad 2 n rest) = Some (n, rest).
Proof.
  intros Hn. cbn [pad getnum]. rewrite !digit_digit_char by (apply Z.mod_pos_bound; lia). simpl.
  f_equal. f_equal. Z.to_euclidean_division_equations. lia.
Qed.

Lemma getyear_pad n rest : 0 ≤ n < 10000 → getyear (pad 4 n rest) = Some (n, rest).
Proof.
  intros Hn. cbn [pad getyear]. rewrite !digit_digit_char by (apply Z.mod_pos_bound; lia). simpl.
  f_equal. f_equal. Z.to_euclidean_division_equations. lia.
Qed.

Lemma nanos_pad w k acc n rest :
  0 ≤ n < 10 ^ Z.of_nat w → nanos (k + w) acc (pad w n rest) = nanos k (acc + n * 10 ^ Z.of_nat k) rest.
Proof.
  revert k acc n rest. induction w as [|w IH]; intros k acc n rest Hn; cbn [pad].
  - replace n with 0 by (simpl in Hn; lia). by rewrite Nat.add_0_r, Z.mul_0_l, Z.add_0_r.
  - rewrite Nat2Z.inj_succ, Z.pow_succ_r in Hn by lia.
    pose proof (Z.div_mod n 10 ltac:(lia)). pose proof (Z.mod_pos_bound n 10 ltac:(lia)).
    replace (k + S w)%nat with (S k + w)%nat by lia. rewrite IH by lia. cbn [nanos].
    rewrite digit_digit_char by lia. f_equal. rewrite Nat2Z.inj_succ, Z.pow_succ_r by lia. nia.
Qed.

Lemma trim_zeros_spec w n :
  0 ≤ n < 10 ^ Z.of_nat w →
  let '(w', n') := trim_zeros w n in
  ∃ k, w = (k + w')%nat ∧ n = n' * 10 ^ Z.of_nat k ∧ 0 ≤ n' < 10 ^ Z.of_nat w'.
Proof.
  revert n. induction w as [|w IH]; intros n Hn; cbn [trim_zeros]; [exists O; simpl in *; lia|].
  destruct (Z.eqb_spec (n mod 10) 0) as [E|E]; [|exists O; rewrite Z.mul_1_r; done].
  rewrite Nat2Z.inj_succ, Z.pow_succ_r in Hn by lia. pose proof (Z.div_mod n 10 ltac:(lia)).
  specialize (IH (n / 10) ltac:(lia)). destruct (trim_zeros w (n / 10)) as [w' n'].
  destruct IH as (k & -> & Hk & Hn'). exists (S k). split; [done|]. split; [|done].
  rewrite Nat2Z.inj_succ, Z.pow_succ_r by lia. lia.
Qed.

Lemma is_digit_pad w n rest : (0 < w)%nat → ∃ d s, pad w n rest = String d s ∧ is_digit d = true.
Proof.
  intros Hw. destruct w as [|w]; [lia|]. clear Hw. revert n rest. induction w as [|w IH]; intros n rest.
  - cbn [pad]. eexists _, _. split; [done|]. unfold is_digit. by rewrite digit_digit_char by (apply Z.mod_pos_bound; lia).
  - rewrite (eq_refl : pad (S (S w)) n rest = pad (S w) (n / 10) (String (digit_char (n mod 10)) rest)). apply IH.
Qed.

Lemma getfraction_fraction ns : 0 ≤ ns < Second → getfraction (fraction ns "Z") = (ns, "Z").
Proof.
  intros Hn. pose proof (trim_zeros_spec 9 ns Hn) as H. unfold fraction. destruct (trim_zeros 9 ns) as [w n].
  destruct H as (k & Hw & -> & Hb). destruct w as [|w].
  { simpl in Hb. replace n with 0 by lia. reflexivity. }
  destruct (is_digit_pad (S w) n "Z" ltac:(lia)) as (d & s & Hp & Hd).
  unfold getfraction. rewrite Hp, Hd. rewrite bool_decide_eq_true_2 by done. cbn [orb andb].
  rewrite <- Hp, Hw, nanos_pad by done. by destruct k.
Qed.

(** The calendar is inverted. *)
Lemma era_split e y : 0 ≤ y < 400 → (y + e * 400) mod 400 = y ∧ (y + e * 400) / 400 = e.
Proof. intros Hy. rewrite Z.mod_add, Z.div_add, Z.mod_small, Z.div_small by lia. lia. Qed.

Lemma days_of_civil_of_days d : days_of_civil (civil_of_days d) = d.
Proof.
  unfold days_of_civil, civil_of_days. cbv zeta. cbn [c_year c_month c_day].
  set (z := d + 719468). pose proof (Z.mod_pos_bound z 146097 ltac:(lia)) as Hm.
  pose proof (Z.div_mod z 146097 ltac:(lia)) as Hz. set (doe := z mod 146097) in *. set (era := z / 146097) in *.
  fold (yoe_sum doe). fold (yoe_of doe). fold (year_start (yoe_of doe)).
  destruct (yoe_bounds doe Hm) as [Hy Hd]. set (doy := doe - year_start (yoe_of doe)) in *.
  fold (mp_of doy). fold (dom_of doy). destruct (md_ok doy ltac:(lia)) as (_ & Hmp & Hdom).
  assert ((153 * mp_of doy + 2) / 5 + dom_of doy - 1 = doy) as Hdoy by (unfold dom_of; lia).
  destruct (era_split era (yoe_of doe) Hy) as [He1 He2].
  destruct (Z.ltb_spec (mp_of doy) 10).
  - destruct (Z.leb_spec (mp_of doy + 3) 2); [lia|].
    rewrite Z.add_0_r, He1, He2. replace (mp_of doy + 3 - 3) with (mp_of doy) by lia.
    rewrite Hdoy. unfold doy. lia.
  - destruct (Z.leb_spec (mp_of doy - 9) 2); [|lia].
    replace (yoe_of doe + era * 400 + 1 - 1) with (yoe_of doe + era * 400) by lia.
    rewrite He1, He2. replace (mp_of doy - 9 + 9) with (mp_of doy) by lia. rewrite Hdoy. unfold doy. lia.
Qed.

Lemma leap_era y e : leap (y + e * 400) = leap y.
Proof.
  unfold leap. replace (y + e * 400) with (y + e * 4 * 100) at 2 by lia.
  replace (y + e * 400) with (y + e * 100 * 4) at 1 by lia. by rewrite !Z.mod_add by lia.
Qed.

(** A March-based year has its 366th day exactly when the February it ends with
    has 29. *)
Lemma last_day doe :
  0 ≤ doe < 146097 → doe - year_start (yoe_of doe) = 365 → leap (yoe_of doe + 1) = true.
Proof.
  intros Hd Hl. destruct (yoe_bounds doe Hd) as [Hy Hb].
  assert (all_below 400 (λ y, implb (yoe_of (year_start y + 365) =? y) (leap (y + 1))) = true) as Hall by (vm_compute; reflexivity).
  pose proof (all_below_spec _ _ _ Hall Hy) as H. cbv beta in H.
  replace (year_start (yoe_of doe) + 365) with doe in H by lia. by rewrite Z.eqb_refl in H.
Qed.

Definition month_of (doy : Z) : Z := if mp_of doy <? 10 then mp_of doy + 3 else mp_of doy - 9.

Lemma dom_ok doy b : 0 ≤ doy < 366 → (doy = 365 → b = true) →
  dom_of doy ≤ if month_of doy =? 2 then (if b then 29 else 28)
               else if (month_of doy =? 4) || (month_of doy =? 6) || (month_of doy =? 9) || (month_of doy =? 11) then 30 else 31.
Proof.
  intros Hd Hb.
  assert (all_below 366 (λ d, dom_of d <=? if month_of d =? 2 then (if d =? 365 then 29 else 28)
    else if (month_of d =? 4) || (month_of d =? 6) || (month_of d =? 9) || (month_of d =? 11) then 30 else 31) = true)
    as Hall by (vm_compute; reflexivity).
  pose proof (all_below_spec _ _ _ Hall Hd) as H. cbv beta in H. apply Z.leb_le in H.
  destruct (Z.eqb_spec doy 365) as [E|E]; [by rewrite (Hb E)|].
  destruct (month_of doy =? 2); [destruct b; lia|done].
Qed.

Lemma civil_day_ok d : c_day (civil_of_days d) ≤ daysIn (c_month (civil_of_days d)) (c_year (civil_of_days d)).
Proof.
  unfold civil_of_days. cbv zeta. cbn [c_year c_month c_day].
  set (z := d + 719468). pose proof (Z.mod_pos_bound z 146097 ltac:(lia)) as Hm.
  set (doe := z mod 146097) in *. set (era := z / 146097) in *.
  fold (yoe_sum doe). fold (yoe_of doe). fold (year_start (yoe_of doe)).
  destruct (yoe_bounds doe Hm) as [Hy Hd]. pose proof (last_day doe Hm) as Hl.
  set (doy := doe - year_start (yoe_of doe)) in *.
  fold (mp_of doy). fold (dom_of doy). fold (month_of doy). unfold daysIn. apply dom_ok; [lia|].
  intros E. rewrite E in *. change (month_of 365 <=? 2) with true. cbv iota.
  replace (yoe_of doe + era * 400 + 1) with (yoe_of doe + 1 + era * 400) by lia. rewrite leap_era. by apply Hl.
Qed.

Lemma expect_app c s : expect c (String c s) = Some s.
Proof. unfold expect. by rewrite bool_decide_eq_true_2. Qed.

(** What [FormatRFC3339Nano] prints, [time.Parse] reads back. *)
Lemma parse_format t : 0 ≤ year_of t ≤ 9999 → ParseRFC3339 (FormatRFC3339Nano t) = Ok t.
Proof.
  intros Hy. unfold ParseRFC3339, parse, FormatRFC3339Nano. cbv zeta. unfold year_of in Hy.
  set (s := t / Second) in *. pose proof (Z.mod_pos_bound s 86400 ltac:(lia)) as Hs.
  pose proof (Z.mod_pos_bound t Second ltac:(done)) as Hns.
  destruct (civil_key_eq (s / 86400)) as (_ & Hm & Hd). pose proof (civil_day_ok (s / 86400)) as Hday.
  pose proof (days_of_civil_of_days (s / 86400)) as Hinv.
  destruct (civil_of_days (s / 86400)) as [y m d] eqn:Ec. cbn [c_year c_month c_day] in *.
  set (sod := s mod 86400) in *.
  assert (0 ≤ sod / 3600 < 24 ∧ 0 ≤ sod / 60 mod 60 < 60 ∧ 0 ≤ sod mod 60 < 60) as (H1 & H2 & H3)
    by (clearbody sod; Z.to_euclidean_division_equations; lia).
  rewrite getyear_pad by lia.
  repeat first [rewrite getnum_pad by lia | progress cbn [mbind option_bind]; cbv beta iota |
    match goal with |- context [expect ?c (?a +:+ ?b)] => change (expect c (a +:+ b)) with (Some b) end].
  rewrite (proj2 (Z.leb_gt m 0)), (proj2 (Z.ltb_ge 12 m)), (proj2 (Z.leb_gt 24 _)), !(proj2 (Z.leb_gt 60 _)) by lia.
  rewrite getfraction_fraction by done. cbn [getzone mbind option_bind orb]. cbv beta iota.
  rewrite (proj2 (Z.ltb_ge d 1)), (proj2 (Z.ltb_ge _ d)), Hinv by lia. cbn. f_equal.
  pose proof (Z.div_mod t Second ltac:(done)) as H. pose proof (Z.div_mod s 86400 ltac:(lia)) as H0.
  assert (sod = sod / 3600 * 3600 + sod / 60 mod 60 * 60 + sod mod 60) as E
    by (clear; Z.to_euclidean_division_equations; lia).
  fold s in H. fold sod in H0. nia.
Qed.
End RoundTrip.
