(* ===== verification/Statekit.v ===== *)
(** * The statekit interface

    [go.klarlabs.de/statekit] is a third-party package: the sources hand it a
    machine description and drive an interpreter. The description is data, so
    it is modelled here field by field ([MachineConfig]); the interpreter is a
    class whose laws state the documented behaviour the sources rely on:
    transitions of the current state are tried in declaration order and the
    first whose guard holds is taken, an event nothing accepts is ignored, entry
    actions run on entry and not on restore, a delayed transition fires when the
    clock passes its delay, and an eventless transition is taken right after
    entry (or, as [internal/engine/stepper.go] notes of a step entered from a
    restored timer, not taken at all).  [S] is the type of state ids, [C] the
    machine's context, [W] what entry actions may read and change. *)

From S2P Require Import Prelude GoTime.

Record Transition (S : Type) := MkTransition {
  tr_target : S;
  tr_guard : option string;
}.
Arguments MkTransition {S} _ _.
Arguments tr_target {S} _.
Arguments tr_guard {S} _.

Record StateConfig (S : Type) := MkState {
  st_entry : option string;                    (* OnEntry *)
  st_always : list (Transition S);             (* Always *)
  st_after : list (Duration * Transition S);   (* After *)
  st_on : list (string * Transition S);        (* On *)
  st_final : bool;
}.
Arguments MkState {S} _ _ _ _ _.
Arguments st_entry {S} _.
Arguments st_always {S} _.
Arguments st_after {S} _.
Arguments st_on {S} _.
Arguments st_final {S} _.

Record MachineConfig (S C W : Type) := MkMachine {
  mc_initial : S;
  mc_guards : list (string * (C → bool));
  mc_actions : list (string * (C → W → C * W));
  mc_states : list (S * StateConfig S);
}.
Arguments MkMachine {S C W} _ _ _ _.
Arguments mc_initial {S C W} _.
Arguments mc_guards {S C W} _.
Arguments mc_actions {S C W} _.
Arguments mc_states {S C W} _.

(** Association-list lookup: the first entry for the key. *)
Fixpoint assoc {K V} `{EqDecision K} (k : K) (l : list (K * V)) : option V :=
  match l with
  | [] => None
  | (k', v) :: l => if bool_decide (k' = k) then Some v else assoc k l
  end.

Section Semantics.
Context {S C W : Type} `{EqDecision S}.
Implicit Types (m : MachineConfig S C W) (s : S) (c : C) (w : W).

Definition guard_ok m c (t : Transition S) : bool :=
  match tr_guard t with
  | None => true
  | Some g => match assoc g (mc_guards m) with Some f => f c | None => false end
  end.

Definition first_enabled m c (ts : list (Transition S)) : option S :=
  tr_target <$> head (filter (λ t, guard_ok m c t = true) ts).

Definition state_of m s : StateConfig S :=
  default (MkState None [] [] [] false) (assoc s (mc_states m)).

Definition declared m s : bool :=
  match assoc s (mc_states m) with Some _ => true | None => false end.

(** Target of an event: the first enabled [On] transition for it. *)
Definition event_target m s c (ev : string) : option S :=
  first_enabled m c (snd <$> filter (λ p, p.1 = ev) (st_on (state_of m s))).

(** Target of the timers that fire when the clock advances by [d]; a zero
    delay is not a delayed transition. *)
Definition timer_target m s c (d : Duration) : option S :=
  first_enabled m c
    (snd <$> filter (λ p, (0 < p.1 ∧ p.1 ≤ d)) (st_after (state_of m s))).

Definition run_entry m s c w : C * W :=
  match st_entry (state_of m s) with
  | None => (c, w)
  | Some a => match assoc a (mc_actions m) with Some f => f c w | None => (c, w) end
  end.

(** The outcomes of entering [s]: its entry action has run, and an enabled
    eventless transition has been taken or is pending. *)
Definition entered m s c w (out : S * C * W) : Prop :=
  let '(c', w') := run_entry m s c w in
  match first_enabled m c' (st_always (state_of m s)) with
  | None => out = (s, c', w')
  | Some t => out = (s, c', w') ∨
              (let '(c'', w'') := run_entry m t c' w' in out = (t, c'', w''))
  end.
End Semantics.

(** The interpreter. *)
Class Statechart (S C W : Type) : Type := {
  sc_start : MachineConfig S C W → C → W → S * C * W;
  sc_send : MachineConfig S C W → S → C → string → W → S * C * W;
  sc_advance : MachineConfig S C W → S → C → Duration → W → S * C * W;
  sc_restore : MachineConfig S C W → S → C → option (S * C);
}.

Class StatechartLaws (S C W : Type) `{EqDecision S} `{!Statechart S C W} : Prop := {
  start_spec : ∀ (m : MachineConfig S C W) c w,
    entered m (mc_initial m) c w (sc_start m c w);
  send_spec : ∀ (m : MachineConfig S C W) s c ev w,
    match event_target m s c ev with
    | Some t => entered m t c w (sc_send m s c ev w)
    | None => sc_send m s c ev w = (s, c, w)
    end;
  advance_spec : ∀ (m : MachineConfig S C W) s c d w,
    match timer_target m s c d with
    | Some t => entered m t c w (sc_advance m s c d w)
    | None => sc_advance m s c d w = (s, c, w)
    end;
  restore_spec : ∀ (m : MachineConfig S C W) s c,
    sc_restore m s c = if declared m s then Some (s, c) else None;
}.

(** A reference interpreter, which always takes eventless transitions, and one
    which never does: the laws are satisfiable, in both ways they leave open. *)
Section Reference.
Context (S C W : Type) `{EqDecision S} (fires : bool).

Definition ref_enter (m : MachineConfig S C W) (s : S) (c : C) (w : W) : S * C * W :=
  let '(c', w') := run_entry m s c w in
  match first_enabled m c' (st_always (state_of m s)) with
  | Some t => if fires then let '(c'', w'') := run_entry m t c' w' in (t, c'', w'')
              else (s, c', w')
  | None => (s, c', w')
  end.

Definition ref_statechart : Statechart S C W := {|
  sc_start m c w := ref_enter m (mc_initial m) c w;
  sc_send m s c ev w :=
    match event_target m s c ev with Some t => ref_enter m t c w | None => (s, c, w) end;
  sc_advance m s c d w :=
    match timer_target m s c d with Some t => ref_enter m t c w | None => (s, c, w) end;
  sc_restore m s c := if declared m s then Some (s, c) else None;
|}.

Lemma ref_enter_entered m s c w : entered m s c w (ref_enter m s c w).
Proof.
  unfold entered, ref_enter. destruct (run_entry m s c w) as [c' w'].
  destruct (first_enabled _ _ _) as [t|]; [|done].
  destruct fires; [right|by left]. by destruct (run_entry m t c' w').
Qed.

Lemma ref_laws : @StatechartLaws S C W _ ref_statechart.
Proof.
  split; simpl; intros; [apply ref_enter_entered| | |done].
  - destruct (event_target m s c ev); [apply ref_enter_entered|done].
  - destruct (timer_target m s c d); [apply ref_enter_entered|done].
Qed.
End Reference.
