(* ===== verification/Config.v ===== *)
(** * The configuration surface

    The parsed configuration of [internal/config/config.go] as records with the
    source's fields, the accessors of the database hooks, the honest strategy
    name, and the promotion chain of [internal/promote/promote.go].  A pointer
    field is an [option]; a [map[string]any] is a finite map into [any]. *)

From S2P Require Import Prelude GoTime.
From Stdlib Require PrimFloat.

Abbreviation float := PrimFloat.float.

(** A decoded YAML value. *)
#[warnings="-register-all"]
Inductive any : Type :=
| ANil
| AString (s : string)
| ABool (b : bool)
| AInt (z : Z)
| AFloat (f : float)
| AList (l : list any)
| AMap (m : list (string * any)).

(** [v.(string)] with the zero value on failure. *)
Definition as_string (v : option any) : string :=
  match v with Some (AString s) => s | _ => "" end.

(** A key of a decoded map; the keys of one map are distinct. *)
Definition any_at (m : list (string * any)) (k : string) : option any :=
  snd <$> head (filter (λ p, p.1 = k) m).

(** [v.(map[string]any)]. *)
Definition as_map (v : option any) : option (list (string * any)) :=
  match v with Some (AMap m) => Some m | _ => None end.

Module Config.

Definition SchemaVersion : string := "rollops.klarlabs.de/v1".
Definition Kind : string := "RolloutConfig".

Record AnalysisMetric := {
  am_Name : string;
  am_Query : string;
  am_Aggregation : string;
}.

Record Analysis := {
  an_Provider : string;
  an_Address : string;
  an_Plugin : string;
  an_SHA256 : string;
  an_Metrics : list AnalysisMetric;
  an_Condition : string;
  an_Interval : string;
  an_Count : Z;
  an_FailureLimit : Z;
}.

Record FeatureFlags := {
  ff_Plugin : string;
  ff_SHA256 : string;
  ff_Flag : string;
  ff_Environment : string;
  ff_When : string;
}.

Record TrafficRouting := {
  tr_Provider : string;
  tr_Plugin : string;
  tr_SHA256 : string;
  tr_Route : string;
  tr_Namespace : string;
  tr_StableService : string;
  tr_CanaryService : string;
  tr_Kubeconfig : string;
  tr_Context : string;
}.

Record ImagePolicy := {
  ip_Mode : string;
  ip_Pattern : string;
  ip_AllowMutableTags : bool;
  ip_AllowedRegistries : list string;
  ip_Writeback : string;
}.

Definition WritebackPush : string := "push".
Definition WritebackPullRequest : string := "pull-request".

Definition WritebackMode (p : option ImagePolicy) : string :=
  match p with
  | Some p => if ip_Writeback p == WritebackPullRequest then WritebackPullRequest
              else WritebackPush
  | None => WritebackPush
  end.

Record Target := {
  tg_Kind : string;
  tg_Ref : string;
  tg_Criticality : string;
  tg_Env : string;
  tg_Spec : gmap string any;
}.

Record StrategyStep := { ss_Weight : Z; ss_Pause : string }.

Record Strategy := { sy_Type : string; sy_Steps : list StrategyStep }.

Record Environment := {
  ev_Name : string;
  ev_Promote : bool;
  ev_Strategy : option Strategy;
}.

Record RiskHistory := {
  rh_Lookback : Z;
  rh_Weight : float;
  rh_MaxFailures : Z;
}.

Record Risk := {
  rk_Threshold : float;
  rk_Sensitive : string;
  rk_History : RiskHistory;
}.

Record DatabaseRollback := {
  db_Command : list string;
  db_Timeout : string;
  db_When : string;
}.

Definition MigratePreDeploy : string := "pre-deploy".
Definition MigratePostPromote : string := "post-promote".

Record Database := {
  dbs_Migrate : option DatabaseRollback;
  dbs_Rollback : option DatabaseRollback;
  dbs_BackwardCompatible : bool;
}.

Record HealthCheck := {
  hc_HTTP : string;
  hc_TCP : string;
  hc_Command : list string;
  hc_Timeout : string;
}.

Record SmokeTest := { sm_Command : list string; sm_ExpectExit : Z }.

Record Rollback := {
  rb_Auto : bool;
  rb_HealthCheck : option HealthCheck;
  rb_SmokeTest : option SmokeTest;
  rb_Database : option DatabaseRollback;
  rb_Trigger : string;
}.

Record Spec := {
  sp_Target : Target;
  sp_Environments : list Environment;
  sp_Strategy : Strategy;
  sp_Risk : Risk;
  sp_Rollback : Rollback;
  sp_Analysis : option Analysis;
  sp_FeatureFlags : option FeatureFlags;
  sp_TrafficRouting : option TrafficRouting;
  sp_ImagePolicy : option ImagePolicy;
  sp_Database : option Database;
  sp_DependsOn : list string;
  sp_Schedule : string;
  sp_Verification : string;
}.

Record Metadata := { md_Name : string; md_Labels : gmap string string }.

Record t := {
  APIVersion : string;
  ConfigKind : string;
  Meta : Metadata;
  spec : Spec;
}.

(** ** Accessors *)
Definition HonestStrategy (c : option t) : string :=
  match c with
  | None => ""
  | Some c =>
      let s := spec c in
      if sy_Type (sp_Strategy s) == "canary" then
        match sp_TrafficRouting s, sp_FeatureFlags s with
        | None, None => "canary — health-gated bake, not a traffic split"
        | _, _ => ""
        end
      else if sy_Type (sp_Strategy s) == "blue-green" then
        match sp_TrafficRouting s with
        | None => "blue-green — full cutover, not two-stack blue-green"
        | Some _ => ""
        end
      else ""
  end.

Definition DatabaseMigrate (s : Spec) : option DatabaseRollback :=
  d ← sp_Database s; dbs_Migrate d.

Definition DatabaseMigrateWhen (s : Spec) : string :=
  match DatabaseMigrate s with
  | Some mig => if db_When mig != "" then db_When mig else MigratePreDeploy
  | None => MigratePreDeploy
  end.

Definition DatabaseRollbackHook (s : Spec) : option DatabaseRollback :=
  match sp_Database s with
  | Some d => match dbs_Rollback d with
              | Some r => Some r
              | None => rb_Database (sp_Rollback s)
              end
  | None => rb_Database (sp_Rollback s)
  end.

Definition DatabaseBackwardCompatible (s : Spec) : bool :=
  match sp_Database s with Some d => dbs_BackwardCompatible d | None => false end.

End Config.

(** ** Environment promotion ([internal/promote]) *)
Module Promote.
Import Config.

Definition Chain (c : Config.t) : list string :=
  ev_Name <$> filter (λ e, ev_Promote e = true) (sp_Environments (spec c)).

Definition IsStaged (c : Config.t) : bool :=
  (0 <? length (Chain c))%nat.

Fixpoint next_in (chain : list string) (current : string) : option (option string) :=
  match chain with
  | [] => None
  | name :: rest =>
      if name == current then Some (head rest) else next_in rest current
  end.

Definition Next (c : Config.t) (current : string) : option string :=
  match next_in (Chain c) current with
  | Some r => r
  | None => head (Chain c)
  end.

Definition Independent (c : Config.t) : list string :=
  ev_Name <$> filter (λ e, negb (ev_Promote e) = true) (sp_Environments (spec c)).

Definition EffectiveStrategy (c : Config.t) (env : string) : Strategy :=
  let pick e := ev_Name e == env && match ev_Strategy e with Some _ => true | None => false end in
  match head (filter (λ e, pick e = true) (sp_Environments (spec c))) with
  | Some e => default (sp_Strategy (spec c)) (ev_Strategy e)
  | None => sp_Strategy (spec c)
  end.

(** Walks the promotion chain from [current] with [Next] until it ends. *)
Fixpoint walk (fuel : nat) (c : Config.t) (current : string) : list string :=
  match fuel with
  | O => []
  | S fuel => match Next c current with
              | Some n => n :: walk fuel c n
              | None => []
              end
  end.

Lemma walk_S n c x :
  walk (S n) c x = match Next c x with Some y => y :: walk n c y | None => [] end.
Proof. done. Qed.

Lemma next_in_split pre x post :
  x ∉ pre → next_in (pre ++ x :: post) x = Some (head post).
Proof.
  induction pre as [|y pre IH]; simpl; intros Hx.
  - by rewrite bool_decide_eq_true_2.
  - rewrite bool_decide_eq_false_2 by set_solver. apply IH. set_solver.
Qed.

Lemma next_in_absent l x : x ∉ l → next_in l x = None.
Proof.
  induction l as [|y l IH]; simpl; intros Hx; [done|].
  rewrite bool_decide_eq_false_2 by set_solver. apply IH. set_solver.
Qed.

Lemma Next_split c pre x post :
  Chain c = pre ++ x :: post → NoDup (Chain c) → Next c x = head post.
Proof.
  intros Hc Hnd. unfold Next. rewrite Hc in *. rewrite next_in_split; [done|].
  apply NoDup_app in Hnd as (_ & Hd & _). set_solver.
Qed.

Lemma walk_from c pre x post :
  Chain c = pre ++ x :: post → NoDup (Chain c) →
  walk (S (length post)) c x = post.
Proof.
  revert pre x. induction post as [|y post IH]; intros pre x Hc Hnd;
    cbn [length]; rewrite walk_S, (Next_split _ _ _ _ Hc Hnd); [done|].
  simpl head. f_equal. apply (IH (pre ++ [x]) y); [|done].
  by rewrite Hc, <- app_assoc.
Qed.

End Promote.
