(* ===== verification/Progressive.v ===== *)
(** * Progressive delivery

    [internal/progressive]: resolving a strategy into weighted steps
    ([progressive.go]), the synchronous executor, and the canary step machine
    ([machine.go]) as the statekit description it builds, with the stepper that
    drives it.  [W] is the state the health gate reads and changes. *)

From S2P Require Import Prelude GoTime Statekit Config.
Import Config.

Record Step := { Weight : Z; Pause : Duration }.
Record Plan := { p_Strategy : string; p_Steps : list Step }.

(** ** Resolving a strategy *)
Definition step_of (s : StrategyStep) : Step :=
  {| Weight := ss_Weight s;
     Pause := match ParseDuration (ss_Pause s) with Ok d => d | Err _ => 0 end |}.

Definition fromConfig (l : list StrategyStep) : list Step := step_of <$> l.

Definition full_step (w : Z) : Step := {| Weight := w; Pause := 0 |}.

Definition ensureFull (steps : list Step) : list Step :=
  match last steps with
  | None => steps ++ [full_step 100]
  | Some s => if Weight s <? 100 then steps ++ [full_step 100] else steps
  end.

Definition PlanFor (s : Strategy) : Plan :=
  if sy_Type s == "canary" then
    let steps := fromConfig (sy_Steps s) in
    let steps := if (length steps =? 0)%nat then full_step <$> [10; 50; 100] else steps in
    {| p_Strategy := "canary"; p_Steps := ensureFull steps |}
  else if sy_Type s == "blue-green" then
    {| p_Strategy := "blue-green"; p_Steps := [full_step 100] |}
  else
    {| p_Strategy := "rolling"; p_Steps := full_step <$> [25; 50; 75; 100] |}.

(** ** The synchronous executor *)
Section Executor.
Context {W : Type}.

Record Executor := {
  Deploy : Z → W → option err * W;
  Health : option (W → option err * W);
  Sleep : Duration → W → W;
  OnStep : option (nat → nat → Step → W → option err * W);
}.

Definition step_label (p : Plan) (i : nat) (s : Step) : string :=
  "progressive: " +:+ p_Strategy p +:+ " step " +:+ pretty (S i) +:+ "/" +:+
  pretty (length (p_Steps p)) +:+ " (" +:+ pretty (Weight s) +:+ "%): ".

(** One iteration of [Executor.Run]'s loop. *)
Definition run_step (e : Executor) (p : Plan) (i : nat) (s : Step) (w : W) : option err * W :=
  let '(r, w) := Deploy e (Weight s) w in
  match r with
  | Some er => (Some (Wrap (step_label p i s +:+ "deploy: ") er ""), w)
  | None =>
      let w := if 0 <? Pause s then Sleep e (Pause s) w else w in
      let '(r, w) := match Health e with Some h => h w | None => (None, w) end in
      match r with
      | Some er => (Some (Wrap (step_label p i s +:+ "health gate failed: ") er ""), w)
      | None =>
          let '(r, w) := match OnStep e with
                         | Some f => f (S i) (length (p_Steps p)) s w
                         | None => (None, w)
                         end in
          (match r with Some er => Some (Wrap (step_label p i s) er "") | None => None end, w)
      end
  end.

Fixpoint run_from (e : Executor) (p : Plan) (i : nat) (steps : list Step) (w : W) : option err * W :=
  match steps with
  | [] => (None, w)
  | s :: rest =>
      let '(r, w) := run_step e p i s w in
      match r with Some er => (Some er, w) | None => run_from e p (S i) rest w end
  end.

Definition Run (e : Executor) (p : Plan) (w : W) : option err * W :=
  run_from e p 0 (p_Steps p) w.
End Executor.
Arguments Executor : clear implicits.

(** ** The canary step machine *)
Inductive StepState :=
| SStep (i : nat)
| SPaused (i : nat)
| SComplete
| SAborted.

#[global] Instance StepState_eq_dec : EqDecision StepState.
Proof. solve_decision. Defined.

(** The state ids of the description. *)
Definition state_name (s : StepState) : string :=
  match s with
  | SStep i => "step" +:+ pretty i
  | SPaused i => "paused" +:+ pretty i
  | SComplete => "complete"
  | SAborted => "aborted"
  end.

Record StepContext := { Index : Z; CtxWeight : Z; Failed : bool }.

Definition EvPause : string := "PAUSE".
Definition EvResume : string := "RESUME".
Definition EvPromote : string := "PROMOTE".
Definition EvAbort : string := "ABORT".
Definition EvNext : string := "NEXT".

Definition guard_failed : string := "failed".
Definition guard_ok_name : string := "ok".

Section Machine.
Context {W : Type}.

(** [StepHealth]. *)
Definition StepHealth : Type := nat → Z → W → bool * W.

Definition enter_name (i : nat) : string := "enter" +:+ pretty i.

Definition enter_action (health : StepHealth) (i : nat) (weight : Z)
    (_ : StepContext) (w : W) : StepContext * W :=
  let '(ok, w) := health i weight w in
  ({| Index := Z.of_nat i; CtxWeight := weight; Failed := negb ok |}, w).

Definition to_ (s : StepState) : Transition StepState := MkTransition s None.
Definition to_if (g : string) (s : StepState) : Transition StepState := MkTransition s (Some g).

Definition step_config (n i : nat) (s : Step) : StateConfig StepState :=
  let next := if (i <? n - 1)%nat then SStep (S i) else SComplete in
  MkState (Some (enter_name i))
    [to_if guard_failed SAborted]
    [(Pause s, to_if guard_ok_name next)]
    [(EvNext, to_if guard_ok_name next); (EvPause, to_ (SPaused i));
     (EvPromote, to_ SComplete); (EvAbort, to_ SAborted)]
    false.

Definition paused_config (i : nat) : StateConfig StepState :=
  MkState None [] []
    [(EvResume, to_ (SStep i)); (EvPromote, to_ SComplete); (EvAbort, to_ SAborted)]
    false.

Definition final_config : StateConfig StepState := MkState None [] [] [] true.

Fixpoint step_states (n i : nat) (steps : list Step) : list (StepState * StateConfig StepState) :=
  match steps with
  | [] => []
  | s :: rest => (SStep i, step_config n i s) :: (SPaused i, paused_config i)
                 :: step_states n (S i) rest
  end.

Fixpoint step_actions (health : StepHealth) (i : nat) (steps : list Step)
    : list (string * (StepContext → W → StepContext * W)) :=
  match steps with
  | [] => []
  | s :: rest => (enter_name i, enter_action health i (Weight s))
                 :: step_actions health (S i) rest
  end.

Definition always_healthy : StepHealth := λ _ _ w, (true, w).

Definition step_machine (plan : Plan) (health : StepHealth) : MachineConfig StepState StepContext W :=
  MkMachine (SStep 0)
    [(guard_failed, Failed); (guard_ok_name, λ c, negb (Failed c))]
    (step_actions health 0 (p_Steps plan))
    (step_states (length (p_Steps plan)) 0 (p_Steps plan)
       ++ [(SComplete, final_config); (SAborted, final_config)]).

Definition BuildStepMachine (plan : Plan) (health : option StepHealth)
    : result (MachineConfig StepState StepContext W) :=
  if (length (p_Steps plan) =? 0)%nat then Err (Errorf "progressive: empty plan")
  else Ok (step_machine plan (default always_healthy health)).

(** ** The stepper *)
Context `{!Statechart StepState StepContext W}.

Record Stepper := {
  sp_machine : MachineConfig StepState StepContext W;
  sp_state : StepState;
  sp_ctx : StepContext;
}.

Definition zero_ctx : StepContext := {| Index := 0; CtxWeight := 0; Failed := false |}.

Definition with_out (m : MachineConfig StepState StepContext W)
    (out : StepState * StepContext * W) : Stepper * W :=
  ({| sp_machine := m; sp_state := out.1.1; sp_ctx := out.1.2 |}, out.2).

Definition NewStepper (m : MachineConfig StepState StepContext W) (w : W) : Stepper * W :=
  with_out m (sc_start m zero_ctx w).

Definition RestoreStepper (m : MachineConfig StepState StepContext W)
    (snap : StepState * StepContext) : result Stepper :=
  match sc_restore m snap.1 snap.2 with
  | Some (s, c) => Ok {| sp_machine := m; sp_state := s; sp_ctx := c |}
  | None => Err (Errorf ("statekit: restore: unknown state " +:+ state_name snap.1))
  end.

Definition send (s : Stepper) (ev : string) (w : W) : Stepper * W :=
  with_out (sp_machine s) (sc_send (sp_machine s) (sp_state s) (sp_ctx s) ev w).

Definition StepperPause (s : Stepper) := send s EvPause.
Definition StepperResume (s : Stepper) := send s EvResume.
Definition StepperPromote (s : Stepper) := send s EvPromote.
Definition StepperAbort (s : Stepper) := send s EvAbort.
Definition StepperNext (s : Stepper) := send s EvNext.

(** [clk.Advance d] on the fake clock the stepper runs on. *)
Definition Advance (s : Stepper) (d : Duration) (w : W) : Stepper * W :=
  with_out (sp_machine s) (sc_advance (sp_machine s) (sp_state s) (sp_ctx s) d w).

Definition Complete (s : Stepper) : bool := sp_state s == SComplete.
Definition Aborted (s : Stepper) : bool := sp_state s == SAborted.
Definition Paused (s : Stepper) : bool :=
  (6 <=? str_len (state_name (sp_state s)))%nat &&
  (str_take 6 (state_name (sp_state s)) == "paused").
Definition Snapshot (s : Stepper) : StepState * StepContext := (sp_state s, sp_ctx s).
End Machine.
Arguments Stepper : clear implicits.
Arguments StepHealth : clear implicits.

(** ** Resolved plans *)
Lemma ensureFull_last l : ∃ s, last (ensureFull l) = Some s ∧ 100 ≤ Weight s.
Proof.
  unfold ensureFull. destruct (last l) as [s|] eqn:Hl.
  - destruct (Weight s <? 100) eqn:Hw; split_bool.
    + exists (full_step 100). by rewrite last_snoc.
    + eauto.
  - exists (full_step 100). by rewrite last_snoc.
Qed.

Lemma PlanFor_last s : ∃ st, last (p_Steps (PlanFor s)) = Some st ∧ 100 ≤ Weight st.
Proof.
  unfold PlanFor. repeat case_bool_decide; simpl.
  - apply ensureFull_last.
  - by exists (full_step 100).
  - by exists (full_step 100).
Qed.

Lemma PlanFor_nonempty s : p_Steps (PlanFor s) ≠ [].
Proof. destruct (PlanFor_last s) as (st & Hl & _). by intros Hnil; rewrite Hnil in Hl. Qed.

(** ** The step machine *)
Section MachineFacts.
Context {W : Type}.
Implicit Types (h : StepHealth W) (c : StepContext) (w : W).

Lemma step_states_lookup n i steps j s rest :
  steps !! j = Some s →
  assoc (SStep (i + j)) (step_states n i steps ++ rest) = Some (step_config n (i + j) s) ∧
  assoc (SPaused (i + j)) (step_states n i steps ++ rest) = Some (paused_config (i + j)).
Proof.
  revert i j. induction steps as [|s0 steps IH]; intros i [|j] Hj; simplify_eq/=.
  - rewrite Nat.add_0_r. by rewrite !bool_decide_eq_true_2.
  - rewrite !bool_decide_eq_false_2 by (intros [=]; lia).
    destruct (IH (S i) j Hj) as [H1 H2].
    replace (i + S j)%nat with (S i + j)%nat by lia. by rewrite H1, H2.
Qed.

Lemma step_states_final n i steps rest s :
  s = SComplete ∨ s = SAborted →
  assoc s (step_states n i steps ++ rest) = assoc s rest.
Proof.
  intros Hs. revert i. induction steps as [|s0 steps IH]; intros i; simpl; [done|].
  by rewrite !bool_decide_eq_false_2 by (destruct Hs; subst; done).
Qed.

Lemma step_actions_lookup h i steps j s :
  steps !! j = Some s →
  assoc (enter_name (i + j)) (step_actions h i steps) = Some (enter_action h (i + j) (Weight s)).
Proof.
  revert i j. induction steps as [|s0 steps IH]; intros i [|j] Hj; simplify_eq/=.
  - rewrite Nat.add_0_r. by rewrite bool_decide_eq_true_2.
  - rewrite bool_decide_eq_false_2.
    + replace (i + S j)%nat with (S i + j)%nat by lia. by apply IH.
    + unfold enter_name. intros Heq. apply (inj (String.append "enter")) in Heq.
      apply (inj pretty) in Heq. lia.
Qed.

Context (plan : Plan) (h : StepHealth W).
Let m := step_machine plan h.
Let n := length (p_Steps plan).

Lemma state_of_step i s :
  p_Steps plan !! i = Some s → state_of m (SStep i) = step_config n i s.
Proof.
  intros Hi. unfold state_of, m. cbn [mc_states step_machine].
  destruct (step_states_lookup (length (p_Steps plan)) 0 _ i s
    [(SComplete, final_config); (SAborted, final_config)] Hi) as [E _].
  simpl in E. by rewrite E.
Qed.

Lemma state_of_paused i s :
  p_Steps plan !! i = Some s → state_of m (SPaused i) = paused_config i.
Proof.
  intros Hi. unfold state_of, m. cbn [mc_states step_machine].
  destruct (step_states_lookup (length (p_Steps plan)) 0 _ i s
    [(SComplete, final_config); (SAborted, final_config)] Hi) as [_ E].
  simpl in E. by rewrite E.
Qed.

Lemma state_of_final s : s = SComplete ∨ s = SAborted → state_of m s = final_config.
Proof.
  intros Hs. unfold state_of, m. cbn [mc_states step_machine].
  rewrite step_states_final by done. by destruct Hs; subst.
Qed.

Lemma guard_ok_ok c t : guard_ok m c (to_if guard_ok_name t) = negb (Failed c).
Proof. done. Qed.

Lemma guard_ok_failed c t : guard_ok m c (to_if guard_failed t) = Failed c.
Proof. done. Qed.

Lemma first_enabled_single c t :
  first_enabled m c [t] = if guard_ok m c t then Some (tr_target t) else None.
Proof.
  unfold first_enabled. rewrite filter_cons, filter_nil.
  by destruct (guard_ok m c t); case_decide.
Qed.

Definition next_state (i : nat) : StepState :=
  if (i <? n - 1)%nat then SStep (S i) else SComplete.

(** What each control event does in a step. *)
Lemma event_target_step i s c ev :
  p_Steps plan !! i = Some s →
  event_target m (SStep i) c ev =
    if ev == EvNext then (if Failed c then None else Some (next_state i))
    else if ev == EvPause then Some (SPaused i)
    else if ev == EvPromote then Some SComplete
    else if ev == EvAbort then Some SAborted
    else None.
Proof.
  intros Hi. unfold event_target. rewrite (state_of_step _ _ Hi). fold (next_state i).
  unfold step_config. cbn [st_on]. fold (next_state i).
  repeat case_bool_decide; subst; try (destruct (Failed c) eqn:HF);
    unfold first_enabled, guard_ok, m; simpl; rewrite ?filter_cons;
    repeat (case_decide; simplify_eq/=); try done;
    repeat (rewrite ?filter_cons, ?filter_nil; simpl; rewrite ?HF in *;
            try case_decide; simplify_eq/=); done.
Qed.

Lemma event_target_paused i s c ev :
  p_Steps plan !! i = Some s →
  event_target m (SPaused i) c ev =
    if ev == EvResume then Some (SStep i)
    else if ev == EvPromote then Some SComplete
    else if ev == EvAbort then Some SAborted
    else None.
Proof.
  intros Hi. unfold event_target. rewrite (state_of_paused _ _ Hi).
  unfold paused_config. cbn [st_on].
  repeat case_bool_decide; subst; unfold first_enabled, guard_ok; simpl;
    rewrite ?filter_cons; repeat (case_decide; simplify_eq/=);
    by rewrite ?filter_cons, ?filter_nil.
Qed.

Lemma event_target_final s c ev :
  s = SComplete ∨ s = SAborted → event_target m s c ev = None.
Proof. intros Hs. unfold event_target. by rewrite state_of_final. Qed.

(** The timer of a step that is due. *)
Lemma timer_target_step i s c :
  p_Steps plan !! i = Some s → 0 < Pause s →
  timer_target m (SStep i) c (Pause s) = if Failed c then None else Some (next_state i).
Proof.
  intros Hi Hp. unfold timer_target. rewrite (state_of_step _ _ Hi).
  unfold step_config. cbn [st_after]. fold (next_state i).
  rewrite filter_cons, decide_True by (simpl; lia). simpl.
  rewrite first_enabled_single, guard_ok_ok. by destruct (Failed c).
Qed.

Lemma timer_target_some i st c d t :
  p_Steps plan !! i = Some st → timer_target m (SStep i) c d = Some t →
  Failed c = false ∧ t = next_state i.
Proof.
  intros Hi. unfold timer_target. rewrite (state_of_step _ _ Hi).
  unfold step_config. cbn [st_after]. fold (next_state i).
  rewrite filter_cons. case_decide; [|done]. cbn [fmap list_fmap snd].
  rewrite first_enabled_single, guard_ok_ok. by destruct (Failed c); intros; simplify_eq/=.
Qed.

Lemma timer_target_none s c d : (∀ i, s ≠ SStep i) → (∀ i, s = SPaused i → (i < n)%nat) → timer_target m s c d = None.
Proof.
  intros Hs Hp. unfold timer_target. destruct s as [i|i| |]; [by destruct (Hs i)| |by rewrite state_of_final by eauto..].
  destruct (lookup_lt_is_Some_2 (p_Steps plan) i (Hp i eq_refl)) as [st Hi]. by rewrite (state_of_paused _ _ Hi).
Qed.

Definition entry_ctx (i : nat) (weight : Z) (ok : bool) : StepContext :=
  {| Index := Z.of_nat i; CtxWeight := weight; Failed := negb ok |}.

(** Entering a step runs the health gate once; a healthy step is where the
    machine rests, an unhealthy one has aborted or is marked failed. *)
Lemma entered_step i s c w out :
  p_Steps plan !! i = Some s →
  entered m (SStep i) c w out →
  let '(ok, w') := h i (Weight s) w in
  out = (SStep i, entry_ctx i (Weight s) ok, w') ∨
  (ok = false ∧ out = (SAborted, entry_ctx i (Weight s) ok, w')).
Proof.
  intros Hi. unfold entered, run_entry. rewrite (state_of_step _ _ Hi).
  unfold step_config. cbn [st_entry st_always].
  pose proof (step_actions_lookup h 0 _ i s Hi) as Ha. simpl in Ha.
  change (mc_actions m) with (step_actions h 0 (p_Steps plan)). rewrite Ha.
  unfold enter_action. destruct (h i (Weight s) w) as [ok w'].
  rewrite first_enabled_single, guard_ok_failed. cbn [Failed tr_target to_if].
  destruct ok; simpl; [by left|]. rewrite state_of_final by eauto.
  intros [->| ->]; [by left|right; done].
Qed.

Lemma entered_plain s c w out :
  st_entry (state_of m s) = None → st_always (state_of m s) = [] →
  entered m s c w out → out = (s, c, w).
Proof. intros He Ha. unfold entered, run_entry. by rewrite He, Ha. Qed.

Lemma entered_final s c w out :
  s = SComplete ∨ s = SAborted → entered m s c w out → out = (s, c, w).
Proof. intros Hs. apply entered_plain; by rewrite state_of_final. Qed.

Lemma entered_paused i s c w out :
  p_Steps plan !! i = Some s → entered m (SPaused i) c w out → out = (SPaused i, c, w).
Proof. intros Hi. apply entered_plain; by rewrite (state_of_paused _ _ Hi). Qed.

(** ** Driving the machine through any lawful interpreter *)
Context `{!Statechart StepState StepContext W, !StatechartLaws StepState StepContext W}.

(** The outcomes of moving on from step [i]: the next step with its health
    gate run, or completion when [i] was the last. *)
Definition moved_on (i : nat) (c : StepContext) (w : W) (out : StepState * StepContext * W) : Prop :=
  match p_Steps plan !! S i with
  | None => out = (SComplete, c, w)
  | Some s' =>
      let '(ok, w') := h (S i) (Weight s') w in
      out = (SStep (S i), entry_ctx (S i) (Weight s') ok, w') ∨
      (ok = false ∧ out = (SAborted, entry_ctx (S i) (Weight s') ok, w'))
  end.

Lemma entered_next i s c w out :
  p_Steps plan !! i = Some s →
  entered m (next_state i) c w out → moved_on i c w out.
Proof.
  intros Hi. unfold moved_on, next_state. apply lookup_lt_Some in Hi. fold n in Hi.
  destruct (Nat.ltb_spec i (n - 1)) as [Hlt|Hge].
  - destruct (lookup_lt_is_Some_2 (p_Steps plan) (S i)) as [s' Hs']; [fold n; lia|].
    rewrite Hs'. by apply entered_step.
  - rewrite (lookup_ge_None_2 (p_Steps plan) (S i)) by (fold n; lia).
    apply entered_final. by left.
Qed.

Lemma next_moves i s c w :
  p_Steps plan !! i = Some s → Failed c = false →
  moved_on i c w (sc_send m (SStep i) c EvNext w).
Proof.
  intros Hi HF. pose proof (send_spec m (SStep i) c EvNext w) as H.
  rewrite (event_target_step _ _ _ _ Hi), HF in H. eapply entered_next; eauto.
Qed.

Lemma advance_moves i s c w :
  p_Steps plan !! i = Some s → 0 < Pause s → Failed c = false →
  moved_on i c w (sc_advance m (SStep i) c (Pause s) w).
Proof.
  intros Hi Hp HF. pose proof (advance_spec m (SStep i) c (Pause s) w) as H.
  rewrite (timer_target_step _ _ _ Hi Hp), HF in H. eapply entered_next; eauto.
Qed.

Lemma start_outcome s c w :
  p_Steps plan !! O = Some s →
  let '(ok, w') := h O (Weight s) w in
  sc_start m c w = (SStep 0, entry_ctx 0 (Weight s) ok, w') ∨
  (ok = false ∧ sc_start m c w = (SAborted, entry_ctx 0 (Weight s) ok, w')).
Proof. intros H0. apply (entered_step 0 s c w); [done|]. apply start_spec. Qed.
End MachineFacts.

(** ** Completion needs every gate

    Control sequences driven into a stepper whose health gate logs each verdict
    with its step. *)
Inductive control := CNext | CPause | CResume | CPromote | CAbort | CAdvance (d : Duration).

Section Completion.
Context {W : Type} `{!Statechart StepState StepContext W}.

Definition drive1 (sw : Stepper W * W) (k : control) : Stepper W * W :=
  let '(s, w) := sw in
  match k with
  | CNext => StepperNext s w
  | CPause => StepperPause s w
  | CResume => StepperResume s w
  | CPromote => StepperPromote s w
  | CAbort => StepperAbort s w
  | CAdvance d => Advance s d w
  end.

Definition drive (sw : Stepper W * W) (ks : list control) : Stepper W * W := foldl drive1 sw ks.
End Completion.

(** A gate with any verdict function, logging what it answered. *)
Definition log : Type := list (nat * bool).
Definition logged (verdict : nat → Z → log → bool) : StepHealth log :=
  λ i weight w, let ok := verdict i weight w in (ok, (i, ok) :: w).

Section CompletionFacts.
Context `{!Statechart StepState StepContext log, !StatechartLaws StepState StepContext log}.
Context (plan : Plan) (verdict : nat → Z → log → bool).
Let m := step_machine plan (logged verdict).

Definition passed (w : log) (i : nat) : Prop := (i, true) ∈ w.

(** What a state of the machine says about the gates passed so far. *)
Definition gated (out : StepState * StepContext * log) : Prop :=
  let '(s, c, w) := out in
  match s with
  | SStep i => (∃ st, p_Steps plan !! i = Some st) ∧ (∀ j, (j < i)%nat → passed w j) ∧
               (Failed c = false → passed w i)
  | SPaused i => (∃ st, p_Steps plan !! i = Some st) ∧ (∀ j, (j < i)%nat → passed w j)
  | SComplete => ∀ j, (j < length (p_Steps plan))%nat → passed w j
  | SAborted => True
  end.

Lemma gated_enter i st c w out :
  p_Steps plan !! i = Some st → (∀ j, (j < i)%nat → passed w j) →
  entered m (SStep i) c w out → gated out.
Proof.
  intros Hi Hj He. apply (entered_step plan (logged verdict) i st) in He; [|done].
  unfold logged in He. cbn zeta in He. destruct He as [-> |[_ ->]]; [|done].
  simpl. unfold passed in *. split_and!; [eauto|set_solver|].
  destruct (verdict i (Weight st) w); simpl; set_solver.
Qed.

Lemma gated_moved i st c w out :
  p_Steps plan !! i = Some st → (∀ j, (j ≤ i)%nat → passed w j) →
  entered m (next_state plan i) c w out → gated out.
Proof.
  intros Hi Hj. unfold next_state. apply lookup_lt_Some in Hi as Hlt.
  destruct (Nat.ltb_spec i (length (p_Steps plan) - 1)) as [H|H].
  - destruct (lookup_lt_is_Some_2 (p_Steps plan) (S i)) as [s' Hs']; [lia|].
    apply (gated_enter _ s'); [done|]. intros j ?. apply Hj. lia.
  - intros He. apply entered_final in He; [|by left]. subst. simpl.
    intros j ?. apply Hj. lia.
Qed.

Lemma passed_upto c w i :
  gated (SStep i, c, w) → Failed c = false → ∀ j, (j ≤ i)%nat → passed w j.
Proof.
  intros (_ & Hlt & Hi) HF j Hj. destruct (decide (j = i)) as [->|]; [by apply Hi|].
  apply Hlt. lia.
Qed.

Lemma gated_send s c w ev :
  ev ≠ EvPromote → gated (s, c, w) → gated (sc_send m s c ev w).
Proof.
  intros Hev Hg. pose proof (send_spec m s c ev w) as H. destruct s as [i|i| |].
  - pose proof Hg as ((st & Hi) & Hlt & _).
    unfold m in H at 1. rewrite (event_target_step _ _ _ _ _ _ Hi) in H.
    repeat case_bool_decide; subst; try done; [| | |by rewrite H].
    + destruct (Failed c) eqn:HF; [by rewrite H|].
      eapply gated_moved; [done| |done]. by apply (passed_upto c).
    + apply (entered_paused _ _ _ _ _ _ _ Hi) in H. rewrite H. simpl. eauto.
    + apply entered_final in H; [|by right]. by rewrite H.
  - pose proof Hg as ((st & Hi) & Hlt).
    unfold m in H at 1. rewrite (event_target_paused _ _ _ _ _ _ Hi) in H.
    repeat case_bool_decide; subst; try done; [| |by rewrite H].
    + by eapply gated_enter.
    + apply entered_final in H; [|by right]. by rewrite H.
  - unfold m in H at 1. rewrite event_target_final in H by eauto. by rewrite H.
  - unfold m in H at 1. rewrite event_target_final in H by eauto. by rewrite H.
Qed.

Lemma gated_advance s c w d : gated (s, c, w) → gated (sc_advance m s c d w).
Proof.
  intros Hg. pose proof (advance_spec m s c d w) as H.
  destruct (timer_target m s c d) as [t|] eqn:Ht; [|by rewrite H].
  destruct s as [i|i| |].
  - pose proof Hg as ((st & Hi) & _). destruct (timer_target_some _ _ _ _ _ _ _ Hi Ht) as [HF ->].
    eapply gated_moved; [done| |done]. by apply (passed_upto c).
  - destruct Hg as ((st & Hi) & _). unfold timer_target, m in Ht.
    by rewrite (state_of_paused _ _ _ _ Hi) in Ht.
  - unfold timer_target, m in Ht. by rewrite state_of_final in Ht by eauto.
  - unfold timer_target, m in Ht. by rewrite state_of_final in Ht by eauto.
Qed.

Definition good (sw : Stepper log * log) : Prop :=
  sp_machine sw.1 = m ∧ gated (sp_state sw.1, sp_ctx sw.1, sw.2).

Lemma good_with_out out : gated out → good (with_out m out).
Proof. by destruct out as [[? ?] ?]. Qed.

Lemma good_drive1 sw k : k ≠ CPromote → good sw → good (drive1 sw k).
Proof.
  destruct sw as [s w]. intros Hk [Hm Hg]. cbn [fst snd] in *.
  destruct k; try done; cbn [drive1]; unfold StepperNext, StepperPause, StepperResume, StepperAbort, send, Advance;
    rewrite Hm; apply good_with_out; (by apply gated_send || by apply gated_advance).
Qed.

Lemma good_drive ks sw : CPromote ∉ ks → good sw → good (drive sw ks).
Proof.
  revert sw. induction ks as [|k ks IH]; intros sw Hk Hg; [done|].
  apply not_elem_of_cons in Hk as [Hk Hks]. apply IH; [done|]. by apply good_drive1.
Qed.

(** Nothing moves a machine that is through. *)
Lemma good_promote_final sw : sp_state sw.1 = SComplete ∨ sp_state sw.1 = SAborted → good sw → good (drive1 sw CPromote).
Proof.
  destruct sw as [s w]. intros Hf [Hm Hg]. cbn [fst snd drive1] in *. unfold StepperPromote, send. rewrite Hm.
  apply good_with_out. pose proof (send_spec m (sp_state s) (sp_ctx s) EvPromote w) as H.
  unfold m in H at 1. rewrite event_target_final in H by done. by rewrite H.
Qed.

(** The step a machine is at, running or paused, with the gates before it passed. *)
Definition at_step (sw : Stepper log * log) (i : nat) : Prop :=
  (sp_state sw.1 = SStep i ∨ sp_state sw.1 = SPaused i) ∧ ∀ j, (j < i)%nat → (j, true) ∈ sw.2.

(** Any run of a good machine keeps it good, or was promoted early. *)
Lemma good_or_promoted ks : ∀ sw, good sw →
  good (drive sw ks) ∨ ∃ before after i, ks = before ++ CPromote :: after ∧ at_step (drive sw before) i.
Proof.
  induction ks as [|k ks IH]; intros sw Hg; [by left|]. cbn [drive foldl].
  assert (good (drive1 sw k) → good (drive sw (k :: ks)) ∨
    ∃ before after i, k :: ks = before ++ CPromote :: after ∧ at_step (drive sw before) i) as Hnext.
  { intros Hg1. destruct (IH _ Hg1) as [?|(before & after & i & -> & ?)]; [by left|]. right. by exists (k :: before), after, i. }
  assert (k = CPromote ∨ k ≠ CPromote) as [->|Hk] by (destruct k; auto; by right); [|apply Hnext; by apply good_drive1].
  pose proof Hg as [_ Hs]. unfold gated in Hs. destruct (sp_state sw.1) as [i|i| |] eqn:Es.
  - right. exists [], ks, i. split; [done|]. split; [by left|]. apply Hs.
  - right. exists [], ks, i. split; [done|]. split; [by right|]. apply Hs.
  - apply Hnext, good_promote_final; [by left|done].
  - apply Hnext, good_promote_final; [by right|done].
Qed.

Lemma good_start w : p_Steps plan ≠ [] → good (NewStepper m w).
Proof.
  intros Hne. apply good_with_out. destruct (p_Steps plan) as [|st rest] eqn:Hp; [done|].
  apply (gated_enter 0 st zero_ctx w); [by rewrite Hp|lia|]. apply (start_spec m).
Qed.
End CompletionFacts.

(** ** Properties *)

(** Every resolved plan is non-empty and ends at full weight: whatever
    steps a canary lists - none, or a ramp that stops short - the plan's last
    step sends at least 100% to the new version. *)
Theorem PlanFor_reaches_full s :
  ∃ st, last (p_Steps (PlanFor s)) = Some st ∧ 100 ≤ Weight st.
Proof. apply PlanFor_last. Qed.

(** C17. A canary completes only through its health gates or by an operator's
    promote.  However next, pause, resume, promote, abort and clock events are
    interleaved from the start, if the stepper is complete then the gate answered
    healthy at every step of the plan, or a promote was sent while the canary was
    at some step, running or paused, with every step before it passed. *)
Theorem complete_only_when_healthy
    `{!Statechart StepState StepContext log, !StatechartLaws StepState StepContext log}
    s verdict ks :
  let start := NewStepper (step_machine (PlanFor s) (logged verdict)) [] in
  Complete (drive start ks).1 = true →
  (∀ j, (j < length (p_Steps (PlanFor s)))%nat → (j, true) ∈ (drive start ks).2) ∨
  (∃ before after i, ks = before ++ CPromote :: after ∧
     (sp_state (drive start before).1 = SStep i ∨ sp_state (drive start before).1 = SPaused i) ∧
     ∀ j, (j < i)%nat → (j, true) ∈ (drive start before).2).
Proof.
  intros start Hc. destruct (good_or_promoted (PlanFor s) verdict ks start) as [[_ Hg]|H]; [|left|by right].
  - apply good_start, PlanFor_nonempty; done.
  - unfold Complete in Hc. split_bool. by rewrite Hc in Hg.
Qed.

Lemma complete_only_when_healthy_witness :
  let _ := ref_statechart StepState StepContext log true in
  let s := {| sy_Type := "canary"; sy_Steps := [ {| ss_Weight := 20; ss_Pause := "5m" |} ] |} in
  let start := NewStepper (step_machine (PlanFor s) (logged (λ _ _ _, true))) [] in
  let ks := [CPause; CResume; CAdvance (300 * 1000000000); CNext] in
  Complete (drive start ks).1 = true ∧
  ((∀ j, (j < length (p_Steps (PlanFor s)))%nat → (j, true) ∈ (drive start ks).2) ∨
   (∃ before after i, ks = before ++ CPromote :: after ∧
     (sp_state (drive start before).1 = SStep i ∨ sp_state (drive start before).1 = SPaused i) ∧
     ∀ j, (j < i)%nat → (j, true) ∈ (drive start before).2)).
Proof.
  intros I s start ks. split; [vm_compute; reflexivity|].
  apply (@complete_only_when_healthy I (ref_laws _ _ _ true) s (λ _ _ _, true) ks). vm_compute. reflexivity.
Defined.
