(* ===== verification/Model.v ===== *)
(** * Runtime entities

    The target contract's data ([pkg/target/target.go]) and the rollout model
    ([internal/rollout/model.go]).  Opaque JSON descriptors kept as bytes in the
    source are [blob]s: empty, the encoding of a value, or bytes that do not
    decode.  The desired spec, JSON bytes in the source, is kept decoded. *)

From S2P Require Import Prelude GoTime Config Progressive.

(** Bytes written by [json.Marshal], seen through [json.Unmarshal]. *)
Inductive cell (A : Type) := Good (a : A) | Corrupt.
Arguments Good {A} a.
Arguments Corrupt {A}.

Definition blob (A : Type) : Type := option (cell A).

Definition blob_empty {A} (b : blob A) : bool :=
  match b with None => true | Some _ => false end.

Definition unmarshal {A} (c : cell A) : result A :=
  match c with Good a => Ok a | Corrupt => Err (Errorf "json: cannot unmarshal") end.

(** ** [pkg/target] *)
Record Manifest := {
  m_Kind : string;
  m_Spec : gmap string any;
  m_Labels : gmap string string;
  m_Checksum : string;
  m_Root : string;
  m_Rendered : string;
}.

Definition empty_manifest : Manifest :=
  {| m_Kind := ""; m_Spec := ∅; m_Labels := ∅; m_Checksum := ""; m_Root := ""; m_Rendered := "" |}.

Record Fingerprint := { fp_Value : string; fp_Meta : gmap string string }.

Inductive HealthState := HealthUnknown | HealthHealthy | HealthDegraded | HealthUnhealthy.

#[global] Instance HealthState_eq_dec : EqDecision HealthState.
Proof. solve_decision. Defined.

Record HealthStatus := { hs_State : HealthState; hs_Reason : string }.

Record Resource := {
  rs_Kind : string; rs_Name : string; rs_Namespace : string; rs_Status : string; rs_Parent : string;
}.

(** ** [internal/rollout] *)
Inductive Phase :=
| PhasePending
| PhaseValidating
| PhaseAwaitingApproval
| PhaseDeploying
| PhasePaused
| PhaseVerifying
| PhasePromoted
| PhaseRolledBack.

#[global] Instance Phase_eq_dec : EqDecision Phase.
Proof. solve_decision. Defined.

Definition phase_str (p : Phase) : string :=
  match p with
  | PhasePending => "pending"
  | PhaseValidating => "validating"
  | PhaseAwaitingApproval => "awaiting-approval"
  | PhaseDeploying => "deploying"
  | PhasePaused => "paused"
  | PhaseVerifying => "verifying"
  | PhasePromoted => "promoted"
  | PhaseRolledBack => "rolled-back"
  end.

Definition Settled (p : Phase) : bool := p == PhasePromoted || p == PhaseRolledBack.

Definition Active (p : Phase) : bool :=
  match p with
  | PhasePending | PhaseValidating | PhaseDeploying | PhasePaused | PhaseVerifying => true
  | _ => false
  end.

Definition Degraded (p : Phase) : bool := p == PhaseRolledBack.

Inductive RStrategy := StrategyRolling | StrategyCanary | StrategyBlueGreen.

Record Identity := { id_Kind : string; id_Name : string; id_Groups : list string }.

Record stepperPersist := {
  sn_Plan : Plan;
  sn_Snap : StepState * StepContext;
  sn_EnteredAt : Time;
}.

Record Rollout := {
  r_ID : string;
  r_TargetRef : string;
  r_Phase : Phase;
  r_Strategy : RStrategy;
  r_Desired : Manifest;
  r_RiskScore : float;
  r_Initiator : Identity;
  r_Note : string;
  r_StepIndex : Z;
  r_StepTotal : Z;
  r_StepWeight : Z;
  r_DBRollbackCmd : list string;
  r_DBRollbackTimeout : string;
  r_DBMigrateCmd : list string;
  r_DBMigrateTimeout : string;
  r_DBMigrateWhen : string;
  r_DBBackwardCompatible : bool;
  r_DeliveryTraffic : blob Config.TrafficRouting;
  r_DeliveryFlag : blob Config.FeatureFlags;
  r_Analysis : blob Config.Analysis;
  r_RollbackBlocked : string;
  r_SmokeTest : blob Config.SmokeTest;
  r_StepperSnap : blob stepperPersist;
  r_CreatedAt : Time;
  r_UpdatedAt : Time;
}.

Record TargetState := { ts_TargetRef : string; ts_Observed : Fingerprint; ts_ObservedAt : Time }.

Record ScheduledRollout := {
  sr_ID : string;
  sr_TargetRef : string;
  sr_DueAt : Time;
  sr_Desired : Manifest;
  sr_Initiator : Identity;
}.

Record RolloutRecord := {
  rr_RolloutID : string;
  rr_TargetRef : string;
  rr_Phase : Phase;
  rr_Note : string;
  rr_Initiator : Identity;
  rr_At : Time;
}.

Record Dependency := { dep_From : string; dep_To : string }.

(** ** Field updates *)
Definition set_ID (v : string) (r : Rollout) : Rollout :=
  {| r_ID := v; r_TargetRef := r_TargetRef r; r_Phase := r_Phase r; r_Strategy := r_Strategy r;
     r_Desired := r_Desired r; r_RiskScore := r_RiskScore r; r_Initiator := r_Initiator r;
     r_Note := r_Note r; r_StepIndex := r_StepIndex r; r_StepTotal := r_StepTotal r;
     r_StepWeight := r_StepWeight r; r_DBRollbackCmd := r_DBRollbackCmd r;
     r_DBRollbackTimeout := r_DBRollbackTimeout r; r_DBMigrateCmd := r_DBMigrateCmd r;
     r_DBMigrateTimeout := r_DBMigrateTimeout r; r_DBMigrateWhen := r_DBMigrateWhen r;
     r_DBBackwardCompatible := r_DBBackwardCompatible r;
     r_DeliveryTraffic := r_DeliveryTraffic r; r_DeliveryFlag := r_DeliveryFlag r;
     r_Analysis := r_Analysis r; r_RollbackBlocked := r_RollbackBlocked r;
     r_SmokeTest := r_SmokeTest r; r_StepperSnap := r_StepperSnap r;
     r_CreatedAt := r_CreatedAt r; r_UpdatedAt := r_UpdatedAt r |}.

Definition set_TargetRef (v : string) (r : Rollout) : Rollout :=
  {| r_ID := r_ID r; r_TargetRef := v; r_Phase := r_Phase r; r_Strategy := r_Strategy r;
     r_Desired := r_Desired r; r_RiskScore := r_RiskScore r; r_Initiator := r_Initiator r;
     r_Note := r_Note r; r_StepIndex := r_StepIndex r; r_StepTotal := r_StepTotal r;
     r_StepWeight := r_StepWeight r; r_DBRollbackCmd := r_DBRollbackCmd r;
     r_DBRollbackTimeout := r_DBRollbackTimeout r; r_DBMigrateCmd := r_DBMigrateCmd r;
     r_DBMigrateTimeout := r_DBMigrateTimeout r; r_DBMigrateWhen := r_DBMigrateWhen r;
     r_DBBackwardCompatible := r_DBBackwardCompatible r;
     r_DeliveryTraffic := r_DeliveryTraffic r; r_DeliveryFlag := r_DeliveryFlag r;
     r_Analysis := r_Analysis r; r_RollbackBlocked := r_RollbackBlocked r;
     r_SmokeTest := r_SmokeTest r; r_StepperSnap := r_StepperSnap r;
     r_CreatedAt := r_CreatedAt r; r_UpdatedAt := r_UpdatedAt r |}.

Definition set_Phase (v : Phase) (r : Rollout) : Rollout :=
  {| r_ID := r_ID r; r_TargetRef := r_TargetRef r; r_Phase := v; r_Strategy := r_Strategy r;
     r_Desired := r_Desired r; r_RiskScore := r_RiskScore r; r_Initiator := r_Initiator r;
     r_Note := r_Note r; r_StepIndex := r_StepIndex r; r_StepTotal := r_StepTotal r;
     r_StepWeight := r_StepWeight r; r_DBRollbackCmd := r_DBRollbackCmd r;
     r_DBRollbackTimeout := r_DBRollbackTimeout r; r_DBMigrateCmd := r_DBMigrateCmd r;
     r_DBMigrateTimeout := r_DBMigrateTimeout r; r_DBMigrateWhen := r_DBMigrateWhen r;
     r_DBBackwardCompatible := r_DBBackwardCompatible r;
     r_DeliveryTraffic := r_DeliveryTraffic r; r_DeliveryFlag := r_DeliveryFlag r;
     r_Analysis := r_Analysis r; r_RollbackBlocked := r_RollbackBlocked r;
     r_SmokeTest := r_SmokeTest r; r_StepperSnap := r_StepperSnap r;
     r_CreatedAt := r_CreatedAt r; r_UpdatedAt := r_UpdatedAt r |}.

Definition set_Desired (v : Manifest) (r : Rollout) : Rollout :=
  {| r_ID := r_ID r; r_TargetRef := r_TargetRef r; r_Phase := r_Phase r;
     r_Strategy := r_Strategy r; r_Desired := v; r_RiskScore := r_RiskScore r;
     r_Initiator := r_Initiator r; r_Note := r_Note r; r_StepIndex := r_StepIndex r;
     r_StepTotal := r_StepTotal r; r_StepWeight := r_StepWeight r;
     r_DBRollbackCmd := r_DBRollbackCmd r; r_DBRollbackTimeout := r_DBRollbackTimeout r;
     r_DBMigrateCmd := r_DBMigrateCmd r; r_DBMigrateTimeout := r_DBMigrateTimeout r;
     r_DBMigrateWhen := r_DBMigrateWhen r; r_DBBackwardCompatible := r_DBBackwardCompatible r;
     r_DeliveryTraffic := r_DeliveryTraffic r; r_DeliveryFlag := r_DeliveryFlag r;
     r_Analysis := r_Analysis r; r_RollbackBlocked := r_RollbackBlocked r;
     r_SmokeTest := r_SmokeTest r; r_StepperSnap := r_StepperSnap r;
     r_CreatedAt := r_CreatedAt r; r_UpdatedAt := r_UpdatedAt r |}.

Definition set_Initiator (v : Identity) (r : Rollout) : Rollout :=
  {| r_ID := r_ID r; r_TargetRef := r_TargetRef r; r_Phase := r_Phase r;
     r_Strategy := r_Strategy r; r_Desired := r_Desired r; r_RiskScore := r_RiskScore r;
     r_Initiator := v; r_Note := r_Note r; r_StepIndex := r_StepIndex r;
     r_StepTotal := r_StepTotal r; r_StepWeight := r_StepWeight r;
     r_DBRollbackCmd := r_DBRollbackCmd r; r_DBRollbackTimeout := r_DBRollbackTimeout r;
     r_DBMigrateCmd := r_DBMigrateCmd r; r_DBMigrateTimeout := r_DBMigrateTimeout r;
     r_DBMigrateWhen := r_DBMigrateWhen r; r_DBBackwardCompatible := r_DBBackwardCompatible r;
     r_DeliveryTraffic := r_DeliveryTraffic r; r_DeliveryFlag := r_DeliveryFlag r;
     r_Analysis := r_Analysis r; r_RollbackBlocked := r_RollbackBlocked r;
     r_SmokeTest := r_SmokeTest r; r_StepperSnap := r_StepperSnap r;
     r_CreatedAt := r_CreatedAt r; r_UpdatedAt := r_UpdatedAt r |}.

Definition set_Note (v : string) (r : Rollout) : Rollout :=
  {| r_ID := r_ID r; r_TargetRef := r_TargetRef r; r_Phase := r_Phase r;
     r_Strategy := r_Strategy r; r_Desired := r_Desired r; r_RiskScore := r_RiskScore r;
     r_Initiator := r_Initiator r; r_Note := v; r_StepIndex := r_StepIndex r;
     r_StepTotal := r_StepTotal r; r_StepWeight := r_StepWeight r;
     r_DBRollbackCmd := r_DBRollbackCmd r; r_DBRollbackTimeout := r_DBRollbackTimeout r;
     r_DBMigrateCmd := r_DBMigrateCmd r; r_DBMigrateTimeout := r_DBMigrateTimeout r;
     r_DBMigrateWhen := r_DBMigrateWhen r; r_DBBackwardCompatible := r_DBBackwardCompatible r;
     r_DeliveryTraffic := r_DeliveryTraffic r; r_DeliveryFlag := r_DeliveryFlag r;
     r_Analysis := r_Analysis r; r_RollbackBlocked := r_RollbackBlocked r;
     r_SmokeTest := r_SmokeTest r; r_StepperSnap := r_StepperSnap r;
     r_CreatedAt := r_CreatedAt r; r_UpdatedAt := r_UpdatedAt r |}.

Definition set_StepIndex (v : Z) (r : Rollout) : Rollout :=
  {| r_ID := r_ID r; r_TargetRef := r_TargetRef r; r_Phase := r_Phase r;
     r_Strategy := r_Strategy r; r_Desired := r_Desired r; r_RiskScore := r_RiskScore r;
     r_Initiator := r_Initiator r; r_Note := r_Note r; r_StepIndex := v;
     r_StepTotal := r_StepTotal r; r_StepWeight := r_StepWeight r;
     r_DBRollbackCmd := r_DBRollbackCmd r; r_DBRollbackTimeout := r_DBRollbackTimeout r;
     r_DBMigrateCmd := r_DBMigrateCmd r; r_DBMigrateTimeout := r_DBMigrateTimeout r;
     r_DBMigrateWhen := r_DBMigrateWhen r; r_DBBackwardCompatible := r_DBBackwardCompatible r;
     r_DeliveryTraffic := r_DeliveryTraffic r; r_DeliveryFlag := r_DeliveryFlag r;
     r_Analysis := r_Analysis r; r_RollbackBlocked := r_RollbackBlocked r;
     r_SmokeTest := r_SmokeTest r; r_StepperSnap := r_StepperSnap r;
     r_CreatedAt := r_CreatedAt r; r_UpdatedAt := r_UpdatedAt r |}.

Definition set_StepTotal (v : Z) (r : Rollout) : Rollout :=
  {| r_ID := r_ID r; r_TargetRef := r_TargetRef r; r_Phase := r_Phase r;
     r_Strategy := r_Strategy r; r_Desired := r_Desired r; r_RiskScore := r_RiskScore r;
     r_Initiator := r_Initiator r; r_Note := r_Note r; r_StepIndex := r_StepIndex r;
     r_StepTotal := v; r_StepWeight := r_StepWeight r; r_DBRollbackCmd := r_DBRollbackCmd r;
     r_DBRollbackTimeout := r_DBRollbackTimeout r; r_DBMigrateCmd := r_DBMigrateCmd r;
     r_DBMigrateTimeout := r_DBMigrateTimeout r; r_DBMigrateWhen := r_DBMigrateWhen r;
     r_DBBackwardCompatible := r_DBBackwardCompatible r;
     r_DeliveryTraffic := r_DeliveryTraffic r; r_DeliveryFlag := r_DeliveryFlag r;
     r_Analysis := r_Analysis r; r_RollbackBlocked := r_RollbackBlocked r;
     r_SmokeTest := r_SmokeTest r; r_StepperSnap := r_StepperSnap r;
     r_CreatedAt := r_CreatedAt r; r_UpdatedAt := r_UpdatedAt r |}.

Definition set_StepWeight (v : Z) (r : Rollout) : Rollout :=
  {| r_ID := r_ID r; r_TargetRef := r_TargetRef r; r_Phase := r_Phase r;
     r_Strategy := r_Strategy r; r_Desired := r_Desired r; r_RiskScore := r_RiskScore r;
     r_Initiator := r_Initiator r; r_Note := r_Note r; r_StepIndex := r_StepIndex r;
     r_StepTotal := r_StepTotal r; r_StepWeight := v; r_DBRollbackCmd := r_DBRollbackCmd r;
     r_DBRollbackTimeout := r_DBRollbackTimeout r; r_DBMigrateCmd := r_DBMigrateCmd r;
     r_DBMigrateTimeout := r_DBMigrateTimeout r; r_DBMigrateWhen := r_DBMigrateWhen r;
     r_DBBackwardCompatible := r_DBBackwardCompatible r;
     r_DeliveryTraffic := r_DeliveryTraffic r; r_DeliveryFlag := r_DeliveryFlag r;
     r_Analysis := r_Analysis r; r_RollbackBlocked := r_RollbackBlocked r;
     r_SmokeTest := r_SmokeTest r; r_StepperSnap := r_StepperSnap r;
     r_CreatedAt := r_CreatedAt r; r_UpdatedAt := r_UpdatedAt r |}.

Definition set_RollbackBlocked (v : string) (r : Rollout) : Rollout :=
  {| r_ID := r_ID r; r_TargetRef := r_TargetRef r; r_Phase := r_Phase r;
     r_Strategy := r_Strategy r; r_Desired := r_Desired r; r_RiskScore := r_RiskScore r;
     r_Initiator := r_Initiator r; r_Note := r_Note r; r_StepIndex := r_StepIndex r;
     r_StepTotal := r_StepTotal r; r_StepWeight := r_StepWeight r;
     r_DBRollbackCmd := r_DBRollbackCmd r; r_DBRollbackTimeout := r_DBRollbackTimeout r;
     r_DBMigrateCmd := r_DBMigrateCmd r; r_DBMigrateTimeout := r_DBMigrateTimeout r;
     r_DBMigrateWhen := r_DBMigrateWhen r; r_DBBackwardCompatible := r_DBBackwardCompatible r;
     r_DeliveryTraffic := r_DeliveryTraffic r; r_DeliveryFlag := r_DeliveryFlag r;
     r_Analysis := r_Analysis r; r_RollbackBlocked := v; r_SmokeTest := r_SmokeTest r;
     r_StepperSnap := r_StepperSnap r; r_CreatedAt := r_CreatedAt r;
     r_UpdatedAt := r_UpdatedAt r |}.

Definition set_StepperSnap (v : blob stepperPersist) (r : Rollout) : Rollout :=
  {| r_ID := r_ID r; r_TargetRef := r_TargetRef r; r_Phase := r_Phase r;
     r_Strategy := r_Strategy r; r_Desired := r_Desired r; r_RiskScore := r_RiskScore r;
     r_Initiator := r_Initiator r; r_Note := r_Note r; r_StepIndex := r_StepIndex r;
     r_StepTotal := r_StepTotal r; r_StepWeight := r_StepWeight r;
     r_DBRollbackCmd := r_DBRollbackCmd r; r_DBRollbackTimeout := r_DBRollbackTimeout r;
     r_DBMigrateCmd := r_DBMigrateCmd r; r_DBMigrateTimeout := r_DBMigrateTimeout r;
     r_DBMigrateWhen := r_DBMigrateWhen r; r_DBBackwardCompatible := r_DBBackwardCompatible r;
     r_DeliveryTraffic := r_DeliveryTraffic r; r_DeliveryFlag := r_DeliveryFlag r;
     r_Analysis := r_Analysis r; r_RollbackBlocked := r_RollbackBlocked r;
     r_SmokeTest := r_SmokeTest r; r_StepperSnap := v; r_CreatedAt := r_CreatedAt r;
     r_UpdatedAt := r_UpdatedAt r |}.

Definition set_CreatedAt (v : Time) (r : Rollout) : Rollout :=
  {| r_ID := r_ID r; r_TargetRef := r_TargetRef r; r_Phase := r_Phase r;
     r_Strategy := r_Strategy r; r_Desired := r_Desired r; r_RiskScore := r_RiskScore r;
     r_Initiator := r_Initiator r; r_Note := r_Note r; r_StepIndex := r_StepIndex r;
     r_StepTotal := r_StepTotal r; r_StepWeight := r_StepWeight r;
     r_DBRollbackCmd := r_DBRollbackCmd r; r_DBRollbackTimeout := r_DBRollbackTimeout r;
     r_DBMigrateCmd := r_DBMigrateCmd r; r_DBMigrateTimeout := r_DBMigrateTimeout r;
     r_DBMigrateWhen := r_DBMigrateWhen r; r_DBBackwardCompatible := r_DBBackwardCompatible r;
     r_DeliveryTraffic := r_DeliveryTraffic r; r_DeliveryFlag := r_DeliveryFlag r;
     r_Analysis := r_Analysis r; r_RollbackBlocked := r_RollbackBlocked r;
     r_SmokeTest := r_SmokeTest r; r_StepperSnap := r_StepperSnap r; r_CreatedAt := v;
     r_UpdatedAt := r_UpdatedAt r |}.

Definition set_UpdatedAt (v : Time) (r : Rollout) : Rollout :=
  {| r_ID := r_ID r; r_TargetRef := r_TargetRef r; r_Phase := r_Phase r;
     r_Strategy := r_Strategy r; r_Desired := r_Desired r; r_RiskScore := r_RiskScore r;
     r_Initiator := r_Initiator r; r_Note := r_Note r; r_StepIndex := r_StepIndex r;
     r_StepTotal := r_StepTotal r; r_StepWeight := r_StepWeight r;
     r_DBRollbackCmd := r_DBRollbackCmd r; r_DBRollbackTimeout := r_DBRollbackTimeout r;
     r_DBMigrateCmd := r_DBMigrateCmd r; r_DBMigrateTimeout := r_DBMigrateTimeout r;
     r_DBMigrateWhen := r_DBMigrateWhen r; r_DBBackwardCompatible := r_DBBackwardCompatible r;
     r_DeliveryTraffic := r_DeliveryTraffic r; r_DeliveryFlag := r_DeliveryFlag r;
     r_Analysis := r_Analysis r; r_RollbackBlocked := r_RollbackBlocked r;
     r_SmokeTest := r_SmokeTest r; r_StepperSnap := r_StepperSnap r;
     r_CreatedAt := r_CreatedAt r; r_UpdatedAt := v |}.

Definition set_Root (v : string) (m : Manifest) : Manifest :=
  {| m_Kind := m_Kind m; m_Spec := m_Spec m; m_Labels := m_Labels m;
     m_Checksum := m_Checksum m; m_Root := v; m_Rendered := m_Rendered m |}.

Definition set_sr_ID (v : string) (s : ScheduledRollout) : ScheduledRollout :=
  {| sr_ID := v; sr_TargetRef := sr_TargetRef s; sr_DueAt := sr_DueAt s; sr_Desired := sr_Desired s;
     sr_Initiator := sr_Initiator s |}.
