(* ===== verification/Lifecycle.v ===== *)
(** * The rollout lifecycle

    The statechart of [internal/rollout/lifecycle.go]: the machine description
    [buildMachine] hands to statekit, [NewLifecycle]/[ResumeLifecycle], and
    [Send], which rejects an event that moves nothing.  The theorems hold for
    every interpreter that satisfies the laws of [Statekit]. *)

From S2P Require Import Prelude Statekit Model.

Record LifeContext := { PlanProduced : bool; NeedsApproval : bool }.

Definition EventValidate : string := "VALIDATE".
Definition EventGate : string := "GATE".
Definition EventApprove : string := "APPROVE".
Definition EventReject : string := "REJECT".
Definition EventDeployed : string := "DEPLOYED".
Definition EventVerifyOK : string := "VERIFY_OK".
Definition EventRollback : string := "ROLLBACK".
Definition EventError : string := "ERROR".
Definition EventPause : string := "PAUSE".
Definition EventResume : string := "RESUME".
Definition EventPromote : string := "PROMOTE".

Definition guardReadyToDeploy : string := "readyToDeploy".
Definition guardNeedsApproval : string := "needsApproval".
Definition guardCanDeploy : string := "canDeploy".

Definition on (ev : string) (p : Phase) : string * Transition Phase := (ev, MkTransition p None).
Definition on_if (ev : string) (p : Phase) (g : string) : string * Transition Phase :=
  (ev, MkTransition p (Some g)).
Definition phase_state (ts : list (string * Transition Phase)) (final : bool) : StateConfig Phase :=
  MkState None [] [] ts final.

Definition buildMachine (initial : Phase) : MachineConfig Phase LifeContext unit :=
  MkMachine initial
    [(guardReadyToDeploy, λ c, negb (NeedsApproval c) && PlanProduced c);
     (guardNeedsApproval, NeedsApproval);
     (guardCanDeploy, PlanProduced)]
    []
    [(PhasePending, phase_state [on EventValidate PhaseValidating] false);
     (PhaseValidating, phase_state
        [on_if EventGate PhaseDeploying guardReadyToDeploy;
         on_if EventGate PhaseAwaitingApproval guardNeedsApproval;
         on EventError PhaseRolledBack] false);
     (PhaseAwaitingApproval, phase_state
        [on_if EventApprove PhaseDeploying guardCanDeploy;
         on EventReject PhaseRolledBack;
         on EventRollback PhaseRolledBack] false);
     (PhaseDeploying, phase_state
        [on EventDeployed PhaseVerifying;
         on EventPause PhasePaused;
         on EventPromote PhaseVerifying;
         on EventError PhaseRolledBack;
         on EventRollback PhaseRolledBack] false);
     (PhasePaused, phase_state
        [on EventResume PhaseDeploying;
         on EventPromote PhaseVerifying;
         on EventRollback PhaseRolledBack] false);
     (PhaseVerifying, phase_state
        [on EventVerifyOK PhasePromoted;
         on EventRollback PhaseRolledBack] false);
     (PhasePromoted, phase_state [on EventRollback PhaseRolledBack] false);
     (PhaseRolledBack, phase_state [] true)].

Record Lifecycle := { lc_machine : MachineConfig Phase LifeContext unit; lc_phase : Phase; lc_ctx : LifeContext }.

(** Source events of the chart, for the specification. *)
Definition events : list string :=
  [EventValidate; EventGate; EventApprove; EventReject; EventDeployed; EventVerifyOK;
   EventRollback; EventError; EventPause; EventResume; EventPromote].

Section Operations.
Context `{!Statechart Phase LifeContext unit}.

Definition resumeLifecycle (at_ : Phase) (ctx : LifeContext) : Lifecycle :=
  let m := buildMachine at_ in
  let '(s, c, _) := sc_start m ctx tt in
  {| lc_machine := m; lc_phase := s; lc_ctx := c |}.

Definition NewLifecycle (ctx : LifeContext) : Lifecycle := resumeLifecycle PhasePending ctx.
Definition ResumeLifecycle (at_ : Phase) (ctx : LifeContext) : Lifecycle := resumeLifecycle at_ ctx.

(** [Send]: fire an event; an event that leaves the phase unchanged is an
    error naming the event and the phase. *)
Definition Send (l : Lifecycle) (event : string) : Lifecycle * (Phase * option err) :=
  let before := lc_phase l in
  let '(s, c, _) := sc_send (lc_machine l) (lc_phase l) (lc_ctx l) event tt in
  let l' := {| lc_machine := lc_machine l; lc_phase := s; lc_ctx := c |} in
  let after := lc_phase l' in
  (l', (after,
    if before == after then
      Some (Errorf ("rollout: illegal transition: event " +:+ quote event +:+
                    " rejected in phase " +:+ quote (phase_str before)))
    else None)).

(** A sequence of events, rejected ones included. *)
Definition run_events (l : Lifecycle) (evs : list string) : Lifecycle :=
  foldl (λ l ev, fst (Send l ev)) l evs.
End Operations.

(** ** The specification: which event moves which phase where *)
Definition lc_next (p : Phase) (c : LifeContext) (ev : string) : option Phase :=
  match p with
  | PhasePending => if ev == EventValidate then Some PhaseValidating else None
  | PhaseValidating =>
      if ev == EventGate then
        if NeedsApproval c then Some PhaseAwaitingApproval
        else if PlanProduced c then Some PhaseDeploying else None
      else if ev == EventError then Some PhaseRolledBack else None
  | PhaseAwaitingApproval =>
      if ev == EventApprove then (if PlanProduced c then Some PhaseDeploying else None)
      else if ev == EventReject || ev == EventRollback then Some PhaseRolledBack else None
  | PhaseDeploying =>
      if ev == EventDeployed || ev == EventPromote then Some PhaseVerifying
      else if ev == EventPause then Some PhasePaused
      else if ev == EventError || ev == EventRollback then Some PhaseRolledBack else None
  | PhasePaused =>
      if ev == EventResume then Some PhaseDeploying
      else if ev == EventPromote then Some PhaseVerifying
      else if ev == EventRollback then Some PhaseRolledBack else None
  | PhaseVerifying =>
      if ev == EventVerifyOK then Some PhasePromoted
      else if ev == EventRollback then Some PhaseRolledBack else None
  | PhasePromoted => if ev == EventRollback then Some PhaseRolledBack else None
  | PhaseRolledBack => None
  end.

(** One legal move of a phase, and any number of them; [approvals] says whether
    an approval may be among them. *)
Definition move (approvals : bool) (p q : Phase) : Prop :=
  ∃ c ev, (approvals = true ∨ ev ≠ EventApprove) ∧ lc_next p c ev = Some q.
Definition moves (approvals : bool) : Phase → Phase → Prop := rtc (move approvals).

(** The step relation of a lifecycle under a fixed context. *)
Inductive lc_step (c : LifeContext) : Phase → string → Phase → Prop :=
| lc_step_fire p ev q : lc_next p c ev = Some q → lc_step c p ev q
| lc_step_reject p ev : lc_next p c ev = None → lc_step c p ev p.

Inductive lc_trace (c : LifeContext) : Phase → list string → Phase → Prop :=
| lc_trace_nil p : lc_trace c p [] p
| lc_trace_cons p ev q evs r : lc_step c p ev q → lc_trace c q evs r → lc_trace c p (ev :: evs) r.

Lemma lc_next_ne p c ev q : lc_next p c ev = Some q → p ≠ q.
Proof.
  destruct p; simpl; intros H <-; repeat case_match; congruence.
Qed.

Lemma lc_next_event q c ev x : lc_next q c ev = Some x → ev ∈ events.
Proof.
  destruct q; simpl; intros H; repeat case_match; simplify_eq; split_bool; subst; by_decision.
Qed.

Section Facts.
Context `{!Statechart Phase LifeContext unit, !StatechartLaws Phase LifeContext unit}.

(** A lifecycle built by the two constructors. *)
Definition built (l : Lifecycle) : Prop := ∃ p, lc_machine l = buildMachine p.

Lemma entered_phase p q c out :
  entered (buildMachine p) q c tt out → out = (q, c, tt).
Proof. unfold entered. by destruct q. Qed.

Lemma resume_phase p c :
  lc_phase (ResumeLifecycle p c) = p ∧ lc_ctx (ResumeLifecycle p c) = c ∧
  built (ResumeLifecycle p c).
Proof.
  unfold ResumeLifecycle, resumeLifecycle.
  pose proof (start_spec (buildMachine p) c tt) as H.
  apply entered_phase in H. rewrite H. simpl. unfold built. eauto.
Qed.

Lemma event_target_phase p q c ev :
  event_target (buildMachine p) q c ev = lc_next q c ev.
Proof.
  destruct (decide (ev ∈ events)) as [Hin|Hout].
  - unfold events in Hin. rewrite !elem_of_cons in Hin.
    destruct_or! Hin; subst; try (by apply not_elem_of_nil in Hin);
      destruct q, c as [[] []]; reflexivity.
  - transitivity (@None Phase).
    + unfold event_target. rewrite filter_none; [done|].
      assert (Forall (λ t, t.1 ∈ events) (st_on (state_of (buildMachine p) q))) as Hall
        by (destruct q; repeat constructor; by_decision).
      eapply Forall_impl; [exact Hall|]. by intros t Ht <-.
    + destruct (lc_next q c ev) eqn:E; [|done]. by apply lc_next_event in E.
Qed.

(** [Send] is the specification: it moves to the phase [lc_next] names and
    reports no error, or rejects the event and stays. *)
Lemma Send_spec l ev :
  built l →
  Send l ev =
    match lc_next (lc_phase l) (lc_ctx l) ev with
    | Some q => ({| lc_machine := lc_machine l; lc_phase := q; lc_ctx := lc_ctx l |}, (q, None))
    | None => (l, (lc_phase l,
        Some (Errorf ("rollout: illegal transition: event " +:+ quote ev +:+
                      " rejected in phase " +:+ quote (phase_str (lc_phase l))))))
    end.
Proof.
  intros [p Hm]. unfold Send. rewrite Hm.
  pose proof (send_spec (buildMachine p) (lc_phase l) (lc_ctx l) ev tt) as H.
  rewrite event_target_phase in H.
  destruct (lc_next (lc_phase l) (lc_ctx l) ev) as [q|] eqn:E.
  - apply entered_phase in H. rewrite H. simpl.
    rewrite bool_decide_eq_false_2; [done|by eapply lc_next_ne].
  - rewrite H. simpl. rewrite bool_decide_eq_true_2 by done.
    destruct l; simpl in *. by subst.
Qed.

Lemma Send_built l ev : built l → built (Send l ev).1.
Proof. intros Hb. rewrite Send_spec by done. case_match; [|done]. by destruct Hb as [p' ?]; exists p'. Qed.

Lemma Send_ctx l ev : built l → lc_ctx (Send l ev).1 = lc_ctx l.
Proof. intros Hb. rewrite Send_spec by done. by case_match. Qed.

Lemma Send_ok l ev q :
  built l → (Send l ev).2 = (q, None) → lc_next (lc_phase l) (lc_ctx l) ev = Some q ∧ lc_phase (Send l ev).1 = q.
Proof. intros Hb. rewrite Send_spec by done. case_match; simpl; naive_solver. Qed.

(** Every run of events is a trace of the specification. *)
Lemma run_events_trace l evs :
  built l → lc_trace (lc_ctx l) (lc_phase l) evs (lc_phase (run_events l evs)).
Proof.
  revert l. induction evs as [|ev evs IH]; intros l Hb; simpl; [constructor|].
  pose proof (IH _ (Send_built l ev Hb)) as H. rewrite Send_ctx in H by done.
  econstructor; [|exact H]. rewrite Send_spec by done.
  destruct (lc_next _ _ _) eqn:E; by constructor.
Qed.
End Facts.

(** ** Safety of the chart *)

(** Phases in which the target has not been touched. *)
Definition untouched (p : Phase) : bool :=
  match p with
  | PhasePending | PhaseValidating | PhaseAwaitingApproval | PhaseRolledBack => true
  | _ => false
  end.

Lemma untouched_step c p ev q :
  PlanProduced c = false ∨ (NeedsApproval c = true ∧ ev ≠ EventApprove) →
  lc_step c p ev q → untouched p = true → untouched q = true.
Proof.
  intros Hc Hs. destruct Hs as [p ev q Hn|]; [|done].
  destruct p; simpl in *; try done; repeat case_match; simplify_eq; split_bool;
    intros; simpl; try done; destruct Hc as [?|[? ?]]; congruence.
Qed.

Lemma untouched_trace c p evs q :
  PlanProduced c = false ∨ (NeedsApproval c = true ∧ EventApprove ∉ evs) →
  lc_trace c p evs q → untouched p = true → untouched q = true.
Proof.
  intros Hc Ht. induction Ht as [|p ev q evs r Hs Ht IH]; [done|].
  intros Hp. apply IH.
  - destruct Hc as [?|[? Hn]]; [by left|right; set_solver].
  - eapply untouched_step; [|exact Hs|done]. destruct Hc as [?|[? Hn]]; [by left|right; set_solver].
Qed.

Lemma rolled_back_final c p evs q :
  lc_trace c p evs q → p = PhaseRolledBack → q = PhaseRolledBack.
Proof.
  induction 1 as [|p ev q evs r Hs Ht IH]; intros ->; [done|].
  apply IH. by inversion Hs; simplify_eq/=.
Qed.

Lemma moves_next a p c ev q : a = true ∨ ev ≠ EventApprove → lc_next p c ev = Some q → moves a p q.
Proof. intros Ha H. apply rtc_once. by exists c, ev. Qed.

Lemma moves_rolled_back a p : moves a p PhaseRolledBack.
Proof.
  pose (c := {| PlanProduced := true; NeedsApproval := false |}).
  assert (∀ q, lc_next q c EventRollback = Some PhaseRolledBack → moves a q PhaseRolledBack) as Hr
    by (intros q; by apply moves_next; right).
  assert (∀ q, lc_next q c EventError = Some PhaseRolledBack → moves a q PhaseRolledBack) as He
    by (intros q; by apply moves_next; right).
  destruct p; first [by apply Hr|by apply He|constructor|idtac].
  transitivity PhaseValidating; [by apply (moves_next _ _ c EventValidate); [right|]|by apply He].
Qed.

(** Nothing leaves rolled-back, and only an approval lets a gated rollout
    deploy. *)
Lemma moves_final a q : moves a PhaseRolledBack q → q = PhaseRolledBack.
Proof. intros H. by inversion H as [|? y ? (c & ev & _ & Hn)]. Qed.

Lemma moves_awaiting q : moves false PhaseAwaitingApproval q → q = PhaseAwaitingApproval ∨ q = PhaseRolledBack.
Proof.
  intros H. inversion H as [|? y ? (c & ev & [|Hev] & Hn) Hstar]; [by left|done|]. subst. right.
  simpl in Hn. rewrite bool_decide_eq_false_2 in Hn by done. repeat case_match; simplify_eq.
  by eapply moves_final.
Qed.
#[export] Hint Resolve moves_rolled_back : rollops.
#[export] Hint Extern 1 (moves _ _ _) => apply rtc_refl : rollops.

Section RunFacts.
Context `{!Statechart Phase LifeContext unit, !StatechartLaws Phase LifeContext unit}.

Lemma run_events_built l evs : built l → built (run_events l evs) ∧ lc_ctx (run_events l evs) = lc_ctx l.
Proof.
  revert l. induction evs as [|ev evs IH]; intros l Hb; simpl; [done|].
  destruct (IH _ (Send_built l ev Hb)) as [H1 H2]. by rewrite H2, Send_ctx.
Qed.
End RunFacts.

(** ** Properties *)

(** C8. [Send] implements the chart exactly, after any history of events and
    with any statekit interpreter: in each phase it accepts the events the
    specification [lc_next] lists, under their guards, moving to the phase it
    names with no error, and rejects every other event with an error naming
    the event and the phase, leaving the rollout where it was. *)
Theorem Send_implements_chart `{!Statechart Phase LifeContext unit, !StatechartLaws Phase LifeContext unit}
    p c evs ev :
  let l := run_events (ResumeLifecycle p c) evs in
  match lc_next (lc_phase l) c ev with
  | Some q => (Send l ev).2 = (q, None) ∧ lc_phase (Send l ev).1 = q
  | None => Send l ev = (l, (lc_phase l,
      Some (Errorf ("rollout: illegal transition: event " +:+ quote ev +:+
                    " rejected in phase " +:+ quote (phase_str (lc_phase l))))))
  end.
Proof.
  intros l. destruct (resume_phase p c) as (_ & Hc & Hb).
  destruct (run_events_built _ evs Hb) as [Hb' Hc']. fold l in Hb', Hc'.
  rewrite (Send_spec l ev Hb'), Hc', Hc. by case_match.
Qed.

Lemma Send_implements_chart_witness :
  let _ := ref_statechart Phase LifeContext unit true in
  let c := {| PlanProduced := true; NeedsApproval := true |} in
  let l := run_events (ResumeLifecycle PhasePending c) [EventValidate; EventGate] in
  lc_phase l = PhaseAwaitingApproval ∧ (Send l EventApprove).2 = (PhaseDeploying, None).
Proof.
  intros I c l. split; [reflexivity|].
  exact (proj1 (@Send_implements_chart I (ref_laws _ _ _ true) PhasePending c [EventValidate; EventGate] EventApprove)).
Defined.

(** No rollout touches its target without a plan, nor without an approval
    when the gate asked for one: from [pending], whatever events arrive in
    whatever order, the phase stays among pending, validating,
    awaiting-approval and rolled-back as long as no plan was produced, or the
    rollout needs approval and no APPROVE has been sent. *)
Theorem no_deploy_without_plan_or_approval
    `{!Statechart Phase LifeContext unit, !StatechartLaws Phase LifeContext unit} c evs :
  PlanProduced c = false ∨ (NeedsApproval c = true ∧ EventApprove ∉ evs) →
  untouched (lc_phase (run_events (NewLifecycle c) evs)) = true.
Proof.
  intros Hc. destruct (resume_phase PhasePending c) as (Hp & Hx & Hb).
  change (NewLifecycle c) with (ResumeLifecycle PhasePending c).
  pose proof (run_events_trace _ evs Hb) as Ht. rewrite Hp, Hx in Ht.
  by eapply untouched_trace.
Qed.

Lemma no_deploy_without_plan_or_approval_witness :
  let _ := ref_statechart Phase LifeContext unit false in
  let c := {| PlanProduced := true; NeedsApproval := true |} in
  untouched (lc_phase (run_events (NewLifecycle c) [EventValidate; EventGate; EventPromote; EventReject])) = true.
Proof.
  intros I c.
  apply (@no_deploy_without_plan_or_approval I (ref_laws _ _ _ false)).
  right. split; [reflexivity|by_decision].
Defined.
