(* ===== verification/Depgraph.v ===== *)
(** * The dependency graph

    [internal/depgraph/depgraph.go]: the deployment DAG, its topological layers
    (the deploy order) and the blast radius (how many services transitively
    depend on a target).  Go iterates maps in an unspecified order; every result
    here is either sorted or a cardinality, and the theorems show it does not
    depend on the order the model happens to use. *)

From S2P Require Import Prelude Model.

Record Graph := {
  nodes : gset string;
  dependents : gmap string (gset string);
  prereqs : gmap string (gset string);
}.

Definition succs (g : Graph) (n : string) : gset string := default ∅ (dependents g !! n).
Definition preds (g : Graph) (n : string) : gset string := default ∅ (prereqs g !! n).

Definition addNode (g : Graph) (n : string) : Graph :=
  if bool_decide (n ∈ nodes g) then g
  else {| nodes := {[n]} ∪ nodes g;
          dependents := <[n := ∅]> (dependents g);
          prereqs := <[n := ∅]> (prereqs g) |}.

Definition addDep (g : Graph) (d : Dependency) : Graph :=
  let g := addNode (addNode g (dep_From d)) (dep_To d) in
  {| nodes := nodes g;
     dependents := <[dep_From d := {[dep_To d]} ∪ succs g (dep_From d)]> (dependents g);
     prereqs := <[dep_To d := {[dep_From d]} ∪ preds g (dep_To d)]> (prereqs g) |}.

Definition New (ns : list string) (deps : list Dependency) : Graph :=
  foldl addDep (foldl addNode {| nodes := ∅; dependents := ∅; prereqs := ∅ |} ns) deps.

(** ** Layers *)
Definition indeg_of (indeg : gmap string Z) (n : string) : Z := default 0 (indeg !! n).

Definition init_indeg (g : Graph) : gmap string Z :=
  set_to_map (λ n, (n, Z.of_nat (size (preds g n)))) (nodes g).

(** [for dep := range g.dependents[n] { indeg[dep]-- }] *)
Definition dec_all (deps : gset string) (indeg : gmap string Z) : gmap string Z :=
  set_fold (λ dep m, <[dep := indeg_of m dep - 1]> m) indeg deps.

(** The body of the loop over one layer: mark consumed, release dependents. *)
Definition consume (g : Graph) (indeg : gmap string Z) (n : string) : gmap string Z :=
  dec_all (succs g n) (<[n := -1]> indeg).

Definition ready (g : Graph) (indeg : gmap string Z) : list string :=
  sort_strings (filter (λ n, indeg_of indeg n = 0) (elements (nodes g))).

Fixpoint layers_loop (fuel : nat) (g : Graph) (indeg : gmap string Z) (remaining : Z)
    : result (list (list string)) :=
  if remaining <=? 0 then Ok [] else
  match fuel with
  | O => Err (Errorf "fuel")
  | S fuel =>
      let layer := ready g indeg in
      if (length layer =? 0)%nat then
        Err (Errorf ("depgraph: cycle detected among " +:+ pretty remaining +:+ " unresolved nodes"))
      else
        try rest <- layers_loop fuel g (foldl (consume g) indeg layer)
                      (remaining - Z.of_nat (length layer));
        Ok (layer :: rest)
  end.

Definition Layers (g : Graph) : result (list (list string)) :=
  layers_loop (S (size (nodes g))) g (init_indeg g) (Z.of_nat (size (nodes g))).

Definition HasCycle (g : Graph) : bool := negb (is_ok (Layers g)).

(** ** Blast radius *)
Fixpoint walk (fuel : nat) (g : Graph) (n : string) (seen : gset string) : gset string :=
  match fuel with
  | O => seen
  | S fuel =>
      set_fold (λ dep seen,
        if bool_decide (dep ∈ seen) then seen else walk fuel g dep ({[dep]} ∪ seen))
        seen (succs g n)
  end.

Definition BlastRadius (g : Graph) (ref : string) : nat :=
  size (walk (S (size (nodes g))) g ref ∅).

(** ** The relation the graph stands for *)
Definition edge (g : Graph) (a b : string) : Prop := b ∈ succs g a.

(** Well-formed graphs: both adjacency maps hold the same edges, between
    declared nodes. *)
Record wf (g : Graph) : Prop := {
  wf_sym : ∀ a b, b ∈ succs g a ↔ a ∈ preds g b;
  wf_nodes : ∀ a b, b ∈ succs g a → a ∈ nodes g ∧ b ∈ nodes g;
}.

Definition deps_edge (deps : list Dependency) (a b : string) : Prop :=
  ∃ d, d ∈ deps ∧ dep_From d = a ∧ dep_To d = b.

Example diamond :
  let g := New ["api"] [ {| dep_From := "db"; dep_To := "api" |};
                         {| dep_From := "db"; dep_To := "web" |};
                         {| dep_From := "api"; dep_To := "edge" |};
                         {| dep_From := "web"; dep_To := "edge" |} ] in
  Layers g = Ok [["db"]; ["api"; "web"]; ["edge"]] ∧ BlastRadius g "db" = 3%nat.
Proof. vm_compute. done. Qed.

(** ** Construction *)
Lemma addNode_edges g n a :
  wf g → succs (addNode g n) a = succs g a ∧ preds (addNode g n) a = preds g a.
Proof.
  intros [Hs Hn]. unfold addNode. case_bool_decide as Hin; [done|].
  unfold succs, preds in *; simpl.
  destruct (decide (n = a)) as [<-|Hne]; [|by rewrite !lookup_insert_ne].
  rewrite !lookup_insert_eq; simpl. split; symmetry; apply elem_of_equiv_empty_L; intros x Hx.
  - by destruct (Hn _ _ Hx).
  - apply Hs in Hx. by destruct (Hn _ _ Hx).
Qed.

Lemma addNode_nodes g n : nodes (addNode g n) = {[n]} ∪ nodes g.
Proof. unfold addNode. case_bool_decide; simpl; [set_solver|done]. Qed.

Lemma addNode_wf g n : wf g → wf (addNode g n).
Proof.
  intros Hwf. pose proof (λ a, addNode_edges g n a Hwf) as He. split.
  - intros a b. rewrite (proj1 (He a)), (proj2 (He b)). apply Hwf.
  - intros a b. rewrite (proj1 (He a)), addNode_nodes. intros H%(wf_nodes _ Hwf). clear He Hwf. set_solver.
Qed.

Lemma addDep_edge g d a b :
  wf g → b ∈ succs (addDep g d) a ↔ b ∈ succs g a ∨ (dep_From d = a ∧ dep_To d = b).
Proof.
  intros Hwf. set (g' := addNode (addNode g (dep_From d)) (dep_To d)).
  assert (∀ x, succs g' x = succs g x) as He.
  { intros x. unfold g'. rewrite (proj1 (addNode_edges _ _ _ (addNode_wf _ _ Hwf))).
    by apply addNode_edges. }
  unfold addDep. fold g'. rewrite <- (He a). unfold succs at 1; simpl.
  destruct (decide (dep_From d = a)) as [<-|Hne].
  - rewrite lookup_insert_eq; simpl. set_solver.
  - rewrite lookup_insert_ne by done. unfold succs. naive_solver.
Qed.

Lemma addDep_pred g d a b :
  wf g → a ∈ preds (addDep g d) b ↔ a ∈ preds g b ∨ (dep_From d = a ∧ dep_To d = b).
Proof.
  intros Hwf. set (g' := addNode (addNode g (dep_From d)) (dep_To d)).
  assert (∀ x, preds g' x = preds g x) as He.
  { intros x. unfold g'. rewrite (proj2 (addNode_edges _ _ _ (addNode_wf _ _ Hwf))).
    by apply addNode_edges. }
  unfold addDep. fold g'. rewrite <- (He b). unfold preds at 1; simpl.
  destruct (decide (dep_To d = b)) as [<-|Hne].
  - rewrite lookup_insert_eq; simpl. set_solver.
  - rewrite lookup_insert_ne by done. unfold preds. naive_solver.
Qed.

Lemma addDep_nodes g d : nodes (addDep g d) = {[dep_To d]} ∪ ({[dep_From d]} ∪ nodes g).
Proof. unfold addDep; simpl. by rewrite !addNode_nodes. Qed.

Lemma addDep_wf g d : wf g → wf (addDep g d).
Proof.
  intros Hwf. split; intros a b.
  - rewrite addDep_edge, addDep_pred by done. by rewrite (wf_sym _ Hwf).
  - rewrite addDep_edge, addDep_nodes by done.
    intros [H%(wf_nodes _ Hwf)|[<- <-]]; clear Hwf; set_solver.
Qed.

Lemma foldl_addNode_spec ns g :
  wf g →
  wf (foldl addNode g ns) ∧
  (∀ x, x ∈ nodes (foldl addNode g ns) ↔ x ∈ nodes g ∨ x ∈ ns) ∧
  (∀ a, succs (foldl addNode g ns) a = succs g a).
Proof.
  revert g. induction ns as [|n ns IH]; intros g Hwf; simpl; [set_solver|].
  destruct (IH _ (addNode_wf _ n Hwf)) as (Hw & Hn & Hs). split_and!; [done| |].
  - intros x. rewrite Hn, addNode_nodes. set_solver.
  - intros a. rewrite Hs. by apply addNode_edges.
Qed.

Lemma foldl_addDep_spec ds g :
  wf g →
  wf (foldl addDep g ds) ∧
  (∀ x, x ∈ nodes (foldl addDep g ds) ↔
        x ∈ nodes g ∨ ∃ d, d ∈ ds ∧ (dep_From d = x ∨ dep_To d = x)) ∧
  (∀ a b, edge (foldl addDep g ds) a b ↔ edge g a b ∨ deps_edge ds a b).
Proof.
  unfold deps_edge. revert g. induction ds as [|d ds IH]; intros g Hwf; simpl; [set_solver|].
  destruct (IH _ (addDep_wf _ d Hwf)) as (Hw & Hn & Hs). split_and!; [done| |].
  - intros x. rewrite Hn, addDep_nodes. set_solver.
  - intros a b. rewrite Hs. unfold edge. rewrite addDep_edge by done. set_solver.
Qed.

Lemma empty_wf : wf {| nodes := ∅; dependents := ∅; prereqs := ∅ |}.
Proof. split; unfold succs, preds; simpl; intros a b; rewrite !lookup_empty; set_solver. Qed.

Lemma New_spec ns ds :
  wf (New ns ds) ∧
  (∀ x, x ∈ nodes (New ns ds) ↔ x ∈ ns ∨ ∃ d, d ∈ ds ∧ (dep_From d = x ∨ dep_To d = x)) ∧
  (∀ a b, edge (New ns ds) a b ↔ deps_edge ds a b).
Proof.
  unfold New. destruct (foldl_addNode_spec ns _ empty_wf) as (Hw & Hn & Hs).
  destruct (foldl_addDep_spec ds _ Hw) as (Hw' & Hn' & Hs'). split_and!; [done| |].
  - intros x. rewrite Hn', Hn. set_solver.
  - intros a b. rewrite Hs'. unfold edge. rewrite Hs. unfold succs; simpl.
    rewrite lookup_empty; simpl. set_solver.
Qed.

(** ** The layer loop

    [D] is the set of consumed nodes: a consumed node is marked -1 and all its
    prerequisites were consumed before it; any other node's counter is the
    number of its prerequisites still open. *)
Record inv (g : Graph) (D : gset string) (indeg : gmap string Z) : Prop := {
  inv_done : ∀ n, n ∈ D → n ∈ nodes g ∧ indeg_of indeg n = -1 ∧ preds g n ⊆ D;
  inv_open : ∀ n, n ∈ nodes g → n ∉ D → indeg_of indeg n = Z.of_nat (size (preds g n ∖ D));
}.

Lemma dec_all_spec deps indeg x :
  indeg_of (dec_all deps indeg) x = indeg_of indeg x - (if bool_decide (x ∈ deps) then 1 else 0).
Proof.
  unfold dec_all. revert deps.
  apply (set_fold_ind_L (λ (r : gmap string Z) (X : gset string), indeg_of r x =
    indeg_of indeg x - (if bool_decide (x ∈ X) then 1 else 0))).
  - rewrite bool_decide_eq_false_2 by set_solver. lia.
  - intros d X r Hd IH. unfold indeg_of at 1. destruct (decide (d = x)) as [->|Hne].
    + rewrite lookup_insert_eq; simpl. rewrite IH, bool_decide_eq_false_2 by done.
      rewrite bool_decide_eq_true_2 by set_solver. lia.
    + rewrite lookup_insert_ne by done. fold (indeg_of r x). rewrite IH.
      rewrite (bool_decide_ext (x ∈ {[d]} ∪ X) (x ∈ X)); [done|set_solver].
Qed.

Lemma init_inv g : inv g ∅ (init_indeg g).
Proof.
  split; [set_solver|]. intros n Hn _. unfold indeg_of, init_indeg.
  erewrite (proj2 (lookup_set_to_map _ _ _ _ _)).
  - by rewrite difference_empty_L.
  - by exists n.
  Unshelve. intros y y' _ _. done.
Qed.

Lemma consume_inv g D indeg n :
  wf g → inv g D indeg → n ∈ nodes g → n ∉ D → preds g n ⊆ D →
  inv g ({[n]} ∪ D) (consume g indeg n).
Proof.
  intros Hwf [Hd Ho] Hn HnD Hp.
  assert (∀ x, indeg_of (consume g indeg n) x =
    (if bool_decide (n = x) then -1 else indeg_of indeg x)
    - (if bool_decide (x ∈ succs g n) then 1 else 0)) as Hc.
  { intros x. unfold consume. rewrite dec_all_spec. f_equal. unfold indeg_of.
    case_bool_decide as E; [subst; by rewrite lookup_insert_eq|by rewrite lookup_insert_ne]. }
  split; intros x Hx; rewrite Hc.
  - assert (x ∉ succs g n) as Hns.
    { rewrite (wf_sym _ Hwf). intros Hin. apply elem_of_union in Hx as [->%elem_of_singleton|Hx].
      - by apply Hp in Hin.
      - by apply (Hd x Hx) in Hin. }
    rewrite (bool_decide_eq_false_2 (x ∈ succs g n)) by done.
    apply elem_of_union in Hx as [->%elem_of_singleton|Hx].
    + rewrite bool_decide_eq_true_2 by done. split_and!; [done|done|set_solver].
    + destruct (Hd x Hx) as (? & Hi & ?). rewrite bool_decide_eq_false_2 by naive_solver.
      rewrite Hi. split_and!; [done|done|set_solver].
  - intros HxD. apply not_elem_of_union in HxD as [Hne HxD].
    rewrite (bool_decide_eq_false_2 (n = x)) by set_solver. rewrite (Ho x Hx HxD).
    case_bool_decide as Hs.
    + apply (wf_sym _ Hwf) in Hs.
      replace (preds g x ∖ D) with ({[n]} ∪ (preds g x ∖ ({[n]} ∪ D))).
      * rewrite size_union, size_singleton by set_solver. lia.
      * apply set_eq. intros y. destruct (decide (y = n)); set_solver.
    + rewrite (wf_sym _ Hwf) in Hs.
      replace (preds g x ∖ ({[n]} ∪ D)) with (preds g x ∖ D) by set_solver. lia.
Qed.

Lemma foldl_consume_inv g l D indeg :
  wf g → inv g D indeg → NoDup l →
  (∀ n, n ∈ l → n ∈ nodes g ∧ n ∉ D ∧ preds g n ⊆ D) →
  inv g (list_to_set l ∪ D) (foldl (consume g) indeg l).
Proof.
  intros Hwf. revert D indeg. induction l as [|n l IH]; intros D indeg Hi Hnd Hl; simpl.
  - by rewrite (left_id_L ∅ _).
  - apply NoDup_cons in Hnd as [Hn Hnd].
    destruct (Hl n) as (? & ? & ?); [set_solver|].
    replace ({[n]} ∪ list_to_set l ∪ D) with (list_to_set l ∪ ({[n]} ∪ D)) by set_solver.
    apply IH; [by apply consume_inv|done|].
    intros m Hm. destruct (Hl m) as (? & ? & ?); [set_solver|]. set_solver.
Qed.

Lemma ready_spec g D indeg n :
  inv g D indeg → n ∈ ready g indeg ↔ n ∈ nodes g ∧ n ∉ D ∧ preds g n ⊆ D.
Proof.
  intros [Hd Ho]. unfold ready.
  rewrite elem_of_sort_strings, list_elem_of_filter, elem_of_elements. split.
  - intros [Hz Hn]. destruct (decide (n ∈ D)) as [HD|HD].
    + destruct (Hd n HD) as (_ & Hm & _). lia.
    + rewrite Ho in Hz by done. split_and!; [done|done|].
      assert (size (preds g n ∖ D) = 0%nat) as Hs by lia. apply size_empty_inv in Hs. set_solver.
  - intros (Hn & HD & Hp). split; [|done]. rewrite Ho by done.
    replace (preds g n ∖ D) with (∅ : gset string) by set_solver. by rewrite size_empty.
Qed.

Lemma ready_NoDup g indeg : NoDup (ready g indeg).
Proof. unfold ready. rewrite sort_strings_perm. apply NoDup_filter, NoDup_elements. Qed.

(** What the loop promises: each layer is exactly the open nodes whose
    prerequisites are all in earlier layers, in sorted order. *)
Inductive layered (g : Graph) : gset string → list (list string) → Prop :=
| layered_nil D : nodes g ⊆ D → layered g D []
| layered_cons D l ls :
    (∀ n, n ∈ l ↔ n ∈ nodes g ∧ n ∉ D ∧ preds g n ⊆ D) → NoDup l → Sorted String.le l →
    layered g (list_to_set l ∪ D) ls → layered g D (l :: ls).

(** Open nodes that all wait for one another. *)
Definition stuck (g : Graph) (T : gset string) : Prop :=
  T ≠ ∅ ∧ ∀ n, n ∈ T → ∃ p, p ∈ preds g n ∧ p ∈ T.

Lemma not_subseteq_witness (X D : gset string) : ¬ X ⊆ D → ∃ p, p ∈ X ∧ p ∉ D.
Proof.
  intros H. destruct (set_choose_or_empty (X ∖ D)) as [[p Hp]|He]; [set_solver|].
  exfalso. apply H. intros x Hx. destruct (decide (x ∈ D)); [done|set_solver].
Qed.

Lemma layers_loop_spec fuel g D indeg :
  wf g → inv g D indeg → (size (nodes g ∖ D) < fuel)%nat →
  match layers_loop fuel g indeg (Z.of_nat (size (nodes g ∖ D))) with
  | Ok ls => layered g D ls
  | Err _ => ∃ T, T ⊆ nodes g ∧ stuck g T
  end.
Proof.
  intros Hwf. revert D indeg. induction fuel as [|fuel IH]; intros D indeg Hi Hf; [lia|].
  cbn [layers_loop]. destruct (Z.leb_spec (Z.of_nat (size (nodes g ∖ D))) 0) as [Hz|Hz].
  - constructor. assert (size (nodes g ∖ D) = 0%nat) as Hs by lia.
    apply size_empty_inv in Hs. set_solver.
  - pose proof (ready_spec g D indeg) as Hr. pose proof (ready_NoDup g indeg) as Hnd.
    destruct (Nat.eqb_spec (length (ready g indeg)) 0) as [Hl|Hl].
    + apply nil_length_inv in Hl. rewrite Hl in Hr. exists (nodes g ∖ D).
      split; [set_solver|]. split; [intros He; rewrite He, size_empty in Hz; lia|].
      intros n Hn. destruct (not_subseteq_witness (preds g n) D) as (p & Hp & HpD).
      { intros Hsub. apply (not_elem_of_nil n), Hr; set_solver. }
      exists p. split; [done|]. apply elem_of_difference. split; [|done].
      by apply (wf_sym _ Hwf), (wf_nodes _ Hwf) in Hp as [? _].
    + set (l := ready g indeg) in *.
      assert (size (nodes g ∖ D) = length l + size (nodes g ∖ (list_to_set l ∪ D)))%nat as Hsz.
      { rewrite <- (size_list_to_set (C:=gset string) l) by done. rewrite <- size_union by set_solver.
        f_equal. apply set_eq. intros x. rewrite elem_of_union, !elem_of_difference, elem_of_union, elem_of_list_to_set.
        rewrite (Hr x Hi). destruct (decide (x ∈ l)) as [H|H]; rewrite (Hr x Hi) in H; naive_solver. }
      replace (Z.of_nat (size (nodes g ∖ D)) - Z.of_nat (length l))
        with (Z.of_nat (size (nodes g ∖ (list_to_set l ∪ D)))) by lia.
      assert (inv g (list_to_set l ∪ D) (foldl (consume g) indeg l)) as Hi'
        by (apply foldl_consume_inv; [done..|]; intros m Hm; by apply Hr in Hm).
      specialize (IH _ _ Hi' ltac:(lia)). destruct (layers_loop fuel g _ _); [|done].
      constructor; [by intros n; apply Hr|done|apply sort_strings_sorted|done].
Qed.

Lemma Layers_spec g :
  wf g →
  match Layers g with
  | Ok ls => layered g ∅ ls
  | Err _ => ∃ T, T ⊆ nodes g ∧ stuck g T
  end.
Proof.
  intros Hwf. pose proof (layers_loop_spec (S (size (nodes g))) g ∅ _ Hwf (init_inv g)) as H.
  rewrite difference_empty_L in H. apply H. lia.
Qed.

(** ** Reading the layers *)
Lemma layered_nodes g D ls :
  layered g D ls → NoDup (concat ls) ∧ (∀ n, n ∈ concat ls ↔ n ∈ nodes g ∧ n ∉ D).
Proof.
  induction 1 as [D Hs|D l ls Hl Hnd _ _ [IHn IHe]]; simpl.
  - split; [constructor|]. set_solver.
  - split.
    + apply NoDup_app. split_and!; [done| |done]. intros n Hn Hn'. apply IHe in Hn'. set_solver.
    + intros n. rewrite elem_of_app, IHe, not_elem_of_union, elem_of_list_to_set.
      destruct (decide (n ∈ l)) as [H|H]; [apply Hl in H as H'; naive_solver|naive_solver].
Qed.

Lemma layered_order g D ls i l n p :
  layered g D ls → ls !! i = Some l → n ∈ l → p ∈ preds g n → p ∉ D →
  ∃ j l', (j < i)%nat ∧ ls !! j = Some l' ∧ p ∈ l'.
Proof.
  intros Hls. revert i. induction Hls as [D Hs|D l0 ls Hl Hnd _ _ IH]; intros i Hi Hn Hp HpD; [done|].
  destruct i as [|i]; simplify_eq/=.
  - apply Hl in Hn. set_solver.
  - destruct (decide (p ∈ l0)) as [H|H]; [exists O, l0; split_and!; [lia|done|done]|].
    destruct (IH i Hi Hn Hp) as (j & l' & ? & ? & ?); [set_solver|].
    exists (S j), l'. split_and!; [lia|done|done].
Qed.

Lemma layered_sorted g D ls : layered g D ls → Forall (Sorted String.le) ls.
Proof. induction 1; by constructor. Qed.

Lemma tc_nodes g a b : wf g → tc (edge g) a b → a ∈ nodes g ∧ b ∈ nodes g.
Proof. intros Hwf. induction 1 as [a b He|a b c He _ IH]; destruct (wf_nodes _ Hwf _ _ He); naive_solver. Qed.

Lemma layered_acyclic g ls n :
  wf g → layered g ∅ ls → ¬ tc (edge g) n n.
Proof.
  intros Hwf Hls Htc.
  assert (∀ a b, tc (edge g) a b → ∀ i l, ls !! i = Some l → b ∈ l →
    ∃ j l', (j < i)%nat ∧ ls !! j = Some l' ∧ a ∈ l') as Hback.
  { induction 1 as [a b He|a b c He _ IH]; intros i l Hi Hb.
    - apply (wf_sym _ Hwf) in He. eapply layered_order; eauto. set_solver.
    - destruct (IH _ _ Hi Hb) as (j & l' & ? & Hj & Hb').
      apply (wf_sym _ Hwf) in He. destruct (layered_order g ∅ ls j l' b a) as (k & l'' & ? & ? & ?);
        [done..|set_solver|]. exists k, l''. split_and!; [lia|done|done]. }
  assert (∀ i l, ls !! i = Some l → n ∉ l) as Hno.
  { intros i. induction (lt_wf i) as [i _ IH]. intros l Hi Hn.
    destruct (Hback _ _ Htc _ _ Hi Hn) as (j & l' & ? & Hj & ?). eapply (IH j); eauto. }
  assert (n ∈ concat ls) as Hin.
  { apply (layered_nodes _ _ _ Hls). split; [by eapply tc_nodes|set_solver]. }
  apply list_elem_of_In, in_concat in Hin as (l & Hl & Hn). apply list_elem_of_In in Hl, Hn.
  apply list_elem_of_lookup in Hl as [i Hi]. by eapply Hno.
Qed.

(** ** The depth-first walk *)
Definition grown (g : Graph) (n : string) (seen X out : gset string) : Prop :=
  seen ⊆ out ∧ X ⊆ out ∧ ∀ x, x ∈ out → x ∉ seen → tc (edge g) n x ∧ succs g x ⊆ out.

Lemma walk_spec fuel g n seen :
  wf g → (size (nodes g ∖ seen) < fuel)%nat →
  grown g n seen (succs g n) (walk fuel g n seen).
Proof.
  intros Hwf. revert n seen. induction fuel as [|fuel IH]; intros n seen Hf; [lia|].
  cbn [walk].
  assert (∀ X, X ⊆ succs g n → grown g n seen X (set_fold (λ dep seen,
    if bool_decide (dep ∈ seen) then seen else walk fuel g dep ({[dep]} ∪ seen)) seen X)) as H;
    [|by apply H].
  apply (set_fold_ind_L (λ out X, X ⊆ succs g n → grown g n seen X out)).
  - intros _. split_and!; set_solver.
  - intros d X out Hd Hg Hsub. destruct Hg as (H1 & H2 & H3); [set_solver|].
    case_bool_decide as Hin; [split_and!; set_solver|].
    assert (edge g n d) as He by (unfold edge; set_solver).
    destruct (wf_nodes _ Hwf _ _ He) as [_ Hdn].
    destruct (IH d ({[d]} ∪ out)) as (K1 & K2 & K3).
    { enough (size (nodes g ∖ ({[d]} ∪ out)) < size (nodes g ∖ seen))%nat by lia.
      apply subset_size. set_solver. }
    split_and!; [set_solver|set_solver|]. intros x Hx Hxs.
    destruct (decide (x = d)) as [->|Hne]; [split; [by apply tc_once|done]|].
    destruct (decide (x ∈ out)) as [Ho|Ho]; [destruct (H3 x Ho Hxs); set_solver|].
    destruct (K3 x Hx) as [Ht Hs]; [set_solver|]. split; [|done].
    eapply tc_l; [exact He|done].
Qed.

(** The set [BlastRadius] counts. *)
Definition downstream (g : Graph) (ref : string) : gset string :=
  walk (S (size (nodes g))) g ref ∅.

Lemma downstream_spec g ref x : wf g → x ∈ downstream g ref ↔ tc (edge g) ref x.
Proof.
  intros Hwf. destruct (walk_spec (S (size (nodes g))) g ref ∅ Hwf) as (_ & H2 & H3).
  { rewrite difference_empty_L. lia. }
  fold (downstream g ref) in *. split.
  - intros Hx. by destruct (H3 x Hx) as [? _]; [set_solver|].
  - intros Ht. revert x Ht. apply tc_ind_r; [intros y Hy; by apply H2|].
    intros y z _ Hyz Hy. destruct (H3 y Hy) as [_ Hs]; [set_solver|]. by apply Hs.
Qed.

Lemma tc_flip g a b : tc (flip (edge g)) a b → tc (edge g) b a.
Proof. induction 1; [by apply tc_once|by eapply tc_r]. Qed.

Lemma stuck_cyclic g T : wf g → T ⊆ nodes g → stuck g T → ∃ n, tc (edge g) n n.
Proof.
  intros Hwf HT [Hne Hs].
  destruct (decide (set_Exists (λ n, n ∈ downstream g n) (nodes g))) as [(n & _ & Hn)|Hno].
  { exists n. by apply downstream_spec. }
  exfalso. assert (Irreflexive (tc (flip (edge g)))) as Hirr.
  { intros n Hn%tc_flip. apply Hno. exists n.
    split; [by apply (tc_nodes _ _ _ Hwf Hn)|by apply downstream_spec]. }
  apply set_choose_L in Hne as [x Hx].
  assert (sn (flip (edge g)) x) as Hsn.
  { apply tc_finite_sn; [done|]. exists (elements (nodes g)). intros y Hy.
    apply elem_of_elements. apply tc_flip in Hy. by apply (tc_nodes _ _ _ Hwf Hy). }
  clear Hno. induction Hsn as [x _ IH]. destruct (Hs x Hx) as (p & Hp & HpT).
  apply (IH p); [by apply (wf_sym _ Hwf)|done].
Qed.

Lemma HasCycle_spec g : wf g → HasCycle g = true ↔ ∃ n, tc (edge g) n n.
Proof.
  intros Hwf. unfold HasCycle. pose proof (Layers_spec g Hwf) as H.
  destruct (Layers g) as [ls|e]; simpl; split; try done.
  - intros [n Hn]. by eapply layered_acyclic in Hn.
  - intros _. destruct H as (T & HT & Hs). by eapply stuck_cyclic.
Qed.

Lemma deps_edge_tc ns ds a b : tc (edge (New ns ds)) a b ↔ tc (deps_edge ds) a b.
Proof.
  destruct (New_spec ns ds) as (_ & _ & He).
  split; apply (tc_congruence id); intros x y; apply He.
Qed.

(** ** Properties *)

(** When [Layers] succeeds on a graph built from node names and
    dependencies, the layers together hold every declared node and every
    dependency endpoint exactly once, each layer is in sorted order, and every
    dependency's [From] is in an earlier layer than its [To]: deploying layer by
    layer never deploys a service before its prerequisites. *)
Theorem Layers_topological ns ds ls :
  Layers (New ns ds) = Ok ls →
  NoDup (concat ls) ∧
  (∀ n, n ∈ concat ls ↔ n ∈ ns ∨ ∃ d, d ∈ ds ∧ (dep_From d = n ∨ dep_To d = n)) ∧
  Forall (Sorted String.le) ls ∧
  (∀ d i l, d ∈ ds → ls !! i = Some l → dep_To d ∈ l →
     ∃ j l', (j < i)%nat ∧ ls !! j = Some l' ∧ dep_From d ∈ l').
Proof.
  intros Hls. destruct (New_spec ns ds) as (Hwf & Hn & He).
  pose proof (Layers_spec _ Hwf) as H. rewrite Hls in H.
  destruct (layered_nodes _ _ _ H) as [Hnd Hc]. split_and!; [done| |by eapply layered_sorted|].
  - intros n. rewrite Hc, Hn. set_solver.
  - intros d i l Hd Hi Hl. eapply layered_order; [done..| |set_solver].
    apply (wf_sym _ Hwf), He. by exists d.
Qed.

Lemma Layers_topological_witness :
  let ds := [ {| dep_From := "db"; dep_To := "api" |}; {| dep_From := "db"; dep_To := "web" |};
              {| dep_From := "api"; dep_To := "edge" |} ] in
  NoDup (concat [["db"]; ["api"; "web"]; ["edge"]]) ∧
  ∃ j l', (j < 2)%nat ∧ [["db"]; ["api"; "web"]; ["edge"]] !! j = Some l' ∧ "api" ∈ l'.
Proof.
  intros ds.
  destruct (Layers_topological [] ds [["db"]; ["api"; "web"]; ["edge"]]) as (H1 & _ & _ & H4);
    [vm_compute; reflexivity|].
  split; [exact H1|].
  apply (H4 {| dep_From := "api"; dep_To := "edge" |} 2%nat ["edge"]); [by repeat constructor|done|by_decision].
Defined.

(** [HasCycle] answers exactly whether the dependencies contain a cycle:
    the layer loop always finishes, and fails only on a real cycle. *)
Theorem HasCycle_iff_cycle ns ds :
  HasCycle (New ns ds) = true ↔ ∃ n, tc (deps_edge ds) n n.
Proof.
  destruct (New_spec ns ds) as (Hwf & _ & _). rewrite HasCycle_spec by done.
  split; intros [n Hn]; exists n; by apply (deps_edge_tc ns).
Qed.

(** [BlastRadius] is the number of services that transitively depend on a
    target: the size of the set of its strict descendants, on cyclic graphs
    included. *)
Theorem BlastRadius_counts_dependents ns ds ref :
  ∃ X : gset string, BlastRadius (New ns ds) ref = size X ∧ ∀ x, x ∈ X ↔ tc (deps_edge ds) ref x.
Proof.
  destruct (New_spec ns ds) as (Hwf & _ & _).
  exists (downstream (New ns ds) ref). split; [done|].
  intros x. rewrite downstream_spec by done. apply deps_edge_tc.
Qed.
