(* ===== verification/Risk.v ===== *)
(** * The risk gate

    [internal/condition/condition.go] (the CEL surface) and
    [internal/risk/risk.go] (the blast-radius score and the gate).  A Go
    [float64] is a primitive binary64 float, with the operations in the order
    the source evaluates them (no fused multiply-add).  CEL itself is a
    third-party package: its compiler is the parameter [cel]. *)

From S2P Require Import Prelude Config.
From Stdlib Require Import Floats.

Open Scope Z_scope.

(** ** Conditions *)
Record Input := {
  in_Criticality : string;
  in_Environment : string;
  in_ChangeType : string;
  in_BlastRadius : Z;
  in_Strategy : string;
  in_Score : float;
  in_RecentFailures : Z;
  in_HistoryRisk : float;
}.

Definition activation (i : Input) : list (string * any) :=
  [("criticality", AString (in_Criticality i)); ("environment", AString (in_Environment i));
   ("changeType", AString (in_ChangeType i)); ("blastRadius", AInt (in_BlastRadius i));
   ("strategy", AString (in_Strategy i)); ("score", AFloat (in_Score i));
   ("recentFailures", AInt (in_RecentFailures i)); ("historyRisk", AFloat (in_HistoryRisk i))].

(** What [cel.Env.Compile] and [cel.Env.Program] give back for an expression. *)
Record celAst := {
  ast_OutputType : string;
  ast_Program : result (list (string * any) → result any);
}.

Definition BoolType : string := "bool".

Record Program := { src : string; prg : list (string * any) → result any }.

Section Condition.
Context (cel : string → result celAst).

Definition condition_err (expr : string) (what : string) : string :=
  "condition " +:+ quote expr +:+ ": " +:+ what.

Definition Compile (expr : string) : result Program :=
  match cel expr with
  | Err e => Err (Wrap (condition_err expr "") e "")
  | Ok ast =>
      if ast_OutputType ast != BoolType then
        Err (Errorf (condition_err expr ("must evaluate to bool, got " +:+ ast_OutputType ast)))
      else match ast_Program ast with
           | Err e => Err (Wrap (condition_err expr "build program: ") e "")
           | Ok p => Ok {| src := expr; prg := p |}
           end
  end.

Definition EvalBool (p : Program) (i : Input) : result bool :=
  match prg p (activation i) with
  | Err e => Err (Wrap (condition_err (src p) "eval: ") e "")
  | Ok (ABool b) => Ok b
  | Ok _ => Err (Errorf (condition_err (src p) "non-bool result"))
  end.

Definition Eval (expr : string) (i : Input) : result bool :=
  try p <- Compile expr; EvalBool p i.

Definition Check (expr : string) : option err :=
  match Compile expr with Ok _ => None | Err e => Some e end.
End Condition.

(** ** Numbers *)

(** [float64(n)] for an integer: correctly rounded. *)
Definition float64 (n : Z) : float := SF2Prim (binary_normalize FloatOps.prec FloatOps.emax n 0 false).

(** The verb [%.2f]: the exact value rounded to hundredths, ties to even. *)
Definition hundredths (m : positive) (e : Z) : Z :=
  if 0 <=? e then 100 * Z.pos m * 2 ^ e
  else let d := 2 ^ (- e) in
       let q := (100 * Z.pos m) / d in
       let r := (100 * Z.pos m) mod d in
       if (2 * r <? d) || ((2 * r =? d) && Z.even q) then q else q + 1.

Definition print_hundredths (h : Z) : string :=
  pretty (h / 100) +:+ "." +:+ pretty ((h / 10) mod 10) +:+ pretty (h mod 10).

Definition fmt_2f (f : float) : string :=
  match Prim2SF f with
  | S754_zero s => (if s then "-" else "") +:+ "0.00"
  | S754_infinity s => (if s then "-Inf" else "+Inf")
  | S754_nan => "NaN"
  | S754_finite s m e => (if s then "-" else "") +:+ print_hundredths (hundredths m e)
  end.

(** ** The score *)
Record Signals := {
  s_Criticality : string;
  s_Environment : string;
  s_ChangeType : string;
  s_BlastRadius : Z;
  s_Strategy : string;
  s_RecentFailures : Z;
}.

Record Weights := {
  w_Criticality : float;
  w_Environment : float;
  w_ChangeType : float;
  w_BlastRadius : float;
  w_Strategy : float;
  w_History : float;
  w_MaxBlastRadius : Z;
  w_MaxRecentFailures : Z;
}.

Open Scope float_scope.

Definition DefaultWeights : Weights := {|
  w_Criticality := 0.25; w_Environment := 0.20; w_ChangeType := 0.20; w_BlastRadius := 0.20;
  w_Strategy := 0.15; w_History := 0; w_MaxBlastRadius := 10%Z; w_MaxRecentFailures := 3%Z |}.

Definition criticalityScore (s : string) : float :=
  if s == "critical" then 1 else if s == "high" then 0.66 else if s == "medium" then 0.33 else 0.

Definition environmentScore (s : string) : float :=
  if s == "prod" || s == "production" then 1 else if s == "staging" then 0.5 else 0.

Definition changeTypeScore (s : string) : float :=
  if s == "schema" || s == "migration" then 1 else if s == "code" then 0.5 else 0.

Definition strategyScore (s : string) : float :=
  if s == "blue-green" then 1 else if s == "rolling" then 0.5 else 0.

Definition clamp01 (v : float) : float :=
  if v <? 0 then 0 else if 1 <? v then 1 else v.

Definition HistoryScore (recentFailures maxRecentFailures : Z) : float :=
  let max := if (maxRecentFailures <=? 0)%Z then 3%Z else maxRecentFailures in
  clamp01 (float64 recentFailures / float64 max).

(** The weighted sum over scored signals. *)
Definition weighted_score (w : Weights) (crit env change blast strat history : float) : float :=
  let total := w_Criticality w + w_Environment w + w_ChangeType w + w_BlastRadius w
               + w_Strategy w + w_History w in
  if total =? 0 then 0
  else
    let weighted := w_Criticality w * crit + w_Environment w * env + w_ChangeType w * change
                    + w_BlastRadius w * blast + w_Strategy w * strat + w_History w * history in
    clamp01 (weighted / total).

Definition Score (s : Signals) (w : Weights) : float :=
  let maxBlast := if (w_MaxBlastRadius w <=? 0)%Z then 10%Z else w_MaxBlastRadius w in
  let blast := clamp01 (float64 (s_BlastRadius s) / float64 maxBlast) in
  let history := HistoryScore (s_RecentFailures s) (w_MaxRecentFailures w) in
  weighted_score w (criticalityScore (s_Criticality s)) (environmentScore (s_Environment s))
    (changeTypeScore (s_ChangeType s)) blast (strategyScore (s_Strategy s)) history.

(** ** The gate *)
Record Decision := {
  d_Score : float;
  d_Threshold : float;
  d_NeedsApproval : bool;
  d_Sensitive : bool;
  d_RecentFailures : Z;
  d_Reason : string;
}.

Record Gate := {
  g_Threshold : float;
  g_Weights : Weights;
  g_SensitiveExpr : string;
}.

Definition zero_weights (w : Weights) : bool :=
  (w_Criticality w =? 0) && (w_Environment w =? 0) && (w_ChangeType w =? 0) &&
  (w_BlastRadius w =? 0) && (w_Strategy w =? 0) && (w_History w =? 0) &&
  (w_MaxBlastRadius w =? 0)%Z && (w_MaxRecentFailures w =? 0)%Z.

Definition effective_weights (g : Gate) : Weights :=
  if zero_weights (g_Weights g) then DefaultWeights else g_Weights g.

Definition gate_input (s : Signals) (score : float) (w : Weights) : Input := {|
  in_Criticality := s_Criticality s; in_Environment := s_Environment s;
  in_ChangeType := s_ChangeType s; in_BlastRadius := s_BlastRadius s; in_Strategy := s_Strategy s;
  in_Score := score; in_RecentFailures := s_RecentFailures s;
  in_HistoryRisk := HistoryScore (s_RecentFailures s) (w_MaxRecentFailures w) |}.

Definition Evaluate (cel : string → result celAst) (g : Gate) (s : Signals) : result Decision :=
  let w := effective_weights g in
  let score := Score s w in
  let sens := if g_SensitiveExpr g != "" then
                match Eval cel (g_SensitiveExpr g) (gate_input s score w) with
                | Err e => Err (Wrap "risk: sensitive expression: " e "")
                | Ok b => Ok b
                end
              else Ok false in
  try sensitive <- sens;
  let needs := sensitive || (g_Threshold g <=? score) in
  Ok {| d_Score := score; d_Threshold := g_Threshold g; d_NeedsApproval := needs;
        d_Sensitive := sensitive; d_RecentFailures := s_RecentFailures s;
        d_Reason :=
          if sensitive then "sensitive: flagged by policy (score " +:+ fmt_2f score +:+ ")"
          else if needs then "score " +:+ fmt_2f score +:+ " >= threshold " +:+ fmt_2f (g_Threshold g)
          else "score " +:+ fmt_2f score +:+ " < threshold " +:+ fmt_2f (g_Threshold g) +:+
               ": auto-proceed" |}.

Example score_prod_schema :
  fmt_2f (Score {| s_Criticality := "critical"; s_Environment := "prod"; s_ChangeType := "schema";
                   s_BlastRadius := 25; s_Strategy := "rolling"; s_RecentFailures := 0 |} DefaultWeights)
  = "0.93" ∧ fmt_2f 0.125 = "0.12" ∧ fmt_2f (-1.5) = "-1.50".
Proof. vm_compute. done. Qed.

(** ** Facts about the clamp *)
Lemma SFcompare_total x y : x ≠ S754_nan → y ≠ S754_nan → ∃ c, SFcompare x y = Some c.
Proof. intros Hx Hy. destruct x, y; simpl; repeat case_match; eauto; done. Qed.

Lemma SFcompare_flip x y : SFcompare y x = CompOpp <$> SFcompare x y.
Proof.
  destruct x as [[]|[]| |[] m e], y as [[]|[]| |[] m' e']; simpl; try done;
    rewrite (Z.compare_antisym e e'); destruct (Z.compare e e'); simpl; try done;
    fold (Pos.compare m m'); fold (Pos.compare m' m);
    rewrite (Pos.compare_antisym m m'); by destruct (Pos.compare m m').
Qed.

Lemma not_nan_SF f : PrimFloat.is_nan f = false → Prim2SF f ≠ S754_nan.
Proof.
  unfold PrimFloat.is_nan. rewrite eqb_spec. intros H E. by rewrite E in H.
Qed.

Lemma leb_of_not_ltb x y :
  PrimFloat.is_nan x = false → PrimFloat.is_nan y = false → (x <? y) = false → (y <=? x) = true.
Proof.
  intros Hx Hy. rewrite ltb_spec, leb_spec. unfold SFltb, SFleb.
  destruct (SFcompare_total _ _ (not_nan_SF _ Hx) (not_nan_SF _ Hy)) as [c Hc].
  rewrite (SFcompare_flip (Prim2SF x)), Hc. by destruct c.
Qed.

Lemma clamp01_range v :
  PrimFloat.is_nan (clamp01 v) = false → (0 <=? clamp01 v) = true ∧ (clamp01 v <=? 1) = true.
Proof.
  unfold clamp01. destruct (v <? 0) eqn:H0; [by vm_compute|].
  destruct (1 <? v) eqn:H1; [by vm_compute|]. intros Hn.
  split; apply leb_of_not_ltb; done.
Qed.

(** The score is in [0,1], as its doc says, for any weights, unless it is not a
    number at all. *)
Lemma Score_range s w :
  PrimFloat.is_nan (Score s w) = false →
  (0 <=? Score s w) = true ∧ (Score s w <=? 1) = true.
Proof.
  unfold Score, weighted_score. case_match; [by vm_compute|]. apply clamp01_range.
Qed.

(** ** Monotonicity, by exhaustion of the default score's finite domain *)
Definition crit_levels : list float := [0; 0.33; 0.66; 1].
Definition half_levels : list float := [0; 0.5; 1].
Definition blast_counts : list Z := [0;1;2;3;4;5;6;7;8;9;10]%Z.
Definition blast_level (n : Z) : float := clamp01 (float64 n / float64 10).
Definition blast_levels : list float := blast_level <$> blast_counts.

(** All ordered pairs of a list of levels. *)
Definition ordered (l : list float) : list (float * float) :=
  filter (λ p, (p.1 <=? p.2) = true) (list_prod l l).

(** A test of all tuples drawn from five lists. *)
Definition forall5 {A B C D E} (f : A → B → C → D → E → bool) la lb lc ld le : bool :=
  forallb (λ a, forallb (λ b, forallb (λ c, forallb (λ d, forallb (f a b c d) le) ld) lc) lb) la.

Lemma forall5_spec {A B C D E} (f : A → B → C → D → E → bool) la lb lc ld le a b c d e :
  forall5 f la lb lc ld le = true →
  In a la → In b lb → In c lc → In d ld → In e le → f a b c d e = true.
Proof.
  unfold forall5. intros H Ha Hb Hc Hd He.
  rewrite forallb_forall in H. specialize (H _ Ha). rewrite forallb_forall in H.
  specialize (H _ Hb). rewrite forallb_forall in H. specialize (H _ Hc).
  rewrite forallb_forall in H. specialize (H _ Hd). rewrite forallb_forall in H. by apply H.
Qed.

Definition riskier (c e ch b st : float * float) : bool :=
  weighted_score DefaultWeights c.1 e.1 ch.1 b.1 st.1 (HistoryScore 0 3) <=?
  weighted_score DefaultWeights c.2 e.2 ch.2 b.2 st.2 (HistoryScore 0 3).

Lemma monotone_check :
  forall5 riskier (ordered crit_levels) (ordered half_levels) (ordered half_levels)
    (ordered blast_levels) (ordered half_levels) = true.
Proof. vm_cast_no_check (eq_refl true). Qed.

Lemma ordered_elem l x y : x ∈ l → y ∈ l → (x <=? y) = true → In (x, y) (ordered l).
Proof.
  intros Hx Hy Hle. apply list_elem_of_In. unfold ordered. apply list_elem_of_filter. split; [done|].
  apply list_elem_of_In, in_prod; by apply list_elem_of_In.
Qed.


Lemma blast_counts_elem n : (0 ≤ n ≤ 10)%Z → n ∈ blast_counts.
Proof. intros Hn. unfold blast_counts. rewrite !elem_of_cons. lia. Qed.

Lemma blast_level_elem n : (0 ≤ n ≤ 10)%Z → blast_level n ∈ blast_levels.
Proof.
  intros Hn. apply list_elem_of_fmap. exists n. split; [done|].
  by apply blast_counts_elem.
Qed.

Lemma blast_level_mono n n' : (0 ≤ n ≤ n')%Z → (n' ≤ 10)%Z → (blast_level n <=? blast_level n') = true.
Proof.
  intros H1 H2.
  assert (forallb (λ p, implb (p.1 <=? p.2)%Z (blast_level p.1 <=? blast_level p.2))
    (list_prod blast_counts blast_counts) = true) as Hall by (vm_compute; reflexivity).
  rewrite forallb_forall in Hall. specialize (Hall (n, n')). cbn [fst snd] in Hall.
  rewrite (proj2 (Z.leb_le n n')) in Hall by lia. apply Hall.
  apply in_prod; apply list_elem_of_In, blast_counts_elem; lia.
Qed.

Lemma weighted_mono c c' e e' ch ch' b b' st st' :
  In (c, c') (ordered crit_levels) → In (e, e') (ordered half_levels) →
  In (ch, ch') (ordered half_levels) → In (b, b') (ordered blast_levels) →
  In (st, st') (ordered half_levels) →
  riskier (c, c') (e, e') (ch, ch') (b, b') (st, st') = true.
Proof.
  intros Hc He Hch Hb Hst.
  exact (forall5_spec _ _ _ _ _ _ _ _ _ _ _ monotone_check Hc He Hch Hb Hst).
Qed.

Lemma Score_default s :
  s_RecentFailures s = 0%Z →
  Score s DefaultWeights =
    weighted_score DefaultWeights (criticalityScore (s_Criticality s))
      (environmentScore (s_Environment s)) (changeTypeScore (s_ChangeType s))
      (blast_level (s_BlastRadius s)) (strategyScore (s_Strategy s)) (HistoryScore 0 3).
Proof. intros Hr. unfold Score. by rewrite Hr. Qed.

(** The rows of the scale, least risky first; a name not listed comes before them. *)
Definition criticalities : list (list string) := [["medium"]; ["high"]; ["critical"]].
Definition environments : list (list string) := [["staging"]; ["prod"; "production"]].
Definition change_types : list (list string) := [["code"]; ["schema"; "migration"]].
Definition strategies : list (list string) := [["rolling"]; ["blue-green"]].

Definition rank (row : list (list string)) (name : string) : nat :=
  from_option (λ p, S p.1) O (list_find (λ names, name ∈ names) row).

Definition at_least_as_risky (s s' : Signals) : Prop :=
  (rank criticalities (s_Criticality s) ≤ rank criticalities (s_Criticality s'))%nat ∧
  (rank environments (s_Environment s) ≤ rank environments (s_Environment s'))%nat ∧
  (rank change_types (s_ChangeType s) ≤ rank change_types (s_ChangeType s'))%nat ∧
  (rank strategies (s_Strategy s) ≤ rank strategies (s_Strategy s'))%nat ∧
  (0 ≤ s_BlastRadius s ≤ s_BlastRadius s')%Z ∧ (s_BlastRadius s' ≤ 10)%Z ∧
  s_RecentFailures s = 0%Z ∧ s_RecentFailures s' = 0%Z.

(** The score of a name is the level of its rank. *)
Ltac by_rank := unfold rank; cbn [list_find]; repeat case_decide; repeat case_bool_decide; set_solver.

Lemma criticality_rank x : criticalityScore x = nth (rank criticalities x) crit_levels 0.
Proof. unfold criticalityScore, criticalities. by_rank. Qed.
Lemma environment_rank x : environmentScore x = nth (rank environments x) half_levels 0.
Proof. unfold environmentScore, environments. by_rank. Qed.
Lemma change_type_rank x : changeTypeScore x = nth (rank change_types x) half_levels 0.
Proof. unfold changeTypeScore, change_types. by_rank. Qed.
Lemma strategy_rank x : strategyScore x = nth (rank strategies x) half_levels 0.
Proof. unfold strategyScore, strategies. by_rank. Qed.

Lemma rank_bound row x : (rank row x ≤ length row)%nat.
Proof.
  unfold rank. destruct (list_find _ row) as [[i names]|] eqn:E; simpl; [|lia].
  apply list_find_Some in E as (Hi & _). by apply lookup_lt_Some in Hi.
Qed.

(** Levels that increase. *)
Definition increasing (l : list float) : bool :=
  forallb (λ p, implb (p.1 <=? p.2)%nat (nth p.1 l 0 <=? nth p.2 l 0)) (list_prod (seq 0 (length l)) (seq 0 (length l))).

Lemma increasing_nth l i j : increasing l = true → (i ≤ j < length l)%nat → (nth i l 0 <=? nth j l 0) = true.
Proof.
  unfold increasing. rewrite forallb_forall. intros Hl Hij. specialize (Hl (i, j)). cbn [fst snd] in Hl.
  rewrite (proj2 (Nat.leb_le i j)) in Hl by lia. apply Hl, in_prod; apply in_seq; lia.
Qed.

(** Two scores of a row as an ordered pair of its levels. *)
Lemma ranked_pair row l x x' : increasing l = true → length l = S (length row) → (rank row x ≤ rank row x')%nat →
  In (nth (rank row x) l 0, nth (rank row x') l 0) (ordered l).
Proof.
  intros Hl Hlen Hr. pose proof (rank_bound row x'). pose proof (rank_bound row x).
  apply ordered_elem; [apply list_elem_of_In, nth_In; lia..|]. apply increasing_nth; [done|lia].
Qed.

Lemma Score_monotone s s' : at_least_as_risky s s' → (Score s DefaultWeights <=? Score s' DefaultWeights) = true.
Proof.
  intros (Hc & He & Hch & Hst & Hb & Hb' & Hr & Hr'). rewrite !Score_default by done.
  rewrite !criticality_rank, !environment_rank, !change_type_rank, !strategy_rank.
  refine (weighted_mono _ _ _ _ _ _ _ _ _ _
    (ranked_pair criticalities crit_levels _ _ eq_refl eq_refl Hc)
    (ranked_pair environments half_levels _ _ eq_refl eq_refl He)
    (ranked_pair change_types half_levels _ _ eq_refl eq_refl Hch)
    (ordered_elem _ _ _ (blast_level_elem _ _) (blast_level_elem _ _) (blast_level_mono _ _ Hb Hb'))
    (ranked_pair strategies half_levels _ _ eq_refl eq_refl Hst)); lia.
Qed.

(** A comparison as one of numbers: the sign, the exponent, then the mantissa. *)
Lemma SFleb_trans x y z : SFleb x y = true → SFleb y z = true → SFleb x z = true.
Proof.
  unfold SFleb.
  destruct x as [[]|[]| |[] mx ex], y as [[]|[]| |[] my ey], z as [[]|[]| |[] mz ez]; simpl; try done;
    fold (Pos.compare mx my); fold (Pos.compare my mz); fold (Pos.compare mx mz);
    destruct (Z.compare_spec ex ey), (Z.compare_spec ey ez), (Z.compare_spec ex ez); try done; try lia;
    destruct (Pos.compare_spec mx my), (Pos.compare_spec my mz), (Pos.compare_spec mx mz); simpl; try done; lia.
Qed.

Lemma leb_trans x y z : (x <=? y) = true → (y <=? z) = true → (x <=? z) = true.
Proof. rewrite !leb_spec. apply SFleb_trans. Qed.

(** ** Properties *)

(** C29. With the default weights a riskier change is never scored lower, and never
    let through where a less risky one is held.  One change is at least as risky
    as another when its criticality comes no earlier in low, medium, high,
    critical, its environment no earlier in development, staging, production, its
    kind no earlier in configuration, code, schema, its strategy no earlier in
    canary, rolling, blue-green - names not listed count as the first of the row -
    and it has at least as many dependents, up to the ten at which they saturate.
    Neither has recent failures, which carry no default weight.  Then its score is
    at least as high, and a gate without an expression, whatever its threshold,
    that asks for approval of the one asks for approval of the other. *)
Theorem riskier_never_scores_lower s s' cel threshold d d' :
  at_least_as_risky s s' → let g := {| g_Threshold := threshold; g_Weights := DefaultWeights; g_SensitiveExpr := "" |} in
  Evaluate cel g s = Ok d → Evaluate cel g s' = Ok d' →
  (d_Score d <=? d_Score d') = true ∧ (d_NeedsApproval d = true → d_NeedsApproval d' = true).
Proof.
  intros Hr g. unfold Evaluate, g. cbn [g_SensitiveExpr g_Threshold]. rewrite bool_decide_true by done.
  intros [= <-] [= <-]. cbn [d_Score d_NeedsApproval orb]. pose proof (Score_monotone s s' Hr) as Hm.
  split; [exact Hm|]. intros Ht. by apply (leb_trans _ _ _ Ht).
Qed.

Lemma riskier_never_scores_lower_witness :
  let g := {| g_Threshold := 0.4; g_Weights := DefaultWeights; g_SensitiveExpr := "" |} in
  let cel := λ _, Err (Errorf "no expressions") in
  let s := {| s_Criticality := "medium"; s_Environment := "staging"; s_ChangeType := "code";
              s_BlastRadius := 6; s_Strategy := "rolling"; s_RecentFailures := 0 |} in
  let s' := {| s_Criticality := "critical"; s_Environment := "production"; s_ChangeType := "schema";
               s_BlastRadius := 9; s_Strategy := "blue-green"; s_RecentFailures := 0 |} in
  ∃ d d', Evaluate cel g s = Ok d ∧ Evaluate cel g s' = Ok d' ∧ d_NeedsApproval d = true ∧
    (d_Score d <=? d_Score d') = true ∧ d_NeedsApproval d' = true.
Proof.
  intros g cel s s'. eexists _, _. split; [reflexivity|]. split; [reflexivity|]. split; [vm_compute; reflexivity|].
  refine (let '(conj H1 H2) := riskier_never_scores_lower s s' cel 0.4 _ _ _ eq_refl eq_refl in conj H1 (H2 _)).
  - unfold at_least_as_risky. repeat split; vm_compute; congruence || lia.
  - vm_compute. reflexivity.
Defined.

(** The ends of the scale are reached. *)
Example score_ends :
  Score {| s_Criticality := "low"; s_Environment := "dev"; s_ChangeType := "config";
           s_BlastRadius := 0; s_Strategy := "canary"; s_RecentFailures := 0 |} DefaultWeights = 0 ∧
  Score {| s_Criticality := "critical"; s_Environment := "prod"; s_ChangeType := "schema";
           s_BlastRadius := 10; s_Strategy := "blue-green"; s_RecentFailures := 0 |} DefaultWeights = 1.
Proof. vm_compute. done. Qed.

(** An auto-proceed is earned: when the gate says no approval is needed, the
    score of the effective weights (the defaults when none are set) did not
    reach the threshold, and a configured sensitive expression compiled to a
    boolean program that evaluated to false on these signals.  An expression
    that does not compile, or fails to evaluate, never lets a change through. *)
Theorem Evaluate_auto_proceed cel g s d :
  Evaluate cel g s = Ok d → d_NeedsApproval d = false →
  d_Score d = Score s (effective_weights g) ∧ (g_Threshold g <=? d_Score d) = false ∧
  (g_SensitiveExpr g = "" ∨
   ∃ p, Compile cel (g_SensitiveExpr g) = Ok p ∧
        prg p (activation (gate_input s (d_Score d) (effective_weights g))) = Ok (ABool false)).
Proof.
  unfold Evaluate, Eval. intros H Hn. case_bool_decide as He; simpl in H; [simplify_eq/=; eauto|].
  destruct (Compile cel (g_SensitiveExpr g)) as [p|] eqn:Hp; [|done]. unfold EvalBool in H.
  repeat (case_match; simplify_eq/=). split_bool. subst. eauto 10.
Qed.

Definition demo_cel (expr : string) : result celAst :=
  Ok {| ast_OutputType := BoolType;
        ast_Program := Ok (λ vars, Ok (ABool (bool_decide (as_string (snd <$> head vars) = "critical")))) |}.

Lemma Evaluate_auto_proceed_witness :
  let g := {| g_Threshold := 0.7; g_Weights := DefaultWeights; g_SensitiveExpr := "criticality == 'critical'" |} in
  let s := {| s_Criticality := "low"; s_Environment := "dev"; s_ChangeType := "code";
              s_BlastRadius := 1; s_Strategy := "canary"; s_RecentFailures := 0 |} in
  ∃ d, Evaluate demo_cel g s = Ok d ∧ (g_Threshold g <=? d_Score d) = false.
Proof.
  intros g s. destruct (Evaluate demo_cel g s) as [d|] eqn:E; [|by vm_compute in E].
  exists d. split; [done|]. apply (Evaluate_auto_proceed demo_cel g s d E).
  vm_compute in E. injection E as <-. reflexivity.
Defined.
