(* ===== verification/Analysis.v ===== *)
(** * Metric analysis

    [internal/analysis/analysis.go]: reducing multi-series results, building an
    analyzer from a template, and the measurement loop.  [W] is the state the
    metrics provider and the clock live in; the CEL compiler is a parameter. *)

From S2P Require Import Prelude GoTime Config Risk.
From Stdlib Require Import Floats.

Open Scope Z_scope.

(** ** Reducing a vector *)
Definition ValidAggregation (a : string) : bool :=
  (a == "max") || (a == "min") || (a == "sum") || (a == "any").

Definition fmax (l : list float) (m : float) : float :=
  foldl (λ m v, if (m <? v)%float then v else m) m l.
Definition fmin (l : list float) (m : float) : float :=
  foldl (λ m v, if (v <? m)%float then v else m) m l.
Definition fsum (l : list float) : float := foldl (λ s v, (s + v)%float) 0%float l.

Definition Aggregate (samples : list float) (agg : string) : result float :=
  match samples with
  | [] => Err (Errorf ("analysis: aggregation " +:+ quote agg +:+ " over empty result"))
  | v :: rest =>
      if agg == "any" then Ok v
      else if agg == "max" then Ok (fmax rest v)
      else if agg == "min" then Ok (fmin rest v)
      else if agg == "sum" then Ok (fsum samples)
      else Err (Errorf ("analysis: unknown aggregation " +:+ quote agg +:+ " (want max|min|sum|any)"))
  end.

(** ** Templates *)
Record Metric := { me_Name : string; me_Query : string; me_Aggregation : string }.

Record Template := {
  te_Metrics : list Metric;
  te_Condition : string;
  te_Interval : Duration;
  te_Count : Z;
  te_FailureLimit : Z;
}.

Record Measurement := {
  mm_Values : gmap string float;
  mm_Passed : bool;
  mm_Err : option err;
}.

Record AResult := {
  ar_Passed : bool;
  ar_Measurements : list Measurement;
  ar_Reason : string;
}.

Section Analyzer.
Context {W : Type}.

Record MetricsProvider := {
  mp_Query : string → W → result float * W;
  mp_Series : option (string → W → result (list float) * W);
}.

Record Analyzer := {
  an_provider : MetricsProvider;
  an_tmpl : Template;
  an_prog : list (string * any) → result any;
}.

Definition effective_count (t : Template) : Z := if te_Count t <=? 0 then 1 else te_Count t.

Definition bad_aggregation (m : Metric) : bool :=
  (me_Aggregation m != "") && negb (ValidAggregation (me_Aggregation m)).

Definition NewAnalyzer (cel : list string → string → result celAst)
    (provider : MetricsProvider) (t : Template) : result Analyzer :=
  if te_Condition t == "" then Err (Errorf "analysis: condition is required")
  else if (length (te_Metrics t) =? 0)%nat then Err (Errorf "analysis: at least one metric is required")
  else
    let count := effective_count t in
    if count <=? te_FailureLimit t then
      Err (Errorf ("analysis: failureLimit (" +:+ pretty (te_FailureLimit t) +:+
                   ") must be less than count (" +:+ pretty count +:+
                   "); otherwise the analysis can never fail"))
    else match head (filter (λ m, bad_aggregation m = true) (te_Metrics t)) with
    | Some m => Err (Errorf ("analysis: metric " +:+ quote (me_Name m) +:+ ": unknown aggregation " +:+
                             quote (me_Aggregation m) +:+ " (want max|min|sum|any)"))
    | None =>
        match cel (me_Name <$> te_Metrics t) (te_Condition t) with
        | Err e => Err (Wrap ("analysis: condition " +:+ quote (te_Condition t) +:+ ": ") e "")
        | Ok ast =>
            if ast_OutputType ast != BoolType then
              Err (Errorf ("analysis: condition " +:+ quote (te_Condition t) +:+ " must evaluate to bool"))
            else match ast_Program ast with
            | Err e => Err (Wrap "analysis: program: " e "")
            | Ok p => Ok {| an_provider := provider; an_tmpl := t; an_prog := p |}
            end
        end
    end.

Definition queryMetric (a : Analyzer) (m : Metric) (w : W) : result float * W :=
  if me_Aggregation m == "" then mp_Query (an_provider a) (me_Query m) w
  else match mp_Series (an_provider a) with
  | None => (Err (Errorf ("aggregation " +:+ quote (me_Aggregation m) +:+
                          " requires a series-capable metrics provider")), w)
  | Some series =>
      let '(r, w) := series (me_Query m) w in
      (match r with Err e => Err e | Ok samples => Aggregate samples (me_Aggregation m) end, w)
  end.

(** The sampling loop of [measure]: the values so far, and the first error. *)
Fixpoint sample (a : Analyzer) (ms : list Metric) (vals : gmap string float) (w : W)
    : gmap string float * option err * W :=
  match ms with
  | [] => (vals, None, w)
  | m :: ms =>
      let '(r, w) := queryMetric a m w in
      match r with
      | Err e => (vals, Some (Wrap ("metric " +:+ quote (me_Name m) +:+ ": ") e ""), w)
      | Ok v => sample a ms (<[me_Name m := v]> vals) w
      end
  end.

Definition toAny (vals : gmap string float) : list (string * any) :=
  (λ kv, (kv.1, AFloat kv.2)) <$> map_to_list vals.

Definition measure (a : Analyzer) (w : W) : Measurement * W :=
  let '(vals, e, w) := sample a (te_Metrics (an_tmpl a)) ∅ w in
  (match e with
   | Some e => {| mm_Values := vals; mm_Passed := false; mm_Err := Some e |}
   | None =>
       match an_prog a (toAny vals) with
       | Err e => {| mm_Values := vals; mm_Passed := false; mm_Err := Some e |}
       | Ok v => {| mm_Values := vals;
                    mm_Passed := match v with ABool b => b | _ => false end; mm_Err := None |}
       end
   end, w).

Definition mm_failed (m : Measurement) : bool :=
  match mm_Err m with Some _ => true | None => negb (mm_Passed m) end.

Context (sleep : Duration → W → W).

(** The loop of [Run]: [todo] measurements remain, [fails] is the current
    streak, [acc] the measurements so far, newest first. *)
Fixpoint run_loop (a : Analyzer) (todo : nat) (first : bool) (fails : Z) (acc : list Measurement) (w : W)
    : AResult * W :=
  match todo with
  | O =>
      (match acc with
       | {| mm_Err := Some e |} :: _ =>
           {| ar_Passed := false; ar_Measurements := rev acc;
              ar_Reason := "the last measurement could not be taken: " +:+ err_str e |}
       | _ => {| ar_Passed := true; ar_Measurements := rev acc; ar_Reason := "" |}
       end, w)
  | S todo =>
      let w := if negb first && (0 <? te_Interval (an_tmpl a)) then sleep (te_Interval (an_tmpl a)) w else w in
      let '(mm, w) := measure a w in
      let acc := mm :: acc in
      if mm_failed mm then
        if te_FailureLimit (an_tmpl a) <? fails + 1 then
          ({| ar_Passed := false; ar_Measurements := rev acc;
              ar_Reason := match mm_Err mm with
                           | Some e => err_str e
                           | None => "condition " +:+ quote (te_Condition (an_tmpl a)) +:+ " failed " +:+
                                     pretty (fails + 1) +:+ " consecutive times"
                           end |}, w)
        else run_loop a todo false (fails + 1) acc w
      else run_loop a todo false 0 acc w
  end.

Definition RunAnalysis (a : Analyzer) (w : W) : AResult * W :=
  run_loop a (Z.to_nat (effective_count (an_tmpl a))) true 0 [] w.

(** ** The loop's contract *)

(** The length of the failing streak a list of measurements, newest first,
    starts with. *)
Fixpoint streak (acc : list Measurement) : Z :=
  match acc with
  | m :: acc => if mm_failed m then 1 + streak acc else 0
  | [] => 0
  end.

(** No failing streak anywhere in the list exceeds the tolerated one. *)
Fixpoint tolerated (limit : Z) (acc : list Measurement) : Prop :=
  match acc with
  | m :: rest => streak acc ≤ Z.max 0 limit ∧ tolerated limit rest
  | [] => True
  end.

Definition healthy_end (acc : list Measurement) : Prop :=
  match acc with m :: _ => mm_Err m = None | [] => True end.

Lemma run_loop_passed a todo first acc w :
  let limit := te_FailureLimit (an_tmpl a) in
  let res := (run_loop a todo first (streak acc) acc w).1 in
  tolerated limit acc → ar_Passed res = true →
  ∃ all, ar_Measurements res = rev all ∧ length all = (length acc + todo)%nat ∧
         tolerated limit all ∧ healthy_end all.
Proof.
  intros limit. revert first acc w. induction todo as [|todo IH]; intros first acc w; cbn [run_loop]; intros Ht Hp.
  - exists acc. destruct acc as [|[vals passed [e|]] acc]; [|done|];
      (split; [done|]); (split; [lia|done]).
  - destruct (measure a _) as [mm w1]. fold limit in Hp |- *.
    destruct (mm_failed mm) eqn:Hf.
    + destruct (limit <? streak acc + 1) eqn:Hl; [done|]. split_bool.
      assert (streak (mm :: acc) = streak acc + 1) as Hs by (simpl; rewrite Hf; lia).
      rewrite <- Hs in Hp |- *. destruct (IH false (mm :: acc) w1) as (all & ? & Hlen & ? & ?);
        [cbn [tolerated]; split; [lia|done]|done|].
      exists all. cbn [length] in Hlen. split_and!; [done|lia|done|done].
    + assert (streak (mm :: acc) = 0) as Hs by (simpl; by rewrite Hf).
      rewrite <- Hs in Hp |- *. destruct (IH false (mm :: acc) w1) as (all & ? & Hlen & ? & ?);
        [cbn [tolerated]; split; [lia|done]|done|].
      exists all. cbn [length] in Hlen. split_and!; [done|lia|done|done].
Qed.

Lemma streak_all acc : Forall (λ m, mm_failed m = true) acc → streak acc = Z.of_nat (length acc).
Proof. induction 1 as [|m acc Hm _ IH]; simpl; [done|]. rewrite Hm, IH. lia. Qed.

Lemma some_passed limit acc :
  tolerated limit acc → acc ≠ [] → Z.max 0 limit < Z.of_nat (length acc) →
  ∃ m, m ∈ acc ∧ mm_failed m = false.
Proof.
  intros Ht Hne Hlen. destruct (decide (Exists (λ m, mm_failed m = false) acc)) as [He|Hn].
  - by apply Exists_exists in He.
  - apply not_Exists_Forall in Hn; [|solve_decision].
    assert (streak acc = Z.of_nat (length acc)) as Hs.
    { apply streak_all. eapply Forall_impl; [exact Hn|]. intros m Hm. by apply not_false_iff_true in Hm. }
    destruct acc; [done|]. destruct Ht. lia.
Qed.

Lemma NewAnalyzer_ok cel provider t a :
  NewAnalyzer cel provider t = Ok a → an_tmpl a = t ∧ te_FailureLimit t < effective_count t.
Proof.
  unfold NewAnalyzer. intros H. repeat (case_match; simplify_eq/=). split_bool. split; [done|lia].
Qed.
End Analyzer.
Arguments MetricsProvider : clear implicits.
Arguments Analyzer : clear implicits.

Lemma effective_count_pos t : 1 ≤ effective_count t.
Proof. unfold effective_count. case_match; split_bool; lia. Qed.

(** ** Properties *)

(** A canary cannot pass its metric analysis without evidence: when an
    analyzer that was accepted reports success it took all the configured
    measurements, never saw more than the tolerated number of consecutive
    failures, could take the last measurement, and at least one measurement
    satisfied the condition - whatever the metrics backend answered. *)
Theorem analysis_pass_is_evidence {W} (sleep : Duration → W → W) cel provider t a w :
  NewAnalyzer cel provider t = Ok a →
  let res := (RunAnalysis sleep a w).1 in
  ar_Passed res = true →
  Z.of_nat (length (ar_Measurements res)) = effective_count t ∧
  tolerated (te_FailureLimit t) (rev (ar_Measurements res)) ∧
  (∃ m, last (ar_Measurements res) = Some m ∧ mm_Err m = None) ∧
  (∃ m, m ∈ ar_Measurements res ∧ mm_failed m = false).
Proof.
  intros Hnew res Hp. destruct (NewAnalyzer_ok _ _ _ _ Hnew) as [Ht Hlt].
  pose proof (effective_count_pos t) as Hpos.
  destruct (run_loop_passed sleep a (Z.to_nat (effective_count (an_tmpl a))) true [] w)
    as (all & Hm & Hlen & Htol & He); [done|done|].
  change (run_loop _ _ _ _ _ _ _) with (RunAnalysis sleep a w) in Hm. fold res in Hm.
  rewrite Ht in Hlen, Htol.
  assert (all ≠ []) as Hne by (intros ->; simpl in Hlen; lia).
  rewrite Hm, rev_involutive, length_rev, Hlen. split_and!; [simpl; lia|done| |].
  - destruct all as [|m all]; [done|]. exists m. simpl. rewrite last_snoc. done.
  - destruct (some_passed _ _ Htol Hne) as (m & Hin & Hf); [simpl in Hlen; lia|].
    exists m. split; [|done]. by rewrite list_elem_of_In, <- in_rev, <- list_elem_of_In.
Qed.

Definition flat_provider : MetricsProvider nat :=
  {| mp_Query := λ _ n, (if (n <? 1)%nat then Err (Errorf "connection refused") else Ok 0.01%float, S n);
     mp_Series := None |}.
Definition demo_condition (_ : list string) (_ : string) : result celAst :=
  Ok {| ast_OutputType := BoolType;
        ast_Program := Ok (λ vars, Ok (ABool (match vars with (_, AFloat f) :: _ => (f <? 0.05)%float | _ => false end))) |}.

Lemma analysis_pass_is_evidence_witness :
  let t := {| te_Metrics := [ {| me_Name := "errorRate"; me_Query := "q"; me_Aggregation := "" |} ];
              te_Condition := "errorRate < 0.05"; te_Interval := 0; te_Count := 3; te_FailureLimit := 1 |} in
  ∃ a, NewAnalyzer demo_condition flat_provider t = Ok a ∧
       Z.of_nat (length (ar_Measurements (RunAnalysis (λ _ n, n) a O).1)) = 3.
Proof.
  intros t. eexists. split; [vm_compute; reflexivity|].
  refine (proj1 (analysis_pass_is_evidence (λ _ n, n) demo_condition flat_provider t _ O _ _)).
  - vm_compute. reflexivity.
  - vm_compute. reflexivity.
Defined.
