(* ===== verification/Security.v ===== *)
(** * The trust boundary

    [internal/security]: the guardrails' policy floor and in-memory freeze
    ([guardrails.go]), the artifact gate ([artifact.go]), confinement of
    config-sourced commands and of their environment ([confine.go],
    [confine_env.go]) and RBAC ([rbac.go], [rbac_defaults.go],
    [policyfile.go]).  [CheckApply], which reads the store, is with the engine. *)

From S2P Require Import Prelude Model.

(** ** Guardrails *)
Record FloorInput := {
  fi_TargetRef : string;
  fi_Environment : string;
  fi_ChangeType : string;
  fi_Criticality : string;
}.

Record PolicyFloor := {
  pf_CriticalTargets : gset string;
  pf_RequireApprovalProdSchema : bool;
}.

Definition DefaultPolicyFloor : PolicyFloor :=
  {| pf_CriticalTargets := ∅; pf_RequireApprovalProdSchema := true |}.

Definition MustApprove (f : PolicyFloor) (i : FloorInput) : bool :=
  if fi_Criticality i == "critical" then true
  else if bool_decide (fi_TargetRef i ∈ pf_CriticalTargets f) then true
  else if pf_RequireApprovalProdSchema f && (fi_Environment i == "prod") &&
          ((fi_ChangeType i == "schema") || (fi_ChangeType i == "migration")) then true
  else false.

Record Freeze := { fz_active : bool; fz_reason : string; fz_by : Identity }.

Definition no_identity : Identity := {| id_Kind := ""; id_Name := ""; id_Groups := [] |}.
Definition NewFreeze : Freeze := {| fz_active := false; fz_reason := ""; fz_by := no_identity |}.

Definition Engage (f : Freeze) (by_ : Identity) (reason : string) : Freeze :=
  {| fz_active := true; fz_reason := reason; fz_by := by_ |}.
Definition Lift (f : Freeze) (by_ : Identity) : Freeze :=
  {| fz_active := false; fz_reason := ""; fz_by := by_ |}.
Definition FreezeActive (f : Freeze) : bool * string := (fz_active f, fz_reason f).

(** ** The artifact gate *)
Definition VerifyEnforce : string := "enforce".
Definition VerifyWarn : string := "warn".
Definition VerifyOff : string := "off".

Definition ErrUnverifiedArtifact (ref detail : string) : err :=
  Errorf ("security: artifact " +:+ quote ref +:+ " failed verification: " +:+ detail).

(** [Check] for a gate of mode [mode] whose verifier, when there is one,
    answered [verdict] ([verified, detail] or a system error). *)
Definition artifact_Check (mode : string) (verdict : option (result (bool * string))) (ref : string)
    : option err :=
  if (mode == VerifyOff) || ((mode == "") && match verdict with None => true | Some _ => false end)
  then None
  else match verdict with
  | None => Some (ErrUnverifiedArtifact ref ("no verifier configured but mode is " +:+ mode))
  | Some v =>
      if mode == VerifyWarn then None
      else if (mode == VerifyEnforce) || (mode == "") then
        match v with
        | Err e => Some (ErrUnverifiedArtifact ref (err_str e))
        | Ok (ok, detail) => if ok then None else Some (ErrUnverifiedArtifact ref detail)
        end
      else Some (Errorf ("security: unknown verify mode " +:+ quote mode))
  end.

(** ** Confinement *)
Record allowSet := { as_enabled : bool; as_values : gset string }.

Record Confinement := {
  cf_commands : allowSet;
  cf_namespaces : allowSet;
  cf_confineCluster : bool;
  cf_allowedEnv : list string;
}.

Definition comma : Ascii.ascii := Ascii.ascii_of_nat 44.
Definition slash : Ascii.ascii := Ascii.ascii_of_nat 47.
Definition equals : Ascii.ascii := Ascii.ascii_of_nat 61.

(** [parseList]: trimmed, non-empty comma-separated entries. *)
Definition parseList (raw : string) : list string :=
  filter (λ p, p ≠ "") (TrimSpace <$> Split raw comma).

Definition parseAllowSet (raw : string) : allowSet :=
  if TrimSpace raw == "" then {| as_enabled := false; as_values := ∅ |}
  else {| as_enabled := true; as_values := list_to_set (parseList raw) |}.

Definition truthy (v : string) : bool :=
  let v := ToLower (TrimSpace v) in
  (v == "1") || (v == "true") || (v == "yes") || (v == "on").

Definition ConfinementFromEnv (getenv : string → string) : Confinement := {|
  cf_commands := parseAllowSet (getenv "ROLLOPS_ALLOWED_COMMANDS");
  cf_namespaces := parseAllowSet (getenv "ROLLOPS_ALLOWED_NAMESPACES");
  cf_confineCluster := truthy (getenv "ROLLOPS_CONFINE_TARGET_CLUSTER");
  cf_allowedEnv := parseList (getenv "ROLLOPS_ALLOWED_ENV") |}.

(** [filepath.Base]: the last path element, trailing slashes removed. *)
Fixpoint drop_slashes (s : string) : string :=
  match s with
  | String c s' => if bool_decide (c = slash) then drop_slashes s' else s
  | EmptyString => EmptyString
  end.
Fixpoint take_to_slash (s : string) : string :=
  match s with
  | String c s' => if bool_decide (c = slash) then EmptyString else String c (take_to_slash s')
  | EmptyString => EmptyString
  end.
Definition Base (path : string) : string :=
  if path == "" then "."
  else let r := drop_slashes (String.rev path) in
       if r == "" then "/" else String.rev (take_to_slash r).

Definition allowsCommand (s : allowSet) (exe : string) : bool :=
  if bool_decide (exe ∈ as_values s) then true
  else if bool_decide (Base exe ∈ as_values s) then true
  else false.

Definition CheckCommand (c : Confinement) (command : list string) : option err :=
  match command with
  | [] => None
  | exe :: _ =>
      if negb (as_enabled (cf_commands c)) then None
      else if allowsCommand (cf_commands c) exe then None
      else Some (Errorf ("command " +:+ quote exe +:+ " is not allow-listed (ROLLOPS_ALLOWED_COMMANDS)"))
  end.

Definition CheckNamespace (c : Confinement) (namespace : string) : option err :=
  if negb (as_enabled (cf_namespaces c)) then None
  else
    let namespace := if namespace == "" then "default" else namespace in
    if bool_decide (namespace ∈ as_values (cf_namespaces c)) then None
    else Some (Errorf ("namespace " +:+ quote namespace +:+
                       " is not allow-listed (ROLLOPS_ALLOWED_NAMESPACES)")).

Definition EssentialEnvVars : list string := ["PATH"; "HOME"; "TMPDIR"].

(** The name of a [KEY=value] entry. *)
Definition env_name (kv : string) : option string :=
  (λ i, str_take i kv) <$> IndexByte kv equals.

Definition env_wanted (allowed : list string) : gset string :=
  list_to_set (EssentialEnvVars ++ filter (λ k, k ≠ "") (TrimSpace <$> allowed)).

Definition env_forwarded (allowed : list string) (kv : string) : bool :=
  match env_name kv with Some k => bool_decide (k ∈ env_wanted allowed) | None => false end.

Definition ConfineEnv (allowed parentEnv : list string) : list string :=
  if existsb (λ a, TrimSpace a == "*") allowed then parentEnv
  else filter (λ kv, env_forwarded allowed kv = true) parentEnv.

Definition CommandEnv (c : Confinement) (parentEnv : list string) : list string :=
  ConfineEnv (cf_allowedEnv c) parentEnv.

(** ** RBAC *)
Inductive Permission :=
| PermStatus | PermPlan | PermApply | PermApprove | PermPromote | PermRollback | PermSchedule | PermFreeze.

#[global] Instance Permission_eq_dec : EqDecision Permission.
Proof. solve_decision. Defined.

Definition perm_str (p : Permission) : string :=
  match p with
  | PermStatus => "rollouts.status" | PermPlan => "rollouts.plan" | PermApply => "rollouts.apply"
  | PermApprove => "rollouts.approve" | PermPromote => "rollouts.promote"
  | PermRollback => "rollouts.rollback" | PermSchedule => "rollouts.schedule"
  | PermFreeze => "rollouts.freeze"
  end.

Definition knownPerms : list Permission :=
  [PermStatus; PermPlan; PermApply; PermApprove; PermPromote; PermRollback; PermSchedule; PermFreeze].

(** The permission a policy file names, when [knownPerms] has it. *)
Definition parse_perm (s : string) : option Permission :=
  head (filter (λ p, perm_str p = s) knownPerms).

Record Scope := { sc_Env : string; sc_TargetRef : string }.

Definition scope_matches (g req : Scope) : bool :=
  if (sc_Env g != "") && (sc_Env g != sc_Env req) then false
  else if (sc_TargetRef g != "") && (sc_TargetRef g != sc_TargetRef req) then false
  else true.

Record Grant := { gr_Perm : Permission; gr_Scope : Scope }.

Record Policy := { po_roles : gmap string (list Grant); po_bindings : gmap string (list string) }.

Definition NewPolicy : Policy := {| po_roles := ∅; po_bindings := ∅ |}.

Definition DefineRole (p : Policy) (name : string) (grants : list Grant) : Policy :=
  {| po_roles := <[name := grants]> (po_roles p); po_bindings := po_bindings p |}.

Definition hasRole (p : Policy) (name : string) : bool := bool_decide (is_Some (po_roles p !! name)).

Definition bound_to (p : Policy) (key : string) : list string := default [] (po_bindings p !! key).

Definition Bind (p : Policy) (key : string) (roles : list string) : Policy :=
  {| po_roles := po_roles p; po_bindings := <[key := bound_to p key ++ roles]> (po_bindings p) |}.

Definition ReplaceWith (p other : Policy) : Policy :=
  {| po_roles := po_roles other; po_bindings := po_bindings other |}.

Definition rolesFor (p : Policy) (id : Identity) : list string :=
  bound_to p (id_Kind id +:+ ":" +:+ id_Name id) ++
  bound_to p (id_Kind id +:+ ":*") ++
  mjoin ((λ g, bound_to p ("group:" +:+ g)) <$> id_Groups id) ++
  (if (0 <? length (id_Groups id))%nat then bound_to p "group:*" else []).

Definition ErrForbidden (id : Identity) (perm : Permission) (s : Scope) : err :=
  Errorf ("security: forbidden: " +:+ id_Kind id +:+ "/" +:+ id_Name id +:+ " may not " +:+
          perm_str perm +:+ " on {env=" +:+ quote (sc_Env s) +:+ " target=" +:+
          quote (sc_TargetRef s) +:+ "}").

Definition role_allows (p : Policy) (perm : Permission) (s : Scope) (role : string) : bool :=
  match po_roles p !! role with
  | None => false
  | Some grants => existsb (λ g, (gr_Perm g == perm) && scope_matches (gr_Scope g) s) grants
  end.

Definition Authorize (p : Policy) (id : Identity) (perm : Permission) (s : Scope) : option err :=
  if existsb (role_allows p perm s) (rolesFor p id) then None else Some (ErrForbidden id perm s).

Definition Can (p : Policy) (id : Identity) (perm : Permission) (s : Scope) : bool :=
  match Authorize p id perm s with None => true | Some _ => false end.

Definition any_scope : Scope := {| sc_Env := ""; sc_TargetRef := "" |}.
Definition grants_of (ps : list Permission) : list Grant :=
  (λ p, {| gr_Perm := p; gr_Scope := any_scope |}) <$> ps.

Definition RoleAdmin : string := "admin".
Definition RoleAgent : string := "agent".
Definition RoleAgentDeploy : string := "agent-deploy".

Definition DefaultRBACPolicy : Policy :=
  let p := DefineRole NewPolicy RoleAdmin (grants_of
    [PermPlan; PermApply; PermApprove; PermPromote; PermRollback; PermStatus; PermSchedule; PermFreeze]) in
  let p := Bind p "human:admin" [RoleAdmin] in
  let p := DefineRole p RoleAgent (grants_of [PermPlan; PermStatus]) in
  let p := Bind p "agent:*" [RoleAgent] in
  DefineRole p RoleAgentDeploy (grants_of [PermPlan; PermApply; PermRollback; PermStatus; PermPromote]).

(** A decoded policy file: roles with (permission, env, targetRef) grants, and
    bindings of subjects to role names. *)
Record policyFile := {
  pol_Roles : list (string * list (string * string * string));
  pol_Bindings : list (string * list string);
}.

Fixpoint parse_grants (role : string) (gs : list (string * string * string)) : result (list Grant) :=
  match gs with
  | [] => Ok []
  | (perm, env, ref) :: gs =>
      match parse_perm perm with
      | None => Err (Errorf ("security: policy role " +:+ quote role +:+ ": unknown permission " +:+ quote perm))
      | Some q =>
          try rest <- parse_grants role gs;
          Ok ({| gr_Perm := q; gr_Scope := {| sc_Env := env; sc_TargetRef := ref |} |} :: rest)
      end
  end.

Fixpoint apply_roles (p : Policy) (rs : list (string * list (string * string * string)))
    : Policy * option err :=
  match rs with
  | [] => (p, None)
  | (name, gs) :: rs =>
      if name == "" then (p, Some (Errorf "security: policy role: name is required"))
      else match parse_grants name gs with
           | Err e => (p, Some e)
           | Ok grants => apply_roles (DefineRole p name grants) rs
           end
  end.

Fixpoint apply_bindings (p : Policy) (bs : list (string * list string)) : Policy * option err :=
  match bs with
  | [] => (p, None)
  | (subject, roles) :: bs =>
      if subject == "" then (p, Some (Errorf "security: policy binding: subject is required"))
      else match head (filter (λ r, negb (hasRole p r) = true) roles) with
           | Some role => (p, Some (Errorf ("security: policy binding " +:+ quote subject +:+
                                            ": unknown role " +:+ quote role)))
           | None => apply_bindings (Bind p subject roles) bs
           end
  end.

(** [ApplyPolicyFile] on a decoded file ([None] is an empty file). *)
Definition ApplyPolicyFile (p : Policy) (pf : option policyFile) : Policy * option err :=
  match pf with
  | None => (p, None)
  | Some pf =>
      let '(p, e) := apply_roles p (pol_Roles pf) in
      match e with
      | Some e => (p, Some e)
      | None => apply_bindings p (pol_Bindings pf)
      end
  end.

(** ** Facts *)
Lemma role_allows_spec p perm s role :
  role_allows p perm s role = true ↔
  ∃ grants g, po_roles p !! role = Some grants ∧ g ∈ grants ∧ gr_Perm g = perm ∧
              scope_matches (gr_Scope g) s = true.
Proof.
  unfold role_allows. destruct (po_roles p !! role) as [grants|]; [|naive_solver].
  rewrite existsb_exists. split.
  - intros (g & Hg & Hb). split_bool. exists grants, g. by rewrite list_elem_of_In.
  - intros (grants' & g & [= <-] & Hg & Hp & Hs). exists g. rewrite <- list_elem_of_In.
    by rewrite Hs, bool_decide_eq_true_2.
Qed.

Lemma Can_spec p id perm s :
  Can p id perm s = true ↔ ∃ role, role ∈ rolesFor p id ∧ role_allows p perm s role = true.
Proof.
  unfold Can, Authorize. destruct (existsb _ _) eqn:E.
  - apply existsb_exists in E as (r & Hr & Ha). apply list_elem_of_In in Hr. naive_solver.
  - split; [done|]. intros (r & Hr & Ha). apply list_elem_of_In in Hr.
    assert (existsb (role_allows p perm s) (rolesFor p id) = true) as E'
      by (apply existsb_exists; eauto). congruence.
Qed.

Lemma scope_matches_spec g req :
  scope_matches g req = true ↔
  (sc_Env g = "" ∨ sc_Env g = sc_Env req) ∧ (sc_TargetRef g = "" ∨ sc_TargetRef g = sc_TargetRef req).
Proof. unfold scope_matches. repeat case_bool_decide; simpl; naive_solver. Qed.

(** The subjects an identity answers to. *)
Definition subject_of (id : Identity) (subject : string) : Prop :=
  subject = id_Kind id +:+ ":" +:+ id_Name id ∨ subject = id_Kind id +:+ ":*" ∨
  (∃ g, g ∈ id_Groups id ∧ subject = "group:" +:+ g) ∨
  (id_Groups id ≠ [] ∧ subject = "group:*").

Lemma rolesFor_spec p id role :
  role ∈ rolesFor p id ↔ ∃ subject, subject_of id subject ∧ role ∈ bound_to p subject.
Proof.
  unfold rolesFor, subject_of. rewrite !elem_of_app, list_elem_of_join.
  setoid_rewrite list_elem_of_fmap.
  destruct (id_Groups id) as [|g0 gs] eqn:Hg; simpl; [set_solver|].
  split; [|naive_solver]. intros [H|[H|[(x & H & (g & -> & Hin))|H]]]; [eauto|eauto| |].
  - exists ("group:" +:+ g). split; [|done]. right; right; left. eauto.
  - exists "group:*". split; [|done]. right; right; right. done.
Qed.

(** The bootstrap policy, as two finite maps. *)
Lemma default_bindings :
  po_bindings DefaultRBACPolicy = <["agent:*" := [RoleAgent]]> (<["human:admin" := [RoleAdmin]]> ∅).
Proof. vm_compute. reflexivity. Qed.

Lemma default_bound subject role :
  role ∈ bound_to DefaultRBACPolicy subject ↔
  (subject = "agent:*" ∧ role = RoleAgent) ∨ (subject = "human:admin" ∧ role = RoleAdmin).
Proof.
  unfold bound_to. rewrite default_bindings.
  destruct (decide (subject = "agent:*")) as [->|H1].
  - rewrite lookup_insert_eq. simpl. rewrite list_elem_of_singleton. naive_solver.
  - rewrite lookup_insert_ne by done. destruct (decide (subject = "human:admin")) as [->|H2].
    + rewrite lookup_insert_eq. simpl. rewrite list_elem_of_singleton. naive_solver.
    + rewrite lookup_insert_ne, lookup_empty by done. simpl. set_solver.
Qed.

Lemma default_agent_role perm s :
  role_allows DefaultRBACPolicy perm s RoleAgent = (perm == PermPlan) || (perm == PermStatus).
Proof. by destruct perm. Qed.

Lemma agent_not_admin (name : string) gs :
  ¬ subject_of {| id_Kind := "agent"; id_Name := name; id_Groups := gs |} "human:admin".
Proof.
  unfold subject_of; simpl. intros [H|[H|[(g & _ & H)|[_ H]]]]; by discriminate H.
Qed.

(** ** Properties *)

(** Authorization is exact: a request is allowed if and only if one of the
    identity's subjects (its own name, its kind's wildcard, one of its groups,
    or the group wildcard when it has any) is bound to a defined role that has a
    grant for that very permission whose scope covers the request. *)
Theorem Authorize_exact p id perm s :
  Authorize p id perm s = None ↔
  ∃ subject role grants g,
    subject_of id subject ∧ role ∈ bound_to p subject ∧ po_roles p !! role = Some grants ∧
    g ∈ grants ∧ gr_Perm g = perm ∧
    (sc_Env (gr_Scope g) = "" ∨ sc_Env (gr_Scope g) = sc_Env s) ∧
    (sc_TargetRef (gr_Scope g) = "" ∨ sc_TargetRef (gr_Scope g) = sc_TargetRef s).
Proof.
  transitivity (Can p id perm s = true); [unfold Can; by case_match|].
  rewrite Can_spec. setoid_rewrite rolesFor_spec. setoid_rewrite role_allows_spec.
  setoid_rewrite scope_matches_spec. naive_solver.
Qed.

(** Under the bootstrap policy an agent - whatever its name and groups -
    may plan and read status and nothing else: deploying needs a grant an
    operator adds. *)
Theorem default_policy_agents_read_only name groups perm s :
  Can DefaultRBACPolicy {| id_Kind := "agent"; id_Name := name; id_Groups := groups |} perm s = true ↔
  perm = PermPlan ∨ perm = PermStatus.
Proof.
  rewrite Can_spec. setoid_rewrite rolesFor_spec. setoid_rewrite default_bound. split.
  - intros (role & (subject & Hs & [[-> ->]|[-> ->]]) & Ha); [|by apply agent_not_admin in Hs].
    rewrite default_agent_role in Ha. split_bool; eauto.
  - intros Hp. exists RoleAgent. rewrite default_agent_role. split.
    + exists "agent:*". split; [right; by left|by left].
    + by destruct Hp as [-> | ->].
Qed.

(** A command named by a repository's config does not inherit the daemon's
    environment: unless the operator's allow list holds the explicit [*], an
    entry reaches it exactly when it was in the daemon's environment under a
    name that is [PATH], [HOME], [TMPDIR] or on the allow list. *)
Theorem ConfineEnv_exact allowed parentEnv kv :
  (∀ a, a ∈ allowed → TrimSpace a ≠ "*") →
  kv ∈ ConfineEnv allowed parentEnv ↔
  kv ∈ parentEnv ∧
  ∃ name, env_name kv = Some name ∧
    (name ∈ EssentialEnvVars ∨ (name ≠ "" ∧ ∃ a, a ∈ allowed ∧ name = TrimSpace a)).
Proof.
  intros Hstar. unfold ConfineEnv. destruct (existsb _ allowed) eqn:E.
  { apply existsb_exists in E as (a & Ha & Hb). split_bool. apply list_elem_of_In in Ha. by apply Hstar in Ha. }
  rewrite list_elem_of_filter. unfold env_forwarded, env_wanted.
  destruct (env_name kv) as [name|]; [|naive_solver].
  rewrite bool_decide_eq_true, elem_of_list_to_set, elem_of_app, list_elem_of_filter, list_elem_of_fmap.
  naive_solver.
Qed.

Lemma ConfineEnv_exact_witness :
  "KUBECONFIG=/etc/kube" ∈ ConfineEnv [" KUBECONFIG "] ["PATH=/bin"; "ROLLOPS_ADMIN_TOKEN=x"; "KUBECONFIG=/etc/kube"].
Proof.
  apply ConfineEnv_exact.
  - intros a ->%list_elem_of_singleton. by vm_compute.
  - split; [by_decision|]. exists "KUBECONFIG". split; [reflexivity|].
    right. split; [done|]. exists " KUBECONFIG ". split; [by_decision|reflexivity].
Defined.
