(* ===== verification/Provenance.v ===== *)
(** * Artifact verification

    [internal/security]: the cosign signature and blob verifiers ([artifact.go],
    [blob.go]), build provenance ([provenance.go]), the source gate's summary
    ([sourcegate.go]), their chain, and the gate [internal/boot] builds of them.

    The verifiers run the cosign command several times, and a registry may
    answer differently each time: [Run] counts the runs and [cosign n args] is
    what the [n]-th run prints.  JSON decoding and the ed25519 check are the
    operations of the class [Codec], of which nothing is assumed. *)

From S2P Require Import Prelude Encoding Security.

(** ** Statements *)
Definition SLSAPredicateType : string := "https://slsa.dev/provenance/v1".
Definition VSAPredicateType : string := "https://slsa.dev/verification_summary/v1".

Record Subject := { sj_Name : string; sj_Digest : gmap string string }.
Record ResourceDescriptor := { rd_URI : string; rd_Digest : gmap string string }.
Record SourceGate := { sg_Tool : string; sg_Verified : bool; sg_Reproved : bool; sg_Reason : string }.
Record InternalParameters := { ip_Isolated : bool; ip_SourceGate : SourceGate }.
Record BuildDefinition := {
  bd_BuildType : string;
  bd_ResolvedDependencies : list ResourceDescriptor;
  bd_InternalParameters : InternalParameters;
}.
(** [RunDetails] holds a [Builder], which holds its id. *)
Record SLSAPredicate := { sp_BuildDefinition : BuildDefinition; sp_BuilderID : string }.
Record Statement := {
  st_Type : string;
  st_PredicateType : string;
  st_Subject : list Subject;
  st_Predicate : SLSAPredicate;
}.

Record VSA := {
  va_VerifierID : string;
  va_VerifierVersion : gmap string string;
  va_TimeVerified : string;
  va_ResourceURI : string;
  va_PolicyURI : string;
  va_VerificationResult : string;
  va_VerifiedLevels : list string;
}.
Record VSAStatement := { vs_PredicateType : string; vs_Subject : list Subject; vs_Predicate : VSA }.

(** A signature is its key id and its text. *)
Record Envelope := { ev_PayloadType : string; ev_Payload : string; ev_Signatures : list (string * string) }.

Class Codec := {
  json_payload : string → option string;        (* the field [payload] of an envelope *)
  json_statement : string → option Statement;
  json_summary : string → option VSAStatement;
  json_envelope : string → option Envelope;
  ed25519_Verify : string → string → string → bool;   (* key, message, signature *)
}.

(** ** Running cosign *)
Definition Run (A : Type) : Type := nat → A * nat.
#[global] Instance Run_ret : MRet Run := λ A a n, (a, n).
#[global] Instance Run_bind : MBind Run := λ A B k m n, let '(a, n') := m n in k a n'.

(** What an [ArtifactVerifier] answers for a reference. *)
Definition Verdict : Type := (bool * string * option err)%type.
Definition ArtifactVerifier : Type := string → Run Verdict.

Definition newline : Ascii.ascii := char 10.
Definition at_sign : Ascii.ascii := char 64.

Definition lastLine (s : string) : string :=
  TrimSpace (List.last (Split (TrimSpace s) newline) "").
Definition short (sha : string) : string := if (str_len sha <=? 7)%nat then sha else str_take 7 sha.
Definition orUnknown (s : string) : string := if TrimSpace s == "" then "an unnamed builder" else s.

(** The first non-empty text. *)
Definition first_named (l : list string) : string := default "" (head (filter (λ c, c ≠ "") l)).
Definition gitCommit (digest : gmap string string) : string := default "" (digest !! "gitCommit").

Definition SourceCommit (s : Statement) : string :=
  first_named ((λ d, gitCommit (rd_Digest d)) <$> bd_ResolvedDependencies (sp_BuildDefinition (st_Predicate s))).

Definition builderAllowed (id : string) (allowed : list string) : bool :=
  existsb (λ want, if HasSuffix want "@" then HasPrefix id want else id == want) allowed.

(** The lines of an output that start an object. *)
Definition object_lines (out : string) : list string :=
  filter (λ l, HasPrefix l "{" = true) (TrimSpace <$> Split (TrimSpace out) newline).

Definition decodeDSSEPayload (s : string) : result string :=
  match list_find (λ d, is_Some d) ((λ enc, DecodeString enc s) <$> [StdEncoding; RawStdEncoding; URLEncoding; RawURLEncoding]) with
  | Some (_, Some data) => Ok data
  | _ => Err (Errorf "payload is not base64")
  end.

(** ** The verifiers *)
Record CosignVerifier := {
  cv_KeyPath : string;
  cv_CertIdentity : string;
  cv_CertOIDCIssuer : string;
  cv_AllowHTTP : bool;
}.

Record ProvenanceVerifier := {
  pv_KeyPath : string;
  pv_CertIdentity : string;
  pv_CertOIDCIssuer : string;
  pv_AllowHTTP : bool;
  pv_AllowedBuilders : list string;
  pv_RequireReproved : bool;
  pv_AllowMissingSourceCommit : bool;
}.

Record CosignBlobVerifier := {
  cb_KeyPath : string;
  cb_CertIdentity : string;
  cb_CertOIDCIssuer : string;
  cb_SignaturePath : string;
  cb_CertificatePath : string;
  cb_BundlePath : string;
}.

Record SourceGateVerifier := {
  gv_PublicKeys : list string;
  gv_AllowHTTP : bool;
  gv_AllowedVerifiers : list string;
  gv_RequireLevels : list string;
  gv_Provenance : option ProvenanceVerifier;
}.

Definition flag_arg (name value : string) : list string := if value != "" then [name; value] else [].
Definition http_arg (allow : bool) : list string := if allow then ["--allow-http-registry"] else [].

Definition provenance_Configured (p : ProvenanceVerifier) : bool :=
  (pv_KeyPath p != "") || ((pv_CertIdentity p != "") && (pv_CertOIDCIssuer p != "")).

Definition attestation_args (p : ProvenanceVerifier) (ref : string) : list string :=
  ["verify-attestation"; "--type"; SLSAPredicateType] ++ http_arg (pv_AllowHTTP p) ++
  flag_arg "--key" (pv_KeyPath p) ++ flag_arg "--certificate-identity" (pv_CertIdentity p) ++
  flag_arg "--certificate-oidc-issuer" (pv_CertOIDCIssuer p) ++ [ref].

Definition provenance_check (p : ProvenanceVerifier) (stmt : Statement) : bool * string :=
  let builder := sp_BuilderID (st_Predicate stmt) in
  if (length (pv_AllowedBuilders p) =? 0)%nat then
    (true, "provenance from " +:+ orUnknown builder +:+ " (no allowed-builder policy set)")
  else if negb (builderAllowed builder (pv_AllowedBuilders p)) then
    (false, "built by " +:+ orUnknown builder +:+ ", which is not an allowed builder")
  else
    let commit := SourceCommit stmt in
    if (commit == "") && negb (pv_AllowMissingSourceCommit p) then (false, "provenance names no source commit")
    else
      let gate := ip_SourceGate (bd_InternalParameters (sp_BuildDefinition (st_Predicate stmt))) in
      if pv_RequireReproved p && negb (sg_Reproved gate) then
        (false, "source checks were inherited rather than run for this build (" +:+ orUnknown (sg_Reason gate) +:+ ")")
      else
        (true, "built by " +:+ builder +:+ " from " +:+ short commit +:+
               (if sg_Verified gate && negb (sg_Reproved gate) then " (source checks inherited)" else "")).

(** The first item a check accepts, or the detail of the last refusal. *)
Fixpoint first_accepted {A} (check : A → bool * string) (last : string) (l : list A) : bool * string :=
  match l with
  | [] => (false, last)
  | x :: l => let '(ok, detail) := check x in if ok then (true, detail) else first_accepted check detail l
  end.

Definition ErrNoProvenance : err := Errorf "no slsa provenance in the attestation".
Definition errNotASummary : err := Errorf "not a source gate summary".

(** DSSE's framing of what is signed. *)
Definition pae (payloadType payload : string) : string :=
  "DSSEv1 " +:+ pretty (str_len payloadType) +:+ " " +:+ payloadType +:+ " " +:+
  pretty (str_len payload) +:+ " " +:+ payload.

Definition Passed (s : VSAStatement) : bool := EqualFold (va_VerificationResult (vs_Predicate s)) "PASSED".

Definition is_hex (c : Ascii.ascii) : bool :=
  match IndexByte "0123456789abcdefABCDEF" c with Some _ => true | None => false end.
Fixpoint all_hex (s : string) : bool :=
  match s with EmptyString => true | String c s => is_hex c && all_hex s end.
Definition isObjectID (s : string) : bool :=
  if negb ((str_len s =? 40)%nat || (str_len s =? 64)%nat) then false else all_hex s.

(** What follows the last at sign, if there is one. *)
Definition after_last_at (s : string) : option string :=
  if (match IndexByte s at_sign with Some _ => true | None => false end)
  then Some (List.last (Split s at_sign) "") else None.

Definition vsa_SourceCommit (s : VSAStatement) : string :=
  let c := first_named ((λ sub, gitCommit (sj_Digest sub)) <$> vs_Subject s) in
  if c != "" then c
  else match after_last_at (va_ResourceURI (vs_Predicate s)) with
       | Some commit => if isObjectID commit then commit else ""
       | None => ""
       end.

Definition hasLevel (levels : list string) (want : string) : bool := existsb (λ l, EqualFold l want) levels.

Definition gate_Configured (v : SourceGateVerifier) : bool := (0 <? length (gv_PublicKeys v))%nat.

Definition gate_check (v : SourceGateVerifier) (s : VSAStatement) (keyID builtFrom : string) : bool * string :=
  let verifier := va_VerifierID (vs_Predicate s) in
  if (0 <? length (gv_AllowedVerifiers v))%nat && negb (builderAllowed verifier (gv_AllowedVerifiers v)) then
    (false, "source verified by " +:+ orUnknown verifier +:+ ", which is not an allowed gate")
  else if negb (Passed s) then
    (false, "source gate reported " +:+ quote (orUnknown (va_VerificationResult (vs_Predicate s))))
  else match head (filter (λ want, negb (hasLevel (va_VerifiedLevels (vs_Predicate s)) want) = true) (gv_RequireLevels v)) with
  | Some want =>
      (false, "source gate did not reach " +:+ want +:+ " (got [" +:+ Join (va_VerifiedLevels (vs_Predicate s)) " " +:+ "])")
  | None =>
      let commit := vsa_SourceCommit s in
      if commit == "" then (false, "the source summary names no commit")
      else if (builtFrom != "") && (commit != builtFrom) then
        (false, "the source summary is for " +:+ short commit +:+ " but the artifact was built from " +:+ short builtFrom)
      else
        let caveats :=
          (if builtFrom == "" then ["not joined to the build: no provenance to compare against"] else []) ++
          (if (length (gv_AllowedVerifiers v) =? 0)%nat then ["no allowed-gate policy set"] else []) in
        (true, "source gated by " +:+ orUnknown verifier +:+ " at " +:+ short commit +:+ ", signed by " +:+ orUnknown keyID +:+
               (if (0 <? length caveats)%nat then " (" +:+ Join caveats "; " +:+ ")" else ""))
  end.

Section Verify.
Context `{Codec} (cosign : nat → list string → string * option err).

(** [exec.CommandContext "cosign"]. *)
Definition run (args : list string) : Run (string * option err) := λ n, (cosign n args, S n).

Definition cosign_Verify (c : CosignVerifier) : ArtifactVerifier := λ ref,
  '(out, er) ← run (["verify"] ++ http_arg (cv_AllowHTTP c) ++ flag_arg "--key" (cv_KeyPath c) ++
                    flag_arg "--certificate-identity" (cv_CertIdentity c) ++
                    flag_arg "--certificate-oidc-issuer" (cv_CertOIDCIssuer c) ++ [ref]);
  mret (match er with Some _ => (false, TrimSpace out, None) | None => (true, "verified", None) end).

Definition VerifyBlob (c : CosignBlobVerifier) (path : string) : Run Verdict :=
  '(out, er) ← run (["verify-blob"] ++ flag_arg "--key" (cb_KeyPath c) ++
                    flag_arg "--certificate-identity" (cb_CertIdentity c) ++
                    flag_arg "--certificate-oidc-issuer" (cb_CertOIDCIssuer c) ++
                    flag_arg "--signature" (cb_SignaturePath c) ++
                    flag_arg "--certificate" (cb_CertificatePath c) ++
                    flag_arg "--bundle" (cb_BundlePath c) ++ [path]);
  mret (match er with Some _ => (false, TrimSpace out, None) | None => (true, "verified", None) end).

Definition blob_Configured (c : CosignBlobVerifier) : bool :=
  (cb_KeyPath c != "") || (cb_CertIdentity c != "") || (cb_BundlePath c != "") || (cb_SignaturePath c != "").

Definition dssePayloads (out : string) : list string :=
  omap (λ line, payload ← json_payload line;
                match decodeDSSEPayload payload with Ok data => Some data | Err _ => None end)
       (object_lines out).

Definition ParseAttestations (out : string) : result (list Statement) :=
  let found := filter (λ s, st_PredicateType s = SLSAPredicateType) (omap json_statement (dssePayloads out)) in
  if (length found =? 0)%nat then Err ErrNoProvenance else Ok found.

Definition provenance_Verify (p : ProvenanceVerifier) : ArtifactVerifier := λ ref,
  if negb (provenance_Configured p) then
    mret (false, "no cosign key or certificate identity configured for provenance", None)
  else
    '(out, er) ← run (attestation_args p ref);
    mret (match er with
          | Some _ => (false, "no verifiable provenance: " +:+ lastLine out, None)
          | None => match ParseAttestations out with
                    | Err er => (false, err_str er, None)
                    | Ok statements => (first_accepted (provenance_check p) "" statements, None)
                    end
          end).

Definition statements (p : ProvenanceVerifier) (ref : string) : Run (result (list Statement)) :=
  '(out, er) ← run (attestation_args p ref);
  mret (match er with
        | Some _ => Err (Errorf ("provenance unavailable: " +:+ lastLine out))
        | None => ParseAttestations out
        end).

Definition ParseEnvelopes (out : string) : list Envelope :=
  filter (λ e, ev_Payload e ≠ "") (omap json_envelope (object_lines out)).

Definition buildCommit (v : SourceGateVerifier) (ref : string) : Run string :=
  match gv_Provenance v with
  | None => mret ""
  | Some p =>
      r ← statements p ref;
      mret (match r with Err _ => "" | Ok l => first_named (SourceCommit <$> l) end)
  end.

(** The keys of the configuration that are ed25519 keys. *)
Definition gate_keys (v : SourceGateVerifier) : list string :=
  filter (λ key, str_len key = 32%nat)
    (omap (λ encoded, DecodeString StdEncoding (TrimSpace encoded)) (gv_PublicKeys v)).

(** The first signature [key] made over [message], by its key id. *)
Definition signed_by (message : string) (sigs : list (string * string)) (key : string) : option string :=
  head (omap (λ '(keyID, sig),
    raw ← DecodeString StdEncoding sig;
    if ed25519_Verify key message raw then Some keyID else None) sigs).

Definition authenticate (v : SourceGateVerifier) (e : Envelope) : result (VSAStatement * string) :=
  match DecodeString StdEncoding (ev_Payload e) with
  | None => Err (Errorf "source summary payload is not base64")
  | Some payload =>
      match json_summary payload with
      | None => Err (Errorf "source summary is not readable")
      | Some summary =>
          if vs_PredicateType summary != VSAPredicateType then Err errNotASummary
          else if (length (ev_Signatures e) =? 0)%nat then Err (Errorf "the source summary carries no signature")
          else
            let message := pae (ev_PayloadType e) payload in
            match head (omap (signed_by message (ev_Signatures e)) (gate_keys v)) with
            | Some keyID => Ok (summary, keyID)
            | None => Err (Errorf "the source summary is not signed by any configured gate key")
            end
      end
  end.

Fixpoint gate_loop (v : SourceGateVerifier) (builtFrom lastDetail : string) (l : list Envelope) : bool * string :=
  match l with
  | [] => (false, if lastDetail == "" then "no source gate summary on this artifact" else lastDetail)
  | e :: l =>
      match authenticate v e with
      | Err er => gate_loop v builtFrom (if errors_Is er errNotASummary then lastDetail else err_str er) l
      | Ok (summary, keyID) =>
          let '(ok, detail) := gate_check v summary keyID builtFrom in
          if ok then (true, detail) else gate_loop v builtFrom detail l
      end
  end.

Definition gate_Verify (v : SourceGateVerifier) : ArtifactVerifier := λ ref,
  if negb (gate_Configured v) then mret (false, "no source gate public keys configured", None)
  else
    '(out, er) ← run (["download"; "attestation"] ++ http_arg (gv_AllowHTTP v) ++ [ref]);
    match er with
    | Some _ => mret (false, "no source gate summary on this artifact: " +:+ lastLine out, None)
    | None =>
        let envelopes := ParseEnvelopes out in
        if (length envelopes =? 0)%nat then mret (false, "no source gate summary on this artifact", None)
        else
          builtFrom ← buildCommit v ref;
          mret (gate_loop v builtFrom "" envelopes, None)
    end.

(** [ChainVerifier.Verify], with the details gathered so far. *)
Fixpoint chain_loop (verifiers : list ArtifactVerifier) (details : list string) (ref : string) : Run Verdict :=
  match verifiers with
  | [] => mret (if (length details =? 0)%nat then (false, "no verifiers configured", None)
                else (true, Join details "; ", None))
  | v :: verifiers =>
      '(ok, detail, er) ← v ref;
      match er with
      | Some er => mret (false, detail, Some er)
      | None => if negb ok then mret (false, detail, None)
                else chain_loop verifiers (details ++ [detail]) ref
      end
  end.
Definition chain_Verify (verifiers : list ArtifactVerifier) : ArtifactVerifier := chain_loop verifiers [].

(** [ArtifactGate.Check] with a verifier. *)
Definition gate_Check (mode : string) (v : ArtifactVerifier) (ref : string) : Run (option err) :=
  if mode == VerifyOff then mret None
  else '(ok, detail, er) ← v ref;
       mret (artifact_Check mode (Some (match er with Some er => Err er | None => Ok (ok, detail) end)) ref).

(** [artifactGate] of [internal/boot]: its verifiers, in the order they run, and
    the summary for the log.  Empty is the gate that is not installed. *)
Definition boot_authenticated (getenv : string → string) : bool :=
  (getenv "ROLLOPS_COSIGN_KEY" != "") ||
  ((getenv "ROLLOPS_COSIGN_IDENTITY" != "") && (getenv "ROLLOPS_COSIGN_ISSUER" != "")).

Definition boot_cosign (getenv : string → string) : CosignVerifier := {|
  cv_KeyPath := getenv "ROLLOPS_COSIGN_KEY";
  cv_CertIdentity := getenv "ROLLOPS_COSIGN_IDENTITY";
  cv_CertOIDCIssuer := getenv "ROLLOPS_COSIGN_ISSUER";
  cv_AllowHTTP := false |}.

Definition boot_provenance (getenv : string → string) : option ProvenanceVerifier :=
  let builders := parseList (getenv "ROLLOPS_PROVENANCE_BUILDERS") in
  if (0 <? length builders)%nat && boot_authenticated getenv then Some {|
    pv_KeyPath := getenv "ROLLOPS_COSIGN_KEY";
    pv_CertIdentity := getenv "ROLLOPS_COSIGN_IDENTITY";
    pv_CertOIDCIssuer := getenv "ROLLOPS_COSIGN_ISSUER";
    pv_AllowHTTP := false;
    pv_AllowedBuilders := builders;
    pv_RequireReproved := truthy (getenv "ROLLOPS_PROVENANCE_REQUIRE_REPROVED");
    pv_AllowMissingSourceCommit := false |}
  else None.

Definition boot_source_gate (getenv : string → string) : option SourceGateVerifier :=
  let gateKeys := parseList (getenv "ROLLOPS_SOURCE_KEYS") in
  if (0 <? length gateKeys)%nat then Some {|
    gv_PublicKeys := gateKeys;
    gv_AllowHTTP := false;
    gv_AllowedVerifiers := parseList (getenv "ROLLOPS_SOURCE_GATES");
    gv_RequireLevels := parseList (getenv "ROLLOPS_SOURCE_REQUIRE_LEVELS");
    gv_Provenance := boot_provenance getenv |}
  else None.

Definition boot_verifiers (getenv : string → string) : list (ArtifactVerifier * string) :=
  (if boot_authenticated getenv then [(cosign_Verify (boot_cosign getenv), "signature")] else []) ++
  match boot_provenance getenv with
  | Some p => [(provenance_Verify p, "provenance from " +:+ Join (pv_AllowedBuilders p) ", ")]
  | None => []
  end ++
  match boot_source_gate getenv with
  | Some v => [(gate_Verify v,
      if (0 <? length (gv_AllowedVerifiers v))%nat then "source gated by " +:+ Join (gv_AllowedVerifiers v) ", "
      else "source gate signature")]
  | None => []
  end.

Definition artifactGate (getenv : string → string) : option (string * ArtifactVerifier) * string :=
  let verifiers := boot_verifiers getenv in
  if (length verifiers =? 0)%nat then (None, "")
  else (Some (VerifyEnforce, chain_Verify verifiers.*1), "enforcing " +:+ Join verifiers.*2 " + ").
End Verify.

(** ** Facts *)
Lemma head_Some_elem {A} (l : list A) x : head l = Some x → x ∈ l.
Proof. destruct l; simpl; [done|]. intros [= ->]. set_solver. Qed.

Lemma head_not_None {A} (l : list A) x : x ∈ l → ∃ y, head l = Some y.
Proof. destruct l; [by rewrite elem_of_nil|by eexists]. Qed.

Lemma first_named_ne l : first_named l ≠ "" → first_named l ∈ l.
Proof.
  unfold first_named. destruct (head _) as [c|] eqn:E; simpl; [|done].
  intros _. apply head_Some_elem, list_elem_of_filter in E. naive_solver.
Qed.

Lemma first_named_nil l : (∀ c, c ∈ l → c = "") → first_named l = "".
Proof.
  intros Hl. destruct (decide (first_named l = "")) as [|Hn]; [done|]. by apply Hl, first_named_ne.
Qed.

(** When the named texts agree, the first is any of them. *)
Lemma first_named_some l c : c ∈ l → c ≠ "" → first_named l ≠ "".
Proof.
  intros Hc Hne. unfold first_named.
  destruct (head_not_None (filter (λ c, c ≠ "") l) c) as [d Hd]; [by apply list_elem_of_filter|].
  rewrite Hd. apply head_Some_elem, list_elem_of_filter in Hd. naive_solver.
Qed.

Lemma first_accepted_spec {A} (check : A → bool * string) last l :
  (first_accepted check last l).1 = true ↔ ∃ x, x ∈ l ∧ (check x).1 = true.
Proof.
  revert last. induction l as [|x l IH]; intros last; simpl; [set_solver|].
  destruct (check x) as [[] d] eqn:E; simpl.
  - split; [|done]. intros _. exists x. rewrite E. set_solver.
  - rewrite IH. split; [set_solver|]. intros (y & [-> | Hy]%elem_of_cons & Hc); [by rewrite E in Hc|eauto].
Qed.

Lemma builderAllowed_spec id allowed :
  builderAllowed id allowed = true ↔
  ∃ want, want ∈ allowed ∧ (id = want ∨ (HasSuffix want "@" = true ∧ HasPrefix id want = true)).
Proof.
  unfold builderAllowed. rewrite existsb_exists. setoid_rewrite <- list_elem_of_In. split.
  - intros (w & Hw & Hb). exists w. destruct (HasSuffix w "@"); split_bool; naive_solver.
  - intros (w & Hw & [-> | [Hs Hp]]); exists w; (split; [done|]).
    + rewrite bool_decide_eq_true_2 by done. destruct (HasSuffix w "@"); [|done].
      apply HasPrefix_spec. exists "". by rewrite str_app_empty_r.
    + by rewrite Hs.
Qed.

(** *** What each verifier asks of a statement *)
Definition provenance_ok (p : ProvenanceVerifier) (s : Statement) : Prop :=
  pv_AllowedBuilders p = [] ∨
  (builderAllowed (sp_BuilderID (st_Predicate s)) (pv_AllowedBuilders p) = true ∧
   (SourceCommit s ≠ "" ∨ pv_AllowMissingSourceCommit p = true) ∧
   (pv_RequireReproved p = true →
    sg_Reproved (ip_SourceGate (bd_InternalParameters (sp_BuildDefinition (st_Predicate s)))) = true)).

Lemma provenance_check_spec p s : (provenance_check p s).1 = true ↔ provenance_ok p s.
Proof.
  unfold provenance_check, provenance_ok. destruct (builderAllowed _ _);
    destruct (pv_AllowedBuilders p) as [|b bs]; simpl; [naive_solver| |naive_solver..].
  generalize (SourceCommit s) as commit. intros commit. destruct (decide (commit = "")) as [-> | Hc];
    [|rewrite (bool_decide_eq_false_2 _ Hc)];
    destruct (pv_AllowMissingSourceCommit p), (pv_RequireReproved p), (sg_Reproved _); simpl; naive_solver.
Qed.

Definition gate_ok (v : SourceGateVerifier) (s : VSAStatement) (builtFrom : string) : Prop :=
  (gv_AllowedVerifiers v = [] ∨ builderAllowed (va_VerifierID (vs_Predicate s)) (gv_AllowedVerifiers v) = true) ∧
  Passed s = true ∧
  (∀ want, want ∈ gv_RequireLevels v → hasLevel (va_VerifiedLevels (vs_Predicate s)) want = true) ∧
  vsa_SourceCommit s ≠ "" ∧ (builtFrom = "" ∨ vsa_SourceCommit s = builtFrom).

Lemma gate_check_spec v s keyID builtFrom : (gate_check v s keyID builtFrom).1 = true ↔ gate_ok v s builtFrom.
Proof.
  unfold gate_check, gate_ok.
  destruct ((0 <? length (gv_AllowedVerifiers v))%nat && _) eqn:Ha; simpl.
  { destruct (gv_AllowedVerifiers v); [done|]. split_bool. simpl in *. split; [done|]. intros ([] & _); congruence. }
  assert (gv_AllowedVerifiers v = [] ∨ builderAllowed (va_VerifierID (vs_Predicate s)) (gv_AllowedVerifiers v) = true)
    as Hallow by (destruct (gv_AllowedVerifiers v); [by left|right]; apply andb_false_elim in Ha as [|]; [done|by split_bool]).
  destruct (Passed s); simpl; [|naive_solver].
  destruct (head _) as [want|] eqn:Hw; simpl.
  { apply head_Some_elem, list_elem_of_filter in Hw as [Hw Hin]. split_bool. split; [done|].
    intros (_ & _ & Hl & _). apply Hl in Hin. congruence. }
  assert (∀ want, want ∈ gv_RequireLevels v → hasLevel (va_VerifiedLevels (vs_Predicate s)) want = true) as Hlevels.
  { intros want Hin. destruct (hasLevel _ _) eqn:E; [done|].
    destruct (head_not_None (filter (λ want, negb (hasLevel (va_VerifiedLevels (vs_Predicate s)) want) = true)
      (gv_RequireLevels v)) want) as [? Hh]; [|congruence]. apply list_elem_of_filter. by rewrite E. }
  repeat case_bool_decide; simpl; naive_solver.
Qed.

Section VerifyFacts.
Context `{Codec} (cosign : nat → list string → string * option err).

(** [s] is a provenance statement in an output of cosign. *)
Definition attested (out : string) (s : Statement) : Prop :=
  ∃ line text payload,
    line ∈ object_lines out ∧ json_payload line = Some text ∧ decodeDSSEPayload text = Ok payload ∧
    json_statement payload = Some s ∧ st_PredicateType s = SLSAPredicateType.

Lemma elem_of_dssePayloads out payload :
  payload ∈ dssePayloads out ↔
  ∃ line text, line ∈ object_lines out ∧ json_payload line = Some text ∧ decodeDSSEPayload text = Ok payload.
Proof.
  unfold dssePayloads. rewrite list_elem_of_omap. setoid_rewrite bind_Some. split.
  - intros (line & Hl & text & Ht & Hd). exists line, text. destruct (decodeDSSEPayload text); naive_solver.
  - intros (line & text & Hl & Ht & Hd). exists line. split; [done|]. exists text. by rewrite Hd.
Qed.

Lemma ParseAttestations_spec out :
  match ParseAttestations out with
  | Ok l => l ≠ [] ∧ ∀ s, s ∈ l ↔ attested out s
  | Err e => e = ErrNoProvenance ∧ ∀ s, ¬ attested out s
  end.
Proof.
  unfold ParseAttestations. set (found := filter _ _).
  assert (∀ s, s ∈ found ↔ attested out s) as Hf.
  { intros s. unfold found, attested. rewrite list_elem_of_filter, list_elem_of_omap.
    setoid_rewrite elem_of_dssePayloads. naive_solver. }
  destruct found as [|x l]; simpl; [|done]. split; [done|]. intros s Hs. apply Hf in Hs. set_solver.
Qed.

(** Provenance is accepted exactly when cosign authenticates the attestations
    and one of them satisfies the policy. *)
Lemma provenance_exact p ref n :
  (provenance_Verify cosign p ref n).1.1.1 = true ↔
  provenance_Configured p = true ∧
  ∃ out s, cosign n (attestation_args p ref) = (out, None) ∧ attested out s ∧ provenance_ok p s.
Proof.
  unfold provenance_Verify. destruct (provenance_Configured p); simpl; [|naive_solver].
  unfold mbind, Run_bind, run. destruct (cosign n _) as [out [er|]]; simpl; [naive_solver|].
  pose proof (ParseAttestations_spec out) as Hp. destruct (ParseAttestations out) as [l|er].
  - cbn [fst]. rewrite first_accepted_spec. setoid_rewrite provenance_check_spec. destruct Hp as [_ Hp].
    setoid_rewrite Hp. naive_solver.
  - destruct Hp as [_ Hp]. naive_solver.
Qed.

(** [s] is a source summary that one of the configured keys signed. *)
Definition vouched (v : SourceGateVerifier) (e : Envelope) (s : VSAStatement) : Prop :=
  ∃ payload encoded key keyID sig raw,
    DecodeString StdEncoding (ev_Payload e) = Some payload ∧ json_summary payload = Some s ∧
    vs_PredicateType s = VSAPredicateType ∧
    encoded ∈ gv_PublicKeys v ∧ DecodeString StdEncoding (TrimSpace encoded) = Some key ∧ str_len key = 32%nat ∧
    (keyID, sig) ∈ ev_Signatures e ∧ DecodeString StdEncoding sig = Some raw ∧
    ed25519_Verify key (pae (ev_PayloadType e) payload) raw = true.

Lemma elem_of_gate_keys v key :
  key ∈ gate_keys v ↔ str_len key = 32%nat ∧
    ∃ encoded, encoded ∈ gv_PublicKeys v ∧ DecodeString StdEncoding (TrimSpace encoded) = Some key.
Proof. unfold gate_keys. by rewrite list_elem_of_filter, list_elem_of_omap. Qed.

Lemma signed_by_spec message sigs key :
  is_Some (signed_by message sigs key) ↔
  ∃ keyID sig raw, (keyID, sig) ∈ sigs ∧ DecodeString StdEncoding sig = Some raw ∧ ed25519_Verify key message raw = true.
Proof.
  unfold signed_by. split.
  - intros [k Hk]. apply head_Some_elem, list_elem_of_omap in Hk as ([keyID sig] & Hin & Hb).
    apply bind_Some in Hb as (raw & Hr & Hv). exists keyID, sig, raw. by destruct (ed25519_Verify key message raw).
  - intros (keyID & sig & raw & Hin & Hr & Hv). eapply head_not_None, list_elem_of_omap.
    exists (keyID, sig). split; [done|]. by rewrite Hr; simpl; rewrite Hv.
Qed.

Lemma authenticate_spec v e s : (∃ keyID, authenticate v e = Ok (s, keyID)) ↔ vouched v e s.
Proof.
  unfold authenticate, vouched.
  destruct (DecodeString StdEncoding (ev_Payload e)) as [payload|]; [|split; [by intros [? ?]|by intros (? & ? & ? & ? & ? & ? & ? & ?)]].
  destruct (json_summary payload) as [summary|] eqn:Hj;
    [|split; [by intros [? ?]|intros (? & ? & ? & ? & ? & ? & [= <-] & ? & _); congruence]].
  case_bool_decide as Ht; simpl;
    [|split; [by intros [? ?]|intros (? & ? & ? & ? & ? & ? & [= <-] & ? & ? & _); congruence]].
  destruct (ev_Signatures e) as [|sg sigs] eqn:Hs; simpl; [set_solver|]. rewrite <- Hs.
  destruct (head _) as [keyID|] eqn:Hh.
  - apply head_Some_elem, list_elem_of_omap in Hh as (key & Hkey & Hsig).
    apply elem_of_gate_keys in Hkey as (Hlen & encoded & He & Hd).
    destruct (proj1 (signed_by_spec (pae (ev_PayloadType e) payload) (ev_Signatures e) key)) as (k & sig & raw & ? & ? & ?); [by eexists|].
    split.
    + intros (? & [= <- <-]). exists payload, encoded, key, k, sig, raw. done.
    + intros (? & ? & ? & ? & ? & ? & [= <-] & ? & _). exists keyID. congruence.
  - split; [by intros [? ?]|].
    intros (? & encoded & key & k & sig & raw & [= <-] & _ & _ & He & Hd & Hlen & Hin & Hr & Hv).
    destruct (proj2 (signed_by_spec (pae (ev_PayloadType e) payload) (ev_Signatures e) key)) as [y Hy];
      [by exists k, sig, raw|].
    destruct (head_not_None (omap (signed_by (pae (ev_PayloadType e) payload) (ev_Signatures e)) (gate_keys v)) y) as [? Hy'];
      [|congruence]. apply list_elem_of_omap. exists key. split; [|done]. apply elem_of_gate_keys. eauto.
Qed.

Lemma gate_loop_spec v builtFrom last l :
  (gate_loop v builtFrom last l).1 = true ↔ ∃ e s, e ∈ l ∧ vouched v e s ∧ gate_ok v s builtFrom.
Proof.
  revert last. induction l as [|e l IH]; intros last; simpl; [set_solver|].
  assert ((∃ e' s, e' ∈ e :: l ∧ vouched v e' s ∧ gate_ok v s builtFrom) ↔
          (∃ s, vouched v e s ∧ gate_ok v s builtFrom) ∨ (∃ e' s, e' ∈ l ∧ vouched v e' s ∧ gate_ok v s builtFrom)) as ->
    by (setoid_rewrite elem_of_cons; naive_solver).
  setoid_rewrite <- (authenticate_spec v e).
  destruct (authenticate v e) as [[summary keyID]|er].
  - pose proof (gate_check_spec v summary keyID builtFrom) as Hc.
    destruct (gate_check v summary keyID builtFrom) as [[] detail]; simpl in *.
    + split; [|done]. intros _. left. exists summary. split; [by exists keyID|]. by apply Hc.
    + rewrite IH. split; [by right|]. intros [(s & (? & [= <- <-]) & Hok)|Hl]; [|done]. by apply Hc in Hok.
  - rewrite IH. split; [by right|]. intros [(s & (? & ?) & _)|Hl]; done.
Qed.

Definition download_args (v : SourceGateVerifier) (ref : string) : list string :=
  ["download"; "attestation"] ++ http_arg (gv_AllowHTTP v) ++ [ref].

(** The source gate is exact.  An artifact passes if and only if one of the
    envelopes downloaded with it holds a verification summary that a configured
    32-byte key signed, under DSSE's framing of its own payload type, whose
    verifier is allowed, which passed and reached every required level, and
    which names a commit - the commit the build provenance names, when that
    can be had. *)
Theorem source_gate_exact v ref n :
  (gate_Verify cosign v ref n).1.1.1 = true ↔
  ∃ out e s, cosign n (download_args v ref) = (out, None) ∧ e ∈ ParseEnvelopes out ∧
    vouched v e s ∧ gate_ok v s (buildCommit cosign v ref (S n)).1.
Proof.
  unfold gate_Verify. destruct (gate_Configured v) eqn:Hc.
  2:{ split; [done|]. intros (out & e & s & _ & _ & (? & enc & ? & ? & ? & ? & _ & _ & _ & Hin & _) & _).
      unfold gate_Configured in Hc. destruct (gv_PublicKeys v); [set_solver|done]. }
  unfold mbind, Run_bind, run. fold (download_args v ref). cbn [negb]. cbv beta iota.
  destruct (cosign n (download_args v ref)) as [out [er|]]; [split; [done|by intros (? & ? & ? & ? & _)]|].
  destruct (ParseEnvelopes out) as [|e l] eqn:Hp; [split; [done|]; intros (? & ? & ? & [= <-] & Hin & _); rewrite Hp in Hin; set_solver|].
  cbn [length Nat.eqb]. destruct (buildCommit cosign v ref (S n)) as [builtFrom m] eqn:Hb. cbn [fst].
  unfold mret, Run_ret. cbn [fst]. rewrite gate_loop_spec, <- Hp.
  split; [naive_solver|]. intros (? & ? & ? & [= <-] & ?). eauto.
Qed.

End VerifyFacts.

(** *** The chain *)

(** Every verifier accepts, each where the previous one stopped. *)
Fixpoint all_accept (verifiers : list ArtifactVerifier) (ref : string) (n : nat) : Prop :=
  match verifiers with
  | [] => True
  | v :: vs => ∃ detail m, v ref n = (true, detail, None, m) ∧ all_accept vs ref m
  end.

Lemma chain_loop_spec vs details ref n :
  (chain_loop vs details ref n).1.1.1 = true ↔ (vs ≠ [] ∨ details ≠ []) ∧ all_accept vs ref n.
Proof.
  revert details n. induction vs as [|v vs IH]; intros details n; simpl.
  - destruct details; simpl; naive_solver.
  - unfold mbind, Run_bind. destruct (v ref n) as [[[ok detail] [er|]] m] eqn:Hv; simpl; [naive_solver|].
    destruct ok; simpl; [|naive_solver]. rewrite IH. split.
    + intros [_ Ha]. split; [by left|]. eauto.
    + intros [_ (? & ? & [= <- <-] & Ha)]. split; [|done]. right. by destruct details.
Qed.

(** ** The gate of the daemon *)
Section Boot.
Context `{Codec} (cosign : nat → list string → string * option err) (getenv : string → string).

Lemma enforced_only_if_accepted v ref n :
  (gate_Check VerifyEnforce v ref n).1 = None → ∃ detail m, v ref n = (true, detail, None, m).
Proof.
  unfold gate_Check. change (VerifyEnforce == VerifyOff) with false. cbv beta iota.
  unfold mbind, Run_bind. destruct (v ref n) as [[[[] detail] [er|]] m]; [done|by eauto|done..].
Qed.

Lemma boot_provenance_Some p :
  boot_provenance getenv = Some p →
  boot_authenticated getenv = true ∧ pv_AllowedBuilders p = parseList (getenv "ROLLOPS_PROVENANCE_BUILDERS") ∧
  pv_AllowedBuilders p ≠ [] ∧ pv_AllowMissingSourceCommit p = false.
Proof.
  unfold boot_provenance. destruct (parseList _) as [|b bs] eqn:E; simpl; [done|].
  destruct (boot_authenticated getenv); [|done]. by intros [= <-].
Qed.

Lemma boot_source_gate_provenance v :
  boot_source_gate getenv = Some v → gv_Provenance v = boot_provenance getenv.
Proof. unfold boot_source_gate. destruct (0 <? _)%nat; [|done]. by intros [= <-]. Qed.

(** What the daemon's gate admits passed its three verifiers, one after another. *)
Lemma admitted_by_all p v mode verifier log ref n :
  boot_provenance getenv = Some p → boot_source_gate getenv = Some v →
  artifactGate cosign getenv = (Some (mode, verifier), log) → (gate_Check mode verifier ref n).1 = None →
  (cosign_Verify cosign (boot_cosign getenv) ref n).1.1.1 = true ∧
  (provenance_Verify cosign p ref (S n)).1.1.1 = true ∧
  (gate_Verify cosign v ref (S (S n))).1.1.1 = true.
Proof.
  intros Hp Hv. destruct (boot_provenance_Some p Hp) as (Ha & _ & _ & _).
  unfold artifactGate, boot_verifiers. rewrite Ha, Hp, Hv. cbn [app length Nat.eqb fmap list_fmap fst].
  intros [= <- <- <-] (detail & m & Hc)%enforced_only_if_accepted.
  assert ((chain_Verify [cosign_Verify cosign (boot_cosign getenv); provenance_Verify cosign p; gate_Verify cosign v] ref n).1.1.1 = true)
    as [_ Hall]%chain_loop_spec by (unfold chain_Verify in *; by rewrite Hc).
  destruct Hall as (d1 & n1 & H1 & d2 & n2 & H2 & d3 & n3 & H3 & _).
  assert (n1 = S n) as -> by (revert H1; unfold cosign_Verify, mbind, Run_bind, run; destruct (cosign _ _); by intros [= _ <-]).
  assert (n2 = S (S n)) as ->.
  { revert H2. unfold provenance_Verify. destruct (provenance_Configured p); [|done].
    cbn [negb]. unfold mbind, Run_bind, run. cbv beta iota. destruct (cosign _ _). by intros [= _ <-]. }
  by rewrite H1, H2, H3.
Qed.

(** The commit a build is joined to, when cosign answers the second question for
    the provenance and some statement of that answer names a commit: the commit
    of one of them, which is [c] when they all name [c]. *)
Lemma joined_commit v p ref n s : gv_Provenance v = Some p →
  let again := cosign n (attestation_args p ref) in
  again.2 = None → attested again.1 s → SourceCommit s ≠ "" →
  ∃ s', attested again.1 s' ∧ SourceCommit s' ≠ "" ∧ (buildCommit cosign v ref n).1 = SourceCommit s'.
Proof.
  intros Hp again He Hs Hn. unfold buildCommit. rewrite Hp. unfold statements, mbind, Run_bind, run.
  fold again. destruct again as [out er]. cbn [fst snd] in *. subst er. cbn [fst mret Run_ret].
  pose proof (ParseAttestations_spec out) as Hl. destruct (ParseAttestations out) as [l|er].
  2:{ destruct Hl as [_ Hl]. by apply Hl in Hs. }
  destruct Hl as [_ Hl]. assert (first_named (SourceCommit <$> l) ≠ "") as Hne.
  { eapply first_named_some; [|exact Hn]. apply list_elem_of_fmap. exists s. split; [done|]. by apply Hl. }
  apply first_named_ne in Hne as Hin. apply list_elem_of_fmap in Hin as (s' & E & Hs').
  exists s'. rewrite <- E. split_and!; [by apply Hl|done|done].
Qed.

End Boot.

(** ** Texts *)

(** A payload is read whichever base64 its producer used: for each of the
    four encodings the sources try, and although they are tried in a fixed
    order, the bytes that come back are the bytes that were encoded. *)
Theorem payload_decodes_in_any_alphabet enc payload :
  decodeDSSEPayload (EncodeToString enc payload) = Ok payload.
Proof.
  unfold decodeDSSEPayload. pose proof (DecodeString_EncodeToString enc payload) as Hd.
  destruct (list_find _ _) as [[i d]|] eqn:E.
  - apply list_find_Some in E as (Hi & [data ->] & _).
    apply list_lookup_fmap_Some in Hi as (enc' & Hdec & _). f_equal.
    eapply DecodeString_agree; [symmetry; exact Hdec|exact Hd].
  - exfalso. apply list_find_None in E. rewrite Forall_forall in E. apply (E (Some payload)); [|by eexists].
    rewrite <- Hd. apply list_elem_of_fmap. exists enc. split; [done|].
    destruct enc as [[] []]; unfold StdEncoding, RawStdEncoding, URLEncoding, RawURLEncoding; set_solver.
Qed.

(** What the gate signs fixes both the media type and the payload: two
    framings are equal only when both are, so a signature over one payload is
    no signature over it under another type, nor over another payload. *)
Theorem pae_injective t t' p p' : pae t p = pae t' p' ↔ t = t' ∧ p = p'.
Proof.
  split; [|by intros [-> ->]].
  unfold pae. intros Heq. apply (str_app_inj_length "DSSEv1 " "DSSEv1 ") in Heq as [_ Heq]; [|done].
  apply (cut_at_space (pretty (str_len t)) (pretty (str_len t'))) in Heq as [Hlen Heq];
    [|apply no_space_pretty..].
  apply (inj pretty) in Hlen. apply str_app_inj_length in Heq as [-> Heq]; [|done]. split; [done|].
  apply (str_app_inj_length " " " ") in Heq as [_ Heq]; [|done].
  by apply (cut_at_space (pretty (str_len p)) (pretty (str_len p'))) in Heq as [_ Heq]; [|apply no_space_pretty..].
Qed.

(** ** A registry to evaluate on

    Provenance [A] is by another builder from commit [good], [B] by the allowed
    builder from commit [bad]; the gate's summary is for the commit given. *)
Module Demo.

Definition good : string := "0123456789012345678901234567890123456789".
Definition bad : string := "9999999999999999999999999999999999999999".
Definition gate_key : string := "abcdefghabcdefghabcdefghabcdefgh".

Definition statement (builder commit : string) : Statement := {|
  st_Type := ""; st_PredicateType := SLSAPredicateType; st_Subject := [];
  st_Predicate := {| sp_BuilderID := builder; sp_BuildDefinition := {|
    bd_BuildType := ""; bd_ResolvedDependencies := [{| rd_URI := ""; rd_Digest := {["gitCommit" := commit]} |}];
    bd_InternalParameters := {| ip_Isolated := true; ip_SourceGate :=
      {| sg_Tool := ""; sg_Verified := true; sg_Reproved := true; sg_Reason := "" |} |} |} |} |}.

Definition summary (commit : string) : VSAStatement := {|
  vs_PredicateType := VSAPredicateType; vs_Subject := [];
  vs_Predicate := {| va_VerifierID := "warden"; va_VerifierVersion := ∅; va_TimeVerified := "";
    va_ResourceURI := "git+https://host/o/r@" +:+ commit; va_PolicyURI := ""; va_VerificationResult := "passed";
    va_VerifiedLevels := ["WARDEN_SOURCE_SIGNED"] |} |}.

Definition signature : string := EncodeToString StdEncoding ("sig of " +:+ pae "application/json" "S").
Definition envelope : Envelope := {|
  ev_PayloadType := "application/json"; ev_Payload := EncodeToString StdEncoding "S";
  ev_Signatures := [("warden-1", signature)] |}.

(** An object is its first letter; a signature is a copy of the message. *)
#[local] Instance codec (commit : string) : Codec := {
  json_payload := λ line, Some (EncodeToString URLEncoding (str_drop 1 line));
  json_statement := λ payload,
    if payload == "A" then Some (statement "other" good)
    else if payload == "B" then Some (statement "kiln@v1" bad) else None;
  json_summary := λ _, Some (summary commit);
  json_envelope := λ _, Some envelope;
  ed25519_Verify := λ key message sig, (key == gate_key) && (sig == ("sig of " +:+ message));
}.

Definition cosign (provenance : string) (n : nat) (args : list string) : string * option err :=
  match head args with
  | Some command => if command == "verify-attestation" then (provenance, None) else ("{S", None)
  | None => ("", None)
  end.

Definition getenv (name : string) : string :=
  if name == "ROLLOPS_COSIGN_KEY" then "cosign.pub"
  else if name == "ROLLOPS_PROVENANCE_BUILDERS" then "kiln@"
  else if name == "ROLLOPS_SOURCE_GATES" then "warden"
  else if name == "ROLLOPS_SOURCE_KEYS" then EncodeToString StdEncoding gate_key
  else if name == "ROLLOPS_SOURCE_REQUIRE_LEVELS" then "warden_source_signed"
  else "".

Definition admitted (provenance commit : string) : bool :=
  match @artifactGate (codec commit) (cosign provenance) getenv with
  | (Some (mode, verifier), _) => match (gate_Check mode verifier "img@sha256:1" 0%nat).1 with None => true | Some _ => false end
  | (None, _) => false
  end.

Definition both : string := "{A" +:+ String newline "{B".

(** One statement is joined: the summary of the other commit is refused.  With
    two statements the join is to the first that names a commit, which need not
    be the one whose builder is allowed. *)
Example join_is_to_the_first_statement :
  admitted "{B" bad = true ∧ admitted "{B" good = false ∧
  admitted both good = true ∧ admitted both bad = false.
Proof. vm_compute. auto. Qed.

Definition provenance_verifier : ProvenanceVerifier := {|
  pv_KeyPath := "cosign.pub"; pv_CertIdentity := ""; pv_CertOIDCIssuer := ""; pv_AllowHTTP := false;
  pv_AllowedBuilders := ["kiln@"]; pv_RequireReproved := false; pv_AllowMissingSourceCommit := false |}.
Definition gate_verifier : SourceGateVerifier := {|
  gv_PublicKeys := [EncodeToString StdEncoding gate_key]; gv_AllowHTTP := false;
  gv_AllowedVerifiers := ["warden"]; gv_RequireLevels := ["warden_source_signed"];
  gv_Provenance := Some provenance_verifier |}.

Lemma attested_B (s : Statement) : @attested (codec bad) "{B" s → s = statement "kiln@v1" bad.
Proof.
  intros (line & text & payload & Hl & [= <-] & Hd & Hj & _).
  assert (object_lines "{B" = ["{B"]) as Ho by done. rewrite Ho in Hl.
  apply list_elem_of_singleton in Hl as ->. vm_compute in Hd. injection Hd as <-. by injection Hj as <-.
Qed.

End Demo.
