(* ===== verification/Auth.v ===== *)
(** * Who is calling

    The authenticators of [internal/api]: bearer tokens ([server.go],
    [swappable.go]) and OIDC tokens ([oidc.go]), and the keys of a JSON Web Key
    Set ([jwks.go]; the cache is in [Jwks]).  Hashes, signature checks, JSON
    decoding and the curves' membership test are the operations of [Crypto]. *)

From S2P Require Import Prelude GoTime Encoding Model Security.

Inductive Curve := P256 | P384 | P521.
#[global] Instance Curve_eq_dec : EqDecision Curve.
Proof. solve_decision. Defined.

(** [Params().BitSize]. *)
Definition BitSize (c : Curve) : Z := match c with P256 => 256 | P384 => 384 | P521 => 521 end.

(** A [crypto.PublicKey]: an RSA modulus and exponent, or a point of a curve. *)
Inductive PublicKey :=
| RSAKey (N E : Z)
| ECKey (curve : Curve) (point : string).
#[global] Instance PublicKey_eq_dec : EqDecision PublicKey.
Proof. solve_decision. Defined.

Record oidcHeader := { oh_Alg : string; oh_Typ : string; oh_Kid : string }.

(** The [aud] claim: a string, an array (whose items may be strings), or else. *)
Inductive audience := AudString (s : string) | AudArray (items : list (option string)) | AudOther.

Record oidcClaims := {
  oc_Issuer : string;
  oc_Sub : string;
  oc_Audience : audience;
  oc_Expiry : Z;
  oc_Email : string;
  oc_PreferredUsername : string;
  oc_Groups : list string;
}.

Record jwk := {
  jk_Kid : string;
  jk_Kty : string;
  jk_Crv : string;
  jk_N : string;
  jk_E : string;
  jk_X : string;
  jk_Y : string;
}.

Class Crypto := {
  sha256 : string → string;
  hash : Z → string → string;                       (* SHA-2 with the given size *)
  hmac_sha256 : string → string → string;           (* key, message *)
  rsa_VerifyPKCS1v15 : Z → Z → Z → string → string → option err;  (* N, E, size, digest, signature *)
  ecdsa_Verify : Curve → string → string → Z → Z → bool;   (* curve, point, digest, r, s *)
  on_curve : Curve → string → option err;           (* [ecdsa.ParseUncompressedPublicKey] *)
  json_header : string → result oidcHeader;
  json_claims : string → result oidcClaims;
  json_jwks : string → result (list jwk);
  json_discovery : string → result string;          (* the field [jwks_uri] *)
}.

(** ** Bearer tokens *)
Definition TokenAuth := gmap string Identity.

Section Auth.
Context `{Crypto}.

(** [TokenAuth.Identify]: every entry is compared, the last match stays. *)
Definition token_Identify (t : TokenAuth) (token : string) : option Identity :=
  if token == "" then None
  else foldl (λ found '(known, id), if sha256 token == sha256 known then Some id else found) None (map_to_list t).

(** [ChainAuth.Identify] over any authenticators. *)
Fixpoint chain_Identify (c : list (string → option Identity)) (token : string) : option Identity :=
  match c with
  | [] => None
  | a :: c => match a token with Some id => Some id | None => chain_Identify c token end
  end.

(** ** OIDC tokens *)
Record OIDCConfig := {
  oi_Issuer : string;
  oi_Audience : string;
  oi_HMACSecret : string;
  oi_Keys : option (string → result PublicKey);   (* [Keys.Key] at this call *)
}.

Definition dot : Ascii.ascii := char 46.

Definition decodeJWT {A} (decode : string → result A) (part : string) : result A :=
  match DecodeString RawURLEncoding part with
  | None => Err (Errorf "illegal base64 data")
  | Some b => decode b
  end.

(** [hmac.Equal] compares contents. *)
Definition validHMAC (signed sig secret : string) : bool :=
  if secret == "" then false
  else match DecodeString RawURLEncoding sig with
       | None => false
       | Some got => got == hmac_sha256 secret signed
       end.

Definition hashFor (alg : string) : Z :=
  let size := str_drop 2 alg in if size == "384" then 384 else if size == "512" then 512 else 256.

(** [big.Int.SetBytes]: big endian. *)
Definition SetBytes (s : string) : Z := foldl (λ n c, n * 256 + byte c) 0 (String.list_ascii_of_string s).

Definition coord_size (c : Curve) : nat := Z.to_nat ((BitSize c + 7) / 8).

Definition key_type (k : PublicKey) : string :=
  match k with RSAKey _ _ => "*rsa.PublicKey" | ECKey _ _ => "*ecdsa.PublicKey" end.

Definition verifyAsymmetric (alg signingInput sigB64 : string) (key : PublicKey) : option err :=
  match DecodeString RawURLEncoding sigB64 with
  | None => Some (Wrap "oidc: decode signature: " (Errorf "illegal base64 data") "")
  | Some sig =>
      let digest := hash (hashFor alg) signingInput in
      if str_take 2 alg == "RS" then
        match key with
        | RSAKey N E =>
            match rsa_VerifyPKCS1v15 N E (hashFor alg) digest sig with
            | Some er => Some (Wrap ("oidc: " +:+ alg +:+ " verification failed: ") er "")
            | None => None
            end
        | _ => Some (Errorf ("oidc: " +:+ alg +:+ " token but key is " +:+ key_type key))
        end
      else if str_take 2 alg == "ES" then
        match key with
        | ECKey curve point =>
            let n := coord_size curve in
            if negb (str_len sig =? 2 * n)%nat then
              Some (Errorf ("oidc: " +:+ alg +:+ " signature length " +:+ pretty (str_len sig) +:+ ", want " +:+ pretty (2 * n)%nat))
            else if negb (ecdsa_Verify curve point digest (SetBytes (str_take n sig)) (SetBytes (str_drop n sig))) then
              Some (Errorf ("oidc: " +:+ alg +:+ " verification failed"))
            else None
        | _ => Some (Errorf ("oidc: " +:+ alg +:+ " token but key is " +:+ key_type key))
        end
      else Some (Errorf ("oidc: unsupported alg " +:+ alg))
  end.

Definition asymmetric_algs : list string := ["RS256"; "RS384"; "RS512"; "ES256"; "ES384"; "ES512"].

Definition verifySignature (h : oidcHeader) (signingInput sig : string) (cfg : OIDCConfig) : option err :=
  if oh_Alg h == "HS256" then
    if negb (validHMAC signingInput sig (oi_HMACSecret cfg)) then Some (Errorf "oidc: invalid HS256 signature") else None
  else if bool_decide (oh_Alg h ∈ asymmetric_algs) then
    match oi_Keys cfg with
    | None => Some (Errorf ("oidc: alg " +:+ oh_Alg h +:+ " requires a JWKS key source"))
    | Some keys =>
        match keys (oh_Kid h) with
        | Err er => Some er
        | Ok key => verifyAsymmetric (oh_Alg h) signingInput sig key
        end
    end
  else Some (Errorf ("oidc: unsupported alg " +:+ oh_Alg h)).

Definition audienceContains (raw : audience) (want : string) : bool :=
  match raw with
  | AudString v => v == want
  | AudArray v => existsb (λ item, match item with Some s => s == want | None => false end) v
  | AudOther => false
  end.

Definition firstNonEmpty (vals : list string) : string := default "" (head (filter (λ v, v ≠ "") vals)).

(** [OIDCAuth.claims] at the instant [now]. *)
Definition claims (cfg : OIDCConfig) (now : Time) (token : string) : result oidcClaims :=
  match Split token dot with
  | [p0; p1; p2] =>
      try h <- decodeJWT json_header p0;
      match verifySignature h (p0 +:+ "." +:+ p1) p2 cfg with
      | Some er => Err er
      | None =>
          try c <- decodeJWT json_claims p1;
          if oc_Issuer c != oi_Issuer cfg then Err (Errorf "oidc: issuer mismatch")
          else if negb (audienceContains (oc_Audience c) (oi_Audience cfg)) then Err (Errorf "oidc: audience mismatch")
          else if oc_Expiry c <=? now / 1000000000 then Err (Errorf "oidc: token expired")
          else Ok c
      end
  | _ => Err (Errorf "oidc: malformed token")
  end.

Definition claimed_name (c : oidcClaims) : string :=
  firstNonEmpty [oc_PreferredUsername c; oc_Email c; oc_Sub c].

Definition oidc_Identify (cfg : OIDCConfig) (now : Time) (token : string) : option Identity :=
  match claims cfg now token with
  | Err _ => None
  | Ok c =>
      let name := claimed_name c in
      if name == "" then None
      else Some {| id_Kind := "human"; id_Name := name; id_Groups := oc_Groups c |}
  end.

(** ** Keys of a key set *)

(** [int] arithmetic wraps at 64 bits. *)
Definition wrap64 (n : Z) : Z := (n + 2 ^ 63) mod 2 ^ 64 - 2 ^ 63.

Definition exponent (eb : string) : Z :=
  foldl (λ e c, wrap64 (Z.lor (Z.shiftl e 8) (byte c))) 0 (String.list_ascii_of_string eb).

Definition b64u (what s : string) : result string :=
  match DecodeString RawURLEncoding s with
  | None => Err (Wrap what (Errorf "illegal base64 data") "")
  | Some b => Ok b
  end.

Definition curveFor (crv : string) : result Curve :=
  if crv == "P-256" then Ok P256 else if crv == "P-384" then Ok P384 else if crv == "P-521" then Ok P521
  else Err (Errorf ("oidc: unsupported EC curve " +:+ quote crv)).

Fixpoint zeros (n : nat) : string := match n with O => "" | S n => String (char 0) (zeros n) end.

Definition b64uCoord (what s : string) (size : nat) : result string :=
  try b <- b64u what s;
  if (size <? str_len b)%nat then
    Err (Wrap what (Errorf ("coordinate is " +:+ pretty (str_len b) +:+ " bytes, want at most " +:+ pretty size)) "")
  else Ok (zeros (size - str_len b) +:+ b).

Definition ecPublicKey (curve : Curve) (xs ys : string) : result PublicKey :=
  let size := coord_size curve in
  try x <- b64uCoord "oidc: jwk EC x: " xs size;
  try y <- b64uCoord "oidc: jwk EC y: " ys size;
  let buf := String (char 4) (x +:+ y) in
  match on_curve curve buf with
  | Some er => Err (Wrap "oidc: jwk EC point: " er "")
  | None => Ok (ECKey curve buf)
  end.

Definition publicKey (k : jwk) : result PublicKey :=
  if jk_Kty k == "RSA" then
    try n <- b64u "oidc: jwk RSA n: " (jk_N k);
    try eb <- b64u "oidc: jwk RSA e: " (jk_E k);
    let e := exponent eb in
    if e =? 0 then Err (Errorf "oidc: jwk RSA exponent is zero") else Ok (RSAKey (SetBytes n) e)
  else if jk_Kty k == "EC" then
    try curve <- curveFor (jk_Crv k);
    ecPublicKey curve (jk_X k) (jk_Y k)
  else Err (Errorf ("oidc: unsupported jwk kty " +:+ quote (jk_Kty k))).

Fixpoint parse_keys (out : gmap string PublicKey) (l : list jwk) : result (gmap string PublicKey) :=
  match l with
  | [] => Ok out
  | k :: l => try pub <- publicKey k; parse_keys (<[jk_Kid k := pub]> out) l
  end.

Definition parseJWKS (body : string) : result (gmap string PublicKey) :=
  match json_jwks body with
  | Err er => Err (Wrap "oidc: parse JWKS: " er "")
  | Ok keys =>
      try out <- parse_keys ∅ keys;
      if bool_decide (size out = 0%nat) then Err (Errorf "oidc: empty JWKS") else Ok out
  end.
End Auth.

(** ** Rotation of tokens: [SwappableTokenAuth]; [None] is the nil map. *)
Definition Replace (current : TokenAuth) (auth : option TokenAuth) : TokenAuth := default ∅ auth.
Definition swappable_Identify `{Crypto} (current : option TokenAuth) (token : string) : option Identity :=
  match current with None => None | Some t => token_Identify t token end.

(** ** Facts *)

(** The last match of a list in which any two matches have the same value. *)
Lemma foldl_match_unique {A B} (P : A → bool) (f : A → B) (l : list A) acc b :
  (∀ x, x ∈ l → P x = true → f x = b) →
  foldl (λ found x, if P x then Some (f x) else found) acc l =
  if existsb P l then Some b else acc.
Proof.
  revert acc. induction l as [|x l IH]; intros acc Hu; simpl; [done|].
  rewrite IH by set_solver. destruct (P x) eqn:E; simpl; [|done].
  rewrite (Hu x) by set_solver. by destruct (existsb P l).
Qed.

Section AuthFacts.
Context `{Crypto}.

(** A bearer token identifies exactly the identity it is configured for.
    Tokens are compared by their digests, entry by entry; while no configured
    token collides with the presented one, that is the lookup it replaces, and
    the empty token is no credential even if the map has it. *)
Theorem token_identifies_its_owner (t : TokenAuth) token id :
  (∀ known, is_Some (t !! known) → sha256 known = sha256 token → known = token) →
  token_Identify t token = Some id ↔ token ≠ "" ∧ t !! token = Some id.
Proof.
  intros Hinj. unfold token_Identify. case_bool_decide as Hempty; [naive_solver|].
  set (P := λ kv : string * Identity, bool_decide (sha256 token = sha256 kv.1)).
  assert (∀ kv, kv ∈ map_to_list t → P kv = true → kv.1 = token) as HP.
  { intros [known i] Hin Hp. apply elem_of_map_to_list in Hin. apply bool_decide_eq_true in Hp. simpl in *.
    by apply Hinj. }
  assert (∀ l acc, foldl (λ found '(known, id), if sha256 token == sha256 known then Some id else found) acc l =
                   foldl (λ found kv, if P kv then Some kv.2 else found) acc l) as ->
    by (intros l; induction l as [|[] l IH]; intros acc; simpl; [done|apply IH]).
  destruct (t !! token) as [i|] eqn:Hl.
  - rewrite (foldl_match_unique P snd _ None i).
    + assert (existsb P (map_to_list t) = true) as ->; [|naive_solver].
      apply existsb_exists. exists (token, i). split; [by apply list_elem_of_In, elem_of_map_to_list|].
      by apply bool_decide_eq_true.
    + intros [known j] Hin Hp. pose proof (HP _ Hin Hp) as Hk. simpl in *. subst known.
      apply elem_of_map_to_list in Hin. by pose proof (eq_trans (eq_sym Hin) Hl); simplify_eq.
  - rewrite (foldl_match_unique P snd _ None id).
    + assert (existsb P (map_to_list t) = false) as ->; [|naive_solver].
      apply not_true_iff_false. intros ([known j] & Hin & Hp)%existsb_exists.
      apply list_elem_of_In in Hin. pose proof (HP _ Hin Hp) as Hk. simpl in Hk. subst known.
      apply elem_of_map_to_list in Hin. by pose proof (eq_trans (eq_sym Hin) Hl); simplify_eq.
    + intros [known j] Hin Hp. pose proof (HP _ Hin Hp) as Hk. simpl in *. subst known.
      apply elem_of_map_to_list in Hin. by pose proof (eq_trans (eq_sym Hin) Hl); simplify_eq.
Qed.

(** What a signature of a token rests on. *)
Definition signed_with_configured_key (cfg : OIDCConfig) (h : oidcHeader) (input sig : string) : Prop :=
  (oh_Alg h = "HS256" ∧ oi_HMACSecret cfg ≠ "" ∧
   DecodeString RawURLEncoding sig = Some (hmac_sha256 (oi_HMACSecret cfg) input)) ∨
  (∃ keys key raw size, oi_Keys cfg = Some keys ∧ keys (oh_Kid h) = Ok key ∧
   DecodeString RawURLEncoding sig = Some raw ∧
   size ∈ [256; 384; 512] ∧
   match key with
   | RSAKey N E => oh_Alg h = "RS" +:+ pretty size ∧ rsa_VerifyPKCS1v15 N E size (hash size input) raw = None
   | ECKey curve point =>
       oh_Alg h = "ES" +:+ pretty size ∧ str_len raw = (2 * coord_size curve)%nat ∧
       ecdsa_Verify curve point (hash size input)
         (SetBytes (str_take (coord_size curve) raw)) (SetBytes (str_drop (coord_size curve) raw)) = true
   end).

Lemma validHMAC_spec signed sig secret :
  validHMAC signed sig secret = true ↔
  secret ≠ "" ∧ DecodeString RawURLEncoding sig = Some (hmac_sha256 secret signed).
Proof.
  unfold validHMAC. case_bool_decide as Hs; [naive_solver|].
  destruct (DecodeString RawURLEncoding sig); [|naive_solver]. rewrite bool_decide_eq_true. naive_solver.
Qed.

(** The names of the asymmetric algorithms, taken apart. *)
Lemma asymmetric_alg alg :
  alg ∈ asymmetric_algs ↔ ∃ size, size ∈ [256; 384; 512] ∧ (alg = "RS" +:+ pretty size ∨ alg = "ES" +:+ pretty size).
Proof.
  split.
  - intros Ha. unfold asymmetric_algs in Ha. repeat (apply elem_of_cons in Ha as [-> | Ha]);
      [exists 256|exists 384|exists 512|exists 256|exists 384|exists 512|by apply elem_of_nil in Ha];
      (split; [set_solver|]); ((left; reflexivity) || (right; reflexivity)).
  - intros (size & Hs & Ha). repeat (apply elem_of_cons in Hs as [-> | Hs]); [..|by apply elem_of_nil in Hs];
      destruct Ha as [-> | ->]; by_decision.
Qed.

Lemma alg_parts (family : string) size :
  str_len family = 2%nat → size ∈ [256; 384; 512] →
  hashFor (family +:+ pretty size) = size ∧ str_take 2 (family +:+ pretty size) = family.
Proof.
  intros Hl Hs. destruct family as [|a [|b [|]]]; try done.
  repeat (apply elem_of_cons in Hs as [-> | Hs]); [..|by apply elem_of_nil in Hs]; done.
Qed.

Lemma verifyAsymmetric_RS size input sig key : size ∈ [256; 384; 512] →
  verifyAsymmetric ("RS" +:+ pretty size) input sig key = None ↔
  ∃ N E raw, key = RSAKey N E ∧ DecodeString RawURLEncoding sig = Some raw ∧
    rsa_VerifyPKCS1v15 N E size (hash size input) raw = None.
Proof.
  intros Hs. unfold verifyAsymmetric. destruct (alg_parts "RS" size) as [-> ->]; [done..|].
  change ("RS" == "RS") with true. cbv beta iota.
  destruct (DecodeString RawURLEncoding sig) as [raw|]; [|split; [done|by intros (? & ? & ? & _ & ? & _)]].
  destruct key as [N E|curve point]; [|split; [done|by intros (? & ? & ? & ? & _)]].
  destruct (rsa_VerifyPKCS1v15 _ _ _ _ _) eqn:Hr; split; try done.
  - intros (? & ? & ? & [= <- <-] & [= <-] & ?). congruence.
  - intros _. eauto 10.
Qed.

Lemma verifyAsymmetric_ES size input sig key : size ∈ [256; 384; 512] →
  verifyAsymmetric ("ES" +:+ pretty size) input sig key = None ↔
  ∃ curve point raw, key = ECKey curve point ∧ DecodeString RawURLEncoding sig = Some raw ∧
    str_len raw = (2 * coord_size curve)%nat ∧
    ecdsa_Verify curve point (hash size input)
      (SetBytes (str_take (coord_size curve) raw)) (SetBytes (str_drop (coord_size curve) raw)) = true.
Proof.
  intros Hs. unfold verifyAsymmetric. destruct (alg_parts "ES" size) as [-> ->]; [done..|].
  change ("ES" == "RS") with false. change ("ES" == "ES") with true. cbv beta iota.
  destruct (DecodeString RawURLEncoding sig) as [raw|]; [|split; [done|by intros (? & ? & ? & _ & ? & _)]].
  destruct key as [N E|curve point]; [split; [done|by intros (? & ? & ? & ? & _)]|].
  destruct (Nat.eqb_spec (str_len raw) (2 * coord_size curve)) as [Hl|Hl]; cbn [negb]; cbv beta iota.
  2:{ split; [done|]. intros (? & ? & ? & [= <- <-] & [= <-] & ? & _). congruence. }
  destruct (ecdsa_Verify _ _ _ _ _) eqn:Hv; cbn [negb]; split; try done.
  - intros _. eauto 10.
  - intros (? & ? & ? & [= <- <-] & [= <-] & ? & ?). congruence.
Qed.

Lemma verifySignature_spec h input sig cfg :
  verifySignature h input sig cfg = None ↔ signed_with_configured_key cfg h input sig.
Proof.
  unfold verifySignature, signed_with_configured_key. case_bool_decide as Hh.
  { rewrite Hh. pose proof (validHMAC_spec input sig (oi_HMACSecret cfg)) as Hv. split.
    - intros Hn. left. split; [done|]. apply Hv. by destruct (validHMAC _ _ _).
    - intros [(_ & Hs)|(? & [] & ? & size & _ & _ & _ & Hs & Ha & _)]; [by apply Hv in Hs as ->|done..]. }
  case_bool_decide as Ha.
  2:{ split; [done|]. intros [(? & _)|(? & key & ? & size & _ & _ & _ & Hs & Hk)]; [done|].
      exfalso. apply Ha, asymmetric_alg. exists size. split; [done|]. destruct key; [left|right]; apply Hk. }
  apply asymmetric_alg in Ha as (size & Hs & Ha).
  destruct (oi_Keys cfg) as [keys|]; [|split; [done|]; intros [(? & _)|(? & ? & ? & ? & ? & _)]; done].
  destruct (keys (oh_Kid h)) as [key|er] eqn:Hkey.
  2:{ split; [done|]. intros [(? & _)|(? & ? & ? & ? & [= <-] & ? & _)]; [done|congruence]. }
  split.
  - intros Hv. right. exists keys, key. destruct Ha as [Ha|Ha]; rewrite Ha in *.
    + apply verifyAsymmetric_RS in Hv as (N & E & raw & -> & ? & ?); [|done]. by exists raw, size.
    + apply verifyAsymmetric_ES in Hv as (curve & point & raw & -> & ? & ? & ?); [|done]. by exists raw, size.
  - intros [(? & _)|(? & key' & raw & size' & [= <-] & Hkey' & Hraw & Hs' & Hk)]; [done|].
    assert (key' = key) as -> by congruence. destruct key as [N E|curve point].
    + destruct Hk as [-> Hr]. apply verifyAsymmetric_RS; [done|]. by exists N, E, raw.
    + destruct Hk as (-> & Hl & Hv). apply verifyAsymmetric_ES; [done|]. by exists curve, point, raw.
Qed.

(** C32. An OIDC token identifies a caller if and only if it has three parts
    whose signature is made over the first two with a key the operator
    configured - the shared secret when there is one for HS256, or a key of the
    provider whose type the algorithm names for RS* and ES* - and its claims are
    of the configured issuer, for the configured audience, not yet expired, and
    name somebody.  In particular no token without a signature is accepted, and
    no HS256 token while there is no secret. *)
Theorem oidc_identity_is_signed cfg now token id :
  oidc_Identify cfg now token = Some id ↔
  ∃ p0 p1 p2 h c,
    Split token dot = [p0; p1; p2] ∧
    decodeJWT json_header p0 = Ok h ∧ signed_with_configured_key cfg h (p0 +:+ "." +:+ p1) p2 ∧
    decodeJWT json_claims p1 = Ok c ∧
    oc_Issuer c = oi_Issuer cfg ∧ audienceContains (oc_Audience c) (oi_Audience cfg) = true ∧
    now / 1000000000 < oc_Expiry c ∧ claimed_name c ≠ "" ∧
    id = {| id_Kind := "human"; id_Name := claimed_name c; id_Groups := oc_Groups c |}.
Proof.
  setoid_rewrite <- verifySignature_spec. unfold oidc_Identify, claims. split.
  - destruct (Split token dot) as [|p0 [|p1 [|p2 [|]]]]; try done.
    destruct (decodeJWT json_header p0) as [h|] eqn:Hh; simpl; [|done].
    destruct (verifySignature _ _ _ _) eqn:Hv; simpl; [done|].
    destruct (decodeJWT json_claims p1) as [c|] eqn:Hc; simpl; [|done].
    case_bool_decide as Hi; simpl; [|done]. destruct (audienceContains _ _) eqn:Ha; simpl; [|done].
    destruct (Z.leb_spec (oc_Expiry c) (now / 1000000000)) as [|He]; simpl; [done|].
    case_bool_decide as Hn; [done|]. intros [= <-]. exists p0, p1, p2, h, c. done.
  - intros (p0 & p1 & p2 & h & c & -> & -> & Hv & Hc & Hi & Ha & He & Hn & ->). simpl. rewrite Hv, Hc.
    rewrite Ha, (bool_decide_eq_true_2 _ Hi). simpl.
    destruct (Z.leb_spec (oc_Expiry c) (now / 1000000000)); [lia|]. by rewrite bool_decide_eq_false_2.
Qed.
End AuthFacts.

(** ** Tokens to evaluate on

    Digests are copies, a MAC is the secret before the message, and the JSON of
    a header is its algorithm. *)
Module Demo.

#[local] Instance crypto : Crypto := {
  sha256 := λ s, "digest of " +:+ s;
  hash := λ _ s, s;
  hmac_sha256 := λ key message, key +:+ message;
  rsa_VerifyPKCS1v15 := λ _ _ _ digest sig, if sig == digest then None else Some (Errorf "verification error");
  ecdsa_Verify := λ _ _ _ _ _, false;
  on_curve := λ _ _, None;
  json_header := λ s, Ok {| oh_Alg := s; oh_Typ := "JWT"; oh_Kid := "k1" |};
  json_claims := λ s, Ok {| oc_Issuer := "https://idp"; oc_Sub := s; oc_Audience := AudArray [None; Some "rollops"];
                            oc_Expiry := 100; oc_Email := ""; oc_PreferredUsername := ""; oc_Groups := ["dev"] |};
  json_jwks := λ _, Ok [];
  json_discovery := λ _, Ok "";
}.

Definition config (secret : string) (keys : option (string → result PublicKey)) : OIDCConfig :=
  {| oi_Issuer := "https://idp"; oi_Audience := "rollops"; oi_HMACSecret := secret; oi_Keys := keys |}.
Definition token (alg sig : string) : string :=
  EncodeToString RawURLEncoding alg +:+ "." +:+ EncodeToString RawURLEncoding "alice" +:+ "." +:+
  EncodeToString RawURLEncoding sig.
Definition signing_input (alg : string) : string :=
  EncodeToString RawURLEncoding alg +:+ "." +:+ EncodeToString RawURLEncoding "alice".
Definition rsa : option (string → result PublicKey) :=
  Some (λ kid, if kid == "k1" then Ok (RSAKey 35 5) else Err ErrNotFound).
Definition alice : Identity := {| id_Kind := "human"; id_Name := "alice"; id_Groups := ["dev"] |}.

Example oidc_demo :
  oidc_Identify (config "s3" None) 0 (token "HS256" ("s3" +:+ signing_input "HS256")) = Some alice ∧
  oidc_Identify (config "s3" None) 100000000000 (token "HS256" ("s3" +:+ signing_input "HS256")) = None ∧
  oidc_Identify (config "" None) 0 (token "HS256" (signing_input "HS256")) = None ∧
  oidc_Identify (config "s3" rsa) 0 (token "none" "") = None ∧
  oidc_Identify (config "" rsa) 0 (token "RS256" (signing_input "RS256")) = Some alice ∧
  oidc_Identify (config "" rsa) 0 (token "ES256" (signing_input "ES256")) = None.
Proof. vm_compute. auto 10. Qed.

Definition tokens : TokenAuth := <["t0p" := alice]> {[ "other" := {| id_Kind := "agent"; id_Name := "bot"; id_Groups := [] |} ]}.

Lemma token_identifies_witness : token_Identify tokens "t0p" = Some alice.
Proof.
  apply (token_identifies_its_owner tokens "t0p" alice).
  - intros known _ Heq. injection Heq as Heq. exact Heq.
  - split; [discriminate|]. vm_compute. reflexivity.
Defined.
End Demo.
