(* ===== verification/Jwks.v ===== *)
(** * The cache of a provider's keys

    [api/jwks.go]: [JWKS.Key] called by any number of requests at once.  A
    request is a thread of [State]; what it does between two operations on the
    mutex is one step ([enter], the wait for the fetch in flight, [finish]), and
    the steps of all threads interleave in any order.  The clock does not run
    backwards; the provider answers a fetch in any way.  A channel is the number
    of the fetch that closes it. *)

From S2P Require Import Prelude GoTime Encoding Model Security Auth.

(** What [client.Get] gives: a status and the body, or an error. *)
Definition Response : Type := result (Z * result string).

Section Fetch.
Context `{Crypto}.

Definition fetchJWKS (resp : Response) : result (gmap string PublicKey) :=
  match resp with
  | Err er => Err (Wrap "oidc: fetch JWKS: " er "")
  | Ok (status, body) =>
      if negb (status =? 200) then Err (Errorf ("oidc: JWKS status " +:+ pretty status))
      else match body with
           | Err er => Err (Wrap "oidc: read JWKS: " er "")
           | Ok body => parseJWKS (limited body)
           end
  end.

Definition DiscoverJWKSURL (resp : Response) : result string :=
  match resp with
  | Err er => Err (Wrap "oidc: discovery: " er "")
  | Ok (status, body) =>
      if negb (status =? 200) then Err (Errorf ("oidc: discovery status " +:+ pretty status))
      else match (try b <- body; json_discovery (limited b)) with
           | Err er => Err (Wrap "oidc: parse discovery: " er "")
           | Ok uri => if uri == "" then Err (Errorf "oidc: discovery document has no jwks_uri") else Ok uri
           end
  end.
End Fetch.

(** ** The shared state *)
Record JWKS := {
  j_keys : gmap string PublicKey;
  j_exp : Time;
  j_lastRefresh : Time;
  j_refreshing : bool;
  j_done : nat;          (* the channel of the newest fetch *)
}.

Definition ttl : Duration := 3600 * Second.
Definition minRefresh : Duration := 60 * Second.

Definition NewJWKS : JWKS :=
  {| j_keys := ∅; j_exp := zero_time; j_lastRefresh := zero_time; j_refreshing := false; j_done := 0 |}.

(** A request in [Key]: at the head of the loop, waiting on a channel, fetching
    without the mutex, or returned. *)
Inductive Thread :=
| TEnter (kid : string)
| TWait (kid : string) (done : nat)
| TFetch (kid : string)
| TReturned (kid : string) (r : result PublicKey).

Definition no_key (kid : string) : err := Errorf ("oidc: no JWKS key for kid " +:+ quote kid).

(** One round of the loop under the mutex; [t1], [t2], [t3] are the readings of
    the clock in the order of the text. *)
Definition enter (j : JWKS) (kid : string) (t1 t2 t3 : Time) : JWKS * Thread :=
  let fetch := if j_refreshing j then (j, TWait kid (j_done j))
               else ({| j_keys := j_keys j; j_exp := j_exp j; j_lastRefresh := j_lastRefresh j;
                        j_refreshing := true; j_done := S (j_done j) |}, TFetch kid) in
  let absent := if (t2 <? j_exp j) && (t3 <? j_lastRefresh j + minRefresh)
                then (j, TReturned kid (Err (no_key kid))) else fetch in
  match j_keys j !! kid with
  | Some k => if t1 <? j_exp j then (j, TReturned kid (Ok k)) else absent
  | None => absent
  end.

(** The second critical section, with what the fetch gave; [t1] and [t2] are its
    readings of the clock. *)
Definition finish (j : JWKS) (kid : string) (fetched : result (gmap string PublicKey)) (t1 t2 : Time)
    : JWKS * Thread :=
  let j := match fetched with
           | Ok keys => {| j_keys := keys; j_exp := t2 + ttl; j_lastRefresh := t1;
                           j_refreshing := false; j_done := j_done j |}
           | Err _ => {| j_keys := j_keys j; j_exp := j_exp j; j_lastRefresh := t1;
                         j_refreshing := false; j_done := j_done j |}
           end in
  (j, TReturned kid (match j_keys j !! kid with
                     | Some k => Ok k
                     | None => match fetched with Err er => Err er | Ok _ => Err (no_key kid) end
                     end)).

(** A channel is closed when its fetch has finished. *)
Definition closed (j : JWKS) (done : nat) : bool :=
  (done <? j_done j)%nat || ((done =? j_done j)%nat && negb (j_refreshing j)).

(** ** Requests in parallel *)
Record State := {
  s_cache : JWKS;
  s_threads : gmap nat Thread;
  s_clock : Time;
  s_fetches : list (Time * bool);               (* newest first: start, and was the cache valid then *)
  s_published : list (gmap string PublicKey);   (* the key sets fetched, newest first *)
}.

Definition start (t : Time) : State :=
  {| s_cache := NewJWKS; s_threads := ∅; s_clock := t; s_fetches := []; s_published := [] |}.

Section Steps.
Context `{Crypto}.

Definition after_enter (s : State) (i : nat) (kid : string) (t1 t2 t3 : Time) : State :=
  let '(j, th) := enter (s_cache s) kid t1 t2 t3 in
  {| s_cache := j; s_threads := <[i := th]> (s_threads s); s_clock := t3;
     s_fetches := match th with
                  | TFetch _ => (t3, t2 <? j_exp (s_cache s)) :: s_fetches s
                  | _ => s_fetches s
                  end;
     s_published := s_published s |}.

Definition after_finish (s : State) (i : nat) (kid : string) (resp : Response) (t1 t2 : Time) : State :=
  let '(j, th) := finish (s_cache s) kid (fetchJWKS resp) t1 t2 in
  {| s_cache := j; s_threads := <[i := th]> (s_threads s); s_clock := t2; s_fetches := s_fetches s;
     s_published := match fetchJWKS resp with Ok keys => keys :: s_published s | Err _ => s_published s end |}.

Definition set_thread (s : State) (i : nat) (th : Thread) : State :=
  {| s_cache := s_cache s; s_threads := <[i := th]> (s_threads s); s_clock := s_clock s;
     s_fetches := s_fetches s; s_published := s_published s |}.

Inductive step : State → State → Prop :=
| step_call s i kid :
    s_threads s !! i = None → step s (set_thread s i (TEnter kid))
| step_enter s i kid t1 t2 t3 :
    s_threads s !! i = Some (TEnter kid) → s_clock s ≤ t1 → t1 ≤ t2 → t2 ≤ t3 →
    step s (after_enter s i kid t1 t2 t3)
| step_wake s i kid done :
    s_threads s !! i = Some (TWait kid done) → closed (s_cache s) done = true →
    step s (set_thread s i (TEnter kid))
| step_finish s i kid resp t1 t2 :
    s_threads s !! i = Some (TFetch kid) → s_clock s ≤ t1 → t1 ≤ t2 →
    step s (after_finish s i kid resp t1 t2).

Definition reachable (s : State) : Prop := ∃ t, rtc step (start t) s.
End Steps.

(** ** The invariant *)

(** Successive fetches: a fetch begun on a valid cache comes [minRefresh] after
    the one before it. *)
Fixpoint spaced (l : list (Time * bool)) : Prop :=
  match l with
  | (t, valid) :: (((t', _) :: _) as l') => t' ≤ t ∧ (valid = true → t' + minRefresh ≤ t) ∧ spaced l'
  | _ => True
  end.

Record Inv (s : State) : Prop := {
  inv_fetching : ∀ i kid, s_threads s !! i = Some (TFetch kid) → j_refreshing (s_cache s) = true;
  inv_fetcher : j_refreshing (s_cache s) = true → ∃ i kid, s_threads s !! i = Some (TFetch kid);
  inv_single : ∀ i i' kid kid', s_threads s !! i = Some (TFetch kid) → s_threads s !! i' = Some (TFetch kid') → i = i';
  inv_wait : ∀ i kid done, s_threads s !! i = Some (TWait kid done) → (done ≤ j_done (s_cache s))%nat;
  inv_last : ∀ t valid l, s_fetches s = (t, valid) :: l →
    t ≤ s_clock s ∧ (j_refreshing (s_cache s) = false → t ≤ j_lastRefresh (s_cache s));
  inv_spaced : spaced (s_fetches s);
  inv_keys : j_keys (s_cache s) = default ∅ (head (s_published s));
  inv_returned : ∀ i kid k, s_threads s !! i = Some (TReturned kid (Ok k)) →
    ∃ keys, keys ∈ s_published s ∧ keys !! kid = Some k;
}.

(** The outcomes of a round. *)
Inductive entered (j : JWKS) (kid : string) (t2 t3 : Time) : JWKS → Thread → Prop :=
| entered_hit k : j_keys j !! kid = Some k → entered j kid t2 t3 j (TReturned kid (Ok k))
| entered_miss : entered j kid t2 t3 j (TReturned kid (Err (no_key kid)))
| entered_wait : j_refreshing j = true → entered j kid t2 t3 j (TWait kid (j_done j))
| entered_fetch : j_refreshing j = false →
    (t2 < j_exp j → j_lastRefresh j + minRefresh ≤ t3) →
    entered j kid t2 t3 {| j_keys := j_keys j; j_exp := j_exp j; j_lastRefresh := j_lastRefresh j;
                           j_refreshing := true; j_done := S (j_done j) |} (TFetch kid).

Lemma enter_cases j kid t1 t2 t3 : entered j kid t2 t3 (enter j kid t1 t2 t3).1 (enter j kid t1 t2 t3).2.
Proof.
  assert (let r := if (t2 <? j_exp j) && (t3 <? j_lastRefresh j + minRefresh)
                then (j, TReturned kid (Err (no_key kid))) else
                if j_refreshing j then (j, TWait kid (j_done j))
               else ({| j_keys := j_keys j; j_exp := j_exp j; j_lastRefresh := j_lastRefresh j;
                        j_refreshing := true; j_done := S (j_done j) |}, TFetch kid) in
          entered j kid t2 t3 r.1 r.2) as Habsent.
  { cbv zeta. destruct (_ && _) eqn:E; [constructor|].
    destruct (j_refreshing j) eqn:Hr; constructor; [done|done|].
    intros Ht. apply andb_false_elim in E as [E|E]; split_bool; lia. }
  unfold enter. destruct (j_keys j !! kid) as [k|] eqn:Hk; [|apply Habsent].
  destruct (t1 <? j_exp j); [by constructor|apply Habsent].
Qed.

Lemma closed_spec j done : (done ≤ j_done j)%nat → closed j done = true ∨ j_refreshing j = true.
Proof.
  intros Hle. unfold closed. destruct (j_refreshing j); [by right|left]. simpl.
  destruct (Nat.ltb_spec done (j_done j)); [done|]. simpl. rewrite andb_true_r. apply Nat.eqb_eq. lia.
Qed.

Section Invariant.
Context `{Crypto}.

Lemma Inv_start t : Inv (start t).
Proof. split; simpl; done || (intros; simplify_map_eq). Qed.

(** A thread that becomes [th] without a fetch, on an unchanged cache. *)
Lemma Inv_set_thread s i th t :
  Inv s → (∀ kid, s_threads s !! i ≠ Some (TFetch kid)) → (∀ kid, th ≠ TFetch kid) →
  (∀ kid done, th = TWait kid done → (done ≤ j_done (s_cache s))%nat) →
  (∀ kid k, th = TReturned kid (Ok k) → ∃ keys, keys ∈ s_published s ∧ keys !! kid = Some k) →
  s_clock s ≤ t →
  Inv {| s_cache := s_cache s; s_threads := <[i := th]> (s_threads s); s_clock := t;
         s_fetches := s_fetches s; s_published := s_published s |}.
Proof.
  intros [] Hi Hth Hw Hr Ht. split; simpl; try done.
  - intros k kid. rewrite lookup_insert_Some. naive_solver.
  - intros (k & kid & Hk)%inv_fetcher0. exists k, kid. rewrite lookup_insert_ne; [done|]. intros ->. naive_solver.
  - intros k k' kid kid'. rewrite !lookup_insert_Some. naive_solver.
  - intros k kid done. rewrite lookup_insert_Some. naive_solver.
  - intros t0 valid l Hl. destruct (inv_last0 t0 valid l Hl). split; [lia|done].
  - intros k kid key. rewrite lookup_insert_Some. naive_solver.
Qed.

Lemma Inv_fetch s i kid t2 t3 :
  Inv s → s_threads s !! i = Some (TEnter kid) → s_clock s ≤ t3 →
  j_refreshing (s_cache s) = false → (t2 < j_exp (s_cache s) → j_lastRefresh (s_cache s) + minRefresh ≤ t3) →
  Inv {| s_cache := {| j_keys := j_keys (s_cache s); j_exp := j_exp (s_cache s);
                       j_lastRefresh := j_lastRefresh (s_cache s); j_refreshing := true;
                       j_done := S (j_done (s_cache s)) |};
         s_threads := <[i := TFetch kid]> (s_threads s); s_clock := t3;
         s_fetches := (t3, t2 <? j_exp (s_cache s)) :: s_fetches s; s_published := s_published s |}.
Proof.
  intros [] Hi Hclock Hr Ht. assert (∀ k kid', s_threads s !! k ≠ Some (TFetch kid')) as Hnone
    by (intros k kid' Hk; apply inv_fetching0 in Hk; congruence).
  split; simpl; try done.
  - intros _. exists i, kid. by rewrite lookup_insert_eq.
  - intros k k' kid1 kid2. rewrite !lookup_insert_Some. naive_solver.
  - intros k kid' done. rewrite lookup_insert_Some. intros [[_ ?]|[_ Hw]]; [done|]. apply inv_wait0 in Hw. lia.
  - intros t valid l [= <- _ _]. split; [lia|done].
  - destruct (s_fetches s) as [|[t' v'] l] eqn:Hf; [done|].
    destruct (inv_last0 _ _ _ eq_refl) as [Hle Hlast]. specialize (Hlast Hr).
    split; [lia|]. split; [|done]. intros Hv%Z.ltb_lt. specialize (Ht Hv). lia.
  - intros k kid' key. rewrite lookup_insert_Some. naive_solver.
Qed.

Lemma Inv_finish s i kid resp t1 t2 :
  Inv s → s_threads s !! i = Some (TFetch kid) → s_clock s ≤ t1 → t1 ≤ t2 →
  Inv (after_finish s i kid resp t1 t2).
Proof.
  intros [] Hi H1 H2. unfold after_finish, finish.
  assert (∀ k kid', k ≠ i → s_threads s !! k ≠ Some (TFetch kid')) as Hother
    by (intros k kid' Hne Hk; destruct Hne; by eapply inv_single0).
  destruct (fetchJWKS resp) as [keys|er]; split; simpl; try done.
  all: try by (intros k kid'; rewrite lookup_insert_Some; intros [[_ ?]|[Hne Hk]]; [done|]; by apply Hother in Hk).
  all: try by (intros k k' kid1 kid2; rewrite !lookup_insert_Some; intros [[_ ?]|[Hne Hk]]; [done|]; by apply Hother in Hk).
  all: try by (intros k kid' d; rewrite lookup_insert_Some; intros [[_ ?]|[_ Hk]]; [done|]; apply (inv_wait0 _ _ _ Hk)).
  all: try by (intros t valid l Hf; destruct (inv_last0 t valid l Hf); split; [lia|intros _; lia]).
  all: intros k kid' key; rewrite lookup_insert_Some; intros [[<- Heq]|[_ Hk]].
  - injection Heq as <- Hk. destruct (keys !! kid) as [k0|] eqn:Hkey; [|done]. injection Hk as ->.
    exists keys. split; [left|done].
  - apply inv_returned0 in Hk as (keys' & Hin & Hk). exists keys'. split; [by right|done].
  - injection Heq as <- Hk. rewrite inv_keys0 in Hk. destruct (s_published s) as [|keys l]; simpl in Hk; [done|].
    destruct (keys !! kid) as [k0|] eqn:Hkey; [|done]. injection Hk as ->. exists keys. split; [left|done].
  - eauto.
Qed.

Lemma Inv_enter s i kid t1 t2 t3 :
  Inv s → s_threads s !! i = Some (TEnter kid) → s_clock s ≤ t1 → t1 ≤ t2 → t2 ≤ t3 →
  Inv (after_enter s i kid t1 t2 t3).
Proof.
  intros HI Hi H1 H2 H3. unfold after_enter. pose proof (enter_cases (s_cache s) kid t1 t2 t3) as Hc.
  destruct (enter (s_cache s) kid t1 t2 t3) as [j th]. simpl in Hc.
  destruct Hc as [k Hk| |Hr|Hr Ht]; [| | |apply Inv_fetch; [done..|lia|done|done]].
  all: apply Inv_set_thread; [done|intros ?; congruence|done| | |lia]; try done.
  - intros kid' k' [= <- <-]. rewrite (inv_keys s HI) in Hk.
    destruct (s_published s) as [|keys l]; simpl in Hk; [done|]. exists keys. split; [left|done].
  - intros kid' done' [= <- <-]. done.
Qed.

Lemma Inv_step s s' : Inv s → step s s' → Inv s'.
Proof.
  intros HI Hs. revert HI. destruct Hs; intros HI; [|by apply Inv_enter| |by apply Inv_finish].
  all: apply Inv_set_thread; [done|intros ?; congruence|done|done|done|lia].
Qed.

Lemma Inv_reachable s : reachable s → Inv s.
Proof. intros [t Hs]. eapply (rtc_ind_l (λ s0, Inv s0 → Inv s)) in Hs; eauto using Inv_start, Inv_step. Qed.
End Invariant.

(** ** Properties *)
Section Properties.
Context `{Crypto}.

(** However many requests ask for keys at once, at most one fetch of the
    key set is in flight, and it is in flight exactly while the cache is marked
    as refreshing. *)
Theorem one_fetch_in_flight s :
  reachable s →
  (∀ i i' kid kid', s_threads s !! i = Some (TFetch kid) → s_threads s !! i' = Some (TFetch kid') → i = i') ∧
  (j_refreshing (s_cache s) = true ↔ ∃ i kid, s_threads s !! i = Some (TFetch kid)).
Proof.
  intros [] % Inv_reachable. split; [done|]. split; [done|]. intros (i & kid & Hi). eauto.
Qed.

(** No request is stranded: one that has not returned can take a step now,
    or it waits on the channel of a fetch that is in flight, whose end is a step
    that closes the channel. *)
Theorem no_request_is_stranded s i th :
  reachable s → s_threads s !! i = Some th →
  (∃ kid r, th = TReturned kid r) ∨
  (∃ s', step s s' ∧ s_threads s' !! i ≠ s_threads s !! i) ∨
  (∃ kid done i' kid', th = TWait kid done ∧ s_threads s !! i' = Some (TFetch kid') ∧
    ∀ resp t1 t2, s_clock s ≤ t1 → t1 ≤ t2 →
      step s (after_finish s i' kid' resp t1 t2) ∧
      closed (s_cache (after_finish s i' kid' resp t1 t2)) done = true).
Proof.
  intros Hr Hi. destruct (Inv_reachable s Hr). destruct th as [kid|kid done|kid|kid r]; [| | |by eauto].
  - right; left. exists (after_enter s i kid (s_clock s) (s_clock s) (s_clock s)). split; [by apply step_enter|].
    unfold after_enter. pose proof (enter_cases (s_cache s) kid (s_clock s) (s_clock s) (s_clock s)) as Hc.
    destruct (enter _ _ _ _ _) as [j th]. simpl in *. rewrite lookup_insert_eq, Hi. by destruct Hc.
  - right. destruct (closed_spec (s_cache s) done (inv_wait0 _ _ _ Hi)) as [Hc|Hc].
    + left. exists (set_thread s i (TEnter kid)). split; [by eapply step_wake|]. simpl. by rewrite lookup_insert_eq, Hi.
    + right. apply inv_fetcher0 in Hc as (i' & kid' & Hi'). exists kid, done, i', kid'. do 2 (split; [done|]).
      intros resp t1 t2 H1 H2. split; [by apply step_finish|].
      unfold after_finish, finish, closed. destruct (fetchJWKS resp); simpl; rewrite andb_true_r;
        (destruct (Nat.ltb_spec done (j_done (s_cache s))); [done|]); apply Nat.eqb_eq;
        pose proof (inv_wait0 _ _ _ Hi); lia.
  - right; left. exists (after_finish s i kid (Err ErrNotFound) (s_clock s) (s_clock s)).
    split; [by apply step_finish|]. simpl. by rewrite lookup_insert_eq, Hi.
Qed.

(** Requests for unknown keys cannot make the daemon hammer the provider
    while its key set is valid: of fetches in a row that began on a valid cache,
    each waited [minRefresh] for the one before, so [n] of them take at least
    [n] times [minRefresh] - whatever the requests ask for and however they
    interleave. *)
Theorem refetches_are_rate_limited s newer t row t0 v0 older :
  reachable s →
  s_fetches s = newer ++ (t, true) :: row ++ (t0, v0) :: older → (∀ f, f ∈ row → f.2 = true) →
  Z.of_nat (S (length row)) * minRefresh ≤ t - t0.
Proof.
  intros [] % Inv_reachable Hf Hrow. rewrite Hf in inv_spaced0. clear -inv_spaced0 Hrow.
  assert (spaced ((t, true) :: row ++ (t0, v0) :: older)) as Hs.
  { induction newer as [|[t1 v1] l IH]; [done|]. apply IH. simpl in inv_spaced0.
    destruct (l ++ _) as [|[]] eqn:E; [by destruct l|]. naive_solver. }
  clear inv_spaced0. revert t Hs. induction row as [|[t' v'] row IH]; intros t Hs.
  - destruct Hs as (_ & Hs & _). specialize (Hs eq_refl). simpl. lia.
  - simpl app in Hs. destruct Hs as (_ & Hs & Hrest). specialize (Hs eq_refl).
    assert (v' = true) as -> by (apply (Hrow (t', v')); set_solver).
    specialize (IH ltac:(set_solver) t' Hrest). cbn [length]. lia.
Qed.

(** A key that is returned for an id was published for that id: it is in one
    of the key sets fetched from the provider. *)
Theorem returned_keys_were_published s i kid k :
  reachable s → s_threads s !! i = Some (TReturned kid (Ok k)) →
  ∃ keys, keys ∈ s_published s ∧ keys !! kid = Some k.
Proof. intros [] % Inv_reachable. eauto. Qed.
End Properties.

(** ** Executions to evaluate on *)
Module Demo.

#[local] Instance crypto : Crypto := {
  sha256 := λ s, s;
  hash := λ _ s, s;
  hmac_sha256 := λ key message, key +:+ message;
  rsa_VerifyPKCS1v15 := λ _ _ _ _ _, None;
  ecdsa_Verify := λ _ _ _ _ _, false;
  on_curve := λ _ _, None;
  json_header := λ _, Err ErrNotFound;
  json_claims := λ _, Err ErrNotFound;
  json_jwks := λ body, Ok [{| jk_Kid := body; jk_Kty := "RSA"; jk_Crv := ""; jk_N := "Iw"; jk_E := "AQAB"; jk_X := ""; jk_Y := "" |}];
  json_discovery := λ _, Err ErrNotFound;
}.

Inductive action := Call (i : nat) (kid : string) | Enter (i : nat) (t : Z) | Wake (i : nat) | Finish (i : nat) (resp : Response) (t : Z).

(** The step an action stands for, when it is enabled; times are in seconds. *)
Definition act (s : State) (a : action) : option State :=
  match a with
  | Call i kid => match s_threads s !! i with None => Some (set_thread s i (TEnter kid)) | Some _ => None end
  | Enter i t => match s_threads s !! i with
                 | Some (TEnter kid) => if s_clock s <=? t * Second then Some (after_enter s i kid (t * Second) (t * Second) (t * Second)) else None
                 | _ => None
                 end
  | Wake i => match s_threads s !! i with
              | Some (TWait kid done) => if closed (s_cache s) done then Some (set_thread s i (TEnter kid)) else None
              | _ => None
              end
  | Finish i resp t => match s_threads s !! i with
                       | Some (TFetch kid) => if s_clock s <=? t * Second then Some (after_finish s i kid resp (t * Second) (t * Second)) else None
                       | _ => None
                       end
  end.

Lemma act_sound s a s' : act s a = Some s' → step s s'.
Proof.
  destruct a; simpl; intros Ha; repeat case_match; simplify_eq; split_bool;
    [by constructor|by constructor|by econstructor|by constructor].
Qed.

Fixpoint exec (s : State) (l : list action) : option State :=
  match l with [] => Some s | a :: l => s ← act s a; exec s l end.

Lemma exec_reachable t l s : exec (start t) l = Some s → reachable s.
Proof.
  intros He. exists t. revert He. generalize (start t). induction l as [|a l IH]; simpl; intros s0 He.
  - by simplify_eq.
  - apply bind_Some in He as (s1 & Ha & He). eapply rtc_l; [by eapply act_sound|by apply IH].
Qed.

Definition outcome (l : list action) : option (list (Time * bool) * list (option (result PublicKey))) :=
  s ← exec (start 0) l;
  Some (s_fetches s, (λ i, match s_threads s !! i with Some (TReturned _ r) => Some r | _ => None end) <$> [0; 1; 2]%nat).

Definition ok (body : string) : Response := Ok (200, Ok body).
Definition rsa : PublicKey := RSAKey 35 65537.

(** Two requests share a fetch; the one whose key is unknown is refused without
    a second fetch, which is allowed a minute later. *)
Definition shared : list action :=
  [Call 0 "a"; Call 1 "b"; Enter 0 1; Enter 1 1].
Definition later : list action :=
  shared ++ [Finish 0 (ok "a") 2; Wake 1; Enter 1 3; Call 2 "b"; Enter 2 100].

Example shared_demo :
  outcome later = Some ([(100 * Second, true); (1 * Second, false)], [Some (Ok rsa); Some (Err (no_key "b")); None]).
Proof. vm_compute. reflexivity. Qed.

(** While the cache is not valid and the provider fails, every request fetches
    in its turn: the minute between fetches is not kept. *)
Example failed_fetches_are_not_throttled :
  fst <$> outcome [Call 0 "a"; Call 1 "a"; Call 2 "a"; Enter 0 1; Enter 1 1; Enter 2 1;
                   Finish 0 (Err ErrNotFound) 1; Wake 1; Enter 1 1; Finish 1 (Err ErrNotFound) 1; Wake 2; Enter 2 1] =
  Some [(1 * Second, false); (1 * Second, false); (1 * Second, false)].
Proof. vm_compute. reflexivity. Qed.

(** A key of an expired set is still returned when the refresh fails. *)
Example expired_key_survives_a_failed_refresh :
  snd <$> outcome [Call 0 "a"; Enter 0 1; Finish 0 (ok "a") 1; Call 1 "a"; Enter 1 1000000; Finish 1 (Err ErrNotFound) 1000000] =
  Some [Some (Ok rsa); Some (Ok rsa); None].
Proof. vm_compute. reflexivity. Qed.

Definition at_shared : State := default (start 0) (exec (start 0) shared).
Definition at_later : State := default (start 0) (exec (start 0) later).

Lemma at_shared_reachable : reachable at_shared.
Proof. apply (exec_reachable 0 shared). vm_compute. reflexivity. Qed.
Lemma at_later_reachable : reachable at_later.
Proof. apply (exec_reachable 0 later). vm_compute. reflexivity. Qed.

Lemma one_fetch_witness : j_refreshing (s_cache at_shared) = true.
Proof.
  apply (proj2 (one_fetch_in_flight at_shared at_shared_reachable)).
  exists 0%nat, "a". vm_compute. reflexivity.
Defined.

Lemma stranded_witness :
  (∃ s', step at_shared s' ∧ s_threads s' !! 1%nat ≠ s_threads at_shared !! 1%nat) ∨
  ∃ done i' kid', (done ≤ 1)%nat ∧ s_threads at_shared !! i' = Some (TFetch kid').
Proof.
  destruct (no_request_is_stranded at_shared 1%nat (TWait "b" 1)) as [(kid & r & Heq)|[Hstep|(kid & d & i' & kid' & Heq & Hi & _)]].
  - exact at_shared_reachable.
  - vm_compute. reflexivity.
  - discriminate Heq.
  - left. exact Hstep.
  - right. exists d, i', kid'. injection Heq as _ <-. split; [lia|exact Hi].
Defined.

Lemma rate_witness : 1 * minRefresh ≤ 100 * Second - 1 * Second.
Proof.
  apply (refetches_are_rate_limited at_later [] (100 * Second) [] (1 * Second) false []).
  - exact at_later_reachable.
  - vm_compute. reflexivity.
  - intros f Hf. set_solver.
Defined.

Lemma published_witness : ∃ keys, keys ∈ s_published at_later ∧ keys !! "a" = Some rsa.
Proof.
  apply (returned_keys_were_published at_later 0%nat).
  - exact at_later_reachable.
  - vm_compute. reflexivity.
Defined.
End Demo.
