(* ===== verification/Store.v ===== *)
(** * Runtime state

    The persistence boundary of [internal/store/store.go] as a class of
    operations with the laws its clients rely on, and the SQLite backend
    ([internal/store/sqlite/sqlite.go]) as the instance that discharges them.

    This is the database as the engine sees it, by value: a row of [rollouts] is
    kept as the rollout it decodes to, without [Root] ([json:"-"]) and without the
    initiator's groups (no column), and a transaction takes effect when all its
    statements succeeded.  [Rows] has [SaveRollout] and [LoadRollout] themselves -
    the SQL, the JSON, the times as text, the transaction - and shows that this is
    what a save leaves.  Time columns hold RFC3339Nano text, which SQL compares as
    text.  Every statement can fail: [db_faults] is the list of outcomes of the
    statements to come, an exhausted list being a healthy database. *)

From S2P Require Import Prelude GoTime Config Progressive Model.

(** ** The interface *)
Record FreezeState := { fs_Active : bool; fs_Reason : string; fs_By : Identity; fs_At : Time }.

Definition zero_freeze : FreezeState :=
  {| fs_Active := false; fs_Reason := ""; fs_By := {| id_Kind := ""; id_Name := ""; id_Groups := [] |};
     fs_At := zero_time |}.

Class Store (S : Type) : Type := {
  SaveRollout : Rollout → S → option err * S;
  LoadRollout : string → S → result Rollout * S;
  ListRollouts : Z → S → result (list Rollout) * S;
  SaveObservedState : TargetState → S → option err * S;
  ObservedState : string → S → result Fingerprint * S;
  ObservedFingerprints : S → result (gmap string string) * S;
  StoreSchedule : ScheduledRollout → S → option err * S;
  DueSchedules : Time → S → result (list ScheduledRollout) * S;
  DeleteSchedule : string → S → option err * S;
  StoreHistory : string → S → result (list RolloutRecord) * S;
  SaveFreeze : FreezeState → S → option err * S;
  LoadFreeze : S → result FreezeState * S;
  (* the optional LeaseStore extension *)
  has_leases : bool;
  AcquireLease : string → string → Duration → Time → S → result bool * S;
  ReleaseLease : string → string → S → option err * S;
}.

(** What a rollout looks like once stored, given what the row held before: the
    upsert keeps the target, the initiator and the creation time of an existing
    row. *)
Definition without_groups (i : Identity) : Identity :=
  {| id_Kind := id_Kind i; id_Name := id_Name i; id_Groups := [] |}.

Definition normal (r : Rollout) : Rollout :=
  set_Desired (set_Root "" (r_Desired r)) (set_Initiator (without_groups (r_Initiator r)) r).

Definition stored (old : option Rollout) (r : Rollout) : Rollout :=
  match old with
  | None => normal r
  | Some o => set_CreatedAt (r_CreatedAt o) (set_Initiator (r_Initiator o)
                (set_TargetRef (r_TargetRef o) (normal r)))
  end.

Definition stored_schedule (s : ScheduledRollout) : ScheduledRollout :=
  {| sr_ID := sr_ID s; sr_TargetRef := sr_TargetRef s; sr_DueAt := sr_DueAt s;
     sr_Desired := set_Root "" (sr_Desired s); sr_Initiator := without_groups (sr_Initiator s) |}.

(** The laws: an abstract view of the state - rollouts by id, queued schedules
    by id, the freeze - and what each operation does to it.  A failed write
    changes nothing; a read changes nothing and answers from the view. *)
Class StoreLaws (S : Type) `{!Store S} : Type := {
  rollouts_of : S → gmap string Rollout;
  schedules_of : S → gmap string ScheduledRollout;
  freeze_of : S → FreezeState;
  same_view : S → S → Prop := λ s s',
    rollouts_of s' = rollouts_of s ∧ schedules_of s' = schedules_of s ∧ freeze_of s' = freeze_of s;
  save_rollout_spec : ∀ r s,
    match SaveRollout r s with
    | (Some _, s') => same_view s s'
    | (None, s') => rollouts_of s' = <[r_ID r := stored (rollouts_of s !! r_ID r) r]> (rollouts_of s) ∧
                    schedules_of s' = schedules_of s ∧ freeze_of s' = freeze_of s
    end;
  load_rollout_spec : ∀ id s,
    same_view s (LoadRollout id s).2 ∧
    match (LoadRollout id s).1 with
    | Ok r => rollouts_of s !! id = Some r
    | Err e => e = ErrNotFound → rollouts_of s !! id = None
    end;
  view_ids : ∀ s id r, rollouts_of s !! id = Some r → r_ID r = id;
  list_rollouts_spec : ∀ s,
    same_view s (ListRollouts 0 s).2 ∧
    match (ListRollouts 0 s).1 with
    | Ok rs => rs ≡ₚ (map_to_list (rollouts_of s)).*2
    | Err _ => True
    end;
  list_limit_spec : ∀ n s,
    same_view s (ListRollouts n s).2 ∧
    match (ListRollouts n s).1 with
    | Ok rs => ∀ r, r ∈ rs → rollouts_of s !! r_ID r = Some r
    | Err _ => True
    end;
  save_observed_view : ∀ t s, same_view s (SaveObservedState t s).2;
  observed_view : ∀ ref s, same_view s (ObservedState ref s).2;
  fingerprints_view : ∀ s, same_view s (ObservedFingerprints s).2;
  schedule_spec : ∀ sc s,
    match StoreSchedule sc s with
    | (Some _, s') => same_view s s'
    | (None, s') => rollouts_of s' = rollouts_of s ∧ freeze_of s' = freeze_of s ∧
                    schedules_of s' = <[sr_ID sc := stored_schedule sc]> (schedules_of s)
    end;
  due_schedules_spec : ∀ now s,
    same_view s (DueSchedules now s).2 ∧
    match (DueSchedules now s).1 with
    | Ok scs => ∀ sc, sc ∈ scs → schedules_of s !! sr_ID sc = Some sc
    | Err _ => True
    end;
  delete_schedule_spec : ∀ id s,
    match DeleteSchedule id s with
    | (Some _, s') => same_view s s'
    | (None, s') => rollouts_of s' = rollouts_of s ∧ freeze_of s' = freeze_of s ∧
                    schedules_of s' = delete id (schedules_of s)
    end;
  history_view : ∀ ref s, same_view s (StoreHistory ref s).2;
  save_freeze_spec : ∀ f s,
    match SaveFreeze f s with
    | (Some _, s') => same_view s s'
    | (None, s') => rollouts_of s' = rollouts_of s ∧ schedules_of s' = schedules_of s ∧
                    fs_Active (freeze_of s') = fs_Active f ∧ fs_Reason (freeze_of s') = fs_Reason f
    end;
  load_freeze_spec : ∀ s,
    same_view s (LoadFreeze s).2 ∧
    match (LoadFreeze s).1 with Ok f => f = freeze_of s | Err _ => True end;
  acquire_view : ∀ k o ttl now s, same_view s (AcquireLease k o ttl now s).2;
  release_view : ∀ k o s, same_view s (ReleaseLease k o s).2;
}.

(** ** The SQLite backend *)
Module Sqlite.

Record Db := {
  db_rollouts : gmap string Rollout;
  db_history : list RolloutRecord;              (* newest first: seq DESC *)
  db_target_state : gmap string (Fingerprint * Time);
  db_schedules : gmap string ScheduledRollout;
  db_freeze : option FreezeState;               (* the single row *)
  db_leases : gmap string (string * string);    (* owner, expires_at *)
  db_faults : list (option err);
}.

Definition empty : Db := {|
  db_rollouts := ∅; db_history := []; db_target_state := ∅; db_schedules := ∅;
  db_freeze := None; db_leases := ∅; db_faults := [] |}.

(** The rows as read back: the [id] column is the primary key. *)
Definition rows (d : Db) : gmap string Rollout :=
  map_imap (λ id r, Some (set_ID id r)) (db_rollouts d).
Definition schedule_rows (d : Db) : gmap string ScheduledRollout :=
  map_imap (λ id s, Some (set_sr_ID id s)) (db_schedules d).

(** The outcome of one statement. *)
Definition statement (what : string) (d : Db) : option err * Db :=
  let d' := {| db_rollouts := db_rollouts d; db_history := db_history d;
               db_target_state := db_target_state d; db_schedules := db_schedules d;
               db_freeze := db_freeze d; db_leases := db_leases d;
               db_faults := tail (db_faults d) |} in
  match db_faults d with
  | Some e :: _ => (Some (Wrap ("sqlite: " +:+ what +:+ ": ") e ""), d')
  | _ => (None, d')
  end.

(** The statements of a transaction, until one fails. *)
Fixpoint statements (whats : list string) (d : Db) : option err * Db :=
  match whats with
  | [] => (None, d)
  | what :: whats =>
      let '(e, d) := statement what d in
      match e with Some e => (Some e, d) | None => statements whats d end
  end.

Definition history_row (r : Rollout) : RolloutRecord := {|
  rr_RolloutID := r_ID r; rr_TargetRef := r_TargetRef r; rr_Phase := r_Phase r; rr_Note := r_Note r;
  rr_Initiator := without_groups (r_Initiator r); rr_At := r_UpdatedAt r |}.

(** What one transaction does: upsert the row, append a history row, commit. *)
Definition save_rollout (r : Rollout) (d : Db) : option err * Db :=
  let '(e, d) := statements ["begin"; "save rollout"; "append history"; "commit"] d in
  match e with
  | Some e => (Some e, d)
  | None =>
      (None, {| db_rollouts := <[r_ID r := stored (rows d !! r_ID r) r]> (db_rollouts d);
                db_history := history_row r :: db_history d;
                db_target_state := db_target_state d; db_schedules := db_schedules d;
                db_freeze := db_freeze d; db_leases := db_leases d; db_faults := db_faults d |})
  end.

Definition load_rollout (id : string) (d : Db) : result Rollout * Db :=
  let '(e, d) := statement "load rollout" d in
  (match e with
   | Some e => Err e
   | None => match rows d !! id with Some r => Ok r | None => Err ErrNotFound end
   end, d).

(** [ORDER BY updated_at DESC]: the text of the column. *)
Definition updated_text (r : Rollout) : string := FormatRFC3339Nano (r_UpdatedAt r).
Definition newer (r1 r2 : Rollout) : Prop := String.le (updated_text r2) (updated_text r1).
Definition newest_first (l : list Rollout) : list Rollout := merge_sort newer l.
#[global] Arguments newest_first : simpl never.

Definition list_rollouts (limit : Z) (d : Db) : result (list Rollout) * Db :=
  let '(e, d) := statement "list rollouts" d in
  (match e with
   | Some e => Err e
   | None =>
       let rs := newest_first (map_to_list (rows d)).*2 in
       Ok (if 0 <? limit then take (Z.to_nat limit) rs else rs)
   end, d).

Definition save_observed_state (t : TargetState) (d : Db) : option err * Db :=
  let '(e, d) := statement "save observed state" d in
  match e with
  | Some e => (Some e, d)
  | None =>
      (None, {| db_rollouts := db_rollouts d; db_history := db_history d;
                db_target_state := <[ts_TargetRef t := (ts_Observed t, ts_ObservedAt t)]> (db_target_state d);
                db_schedules := db_schedules d; db_freeze := db_freeze d; db_leases := db_leases d;
                db_faults := db_faults d |})
  end.

Definition observed_state (ref : string) (d : Db) : result Fingerprint * Db :=
  let '(e, d) := statement "observed state" d in
  (match e with
   | Some e => Err e
   | None => match db_target_state d !! ref with Some (fp, _) => Ok fp | None => Err ErrNotFound end
   end, d).

Definition observed_fingerprints (d : Db) : result (gmap string string) * Db :=
  let '(e, d) := statement "observed fingerprints" d in
  (match e with
   | Some e => Err e
   | None => Ok ((λ p, fp_Value p.1) <$> db_target_state d)
   end, d).

Definition with_schedules (m : gmap string ScheduledRollout) (d : Db) : Db := {|
  db_rollouts := db_rollouts d; db_history := db_history d; db_target_state := db_target_state d;
  db_schedules := m; db_freeze := db_freeze d; db_leases := db_leases d; db_faults := db_faults d |}.

Definition schedule (sc : ScheduledRollout) (d : Db) : option err * Db :=
  let '(e, d) := statement "schedule" d in
  match e with
  | Some e => (Some e, d)
  | None => (None, with_schedules (<[sr_ID sc := stored_schedule sc]> (db_schedules d)) d)
  end.

Definition due_text (sc : ScheduledRollout) : string := FormatRFC3339Nano (sr_DueAt sc).
Definition sooner (a b : ScheduledRollout) : Prop := String.le (due_text a) (due_text b).

Definition due_rows (now : Time) (l : list ScheduledRollout) : list ScheduledRollout :=
  merge_sort sooner (filter (λ sc, String.le (due_text sc) (FormatRFC3339Nano now)) l).
#[global] Arguments due_rows : simpl never.

Definition due_schedules (now : Time) (d : Db) : result (list ScheduledRollout) * Db :=
  let '(e, d) := statement "due schedules" d in
  (match e with
   | Some e => Err e
   | None => Ok (due_rows now (map_to_list (schedule_rows d)).*2)
   end, d).

Definition delete_schedule (id : string) (d : Db) : option err * Db :=
  let '(e, d) := statement "delete schedule" d in
  match e with
  | Some e => (Some e, d)
  | None => (None, with_schedules (delete id (db_schedules d)) d)
  end.

Definition history (ref : string) (d : Db) : result (list RolloutRecord) * Db :=
  let '(e, d) := statement "history" d in
  (match e with
   | Some e => Err e
   | None => Ok (filter (λ rec, rr_TargetRef rec = ref) (db_history d))
   end, d).

Definition save_freeze (f : FreezeState) (d : Db) : option err * Db :=
  let '(e, d) := statement "save freeze" d in
  match e with
  | Some e => (Some e, d)
  | None =>
      (None, {| db_rollouts := db_rollouts d; db_history := db_history d;
                db_target_state := db_target_state d; db_schedules := db_schedules d;
                db_freeze := Some {| fs_Active := fs_Active f; fs_Reason := fs_Reason f;
                                     fs_By := without_groups (fs_By f); fs_At := fs_At f |};
                db_leases := db_leases d; db_faults := db_faults d |})
  end.

Definition load_freeze (d : Db) : result FreezeState * Db :=
  let '(e, d) := statement "load freeze" d in
  (match e with Some e => Err e | None => Ok (default zero_freeze (db_freeze d)) end, d).

Definition with_leases (m : gmap string (string * string)) (d : Db) : Db := {|
  db_rollouts := db_rollouts d; db_history := db_history d; db_target_state := db_target_state d;
  db_schedules := db_schedules d; db_freeze := db_freeze d; db_leases := m; db_faults := db_faults d |}.

(** [DELETE ... WHERE expires_at <= now], on the text. *)
Definition expire (key : string) (nowText : string) (m : gmap string (string * string))
    : gmap string (string * string) :=
  match m !! key with
  | Some (_, expires) => if bool_decide (String.le expires nowText) then delete key m else m
  | None => m
  end.

(** [INSERT ... ON CONFLICT DO UPDATE WHERE leases.owner = excluded.owner]: the
    table and the rows affected. *)
Definition take_lease (key owner expires : string) (m : gmap string (string * string))
    : gmap string (string * string) * Z :=
  match m !! key with
  | None => (<[key := (owner, expires)]> m, 1)
  | Some (holder, _) => if holder == owner then (<[key := (owner, expires)]> m, 1) else (m, 0)
  end.

Definition acquire_lease (key owner : string) (ttl : Duration) (now : Time) (d : Db) : result bool * Db :=
  if ttl <=? 0 then (Err (Errorf "sqlite: acquire lease: ttl must be positive"), d)
  else
    let '(e, d) := statements ["lease begin"; "expire lease"; "acquire lease"; "lease rows affected";
                               "lease commit"] d in
    match e with
    | Some e => (Err e, d)
    | None =>
        let nowText := FormatRFC3339Nano now in
        let expires := FormatRFC3339Nano (now + ttl) in
        let '(m, n) := take_lease key owner expires (expire key nowText (db_leases d)) in
        (Ok (0 <? n), with_leases m d)
    end.

Definition release_lease (key owner : string) (d : Db) : option err * Db :=
  let '(e, d) := statement "release lease" d in
  match e with
  | Some e => (Some e, d)
  | None =>
      (None, match db_leases d !! key with
             | Some (holder, _) => if holder == owner then with_leases (delete key (db_leases d)) d else d
             | None => d
             end)
  end.

#[global] Instance sqlite_store : Store Db := {|
  SaveRollout := save_rollout; LoadRollout := load_rollout; ListRollouts := list_rollouts;
  SaveObservedState := save_observed_state; ObservedState := observed_state;
  ObservedFingerprints := observed_fingerprints; StoreSchedule := schedule;
  DueSchedules := due_schedules; DeleteSchedule := delete_schedule; StoreHistory := history;
  SaveFreeze := save_freeze; LoadFreeze := load_freeze; has_leases := true;
  AcquireLease := acquire_lease; ReleaseLease := release_lease |}.

(** ** The laws hold *)
Lemma rows_lookup d id : rows d !! id = set_ID id <$> db_rollouts d !! id.
Proof. unfold rows. rewrite map_lookup_imap. by destruct (db_rollouts d !! id). Qed.

Lemma schedule_rows_lookup d id : schedule_rows d !! id = set_sr_ID id <$> db_schedules d !! id.
Proof. unfold schedule_rows. rewrite map_lookup_imap. by destruct (db_schedules d !! id). Qed.

Lemma stored_ID o r : r_ID (stored o r) = r_ID r.
Proof. by destruct o. Qed.

Lemma set_ID_id r : set_ID (r_ID r) r = r.
Proof. by destruct r. Qed.

Lemma map_imap_insert_id {A} (f : string → A → A) (m : gmap string A) k v :
  f k v = v →
  map_imap (λ i x, Some (f i x)) (<[k := v]> m) = <[k := v]> (map_imap (λ i x, Some (f i x)) m).
Proof.
  intros Hf. apply map_eq. intros i. rewrite map_lookup_imap.
  destruct (decide (k = i)) as [<-|Hne].
  - rewrite !lookup_insert_eq. simpl. by rewrite Hf.
  - by rewrite !lookup_insert_ne, map_lookup_imap by done.
Qed.

Lemma map_imap_delete_id {A} (f : string → A → A) (m : gmap string A) k :
  map_imap (λ i x, Some (f i x)) (delete k m) = delete k (map_imap (λ i x, Some (f i x)) m).
Proof.
  apply map_eq. intros i. rewrite map_lookup_imap.
  destruct (decide (k = i)) as [<-|Hne]; [by rewrite !lookup_delete_eq|].
  by rewrite !lookup_delete_ne, map_lookup_imap by done.
Qed.

(** A statement changes only the list of outcomes to come. *)
Definition same_tables (d d' : Db) : Prop :=
  db_rollouts d' = db_rollouts d ∧ db_history d' = db_history d ∧
  db_target_state d' = db_target_state d ∧ db_schedules d' = db_schedules d ∧
  db_freeze d' = db_freeze d ∧ db_leases d' = db_leases d.

#[global] Instance same_tables_preorder : PreOrder same_tables.
Proof. split; unfold same_tables; [done|]. intros x y z. naive_solver congruence. Qed.

Lemma statement_tables what d : same_tables d (statement what d).2.
Proof. unfold statement. by destruct (db_faults d) as [|[e|] l]. Qed.

Lemma statements_tables whats d : same_tables d (statements whats d).2.
Proof.
  revert d. induction whats as [|what whats IH]; intros d; simpl; [done|].
  pose proof (statement_tables what d) as H. destruct (statement what d) as [[e|] d1]; [done|].
  by transitivity d1.
Qed.

Lemma statement_not_found what d e d' :
  statement what d = (Some e, d') → e ≠ ErrNotFound.
Proof. unfold statement. intros H. repeat case_match; simplify_eq/=; done. Qed.

(** Names the database after a statement and what it kept. *)
Ltac ran :=
  match goal with
  | |- context [statement ?what ?d] =>
      let H := fresh "Hst" in let E := fresh "Est" in
      pose proof (statement_tables what d) as H; destruct (statement what d) as [[?|] ?] eqn:E;
      simpl in H |- *; destruct H as (? & ? & ? & ? & ? & ?)
  | |- context [statements ?whats ?d] =>
      let H := fresh "Hst" in let E := fresh "Est" in
      pose proof (statements_tables whats d) as H; destruct (statements whats d) as [[?|] ?] eqn:E;
      simpl in H |- *; destruct H as (? & ? & ? & ? & ? & ?)
  end.

Ltac views := unfold rows, schedule_rows in *; simpl; repeat split; try congruence.

Lemma listed_row d r : r ∈ newest_first (map_to_list (rows d)).*2 → rows d !! r_ID r = Some r.
Proof.
  unfold newest_first. rewrite merge_sort_Permutation, list_elem_of_fmap.
  intros ([id r'] & -> & Hin%elem_of_map_to_list). simpl.
  rewrite rows_lookup, fmap_Some in Hin. destruct Hin as (x & Hx & ->). simpl. by rewrite rows_lookup, Hx.
Qed.

#[global] Instance sqlite_laws : StoreLaws Db.
Proof.
  refine {| rollouts_of := rows; schedules_of := schedule_rows;
            freeze_of := λ d, default zero_freeze (db_freeze d) |}; simpl.
  - intros r d. unfold save_rollout. ran; [views|]. unfold rows at 1. simpl. rewrite map_imap_insert_id.
    + views.
    + rewrite <- (stored_ID (rows d0 !! r_ID r) r) at 1. apply set_ID_id.
  - intros id d. unfold load_rollout. ran.
    + split; [views|]. intros ->. by apply statement_not_found in Est.
    + split; [views|]. replace (rows d) with (rows d0) by (unfold rows; congruence).
      destruct (rows d0 !! id) eqn:E; [done|done].
  - intros d id r. rewrite rows_lookup, fmap_Some. intros (x & _ & ->). done.
  - intros d. unfold list_rollouts. ran; [split; [views|done]|]. split; [views|].
    replace (rows d) with (rows d0) by (unfold rows; congruence). unfold newest_first. apply merge_sort_Permutation.
  - intros n d. unfold list_rollouts. ran; [split; [views|done]|]. split; [views|].
    replace (rows d) with (rows d0) by (unfold rows; congruence). intros r Hr. apply listed_row.
    case_match; [|done]. apply elem_of_take in Hr as (i & Hi & _). by eapply list_elem_of_lookup_2.
  - intros t d. unfold save_observed_state. ran; views.
  - intros ref d. unfold observed_state. ran; views.
  - intros d. unfold observed_fingerprints. ran; views.
  - intros sc d. unfold schedule. ran; [views|].
    unfold schedule_rows at 1. simpl. rewrite map_imap_insert_id by (by destruct sc). views.
  - intros now d. unfold due_schedules. ran; [split; [views|done]|]. split; [views|].
    intros sc. unfold due_rows. rewrite merge_sort_Permutation, list_elem_of_filter, list_elem_of_fmap.
    intros (_ & [id x] & -> & Hin). apply elem_of_map_to_list in Hin. simpl.
    replace (schedule_rows d) with (schedule_rows d0) by (unfold schedule_rows; congruence).
    rewrite schedule_rows_lookup, fmap_Some in Hin. destruct Hin as (y & Hy & ->). simpl.
    by rewrite schedule_rows_lookup, Hy.
  - intros id d. unfold delete_schedule. ran; [views|].
    unfold schedule_rows at 1. simpl. rewrite map_imap_delete_id. views.
  - intros ref d. unfold history. ran; views.
  - intros f d. unfold save_freeze. ran; views.
  - intros d. unfold load_freeze. ran; (split; [views|]); [done|]. congruence.
  - intros k o ttl now d. unfold acquire_lease. destruct (ttl <=? 0); [views|].
    ran; [views|]. destruct (take_lease _ _ _ _); views.
  - intros k o d. unfold release_lease. ran; [views|]. repeat case_match; views.
Defined.

(** ** Facts *)
#[global] Instance newer_trans : Transitive newer.
Proof. intros a b c H1 H2. unfold newer in *. by transitivity (updated_text b). Qed.
#[global] Instance newer_total : Total newer.
Proof. intros a b. unfold newer. destruct (total String.le (updated_text a) (updated_text b)); [by right|by left]. Qed.

Lemma text_le_seconds t t' :
  0 ≤ year_of t ≤ 9999 → 0 ≤ year_of t' ≤ 9999 →
  String.le (FormatRFC3339Nano t) (FormatRFC3339Nano t') → t / Second ≤ t' / Second.
Proof.
  intros Hy Hy' Hle. destruct (Z_le_gt_dec (t / Second) (t' / Second)) as [|Hgt]; [done|].
  pose proof (text_order t' t Hy' Hy ltac:(lia)) as Hlt.
  unfold String.le, String.leb in Hle. rewrite String.compare_antisym, Hlt in Hle. done.
Qed.

Lemma list_sorted d rs d' : list_rollouts 0 d = (Ok rs, d') → StronglySorted newer rs.
Proof.
  unfold list_rollouts. intros H. destruct (statement _ d) as [[e|] d1]; simplify_eq/=.
  unfold newest_first. apply StronglySorted_merge_sort; apply _.
Qed.

Lemma healthy_statements whats d : db_faults d = [] → (statements whats d).1 = None ∧ db_faults (statements whats d).2 = [].
Proof.
  revert d. induction whats as [|what whats IH]; intros d Hd; simpl; [done|].
  unfold statement. rewrite Hd. simpl. apply IH. done.
Qed.

(** ** Properties *)

(** "Newest first" holds to the second: in the list of rollouts the whole
    seconds of the update times never increase, so the newest rollout of a
    target is found first unless two updates fall within the same second. *)
Theorem list_rollouts_newest_first d rs d' i j r1 r2 :
  list_rollouts 0 d = (Ok rs, d') →
  (i < j)%nat → rs !! i = Some r1 → rs !! j = Some r2 →
  0 ≤ year_of (r_UpdatedAt r1) ≤ 9999 → 0 ≤ year_of (r_UpdatedAt r2) ≤ 9999 →
  r_UpdatedAt r2 / Second ≤ r_UpdatedAt r1 / Second.
Proof.
  intros Hl Hij Hi Hj Hy1 Hy2. apply list_sorted in Hl.
  apply text_le_seconds; [done|done|].
  rewrite <- (take_drop j rs) in Hl. eapply (StronglySorted_app_1_elem_of newer); [done| |].
  - apply list_elem_of_lookup. exists i. by rewrite lookup_take_lt.
  - apply list_elem_of_lookup. exists O. by rewrite lookup_drop, Nat.add_0_r.
Qed.

Definition demo_rollout (id : string) (at_ : Time) : Rollout := {|
  r_ID := id; r_TargetRef := "web"; r_Phase := PhasePromoted; r_Strategy := StrategyRolling;
  r_Desired := empty_manifest; r_RiskScore := PrimFloat.zero;
  r_Initiator := {| id_Kind := "human"; id_Name := "ann"; id_Groups := [] |}; r_Note := "";
  r_StepIndex := 0; r_StepTotal := 0; r_StepWeight := 0; r_DBRollbackCmd := []; r_DBRollbackTimeout := "";
  r_DBMigrateCmd := []; r_DBMigrateTimeout := ""; r_DBMigrateWhen := ""; r_DBBackwardCompatible := false;
  r_DeliveryTraffic := None; r_DeliveryFlag := None; r_Analysis := None; r_RollbackBlocked := "";
  r_SmokeTest := None; r_StepperSnap := None; r_CreatedAt := at_; r_UpdatedAt := at_ |}.

(** Two rollouts of one target, saved in this order at the given times. *)
Definition two_saves (t1 t2 : Time) : Db :=
  (save_rollout (demo_rollout "ro-2" t2) (save_rollout (demo_rollout "ro-1" t1) empty).2).2.

Definition listed_ids (d : Db) : list string :=
  match (list_rollouts 0 d).1 with Ok rs => r_ID <$> rs | Err _ => [] end.

Lemma list_rollouts_newest_first_witness :
  (10 * Second) / Second ≤ (12 * Second) / Second.
Proof.
  apply (list_rollouts_newest_first (two_saves (10 * Second) (12 * Second))
           [demo_rollout "ro-2" (12 * Second); demo_rollout "ro-1" (10 * Second)]
           (two_saves (10 * Second) (12 * Second)) 0 1
           (demo_rollout "ro-2" (12 * Second)) (demo_rollout "ro-1" (10 * Second)));
    [vm_compute; reflexivity|lia|reflexivity|reflexivity|vm_compute; split; discriminate..].
Defined.

(** Within one second it does not: a rollout saved half a second after
    another one of the same target is listed behind it, because the text of a
    whole second ("...:10Z") sorts after the text of any later instant of that
    second ("...:10.5Z").  The older rollout is then taken for the newest one. *)
Theorem list_rollouts_subsecond_inverted :
  listed_ids (two_saves (10 * Second) (10 * Second + 500 * Millisecond)) = ["ro-1"; "ro-2"].
Proof. vm_compute. reflexivity. Qed.

(** A lease is exclusive until its expiry text: while the table holds a
    lease of another owner whose expiry text is after the text of now, nobody
    else acquires it and it stays as it is; otherwise - absent, expired or the
    caller's own - a healthy database hands it over, held until now plus the
    ttl. *)
Theorem acquire_lease_exact key owner ttl now d :
  db_faults d = [] → 0 < ttl →
  let '(res, d') := acquire_lease key owner ttl now d in
  let held := match db_leases d !! key with
              | Some (holder, expires) => negb (holder == owner) && negb (bool_decide (String.le expires (FormatRFC3339Nano now)))
              | None => false
              end in
  res = Ok (negb held) ∧
  db_leases d' = (if held then db_leases d
                  else <[key := (owner, FormatRFC3339Nano (now + ttl))]> (db_leases d)).
Proof.
  intros Hd Httl. unfold acquire_lease. destruct (Z.leb_spec ttl 0); [lia|].
  pose proof (healthy_statements ["lease begin"; "expire lease"; "acquire lease"; "lease rows affected"; "lease commit"] d Hd) as [He _].
  pose proof (statements_tables ["lease begin"; "expire lease"; "acquire lease"; "lease rows affected"; "lease commit"] d) as Ht.
  destruct (statements _ d) as [e d1]. simpl in He, Ht. subst e. destruct Ht as (_ & _ & _ & _ & _ & ->).
  unfold expire, take_lease. destruct (db_leases d !! key) as [[holder expires]|] eqn:Hk.
  - case_bool_decide as Hexp; cbn.
    + rewrite lookup_delete_eq, andb_false_r. simpl. by rewrite insert_delete_eq.
    + rewrite Hk, andb_true_r. case_bool_decide; done.
  - rewrite Hk. done.
Qed.

Lemma acquire_lease_exact_witness :
  let d := with_leases {["target:web" := ("a", FormatRFC3339Nano (120 * Second))]} empty in
  (acquire_lease "target:web" "b" (2 * Minute) (60 * Second) d).1 = Ok false.
Proof.
  intros d. pose proof (acquire_lease_exact "target:web" "b" (2 * Minute) (60 * Second) d eq_refl eq_refl) as H.
  destruct (acquire_lease _ _ _ _ d) as [res d'] eqn:E. destruct H as [-> _]. vm_compute. reflexivity.
Defined.

(** That text is not the instant: a lease another owner holds until
    00:02:00.5 is handed over at 00:02:00, half a second before it expires,
    because the expiry text "...:00.5Z" sorts before the text "...:00Z" of
    now. *)
Theorem lease_stolen_before_expiry :
  let d := (acquire_lease "target:web" "a" (2 * Minute) (500 * Millisecond) empty).2 in
  (acquire_lease "target:web" "b" (2 * Minute) (2 * Minute) d).1 = Ok true ∧
  2 * Minute < 2 * Minute + 500 * Millisecond.
Proof. vm_compute. done. Qed.
End Sqlite.
