(* ===== verification/World.v ===== *)
(** * The world the engine runs in

    [internal/engine] is one object driving many external systems: targets,
    traffic routers, flag providers, metrics backends, commands, a clock, a
    store.  Its operations are functions in a small state monad over [World]:
    the store, the in-process locks, the in-memory freeze, the redactor, and the
    trace of every interaction with the outside, newest first.  What the outside
    answers is the record [Env] of functions of that trace: quantifying over it
    covers every behaviour an external system can show, including changing its
    mind.  [Engine] holds the configuration [engine.New] and its options set. *)

From S2P Require Import Prelude GoTime Config Progressive Model Risk Security Store.

(** ** What crosses the boundary *)
Record Entry := {
  en_Action : string;
  en_RolloutID : string;
  en_TargetRef : string;
  en_Phase : string;
  en_Actor : Identity;
  en_Detail : string;
}.

Definition ActionApply : string := "apply".
Definition ActionPromote : string := "promote".
Definition ActionRollback : string := "rollback".
Definition ActionDrift : string := "drift".
Definition ActionOrphan : string := "orphan".
Definition ActionFreeze : string := "freeze".

Record Event := {
  nk_Kind : string;
  nk_TargetRef : string;
  nk_RolloutID : string;
  nk_Detail : string;
  nk_Version : string;
  nk_Environment : string;
}.

Definition ApprovalNeeded : string := "approval_needed".
Definition NotifyFailed : string := "failed".
Definition NotifyRolledBack : string := "rolled_back".
Definition NotifyPromoted : string := "promoted".

Record TrafficChange := {
  tc_Route : string;
  tc_Namespace : string;
  tc_StableService : string;
  tc_CanaryService : string;
  tc_Weight : Z;
}.

Record FlagChange := {
  fc_Flag : string;
  fc_Environment : string;
  fc_Percentage : Z;
  fc_Disabled : bool;
}.

Record GovRequest := {
  gq_Action : string;
  gq_TargetRef : string;
  gq_Actor : Identity;
  gq_Environment : string;
  gq_Version : string;
}.

Record GovDecision := { gd_Allowed : bool; gd_Reason : string }.

Record HttpRequest := {
  hq_Method : string;
  hq_URL : string;
  hq_Bearer : string;
  hq_Basic : option (string * string);
  hq_Body : string;
}.

Record HttpResponse := {
  hp_Status : Z;
  hp_Authenticate : string;
  hp_Digest : string;
  hp_Link : string;
  hp_Body : string;
}.

(** A node of a YAML document. *)
#[warnings="-register-all"]
Inductive Node :=
| NDocument (content : list Node)
| NMapping (content : list Node)
| NOther (value : string) (content : list Node).

Inductive Effect :=
| EBuild (t : Config.Target)
| EApply (t : Config.Target) (m : Manifest)
| EObserve (t : Config.Target)
| EHealth (t : Config.Target)
| EDiff (t : Config.Target) (m : Manifest)
| ERender (t : Config.Target) (m : Manifest)
| EResources (t : Config.Target)
| EPreflight (t : Config.Target) (m : Manifest)
| EReap (t : Config.Target)
| ERouter (tr : Config.TrafficRouting)
| ETraffic (c : TrafficChange)
| EFlagProvider (ff : Config.FeatureFlags)
| EFlag (c : FlagChange)
| EExec (command environ : list string)
| EMetrics (a : Config.Analysis)
| EQuery (q : string)
| ESeries (q : string)
| ESecret (ref : string)
| EGovern (r : GovRequest)
| EVerifyArtifact (ref : string)
| ERate (agent : string)
| EWait (d : Duration)
| EAudit (en : Entry)
| ENotify (ev : Event)
| EGit (dir : string) (header args : list string)
| EReadFile (path : string)
| EWriteFile (path content : string)
| ERemoveAll (path : string)
| EHttp (r : HttpRequest).

(** The answers of the outside, each a function of the trace so far (the
    request itself included).  The optional capabilities of a target are the
    boolean fields. *)
Record Env := {
  o_build : list Effect → Config.Target → option err;
  o_apply : list Effect → Config.Target → Manifest → option err;
  o_observe : list Effect → Config.Target → result Fingerprint;
  o_health : list Effect → Config.Target → result HealthStatus;
  o_differ : Config.Target → bool;
  o_diff : list Effect → Config.Target → Manifest → result string;
  o_renderer : Config.Target → bool;
  o_referenced : Config.Target → Manifest → bool;
  o_render : list Effect → Config.Target → Manifest → result string;
  o_inspector : Config.Target → bool;
  o_resources : list Effect → Config.Target → result (list Resource);
  o_preflighter : Config.Target → bool;
  o_preflight : list Effect → Config.Target → Manifest → option err;
  o_reaper : Config.Target → bool;
  o_reap : list Effect → Config.Target → result Z;
  o_router : list Effect → Config.TrafficRouting → option err;
  o_traffic : list Effect → TrafficChange → option err;
  o_flag_provider : list Effect → Config.FeatureFlags → option err;
  o_flag : list Effect → FlagChange → option err;
  o_exec : list Effect → list string → result Z;
  o_environ : list string;
  o_metrics : list Effect → Config.Analysis → option err;
  o_series_capable : bool;
  o_query : list Effect → string → result float;
  o_series : list Effect → string → result (list float);
  o_secret : list Effect → string → result string;
  o_govern : list Effect → GovRequest → result GovDecision;
  o_artifact : list Effect → string → result (bool * string);
  o_rate : list Effect → string → bool;
  o_ctx_done : list Effect → bool;
  o_cel : string → result celAst;
  o_cel_vars : list string → string → result celAst;
  o_sha256 : string → string;
  o_spec_sum : gmap string any → string;
  o_now : nat → Time;
  (* git, the file system, HTTP, and the decoders of documents *)
  o_git : list Effect → string → list string → string * option err;
  o_git_token : list Effect → result string;
  o_read_file : list Effect → string → result string;
  o_write_file : list Effect → string → string → option err;
  o_remove_all : list Effect → string → option err;
  o_http : list Effect → HttpRequest → result HttpResponse;
  o_load_all : list Effect → string → result (list (string * Config.t));
  o_dangling : list Effect → list string → list string;   (* the warnings of the kubernetes target about documents *)
  o_load : string → result Config.t;
  o_yaml : string → result Node;
  o_yaml_out : Node → result string;
  o_regexp : string → result (string → bool);
  o_url : string → result (string * string * string);   (* scheme, host, host name *)
  o_json_out : list (string * string) → string;
  o_json_tags : string → result (list string);
  o_json_token : string → result (string * string);
  o_json_pr : string → result (string * string);
  o_json_prs : string → result (list (string * string));
  o_json_hook : string → result (string * string * string);
  o_hmac : string → string → string;
}.

(** ** Configuration of an engine *)
Record Guardrails := {
  gr_Floor : PolicyFloor;
  gr_Freeze : bool;         (* an in-memory freeze is attached *)
  gr_AgentLimit : bool;     (* an agent rate limiter is attached *)
  gr_FreezeSource : bool;   (* the freeze is read from the store, as boot wires it *)
}.

Record Engine := {
  e_guardrails : option Guardrails;
  e_audit : bool;
  e_governance : bool;
  e_artifact : option (string * bool);   (* mode, has a verifier *)
  e_secrets : bool;
  e_notifier : bool;
  e_metrics : bool;                      (* an injected metrics provider *)
  e_analysis : bool;
  e_confinement : Confinement;
  e_owner : string;
  e_leaseTTL : Duration;
  e_healthRetryDelay : Duration;
  e_allowSelfApprove : bool;
  e_root : string;                       (* the context's config root *)
}.

(** ** The state and the monad *)
Record World (S : Type) := MkWorld {
  w_store : S;
  w_locks : gset string;
  w_freeze : Freeze;
  w_secrets : list string;      (* the redactor's values *)
  w_tick : nat;                 (* reads of the clock so far *)
  w_trace : list Effect;
}.
Arguments MkWorld {S} _ _ _ _ _ _.
Arguments w_store {S} _.
Arguments w_locks {S} _.
Arguments w_freeze {S} _.
Arguments w_secrets {S} _.
Arguments w_tick {S} _.
Arguments w_trace {S} _.

Definition M (S A : Type) : Type := World S → A * World S.

#[global] Instance M_ret S : MRet (M S) := λ A a w, (a, w).
#[global] Instance M_bind S : MBind (M S) := λ A B k m w, let '(a, w') := m w in k a w'.

(** A call that may fail, with what to do on the error and on the value. *)
Definition on_error {S B} (c : M S (option err)) (h : err → M S B) (k : M S B) : M S B :=
  r ← c; match r with Some e => h e | None => k end.
Definition on_result {S A B} (c : M S (result A)) (h : err → M S B) (k : A → M S B) : M S B :=
  r ← c; match r with Ok a => k a | Err e => h e end.

(** [check c catch e => h ; k]: Go's [if err := c; err != nil { h }; k]. *)
Notation "'check' c 'catch' e => h ; k" := (on_error c (λ e, h) k)
  (at level 20, c at level 100, e name, h at level 200, k at level 200, right associativity) : go_scope.
(** [get x <- c catch e => h ; k]: the same for a call with a value. *)
Notation "'get' x <- c 'catch' e => h ; k" := (on_result c (λ e, h) (λ x, k))
  (at level 20, x pattern, c at level 100, e name, h at level 200, k at level 200, right associativity) : go_scope.

Section Primitives.
Context {S : Type}.
Implicit Types (w : World S).

Definition set_store (s : S) w : World S :=
  MkWorld s (w_locks w) (w_freeze w) (w_secrets w) (w_tick w) (w_trace w).
Definition set_locks (l : gset string) w : World S :=
  MkWorld (w_store w) l (w_freeze w) (w_secrets w) (w_tick w) (w_trace w).
Definition set_freeze (f : Freeze) w : World S :=
  MkWorld (w_store w) (w_locks w) f (w_secrets w) (w_tick w) (w_trace w).
Definition set_secrets (l : list string) w : World S :=
  MkWorld (w_store w) (w_locks w) (w_freeze w) l (w_tick w) (w_trace w).
Definition set_tick (n : nat) w : World S :=
  MkWorld (w_store w) (w_locks w) (w_freeze w) (w_secrets w) n (w_trace w).
Definition set_trace (tr : list Effect) w : World S :=
  MkWorld (w_store w) (w_locks w) (w_freeze w) (w_secrets w) (w_tick w) tr.

(** A store operation. *)
Definition store {A} (f : S → A * S) : M S A :=
  λ w, let '(a, s) := f (w_store w) in (a, set_store s w).

(** An interaction with the outside: recorded, then answered. *)
Definition ask {A} (eff : Effect) (f : list Effect → A) : M S A :=
  λ w, let tr := eff :: w_trace w in (f tr, set_trace tr w).

Definition read {A} (f : World S → A) : M S A := λ w, (f w, w).
Definition write (f : World S → World S) : M S unit := λ w, (tt, f w).

(** [e.now()] and the default [e.newID()]. *)
Definition now (env : Env) : M S Time :=
  λ w, (o_now env (w_tick w), set_tick (Datatypes.S (w_tick w)) w).
Definition newID (env : Env) : M S string :=
  t ← now env; mret ("ro-" +:+ FormatID t).

(** Runs [body], then [after] whatever [body] returned: a [defer]. *)
Definition deferred {A} (after : M S unit) (body : M S A) : M S A :=
  r ← body; after;; mret r.
End Primitives.

(** ** Auditing and notifying *)

(** [strings.ReplaceAll] for a non-empty [old]. *)
Fixpoint replace_all (fuel : nat) (s old new : string) : string :=
  match fuel, s with
  | Datatypes.S fuel, String c s' =>
      if HasPrefix s old then new +:+ replace_all fuel (str_drop (str_len old) s) old new
      else String c (replace_all fuel s' old new)
  | _, _ => s
  end.
Definition ReplaceAll (s old new : string) : string := replace_all (str_len s) s old new.

(** The redactor: [Scrub] and [Register]. *)
Definition Scrub (values : list string) (s : string) : string :=
  foldl (λ s v, ReplaceAll s v "***") s values.
Definition Register (values : list string) (v : string) : list string :=
  if v == "" then values else values ++ [v].

(** [Logger.Record]; no entry modelled here carries extra fields. *)
Definition audit_Record {S} (en : Entry) : M S unit :=
  vs ← read w_secrets;
  ask (EAudit {| en_Action := en_Action en; en_RolloutID := en_RolloutID en;
                 en_TargetRef := en_TargetRef en; en_Phase := en_Phase en;
                 en_Actor := en_Actor en; en_Detail := Scrub vs (en_Detail en) |}) (λ _, tt).

Section Audit.
Context {S : Type} (e : Engine).

Definition record (en : Entry) : M S unit :=
  if e_audit e then audit_Record en else mret tt.

Definition notifyEvent (ev : Event) : M S unit :=
  if e_notifier e then ask (ENotify ev) (λ _, tt) else mret tt.
End Audit.

Example replace_all_demo : ReplaceAll "pw=hunter2 hunter2!" "hunter2" "***" = "pw=*** ***!".
Proof. reflexivity. Qed.
