(* ===== verification/Git.v ===== *)
(** * Git

    [internal/git]: a checked-out working tree and the commands run in it
    ([repo.go]), proposals by pull request ([pullrequest.go]) and the webhook
    that asks for a tick ([webhook.go]).  A git command, an HTTP call and a file
    are interactions with the outside; the layer decides which, in what order and
    what a failure means. *)

From S2P Require Import Prelude Encoding GoTime Config Progressive Model Risk Security Store World.

Definition slash : Ascii.ascii := Ascii.ascii_of_nat 47.

(** ** Paths ([path/filepath] on Unix) *)
Definition clean_step (rooted : bool) (stack : list string) (part : string) : list string :=
  if (part == "") || (part == ".") then stack
  else if part == ".." then
    match stack with
    | [] => if rooted then [] else [".."]
    | top :: rest => if top == ".." then ".." :: stack else rest
    end
  else part :: stack.

Definition Clean (p : string) : string :=
  let rooted := HasPrefix p "/" in
  let parts := rev (foldl (clean_step rooted) [] (Split p slash)) in
  let body := Join parts "/" in
  if rooted then "/" +:+ body else if body == "" then "." else body.

Definition path_join (a b : string) : string :=
  match filter (λ s, s ≠ "") [a; b] with
  | [] => ""
  | parts => Clean (Join parts "/")
  end.

(** Up to and including the last slash. *)
Fixpoint dir_prefix (s : string) : string :=
  match s with
  | EmptyString => EmptyString
  | String c s => if bool_decide (c = slash) then String c (dir_prefix s)
                  else match dir_prefix s with EmptyString => EmptyString | d => String c d end
  end.

Definition Dir (p : string) : string := Clean (dir_prefix p).

(** ** Which repository a URL names *)
Fixpoint Index (s sub : string) : option nat :=
  if HasPrefix s sub then Some O
  else match s with
       | String _ s => Datatypes.S <$> Index s sub
       | EmptyString => None
       end.

(** What follows the first [sub], or the string itself. *)
Definition after_first (s sub : string) : string :=
  match Index s sub with Some i => str_drop (i + str_len sub) s | None => s end.

Fixpoint trim_slashes_front (s : string) : string :=
  match s with String c s' => if bool_decide (c = slash) then trim_slashes_front s' else s | EmptyString => s end.
Fixpoint trim_slashes_back (s : string) : string :=
  match s with
  | String c s' => match trim_slashes_back s' with
                   | EmptyString => if bool_decide (c = slash) then EmptyString else String c EmptyString
                   | s'' => String c s''
                   end
  | EmptyString => s
  end.

Definition ownerRepoFromURL (url : string) : result (string * string) :=
  let u := TrimSuffix (TrimSpace url) ".git" in
  let u := if HasPrefix u "git@" then after_first u ":"
           else if Contains u "://" then TrimPrefix (after_first (after_first u "://") "/") "git@"
           else u in
  match rev (Split (trim_slashes_back (trim_slashes_front u)) slash) with
  | repo :: owner :: _ => if (owner == "") || (repo == "")
                          then Err (Errorf ("git: cannot parse owner/repo from URL " +:+ quote url))
                          else Ok (owner, repo)
  | _ => Err (Errorf ("git: cannot parse owner/repo from URL " +:+ quote url))
  end.

Definition repoKey (s : string) : option string :=
  match ownerRepoFromURL s with Ok (owner, repo) => Some (ToLower (owner +:+ "/" +:+ repo)) | Err _ => None end.

Definition SameRepo (watchURL hint : string) : bool :=
  match repoKey watchURL, repoKey hint with Some a, Some b => a == b | _, _ => false end.

Example same_repo_demo :
  SameRepo "git@github.com:Acme/shop.git" "acme/shop" = true ∧
  SameRepo "https://github.com/acme/shop" "ssh://git@github.com/acme/blog" = false ∧
  Clean "/a/./b/../c//" = "/a/c" ∧ path_join "/repo" (Dir "apps/web.yaml") = "/repo/apps".
Proof. done. Qed.

(** ** The working tree *)
Record Source := { src_dir : string; src_branch : string; src_url : string; src_apiBase : string }.

(** [redactArgs]: no header value reaches a message. *)
Definition redactArgs (args : list string) : string :=
  Join ((λ a, if HasPrefix a "http.extraheader=" then "http.extraheader=Authorization: <redacted>" else a) <$> args) " ".

Definition os_Getenv (environ : list string) (key : string) : string :=
  match head (filter (λ kv, HasPrefix kv (key +:+ "=") = true) environ) with
  | Some kv => str_drop (str_len key + 1) kv
  | None => ""
  end.

Definition requireSignedCommits (environ : list string) : bool :=
  bool_decide (ToLower (TrimSpace (os_Getenv environ "ROLLOPS_REQUIRE_SIGNED_COMMITS")) ∈ ["1"; "true"; "yes"; "on"]).

Section Git.
Context {S : Type} (env : Env).

Definition auth_header (token : string) : list string :=
  if token == "" then [] else ["-c"; "http.extraheader=Authorization: Basic " +:+ EncodeToString StdEncoding ("x-access-token:" +:+ token)].

(** A command: its output, and the error if it failed. *)
Definition git (workdir : string) (args : list string) : M S (string * option err) :=
  tok ← read (λ w, o_git_token env (w_trace w));
  match tok with
  | Err er => mret ("", Some (Wrap "git: resolve token: " er ""))
  | Ok token =>
      let header := auth_header token in
      '(out, er) ← ask (EGit workdir header args) (λ tr, o_git env tr workdir (header ++ args));
      mret (out, (λ er, Wrap ("git " +:+ redactArgs (header ++ args) +:+ ": ") er "") <$> er)
  end.

Definition git_ok (workdir : string) (args : list string) : M S (option err) :=
  '(_, er) ← git workdir args; mret er.

Definition Clone (url branch dir : string) : M S (result Source) :=
  check git_ok "" ["clone"; "--depth"; "1"; "--branch"; branch; url; dir]
    catch er => mret (Err (Wrap ("git: clone " +:+ url +:+ "@" +:+ branch +:+ ": ") er ""));
  mret (Ok {| src_dir := dir; src_branch := branch; src_url := url; src_apiBase := "" |}).

Definition Head (s : Source) : M S (result string) :=
  '(out, er) ← git (src_dir s) ["rev-parse"; "HEAD"];
  mret (match er with Some er => Err er | None => Ok (TrimSpace out) end).

Definition VerifyHeadSignature (s : Source) : M S (option err) :=
  check git_ok (src_dir s) ["verify-commit"; "HEAD"]
    catch er => mret (Some (Wrap "git: HEAD commit signature verification failed: " er ""));
  mret None.

(** Whether HEAD moved; the heads are compared as text, an unreadable one before
    is empty. *)
Definition Pull (s : Source) : M S (result bool) :=
  b ← Head s;
  let before := match b with Ok h => h | Err _ => "" end in
  check git_ok (src_dir s) ["fetch"; "origin"; src_branch s] catch er => mret (Err er);
  check git_ok (src_dir s) ["reset"; "--hard"; "origin/" +:+ src_branch s] catch er => mret (Err er);
  get after <- Head s catch er => mret (Err er);
  if requireSignedCommits (o_environ env) then
    check VerifyHeadSignature s catch er => mret (Err er);
    mret (Ok (before != after))
  else mret (Ok (before != after)).

Definition invalid_path (clean : string) : bool := (clean == ".") || HasPrefix clean ".." || HasPrefix clean "/".

Definition commit_args (message : string) : list string :=
  ["-c"; "user.name=rollops"; "-c"; "user.email=rollops@localhost"; "commit"; "-m"; message].

(** Whether a commit was made. *)
Definition CommitFile (s : Source) (relPath content message : string) : M S (result bool) :=
  let clean := Clean relPath in
  if invalid_path clean then mret (Err (Errorf ("git: invalid relative path " +:+ quote relPath)))
  else
    let path := path_join (src_dir s) clean in
    (* the parent directories are made with it *)
    check ask (EWriteFile path content) (λ tr, o_write_file env tr path content)
      catch er => mret (Err (Wrap "git: write file: " er ""));
    check git_ok (src_dir s) ["add"; clean] catch er => mret (Err er);
    '(out, er) ← git (src_dir s) ["diff"; "--cached"; "--quiet"];
    match er with
    | None => mret (Ok false)
    | Some er =>
        if out != "" then mret (Err er)
        else
          check git_ok (src_dir s) (commit_args message) catch er => mret (Err er);
          get _ <- Head s catch er => mret (Err er);
          mret (Ok true)
    end.

Definition Push (s : Source) : M S (option err) := git_ok (src_dir s) ["push"; "origin"; src_branch s].

Definition CommitFileOnBranch (s : Source) (headBranch relPath content message : string) : M S (result bool) :=
  if (headBranch == "") || (headBranch == src_branch s) then
    mret (Err (Errorf ("git: refusing to commit on the tracked branch " +:+ quote (src_branch s) +:+ " via the PR path")))
  else
    check git_ok (src_dir s) ["checkout"; "-B"; headBranch; src_branch s]
      catch er => mret (Err (Wrap ("git: checkout -B " +:+ headBranch +:+ ": ") er ""));
    get committed <- CommitFile s relPath content message
      catch er => (git_ok (src_dir s) ["checkout"; src_branch s];; mret (Err er));
    check git_ok (src_dir s) ["checkout"; src_branch s]
      catch er => mret (Err (Wrap ("git: return to " +:+ src_branch s +:+ ": ") er ""));
    mret (Ok committed).

Definition RemoteFileMatches (s : Source) (branch relPath want : string) : M S bool :=
  check git_ok (src_dir s) ["fetch"; "origin"; branch] catch er => mret false;
  '(got, er) ← git (src_dir s) ["show"; "FETCH_HEAD:" +:+ relPath];
  mret (match er with Some _ => false | None => got == want end).

Definition PushBranch (s : Source) (headBranch : string) : M S (option err) :=
  git_ok (src_dir s) ["push"; "--force"; "origin"; headBranch +:+ ":" +:+ headBranch].

(** ** Pull requests *)
Definition githubAPI (s : Source) (method path body : string) : M S (result HttpResponse) :=
  tok ← read (λ w, o_git_token env (w_trace w));
  match tok with
  | Err er => mret (Err (Wrap "git: resolve token: " er ""))
  | Ok token =>
      let base := if src_apiBase s == "" then "https://api.github.com" else src_apiBase s in
      let rq := {| hq_Method := method; hq_URL := base +:+ path; hq_Bearer := token; hq_Basic := None; hq_Body := body |} in
      get resp <- ask (EHttp rq) (λ tr, o_http env tr rq)
        catch er => mret (Err (Wrap ("git: github api " +:+ method +:+ " " +:+ path +:+ ": ") er ""));
      mret (Ok resp)
  end.

Definition status_text (what : string) (resp : HttpResponse) : err :=
  Errorf (what +:+ ": status " +:+ pretty (hp_Status resp) +:+ ": " +:+ TrimSpace (hp_Body resp)).

Definition findOpenPR (s : Source) (owner repo head : string) : M S (result (string * string)) :=
  get resp <- githubAPI s "GET" ("/repos/" +:+ owner +:+ "/" +:+ repo +:+ "/pulls?state=open&head=" +:+ owner +:+ ":" +:+ head) ""
    catch er => mret (Err er);
  if negb (hp_Status resp =? 200) then mret (Err (status_text ("git: list PRs for " +:+ head) resp))
  else
    mret (match o_json_prs env (hp_Body resp) with
          | Err er => Err (Wrap "git: parse PR list: " er "")
          | Ok [] => Err (Errorf ("git: PR for head " +:+ head +:+ " reported existing but none found open"))
          | Ok (pr :: _) => Ok pr
          end).

Definition createOrFindPR (s : Source) (owner repo head base title body : string) : M S (result (string * string)) :=
  let payload := o_json_out env [("title", title); ("head", head); ("base", base); ("body", body)] in
  get resp <- githubAPI s "POST" ("/repos/" +:+ owner +:+ "/" +:+ repo +:+ "/pulls") payload catch er => mret (Err er);
  if hp_Status resp =? 201 then
    mret (match o_json_pr env (hp_Body resp) with
          | Err er => Err (Wrap "git: parse created PR: " er "")
          | Ok pr => Ok pr
          end)
  else if (hp_Status resp =? 422) && Contains (ToLower (hp_Body resp)) "already exist" then findOpenPR s owner repo head
  else mret (Err (status_text ("git: open PR " +:+ owner +:+ "/" +:+ repo +:+ " (" +:+ head +:+ "→" +:+ base +:+ ")") resp)).

Definition quoted_errors : string := String dquote ("errors" +:+ String dquote "").

Definition enableAutoMerge (s : Source) (prNodeID : string) : M S (option err) :=
  if prNodeID == "" then mret (Some (Errorf "git: auto-merge: empty PR node id"))
  else
    let payload := o_json_out env
      [("query", "mutation($id:ID!){enablePullRequestAutoMerge(input:{pullRequestId:$id,mergeMethod:SQUASH}){clientMutationId}}");
       ("variables", o_json_out env [("id", prNodeID)])] in
    get resp <- githubAPI s "POST" "/graphql" payload catch er => mret (Some er);
    if negb (hp_Status resp =? 200) || Contains (hp_Body resp) quoted_errors
    then mret (Some (status_text "git: enable auto-merge" resp))
    else mret None.

(** The proposal's URL and whether it merges itself. *)
Definition OpenPullRequest (s : Source) (headBranch base title body : string) : M S (result (string * bool)) :=
  match ownerRepoFromURL (src_url s) with
  | Err er => mret (Err er)
  | Ok (owner, repo) =>
      get pr <- createOrFindPR s owner repo headBranch base title body catch er => mret (Err er);
      merr ← enableAutoMerge s pr.1;
      mret (Ok (pr.2, match merr with None => true | Some _ => false end))
  end.
End Git.

(** ** Webhooks *)
Definition maxWebhookBytes : nat := 1048576.

Definition hex_digit (c : Ascii.ascii) : option Z :=
  let n := byte c in
  if (48 <=? n) && (n <=? 57) then Some (n - 48)
  else if (97 <=? n) && (n <=? 102) then Some (n - 87)
  else if (65 <=? n) && (n <=? 70) then Some (n - 55)
  else None.

(** [hex.DecodeString]. *)
Fixpoint hex_decode (s : string) : option string :=
  match s with
  | String a (String b s) =>
      x ← hex_digit a; y ← hex_digit b; rest ← hex_decode s;
      Some (String (Ascii.ascii_of_nat (Z.to_nat (16 * x + y))) rest)
  | String _ EmptyString => None
  | EmptyString => Some EmptyString
  end.

Definition hex_char (n : Z) : Ascii.ascii := Ascii.ascii_of_nat (Z.to_nat (if n <? 10 then 48 + n else 87 + n)).

Fixpoint hex_encode (s : string) : string :=
  match s with
  | String c s => String (hex_char (byte c / 16)) (String (hex_char (byte c mod 16)) (hex_encode s))
  | EmptyString => EmptyString
  end.

Definition ErrBadSignature : err := Errorf "git: webhook signature verification failed".

(** [hmac key body] is HMAC-SHA256. *)
Definition VerifySignature (hmac : string → string → string) (secret body signatureHeader : string) : option err :=
  if negb (HasPrefix signatureHeader "sha256=") then Some ErrBadSignature
  else match hex_decode (TrimPrefix signatureHeader "sha256=") with
       | None => Some ErrBadSignature
       | Some want => if hmac secret body == want then None else Some ErrBadSignature
       end.

Definition Sign (hmac : string → string → string) (secret body : string) : string :=
  "sha256=" +:+ hex_encode (hmac secret body).

(** The repository a payload names: full name, clone URL, page URL. *)
Definition GitHubRepoHint (decode : string → result (string * string * string)) (body : string) : string :=
  match decode body with
  | Err _ => ""
  | Ok (fullName, cloneURL, htmlURL) =>
      if fullName != "" then fullName else if cloneURL != "" then cloneURL else htmlURL
  end.

Record HookRequest := { hk_Method : string; hk_Body : result string; hk_Signature : string }.

Section Webhook.
Context {S : Type} (env : Env).

(** The status answered; [tick] runs on an accepted payload. *)
Definition WebhookHandler (secret : string) (tick : string → M S unit) (r : HookRequest) : M S Z :=
  if secret == "" then mret 404
  else if hk_Method r != "POST" then mret 405
  else match hk_Body r with
       | Err _ => mret 400
       | Ok body =>
           if (maxWebhookBytes <? str_len body)%nat then mret 413
           else match VerifySignature (o_hmac env) secret body (hk_Signature r) with
                | Some _ => mret 401
                | None => tick (GitHubRepoHint (o_json_hook env) body);; mret 202
                end
       end.
End Webhook.

Lemma hex_digit_char n : 0 ≤ n < 16 → hex_digit (hex_char n) = Some n.
Proof.
  intros Hn. assert (forallb (λ n, bool_decide (hex_digit (hex_char n) = Some n))
    [0;1;2;3;4;5;6;7;8;9;10;11;12;13;14;15] = true) as H by (vm_compute; reflexivity).
  rewrite forallb_forall in H. specialize (H n). apply bool_decide_eq_true in H; [done|]. simpl. lia.
Qed.

Lemma hex_roundtrip s : hex_decode (hex_encode s) = Some s.
Proof.
  induction s as [|c s IH]; [done|]. cbn [hex_encode hex_decode].
  assert (0 ≤ byte c < 256) as Hb by (unfold byte; pose proof (Ascii.nat_ascii_bounded c); lia).
  rewrite !hex_digit_char by (Z.to_euclidean_division_equations; lia). simpl. rewrite IH. simpl. f_equal. f_equal.
  replace (16 * (byte c / 16) + byte c mod 16) with (byte c) by (rewrite <- Z.div_mod; lia).
  unfold byte. rewrite Nat2Z.id. apply Ascii.ascii_nat_embedding.
Qed.

(** ** Properties *)

(** A request GitHub made: the route is enabled, and a body of bounded size
    carries its own HMAC under the shared secret. *)
Definition authentic (env : Env) (secret : string) (r : HookRequest) (body : string) : Prop :=
  secret ≠ "" ∧ hk_Method r = "POST" ∧ hk_Body r = Ok body ∧ (str_len body ≤ maxWebhookBytes)%nat ∧
  ∃ hex, hk_Signature r = "sha256=" +:+ hex ∧ hex_decode hex = Some (o_hmac env secret body).

Lemma has_prefix_split p s : HasPrefix s p = true → s = p +:+ TrimPrefix s p.
Proof.
  intros H. unfold TrimPrefix. rewrite H. unfold HasPrefix in H. revert s H.
  induction p as [|c p IH]; intros s H; [by destruct s|]. destruct s as [|d s]; [done|]. cbn in H.
  destruct (Ascii.ascii_dec c d) as [->|]; [|done]. exact (f_equal (String d) (IH s H)).
Qed.

Lemma trim_prefix_app p s : HasPrefix (p +:+ s) p = true ∧ TrimPrefix (p +:+ s) p = s.
Proof.
  assert (HasPrefix (p +:+ s) p = true) as H.
  { unfold HasPrefix. induction p as [|c p IH]; [by destruct s|].
    change (String c p +:+ s) with (String c (p +:+ s)). unfold String.prefix. fold String.prefix.
    destruct (Ascii.ascii_dec c c); [exact IH|done]. }
  split; [done|]. unfold TrimPrefix. rewrite H. clear H. induction p as [|c p IH]; [done|]. exact IH.
Qed.

Lemma VerifySignature_ok hmac secret body header :
  VerifySignature hmac secret body header = None ↔
  ∃ hex, header = "sha256=" +:+ hex ∧ hex_decode hex = Some (hmac secret body).
Proof.
  unfold VerifySignature. destruct (HasPrefix header "sha256=") eqn:Hp; simpl.
  - split.
    + destruct (hex_decode _) as [want|] eqn:Hh; [|done]. case_bool_decide as E; [|done]. intros _.
      exists (TrimPrefix header "sha256="). split; [by apply has_prefix_split|]. by rewrite E.
    + intros (hex & -> & Hx). rewrite (proj2 (trim_prefix_app "sha256=" hex)), Hx. by case_bool_decide.
  - split; [done|]. intros (hex & -> & _). by rewrite (proj1 (trim_prefix_app "sha256=" hex)) in Hp.
Qed.

(** A refusal leaves the world alone. *)
Ltac refuse := intros [= <- <-]; left; split_and!; [done|done|naive_solver lia].

(** Only GitHub can ask for a tick.  The webhook handler ticks exactly when
    the route has a secret and a POST of at most 1 MiB carries the HMAC of its
    body, and then for the repository the payload names; in every other case it
    answers an error and the world is as before.  What [Sign] signs is accepted. *)
Theorem webhook_ticks_only_when_signed {S} env secret (tick : string → M S unit) r (w : World S) :
  let '(status, w') := WebhookHandler env secret tick r w in
  (status = 202 ↔ ∃ body, authentic env secret r body) ∧
  (∀ body, authentic env secret r body → w' = (tick (GitHubRepoHint (o_json_hook env) body) w).2) ∧
  (status ≠ 202 → w' = w) ∧
  (∀ body, secret ≠ "" → hk_Method r = "POST" → hk_Body r = Ok body → (str_len body ≤ maxWebhookBytes)%nat →
     hk_Signature r = Sign (o_hmac env) secret body → status = 202).
Proof.
  assert (∀ status w', (WebhookHandler env secret tick r w = (status, w')) →
    (status ≠ 202 ∧ w' = w ∧ ∀ body, ¬ authentic env secret r body) ∨
    (status = 202 ∧ ∃ body, authentic env secret r body ∧ w' = (tick (GitHubRepoHint (o_json_hook env) body) w).2)) as Hc.
  { intros status w'. unfold WebhookHandler, authentic. case_bool_decide; [refuse|].
    case_bool_decide; simpl; [|refuse].
    destruct (hk_Body r) as [body|er]; [|refuse].
    destruct (Nat.ltb_spec maxWebhookBytes (str_len body)); [refuse|].
    destruct (VerifySignature _ _ _ _) eqn:Hv.
    - intros [= <- <-]. left. split_and!; [done..|]. intros body' (_ & _ & [= <-] & _ & Hx).
      apply VerifySignature_ok in Hx. congruence.
    - unfold mbind, M_bind. destruct (tick _ w) as [[] w1] eqn:Ht. intros [= <- <-]. right. split; [done|].
      exists body. rewrite Ht. apply VerifySignature_ok in Hv. done. }
  destruct (WebhookHandler env secret tick r w) as [status w'] eqn:Hw. specialize (Hc _ _ eq_refl).
  assert (∀ body body', authentic env secret r body → authentic env secret r body' → body = body') as Hone
    by (unfold authentic; naive_solver congruence).
  split_and!.
  - naive_solver.
  - intros body Hb. destruct Hc as [(_ & _ & Hn)|(_ & body' & Hb' & ->)]; [by destruct (Hn body)|].
    by rewrite (Hone body body').
  - naive_solver.
  - intros body Hs Hm Hb Hl Hsig. destruct Hc as [(_ & _ & Hn)|(-> & _)]; [|done]. destruct (Hn body).
    split_and!; [done..|]. rewrite Hsig. exists (hex_encode (o_hmac env secret body)).
    split; [done|apply hex_roundtrip].
Qed.
