(* ===== verification/ConfigLoad.v ===== *)
(** * Loading configurations

    [internal/config]: the files of a checkout ([repo.go]), the registry of
    clusters ([clusters.go]) and rollout sets, which expand into one config per
    element ([rolloutset.go]).  YAML is the class [Yaml]: the decoders of each
    document, the encoder, the order in which Go walks a map, and [load], which
    is [Load] (decode and validate, see [Validate]).  The file system is the
    record [FS]. *)

From S2P Require Import Prelude Encoding GoTime Config Progressive Model Risk Security Store World Git.

(** ** Files *)
Inductive FileMode := MRegular | MSymlink | MDirectory | MOther.
#[global] Instance FileMode_eq_dec : EqDecision FileMode.
Proof. solve_decision. Defined.

Record FS := {
  fs_lstat : string → result FileMode;                (* of the entry itself *)
  fs_read : string → result string;                   (* open and read, links followed *)
  fs_stat_dir : string → result bool;                 (* is a directory, links followed *)
  fs_readdir : string → result (list (string * bool));   (* by name; is itself a directory *)
}.

Definition maxConfigBytes : Z := 1048576.

Definition readConfigFile (fs : FS) (path : string) : result string :=
  try mode <- fs_lstat fs path;
  if bool_decide (mode = MSymlink) then Err (Errorf ("config: " +:+ path +:+ " is a symlink; refusing to follow"))
  else if negb (bool_decide (mode = MRegular)) then Err (Errorf ("config: " +:+ path +:+ " is not a regular file"))
  else
    try data <- fs_read fs path;
    if maxConfigBytes <? Z.of_nat (str_len data)
    then Err (Errorf ("config: " +:+ path +:+ " exceeds " +:+ pretty maxConfigBytes +:+ " bytes"))
    else Ok data.

Record RepoRef := { rr_URL : string; rr_Branch : string; rr_Path : string }.
Definition DefaultBranch : string := "main".
Definition DefaultPath : string := "rollops.yaml".
Definition WithDefaults (r : RepoRef) : RepoRef := {|
  rr_URL := rr_URL r;
  rr_Branch := if rr_Branch r == "" then DefaultBranch else rr_Branch r;
  rr_Path := if rr_Path r == "" then DefaultPath else rr_Path r |}.

Record NamedConfig := { nc_Path : string; nc_Config : Config.t }.

(** [filepath.Join(dir, filepath.Clean("/" + path)[1:])]. *)
Definition inside (dir path : string) : string := path_join dir (str_drop 1 (Clean ("/" +:+ path))).

(** [filepath.Ext] of a name without slashes: from the last dot on. *)
Definition dot : Ascii.ascii := char 46.
Definition Ext (name : string) : string :=
  match Split name dot with
  | [] | [_] => ""
  | parts => "." +:+ List.last parts ""
  end.

(** ** The registry of clusters *)
Record Cluster := {
  cl_Name : string;
  cl_Kubeconfig : string;
  cl_Context : string;
  cl_Labels : gmap string string;
}.

(** ** Rollout sets *)
Definition KindRolloutSet : string := "RolloutSet".

Inductive rolloutSetGenerator :=
| GNone
| GList (elements : list (gmap string any))
| GCluster (matchLabels : gmap string string)
| GBoth.

Record rolloutSetDoc := {
  rs_APIVersion : string;
  rs_Metadata : Config.Metadata;
  rs_Generators : list rolloutSetGenerator;
  rs_Template : option (gmap string any);
}.

Class Yaml := {
  yaml_head : string → result (string * string);      (* apiVersion and kind *)
  yaml_set : string → result rolloutSetDoc;
  yaml_clusters : string → result (list Cluster);
  yaml_marshal : any → result string;
  load : string → result Config.t;
  sprint : any → string;                              (* [fmt.Sprint] of numbers, lists and maps *)
  map_order : gmap string any → list string;          (* the keys in the order of a [range] *)
}.

Definition SelectClusters (all : list Cluster) (matchLabels : gmap string string) : list Cluster :=
  if bool_decide (size matchLabels = 0%nat) then all
  else filter (λ c, map_Forall (λ k v, default "" (cl_Labels c !! k) = v) matchLabels) all.

Fixpoint check_clusters (i : nat) (seen : gset string) (l : list Cluster) : option err :=
  match l with
  | [] => None
  | c :: l =>
      if cl_Name c == "" then Some (Errorf ("clusters: entry " +:+ pretty i +:+ " is missing name"))
      else if bool_decide (cl_Name c ∈ seen) then Some (Errorf ("clusters: duplicate name " +:+ quote (cl_Name c)))
      else check_clusters (Datatypes.S i) ({[cl_Name c]} ∪ seen) l
  end.

Definition safeConfigPath (path : string) : result string :=
  if path == "" then Err (Errorf "empty path")
  else if Contains path ".." then Err (Errorf ("path " +:+ quote path +:+ " must not contain dot-dot segments"))
  else if negb (HasPrefix path "/") then Err (Errorf ("path " +:+ quote path +:+ " must be absolute"))
  else Ok (Clean path).

Definition clusterElement (c : Cluster) : gmap string any :=
  map_fold (λ k v el, <["cluster.labels." +:+ k := AString v]> el)
    (list_to_map [("name", AString (cl_Name c)); ("kubeconfig", AString (cl_Kubeconfig c));
                  ("context", AString (cl_Context c)); ("cluster.name", AString (cl_Name c));
                  ("cluster.kubeconfig", AString (cl_Kubeconfig c)); ("cluster.context", AString (cl_Context c))])
    (cl_Labels c).

(** One pass of the exchange sort: the longest key comes to the front. *)
Fixpoint exchange (cur : string) (rest : list string) : string * list string :=
  match rest with
  | [] => (cur, [])
  | x :: rest =>
      if (str_len cur <? str_len x)%nat then let '(m, rest') := exchange x rest in (m, cur :: rest')
      else let '(m, rest') := exchange cur rest in (m, x :: rest')
  end.
Fixpoint longest_first (n : nat) (keys : list string) : list string :=
  match n, keys with
  | Datatypes.S n, k :: keys => let '(m, rest) := exchange k keys in m :: longest_first n rest
  | _, _ => keys
  end.

Section Expand.
Context `{Yaml}.

Definition ParseClusters (data : string) : result (list Cluster) :=
  match yaml_clusters data with
  | Err er => Err (Wrap "clusters: parse: " er "")
  | Ok cs =>
      if (length cs =? 0)%nat then Err (Errorf "clusters: no clusters listed")
      else match check_clusters 0 ∅ cs with Some er => Err er | None => Ok cs end
  end.

Definition LoadClustersFile (fs : FS) (path : string) : result (list Cluster) :=
  if path == "" then Ok []
  else match safeConfigPath path with
       | Err er => Err (Wrap "clusters: " er "")
       | Ok clean =>
           match fs_read fs clean with
           | Err er => Err (Wrap ("clusters: read " +:+ clean +:+ ": ") er "")
           | Ok data => ParseClusters data
           end
       end.

(** [LoadClusterRegistryEnv]: the registry after it, or the error. *)
Definition LoadClusterRegistryEnv (fs : FS) (getenv : string → string) (registry : list Cluster)
    : list Cluster * option err :=
  let path := getenv "ROLLOPS_CLUSTERS" in
  if path == "" then (registry, None)
  else match LoadClustersFile fs path with
       | Err er => (registry, Some er)
       | Ok clusters => (clusters, None)
       end.

Definition stringify (v : option any) : string :=
  match v with
  | Some (AString s) => s
  | None | Some ANil => ""
  | Some v => sprint v
  end.

Definition placeholder (k : string) : string := "{{" +:+ k +:+ "}}".

Definition substitute (s : string) (el : gmap string any) : string :=
  let keys := map_order el in
  foldl (λ s k, ReplaceAll s (placeholder k) (stringify (el !! k))) s (longest_first (length keys) keys).

(** The first placeholder left over. *)
Definition leftover (rendered : string) : option string :=
  match Index rendered "{{" with
  | None => None
  | Some i => let rest := str_drop i rendered in
              Some (match Index rest "}}" with Some e => str_take (e + 2) rest | None => rest end)
  end.

Definition set_metadata (set : rolloutSetDoc) (template : gmap string any) (name : string) : gmap string any :=
  let labels := Config.md_Labels (rs_Metadata set) in
  let meta : gmap string any := {[ "name" := AString (Config.md_Name (rs_Metadata set) +:+ "-" +:+ name) ]} in
  let meta := if bool_decide (size labels = 0%nat) then meta
              else <["labels" := AMap (prod_map id AString <$> map_to_list labels)]> meta in
  match template !! "metadata" with
  | Some (AMap tm) => foldl (λ m '(k, v), <[k := v]> m) meta tm
  | _ => meta
  end.

Definition expandOne (set : rolloutSetDoc) (template : gmap string any) (el : gmap string any) (name : string)
    : result Config.t :=
  match template !! "spec" with
  | None => Err (Errorf "template.spec is required")
  | Some spec =>
      let doc := AMap [("apiVersion", AString Config.SchemaVersion); ("kind", AString Config.Kind);
                       ("metadata", AMap (map_to_list (set_metadata set template name))); ("spec", spec)] in
      match yaml_marshal doc with
      | Err er => Err (Wrap "marshal template: " er "")
      | Ok raw =>
          let rendered := substitute raw el in
          match leftover rendered with
          | Some ph => Err (Errorf ("unknown placeholder " +:+ ph))
          | None => load rendered
          end
      end
  end.

Fixpoint expand_elements (set : rolloutSetDoc) (template : gmap string any) (path : string) (i : nat)
    (seenRef : gmap string string) (elements : list (gmap string any)) : result (list NamedConfig) :=
  match elements with
  | [] => Ok []
  | el :: elements =>
      let name := stringify (el !! "name") in
      if name == "" then Err (Errorf ("config: " +:+ path +:+ ": list element " +:+ pretty i +:+ " is missing name"))
      else match expandOne set template el name with
      | Err er => Err (Wrap ("config: " +:+ path +:+ "#" +:+ name +:+ ": ") er "")
      | Ok cfg =>
          let ref := Config.tg_Ref (Config.sp_Target (Config.spec cfg)) in
          match seenRef !! ref with
          | Some prev => Err (Errorf ("config: " +:+ path +:+ ": duplicate target.ref " +:+ quote ref +:+
                                      " from elements " +:+ prev +:+ " and " +:+ name))
          | None =>
              try rest <- expand_elements set template path (Datatypes.S i) (<[ref := name]> seenRef) elements;
              Ok ({| nc_Path := path; nc_Config := cfg |} :: rest)
          end
      end
  end.

Definition expandFromElements (set : rolloutSetDoc) (template : gmap string any) (path : string)
    (elements : list (gmap string any)) : result (list NamedConfig) :=
  if (length elements =? 0)%nat then Err (Errorf ("config: " +:+ path +:+ ": generator produced no elements"))
  else expand_elements set template path 0 ∅ elements.

Definition expandFromClusters (registry : list Cluster) (set : rolloutSetDoc) (template : gmap string any)
    (path : string) (matchLabels : gmap string string) : result (list NamedConfig) :=
  if (length registry =? 0)%nat then
    Err (Errorf ("config: " +:+ path +:+ ": cluster generator needs a registry (set ROLLOPS_CLUSTERS)"))
  else
    let selected := SelectClusters registry matchLabels in
    if (length selected =? 0)%nat then Err (Errorf ("config: " +:+ path +:+ ": cluster selector matched no clusters"))
    else expandFromElements set template path (clusterElement <$> selected).

Definition expandRolloutSet (registry : list Cluster) (data path : string) : result (list NamedConfig) :=
  match yaml_set data with
  | Err er => Err (Wrap ("config: " +:+ path +:+ ": parse RolloutSet: ") er "")
  | Ok set =>
      if rs_APIVersion set != Config.SchemaVersion then
        Err (Errorf ("config: " +:+ path +:+ ": unsupported apiVersion " +:+ quote (rs_APIVersion set) +:+
                     " (this build supports " +:+ quote Config.SchemaVersion +:+ ")"))
      else if Config.md_Name (rs_Metadata set) == "" then
        Err (Errorf ("config: " +:+ path +:+ ": RolloutSet metadata.name is required"))
      else match rs_Template set with
      | None => Err (Errorf ("config: " +:+ path +:+ ": RolloutSet template is required"))
      | Some template =>
          match rs_Generators set with
          | [g] =>
              match g with
              | GBoth => Err (Errorf ("config: " +:+ path +:+ ": generator must be list or cluster, not both"))
              | GList elements => expandFromElements set template path elements
              | GCluster matchLabels => expandFromClusters registry set template path matchLabels
              | GNone => Err (Errorf ("config: " +:+ path +:+ ": RolloutSet generator must be list or cluster"))
              end
          | _ => Err (Errorf ("config: " +:+ path +:+ ": RolloutSet requires exactly one generator (list or cluster)"))
          end
      end
  end.

Definition peekKind (data : string) : result string :=
  match yaml_head data with
  | Err er => Err (Wrap "parse: " er "")
  | Ok (apiVersion, kind) =>
      if (apiVersion != "") && (apiVersion != Config.SchemaVersion) then
        Err (Errorf ("unsupported apiVersion " +:+ quote apiVersion +:+ " (this build supports " +:+ quote Config.SchemaVersion +:+ ")"))
      else Ok kind
  end.

Definition ErrApplyRolloutSet : err :=
  Errorf "config: refuse apply of kind RolloutSet — plan/doctor expand it; the daemon watcher applies each generated target".

Definition RefuseApplyRolloutSet (data : string) : option err :=
  match peekKind data with
  | Err er => Some er
  | Ok kind => if kind == KindRolloutSet then Some ErrApplyRolloutSet else None
  end.

Definition loadDocuments (registry : list Cluster) (data path : string) : result (list NamedConfig) :=
  match peekKind data with
  | Err er => Err (Wrap ("config: " +:+ path +:+ ": ") er "")
  | Ok kind =>
      if (kind == Config.Kind) || (kind == "") then
        match load data with
        | Err er => Err (Wrap ("config: " +:+ path +:+ ": ") er "")
        | Ok c => Ok [{| nc_Path := path; nc_Config := c |}]
        end
      else if kind == KindRolloutSet then expandRolloutSet registry data path
      else Err (Errorf ("config: " +:+ path +:+ ": unsupported kind " +:+ quote kind +:+
                        " (want " +:+ quote Config.Kind +:+ " or " +:+ quote KindRolloutSet +:+ ")"))
  end.

Definition LoadFromDir (fs : FS) (dir : string) (r : RepoRef) : result Config.t :=
  let r := WithDefaults r in
  match readConfigFile fs (inside dir (rr_Path r)) with
  | Err er => Err (Wrap ("config: read " +:+ rr_Path r +:+ ": ") er "")
  | Ok data => match load data with
               | Err er => Err (Wrap ("config: " +:+ rr_Path r +:+ ": ") er "")
               | Ok c => Ok c
               end
  end.

Definition is_config_name (e : string * bool) : bool := negb e.2 && ((Ext e.1 == ".yaml") || (Ext e.1 == ".yml")).

Fixpoint load_entries (fs : FS) (registry : list Cluster) (full path : string) (entries : list (string * bool))
    : result (list NamedConfig) :=
  match entries with
  | [] => Ok []
  | e :: entries =>
      if negb (is_config_name e) then load_entries fs registry full path entries
      else match readConfigFile fs (path_join full e.1) with
      | Err er => Err (Wrap ("config: read " +:+ path +:+ "/" +:+ e.1 +:+ ": ") er "")
      | Ok data =>
          try docs <- loadDocuments registry data (path_join path e.1);
          try rest <- load_entries fs registry full path entries;
          Ok (docs ++ rest)
      end
  end.

Definition LoadAllFromDir (fs : FS) (registry : list Cluster) (dir : string) (r : RepoRef) : result (list NamedConfig) :=
  let r := WithDefaults r in
  let full := inside dir (rr_Path r) in
  match fs_stat_dir fs full with
  | Err er => Err (Wrap ("config: stat " +:+ rr_Path r +:+ ": ") er "")
  | Ok false =>
      match readConfigFile fs full with
      | Err er => Err (Wrap ("config: read " +:+ rr_Path r +:+ ": ") er "")
      | Ok data => loadDocuments registry data (rr_Path r)
      end
  | Ok true =>
      match fs_readdir fs full with
      | Err er => Err (Wrap ("config: read dir " +:+ rr_Path r +:+ ": ") er "")
      | Ok entries =>
          try out <- load_entries fs registry full (rr_Path r) entries;
          if (length out =? 0)%nat then Err (Errorf ("config: no .yaml configs in " +:+ rr_Path r)) else Ok out
      end
  end.
End Expand.

(** ** Facts on paths *)
#[local] Arguments String.append : simpl nomatch.

Lemma split_go_app sep a b cur :
  split_go sep cur (a +:+ String sep b) = split_go sep cur a ++ Split b sep.
Proof.
  revert cur. induction a as [|c a IH]; intros cur; simpl.
  - by rewrite bool_decide_eq_true_2.
  - case_bool_decide; simpl; by rewrite IH.
Qed.
Lemma Split_app sep a b : Split (a +:+ String sep b) sep = Split a sep ++ Split b sep.
Proof. apply split_go_app. Qed.

Fixpoint lacks (sep : Ascii.ascii) (s : string) : Prop :=
  match s with EmptyString => True | String c s => c ≠ sep ∧ lacks sep s end.

Lemma lacks_app sep a b : lacks sep (a +:+ b) ↔ lacks sep a ∧ lacks sep b.
Proof. induction a as [|c a IH]; simpl; [naive_solver|]. rewrite IH. naive_solver. Qed.

Lemma rev_app_spec a b : String.rev_app a b = String.rev a +:+ b.
Proof.
  revert b. unfold String.rev. induction a as [|c a IH]; intros b; simpl; [done|].
  rewrite IH, (IH (String c "")), <- str_app_assoc. done.
Qed.
Lemma rev_cons_str c a : String.rev (String c a) = String.rev a +:+ String c "".
Proof. unfold String.rev. simpl. apply rev_app_spec. Qed.
Lemma rev_app_str a b : String.rev (a +:+ b) = String.rev b +:+ String.rev a.
Proof.
  induction a as [|c a IH]; simpl; [by rewrite str_app_empty_r|].
  by rewrite !rev_cons_str, IH, <- str_app_assoc.
Qed.
Lemma rev_involutive_str a : String.rev (String.rev a) = a.
Proof. induction a as [|c a IH]; [done|]. by rewrite rev_cons_str, rev_app_str, IH. Qed.
Lemma lacks_rev sep a : lacks sep (String.rev a) ↔ lacks sep a.
Proof. induction a as [|c a IH]; [done|]. rewrite rev_cons_str, lacks_app, IH. simpl. naive_solver. Qed.

Lemma split_go_lacks sep cur s : lacks sep s → split_go sep cur s = [String.rev cur +:+ s].
Proof.
  revert cur. induction s as [|c s IH]; intros cur; simpl; [by rewrite str_app_empty_r|].
  intros [Hc Hs]. rewrite bool_decide_eq_false_2 by done. rewrite IH by done.
  by rewrite rev_cons_str, <- str_app_assoc.
Qed.
Lemma Split_lacks sep s : lacks sep s → Split s sep = [s].
Proof. apply split_go_lacks. Qed.

Lemma split_parts_lack sep cur s x : lacks sep cur → x ∈ split_go sep cur s → lacks sep x.
Proof.
  revert cur. induction s as [|c s IH]; intros cur Hcur; simpl.
  - intros ->%list_elem_of_singleton. by apply lacks_rev.
  - case_bool_decide; [intros [-> | Hx]%elem_of_cons; [by apply lacks_rev|by eapply (IH "")]|]. by apply IH.
Qed.
Lemma Split_parts_lack sep s x : x ∈ Split s sep → lacks sep x.
Proof. by apply split_parts_lack. Qed.

Lemma Split_Join sep parts : parts ≠ [] → Forall (lacks sep) parts → Split (Join parts (String sep "")) sep = parts.
Proof.
  induction parts as [|p [|q parts] IH]; intros Hne Hl; [done| |].
  - apply Forall_inv in Hl. by apply Split_lacks.
  - inversion_clear Hl. change (Join (p :: q :: parts) (String sep "")) with (p +:+ String sep (Join (q :: parts) (String sep ""))).
    rewrite Split_app, IH by done. by rewrite Split_lacks.
Qed.

(** The components of a rooted path, innermost first. *)
Definition components (p : string) : list string := foldl (clean_step true) [] (Split p slash).

(** A component that [Clean] keeps. *)
Definition plain (s : string) : Prop := s ≠ "" ∧ s ≠ "." ∧ s ≠ ".." ∧ lacks slash s.

Lemma clean_step_plain st p : plain p → clean_step true st p = p :: st.
Proof. intros (? & ? & ? & _). unfold clean_step. by rewrite !bool_decide_eq_false_2. Qed.

Lemma clean_push st parts : Forall plain parts → foldl (clean_step true) st parts = rev parts ++ st.
Proof.
  revert st. induction parts as [|p parts IH]; intros st Hp; [done|]. inversion_clear Hp. simpl.
  by rewrite clean_step_plain, IH, <- (assoc_L (++)) by done.
Qed.

Lemma clean_stack_plain st parts :
  Forall plain st → Forall (lacks slash) parts → Forall plain (foldl (clean_step true) st parts).
Proof.
  revert st. induction parts as [|p parts IH]; intros st Hst Hl; [done|]. inversion_clear Hl. simpl. apply IH; [|done].
  unfold clean_step. repeat case_bool_decide; simpl; try done.
  - destruct st as [|top rest]; [done|]. inversion_clear Hst as [|?? [? [? [? ?]]]]. by rewrite bool_decide_eq_false_2.
  - constructor; [|done]. done.
Qed.

Lemma components_plain p : Forall plain (components p).
Proof. apply clean_stack_plain; [done|]. apply Forall_forall. intros x. apply Split_parts_lack. Qed.

Lemma components_app a b : components (a +:+ String slash b) = foldl (clean_step true) (components a) (Split b slash).
Proof. unfold components. by rewrite Split_app, foldl_app. Qed.

Lemma Clean_rooted p : HasPrefix p "/" = true → Clean p = "/" +:+ Join (rev (components p)) "/".
Proof. intros Hp. unfold Clean. by rewrite Hp. Qed.

Lemma push_joined st parts : Forall plain parts →
  foldl (clean_step true) st (Split (Join parts "/") slash) = rev parts ++ st.
Proof.
  intros Hp. destruct (decide (parts = [])) as [->|Hne]; [done|].
  change "/" with (String slash ""). rewrite Split_Join, clean_push; [done|done|done|].
  eapply Forall_impl; [exact Hp|]. by intros x (_ & _ & _ & ?).
Qed.

Lemma components_Clean p : HasPrefix p "/" = true → components (Clean p) = components p.
Proof.
  intros Hp. rewrite Clean_rooted by done.
  change ("/" +:+ Join (rev (components p)) "/") with ("" +:+ String slash (Join (rev (components p)) "/")).
  rewrite components_app, push_joined.
  - by rewrite rev_involutive, app_nil_r.
  - apply Forall_rev, components_plain.
Qed.

Lemma HasPrefix_app_l a b p : HasPrefix a p = true → HasPrefix (a +:+ b) p = true.
Proof. intros [r ->]%HasPrefix_spec. apply HasPrefix_spec. exists (r +:+ b). by rewrite str_app_assoc. Qed.

Lemma components_path_join a b :
  HasPrefix a "/" = true → components (path_join a b) = foldl (clean_step true) (components a) (Split b slash).
Proof.
  intros Ha. assert (a ≠ "") as Hne by (intros ->; done). unfold path_join.
  rewrite filter_cons_True by done. destruct (decide (b = "")) as [->|Hb].
  - rewrite filter_cons_False by naive_solver. simpl. by rewrite components_Clean.
  - rewrite filter_cons_True by done. simpl. change (a +:+ "/" +:+ b) with (a +:+ String slash b).
    rewrite components_Clean by (by apply HasPrefix_app_l). apply components_app.
Qed.

Lemma components_inside dir path :
  HasPrefix dir "/" = true → components (inside dir path) = components ("/" +:+ path) ++ components dir.
Proof.
  intros Hd. unfold inside. rewrite components_path_join, Clean_rooted; [|apply (HasPrefix_app "/")|done].
  change (str_drop 1 ("/" +:+ Join (rev (components ("/" +:+ path))) "/")) with (Join (rev (components ("/" +:+ path))) "/").
  rewrite push_joined by apply Forall_rev, components_plain. by rewrite rev_involutive.
Qed.

Lemma path_join_rooted a b : HasPrefix a "/" = true → HasPrefix (path_join a b) "/" = true.
Proof.
  intros Ha. assert (a ≠ "") as Hne by (intros ->; done). unfold path_join.
  rewrite filter_cons_True by done. destruct (filter _ [b]) as [|x l]; simpl.
  - rewrite Clean_rooted by done. apply (HasPrefix_app "/").
  - rewrite Clean_rooted by (by apply HasPrefix_app_l). apply (HasPrefix_app "/").
Qed.

(** *** What a load rests on *)
Section LoadFacts.
Context `{Yaml} (fs : FS) (registry : list Cluster).

(** [data] was read from a bounded regular file below [dir]. *)
Definition read_below (dir : string) (file data : string) : Prop :=
  (∃ below, components file = below ++ components dir ∧ Forall plain below) ∧
  fs_lstat fs file = Ok MRegular ∧ fs_read fs file = Ok data ∧ Z.of_nat (str_len data) ≤ maxConfigBytes.

Lemma readConfigFile_spec path data :
  readConfigFile fs path = Ok data →
  fs_lstat fs path = Ok MRegular ∧ fs_read fs path = Ok data ∧ Z.of_nat (str_len data) ≤ maxConfigBytes.
Proof.
  unfold readConfigFile. destruct (fs_lstat fs path) as [mode|]; simpl; [|done].
  destruct mode; simpl; try done. destruct (fs_read fs path) as [d|]; simpl; [|done].
  destruct (Z.ltb_spec maxConfigBytes (Z.of_nat (str_len d))); [done|]. by intros [= ->].
Qed.

(** The file names [os.ReadDir] gives are single components. *)
Definition plain_names : Prop := ∀ d entries e, fs_readdir fs d = Ok entries → e ∈ entries → plain e.1.

Lemma load_entries_spec full path entries out :
  load_entries fs registry full path entries = Ok out →
  (∀ nc, nc ∈ out ↔ ∃ e data docs, e ∈ entries ∧ is_config_name e = true ∧
     readConfigFile fs (path_join full e.1) = Ok data ∧
     loadDocuments registry data (path_join path e.1) = Ok docs ∧ nc ∈ docs) ∧
  (∀ e, e ∈ entries → is_config_name e = true → ∃ data docs,
     readConfigFile fs (path_join full e.1) = Ok data ∧ loadDocuments registry data (path_join path e.1) = Ok docs).
Proof.
  revert out. induction entries as [|e entries IH]; intros out; simpl.
  { intros [= <-]. split; [|set_solver]. intros nc. split; [set_solver|]. intros (? & ? & ? & ?%elem_of_nil & _). done. }
  destruct (is_config_name e) eqn:He; simpl.
  2:{ intros [H1 H2]%IH. split.
      - intros nc. rewrite H1. split; intros (e' & d & ds & Hin & Hc & Hrest); exists e', d, ds.
        + by split; [right|].
        + apply elem_of_cons in Hin as [-> | Hin]; [congruence|done].
      - intros e' [-> | Hin]%elem_of_cons Hc; [congruence|by apply H2]. }
  destruct (readConfigFile fs (path_join full e.1)) as [data|] eqn:Hr; simpl; [|done].
  destruct (loadDocuments registry data (path_join path e.1)) as [docs|] eqn:Hd; simpl; [|done].
  destruct (load_entries fs registry full path entries) as [rest|] eqn:Hl; simpl; [|done].
  intros [= <-]. destruct (IH rest eq_refl) as [H1 H2]. split.
  - intros nc. rewrite elem_of_app, H1. split.
    + intros [Hnc|(e' & d' & ds' & ? & ?)]; [exists e, data, docs|exists e', d', ds'].
      * by split; [left|].
      * by split; [right|].
    + intros (e' & d' & ds' & [-> | He']%elem_of_cons & Hc & Hr' & Hd' & Hnc); [left; congruence|right].
      exists e', d', ds'. done.
  - intros e' [-> | He']%elem_of_cons Hc; [eauto|by apply H2].
Qed.
End LoadFacts.

(** *** Sorting and expanding *)
Lemma exchange_spec cur rest m rest' :
  exchange cur rest = (m, rest') →
  m :: rest' ≡ₚ cur :: rest ∧ (∀ x, x ∈ cur :: rest → (str_len x ≤ str_len m)%nat).
Proof.
  revert cur m rest'. induction rest as [|x rest IH]; intros cur m rest'; simpl.
  { intros [= <- <-]. split; [done|]. by intros x ->%list_elem_of_singleton. }
  destruct (Nat.ltb_spec (str_len cur) (str_len x)) as [Hlt|Hge].
  - destruct (exchange x rest) as [m0 r0] eqn:E. intros [= <- <-]. destruct (IH _ _ _ E) as [Hp Hm]. split.
    + rewrite Permutation_swap. by rewrite Hp.
    + intros y [-> | Hy]%elem_of_cons; [|by apply Hm]. specialize (Hm x ltac:(left)). lia.
  - destruct (exchange cur rest) as [m0 r0] eqn:E. intros [= <- <-]. destruct (IH _ _ _ E) as [Hp Hm]. split.
    + rewrite Permutation_swap, Hp. apply Permutation_swap.
    + intros y [-> | [-> | Hy]%elem_of_cons]%elem_of_cons; [apply Hm; left| |apply Hm; by right].
      specialize (Hm cur ltac:(left)). lia.
Qed.

(** The keys of an element are tried longest first, none left out. *)
Lemma longest_first_spec n keys :
  (length keys ≤ n)%nat →
  longest_first n keys ≡ₚ keys ∧ StronglySorted (λ a b, str_len b ≤ str_len a)%nat (longest_first n keys).
Proof.
  revert keys. induction n as [|n IH]; intros [|k keys] Hn; simpl in *; try done; try lia;
    [split; [done|constructor]..|].
  destruct (exchange k keys) as [m rest] eqn:E. destruct (exchange_spec _ _ _ _ E) as [Hp Hm].
  assert (length rest ≤ n)%nat as Hl by (apply Permutation_length in Hp; simpl in Hp; lia).
  destruct (IH rest Hl) as [Hp' Hs]. split; [by rewrite Hp'|]. constructor; [done|].
  apply Forall_forall. intros x Hx. apply Hm. rewrite <- Hp. right. by rewrite <- Hp'.
Qed.

Definition target_ref (c : Config.t) : string := Config.tg_Ref (Config.sp_Target (Config.spec c)).

Section ExpandFacts.
Context `{Yaml}.

(** [nc] is what the element [el] of a set makes of the template. *)
Definition expansion_of (set : rolloutSetDoc) (template : gmap string any) (path : string)
    (el : gmap string any) (nc : NamedConfig) : Prop :=
  stringify (el !! "name") ≠ "" ∧ nc_Path nc = path ∧
  ∃ rendered, load rendered = Ok (nc_Config nc) ∧ Index rendered "{{" = None ∧
    ∃ spec raw, template !! "spec" = Some spec ∧
      yaml_marshal (AMap [("apiVersion", AString Config.SchemaVersion); ("kind", AString Config.Kind);
        ("metadata", AMap (map_to_list (set_metadata set template (stringify (el !! "name"))))); ("spec", spec)]) = Ok raw ∧
      rendered = substitute raw el.

Lemma leftover_None s : leftover s = None → Index s "{{" = None.
Proof. unfold leftover. by destruct (Index s "{{"). Qed.

Lemma expandOne_spec set template path el cfg :
  stringify (el !! "name") ≠ "" → expandOne set template el (stringify (el !! "name")) = Ok cfg →
  expansion_of set template path el {| nc_Path := path; nc_Config := cfg |}.
Proof.
  intros Hn. unfold expandOne. destruct (template !! "spec") as [spec|] eqn:Hs; [|done].
  destruct (yaml_marshal _) as [raw|] eqn:Hm; [|done].
  destruct (leftover (substitute raw el)) eqn:Hl; [done|]. intros Hload.
  split; [done|]. split; [done|]. exists (substitute raw el). apply leftover_None in Hl.
  do 2 (split; [done|]). by exists spec, raw.
Qed.

Lemma expand_elements_spec set template path i seen els out :
  expand_elements set template path i seen els = Ok out →
  Forall2 (expansion_of set template path) els out ∧
  NoDup (target_ref ∘ nc_Config <$> out) ∧
  ∀ nc, nc ∈ out → seen !! target_ref (nc_Config nc) = None.
Proof.
  revert i seen out. induction els as [|el els IH]; intros i seen out; simpl.
  { intros [= <-]. split; [constructor|]. split; [constructor|]. set_solver. }
  case_bool_decide as Hn; [done|].
  destruct (expandOne set template el _) as [cfg|] eqn:He; [|done].
  destruct (seen !! _) eqn:Hs; [done|].
  destruct (expand_elements _ _ _ _ _ els) as [rest|] eqn:Hr; simpl; [|done]. intros [= <-].
  destruct (IH _ _ _ Hr) as (H1 & H2 & H3). split; [|split].
  - constructor; [by apply expandOne_spec|done].
  - rewrite fmap_cons. constructor; [|done]. intros (nc & Heq & Hnc)%list_elem_of_fmap.
    apply H3 in Hnc. simpl in Heq. unfold target_ref in *. rewrite <- Heq in Hnc. by rewrite lookup_insert_eq in Hnc.
  - intros nc [-> | Hnc]%elem_of_cons; [done|]. apply H3 in Hnc. by apply lookup_insert_None in Hnc as [? _].
Qed.
End ExpandFacts.

(** ** Properties *)
Section LoadProperties.
Context `{Yaml} (fs : FS) (registry : list Cluster).


(** A rollout set that expands gives one config per element, in order: the
    element is named, its config is the template with every placeholder replaced
    and validated as any config is, and no two of them have the same target. *)
Theorem set_expands_to_one_target_per_element set template path elements out :
  expandFromElements set template path elements = Ok out →
  elements ≠ [] ∧ Forall2 (expansion_of set template path) elements out ∧
  NoDup (target_ref ∘ nc_Config <$> out).
Proof.
  unfold expandFromElements. destruct elements as [|el els]; [done|]. simpl (_ =? _)%nat. cbv iota.
  intros (H1 & H2 & _)%expand_elements_spec. done.
Qed.
End LoadProperties.
