(* ===== verification/ImageSelect.v ===== *)
(** * Choosing an image

    [internal/imageupdate]: versions of tags and the choice of the next one
    ([select.go]), the policy a choice must meet and the edit of the manifest
    ([imageupdate.go]), and the parts of an image reference.  Regular expressions
    an operator writes are compiled by the argument [regexp]. *)

From S2P Require Import Prelude GoTime Config Progressive Model Risk Security Store World Git.

(** ** Versions *)
Record semver := { sv_major : Z; sv_minor : Z; sv_patch : Z; sv_pre : bool }.

Definition maxInt : Z := 2 ^ 63 - 1.

(** The longest run of digits and the rest. *)
Fixpoint digits_of (s : string) : string * string :=
  match s with
  | String c s' => if ParseDuration.is_digit c then let '(d, r) := digits_of s' in (String c d, r) else (EmptyString, s)
  | EmptyString => (EmptyString, EmptyString)
  end.

(** [strconv.Atoi] on digits; [None] when it overflows. *)
Fixpoint atoi_go (acc : Z) (s : string) : Z :=
  match s with
  | String c s => atoi_go (acc * 10 + default 0 (ParseDuration.digit c)) s
  | EmptyString => acc
  end.
Definition Atoi (s : string) : option Z := let n := atoi_go 0 s in if maxInt <? n then None else Some n.

(** One number of the version: at least one digit. *)
Definition number (s : string) : option (string * string) :=
  let '(d, r) := digits_of s in if d == "" then None else Some (d, r).

Definition dot (s : string) : option string :=
  match s with String c s => if bool_decide (c = ParseDuration.point) then Some s else None | EmptyString => None end.

Definition newline_char : Ascii.ascii := Ascii.ascii_of_nat 10.

(** The match of [semverRe]: an optional v, three numbers with dots between, and a
    rest, which cannot hold a newline. *)
Definition semver_match (tag : string) : option (string * string * string * string) :=
  let tag := TrimPrefix tag "v" in
  '(maj, s) ← number tag; s ← dot s;
  '(min, s) ← number s; s ← dot s;
  '(pat, s) ← number s;
  if IndexByte s newline_char then None else Some (maj, min, pat, s).

Definition parseSemver (tag : string) : option semver :=
  '(maj, min, pat, suffix) ← semver_match tag;
  x ← Atoi maj; y ← Atoi min; z ← Atoi pat;
  Some {| sv_major := x; sv_minor := y; sv_patch := z; sv_pre := HasPrefix suffix "-" |}.

Definition greater (a b : semver) : bool :=
  if negb (sv_major a =? sv_major b) then sv_major b <? sv_major a
  else if negb (sv_minor a =? sv_minor b) then sv_minor b <? sv_minor a
  else sv_patch b <? sv_patch a.

Definition IsSemver (tag : string) : bool :=
  match parseSemver tag with Some v => negb (sv_pre v) | None => false end.

(** ** Selecting *)
Section Select.
Context (regexp : string → result (string → bool)).

(** The pattern as a test; no pattern admits every tag. *)
Definition compileTagPattern (pattern : string) : result (option (string → bool)) :=
  if pattern == "" then Ok None
  else
    let expr := if negb (HasPrefix pattern "^") && negb (HasSuffix pattern "$") then "^(?:" +:+ pattern +:+ ")$" else pattern in
    try re <- regexp expr; Ok (Some re).

Definition admits (re : option (string → bool)) (tag : string) : bool :=
  match re with Some m => m tag | None => true end.

(** Whether the mode lets the version follow the current one. *)
Definition in_line (mode : string) (cur v : semver) : bool :=
  if mode == "minor" then sv_major v =? sv_major cur
  else if mode == "patch" then (sv_major v =? sv_major cur) && (sv_minor v =? sv_minor cur)
  else true.

Definition consider (re : option (string → bool)) (mode : string) (cur : semver) (acc : semver * string) (t : string)
    : semver * string :=
  if negb (admits re t) then acc
  else match parseSemver t with
       | None => acc
       | Some v => if sv_pre v then acc
                   else if negb (in_line mode cur v) then acc
                   else if greater v acc.1 then (v, t) else acc
       end.

Definition SelectTag (current : string) (available : list string) (mode pattern : string) : option string :=
  cur ← parseSemver current;
  match compileTagPattern pattern with
  | Err _ => None
  | Ok re =>
      let '(_, bestTag) := foldl (consider re mode cur) (cur, "") available in
      if bestTag == "" then None else Some bestTag
  end.

(** [sort.Slice] is not stable; the model keeps equal versions in order. *)
Definition newer_first (a b : string * semver) : Prop := greater b.2 a.2 = false.
#[global] Instance newer_first_dec a b : base.Decision (newer_first a b).
Proof. unfold newer_first. apply _. Defined.

Definition version_of (re : option (string → bool)) (t : string) : option (string * semver) :=
  if negb (admits re t) then None
  else match parseSemver t with
       | Some v => if sv_pre v then None else Some (t, v)
       | None => None
       end.

Definition SemverTagsDesc (available : list string) (pattern : string) : list string :=
  match compileTagPattern pattern with
  | Err _ => []
  | Ok re => (merge_sort newer_first (omap (version_of re) available)).*1
  end.

(** ** Policy *)
Definition cut_slash (s : string) : string * string * bool :=
  match IndexByte s slash with
  | Some i => (str_take i s, str_drop (i + 1) s, true)
  | None => (s, "", false)
  end.

Definition is_host (first : string) : bool := Contains first "." || Contains first ":" || (first == "localhost").

Definition registryOf (image : string) : string :=
  let '(first, _, _) := cut_slash image in if is_host first then first else "docker.io".

Record Policy := { po_AllowedRegistries : list string; po_TagPattern : string; po_AllowMutableTags : bool }.

Definition policy_Validate (p : Policy) (image tag : string) : option err :=
  if (image == "") || (tag == "") then Some (Errorf "imageupdate: image and tag are required")
  else if negb (po_AllowMutableTags p) && bool_decide (tag ∈ ["latest"; "main"; "master"]) then
    Some (Errorf ("imageupdate: mutable tag " +:+ quote tag +:+ " is not allowed"))
  else if (0 <? length (po_AllowedRegistries p))%nat && negb (bool_decide (registryOf image ∈ po_AllowedRegistries p)) then
    Some (Errorf ("imageupdate: registry " +:+ quote (registryOf image) +:+ " is not allowed"))
  else match compileTagPattern (po_TagPattern p) with
       | Err er => Some (Wrap "imageupdate: tagPattern: " er "")
       | Ok re => if admits re tag then None else Some (Errorf ("imageupdate: tag " +:+ quote tag +:+ " does not match policy"))
       end.
End Select.

(** ** Parts of a reference *)

(** [strings.LastIndexByte]. *)
Fixpoint LastIndexByte (s : string) (c : Ascii.ascii) : option nat :=
  match s with
  | EmptyString => None
  | String d s' => match LastIndexByte s' c with
                   | Some i => Some (Datatypes.S i)
                   | None => if bool_decide (d = c) then Some O else None
                   end
  end.

Definition index_z (o : option nat) : Z := match o with Some i => Z.of_nat i | None => -1 end.

Definition colon : Ascii.ascii := Ascii.ascii_of_nat 58.
Definition at_sign : Ascii.ascii := Ascii.ascii_of_nat 64.

Definition splitImage (image : string) : string * string :=
  let i := index_z (LastIndexByte image colon) in
  if index_z (LastIndexByte image slash) <? i
  then (str_take (Z.to_nat i) image, str_drop (Z.to_nat i + 1) image)
  else (image, "latest").

Definition splitDigestRef (ref : string) : string * string * string :=
  match IndexByte ref at_sign with
  | Some i => (splitImage (str_take i ref), str_drop (i + 1) ref)
  | None => (splitImage ref, "")
  end.

Definition ParseRef (image : string) : string * string :=
  let i := index_z (LastIndexByte image colon) in
  let ref := if index_z (LastIndexByte image slash) <? i then str_take (Z.to_nat i) image else image in
  let '(first, rest, ok) := cut_slash ref in
  if ok && is_host first then (first, rest)
  else if negb (Contains ref "/") then ("docker.io", "library/" +:+ ref)
  else ("docker.io", ref).

Definition shortDigest (d : string) : string :=
  if d == "" then "none"
  else match IndexByte d colon with
       | Some i => if (i + 13 <? str_len d)%nat then str_take (i + 13) d else d
       | None => d
       end.

Definition registryAllowed (image : string) (allowed : list string) : option err :=
  if (length allowed =? 0)%nat then None
  else
    let host := (ParseRef image).1 in
    if bool_decide (host ∈ allowed) then None
    else Some (Errorf ("imageauto: image registry " +:+ quote host +:+ " is not in allowedRegistries [" +:+ Join allowed " " +:+ "]")).

Example references :
  splitDigestRef "ghcr.io/acme/app:v1.2.3@sha256:ab" = (("ghcr.io/acme/app", "v1.2.3"), "sha256:ab") ∧
  splitDigestRef "localhost:5000/app" = (("localhost:5000/app", "latest"), "") ∧
  ParseRef "redis" = ("docker.io", "library/redis") ∧ ParseRef "ghcr.io/acme/app:v1" = ("ghcr.io", "acme/app") ∧
  shortDigest "sha256:0123456789abcdef" = "sha256:0123456789ab".
Proof. vm_compute. done. Qed.

(** ** Editing a manifest *)
Definition node_value (n : Node) : string := match n with NOther v _ => v | _ => "" end.

Definition set_value (ref : string) (n : Node) : Node := match n with NOther _ c => NOther ref c | n => n end.

(** The value of the first key of that name, keys and values in turn. *)
Fixpoint find_key (key : string) (content : list Node) : option Node :=
  match content with
  | k :: v :: rest => if node_value k == key then Some v else find_key key rest
  | _ => None
  end.

Fixpoint descend (n : Node) (keys : list string) : option Node :=
  match keys with
  | [] => Some n
  | key :: keys => match n with
                   | NMapping content => next ← find_key key content; descend next keys
                   | _ => None
                   end
  end.

Definition mappingPath (n : Node) (keys : list string) : option Node :=
  descend (match n with NDocument [m] => m | n => n end) keys.

(** The node at the path replaced in place: what assigning through the pointer
    does to the document. *)
Fixpoint update_key (key : string) (f : Node → Node) (content : list Node) : list Node :=
  match content with
  | k :: v :: rest => if node_value k == key then k :: f v :: rest else k :: v :: update_key key f rest
  | l => l
  end.

Fixpoint update_path (f : Node → Node) (keys : list string) (n : Node) : Node :=
  match keys with
  | [] => f n
  | key :: keys => match n with
                   | NMapping content => NMapping (update_key key (update_path f keys) content)
                   | n => n
                   end
  end.

Definition update_document (f : Node → Node) (keys : list string) (n : Node) : Node :=
  match n with NDocument [m] => NDocument [update_path f keys m] | n => update_path f keys n end.

Definition image_path : list string := ["spec"; "target"; "spec"; "image"].

Section Patch.
Context (yaml : string → result Node) (yaml_out : Node → result string).

(** The document, and whether it changed. *)
Definition PatchRolloutImageRef (data ref : string) : result (string * bool) :=
  if ref == "" then Err (Errorf "imageupdate: ref is required")
  else match yaml data with
       | Err er => Err (Wrap "imageupdate: parse yaml: " er "")
       | Ok doc =>
           match mappingPath doc image_path with
           | None => Err (Errorf "imageupdate: spec.target.spec.image not found")
           | Some node =>
               if node_value node == ref then Ok (data, false)
               else match yaml_out (update_document (set_value ref) image_path doc) with
                    | Err er => Err (Wrap "imageupdate: encode yaml: " er "")
                    | Ok out => Ok (out, true)
                    end
           end
       end.

Definition PatchRolloutImage (data image tag : string) : result (string * bool) :=
  if (image == "") || (tag == "") then Err (Errorf "imageupdate: image and tag are required")
  else PatchRolloutImageRef data (image +:+ ":" +:+ tag).
End Patch.

Example selecting :
  let re p := Ok (λ t : string, t == p) in
  SelectTag re "v1.2.3" ["v1.2.4"; "v1.10.0"; "v2.0.0-rc1"; "2.0.0"; "latest"; "99999999999999999999.0.0"] "minor" "" = Some "v1.10.0" ∧
  SelectTag re "v1.2.3" ["v1.2.4"; "v1.10.0"; "2.0.0"] "major" "" = Some "2.0.0" ∧
  SelectTag re "v1.2.3" ["v1.2.4"; "v1.10.0"; "2.0.0"] "patch" "" = Some "v1.2.4" ∧
  SelectTag re "v1.2.3" ["v1.2.3"; "v1.0.0"] "major" "" = None ∧
  SelectTag re "latest" ["v1.2.3"] "major" "" = None.
Proof. vm_compute. done. Qed.

(** ** The order of versions *)
Lemma greater_spec a b :
  greater a b = true ↔
  sv_major b < sv_major a ∨ (sv_major a = sv_major b ∧
    (sv_minor b < sv_minor a ∨ (sv_minor a = sv_minor b ∧ sv_patch b < sv_patch a))).
Proof.
  unfold greater. destruct (Z.eqb_spec (sv_major a) (sv_major b)), (Z.eqb_spec (sv_minor a) (sv_minor b)); simpl;
    rewrite Z.ltb_lt; lia.
Qed.

Lemma not_greater a b : greater a b = false ↔ ¬ greater a b = true.
Proof. destruct (greater a b); naive_solver. Qed.

Lemma greater_trans a b c : greater a b = true → greater b c = true → greater a c = true.
Proof. rewrite !greater_spec. lia. Qed.
Lemma greater_not_trans a b c : greater a b = false → greater b c = false → greater a c = false.
Proof. rewrite !not_greater, !greater_spec. lia. Qed.
Lemma greater_asym a b : greater a b = true → greater b a = false.
Proof. rewrite not_greater, !greater_spec. lia. Qed.

(** ** What may be selected *)
Record candidate (re : option (string → bool)) (mode : string) (cur : semver) (t : string) (v : semver) : Prop := {
  cd_admitted : admits re t = true;
  cd_version : parseSemver t = Some v;
  cd_release : sv_pre v = false;
  cd_line : in_line mode cur v = true;
  cd_newer : greater v cur = true;
}.

(** The best of the tags seen so far. *)
Definition best_of re mode cur (seen : list string) (acc : semver * string) : Prop :=
  (acc = (cur, "") ∧ ∀ t v, t ∈ seen → ¬ candidate re mode cur t v) ∨
  (acc.2 ∈ seen ∧ candidate re mode cur acc.2 acc.1 ∧
   ∀ t v, t ∈ seen → candidate re mode cur t v → greater v acc.1 = false).

Lemma consider_best re mode cur seen acc t :
  best_of re mode cur seen acc → best_of re mode cur (seen ++ [t]) (consider re mode cur acc t).
Proof.
  intros Hb.
  assert ((∀ v, ¬ candidate re mode cur t v) → best_of re mode cur (seen ++ [t]) acc) as Hskip.
  { intros Hno. destruct Hb as [[-> Hn]|(Hin & Hc & Hm)]; [left|right]; split_and!; try done.
    - intros t' v [?| ->%list_elem_of_singleton]%elem_of_app; [by apply Hn|by apply Hno].
    - set_solver.
    - intros t' v [?| ->%list_elem_of_singleton]%elem_of_app Hv; [by apply (Hm t')|by apply Hno in Hv]. }
  unfold consider. destruct (admits re t) eqn:Ha; simpl; [|apply Hskip; intros v []; congruence].
  destruct (parseSemver t) as [v|] eqn:Hv; [|apply Hskip; intros v' []; congruence].
  destruct (sv_pre v) eqn:Hp; [apply Hskip; intros v' []; congruence|].
  destruct (in_line mode cur v) eqn:Hl; simpl; [|apply Hskip; intros v' []; congruence].
  assert (∀ v', candidate re mode cur t v' → v' = v) as Hone by (intros v' []; congruence).
  destruct (greater v acc.1) eqn:Hg.
  - right. assert (greater v cur = true) as Hcur.
    { destruct Hb as [[-> _]|(_ & Hc & _)]; [done|]. eapply greater_trans; [exact Hg|by destruct Hc]. }
    simpl. split_and!; [set_solver|done|].
    intros t' v' [Ht'| ->%list_elem_of_singleton]%elem_of_app Hv'; [|rewrite (Hone v' Hv'); by apply not_greater; rewrite greater_spec; lia].
    destruct Hb as [[_ Hn]|(_ & _ & Hm)]; [by apply Hn in Hv'|].
    eapply greater_not_trans; [by apply (Hm t')|by apply greater_asym].
  - destruct Hb as [[-> Hn]|(Hin & Hc & Hm)]; [left|right]; split_and!; try done.
    + intros t' v' [?| ->%list_elem_of_singleton]%elem_of_app Hv'; [by eapply Hn|].
      rewrite (Hone v' Hv') in Hv'. destruct Hv'. simpl in Hg. congruence.
    + set_solver.
    + intros t' v' [?| ->%list_elem_of_singleton]%elem_of_app Hv'; [by apply (Hm t')|by rewrite (Hone v' Hv')].
Qed.

Lemma foldl_best re mode cur tags seen acc :
  best_of re mode cur seen acc → best_of re mode cur (seen ++ tags) (foldl (consider re mode cur) acc tags).
Proof.
  revert seen acc. induction tags as [|t tags IH]; intros seen acc Hb; [by rewrite app_nil_r|].
  simpl. replace (seen ++ t :: tags) with ((seen ++ [t]) ++ tags) by (by rewrite <- app_assoc).
  by apply IH, consider_best.
Qed.

Lemma no_version_in_nothing : parseSemver "" = None.
Proof. reflexivity. Qed.

(** ** Properties *)

(** Selection is exact.  Given a current version and a pattern that compiles,
    [SelectTag] returns a published tag that the pattern admits, that is a
    release in line with the mode and newer than the current one, and no other
    such tag is newer; it returns nothing exactly when there is no such tag. *)
Theorem SelectTag_exact regexp current available mode pattern cur re :
  parseSemver current = Some cur → compileTagPattern regexp pattern = Ok re →
  match SelectTag regexp current available mode pattern with
  | Some t => t ∈ available ∧ ∃ v, candidate re mode cur t v ∧
      ∀ t' v', t' ∈ available → candidate re mode cur t' v' → greater v' v = false
  | None => ∀ t v, t ∈ available → ¬ candidate re mode cur t v
  end.
Proof.
  intros Hc Hre. unfold SelectTag. rewrite Hc. simpl. rewrite Hre.
  pose proof (foldl_best re mode cur available [] (cur, "")) as Hb.
  destruct (foldl _ (cur, "") available) as [v t]. destruct Hb as [[[= -> ->] Hn]|(Hin & Hv & Hm)].
  - left. split; [done|]. set_solver.
  - done.
  - simpl in *. case_bool_decide as E; [|eauto]. exfalso. subst t. destruct Hv as [_ Hp _ _ _].
    by rewrite no_version_in_nothing in Hp.
Qed.

Lemma SelectTag_exact_witness :
  let re := λ p : string, Ok (λ t : string, t == p) in
  ∃ v, candidate None "minor" {| sv_major := 1; sv_minor := 2; sv_patch := 3; sv_pre := false |} "v1.10.0" v ∧
    ∀ t' v', t' ∈ ["v1.2.4"; "v1.10.0"; "2.0.0"] →
      candidate None "minor" {| sv_major := 1; sv_minor := 2; sv_patch := 3; sv_pre := false |} t' v' → greater v' v = false.
Proof.
  intros re. pose proof (SelectTag_exact re "v1.2.3" ["v1.2.4"; "v1.10.0"; "2.0.0"] "minor" ""
    {| sv_major := 1; sv_minor := 2; sv_patch := 3; sv_pre := false |} None eq_refl eq_refl) as H.
  exact (proj2 H).
Defined.
