(* ===== verification/Transport.v ===== *)
(** * Transport security

    [internal/servertls] and the checks of [cmd/rollopsd/main.go] around the
    listeners: the TLS material of the environment, the certificate that is
    reloaded while the daemon runs, which addresses count as loopback
    ([net.SplitHostPort], [net.ParseIP] and [IP.IsLoopback] of the standard
    library included), and the refusal to serve others in plaintext.  Key pairs
    and certificate pools are opaque; reading them is an argument. *)

From S2P Require Import Prelude Encoding GoTime Git ImageSelect.

(** ** Addresses *)

(** [net.SplitHostPort], host only. *)
Definition lbracket : Ascii.ascii := Ascii.ascii_of_nat 91.
Definition rbracket : Ascii.ascii := Ascii.ascii_of_nat 93.

Definition has_byte (s : string) (c : Ascii.ascii) : bool :=
  match IndexByte s c with Some _ => true | None => false end.

Definition SplitHost (hostport : string) : option string :=
  match LastIndexByte hostport colon with
  | None => None
  | Some i =>
      match hostport with
      | String c rest =>
          if c == lbracket then
            match IndexByte hostport rbracket with
            | None => None
            | Some end_ =>
                if negb (end_ + 1 =? i)%nat then None
                else if has_byte rest lbracket || has_byte (str_drop (end_ + 1) hostport) rbracket then None
                else Some (str_take (end_ - 1) rest)
            end
          else
            let host := str_take i hostport in
            if has_byte host colon || has_byte hostport lbracket || has_byte hostport rbracket then None
            else Some host
      | EmptyString => None
      end
  end.

Definition digit_value (c : Ascii.ascii) : option Z :=
  let n := byte c in if (48 <=? n) && (n <=? 57) then Some (n - 48) else None.

(** A field of a dotted address and the rest: at most 255, no leading zero. *)
Fixpoint octet_rest (acc : Z) (s : string) : option (Z * string) :=
  match s with
  | String c s' =>
      match digit_value c with
      | Some d => if acc =? 0 then None else if 255 <? acc * 10 + d then None else octet_rest (acc * 10 + d) s'
      | None => Some (acc, s)
      end
  | EmptyString => Some (acc, s)
  end.
Definition octet (s : string) : option (Z * string) :=
  match s with
  | String c s' => d ← digit_value c; octet_rest d s'
  | EmptyString => None
  end.

Definition dot_char : Ascii.ascii := Ascii.ascii_of_nat 46.

(** [n] more fields, each after a dot. *)
Fixpoint dotted (n : nat) (s : string) : option (list Z) :=
  match n, s with
  | O, EmptyString => Some []
  | S n, String c s' =>
      if c == dot_char then '(d, rest) ← octet s'; ds ← dotted n rest; Some (d :: ds) else None
  | _, _ => None
  end.
Definition parseIPv4 (s : string) : option (list Z) := '(d, rest) ← octet s; ds ← dotted 3 rest; Some (d :: ds).

(** A group of at most four hexadecimal digits: its value, how many, the rest. *)
Fixpoint hex_group (n : nat) (acc : Z) (s : string) : option (Z * nat * string) :=
  match s with
  | String c s' =>
      match hex_digit c with
      | Some d => if (4 <=? n)%nat then None else hex_group (S n) (acc * 16 + d) s'
      | None => Some (acc, n, s)
      end
  | EmptyString => Some (acc, n, s)
  end.

Definition zero_bytes (n : nat) : list Z := replicate n 0.

(** The bytes so far, where the ellipsis was, when the text is used up. *)
Definition close_ipv6 (ip : list Z) (ellipsis : option nat) : option (list Z) :=
  match ellipsis with
  | None => if (length ip =? 16)%nat then Some ip else None
  | Some e => if (length ip <? 16)%nat then Some (take e ip ++ zero_bytes (16 - length ip) ++ drop e ip) else None
  end.

Definition starts (s : string) (c : Ascii.ascii) : bool := match s with String d _ => d == c | EmptyString => false end.

Fixpoint ipv6_groups (fuel : nat) (s : string) (ip : list Z) (ellipsis : option nat) : option (list Z) :=
  match fuel with
  | O => None   (* eight groups were read and text is left *)
  | S fuel =>
      '(acc, n, rest) ← hex_group 0 0 s;
      if (n =? 0)%nat then None
      else if starts rest dot_char then
        if (match ellipsis with None => negb (length ip =? 12)%nat | Some _ => false end) || (16 <? length ip + 4)%nat then None
        else v4 ← parseIPv4 s; close_ipv6 (ip ++ v4) ellipsis
      else
        let ip := ip ++ [acc / 256; acc mod 256] in
        match rest with
        | EmptyString => close_ipv6 ip ellipsis
        | String c rest =>
            if negb (c == colon) then None
            else match rest with
                 | EmptyString => None
                 | String c' rest' =>
                     if c' == colon then
                       match ellipsis with
                       | Some _ => None
                       | None => match rest' with
                                 | EmptyString => close_ipv6 ip (Some (length ip))
                                 | _ => ipv6_groups fuel rest' ip (Some (length ip))
                                 end
                       end
                     else ipv6_groups fuel rest ip ellipsis
                 end
        end
  end.

Definition parseIPv6 (s : string) : option (list Z) :=
  if HasPrefix s "::" then
    match TrimPrefix s "::" with
    | EmptyString => Some (zero_bytes 16)
    | s => ipv6_groups 8 s [] (Some 0%nat)
    end
  else ipv6_groups 8 s [] None.

Definition mapped_prefix : list Z := zero_bytes 10 ++ [255; 255].

(** The first of the two separators decides; a zone is refused. *)
Fixpoint separator (s : string) : option Ascii.ascii :=
  match s with
  | EmptyString => None
  | String c s => if (c == dot_char) || (c == colon) || (c == Ascii.ascii_of_nat 37) then Some c else separator s
  end.

Definition ParseIP (s : string) : option (list Z) :=
  match separator s with
  | Some c => if c == dot_char then app mapped_prefix <$> parseIPv4 s
              else if c == colon then (if has_byte s (Ascii.ascii_of_nat 37) then None else parseIPv6 s)
              else None
  | None => None
  end.

Definition IsLoopback (ip : list Z) : bool :=
  if bool_decide (take 12 ip = mapped_prefix) then bool_decide (ip !! 12%nat = Some 127)
  else bool_decide (ip = zero_bytes 15 ++ [1]).

Definition isLoopbackAddr (addr : string) : bool :=
  let host := default addr (SplitHost addr) in
  if host == "" then false
  else if host == "localhost" then true
  else match ParseIP host with None => false | Some ip => IsLoopback ip end.

(** ** TLS material *)
Section Tls.
Context {KeyPair Pool : Type}.

(** [servertls.Config]; [None] stands for the nil pointer, plaintext. *)
Record Config := {
  tc_certFile : string;
  tc_keyFile : string;
  tc_clientCAFile : string;
  tc_cached : option KeyPair;
  tc_certMod : Time;
}.

Definition FromEnv (getenv : string → string) : result (option Config) :=
  let cert := getenv "ROLLOPS_TLS_CERT" in
  let key := getenv "ROLLOPS_TLS_KEY" in
  let clientCA := getenv "ROLLOPS_TLS_CLIENT_CA" in
  if (cert == "") && (key == "") then
    if clientCA != ""
    then Err (Errorf "ROLLOPS_TLS_CLIENT_CA is set but ROLLOPS_TLS_CERT/ROLLOPS_TLS_KEY are not: mTLS requires a server keypair to terminate TLS")
    else Ok None
  else if cert == "" then Err (Errorf "ROLLOPS_TLS_KEY is set but ROLLOPS_TLS_CERT is not: set both")
  else if key == "" then Err (Errorf "ROLLOPS_TLS_CERT is set but ROLLOPS_TLS_KEY is not: set both")
  else Ok (Some {| tc_certFile := cert; tc_keyFile := key; tc_clientCAFile := clientCA; tc_cached := None; tc_certMod := zero_time |}).

Definition HasClientCA (c : option Config) : bool :=
  match c with None => false | Some c => tc_clientCAFile c != "" end.

(** What the files hold at one moment. *)
Record Disk := {
  dk_stat : string → result Time;
  dk_pair : string → string → result KeyPair;      (* [tls.LoadX509KeyPair] *)
  dk_pool : string → result Pool;                  (* reading and parsing a bundle *)
}.

Definition set_cached (kp : KeyPair) (mtime : Time) (c : Config) : Config :=
  {| tc_certFile := tc_certFile c; tc_keyFile := tc_keyFile c; tc_clientCAFile := tc_clientCAFile c;
     tc_cached := Some kp; tc_certMod := mtime |}.

(** Serve the last good pair. *)
Definition cached_or (c : Config) (er : err) : result KeyPair := match tc_cached c with Some kp => Ok kp | None => Err er end.

Definition reloadCertificate (d : Disk) (mtime : Time) (c : Config) : result KeyPair * Config :=
  match dk_pair d (tc_certFile c) (tc_keyFile c) with
  | Err er => (cached_or c (Wrap "load tls keypair: " er ""), c)
  | Ok kp => (Ok kp, set_cached kp mtime c)
  end.

Definition loadCertificate (d : Disk) (c : Config) : result KeyPair * Config :=
  match dk_stat d (tc_certFile c) with
  | Err er => (cached_or c (Wrap ("stat tls cert " +:+ quote (tc_certFile c) +:+ ": ") er ""), c)
  | Ok mtime =>
      match tc_cached c with
      | Some kp => if mtime =? tc_certMod c then (Ok kp, c) else reloadCertificate d mtime c
      | None => reloadCertificate d mtime c
      end
  end.

Inductive ClientAuth := NoClientCert | VerifyClientCertIfGiven | RequireAndVerifyClientCert.
#[global] Instance ClientAuth_eq_dec : EqDecision ClientAuth.
Proof. solve_decision. Defined.

(** A listener's settings: TLS 1.3, the client authentication and the pool. *)
Record Listening := { ls_ClientAuth : ClientAuth; ls_ClientCAs : option Pool }.

Definition ServerTLS (d : Disk) (requireClientCert : bool) (c : Config) : result Listening * Config :=
  match loadCertificate d c with
  | (Err er, c) => (Err er, c)
  | (Ok _, c) =>
      if tc_clientCAFile c == "" then (Ok {| ls_ClientAuth := NoClientCert; ls_ClientCAs := None |}, c)
      else match dk_pool d (tc_clientCAFile c) with
           | Err er => (Err er, c)
           | Ok pool => (Ok {| ls_ClientAuth := if requireClientCert then RequireAndVerifyClientCert else VerifyClientCertIfGiven;
                               ls_ClientCAs := Some pool |}, c)
           end
  end.

Definition ensureTransportSecure (addr surface : string) (tls : option Config) : option err :=
  if isLoopbackAddr addr then None
  else match tls with
       | None => Some (Errorf ("refusing to serve " +:+ surface +:+ " on non-loopback address " +:+ quote addr +:+
                               " without TLS: set ROLLOPS_TLS_CERT and ROLLOPS_TLS_KEY (see docs/tls.md)"))
       | Some _ => None
       end.

(** Handshakes one after another, each finding the disk in some state; what they
    were served. *)
Fixpoint handshakes (ds : list Disk) (c : Config) : list (result KeyPair) * Config :=
  match ds with
  | [] => ([], c)
  | d :: ds => let '(r, c) := loadCertificate d c in let '(rs, c) := handshakes ds c in (r :: rs, c)
  end.

(** ** The listeners [run] opens *)
Inductive SurfaceName := SHttp | SMcp | SGrpc.
#[global] Instance SurfaceName_eq_dec : EqDecision SurfaceName.
Proof. solve_decision. Defined.
Definition surface_str (s : SurfaceName) : string := match s with SHttp => "HTTP" | SMcp => "MCP" | SGrpc => "gRPC" end.

Record Listener := { li_surface : SurfaceName; li_addr : string; li_tls : option Listening }.

Definition envOr (getenv : string → string) (key def : string) : string := if getenv key != "" then getenv key else def.

(** One listener: the check, then its settings when TLS is on.  The HTTP
    listener is shared with the console, which has no client certificates. *)
Definition listener (d : Disk) (s : SurfaceName) (addr : string) (tls : option Config) : result Listener * option Config :=
  match ensureTransportSecure addr (surface_str s) tls with
  | Some er => (Err er, tls)
  | None =>
      match tls with
      | None => (Ok {| li_surface := s; li_addr := addr; li_tls := None |}, None)
      | Some c =>
          let require := match s with SHttp => false | _ => HasClientCA tls end in
          match ServerTLS d require c with
          | (Err er, c) => (Err er, Some c)
          | (Ok l, c) => (Ok {| li_surface := s; li_addr := addr; li_tls := Some l |}, Some c)
          end
      end
  end.

(** The listeners in the order they are set up; an optional one has no address.
    The daemon stops at the first error. *)
Fixpoint listeners (d : Disk) (want : list (SurfaceName * string)) (tls : option Config) : result (list Listener) :=
  match want with
  | [] => Ok []
  | (s, addr) :: want =>
      match s, addr with
      | (SMcp | SGrpc), EmptyString => listeners d want tls
      | _, _ =>
          let '(l, tls) := listener d s addr tls in
          try l <- l;
          try ls <- listeners d want tls;
          Ok (l :: ls)
      end
  end.

Definition run_listeners (d : Disk) (getenv : string → string) : result (list Listener) :=
  try tls <- FromEnv getenv;
  listeners d [(SHttp, envOr getenv "ROLLOPS_ADDR" ":8080"); (SMcp, getenv "ROLLOPS_MCP_ADDR");
               (SGrpc, getenv "ROLLOPS_GRPC_ADDR")] tls.
End Tls.

(** ** Facts *)
Lemma octet_rest_app v acc s rest :
  octet_rest acc s = Some (v, EmptyString) → octet_rest acc (s +:+ rest) = octet_rest v rest.
Proof.
  revert acc. induction s as [|c s IH]; intros acc; simpl; [by intros [= ->]|].
  destruct (digit_value c) as [d|]; [|done]. repeat case_match; try done. apply IH.
Qed.

Lemma octet_pretty n rest :
  0 ≤ n ≤ 255 → (rest = EmptyString ∨ starts rest dot_char = true) → octet (pretty n +:+ rest) = Some (n, rest).
Proof.
  intros Hn Hrest.
  assert (octet (pretty n) = Some (n, EmptyString)) as Ho.
  { assert (forallb (λ n, bool_decide (octet (pretty (Z.of_nat n)) = Some (Z.of_nat n, EmptyString))) (seq 0 256) = true)
      as Hall by (vm_compute; reflexivity).
    rewrite forallb_forall in Hall. specialize (Hall (Z.to_nat n)). rewrite in_seq, bool_decide_eq_true in Hall.
    rewrite Z2Nat.id in Hall by lia. apply Hall. lia. }
  unfold octet in *. destruct (pretty n) as [|c s]; [done|]. simpl.
  destruct (digit_value c) as [d|]; [|done]. simpl in *. rewrite (octet_rest_app n) by done.
  destruct Hrest as [-> | Hs]; [done|]. destruct rest as [|c' rest]; [done|]. simpl in *.
  apply bool_decide_eq_true in Hs as ->. done.
Qed.

Definition dotted_text (a b c d : Z) : string :=
  pretty a +:+ "." +:+ pretty b +:+ "." +:+ pretty c +:+ "." +:+ pretty d.

Lemma separator_app s rest : separator s = None → separator (s +:+ rest) = separator rest.
Proof. induction s as [|c s IH]; simpl; [done|]. by destruct (_ || _). Qed.

Lemma separator_pretty n : 0 ≤ n ≤ 255 → separator (pretty n) = None.
Proof.
  intros Hn. assert (forallb (λ n, bool_decide (separator (pretty (Z.of_nat n)) = None)) (seq 0 256) = true)
    as Hall by (vm_compute; reflexivity).
  rewrite forallb_forall in Hall. specialize (Hall (Z.to_nat n)). rewrite in_seq, bool_decide_eq_true in Hall.
  rewrite Z2Nat.id in Hall by lia. apply Hall. lia.
Qed.

Lemma dotted_step k n rest :
  0 ≤ n ≤ 255 → (rest = EmptyString ∨ starts rest dot_char = true) →
  dotted (S k) ("." +:+ pretty n +:+ rest) = ds ← dotted k rest; Some (n :: ds).
Proof. intros Hn Hr. change ("." +:+ ?s) with (String dot_char s). cbn [dotted]. change (dot_char == dot_char) with true. cbv iota.
  by rewrite octet_pretty. Qed.

(** A dotted address is read back as the bytes it was written from. *)
Theorem ParseIP_dotted a b c d :
  0 ≤ a ≤ 255 → 0 ≤ b ≤ 255 → 0 ≤ c ≤ 255 → 0 ≤ d ≤ 255 →
  ParseIP (dotted_text a b c d) = Some (mapped_prefix ++ [a; b; c; d]).
Proof.
  intros Ha Hb Hc Hd. unfold ParseIP, dotted_text. rewrite separator_app by (by apply separator_pretty).
  change (separator (_ +:+ _)) with (Some dot_char). cbv iota. change (dot_char == dot_char) with true. cbv iota.
  rewrite <- (str_app_empty_r (pretty d)).
  unfold parseIPv4. rewrite octet_pretty by (done || by right). cbn [mbind option_bind].
  do 2 rewrite dotted_step by (done || by right). rewrite dotted_step by (done || by left). done.
Qed.

Section TlsFacts.
Context {KeyPair Pool : Type}.
Implicit Types (c : Config (KeyPair := KeyPair)) (d : Disk (KeyPair := KeyPair) (Pool := Pool)).

(** What loading does: the paths stay, a good pair is kept, and what is served was
    cached or is on the disk. *)
Definition load_ok d c (out : result KeyPair * Config) : Prop :=
  tc_certFile out.2 = tc_certFile c ∧ tc_keyFile out.2 = tc_keyFile c ∧ tc_clientCAFile out.2 = tc_clientCAFile c ∧
  (is_Some (tc_cached c) → ∃ kp, out.1 = Ok kp) ∧
  match out.1 with
  | Ok kp => tc_cached out.2 = Some kp ∧ (tc_cached c = Some kp ∨ dk_pair d (tc_certFile c) (tc_keyFile c) = Ok kp)
  | Err _ => tc_cached out.2 = None
  end.

Lemma cached_or_ok d c er : load_ok d c (cached_or c er, c).
Proof. unfold load_ok, cached_or; simpl. destruct (tc_cached c); split_and!; eauto; by intros []. Qed.

Lemma loadCertificate_ok d c : load_ok d c (loadCertificate d c).
Proof.
  assert (∀ t, load_ok d c (reloadCertificate d t c)) as Hr.
  { intros t. unfold reloadCertificate. destruct (dk_pair d _ _) eqn:Hp; [|apply cached_or_ok].
    split_and!; simpl; eauto. }
  unfold loadCertificate. destruct (dk_stat d (tc_certFile c)); [|apply cached_or_ok].
  destruct (tc_cached c) eqn:Hc; [|apply Hr]. destruct (_ =? _); [|apply Hr]. split_and!; simpl; eauto.
Qed.

(** A handshake is served what it finds on the disk at a new modification time. *)
Lemma loadCertificate_fresh d c t kp :
  dk_stat d (tc_certFile c) = Ok t → t ≠ tc_certMod c ∨ tc_cached c = None →
  dk_pair d (tc_certFile c) (tc_keyFile c) = Ok kp → (loadCertificate d c).1 = Ok kp.
Proof.
  intros Hs Ht Hp. unfold loadCertificate, reloadCertificate. rewrite Hs, Hp.
  destruct (tc_cached c); [|done]. destruct (Z.eqb_spec t (tc_certMod c)); naive_solver.
Qed.

(** A rotation cannot take a listener down.  Once the key pair was loaded - a
    listener is only opened then - every handshake is served a pair, whatever
    happens to the files between and during handshakes, and each pair served was
    on the disk under the configured paths at that handshake or one before. *)
Theorem rotation_keeps_serving (ds : list (Disk (Pool := Pool))) c kp0 i r :
  tc_cached c = Some kp0 → (handshakes ds c).1 !! i = Some r →
  ∃ kp, r = Ok kp ∧
    (kp = kp0 ∨ ∃ j d, (j ≤ i)%nat ∧ ds !! j = Some d ∧ dk_pair d (tc_certFile c) (tc_keyFile c) = Ok kp).
Proof.
  revert c kp0 i. induction ds as [|d ds IH]; intros c kp0 i Hc; simpl; [done|].
  pose proof (loadCertificate_ok d c) as (Hf & Hk & _ & Hs & Hout). destruct (loadCertificate d c) as [r0 c1]. simpl in *.
  destruct Hs as [kp1 ->]; [by eexists|]. destruct Hout as [Hc1 Hkp1].
  specialize (IH c1 kp1). destruct (handshakes ds c1) as [rs c2]. simpl in *. destruct i as [|i]; simpl.
  - intros [= <-]. exists kp1. split; [done|]. destruct Hkp1 as [Hkp1|Hkp1]; [left; congruence|right; by exists 0%nat, d].
  - intros Hi. destruct (IH i Hc1 Hi) as (kp & -> & Hkp). exists kp. split; [done|]. rewrite Hf, Hk in Hkp.
    destruct Hkp as [-> |(j & d' & Hj & Hd' & Hp)].
    + destruct Hkp1 as [Hkp1|Hkp1]; [left; congruence|]. right. exists 0%nat, d. split_and!; [lia|done|done].
    + right. exists (S j), d'. split_and!; [lia|done|done].
Qed.

(** The host part of an address names this machine only: [localhost], an address
    of 127.0.0.0/8, plain or mapped, or ::1. *)
Definition names_loopback (addr : string) : Prop :=
  let host := default addr (SplitHost addr) in
  host = "localhost" ∨ (∃ rest, ParseIP host = Some (mapped_prefix ++ 127 :: rest)) ∨ ParseIP host = Some (zero_bytes 15 ++ [1]).

Lemma isLoopbackAddr_sound addr : isLoopbackAddr addr = true → names_loopback addr.
Proof.
  unfold isLoopbackAddr, names_loopback. set (host := default addr (SplitHost addr)).
  case_bool_decide; [done|]. case_bool_decide; [by left|]. destruct (ParseIP host) as [ip|]; [|done].
  unfold IsLoopback. case_bool_decide as Hm; intros Hl%bool_decide_eq_true; right; [left|right; congruence].
  exists (drop 13 ip). rewrite <- Hm. f_equal. by rewrite take_drop_middle.
Qed.

(** How the clients of a surface are authenticated when a client CA is set. *)
Definition client_auth_of (s : SurfaceName) : ClientAuth :=
  match s with SHttp => VerifyClientCertIfGiven | _ => RequireAndVerifyClientCert end.

(** What holds of a listener under the configuration [tls]. *)
Definition secured d (tls : option Config) (l : Listener (Pool := Pool)) : Prop :=
  (li_tls l = None → tls = None ∧ names_loopback (li_addr l)) ∧
  (∀ c, tls = Some c → tc_clientCAFile c ≠ "" →
     ∃ pool, dk_pool d (tc_clientCAFile c) = Ok pool ∧
       li_tls l = Some {| ls_ClientAuth := client_auth_of (li_surface l); ls_ClientCAs := Some pool |}).

Lemma listener_secured d s addr tls l tls' :
  listener d s addr tls = (Ok l, tls') →
  secured d tls l ∧ li_surface l = s ∧ li_addr l = addr ∧ (tc_clientCAFile <$> tls') = (tc_clientCAFile <$> tls).
Proof.
  unfold listener, ensureTransportSecure, secured. destruct tls as [c|].
  - unfold ServerTLS. destruct (isLoopbackAddr addr); pose proof (loadCertificate_ok d c) as (_ & _ & Hca & _ & _);
      destruct (loadCertificate d c) as [[kp|er] c1]; simpl in *; try done; rewrite Hca;
      (case_bool_decide as Hn; [intros [= <- <-]; simpl; split_and!; [done|naive_solver|done|done|by rewrite Hca]|];
       destruct (dk_pool d (tc_clientCAFile c)) as [pool|] eqn:Hp; [|done];
       intros [= <- <-]; simpl; split_and!; [done| |done|done|by rewrite Hca];
       intros c' [= <-] _; exists pool; split; [done|]; destruct s; simpl; by rewrite ?bool_decide_eq_false_2).
  - destruct (isLoopbackAddr addr) eqn:Hl; [|done]. intros [= <- <-]. simpl.
    split_and!; [|done..]. intros _. split; [done|by apply isLoopbackAddr_sound].
Qed.

Lemma secured_same_ca d tls tls' l :
  (tc_clientCAFile <$> tls') = (tc_clientCAFile <$> tls) → secured d tls' l → secured d tls l.
Proof.
  intros Hca (Hn & Hs). split.
  - intros Hl. destruct (Hn Hl) as [-> ?]. by destruct tls.
  - intros c -> Hc. destruct tls' as [c'|]; [|done]. injection Hca as Hca. rewrite <- Hca in Hc |- *. by apply Hs.
Qed.

Lemma listeners_secured d want tls ls :
  listeners d want tls = Ok ls →
  Forall (secured d tls) ls ∧
  ((λ l, (li_surface l, li_addr l)) <$> ls) = filter (λ sa, sa.1 = SHttp ∨ sa.2 ≠ "") want.
Proof.
  revert tls ls. induction want as [|[s addr] want IH]; intros tls ls; cbn [listeners].
  { intros [= <-]. by split; [constructor|]. }
  assert ((let '(l, tls) := listener d s addr tls in
           try l <- l; try ls <- listeners d want tls; Ok (l :: ls)) = Ok ls → (s = SHttp ∨ addr ≠ "") →
    Forall (secured d tls) ls ∧
    ((λ l, (li_surface l, li_addr l)) <$> ls) = filter (λ sa, sa.1 = SHttp ∨ sa.2 ≠ "") ((s, addr) :: want)) as Hopen.
  { intros Ho Hw. destruct (listener d s addr tls) as [[l|er] tls1] eqn:Hl; [|done]. simpl in Ho.
    destruct (listeners d want tls1) as [ls1|er] eqn:Hls; [|done]. injection Ho as <-.
    destruct (listener_secured d s addr tls l tls1 Hl) as (Hs & <- & <- & Hca). destruct (IH tls1 ls1 Hls) as [Hsec Heq].
    rewrite filter_cons_True by done. split; [|by rewrite fmap_cons, Heq]. constructor; [done|].
    eapply Forall_impl; [exact Hsec|]. intros l'. by apply secured_same_ca. }
  destruct s, addr; try (intros Ho; apply Hopen; [exact Ho|by auto]).
  all: rewrite filter_cons_False by (simpl; naive_solver); apply IH.
Qed.

(** C11. The daemon exposes nothing in plaintext and lets no machine in without a
    certificate.  If it gets as far as serving, every configured surface is
    served; one without TLS listens on an address that names only this machine;
    and once a client CA is configured every listener has TLS, verifies client
    certificates against that bundle, and - on the gRPC and MCP surfaces - requires
    one. *)
Theorem listeners_are_secure d getenv ls :
  run_listeners (KeyPair := KeyPair) d getenv = Ok ls →
  ((λ l, (li_surface l, li_addr l)) <$> ls) =
    filter (λ sa, sa.1 = SHttp ∨ sa.2 ≠ "")
      [(SHttp, envOr getenv "ROLLOPS_ADDR" ":8080"); (SMcp, getenv "ROLLOPS_MCP_ADDR"); (SGrpc, getenv "ROLLOPS_GRPC_ADDR")] ∧
  ∀ l, l ∈ ls →
    (li_tls l = None → names_loopback (li_addr l)) ∧
    (getenv "ROLLOPS_TLS_CLIENT_CA" ≠ "" →
       ∃ pool, dk_pool d (getenv "ROLLOPS_TLS_CLIENT_CA") = Ok pool ∧
         li_tls l = Some {| ls_ClientAuth := client_auth_of (li_surface l); ls_ClientCAs := Some pool |}).
Proof.
  unfold run_listeners, FromEnv. intros H.
  destruct (if (getenv "ROLLOPS_TLS_CERT" == "") && _ then _ else _) as [tls|er] eqn:Htls; [|done]. cbv beta iota in H.
  apply listeners_secured in H as [Hsec Heq]. split; [done|]. intros l Hl. rewrite Forall_forall in Hsec.
  destruct (Hsec l Hl) as [Hn Hs]. split; [intros Hp; by apply Hn|]. intros Hca.
  rewrite (bool_decide_eq_false_2 (getenv "ROLLOPS_TLS_CLIENT_CA" = "")) in Htls by done. simpl in Htls.
  repeat case_match; simplify_eq. by apply (Hs _ eq_refl).
Qed.
End TlsFacts.

(** ** Material to evaluate on *)
Module Demo.
Definition disk : Disk (KeyPair := Z) (Pool := string) :=
  {| dk_stat := λ _, Ok 5; dk_pair := λ _ _, Ok 1; dk_pool := λ p, Ok p |}.
Definition broken : Disk (KeyPair := Z) (Pool := string) :=
  {| dk_stat := λ _, Ok 6; dk_pair := λ _ _, Err ErrNotFound; dk_pool := λ _, Err ErrNotFound |}.
Definition rotated : Disk (KeyPair := Z) (Pool := string) :=
  {| dk_stat := λ _, Ok 7; dk_pair := λ _ _, Ok 2; dk_pool := λ p, Ok p |}.

Definition vars (kvs : list (string * string)) (k : string) : string :=
  match head (filter (λ kv, kv.1 = k) kvs) with Some (_, v) => v | None => "" end.
Definition mtls : list (string * string) :=
  [("ROLLOPS_TLS_CERT", "c"); ("ROLLOPS_TLS_KEY", "k"); ("ROLLOPS_TLS_CLIENT_CA", "ca"); ("ROLLOPS_GRPC_ADDR", ":9090")].
Definition local : list (string * string) := [("ROLLOPS_ADDR", "127.0.0.1:8080"); ("ROLLOPS_MCP_ADDR", "[::1]:7000")].

Example exposed_plaintext_refused :
  run_listeners disk (vars []) = Err (Errorf ("refusing to serve HTTP on non-loopback address " +:+ quote ":8080" +:+
    " without TLS: set ROLLOPS_TLS_CERT and ROLLOPS_TLS_KEY (see docs/tls.md)")) ∧
  (match run_listeners disk (vars local) with Ok ls => length ls | Err _ => O end) = 2%nat ∧
  isLoopbackAddr <$> ["127.0.0.1:80"; "[::1]:80"; "localhost:1"; "[::ffff:127.1.2.3]:1"; "0.0.0.0:1"; "127.0.0.01:1"; ":80"; "::"]
    = [true; true; true; true; false; false; false; false].
Proof. vm_compute. auto. Qed.

Lemma listeners_witness :
  match run_listeners disk (vars mtls) with
  | Ok ls => ((λ l, (li_surface l, li_addr l)) <$> ls) = [(SHttp, ":8080"); (SGrpc, ":9090")] ∧
             ∀ l, l ∈ ls → ∃ pool, li_tls l = Some {| ls_ClientAuth := client_auth_of (li_surface l); ls_ClientCAs := Some pool |}
  | Err _ => False
  end.
Proof.
  destruct (run_listeners disk (vars mtls)) as [ls|er] eqn:Hr; [|vm_compute in Hr; discriminate Hr].
  destruct (listeners_are_secure disk (vars mtls) ls Hr) as [Heq Hs]. split; [rewrite Heq; vm_compute; reflexivity|].
  intros l Hl. destruct (Hs l Hl) as [_ Hca]. destruct Hca as (pool & _ & Ht); [vm_compute; discriminate|]. by exists pool.
Defined.

Definition primed : Config (KeyPair := Z) := (loadCertificate disk
  {| tc_certFile := "c"; tc_keyFile := "k"; tc_clientCAFile := ""; tc_cached := None; tc_certMod := zero_time |}).2.

Lemma rotation_witness :
  (handshakes [broken; rotated] primed).1 = [Ok 1; Ok 2] ∧
  ∃ kp, (Ok 1 : result Z) = Ok kp ∧
    (kp = 1 ∨ ∃ j d, (j ≤ 0)%nat ∧ [broken; rotated] !! j = Some d ∧ dk_pair d "c" "k" = Ok kp).
Proof.
  split; [vm_compute; reflexivity|].
  apply (rotation_keeps_serving [broken; rotated] primed 1 0 (Ok 1)); vm_compute; reflexivity.
Defined.

Lemma dotted_witness : ParseIP "127.0.10.255" = Some (mapped_prefix ++ [127; 0; 10; 255]).
Proof. apply (ParseIP_dotted 127 0 10 255); lia. Defined.
End Demo.
