(* ===== verification/ImageAuto.v ===== *)
(** * Image automation

    The registry client of [internal/imageupdate/scan.go] and the automation of
    [internal/reconcile/imageauto.go]: what the registry offers, which reference
    follows from it, and how it reaches Git, by a push or by a proposal.  The
    automation is written against [TagLister]; the client is its instance. *)

From S2P Require Import Prelude Encoding GoTime Config Progressive Model Risk Security Store World Git ConfigLoad ImageSelect.

(** ** The registry *)
Class TagLister (S : Type) := {
  Tags : string → M S (result (list string));
  Digest : string → M S (result string);
}.

(** What the automation relies on: a digest is never empty, and asking changes
    only the trace, by HTTP requests. *)
Class TagListerLaws (S : Type) `{!TagLister S} : Prop := {
  digest_nonempty : ∀ image (w : World S) d, (Digest image w).1 = Ok d → d ≠ "";
  tags_asks : ∀ image (w : World S), ∃ rqs, (Tags image w).2 = set_trace ((EHttp <$> rqs) ++ w_trace w) w;
  digest_asks : ∀ image (w : World S), ∃ rqs, (Digest image w).2 = set_trace ((EHttp <$> rqs) ++ w_trace w) w;
}.

(** *** Challenges *)
Definition word_char (c : Ascii.ascii) : bool :=
  let n := byte c in
  ((48 <=? n) && (n <=? 57)) || ((65 <=? n) && (n <=? 90)) || ((97 <=? n) && (n <=? 122)) || (n =? 95).

Fixpoint span_while (f : Ascii.ascii → bool) (s : string) : string * string :=
  match s with
  | String c s' => if f c then let '(a, b) := span_while f s' in (String c a, b) else (EmptyString, s)
  | EmptyString => (EmptyString, EmptyString)
  end.

(** A match of [bearerRe] at the start: a word, an equals sign, a quoted text. *)
Definition bearer_at (s : string) : option (string * string * string) :=
  let '(k, r) := span_while word_char s in
  if k == "" then None
  else match r with
       | String e (String q r) =>
           if bool_decide (e = equals) && bool_decide (q = dquote) then
             let '(v, r) := span_while (λ c, negb (bool_decide (c = dquote))) r in
             match r with String _ r => Some (k, v, r) | EmptyString => None end
           else None
       | _ => None
       end.

(** All matches from the left; the fuel is the length of the text. *)
Fixpoint bearer_params (fuel : nat) (s : string) : list (string * string) :=
  match fuel with
  | O => []
  | Datatypes.S fuel =>
      match bearer_at s with
      | Some (k, v, r) => (k, v) :: bearer_params fuel r
      | None => match s with String _ s => bearer_params fuel s | EmptyString => [] end
      end
  end.

(** The last value of a key, or nothing. *)
Definition param (ps : list (string * string)) (k : string) : string :=
  default "" (snd <$> last (filter (λ p, p.1 = k) ps)).

Example bearer_demo :
  let q := String dquote "" in
  let ps := bearer_params 200 ("Bearer realm=" +:+ q +:+ "https://ghcr.io/token" +:+ q +:+ ",service=" +:+ q +:+ "ghcr.io" +:+ q) in
  param ps "realm" = "https://ghcr.io/token" ∧ param ps "service" = "ghcr.io" ∧ param ps "scope" = "".
Proof. vm_compute. done. Qed.

Definition isDockerHub (host : string) : bool :=
  bool_decide (host ∈ ["docker.io"; "registry-1.docker.io"; "index.docker.io"; "auth.docker.io"]).

(** The next page a Link header names. *)
Definition rel_next : string := "rel=" +:+ String dquote ("next" +:+ String dquote "").
Definition less : Ascii.ascii := Ascii.ascii_of_nat 60.
Definition more : Ascii.ascii := Ascii.ascii_of_nat 62.

Fixpoint next_page (base : string) (parts : list string) : string :=
  match parts with
  | [] => ""
  | part :: parts =>
      let part := TrimSpace part in
      if negb (Contains part rel_next) then next_page base parts
      else match IndexByte part less, IndexByte part more with
           | Some o, Some c =>
               if (c <=? o)%nat then next_page base parts
               else
                 let target := str_take (c - (o + 1)) (str_drop (o + 1) part) in
                 if HasPrefix target "http://" || HasPrefix target "https://" then target else base +:+ target
           | _, _ => next_page base parts
           end
  end.

Definition nextPageURL (link base : string) : string := next_page base (Split link (Ascii.ascii_of_nat 44)).

Definition registry_base (host : string) : string :=
  if host == "docker.io" then "https://registry-1.docker.io" else "https://" +:+ host.

Definition pageCap : nat := 1000.

Record Scanner := { sc_Username : string; sc_Password : string }.

Section Scanner.
Context {S : Type} (env : Env) (sc : Scanner).

Definition http (rq : HttpRequest) : M S (result HttpResponse) := ask (EHttp rq) (λ tr, o_http env tr rq).

Definition doMethod (method url bearer : string) : M S (result HttpResponse) :=
  get resp <- http {| hq_Method := method; hq_URL := url; hq_Bearer := bearer; hq_Basic := None; hq_Body := "" |}
    catch er => mret (Err (Wrap "imageupdate: registry request: " er ""));
  mret (Ok resp).

(** Whether the credential may go to a token realm. *)
Definition realmTrusted (realm registryHost : string) : bool :=
  match o_url env realm with
  | Err _ => false
  | Ok (scheme, host, hostname) =>
      if (scheme != "https") || (host == "") then false
      else (host == registryHost) || (isDockerHub hostname && isDockerHub registryHost)
  end.

Definition token (challenge repo registryHost : string) : M S (result string) :=
  let ps := bearer_params (Datatypes.S (str_len challenge)) challenge in
  let realm := param ps "realm" in
  if realm == "" then mret (Err (Errorf ("imageupdate: no token realm in challenge " +:+ quote challenge)))
  else
    let scope := if param ps "scope" == "" then "repository:" +:+ repo +:+ ":pull" else param ps "scope" in
    let endpoint := realm +:+ "?service=" +:+ param ps "service" +:+ "&scope=" +:+ scope in
    let basic := if ((sc_Username sc != "") || (sc_Password sc != "")) && realmTrusted realm registryHost
                 then Some (sc_Username sc, sc_Password sc) else None in
    get resp <- http {| hq_Method := "GET"; hq_URL := endpoint; hq_Bearer := ""; hq_Basic := basic; hq_Body := "" |}
      catch er => mret (Err (Wrap "imageupdate: token request: " er ""));
    if negb (hp_Status resp =? 200)
    then mret (Err (Errorf ("imageupdate: token endpoint status " +:+ pretty (hp_Status resp))))
    else
      mret (match o_json_token env (hp_Body resp) with
            | Err er => Err (Wrap "imageupdate: parse token: " er "")
            | Ok (tok, access) => Ok (if tok != "" then tok else access)
            end).

(** A request, answered again with a token when the registry challenges it. *)
Definition challenged (method endpoint repo host : string) : M S (result HttpResponse) :=
  get resp <- doMethod method endpoint "" catch er => mret (Err er);
  if hp_Status resp =? 401 then
    get tok <- token (hp_Authenticate resp) repo host catch er => mret (Err er);
    doMethod method endpoint tok
  else mret (Ok resp).

Definition scanner_get (endpoint repo registryHost : string) : M S (result (string * string)) :=
  get resp <- challenged "GET" endpoint repo registryHost catch er => mret (Err er);
  if negb (hp_Status resp =? 200)
  then mret (Err (Errorf ("imageupdate: registry " +:+ endpoint +:+ ": status " +:+ pretty (hp_Status resp))))
  else mret (Ok (hp_Body resp, hp_Link resp)).

Fixpoint tag_pages (pages : nat) (endpoint repo host base : string) (all : list string) : M S (result (list string)) :=
  if endpoint == "" then mret (Ok all)
  else
    match pages with
    | O => mret (Ok all)
    | Datatypes.S pages =>
        get bl <- scanner_get endpoint repo host catch er => mret (Err er);
        match o_json_tags env bl.1 with
        | Err er => mret (Err (Wrap "imageupdate: parse tags: " er ""))
        | Ok tags => tag_pages pages (nextPageURL bl.2 base) repo host base (all ++ tags)
        end
    end.

Definition scanner_Tags (image : string) : M S (result (list string)) :=
  let '(host, repo) := ParseRef image in
  let base := registry_base host in
  tag_pages pageCap (base +:+ "/v2/" +:+ repo +:+ "/tags/list") repo host base [].

Definition scanner_Digest (image : string) : M S (result string) :=
  let '(host, repo) := ParseRef image in
  let tag := (splitImage image).2 in
  let endpoint := registry_base host +:+ "/v2/" +:+ repo +:+ "/manifests/" +:+ tag in
  get resp <- challenged "HEAD" endpoint repo host catch er => mret (Err er);
  mret (if negb (hp_Status resp =? 200)
        then Err (Errorf ("imageupdate: manifest " +:+ endpoint +:+ ": status " +:+ pretty (hp_Status resp)))
        else if hp_Digest resp == "" then Err (Errorf ("imageupdate: no Docker-Content-Digest for " +:+ image))
        else Ok (hp_Digest resp)).

#[global] Instance scanner_lister : TagLister S := {| Tags := scanner_Tags; Digest := scanner_Digest |}.
End Scanner.

(** ** The automation *)
Inductive ImageOutcome :=
| ImageOutcomeDisabled | ImageOutcomeCurrent | ImageOutcomeBumped | ImageOutcomeProposed
| ImageOutcomePending | ImageOutcomePinned | ImageOutcomeError.

#[global] Instance image_outcome_eq_dec : EqDecision ImageOutcome.
Proof. solve_decision. Defined.

Definition Deployed (o : ImageOutcome) : bool := o == ImageOutcomeBumped.
Definition AwaitingGit (o : ImageOutcome) : bool := (o == ImageOutcomeProposed) || (o == ImageOutcomePending).

Record ImageStatus := { is_Outcome : ImageOutcome; is_Resolved : string; is_Pinned : string }.

Definition withOutcome (s : ImageStatus) (o : ImageOutcome) : ImageStatus :=
  {| is_Outcome := o; is_Resolved := is_Resolved s; is_Pinned := is_Pinned s |}.

Definition Short (s : ImageStatus) : string :=
  if is_Resolved s == "" then ""
  else if is_Resolved s == is_Pinned s then "(" +:+ shortDigest (is_Resolved s) +:+ ")"
  else "(" +:+ shortDigest (is_Pinned s) +:+ "->" +:+ shortDigest (is_Resolved s) +:+ ")".

(** Current is only legal when what the registry offers is what Git pins. *)
Definition requireCurrentIdentities (s : ImageStatus) : option err :=
  if (is_Resolved s == "") || (is_Pinned s == "") || (is_Resolved s == is_Pinned s) then None
  else Some (Errorf ("imageauto: scanner " +:+ shortDigest (is_Resolved s) +:+ " does not match Git pin " +:+
                     shortDigest (is_Pinned s))).

Definition branch_char (c : Ascii.ascii) : bool := word_char c || bool_decide (c = Ascii.ascii_of_nat 45).

(** On ASCII names. *)
Fixpoint sanitize (s : string) : string :=
  match s with
  | String c s => String (if branch_char c then c else Ascii.ascii_of_nat 45) (sanitize s)
  | EmptyString => EmptyString
  end.

Definition prBranchName (configName : string) : string :=
  "rollops/image/" +:+ (if sanitize configName == "" then "config" else sanitize configName).

Definition line_break : string := String newline_char "".

Definition proposalBody (path from to : string) : string :=
  "Automated image bump by rollops." +:+ line_break +:+ line_break +:+ "- config: `" +:+ path +:+ "`" +:+ line_break +:+
  "- " +:+ from +:+ " → " +:+ to +:+ line_break +:+ line_break +:+
  "Merging this deploys the new image through the normal reconcile. " +:+
  "Opened as a PR because the tracked branch does not accept direct pushes.".

(** What was observed and decided; no reference when nothing changed. *)
Record resolution := { rs_Ref : string; rs_From : string; rs_To : string; rs_Resolved : string; rs_Pinned : string }.

Definition observed (resolved pinned : string) : resolution :=
  {| rs_Ref := ""; rs_From := ""; rs_To := ""; rs_Resolved := resolved; rs_Pinned := pinned |}.

Section ImageAuto.
Context {S : Type} (env : Env) `{!TagLister S}.

(** Looks for a tag of the pinned digest, newest version first. *)
Fixpoint digest_among (repo pinned : string) (tags : list string) : M S (option string) :=
  match tags with
  | [] => mret None
  | t :: tags =>
      get d <- Digest (repo +:+ ":" +:+ t) catch er => digest_among repo pinned tags;
      if d == pinned then mret (Some t) else digest_among repo pinned tags
  end.

Definition semverForDigest (repo pinned : string) (tags : list string) (pattern : string) : M S (option string) :=
  digest_among repo pinned (SemverTagsDesc (o_regexp env) tags pattern).

Definition pinnedRef (repo tag : string) (wasPinned : bool) : M S (result string) :=
  d ← Digest (repo +:+ ":" +:+ tag);
  let refuse er := Err (Wrap ("imageauto: refusing to unpin " +:+ repo +:+ ":" +:+ tag +:+ " across a semver update: ") er "") in
  mret (match d with
        | Ok digest => if digest != "" then Ok (repo +:+ ":" +:+ tag +:+ "@" +:+ digest)
                       else if wasPinned then refuse (Errorf "registry returned no digest")
                       else Ok (repo +:+ ":" +:+ tag)
        | Err er => if wasPinned then refuse er else Ok (repo +:+ ":" +:+ tag)
        end).

Definition policy_of (pol : Config.ImagePolicy) : Policy := {|
  po_AllowedRegistries := Config.ip_AllowedRegistries pol; po_TagPattern := Config.ip_Pattern pol;
  po_AllowMutableTags := Config.ip_AllowMutableTags pol |}.

(** A resolution together with the error, as the code returns them. *)
Definition resolved : Type := resolution * option err.

Definition selectSemver (repo curTag : string) (wasPinned : bool) (pol : Config.ImagePolicy) : M S resolved :=
  get tags <- Tags repo catch er => mret (observed "" curTag, Some (Wrap ("imageauto: scan " +:+ repo +:+ ": ") er ""));
  let mode := if Config.ip_Mode pol == "any" then "major" else Config.ip_Mode pol in
  match SelectTag (o_regexp env) curTag tags mode (Config.ip_Pattern pol) with
  | None => mret (observed curTag curTag, None)
  | Some newTag =>
      match policy_Validate (o_regexp env) (policy_of pol) repo newTag with
      | Some verr => mret (observed newTag curTag, Some verr)
      | None =>
          get ref <- pinnedRef repo newTag wasPinned catch perr => mret (observed newTag curTag, Some perr);
          mret ({| rs_Ref := ref; rs_From := curTag; rs_To := newTag; rs_Resolved := newTag; rs_Pinned := curTag |}, None)
      end
  end.

Definition migrate (repo pinned : string) (pol : Config.ImagePolicy) : M S resolved :=
  get tags <- Tags repo catch er => mret (observed "" pinned, Some (Wrap ("imageauto: scan " +:+ repo +:+ ": ") er ""));
  found ← semverForDigest repo pinned tags (Config.ip_Pattern pol);
  match found with
  | None => mret (observed "" pinned,
                  Some (Errorf ("imageauto: no semver tag for digest " +:+ shortDigest pinned +:+ " of " +:+ repo)))
  | Some tag =>
      match policy_Validate (o_regexp env) (policy_of pol) repo tag with
      | Some verr => mret (observed tag pinned, Some verr)
      | None => mret ({| rs_Ref := repo +:+ ":" +:+ tag +:+ "@" +:+ pinned; rs_From := shortDigest pinned; rs_To := tag;
                         rs_Resolved := tag; rs_Pinned := pinned |}, None)
      end
  end.

Definition resolve (image : string) (pol : Config.ImagePolicy) : M S resolved :=
  match registryAllowed image (Config.ip_AllowedRegistries pol) with
  | Some er => mret (observed "" "", Some er)
  | None =>
      let '((repo, tag), digest) := splitDigestRef image in
      if Config.ip_Mode pol == "digest" then
        let mutable := repo +:+ ":" +:+ tag in
        get newDigest <- Digest mutable
          catch er => mret (observed "" digest, Some (Wrap ("imageauto: digest " +:+ mutable +:+ ": ") er ""));
        if newDigest == digest then mret (observed newDigest digest, None)
        else mret ({| rs_Ref := mutable +:+ "@" +:+ newDigest; rs_From := shortDigest digest; rs_To := shortDigest newDigest;
                      rs_Resolved := newDigest; rs_Pinned := digest |}, None)
      else if IsSemver tag then selectSemver repo tag (digest != "") pol
      else if digest != "" then migrate repo digest pol
      else mret (observed "" tag, None)
  end.

(** *** Writing to Git *)

(** The config to reconcile, the new reference if it is deployed, the status and
    the error. *)
Record Processed := { pr_Config : Config.t; pr_Ref : string; pr_Status : ImageStatus; pr_Err : option err }.

Definition kept_config (nc : NamedConfig) (seen : ImageStatus) (o : ImageOutcome) (er : option err) : Processed :=
  {| pr_Config := nc_Config nc; pr_Ref := ""; pr_Status := withOutcome seen o; pr_Err := er |}.
Definition failed_image (nc : NamedConfig) (seen : ImageStatus) (er : err) : Processed :=
  kept_config nc seen ImageOutcomeError (Some er).

Definition ensureProposal (src : Source) (nc : NamedConfig) (head msg from to : string) (seen : ImageStatus) : M S Processed :=
  get _ <- OpenPullRequest env src head (src_branch src) msg (proposalBody (nc_Path nc) from to)
    catch er => mret (failed_image nc seen (Wrap ("imageauto: ensure pr for " +:+ head +:+ ": ") er ""));
  mret (kept_config nc seen ImageOutcomePending None).

Definition proposeViaPR (src : Source) (nc : NamedConfig) (patched msg from to : string) (seen : ImageStatus) : M S Processed :=
  let head := prBranchName (Config.md_Name (Config.Meta (nc_Config nc))) in
  same ← RemoteFileMatches env src head (nc_Path nc) patched;
  if (same : bool) then ensureProposal src nc head msg from to seen
  else
    get committed <- CommitFileOnBranch env src head (nc_Path nc) patched msg
      catch er => mret (failed_image nc seen (Wrap "imageauto: pr commit: " er ""));
    if negb committed then ensureProposal src nc head msg from to seen
    else
      check PushBranch env src head catch er => mret (failed_image nc seen (Wrap "imageauto: pr push: " er ""));
      get _ <- OpenPullRequest env src head (src_branch src) msg (proposalBody (nc_Path nc) from to)
        catch er => mret (failed_image nc seen (Wrap "imageauto: open pr: " er ""));
      mret (kept_config nc seen ImageOutcomeProposed None).

(** Commit on the tracked branch, push, and deploy what was pushed. *)
Definition pushBump (src : Source) (nc : NamedConfig) (patched msg newRef : string) (seen : ImageStatus) : M S Processed :=
  get _ <- CommitFile env src (nc_Path nc) patched msg
    catch er => mret (failed_image nc seen (Wrap "imageauto: commit: " er ""));
  check Push env src catch er => mret (failed_image nc seen (Wrap "imageauto: push: " er ""));
  match o_load env patched with
  | Err er => mret (failed_image nc seen (Wrap "imageauto: reload bumped config: " er ""))
  | Ok bumped => mret {| pr_Config := bumped; pr_Ref := newRef; pr_Status := withOutcome seen ImageOutcomeBumped; pr_Err := None |}
  end.

Definition writeBump (src : Source) (nc : NamedConfig) (pol : Config.ImagePolicy) (res : resolution) (seen : ImageStatus)
    : M S Processed :=
  let path := path_join (src_dir src) (nc_Path nc) in
  get data <- ask (EReadFile path) (λ tr, o_read_file env tr path)
    catch er => mret (failed_image nc seen (Wrap ("imageauto: read " +:+ nc_Path nc +:+ ": ") er ""));
  match PatchRolloutImageRef (o_yaml env) (o_yaml_out env) data (rs_Ref res) with
  | Err er => mret (failed_image nc seen er)
  | Ok (_, false) =>
      mret (match requireCurrentIdentities seen with
            | Some er => failed_image nc seen er
            | None => kept_config nc seen ImageOutcomePinned None
            end)
  | Ok (patched, true) =>
      let msg := "chore(image): " +:+ Config.md_Name (Config.Meta (nc_Config nc)) +:+ " " +:+ rs_From res +:+ " -> " +:+
                 rs_To res +:+ " (rollops)" in
      if Config.WritebackMode (Some pol) == Config.WritebackPullRequest
      then proposeViaPR src nc patched msg (rs_From res) (rs_To res) seen
      else pushBump src nc patched msg (rs_Ref res) seen
  end.

Definition nothing_seen : ImageStatus := {| is_Outcome := ImageOutcomeDisabled; is_Resolved := ""; is_Pinned := "" |}.

Definition Process (src : Source) (nc : NamedConfig) : M S Processed :=
  match Config.sp_ImagePolicy (Config.spec (nc_Config nc)) with
  | None => mret (kept_config nc nothing_seen ImageOutcomeDisabled None)
  | Some pol =>
      if Config.ip_Mode pol == "none" then mret (kept_config nc nothing_seen ImageOutcomeDisabled None)
      else
        let image := as_string (Config.tg_Spec (Config.sp_Target (Config.spec (nc_Config nc))) !! "image") in
        if image == "" then
          mret (failed_image nc nothing_seen (Errorf "imageauto: imagePolicy set but spec.target.spec.image is empty"))
        else
          '(res, er) ← resolve image pol;
          let seen := {| is_Outcome := ImageOutcomeDisabled; is_Resolved := rs_Resolved res; is_Pinned := rs_Pinned res |} in
          match er with
          | Some er => mret (failed_image nc seen er)
          | None =>
              if rs_Ref res == "" then
                mret (match requireCurrentIdentities seen with
                      | Some er => failed_image nc seen er
                      | None => kept_config nc seen ImageOutcomeCurrent None
                      end)
              else writeBump src nc pol res seen
          end
  end.
End ImageAuto.
