(* ===== verification/EngineBase.v ===== *)
(** * Engine: the collaborators

    The helpers of [internal/engine] every operation is built from: target locks
    and leases ([locks.go]), the guardrail check ([security/guardrails.go]),
    governance, traffic and feature-flag drivers, building targets, manifests
    and their checksums, secrets, command runners ([smoke.go]) and health
    probing. *)

From S2P Require Import Prelude GoTime Statekit Config Progressive Model.
From S2P Require Import Lifecycle Risk Analysis Security Store World.

(** ** JSON *)

(** A value after [json.Marshal] and [json.Unmarshal] into [any]: integers come
    back as [float64]. *)
Fixpoint json_any (v : any) : any :=
  match v with
  | AInt z => AFloat (float64 z)
  | AList l => AList (map json_any l)
  | AMap m => AMap (map (λ kv, (kv.1, json_any kv.2)) m)
  | _ => v
  end.

(** [json.Marshal] refuses NaN and the infinities. *)
Fixpoint marshalable (v : any) : bool :=
  match v with
  | AFloat f => negb (PrimFloat.is_nan f || PrimFloat.is_infinity f)
  | AList l => forallb marshalable l
  | AMap m => forallb (λ kv, marshalable kv.2) m
  | _ => true
  end.

Definition spec_marshalable (spec : gmap string any) : bool :=
  forallb (λ kv, marshalable kv.2) (map_to_list spec).

(** ** Deployment facts and labels ([deployment_facts.go]) *)
Definition LabelEnvironment : string := "rollops.env".
Definition LabelVersion : string := "rollops.version".

Definition labelOf (m : Manifest) (key : string) : string := default "" (m_Labels m !! key).

Definition deploymentFacts (r : Rollout) : string * string :=
  (labelOf (r_Desired r) LabelVersion, labelOf (r_Desired r) LabelEnvironment).

(** ** Requests *)
Record RiskInputs := { ri_ChangeType : string; ri_Environment : string; ri_BlastRadius : Z }.

Record ApplyRequest := {
  rq_Config : Config.t;
  rq_Initiator : Identity;
  rq_Root : string;
  rq_Planned : bool;
  rq_NeedsApproval : bool;
  rq_Risk : RiskInputs;
}.

Definition target_of (c : Config.t) : Config.Target := Config.sp_Target (Config.spec c).

Definition governanceEnvironment (cfg : Config.t) (req : ApplyRequest) : string :=
  if ri_Environment (rq_Risk req) != "" then ri_Environment (rq_Risk req)
  else Config.tg_Env (target_of cfg).

Definition flagsEnabled (ff : option Config.FeatureFlags) (phase : string) : bool :=
  match ff with
  | None => false
  | Some ff => if (Config.ff_When ff == "") || (Config.ff_When ff == "both") then true
               else Config.ff_When ff == phase
  end.

Definition strategyFrom (c : Config.t) : RStrategy :=
  let t := Config.sy_Type (Config.sp_Strategy (Config.spec c)) in
  if t == "canary" then StrategyCanary
  else if t == "blue-green" then StrategyBlueGreen
  else StrategyRolling.

Definition appendNote (a b : string) : string :=
  if a == "" then b else if b == "" then a else a +:+ "; " +:+ b.

(** An audit entry without a rollout. *)
Definition entry (action ref : string) (actor : Identity) (detail : string) : Entry :=
  {| en_Action := action; en_RolloutID := ""; en_TargetRef := ref; en_Phase := ""; en_Actor := actor;
     en_Detail := detail |}.
(** An audit entry about a rollout, with or without its phase. *)
Definition rentry (action : string) (r : Rollout) (phase : string) (actor : Identity) (detail : string) : Entry :=
  {| en_Action := action; en_RolloutID := r_ID r; en_TargetRef := r_TargetRef r; en_Phase := phase;
     en_Actor := actor; en_Detail := detail |}.

Section Base.
Context {S : Type} `{!Store S}.
Context (env : Env) (e : Engine).

(** ** Locks ([locks.go]) *)
Definition TryAcquire (key : string) : M S bool :=
  held ← read w_locks;
  if bool_decide (key ∈ held) then mret false
  else write (λ w, set_locks ({[key]} ∪ w_locks w) w);; mret true.

Definition localRelease (key : string) : M S unit :=
  write (λ w, set_locks (w_locks w ∖ {[key]}) w).

(** [Ok true]: acquired; [Ok false]: busy. *)
Definition acquireTarget (targetRef : string) : M S (result bool) :=
  ok ← TryAcquire targetRef;
  if negb ok then mret (Ok false)
  else if negb has_leases then mret (Ok true)
  else
    t ← now env;
    get acquired <- store (AcquireLease ("target:" +:+ targetRef) (e_owner e) (e_leaseTTL e) t)
      catch er => (localRelease targetRef;; mret (Err er));
    if acquired then mret (Ok true)
    else localRelease targetRef;; mret (Ok false).

Definition releaseTarget (targetRef : string) : M S unit :=
  (if has_leases then store (ReleaseLease ("target:" +:+ targetRef) (e_owner e));; mret tt
   else mret tt);;
  localRelease targetRef.

(** The prologue every mutating operation has: acquire or give up, and
    release when the body returns. *)
Definition with_target {A} (targetRef : string) (failed : err → A) (body : M S A) : M S A :=
  get ok <- acquireTarget targetRef catch er => mret (failed er);
  if ok then deferred (releaseTarget targetRef) body
  else mret (failed ErrTargetBusy).

(** ** Guardrails *)
Definition CheckApply (g : Guardrails) (id : Identity) (t : FloorInput) : M S (result bool) :=
  frozen ←
    (if gr_FreezeSource g then
       get f <- store LoadFreeze
         catch er => mret (Some (Wrap "" ErrFrozen (" (freeze state unreadable: " +:+ err_str er +:+ ")")));
       mret (if fs_Active f then Some (Wrap "" ErrFrozen (": " +:+ fs_Reason f)) else None)
     else if gr_Freeze g then
       fz ← read w_freeze;
       mret (if (FreezeActive fz).1 then Some ErrFrozen else None)
     else mret None);
  match frozen with
  | Some er => mret (Err er)
  | None =>
      allowed ← (if (id_Kind id == "agent") && gr_AgentLimit g
                 then ask (ERate ("agent:" +:+ id_Name id)) (λ tr, o_rate env tr ("agent:" +:+ id_Name id))
                 else mret true);
      mret (if (allowed : bool) then Ok (MustApprove (gr_Floor g) t) else Err ErrRateLimited)
  end.

(** ** Governance ([governance.Hook.Evaluate]) *)
Definition governance_Evaluate (q : GovRequest) : M S (result GovDecision) :=
  if negb (e_governance e) then mret (Ok {| gd_Allowed := true; gd_Reason := "" |})
  else if (gq_Action q == "") || (gq_TargetRef q == "")
  then mret (Err (Errorf "governance: action and target are required"))
  else
    get d <- ask (EGovern q) (λ tr, o_govern env tr q) catch er => mret (Err er);
    mret (Ok (if negb (gd_Allowed d) && (gd_Reason d == "")
              then {| gd_Allowed := false; gd_Reason := "denied by governance hook" |} else d)).

(** ** Notifications *)
Definition notifyDeployment (kind : string) (r : Rollout) (detail : string) : M S unit :=
  let '(version, environment) := deploymentFacts r in
  notifyEvent e {| nk_Kind := kind; nk_TargetRef := r_TargetRef r; nk_RolloutID := r_ID r;
                   nk_Detail := detail; nk_Version := version; nk_Environment := environment |}.

(** ** Delivery plane *)
Definition trafficrouting_Apply (c : TrafficChange) : M S (option err) :=
  if tc_Route c == "" then mret (Some (Errorf "trafficrouting: route is required"))
  else if (tc_Weight c <? 0) || (100 <? tc_Weight c)
  then mret (Some (Errorf "trafficrouting: weight must be between 0 and 100"))
  else ask (ETraffic c) (λ tr, o_traffic env tr c).

Definition driveTraffic (ref : string) (tr : option Config.TrafficRouting) (weight : Z) : M S (option err) :=
  match tr with
  | None => mret None
  | Some tr =>
      check ask (ERouter tr) (λ t, o_router env t tr) catch er =>
        (record e (entry ActionApply ref no_identity ("trafficrouter build failed: " +:+ err_str er));;
         mret (Some (Wrap "trafficrouter build: " er "")));
      check trafficrouting_Apply
              {| tc_Route := Config.tr_Route tr; tc_Namespace := Config.tr_Namespace tr;
                 tc_StableService := Config.tr_StableService tr;
                 tc_CanaryService := Config.tr_CanaryService tr; tc_Weight := weight |} catch er =>
        (record e (entry ActionApply ref no_identity ("trafficrouter apply failed: " +:+ err_str er));;
         mret (Some (Wrap "trafficrouter apply: " er "")));
      record e (entry ActionApply ref no_identity
        ("trafficrouter " +:+ quote (Config.tr_Route tr) +:+ " → canary " +:+ pretty weight +:+ "%"));;
      mret None
  end.

Definition featureflags_Apply (c : FlagChange) : M S (option err) :=
  if fc_Flag c == "" then mret (Some (Errorf "featureflags: flag is required"))
  else if (fc_Percentage c <? 0) || (100 <? fc_Percentage c)
  then mret (Some (Errorf "featureflags: percentage must be between 0 and 100"))
  else ask (EFlag c) (λ tr, o_flag env tr c).

Definition driveFlag (ref : string) (ff : Config.FeatureFlags) (percentage : Z) : M S unit :=
  check ask (EFlagProvider ff) (λ tr, o_flag_provider env tr ff) catch er =>
    record e (entry ActionApply ref no_identity ("featureflag build failed: " +:+ err_str er));
  check featureflags_Apply {| fc_Flag := Config.ff_Flag ff; fc_Environment := Config.ff_Environment ff;
                              fc_Percentage := percentage; fc_Disabled := false |} catch er =>
    record e (entry ActionApply ref no_identity ("featureflag apply failed: " +:+ err_str er));
  record e (entry ActionApply ref no_identity
    ("featureflag " +:+ quote (Config.ff_Flag ff) +:+ " → " +:+ pretty percentage +:+ "%")).

Definition driveFlagDisable (ref : string) (ff : Config.FeatureFlags) : M S unit :=
  check ask (EFlagProvider ff) (λ tr, o_flag_provider env tr ff) catch er =>
    record e (entry ActionRollback ref no_identity ("featureflag build failed: " +:+ err_str er));
  check featureflags_Apply {| fc_Flag := Config.ff_Flag ff; fc_Environment := Config.ff_Environment ff;
                              fc_Percentage := 0; fc_Disabled := true |} catch er =>
    record e (entry ActionRollback ref no_identity ("featureflag disable failed: " +:+ err_str er));
  record e (entry ActionRollback ref no_identity
    ("featureflag " +:+ quote (Config.ff_Flag ff) +:+ " disabled (rollback)")).

(** [resetDelivery]: best effort, from the descriptors on the rollout. *)
Definition resetDelivery (r : Rollout) : M S unit :=
  match r_DeliveryTraffic r with
  | Some (Good tr) => driveTraffic (r_TargetRef r) (Some tr) 0;; mret tt
  | _ => mret tt
  end;;
  match r_DeliveryFlag r with
  | Some (Good ff) => driveFlagDisable (r_TargetRef r) ff
  | _ => mret tt
  end.

(** ** Targets *)
Definition BuildTarget (t : Config.Target) : M S (result Config.Target) :=
  check ask (EBuild t) (λ tr, o_build env tr t) catch er => mret (Err er);
  mret (Ok t).

(** [build] wraps the target in the resilience envelope: retries are part of
    what [o_apply], [o_observe] and [o_health] answer for it. *)
Definition build (t : Config.Target) : M S (result Config.Target) := BuildTarget t.

(** The target a persisted manifest describes: kind, ref and spec only. *)
Definition manifest_target (ref : string) (m : Manifest) : Config.Target :=
  {| Config.tg_Kind := m_Kind m; Config.tg_Ref := ref; Config.tg_Criticality := "";
     Config.tg_Env := ""; Config.tg_Spec := m_Spec m |}.

Definition rawTarget (ref : string) (m : Manifest) : M S (result Config.Target) :=
  BuildTarget (manifest_target ref m).
Definition buildTarget (ref : string) (m : Manifest) : M S (result Config.Target) :=
  build (manifest_target ref m).

Definition target_Apply (t : Config.Target) (m : Manifest) : M S (option err) :=
  ask (EApply t m) (λ tr, o_apply env tr t m).
Definition target_Observe (t : Config.Target) : M S (result Fingerprint) :=
  ask (EObserve t) (λ tr, o_observe env tr t).
Definition target_Health (t : Config.Target) : M S (result HealthStatus) :=
  ask (EHealth t) (λ tr, o_health env tr t).
Definition target_Diff (t : Config.Target) (m : Manifest) : M S (result string) :=
  ask (EDiff t m) (λ tr, o_diff env tr t m).

Definition healthAttempts : nat := 3.

(** The tries after the first, the last answer in hand. *)
Fixpoint health_retry (n : nat) (t : Config.Target) (last : err) : M S (result HealthStatus) :=
  match n with
  | O => mret (Err last)
  | Datatypes.S n =>
      done ← ask (EWait (e_healthRetryDelay e)) (o_ctx_done env);
      if (done : bool) then mret (Err last)
      else get hs <- target_Health t catch er => health_retry n t er;
           mret (Ok hs)
  end.

Definition healthWithRetry (t : Config.Target) : M S (result HealthStatus) :=
  get hs <- target_Health t catch er => health_retry (healthAttempts - 1) t er;
  mret (Ok hs).

(** ** Manifests *)
Definition manifestFromConfig (c : Config.t) (root : string) : result Manifest :=
  let t := target_of c in
  if negb (spec_marshalable (Config.tg_Spec t)) then
    Err (Errorf "engine: marshal target spec: json: unsupported value")
  else
    let labels := Config.md_Labels (Config.Meta c) in
    let labels :=
      if Config.tg_Env t != "" then
        match labels !! LabelEnvironment with
        | Some _ => labels
        | None => <[LabelEnvironment := Config.tg_Env t]> labels
        end
      else labels in
    Ok {| m_Kind := Config.tg_Kind t; m_Spec := json_any <$> Config.tg_Spec t; m_Labels := labels;
          m_Checksum := o_spec_sum env (Config.tg_Spec t); m_Root := root; m_Rendered := "" |}.

(** The rendered bytes ([None]: not a referenced source), with the manifest
    re-keyed over them. *)
Definition stampReferencedChecksum (ref : string) (m : Manifest) : M S (result (option string * Manifest)) :=
  get raw <- rawTarget ref m catch er => mret (Ok (None, m));
  if negb (o_renderer env raw) || negb (o_referenced env raw m) then mret (Ok (None, m))
  else
    get out <- ask (ERender raw m) (λ tr, o_render env tr raw m)
      catch er => mret (Err (Wrap "engine: render referenced manifest: " er ""));
    mret (Ok (Some out,
      {| m_Kind := m_Kind m; m_Spec := m_Spec m; m_Labels := m_Labels m;
         m_Checksum := o_sha256 env out; m_Root := m_Root m; m_Rendered := out |})).

(** ** Secrets *)
Definition secret_prefix : string := "secret:".

Fixpoint resolve_entries (kvs : list (string * any)) (out : gmap string any) : M S (result (gmap string any)) :=
  match kvs with
  | [] => mret (Ok out)
  | (k, v) :: kvs =>
      match v with
      | AString s =>
          if HasPrefix s secret_prefix then
            get sec <- ask (ESecret (TrimPrefix s secret_prefix)) (λ tr, o_secret env tr (TrimPrefix s secret_prefix))
              catch er => mret (Err (Wrap ("engine: resolve secret " +:+ quote k +:+ ": ") er ""));
            (if e_audit e then write (λ w, set_secrets (Register (w_secrets w) sec) w) else mret tt);;
            resolve_entries kvs (<[k := AString sec]> out)
          else resolve_entries kvs (<[k := v]> out)
      | _ => resolve_entries kvs (<[k := v]> out)
      end
  end.

Definition resolveSecrets (t : Config.Target) : M S (result Config.Target) :=
  if negb (e_secrets e) || (size (Config.tg_Spec t) =? 0)%nat then mret (Ok t)
  else
    get out <- resolve_entries (map_to_list (Config.tg_Spec t)) ∅ catch er => mret (Err er);
    mret (Ok {| Config.tg_Kind := Config.tg_Kind t; Config.tg_Ref := Config.tg_Ref t;
                Config.tg_Criticality := Config.tg_Criticality t; Config.tg_Env := "";
                Config.tg_Spec := out |}).

(** ** Commands ([smoke.go]) *)
Definition exec (command : list string) : M S (result Z) :=
  ask (EExec command (CommandEnv (e_confinement e) (o_environ env))) (λ tr, o_exec env tr command).

Definition execSmoke (command : list string) : M S (result Z) :=
  match command with
  | [] => mret (Ok 0)
  | _ => match CheckCommand (e_confinement e) command with
         | Some er => mret (Err er)
         | None => exec command
         end
  end.

Definition execDBRollback (command : list string) : M S (option err) :=
  match command with
  | [] => mret None
  | _ => match CheckCommand (e_confinement e) command with
         | Some er => mret (Some er)
         | None =>
             get code <- exec command catch er => mret (Some er);
             mret (if code =? 0 then None else Some (Errorf ("exit status " +:+ pretty code)))
         end
  end.

Definition runDatabaseCommand (db : Config.DatabaseRollback) : M S (option err) :=
  if Config.db_Timeout db != "" then
    match ParseDuration (Config.db_Timeout db) with
    | Err er => mret (Some er)
    | Ok _ => execDBRollback (Config.db_Command db)
    end
  else execDBRollback (Config.db_Command db).

(** ** The artifact gate at apply time *)
Definition check_artifact (mode : string) (verifier : bool) (image : string) : M S (option err) :=
  if (mode == VerifyOff) || ((mode == "") && negb verifier) then mret None
  else if negb verifier then mret (artifact_Check mode None image)
  else
    v ← ask (EVerifyArtifact image) (λ tr, o_artifact env tr image);
    mret (artifact_Check mode (Some v) image).
End Base.
