(* ===== verification/EngineGates.v ===== *)
(** * Engine: planning and the post-deploy gates

    [internal/engine/engine.go]: the risk evaluation, [Plan], [DriftReport],
    [Validate], and the post-deploy gates (health, smoke, metric analysis) with
    the dry run [Verify]. *)

From S2P Require Import Prelude GoTime Statekit Config Progressive Model Lifecycle.
From S2P Require Import Depgraph Risk Analysis Security Store World EngineBase.
From Stdlib Require Import Floats.
Open Scope Z_scope.

(** ** Gate results *)
Definition GateHealth : string := "health".
Definition GateSmoke : string := "smoke".
Definition GateAnalysis : string := "analysis".
Definition GatePass : string := "pass".
Definition GateFail : string := "fail".
Definition GateSkipped : string := "skipped".
Definition GateNotRun : string := "not-run".

Record GateResult := { gt_Gate : string; gt_Status : string; gt_Detail : string }.

Record gateSet := {
  gs_health : bool;
  gs_smoke : option Config.SmokeTest;
  gs_analysis : option Config.Analysis;
}.

Definition gateNameOf (i : nat) : string :=
  match i with 0%nat => GateHealth | 1%nat => GateSmoke | _ => GateAnalysis end.

Definition gate_result (gate status detail : string) : GateResult :=
  {| gt_Gate := gate; gt_Status := status; gt_Detail := detail |}.

Definition healthStateName (s : HealthState) : string :=
  match s with
  | HealthHealthy => "healthy"
  | HealthDegraded => "degraded"
  | HealthUnhealthy => "unhealthy"
  | HealthUnknown => "unknown"
  end.

Fixpoint firstFailure (gates : list GateResult) : string :=
  match gates with
  | [] => ""
  | g :: gates => if gt_Status g == GateFail then gt_Detail g else firstFailure gates
  end.

Record VerifyReport := {
  vr_RolloutID : string;
  vr_TargetRef : string;
  vr_Phase : string;
  vr_OK : bool;
  vr_Reason : string;
  vr_Gates : list GateResult;
  vr_Rollout : Rollout;
}.

(** ** Plans *)
Inductive PlanAction := PlanCreate | PlanUpdate | PlanNoop.

Record PlanResult := {
  pl_TargetRef : string;
  pl_Desired : Manifest;
  pl_Current : Fingerprint;
  pl_Changed : bool;
  pl_Action : PlanAction;
  pl_DeepDrift : bool;
  pl_DriftAlert : bool;
  pl_Migration : string;
  pl_Rendered : option string;
  pl_StrategyNote : string;
  pl_Risk : option Decision;
}.

(** [newPlan]'s verdict: changed, and the action. *)
Definition plan_verdict (desired : Manifest) (current : Fingerprint) (deepDrift : bool) : bool * PlanAction :=
  let changed := (fp_Value current != m_Checksum desired) || deepDrift in
  (changed, if fp_Value current == "" then PlanCreate else if changed then PlanUpdate else PlanNoop).

Definition short (s : string) : string :=
  if (str_len s <=? 12)%nat then s else str_take 12 s.

(** [render], the plan's [Summary]. *)
Definition render (p : PlanResult) : string :=
  let head := pl_TargetRef p +:+ " [" +:+ m_Kind (pl_Desired p) +:+ "]: " in
  let sum := short (m_Checksum (pl_Desired p)) in
  let base :=
    match pl_Action p, pl_DriftAlert p with
    | PlanNoop, true =>
        head +:+ "live drift detected — NOT auto-corrected (detect mode; set verification: full to self-heal) [checksum "
        +:+ sum +:+ "]"
    | PlanNoop, false => head +:+ "no changes (checksum " +:+ sum +:+ ")"
    | PlanCreate, _ => head +:+ "create — deploy checksum " +:+ sum +:+ " (no current state observed)"
    | PlanUpdate, _ =>
        if pl_DeepDrift p
        then head +:+ "update — live drifted from desired " +:+ sum +:+ " (full verification)"
        else head +:+ "update — " +:+ short (fp_Value (pl_Current p)) +:+ " → " +:+ sum
    end in
  let nl := String (Ascii.ascii_of_nat 10) "" in
  base +:+ (if pl_Migration p != "" then nl +:+ "  + database " +:+ pl_Migration p else "")
       +:+ (if pl_StrategyNote p != "" then nl +:+ "  strategy: " +:+ pl_StrategyNote p else "").

Record DriftItem := {
  di_TargetRef : string;
  di_Phase : Phase;
  di_Desired : string;
  di_Observed : string;
  di_Drifted : bool;
}.

(** The loop of [DriftReport]: the newest rollout of each target. *)
Fixpoint drift_items (rs : list Rollout) (fps : gmap string string) (seen : gset string) : list DriftItem :=
  match rs with
  | [] => []
  | r :: rs =>
      if bool_decide (r_TargetRef r ∈ seen) then drift_items rs fps seen
      else
        let observed := default "" (fps !! r_TargetRef r) in
        {| di_TargetRef := r_TargetRef r; di_Phase := r_Phase r;
           di_Desired := m_Checksum (r_Desired r); di_Observed := observed;
           di_Drifted := Settled (r_Phase r) && (observed != m_Checksum (r_Desired r)) |}
        :: drift_items rs fps ({[r_TargetRef r]} ∪ seen)
  end.

(** [RiskFromConfig]. *)
Definition RiskFromConfig (c : Config.t) (deps : list Dependency) : RiskInputs := {|
  ri_ChangeType := match Config.DatabaseMigrate (Config.spec c) with Some _ => "schema" | None => "config" end;
  ri_Environment := Config.tg_Env (target_of c);
  ri_BlastRadius := if (0 <? length deps)%nat
                    then Z.of_nat (BlastRadius (New [Config.tg_Ref (target_of c)] deps) (Config.tg_Ref (target_of c)))
                    else 0 |}.

Record Validation := {
  va_Plan : PlanResult;
  va_BlastRadius : Z;
  va_DeployOrder : list (list string);
}.

Definition risk_configured (c : Config.t) : bool :=
  let r := Config.sp_Risk (Config.spec c) in
  PrimFloat.ltb PrimFloat.zero (Config.rk_Threshold r) || (Config.rk_Sensitive r != "").

Section Gates.
Context {S : Type} `{!Store S}.
Context (env : Env) (e : Engine).

(** ** Risk *)
Definition history_defaults (h : Config.RiskHistory) : Config.RiskHistory := {|
  Config.rh_Lookback := if Config.rh_Lookback h <=? 0 then 10 else Config.rh_Lookback h;
  Config.rh_Weight := if PrimFloat.eqb (Config.rh_Weight h) PrimFloat.zero then 0.15%float else Config.rh_Weight h;
  Config.rh_MaxFailures := if Config.rh_MaxFailures h <=? 0 then 3 else Config.rh_MaxFailures h |}.

Definition recent_failures (lookback : Z) (hist : list RolloutRecord) : Z :=
  Z.of_nat (length (filter (λ rec, rr_Phase rec = PhaseRolledBack) (take (Z.to_nat lookback) hist))).

Definition riskWeights (c : Config.t) : M S (result (Weights * Z)) :=
  let h := Config.rk_History (Config.sp_Risk (Config.spec c)) in
  if (Config.rh_Lookback h <=? 0) && PrimFloat.eqb (Config.rh_Weight h) PrimFloat.zero &&
     (Config.rh_MaxFailures h =? 0)
  then mret (Ok (DefaultWeights, 0))
  else
    let h := history_defaults h in
    let w := {| w_Criticality := w_Criticality DefaultWeights; w_Environment := w_Environment DefaultWeights;
                w_ChangeType := w_ChangeType DefaultWeights; w_BlastRadius := w_BlastRadius DefaultWeights;
                w_Strategy := w_Strategy DefaultWeights; w_History := Config.rh_Weight h;
                w_MaxBlastRadius := w_MaxBlastRadius DefaultWeights;
                w_MaxRecentFailures := Config.rh_MaxFailures h |} in
    get hist <- store (StoreHistory (Config.tg_Ref (target_of c)))
      catch er => mret (Err (Wrap "engine: risk history: " er ""));
    mret (Ok (w, recent_failures (Config.rh_Lookback h) hist)).

Definition EvaluateRisk (c : Config.t) (i : RiskInputs) : M S (result Decision) :=
  get wr <- riskWeights c catch er => mret (Err er);
  let g := {| g_Threshold := Config.rk_Threshold (Config.sp_Risk (Config.spec c)); g_Weights := wr.1;
              g_SensitiveExpr := Config.rk_Sensitive (Config.sp_Risk (Config.spec c)) |} in
  mret (Evaluate (o_cel env) g
    {| s_Criticality := Config.tg_Criticality (target_of c); s_Environment := ri_Environment i;
       s_ChangeType := ri_ChangeType i; s_BlastRadius := ri_BlastRadius i;
       s_Strategy := Config.sy_Type (Config.sp_Strategy (Config.spec c)); s_RecentFailures := wr.2 |}).

(** ** Plan *)

(** The live diff of [Plan], run when the stamp matches: (deepDrift,
    driftAlert). *)
Definition live_diff (ver ref : string) (m : Manifest) : M S (bool * bool) :=
  get raw <- rawTarget env ref m catch er => mret (ver == "full", false);
  if negb (o_differ env raw) then mret (false, false)
  else
    get diff <- target_Diff env raw m catch er => mret (ver == "full", false);
    mret (if TrimSpace diff == "" then (false, false)
          else if ver == "full" then (true, false) else (false, true)).

Definition Plan (c : Config.t) : M S (result PlanResult) :=
  let ref := Config.tg_Ref (target_of c) in
  match manifestFromConfig env c (e_root e) with
  | Err er => mret (Err er)
  | Ok m =>
      get (rendered, m) <- stampReferencedChecksum env ref m catch er => mret (Err er);
      get tgt <- build env (target_of c) catch er => mret (Err er);
      get cur <- target_Observe env tgt catch er => mret (Err (Wrap "engine: plan: observe: " er ""));
      t ← now env;
      store (SaveObservedState {| ts_TargetRef := ref; ts_Observed := cur; ts_ObservedAt := t |});;
      let ver := if Config.sp_Verification (Config.spec c) == "" then "detect"
                 else Config.sp_Verification (Config.spec c) in
      drift ← (if ((ver == "detect") || (ver == "full")) && (fp_Value cur == m_Checksum m) &&
                  (m_Checksum m != "")
               then live_diff ver ref m else mret (false, false));
      let '(deepDrift, driftAlert) := drift in
      let '(changed, action) := plan_verdict m cur deepDrift in
      let migration :=
        match Config.DatabaseMigrate (Config.spec c) with
        | Some mig => "migrate (" +:+ Config.DatabaseMigrateWhen (Config.spec c) +:+ "): " +:+
                      Join (Config.db_Command mig) " "
        | None => ""
        end in
      let p risk := {| pl_TargetRef := ref; pl_Desired := m; pl_Current := cur; pl_Changed := changed;
                       pl_Action := action; pl_DeepDrift := deepDrift; pl_DriftAlert := driftAlert;
                       pl_Migration := migration; pl_Rendered := rendered;
                       pl_StrategyNote := Config.HonestStrategy (Some c); pl_Risk := risk |} in
      if risk_configured c then
        get d <- EvaluateRisk c (RiskFromConfig c []) catch er => mret (Err er);
        mret (Ok (p (Some d)))
      else mret (Ok (p None))
  end.

Definition DriftReport : M S (result (list DriftItem)) :=
  get rs <- store (ListRollouts 0) catch er => mret (Err er);
  get fps <- store ObservedFingerprints catch er => mret (Err er);
  mret (Ok (drift_items rs fps ∅)).

(** [Validate], given what [config.Validate] says of the configuration. *)
Definition Validate (config_ok : option err) (c : Config.t) (deps : list Dependency) : M S (result Validation) :=
  match config_ok with
  | Some er => mret (Err er)
  | None =>
      let g := New [Config.tg_Ref (target_of c)] deps in
      match Layers g with
      | Err er => mret (Err (Wrap "engine: validate: " er ""))
      | Ok order =>
          get plan <- Plan c catch er => mret (Err er);
          mret (Ok {| va_Plan := plan;
                      va_BlastRadius := Z.of_nat (BlastRadius g (Config.tg_Ref (target_of c)));
                      va_DeployOrder := order |})
      end
  end.

(** ** The gates *)
Definition gatesFromConfig (c : Config.t) : gateSet :=
  let rb := Config.sp_Rollback (Config.spec c) in
  {| gs_health := match Config.rb_HealthCheck rb with Some _ => true | None => Config.rb_Auto rb end;
     gs_smoke := Config.rb_SmokeTest rb;
     gs_analysis := if e_analysis e then Config.sp_Analysis (Config.spec c) else None |}.

(** A captured descriptor: none, decoded, or unreadable. *)
Definition descriptor {A} (what : string) (b : blob A) : result (option A) :=
  match b with
  | None => Ok None
  | Some c => match unmarshal c with
              | Ok a => Ok (Some a)
              | Err er => Err (Wrap (what +:+ " descriptor unreadable: ") er "")
              end
  end.

Definition gatesFromRollout (r : Rollout) : result gateSet :=
  try smoke <- descriptor "smoke test" (r_SmokeTest r);
  try analysis <- (if e_analysis e then descriptor "analysis" (r_Analysis r) else Ok None);
  Ok {| gs_health := true; gs_smoke := smoke; gs_analysis := analysis |}.

Definition gateHealth (r : Rollout) : M S GateResult :=
  get tgt <- buildTarget env (r_TargetRef r) (r_Desired r)
    catch er => mret (gate_result GateHealth GateFail ("health gate unavailable: " +:+ err_str er));
  get hs <- healthWithRetry env e tgt
    catch er => mret (gate_result GateHealth GateFail ("health check failed: " +:+ err_str er));
  mret (if bool_decide (hs_State hs = HealthUnhealthy) then
          gate_result GateHealth GateFail
            (if hs_Reason hs != "" then "health check failed: " +:+ hs_Reason hs else "health check failed")
        else gate_result GateHealth GatePass (healthStateName (hs_State hs))).

Definition gateSmoke (st : Config.SmokeTest) : M S GateResult :=
  get code <- execSmoke env e (Config.sm_Command st)
    catch er => mret (gate_result GateSmoke GateFail ("smoke test error: " +:+ err_str er));
  mret (if code =? Config.sm_ExpectExit st then gate_result GateSmoke GatePass ""
        else gate_result GateSmoke GateFail
               ("smoke test exit " +:+ pretty code +:+ " (expected " +:+ pretty (Config.sm_ExpectExit st) +:+ ")")).

(** The metrics provider of an analysis: every query goes outside. *)
Definition outside_metrics : MetricsProvider (World S) := {|
  mp_Query := λ q, ask (EQuery q) (λ tr, o_query env tr q);
  mp_Series := if o_series_capable env
               then Some (λ q, ask (ESeries q) (λ tr, o_series env tr q)) else None |}.

Definition metrics_provider (a : Config.Analysis) : M S (result (MetricsProvider (World S))) :=
  if e_metrics e then mret (Ok outside_metrics)
  else if Config.an_Plugin a != "" then
    check ask (EMetrics a) (λ tr, o_metrics env tr a) catch er => mret (Err (Wrap "analysis: " er ""));
    mret (Ok outside_metrics)
  else if Config.an_Provider a == "prometheus" then mret (Ok outside_metrics)
  else mret (Err (Errorf ("analysis: no metrics provider for " +:+ quote (Config.an_Provider a)))).

Definition template_of (a : Config.Analysis) : Template := {|
  te_Metrics := (λ m, {| me_Name := Config.am_Name m; me_Query := Config.am_Query m;
                         me_Aggregation := Config.am_Aggregation m |}) <$> Config.an_Metrics a;
  te_Condition := Config.an_Condition a;
  te_Interval := match ParseDuration (Config.an_Interval a) with Ok d => d | Err _ => 0 end;
  te_Count := Config.an_Count a;
  te_FailureLimit := Config.an_FailureLimit a |}.

(** [time.Sleep] between measurements. *)
Definition wait (d : Duration) (w : World S) : World S := (ask (EWait d) (λ _, tt) w).2.

Definition runAnalysis (a : Config.Analysis) : M S (bool * string) :=
  get provider <- metrics_provider a catch er => mret (false, err_str er);
  match NewAnalyzer (o_cel_vars env) provider (template_of a) with
  | Err er => mret (false, "analysis: " +:+ err_str er)
  | Ok an =>
      res ← (λ w, RunAnalysis wait an w);
      mret (if ar_Passed res
            then (true, "analysis passed: " +:+ pretty (length (ar_Measurements res)) +:+ " measurement(s)")
            else (false, "analysis failed: " +:+ ar_Reason res))
  end.

Definition gateAnalysis (a : Config.Analysis) : M S GateResult :=
  '(ok, note) ← runAnalysis a;
  mret (gate_result GateAnalysis (if (ok : bool) then GatePass else GateFail) note).

(** The closure [run] of [runGates]: the results so far and whether one
    failed. *)
Definition run_gate (acc : list GateResult * bool) (enabled : bool) (skipDetail : string)
    (gate : M S GateResult) : M S (list GateResult * bool) :=
  let '(out, failed) := acc in
  if (failed : bool) then mret (out ++ [gate_result (gateNameOf (length out)) GateNotRun ""], failed)
  else if negb enabled then mret (out ++ [gate_result (gateNameOf (length out)) GateSkipped skipDetail], failed)
  else res ← gate; mret (out ++ [res], gt_Status res == GateFail).

Definition smoke_enabled (gs : gateSet) : bool :=
  match gs_smoke gs with Some st => (0 <? length (Config.sm_Command st))%nat | None => false end.

Definition runGates (r : Rollout) (gs : gateSet) : M S (list GateResult) :=
  acc ← run_gate ([], false) (gs_health gs) "no health check configured" (gateHealth r);
  acc ← run_gate acc (smoke_enabled gs) "no smoke test configured"
          (match gs_smoke gs with Some st => gateSmoke st | None => mret (gate_result "" "" "") end);
  '(out, _) ← run_gate acc (match gs_analysis gs with Some _ => true | None => false end)
          "no metric analysis configured"
          (match gs_analysis gs with Some a => gateAnalysis a | None => mret (gate_result "" "" "") end);
  mret out.

(** (failed, reason, note for the promotion). *)
Definition runPostDeployChecks (r : Rollout) (c : Config.t) : M S (bool * string * string) :=
  gates ← runGates r (gatesFromConfig c);
  let reason := firstFailure gates in
  if reason != "" then mret (true, reason, "")
  else
    let noted := filter (λ g, gt_Gate g = GateAnalysis ∧ gt_Status g = GatePass ∧ gt_Detail g ≠ "") gates in
    mret (false, "", match head noted with Some g => gt_Detail g | None => "" end).

Definition Verify (rolloutID : string) : M S (result VerifyReport) :=
  get r <- store (LoadRollout rolloutID) catch er => mret (Err er);
  match gatesFromRollout r with
  | Err er => mret (Err (Wrap "engine: verify: " er ""))
  | Ok gs =>
      gates ← runGates r gs;
      let reason := firstFailure gates in
      mret (Ok {| vr_RolloutID := r_ID r; vr_TargetRef := r_TargetRef r; vr_Phase := phase_str (r_Phase r);
                  vr_OK := reason == ""; vr_Reason := reason; vr_Gates := gates; vr_Rollout := r |})
  end.

(** ** Reading *)
Definition Status (id : string) : M S (result Rollout) := store (LoadRollout id).
Definition List (limit : Z) : M S (result (list Rollout)) := store (ListRollouts limit).
Definition History (ref : string) : M S (result (list RolloutRecord)) := store (StoreHistory ref).

Definition Diff (rolloutID : string) : M S (result string) :=
  get r <- store (LoadRollout rolloutID) catch er => mret (Err er);
  get tgt <- rawTarget env (r_TargetRef r) (r_Desired r) catch er => mret (Err er);
  if negb (o_differ env tgt) then mret (Err ErrUnsupported)
  else target_Diff env tgt (r_Desired r).

Definition Resources (rolloutID : string) : M S (result (list Resource)) :=
  get r <- store (LoadRollout rolloutID) catch er => mret (Err er);
  get tgt <- rawTarget env (r_TargetRef r) (r_Desired r) catch er => mret (Err er);
  if negb (o_inspector env tgt) then mret (Err ErrUnsupported)
  else ask (EResources tgt) (λ tr, o_resources env tr tgt).

Definition Observe (t : Config.Target) : M S (result Fingerprint) :=
  get tgt <- build env t catch er => mret (Err er);
  get fp <- target_Observe env tgt catch er => mret (Err (Wrap "engine: observe: " er ""));
  tm ← now env;
  check store (SaveObservedState {| ts_TargetRef := Config.tg_Ref t; ts_Observed := fp; ts_ObservedAt := tm |})
    catch er => mret (Err er);
  mret (Ok fp).

(** [Preflight] over a batch of configs with their roots: the objections.  [objection]
    is the loop's body: why the config would not apply, if so. *)
Definition objection (c : Config.t) (root : string) : M S (option err) :=
  let ref := Config.tg_Ref (target_of c) in
  match manifestFromConfig env c (if root == "" then e_root e else root) with
  | Err er => mret (Some (Wrap (ref +:+ ": render: ") er ""))
  | Ok m =>
      get (_, m) <- stampReferencedChecksum env ref m
        catch er => mret (Some (Wrap (ref +:+ ": render: ") er ""));
      get tgt <- BuildTarget env (target_of c)
        catch er => mret (Some (Wrap (ref +:+ ": build target: ") er ""));
      if negb (o_preflighter env tgt) then mret None
      else
        check ask (EPreflight tgt m) (λ tr, o_preflight env tr tgt m)
          catch er => mret (Some (Wrap (ref +:+ ": ") er ""));
        mret None
  end.

Fixpoint Preflight (cs : list (Config.t * string)) : M S (list err) :=
  match cs with
  | [] => mret []
  | (c, root) :: cs =>
      found ← objection c root;
      rest ← Preflight cs;
      mret (match found with Some er => er :: rest | None => rest end)
  end.

(** [WarnDanglingMiddlewares]: the documents of the batch that can be rendered,
    and the warnings about them.  [rendered] is the loop's body. *)
Definition rendered (c : Config.t) (root : string) : M S (option string) :=
  match manifestFromConfig env c (if root == "" then e_root e else root) with
  | Err _ => mret None
  | Ok m =>
      get (_, m) <- stampReferencedChecksum env (Config.tg_Ref (target_of c)) m catch _ => mret None;
      if m_Rendered m != "" then mret (Some (m_Rendered m))
      else
        get tgt <- BuildTarget env (target_of c) catch _ => mret None;
        if negb (o_renderer env tgt) then mret None
        else
          get out <- ask (ERender tgt m) (λ tr, o_render env tr tgt m) catch _ => mret None;
          mret (if out == "" then None else Some out)
  end.

Fixpoint rendered_all (cs : list (Config.t * string)) : M S (list string) :=
  match cs with
  | [] => mret []
  | (c, root) :: cs =>
      doc ← rendered c root;
      rest ← rendered_all cs;
      mret (match doc with Some d => d :: rest | None => rest end)
  end.

Definition WarnDanglingMiddlewares (cs : list (Config.t * string)) : M S (list string) :=
  docs ← rendered_all cs;
  if (length docs =? 0)%nat then mret [] else read (λ w, o_dangling env (w_trace w) docs).
End Gates.
