(* ===== verification/EngineRollback.v ===== *)
(** * Engine: promotion, rollback, approval, the kill-switch

    The operations of [internal/engine/engine.go] that move a deployed or gated
    rollout: [Promote], [Rollback] and its core [applyRollback], the choice of a
    prior manifest, [VerifyOrRollback], [Approve], [Reject] and [Freeze].  An
    operation that returns a rollout and an error gives a pair; [None] stands
    for the zero rollout. *)

From S2P Require Import Prelude GoTime Statekit Config Progressive Model Lifecycle.
From S2P Require Import Risk Analysis Security Store World EngineBase EngineGates.

Definition outcome : Type := option Rollout * option err.

Record VerifyOutcome := { vo_Rollout : option Rollout; vo_RolledBack : bool; vo_Reason : string }.

(** [realPrincipal] and [sameIdentity]. *)
Definition realPrincipal (id : Identity) : bool :=
  (id_Kind id != "") && (id_Name id != "") && (id_Name id != "system").
Definition sameIdentity (a b : Identity) : bool :=
  (id_Kind a == id_Kind b) && (id_Name a == id_Name b).

(** The database hook a rollback runs: the one passed in, else the one captured
    on the rollout. *)
Definition rollback_hook (r : Rollout) (db : option Config.DatabaseRollback) : option Config.DatabaseRollback :=
  match db with
  | Some db => Some db
  | None => if (0 <? length (r_DBRollbackCmd r))%nat
            then Some {| Config.db_Command := r_DBRollbackCmd r; Config.db_Timeout := r_DBRollbackTimeout r;
                         Config.db_When := "" |}
            else None
  end.

Definition has_command (db : option Config.DatabaseRollback) : bool :=
  match db with Some db => (0 <? length (Config.db_Command db))%nat | None => false end.

(** The backward-compatibility gate: this rollback must be forced. *)
Definition rollback_unsafe (r : Rollout) (db : option Config.DatabaseRollback) : bool :=
  (0 <? length (r_DBMigrateCmd r))%nat && negb (r_DBBackwardCompatible r) && negb (has_command db).

(** The loop of [priorManifestErr] over the rollouts, newest first. *)
Definition prior_in (rs : list Rollout) (targetRef excludeChecksum : string) : option Manifest :=
  r_Desired <$> head (filter (λ r, r_TargetRef r = targetRef ∧ m_Checksum (r_Desired r) ≠ "" ∧
                                   m_Checksum (r_Desired r) ≠ excludeChecksum) rs).

Definition rooted (root : string) (m : Manifest) : Manifest :=
  if m_Root m == "" then set_Root root m else m.

Section Rollback.
Context {S : Type} `{!Store S, !Statechart Phase LifeContext unit}.
Context (env : Env) (e : Engine).

(** [ResumeLifecycle] with the context every stored rollout resumes in. *)
Definition resume (p : Phase) : Lifecycle :=
  ResumeLifecycle p {| PlanProduced := true; NeedsApproval := false |}.

(** Save, reporting nothing but the error. *)
Definition save (r : Rollout) : M S (option err) := store (SaveRollout r).

(** ** Prior manifests *)
Definition priorManifestErr (targetRef excludeChecksum : string) : M S (result (option Manifest)) :=
  get rs <- store (ListRollouts 0) catch er => mret (Err (Wrap "engine: read prior manifest: " er ""));
  mret (Ok (prior_in rs targetRef excludeChecksum)).

Definition priorManifest (targetRef excludeChecksum : string) : M S (option Manifest) :=
  get m <- priorManifestErr targetRef excludeChecksum catch er => mret None;
  mret m.

Definition not_compared (er : err) : string :=
  "the live state could not be compared with the recorded rollback target: " +:+ err_str er.

Definition rollbackBaseline (ref : string) (desired : Manifest) : M S string :=
  get prior <- priorManifestErr ref (m_Checksum desired)
    catch er => mret ("the recorded rollback target could not be read: " +:+ err_str er);
  match prior with
  | None => mret ""
  | Some prior =>
      get raw <- rawTarget env ref desired catch er => mret (not_compared er);
      if negb (o_differ env raw) then mret ""
      else
        get diff <- target_Diff env raw (rooted (e_root e) prior) catch er => mret (not_compared er);
        mret (if TrimSpace diff != "" then
          "the live state is not the last manifest rollops recorded (it was changed outside rollops), " +:+
          "so rolling back would restore something that was not running"
        else "")
  end.

(** ** Rollback *)

(** Returns what the call returns, and the rollout the caller's pointer holds
    afterwards: it is modified once the prior manifest has been re-applied,
    also when the final save fails. *)
Definition applyRollback (r : Rollout) (prior : Manifest) (note : string)
    (db : option Config.DatabaseRollback) (force : bool) : M S (outcome * Rollout) :=
  let db := rollback_hook r db in
  if negb force && rollback_unsafe r db then
    mret ((Some r, Some (Errorf ("engine: rollback blocked: release ran a database migration not declared backwardCompatible and has no database rollback command; force the rollback to override"))), r)
  else
    let '(lc, (_, rejected)) := Send (resume (r_Phase r)) EventRollback in
    match rejected with
    | Some er => mret ((Some r, Some er), r)
    | None =>
        get tgt <- buildTarget env (r_TargetRef r) prior catch er => mret ((Some r, Some er), r);
        check target_Apply env tgt prior
          catch er => mret ((Some r, Some (Wrap "engine: rollback: re-apply: " er "")), r);
        t ← now env;
        let r := set_UpdatedAt t (set_Desired prior (set_Phase (lc_phase lc) r)) in
        resetDelivery env e r;;
        if has_command db then
          check match db with Some hook => runDatabaseCommand env e hook | None => mret None end catch er =>
            (let r := set_Note (appendNote note ("database rollback: failed: " +:+ err_str er)) r in
             save r;; mret ((Some r, Some (Wrap "database rollback: " er "")), r));
          let r := set_Note (appendNote note "database rollback: succeeded") r in
          check save r catch er => mret ((None, Some er), r);
          mret ((Some r, None), r)
        else
          let r := set_Note note r in
          check save r catch er => mret ((None, Some er), r);
          mret ((Some r, None), r)
    end.

Definition rollbackWithDatabase (rolloutID : string) (prior : Manifest) (note : string)
    (db : option Config.DatabaseRollback) (force : bool) : M S outcome :=
  get r <- store (LoadRollout rolloutID) catch er => mret (None, Some er);
  with_target env e (r_TargetRef r) (λ er, (Some r, Some er))
    ('(out, _) ← applyRollback r prior note db force; mret out).

Definition rollbackWithNote (rolloutID : string) (prior : Manifest) (note : string) (force : bool) : M S outcome :=
  rollbackWithDatabase rolloutID prior note None force.

Definition Rollback (rolloutID : string) (prior : Manifest) (force : bool) : M S outcome :=
  rollbackWithNote rolloutID prior "" force.

Definition RollbackLast (targetRef : string) (force : bool) : M S outcome :=
  get rs <- store (ListRollouts 0) catch er => mret (None, Some er);
  match head (filter (λ r, r_TargetRef r = targetRef) rs) with
  | None => mret (None, Some (Errorf ("engine: no rollouts for target " +:+ quote targetRef)))
  | Some current =>
      prior ← priorManifest targetRef (m_Checksum (r_Desired current));
      match prior with
      | None => mret (None, Some (Errorf ("engine: no prior state to roll back " +:+ quote targetRef +:+ " to")))
      | Some prior =>
          if (r_RollbackBlocked current != "") && negb force then
            mret (None, Some (Errorf ("engine: rollback: the manifest rollops would restore was not live when " +:+
              r_ID current +:+ " started (" +:+ r_RollbackBlocked current +:+
              "); force the rollback to apply it anyway")))
          else Rollback (r_ID current) prior force
      end
  end.

(** ** Promotion *)

(** The end of [promoteWithNote]. *)
Definition finish_promote (r : Rollout) (note : string) : M S outcome :=
  t ← now env;
  let r := set_UpdatedAt t (set_Note note r) in
  check save r catch er => mret (None, Some er);
  mret (Some r, None).

Definition promoteWithNote (rolloutID note : string) : M S outcome :=
  get r <- store (LoadRollout rolloutID) catch er => mret (None, Some er);
  let '(lc, (_, rejected)) := Send (resume (r_Phase r)) EventVerifyOK in
  match rejected with
  | Some er => mret (Some r, Some er)
  | None =>
      let r := set_Phase (lc_phase lc) r in
      if (r_DBMigrateWhen r == Config.MigratePostPromote) && (0 <? length (r_DBMigrateCmd r))%nat then
        check runDatabaseCommand env e {| Config.db_Command := r_DBMigrateCmd r;
                                          Config.db_Timeout := r_DBMigrateTimeout r; Config.db_When := "" |}
          catch er =>
            (t ← now env;
             let r := set_UpdatedAt t (set_Note (appendNote note
                        ("database migrate (post-promote): failed: " +:+ err_str er)) r) in
             save r;; mret (Some r, Some (Wrap "database migrate (post-promote): " er "")));
        finish_promote r (appendNote note "database migrate (post-promote): succeeded")
      else finish_promote r note
  end.

Definition promote_commit (rolloutID : string) (by_ : Identity) (force : bool) (note : string) : M S outcome :=
  '(promoted, er) ← promoteWithNote rolloutID note;
  match er, promoted with
  | None, Some p =>
      record e (rentry ActionPromote p (phase_str (r_Phase p)) by_
        (if force then "promoted (post-deploy gates bypassed: forced)" else "promoted"));;
      mret (Some p, None)
  | _, _ => mret (promoted, er)
  end.

Definition Promote (rolloutID : string) (by_ : Identity) (force : bool) : M S outcome :=
  get r <- store (LoadRollout rolloutID) catch er => mret (None, Some er);
  if force then promote_commit rolloutID by_ force "promote: post-deploy gates bypassed (forced)"
  else
    match gatesFromRollout e r with
    | Err er => mret (Some r, Some (Wrap "engine: promote: " er ""))
    | Ok gs =>
        gates ← runGates env e r gs;
        let reason := firstFailure gates in
        if reason != "" then
          mret (Some r, Some (Errorf ("engine: promote: " +:+ reason +:+ "; force the promote to override")))
        else promote_commit rolloutID by_ force ""
    end.

(** ** The automatic gate *)
Definition VerifyOrRollback (rolloutID : string) (prior : Manifest) (c : Config.t)
    : M S (VerifyOutcome * option err) :=
  let none := {| vo_Rollout := None; vo_RolledBack := false; vo_Reason := "" |} in
  get r <- store (LoadRollout rolloutID) catch er => mret (none, Some er);
  let prior := rooted (e_root e) prior in
  let rb := Config.sp_Rollback (Config.spec c) in
  '(failed, reason, successNote) ← runPostDeployChecks env e r c;
  if (failed : bool) then
    let out := {| vo_Rollout := Some r; vo_RolledBack := false; vo_Reason := reason |} in
    if negb (Config.rb_Auto rb) then
      mret (out, Some (Errorf ("engine: verify failed (auto-rollback disabled): " +:+ reason)))
    else if r_RollbackBlocked r != "" then
      mret (out, Some (Errorf ("engine: verify failed and auto-rollback was not attempted (" +:+
                               r_RollbackBlocked r +:+ "): " +:+ reason)))
    else
      '(rolled, er) ← rollbackWithDatabase rolloutID prior reason (Config.DatabaseRollbackHook (Config.spec c)) true;
      match er, rolled with
      | None, Some rb =>
          notifyDeployment e NotifyRolledBack rb reason;;
          mret ({| vo_Rollout := Some rb; vo_RolledBack := true; vo_Reason := reason |}, None)
      | None, None => mret (none, None)
      | Some er, _ => mret (out, Some (Wrap ("engine: auto-rollback after " +:+ quote reason +:+ ": ") er ""))
      end
  else
    '(promoted, er) ← promoteWithNote rolloutID successNote;
    match er, promoted with
    | None, Some p =>
        match Config.sp_FeatureFlags (Config.spec c) with
        | Some ff => if flagsEnabled (Some ff) "promote" then driveFlag env e (r_TargetRef p) ff 100 else mret tt
        | None => mret tt
        end;;
        notifyDeployment e NotifyPromoted p "";;
        mret ({| vo_Rollout := Some p; vo_RolledBack := false; vo_Reason := "" |}, None)
    | None, None => mret (none, None)
    | Some er, _ => mret (none, Some er)
    end.

(** ** Approval *)
Definition no_floor_input (ref : string) : FloorInput :=
  {| fi_TargetRef := ref; fi_Environment := ""; fi_ChangeType := ""; fi_Criticality := "" |}.

(** The deploy an approval releases; the target lock is held. *)
Definition approve_deploy (r : Rollout) (by_ : Identity) : M S outcome :=
  let '(lc, (_, rejected)) := Send (resume (r_Phase r)) EventApprove in
  match rejected with
  | Some er => mret (Some r, Some er)
  | None =>
      get tgt <- buildTarget env (r_TargetRef r) (r_Desired r) catch er => mret (Some r, Some er);
      check target_Apply env tgt (r_Desired r) catch er =>
        (let lc := (Send lc EventError).1 in
         t ← now env;
         let r := set_UpdatedAt t (set_Phase (lc_phase lc) r) in
         save r;; mret (Some r, Some (Wrap "engine: approve: apply: " er "")));
      let '(lc, (_, rejected)) := Send lc EventDeployed in
      match rejected with
      | Some er => mret (Some r, Some er)
      | None =>
          let r := set_Phase (lc_phase lc) r in
          let r := if id_Name by_ != "" then set_Initiator by_ r else r in
          t ← now env;
          let r := set_UpdatedAt t r in
          check save r catch er => mret (None, Some er);
          mret (Some r, None)
      end
  end.

Definition Approve (rolloutID : string) (by_ : Identity) : M S outcome :=
  get r <- store (LoadRollout rolloutID) catch er => mret (None, Some er);
  if negb (e_allowSelfApprove e) && realPrincipal (r_Initiator r) && sameIdentity by_ (r_Initiator r) then
    record e (rentry ActionApply r "" by_ "approve rejected: four-eyes (approver == initiator)");;
    mret (Some r, Some (Errorf ("engine: four-eyes: approver " +:+ quote (id_Name by_) +:+
      " must differ from initiator " +:+ quote (id_Name (r_Initiator r)) +:+
      " (set ROLLOPS_ALLOW_SELF_APPROVE=1 to allow)")))
  else
    with_target env e (r_TargetRef r) (λ er, (Some r, Some er))
      (match e_guardrails e with
       | None => approve_deploy r by_
       | Some g =>
           get _force <- CheckApply env g by_ (no_floor_input (r_TargetRef r)) catch er =>
             (record e (rentry ActionApply r "" by_ ("approve blocked: " +:+ err_str er));;
              mret (Some r, Some er));
           approve_deploy r by_
       end).

Definition Reject (rolloutID : string) (by_ : Identity) : M S outcome :=
  get r <- store (LoadRollout rolloutID) catch er => mret (None, Some er);
  let '(lc, (_, rejected)) := Send (resume (r_Phase r)) EventReject in
  match rejected with
  | Some er => mret (Some r, Some er)
  | None =>
      let r := set_Phase (lc_phase lc) r in
      let r := if id_Name by_ != "" then set_Initiator by_ r else r in
      t ← now env;
      let r := set_UpdatedAt t r in
      check save r catch er => mret (None, Some er);
      mret (Some r, None)
  end.

(** ** The kill-switch *)
Definition freeze_attached : bool :=
  match e_guardrails e with Some g => gr_Freeze g | None => false end.

Definition SetFreeze (on : bool) (by_ : Identity) (reason : string) : M S (bool * string * option err) :=
  if negb freeze_attached then mret (false, "", Some (Errorf "engine: freeze is not configured"))
  else
    t ← now env;
    let state := {| fs_Active := on; fs_Reason := if on then reason else ""; fs_By := by_; fs_At := t |} in
    check store (SaveFreeze state) catch er => mret (false, "", Some (Wrap "engine: persist freeze: " er ""));
    write (λ w, set_freeze (if on then Engage (w_freeze w) by_ reason else Lift (w_freeze w) by_) w);;
    fz ← read w_freeze;
    let '(active, activeReason) := FreezeActive fz in
    record e (entry ActionFreeze "" by_ (if (active : bool) then "freeze engaged: " +:+ activeReason else "freeze lifted"));;
    mret (active, activeReason, None).

Definition FreezeStatus : M S (bool * string) :=
  if negb freeze_attached then mret (false, "")
  else fz ← read w_freeze; mret (FreezeActive fz).
End Rollback.
