(* ===== verification/EngineDeploy.v ===== *)
(** * Engine: deploying

    [Apply] and the tick-driven canary ([internal/engine/stepper.go]): the
    progressive stepper, its failure path, recovery of interrupted rollouts,
    operator pause, resume and abort, scheduled applies, and the fleet report
    ([fleet.go]).  The stepper's health gate runs in the world extended with the
    error slot its closure writes ([healthErr]). *)

From S2P Require Import Prelude GoTime Statekit Config Progressive Model Lifecycle Risk.
From S2P Require Import Analysis Security Store World EngineBase EngineGates EngineRollback.

(** [InFlight] and the newest rollout it looks for. *)
Definition in_flight (ref : string) (rs : list Rollout) : option Rollout :=
  head (filter (λ r, r_TargetRef r = ref ∧ (r_Phase r = PhaseDeploying ∨ r_Phase r = PhasePaused)) rs).

(** The rollout [Apply] creates, before its first save. *)
Definition captured (cfg : Config.t) (m : Manifest) (id : string) (t : Time) (phase : Phase)
    (riskScore : float) (initiator : Identity) (blocked : string) : Rollout :=
  let sp := Config.spec cfg in
  let rbk := Config.DatabaseRollbackHook sp in
  let mig := Config.DatabaseMigrate sp in
  {| r_ID := id; r_TargetRef := Config.tg_Ref (target_of cfg); r_Phase := phase;
     r_Strategy := strategyFrom cfg; r_Desired := m; r_RiskScore := riskScore; r_Initiator := initiator;
     r_Note := ""; r_StepIndex := 0; r_StepTotal := 0; r_StepWeight := 0;
     r_DBRollbackCmd := match rbk with Some db => Config.db_Command db | None => [] end;
     r_DBRollbackTimeout := match rbk with Some db => Config.db_Timeout db | None => "" end;
     r_DBMigrateCmd := match mig with Some db => Config.db_Command db | None => [] end;
     r_DBMigrateTimeout := match mig with Some db => Config.db_Timeout db | None => "" end;
     r_DBMigrateWhen := match mig with Some _ => Config.DatabaseMigrateWhen sp | None => "" end;
     r_DBBackwardCompatible := Config.DatabaseBackwardCompatible sp;
     r_DeliveryTraffic := Good <$> Config.sp_TrafficRouting sp;
     r_DeliveryFlag := Good <$> Config.sp_FeatureFlags sp;
     r_Analysis := Good <$> Config.sp_Analysis sp;
     r_RollbackBlocked := blocked;
     r_SmokeTest := match Config.rb_SmokeTest (Config.sp_Rollback sp) with
                    | Some st => if (0 <? length (Config.sm_Command st))%nat then Some (Good st) else None
                    | None => None
                    end;
     r_StepperSnap := None; r_CreatedAt := t; r_UpdatedAt := t |}.

Definition fleetMatch (ref filter : string) : bool :=
  if HasSuffix filter "@" then HasPrefix ref filter
  else match IndexByte ref (Ascii.ascii_of_nat 64) with
       | Some i => str_take i ref == filter
       | None => ref == filter
       end.

Record FleetMember := { fm_ID : string; fm_Target : string; fm_Phase : Phase }.
Record FleetReport := {
  fr_Name : string;
  fr_Total : nat;
  fr_Promoted : nat;
  fr_Active : nat;
  fr_Degraded : nat;
  fr_Awaiting : nat;
  fr_Members : list FleetMember;
}.

Fixpoint fleet_members (rs : list Rollout) (filter : string) (seen : gset string) : list FleetMember :=
  match rs with
  | [] => []
  | r :: rs =>
      if bool_decide (r_TargetRef r ∈ seen) || negb (fleetMatch (r_TargetRef r) filter)
      then fleet_members rs filter seen
      else {| fm_ID := r_ID r; fm_Target := r_TargetRef r; fm_Phase := r_Phase r |}
           :: fleet_members rs filter ({[r_TargetRef r]} ∪ seen)
  end.

Definition member_le (a b : FleetMember) : Prop := String.le (fm_Target a) (fm_Target b).

Definition count_phase (p : Phase → bool) (ms : list FleetMember) : nat :=
  length (filter (λ m, p (fm_Phase m) = true) ms).

Section Deploy.
Context {S : Type}.
(** The step machine's world: the world and the [healthErr] slot. *)
Definition HW : Type := World S * option err.
Context `{!Store S, !Statechart Phase LifeContext unit, !Statechart StepState StepContext HW}.
Context (env : Env) (e : Engine).

(** [*rollout.Rollout, error]. *)
Definition presult : Type := option Rollout * option err.

Definition InFlight (targetRef : string) : M S (result (option Rollout)) :=
  get rs <- store (ListRollouts 0) catch er => mret (Err er);
  mret (Ok (in_flight targetRef rs)).

Definition stepHealth (tgt : Config.Target) : StepHealth HW :=
  λ _ _ '(w, healthErr),
    let '(res, w) := healthWithRetry env e tgt w in
    match res with
    | Err er => (false, (w, Some er))
    | Ok hs =>
        if bool_decide (hs_State hs = HealthUnhealthy)
        then (false, (w, Some (Errorf ("unhealthy: " +:+ hs_Reason hs))))
        else (true, (w, healthErr))
    end.

(** A stepper operation, run in the world with the error slot threaded. *)
Definition step_op {A} (f : HW → A * HW) (healthErr : option err) : M S (A * option err) :=
  λ w, let '(a, (w', h)) := f (w, healthErr) in ((a, h), w').

Definition deployOnce (cfg : Config.t) (tgt : Config.Target) (m : Manifest) : M S (option err) :=
  match Config.DatabaseMigrate (Config.spec cfg) with
  | Some mig =>
      if Config.DatabaseMigrateWhen (Config.spec cfg) == Config.MigratePreDeploy then
        check runDatabaseCommand env e mig catch er => mret (Some (Wrap "database migrate: " er ""));
        target_Apply env tgt m
      else target_Apply env tgt m
  | None => target_Apply env tgt m
  end.

(** ** The failure path *)

(** Marking the rollout failed, once no rollback took care of it. *)
Definition fail_mark (lc : Lifecycle) (r : Rollout) (runErr : err) (actor : Identity) : M S presult :=
  let lc := (Send lc EventError).1 in
  t ← now env;
  let r := set_Note (appendNote (r_Note r) ("deploy failed: " +:+ err_str runErr))
             (set_UpdatedAt t (set_Phase (lc_phase lc) r)) in
  save r;;
  record e (rentry ActionRollback r (phase_str (r_Phase r)) actor (err_str runErr));;
  notifyDeployment e NotifyFailed r (err_str runErr);;
  mret (Some r, Some (Wrap "engine: apply: " runErr "")).

Definition failProgressive (lc : Lifecycle) (r : Rollout) (cfg : Config.t) (m : Manifest) (runErr : err)
    (actor : Identity) : M S presult :=
  let auto := Config.rb_Auto (Config.sp_Rollback (Config.spec cfg)) in
  if auto && (r_RollbackBlocked r != "") then
    fail_mark lc r (Wrap "" runErr ("; auto-rollback was not attempted: " +:+ r_RollbackBlocked r)) actor
  else if auto then
    prior ← priorManifest (r_TargetRef r) (m_Checksum m);
    match prior with
    | None => fail_mark lc r runErr actor
    | Some prior =>
        '((rolled, rbErr), r) ← applyRollback env e r (set_Root (m_Root m) prior)
           ("auto-rollback on deploy failure: " +:+ err_str runErr)
           (Config.DatabaseRollbackHook (Config.spec cfg)) true;
        match rbErr, rolled with
        | None, Some rb =>
            record e (rentry ActionRollback rb (phase_str (r_Phase rb)) actor
                        ("auto-rollback: " +:+ err_str runErr));;
            notifyDeployment e NotifyRolledBack rb (err_str runErr);;
            mret (Some rb, Some (Wrap "engine: apply: " runErr " (auto-rolled back to prior manifest)"))
        | _, _ => fail_mark lc r runErr actor
        end
    end
  else fail_mark lc r runErr actor.

(** ** The stepper *)
Definition recordStep (plan : Progressive.Plan) (cfg : Config.t) (s : Stepper HW) (r : Rollout)
    : M S (Rollout * option err) :=
  let cur := sp_ctx s in
  let i := Index cur + 1 in
  let total := Z.of_nat (length (p_Steps plan)) in
  let w := CtxWeight cur in
  if (r_StepIndex r =? i) && (r_StepWeight r =? w) then mret (r, None)
  else
    t ← now env;
    let r := set_UpdatedAt t (set_Note (p_Strategy plan +:+ " step " +:+ pretty i +:+ "/" +:+ pretty total +:+
               " (" +:+ pretty w +:+ "%) passed health gate")
             (set_StepWeight w (set_StepTotal total (set_StepIndex i r)))) in
    save r;;
    let r := set_Note "" r in
    check driveTraffic env e (r_TargetRef r) (Config.sp_TrafficRouting (Config.spec cfg)) w
      catch er => mret (r, Some er);
    match Config.sp_FeatureFlags (Config.spec cfg) with
    | Some ff => if flagsEnabled (Some ff) "step" then driveFlag env e (r_TargetRef r) ff w else mret tt
    | None => mret tt
    end;;
    mret (r, None).

Definition steps_at (plan : Progressive.Plan) (idx : Z) : option Step :=
  if idx <? 0 then None else p_Steps plan !! Z.to_nat idx.

(** [e.now().Sub(enteredAt) < pause], asked only for a positive pause. *)
Definition still_baking (pause : Duration) (enteredAt : Time) : M S bool :=
  if 0 <? pause then t ← now env; mret (t - enteredAt <? pause) else mret false.

Inductive loop_result :=
| LoopFailed (r : Rollout) (er : err)
| LoopStopped (s : Stepper HW) (healthErr : option err) (r : Rollout) (enteredAt : Time).

Definition gate_error (healthErr : option err) (fallback : string) : err :=
  default (Errorf fallback) healthErr.

(** The loop of [driveStepper]: each round leaves a step, so the number of
    steps bounds the rounds. *)
Fixpoint drive_loop (fuel : nat) (plan : Progressive.Plan) (cfg : Config.t) (s : Stepper HW)
    (healthErr : option err) (r : Rollout) (enteredAt : Time) : M S loop_result :=
  match fuel with
  | O => mret (LoopStopped s healthErr r enteredAt)
  | Datatypes.S fuel =>
      if Complete s || Aborted s then mret (LoopStopped s healthErr r enteredAt)
      else
        let idx := Index (sp_ctx s) in
        match steps_at plan idx with
        | None => mret (LoopStopped s healthErr r enteredAt)
        | Some st =>
            waiting ← still_baking (Progressive.Pause st) enteredAt;
            if (waiting : bool) then mret (LoopStopped s healthErr r enteredAt)
            else
              '(s, healthErr) ← step_op (if Progressive.Pause st =? 0 then StepperNext s
                                         else Advance s (Progressive.Pause st)) healthErr;
              if Aborted s || Failed (sp_ctx s) then
                mret (LoopFailed r (gate_error healthErr ("progressive: " +:+ p_Strategy plan +:+ " step " +:+
                  pretty (idx + 1) +:+ "/" +:+ pretty (length (p_Steps plan)) +:+ " health gate failed")))
              else if Complete s || negb (Index (sp_ctx s) =? idx) then
                enteredAt ← now env;
                if Complete s then drive_loop fuel plan cfg s healthErr r enteredAt
                else
                  '(r, er) ← recordStep plan cfg s r;
                  match er with
                  | Some er => mret (LoopFailed r er)
                  | None => drive_loop fuel plan cfg s healthErr r enteredAt
                  end
              else mret (LoopStopped s healthErr r enteredAt)
        end
  end.

Definition drive_fuel (plan : Progressive.Plan) : nat := Datatypes.S (length (p_Steps plan)).

Definition aborted_error (plan : Progressive.Plan) (healthErr : option err) : err :=
  gate_error healthErr ("progressive: " +:+ p_Strategy plan +:+ " aborted").

(** The end of [driveStepper]: snapshot, transition, save. *)
Definition drive_finish (lc : Lifecycle) (cfg : Config.t) (plan : Progressive.Plan) (s : Stepper HW)
    (r : Rollout) (enteredAt : Time) (actor : Identity) : M S presult :=
  let blob := {| sn_Plan := plan; sn_Snap := Snapshot s; sn_EnteredAt := enteredAt |} in
  t ← now env;
  let r := set_UpdatedAt t (set_StepperSnap (Some (Good blob)) r) in
  if Complete s then
    let '(lc, (_, rejected)) := Send lc EventDeployed in
    match rejected with
    | Some er => mret (None, Some er)
    | None =>
        let r := set_Phase (lc_phase lc) r in
        check save r catch er => mret (None, Some er);
        record e (rentry ActionApply r (phase_str (r_Phase r)) actor ("deployed (" +:+ p_Strategy plan +:+ ")"));;
        mret (Some r, None)
    end
  else
    let r := set_Phase (lc_phase lc) r in
    check save r catch er => mret (None, Some er);
    mret (Some r, None).

Definition driveStepper (lc : Lifecycle) (r : Rollout) (cfg : Config.t) (plan : Progressive.Plan)
    (s : Stepper HW) (enteredAt : Time) (healthErr : option err) (actor : Identity) : M S presult :=
  if Aborted s then failProgressive lc r cfg (r_Desired r) (aborted_error plan healthErr) actor
  else
    '(r, er) ← recordStep plan cfg s r;
    match er with
    | Some er => failProgressive lc r cfg (r_Desired r) er actor
    | None =>
        res ← drive_loop (drive_fuel plan) plan cfg s healthErr r enteredAt;
        match res with
        | LoopFailed r er => failProgressive lc r cfg (r_Desired r) er actor
        | LoopStopped s healthErr r enteredAt =>
            if Aborted s then failProgressive lc r cfg (r_Desired r) (aborted_error plan healthErr) actor
            else drive_finish lc cfg plan s r enteredAt actor
        end
    end.

Definition startStepper (lc : Lifecycle) (r : Rollout) (cfg : Config.t) (tgt : Config.Target) (actor : Identity)
    : M S presult :=
  let plan := PlanFor (Config.sp_Strategy (Config.spec cfg)) in
  match BuildStepMachine plan (Some (stepHealth tgt)) with
  | Err er => failProgressive lc r cfg (r_Desired r) er actor
  | Ok machine =>
      now env;;
      '(s, healthErr) ← step_op (NewStepper machine) None;
      t ← now env;
      driveStepper lc r cfg plan s t healthErr actor
  end.

(** ** Tick *)
Definition recoverInterrupted (r : Rollout) (why : string) : M S presult :=
  let blocked := if r_RollbackBlocked r == "" then
      why +:+ ": what reached the target is unknown, so the recorded prior state is not a verified baseline"
    else r_RollbackBlocked r in
  t ← now env;
  let r := set_UpdatedAt t (set_RollbackBlocked blocked (set_Phase PhaseVerifying r)) in
  check save r catch er =>
    mret (Some r, Some (Wrap ("engine: tick: recover interrupted rollout " +:+ r_ID r +:+ ": ") er ""));
  record e (rentry ActionApply r "" (r_Initiator r)
    ("interrupted rollout (" +:+ why +:+ ") handed to the post-deploy gate; rollback blocked"));;
  mret (Some r, None).

(** The tail of [Tick], with the stepper restored. *)
Definition tick_drive (r : Rollout) (cfg : Config.t) (tgt : Config.Target) (p : stepperPersist)
    (s : Stepper HW) : M S presult :=
  let lc := resume (r_Phase r) in
  let drive := driveStepper lc r cfg (sn_Plan p) s (sn_EnteredAt p) None (r_Initiator r) in
  if negb (Complete s) && negb (Aborted s) then
    match steps_at (sn_Plan p) (Index (sp_ctx s)) with
    | None => drive
    | Some st =>
        waiting ← still_baking (Progressive.Pause st) (sn_EnteredAt p);
        if (waiting : bool) then
          '(ok, healthErr) ← step_op (stepHealth tgt (Z.to_nat (Index (sp_ctx s))) (CtxWeight (sp_ctx s))) None;
          if (ok : bool) then mret (Some r, None)
          else failProgressive lc r cfg (r_Desired r) (gate_error healthErr "") (r_Initiator r)
        else drive
    end
  else drive.

Definition tick_locked (r : Rollout) (cfg : Config.t) : M S presult :=
  match r_StepperSnap r with
  | None => recoverInterrupted r "the rollout was interrupted before it recorded progress"
  | Some snap =>
      get tcfg <- resolveSecrets env e (target_of cfg) catch er => mret (Some r, Some er);
      get tgt <- build env tcfg catch er => mret (Some r, Some er);
      match unmarshal snap with
      | Err er => recoverInterrupted r ("its stepper snapshot could not be decoded (" +:+ err_str er +:+ ")")
      | Ok p =>
          match BuildStepMachine (sn_Plan p) (Some (stepHealth tgt)) with
          | Err er => recoverInterrupted r ("its stepper plan could not be rebuilt (" +:+ err_str er +:+ ")")
          | Ok machine =>
              now env;;
              match RestoreStepper machine (sn_Snap p) with
              | Err er => recoverInterrupted r ("its stepper snapshot could not be restored (" +:+ err_str er +:+ ")")
              | Ok s => tick_drive r cfg tgt p s
              end
          end
      end
  end.

Definition Tick (rolloutID : string) (cfg : Config.t) : M S presult :=
  get r <- store (LoadRollout rolloutID) catch er => mret (None, Some er);
  match r_Phase r with
  | PhaseDeploying =>
      if Config.tg_Ref (target_of cfg) != r_TargetRef r then
        mret (Some r, Some (Errorf ("engine: tick: config target " +:+ quote (Config.tg_Ref (target_of cfg)) +:+
                                    " does not match rollout " +:+ quote (r_TargetRef r))))
      else with_target env e (r_TargetRef r) (λ er, (Some r, Some er)) (tick_locked r cfg)
  | _ => mret (Some r, None)
  end.

(** ** Apply *)

(** Guardrails, risk gate and governance: whether approval is needed and the
    score, or the refusal. *)
Definition apply_gates (req : ApplyRequest) : M S (result (bool * float)) :=
  let cfg := rq_Config req in
  let ref := Config.tg_Ref (target_of cfg) in
  get force <- match e_guardrails e with
               | None => mret (Ok false)
               | Some g =>
                   CheckApply env g (rq_Initiator req)
                     {| fi_TargetRef := ref; fi_Environment := ri_Environment (rq_Risk req);
                        fi_ChangeType := ri_ChangeType (rq_Risk req);
                        fi_Criticality := Config.tg_Criticality (target_of cfg) |}
               end catch er =>
    (record e (entry ActionApply ref (rq_Initiator req) ("blocked: " +:+ err_str er));; mret (Err er));
  get risk <- (if risk_configured cfg then
                 get d <- EvaluateRisk env cfg (rq_Risk req) catch er => mret (Err er);
                 mret (Ok (d_NeedsApproval d, d_Score d))
               else mret (Ok (false, PrimFloat.zero))) catch er => mret (Err er);
  gov ← governance_Evaluate env e
          {| gq_Action := "apply"; gq_TargetRef := ref; gq_Actor := rq_Initiator req;
             gq_Environment := governanceEnvironment cfg req;
             gq_Version := default "" (Config.md_Labels (Config.Meta cfg) !! LabelVersion) |};
  let refusal := match gov with
                 | Err er => Some ("governance is unavailable: " +:+ err_str er)
                 | Ok d => if gd_Allowed d then None else Some (gd_Reason d)
                 end in
  match refusal with
  | Some reason =>
      record e (entry ActionApply ref (rq_Initiator req) ("blocked by governance: " +:+ reason));;
      mret (Err (Errorf ("engine: apply: blocked by governance: " +:+ reason)))
  | None => mret (Ok (rq_NeedsApproval req || force || risk.1, risk.2))
  end.

(** Artifact provenance of the resolved [image], when a gate is set. *)
Definition apply_artifact (ref : string) (tcfg : Config.Target) (actor : Identity) : M S (option err) :=
  match e_artifact e, as_string (Config.tg_Spec tcfg !! "image") with
  | Some (mode, verifier), String c image =>
      check check_artifact env mode verifier (String c image) catch er =>
        (record e (entry ActionApply ref actor ("artifact rejected: " +:+ err_str er));; mret (Some er));
      mret None
  | _, _ => mret None
  end.

(** From the captured rollout on: save, halt at the approval gate, or deploy. *)
Definition apply_commit (req : ApplyRequest) (lc : Lifecycle) (r : Rollout) (m : Manifest)
    (tgt : Config.Target) : M S presult :=
  let actor := rq_Initiator req in
  check save r catch er => mret (None, Some er);
  record e (rentry ActionApply r (phase_str (r_Phase r)) actor "");;
  (if r_RollbackBlocked r != "" then
     record e (rentry ActionApply r (phase_str (r_Phase r)) actor
       ("auto-rollback disabled for this rollout: " +:+ r_RollbackBlocked r))
   else mret tt);;
  if bool_decide (r_Phase r = PhaseAwaitingApproval) then
    notifyEvent e {| nk_Kind := ApprovalNeeded; nk_TargetRef := r_TargetRef r; nk_RolloutID := r_ID r;
                     nk_Detail := ""; nk_Version := ""; nk_Environment := "" |};;
    mret (Some r, None)
  else
    check deployOnce (rq_Config req) tgt m catch er =>
      failProgressive lc r (rq_Config req) m er actor;
    startStepper lc r (rq_Config req) tgt actor.

(** [Apply] once the gates let it through; the target lock is held. *)
Definition apply_locked (req : ApplyRequest) (needApproval : bool) (riskScore : float) : M S presult :=
  let cfg := rq_Config req in
  let ref := Config.tg_Ref (target_of cfg) in
  get found <- InFlight ref catch er => mret (None, Some er);
  match found with
  | Some _ => mret (None, Some ErrTargetBusy)
  | None =>
      let root := if rq_Root req == "" then e_root e else rq_Root req in
      match manifestFromConfig env cfg root with
      | Err er => mret (None, Some er)
      | Ok m =>
          get (_, m) <- stampReferencedChecksum env ref m catch er => mret (None, Some er);
          get tcfg <- resolveSecrets env e (target_of cfg) catch er => mret (None, Some er);
          get tgt <- build env tcfg catch er => mret (None, Some er);
          check apply_artifact ref tcfg (rq_Initiator req) catch er => mret (None, Some er);
          let lc := NewLifecycle {| PlanProduced := rq_Planned req || (id_Kind (rq_Initiator req) != "agent");
                                    NeedsApproval := needApproval |} in
          let '(lc, (_, rejected)) := Send lc EventValidate in
          match rejected with
          | Some er => mret (None, Some er)
          | None =>
              let '(lc, (_, rejected)) := Send lc EventGate in
              match rejected with
              | Some er => mret (None, Some er)
              | None =>
                  t ← now env;
                  id ← newID env;
                  blocked ← (if Config.rb_Auto (Config.sp_Rollback (Config.spec cfg))
                             then rollbackBaseline env e ref m else mret "");
                  apply_commit req lc
                    (captured cfg m id t (lc_phase lc) riskScore (rq_Initiator req) blocked) m tgt
              end
          end
      end
  end.

Definition Apply (req : ApplyRequest) : M S presult :=
  let ref := Config.tg_Ref (target_of (rq_Config req)) in
  if (id_Kind (rq_Initiator req) == "agent") && negb (rq_Planned req) then
    mret (None, Some (Errorf "engine: apply: agent-driven rollout requires a produced plan first"))
  else
    get (needApproval, riskScore) <- apply_gates req catch er => mret (None, Some er);
    with_target env e ref (λ er, (None, Some er)) (apply_locked req needApproval riskScore).

(** ** Operator control *)

(** [holdTarget] and the deferred release around an operation's body. *)
Definition hold_target (rolloutID : string) (body : Rollout → M S outcome) : M S outcome :=
  get r <- store (LoadRollout rolloutID) catch er => mret (None, Some er);
  with_target env e (r_TargetRef r) (λ er, (Some r, Some er)) (body r).

Definition restoreControlStepper (r : Rollout) : M S (result (Stepper HW * stepperPersist)) :=
  match r_StepperSnap r with
  | None => mret (Err (Errorf ("engine: rollout " +:+ r_ID r +:+ " has no stepper snapshot")))
  | Some snap =>
      match unmarshal snap with
      | Err er => mret (Err (Wrap "engine: stepper snapshot: " er ""))
      | Ok p =>
          match BuildStepMachine (sn_Plan p) None with
          | Err er => mret (Err er)
          | Ok machine =>
              now env;;
              mret match RestoreStepper machine (sn_Snap p) with
                   | Err er => Err (Wrap "engine: restore stepper: " er "")
                   | Ok s => Ok (s, p)
                   end
          end
      end
  end.

Definition saveControl (r : Rollout) (lc : Lifecycle) (s : Stepper HW) (plan : Progressive.Plan)
    (enteredAt : Time) (by_ : Identity) (action detail : string) : M S outcome :=
  let blob := {| sn_Plan := plan; sn_Snap := Snapshot s; sn_EnteredAt := enteredAt |} in
  t ← now env;
  let r := set_UpdatedAt t (set_Note detail (set_Phase (lc_phase lc) (set_StepperSnap (Some (Good blob)) r))) in
  check save r catch er => mret (Some r, Some er);
  record e (rentry action r (phase_str (r_Phase r)) by_ detail);;
  mret (Some r, None).

Definition Pause (rolloutID : string) (by_ : Identity) : M S outcome :=
  hold_target rolloutID (λ r,
    if negb (bool_decide (r_Phase r = PhaseDeploying)) then
      mret (Some r, Some (Errorf ("engine: pause: rollout " +:+ r_ID r +:+ " is " +:+ phase_str (r_Phase r) +:+
                                  ", want deploying")))
    else
      get (s, p) <- restoreControlStepper r catch er => mret (Some r, Some er);
      let lc := resume (r_Phase r) in
      '(s, _) ← step_op (StepperPause s) None;
      let '(lc, (_, rejected)) := Send lc EventPause in
      match rejected with
      | Some er => mret (Some r, Some er)
      | None => saveControl r lc s (sn_Plan p) (sn_EnteredAt p) by_ ActionApply "paused"
      end).

Definition Resume (rolloutID : string) (by_ : Identity) : M S outcome :=
  hold_target rolloutID (λ r,
    if negb (bool_decide (r_Phase r = PhasePaused)) then
      mret (Some r, Some (Errorf ("engine: resume: rollout " +:+ r_ID r +:+ " is " +:+ phase_str (r_Phase r) +:+
                                  ", want paused")))
    else
      get (s, p) <- restoreControlStepper r catch er => mret (Some r, Some er);
      let lc := resume (r_Phase r) in
      '(s, _) ← step_op (StepperResume s) None;
      let '(lc, (_, rejected)) := Send lc EventResume in
      match rejected with
      | Some er => mret (Some r, Some er)
      | None => t ← now env; saveControl r lc s (sn_Plan p) t by_ ActionApply "resumed"
      end).

(** Ending an aborted canary without a second apply. *)
Definition abort_in_place (r : Rollout) (by_ : Identity) (note auditDetail : string) : M S outcome :=
  let '(lc, (_, rejected)) := Send (resume (r_Phase r)) EventRollback in
  match rejected with
  | Some er => mret (Some r, Some er)
  | None =>
      resetDelivery env e r;;
      t ← now env;
      let r := set_UpdatedAt t (set_Note note (set_Phase (lc_phase lc) r)) in
      check save r catch er => mret (Some r, Some er);
      record e (rentry ActionRollback r (phase_str (r_Phase r)) by_ auditDetail);;
      notifyDeployment e NotifyRolledBack r note;;
      mret (Some r, None)
  end.

Definition Abort (rolloutID : string) (by_ : Identity) : M S outcome :=
  hold_target rolloutID (λ r,
    if negb (bool_decide (r_Phase r = PhaseDeploying) || bool_decide (r_Phase r = PhasePaused)) then
      mret (Some r, Some (Errorf ("engine: abort: rollout " +:+ r_ID r +:+ " is " +:+ phase_str (r_Phase r) +:+
                                  ", not an in-flight canary")))
    else
      (match r_StepperSnap r with
       | None => mret tt
       | Some _ => get (s, _) <- restoreControlStepper r catch er => mret tt;
                   step_op (StepperAbort s) None;; mret tt
       end);;
      let r := set_StepperSnap None r in
      if r_RollbackBlocked r != "" then
        let note := "aborted by operator; nothing re-applied because " +:+ r_RollbackBlocked r in
        abort_in_place r by_ note note
      else
        prior ← priorManifest (r_TargetRef r) (m_Checksum (r_Desired r));
        match prior with
        | Some prior =>
            '((rolled, er), _) ← applyRollback env e r (set_Root (m_Root (r_Desired r)) prior)
               "aborted by operator" None true;
            match er, rolled with
            | None, Some rb =>
                record e (rentry ActionRollback rb (phase_str (r_Phase rb)) by_ "aborted");;
                notifyDeployment e NotifyRolledBack rb "aborted by operator";;
                mret (Some rb, None)
            | _, _ => mret (rolled, er)
            end
        | None => abort_in_place r by_ "aborted by operator" "aborted"
        end).

(** ** Schedules *)
Definition Schedule (s : ScheduledRollout) : M S (option err) :=
  id ← (if sr_ID s == "" then i ← newID env; mret ("sch-" +:+ i) else mret (sr_ID s));
  store (StoreSchedule (set_sr_ID id s)).

Definition scheduled_rollout (s : ScheduledRollout) (id : string) (t : Time) : Rollout := {|
  r_ID := id; r_TargetRef := sr_TargetRef s; r_Phase := PhaseDeploying; r_Strategy := StrategyRolling;
  r_Desired := sr_Desired s; r_RiskScore := PrimFloat.zero; r_Initiator := sr_Initiator s; r_Note := "";
  r_StepIndex := 0; r_StepTotal := 0; r_StepWeight := 0; r_DBRollbackCmd := []; r_DBRollbackTimeout := "";
  r_DBMigrateCmd := []; r_DBMigrateTimeout := ""; r_DBMigrateWhen := ""; r_DBBackwardCompatible := false;
  r_DeliveryTraffic := None; r_DeliveryFlag := None; r_Analysis := None; r_RollbackBlocked := "";
  r_SmokeTest := None; r_StepperSnap := None; r_CreatedAt := t; r_UpdatedAt := t |}.

Definition scheduled_deploy (s : ScheduledRollout) : M S outcome :=
  get tgt <- buildTarget env (sr_TargetRef s) (sr_Desired s) catch er => mret (None, Some er);
  t ← now env;
  id ← newID env;
  let r := scheduled_rollout s id t in
  check save r catch er => mret (None, Some er);
  check target_Apply env tgt (sr_Desired s) catch er =>
    (t ← now env;
     let r := set_Note ("scheduled apply failed: " +:+ err_str er) (set_UpdatedAt t (set_Phase PhaseRolledBack r)) in
     save r;; mret (Some r, Some (Wrap "apply: " er "")));
  t ← now env;
  let r := set_UpdatedAt t (set_Phase PhaseVerifying r) in
  check save r catch er => mret (None, Some er);
  mret (Some r, None).

Definition applyScheduled (s : ScheduledRollout) : M S outcome :=
  let ref := sr_TargetRef s in
  with_target env e ref (λ er, (None, Some er))
    (match e_guardrails e with
     | None => scheduled_deploy s
     | Some g =>
         get force <- CheckApply env g (sr_Initiator s) (no_floor_input ref) catch er =>
           (record e (entry ActionApply ref (sr_Initiator s) ("scheduled apply blocked: " +:+ err_str er));;
            mret (None, Some er));
         if (force : bool) then
           record e (entry ActionApply ref (sr_Initiator s)
                       "scheduled apply blocked: policy floor requires approval");;
           mret (None, Some (Errorf ("engine: scheduled apply for " +:+ quote ref +:+
                                     " requires approval and cannot self-approve")))
         else scheduled_deploy s
     end).

Fixpoint fire_all (due : list ScheduledRollout) : M S (list Rollout * list err) :=
  match due with
  | [] => mret ([], [])
  | s :: due =>
      '(fired, er) ← applyScheduled s;
      match er with
      | Some er =>
          '(rs, errs) ← fire_all due;
          mret (rs, Wrap ("schedule " +:+ sr_ID s +:+ ": ") er "" :: errs)
      | None =>
          derr ← store (DeleteSchedule (sr_ID s));
          '(rs, errs) ← fire_all due;
          mret (match fired with Some r => r :: rs | None => rs end,
                match derr with Some er => er :: errs | None => errs end)
      end
  end.

(** The fired rollouts, and the errors joined. *)
Definition FireDueSchedules (at_ : Time) : M S (list Rollout * list err) :=
  get due <- store (DueSchedules at_) catch er => mret ([], [er]);
  fire_all due.

(** ** The fleet *)
Definition FleetStatus (filter_ : string) : M S (result FleetReport) :=
  let filter_ := TrimSpace filter_ in
  if filter_ == "" then mret (Err (Errorf "engine: fleet filter required"))
  else
    get rs <- store (ListRollouts 0) catch er => mret (Err er);
    let ms := merge_sort member_le (fleet_members rs filter_ ∅) in
    mret (Ok {| fr_Name := TrimSuffix filter_ "@"; fr_Total := length ms;
                fr_Promoted := count_phase (λ p, bool_decide (p = PhasePromoted)) ms;
                fr_Awaiting := count_phase (λ p, bool_decide (p = PhaseAwaitingApproval)) ms;
                fr_Degraded := count_phase Degraded ms;
                fr_Active := count_phase Active ms;
                fr_Members := ms |}).
End Deploy.
