(* ===== verification/Reap.v ===== *)
(** * Retired targets and lasting drift

    The pure bookkeeping of [internal/reconcile/reap.go]: the reaper, which
    notices a config that stopped being declared, and the streak of uncorrected
    drift.  The theorem says that a target is only retired on evidence: it was
    declared, and the last ticks of its repository all loaded and all lacked it. *)

From S2P Require Import Prelude Config.

(** ** The reaper *)
Record reaper := {
  rp_after : Z;
  rp_seen : gmap string (gset string);
  rp_absent : gmap string Z;
  rp_fired : gmap string bool;
}.

Record verdict := { vd_Repo : string; vd_Key : string; vd_Ticks : Z }.

Definition newReaper (after : Z) : reaper := {| rp_after := after; rp_seen := ∅; rp_absent := ∅; rp_fired := ∅ |}.

Definition seen_of (r : reaper) (repo : string) : gset string := default ∅ (rp_seen r !! repo).

(** One key of the loop of [observe]; an iteration touches its own key only, so
    the order of the map is immaterial up to the order of the verdicts. *)
Definition observe_key (repo : string) (present : gset string) (acc : reaper * list verdict) (key : string)
    : reaper * list verdict :=
  let '(r, out) := acc in
  if bool_decide (key ∈ present) then
    ({| rp_after := rp_after r; rp_seen := rp_seen r; rp_absent := delete key (rp_absent r);
        rp_fired := delete key (rp_fired r) |}, out)
  else
    let n := default 0 (rp_absent r !! key) + 1 in
    let fires := (rp_after r <=? n) && negb (default false (rp_fired r !! key)) in
    ({| rp_after := rp_after r; rp_seen := rp_seen r; rp_absent := <[key := n]> (rp_absent r);
        rp_fired := if fires then <[key := true]> (rp_fired r) else rp_fired r |},
     if fires then out ++ [{| vd_Repo := repo; vd_Key := key; vd_Ticks := n |}] else out).

Definition under (repo key : string) : string := repo +:+ "/" +:+ key.

(** What a tick could load: the declared paths, or an error. *)
Definition observe (r : reaper) (repo : string) (keys : result (list string)) : reaper * list verdict :=
  match keys with
  | Err _ =>
      ({| rp_after := rp_after r; rp_seen := rp_seen r;
          rp_absent := foldl (λ m k, delete k m) (rp_absent r) (elements (seen_of r repo));
          rp_fired := rp_fired r |}, [])
  | Ok keys =>
      let present : gset string := list_to_set (under repo <$> keys) in
      let '(r, out) := foldl (observe_key repo present) (r, []) (elements (seen_of r repo)) in
      ({| rp_after := rp_after r; rp_seen := <[repo := seen_of r repo ∪ present]> (rp_seen r);
          rp_absent := rp_absent r; rp_fired := rp_fired r |}, out)
  end.

Definition forget (r : reaper) (repo key : string) : reaper := {|
  rp_after := rp_after r;
  rp_seen := alter (λ s, s ∖ {[key]}) repo (rp_seen r);
  rp_absent := delete key (rp_absent r); rp_fired := delete key (rp_fired r) |}.

(** ** Options of a target and its label *)
Definition bool_option (name : string) (c : option Config.t) : bool :=
  match c with
  | Some c => match Config.tg_Spec (Config.sp_Target (Config.spec c)) !! name with Some (ABool b) => b | _ => false end
  | None => false
  end.

Definition reapOnDelete : option Config.t → bool := bool_option "reapOnDelete".
Definition targetPrunes : option Config.t → bool := bool_option "prune".

Definition label_char (c : Ascii.ascii) : bool :=
  let n := Ascii.nat_of_ascii c in
  ((97 <=? n) && (n <=? 122))%nat || ((48 <=? n) && (n <=? 57))%nat || (n =? 46)%nat || (n =? 95)%nat || (n =? 45)%nat.

(** The loop of [labelValueFor], on ASCII references. *)
Fixpoint label_chars (s : string) : string :=
  match s with
  | String c s => String (if label_char c then c else Ascii.ascii_of_nat 45) (label_chars s)
  | EmptyString => EmptyString
  end.

(** [strings.Trim] with the cutset [-._]. *)
Definition trim_cut (c : Ascii.ascii) : bool :=
  let n := Ascii.nat_of_ascii c in (n =? 45)%nat || (n =? 46)%nat || (n =? 95)%nat.
Fixpoint trim_front (s : string) : string :=
  match s with String c s' => if trim_cut c then trim_front s' else s | EmptyString => s end.
Fixpoint trim_back (s : string) : string :=
  match s with
  | String c s' => match trim_back s' with
                   | EmptyString => if trim_cut c then EmptyString else String c EmptyString
                   | s'' => String c s''
                   end
  | EmptyString => s
  end.

(** At most 63 characters, never empty. *)
Definition label_end (out : string) : string :=
  let out := if (63 <? str_len out)%nat then str_take 63 out else out in
  if out == "" then "rollops" else out.

Definition labelValueFor (c : option Config.t) : string :=
  match c with
  | None => ""
  | Some c =>
      let ref := Config.tg_Ref (Config.sp_Target (Config.spec c)) in
      if ref == "" then "" else label_end (trim_back (trim_front (label_chars (ToLower ref))))
  end.

(** The label the kubernetes target sets ([target/kubernetes/prune.go]): a run of
    other characters becomes one dash. *)
Fixpoint label_runs (in_run : bool) (s : string) : string :=
  match s with
  | String c s =>
      if label_char c then String c (label_runs false s)
      else if in_run then label_runs true s
      else String (Ascii.ascii_of_nat 45) (label_runs true s)
  | EmptyString => EmptyString
  end.

Definition labelValue (ref : string) : string := label_end (trim_back (trim_front (label_runs false (ToLower ref)))).

(** The two labels differ on a reference with two such characters in a row, so
    an orphan report names a label no resource carries. *)
Example labels_diverge c :
  Config.tg_Ref (Config.sp_Target (Config.spec c)) = "Web@/eu" →
  labelValueFor (Some c) = "web--eu" ∧ labelValue "Web@/eu" = "web-eu".
Proof. unfold labelValueFor. by intros ->. Qed.

(** ** Lasting drift *)
Record driftStreak := { ds_after : Z; ds_n : gmap string Z; ds_fired : gmap string bool }.

Definition newDriftStreak (after : Z) : driftStreak := {| ds_after := after; ds_n := ∅; ds_fired := ∅ |}.

Definition drift_observe (d : driftStreak) (key : string) (drifting : bool) : Z * driftStreak :=
  if negb drifting then (0, {| ds_after := ds_after d; ds_n := delete key (ds_n d); ds_fired := delete key (ds_fired d) |})
  else
    let n := default 0 (ds_n d !! key) + 1 in
    if (ds_after d <=? n) && negb (default false (ds_fired d !! key)) then
      (n, {| ds_after := ds_after d; ds_n := <[key := n]> (ds_n d); ds_fired := <[key := true]> (ds_fired d) |})
    else (0, {| ds_after := ds_after d; ds_n := <[key := n]> (ds_n d); ds_fired := ds_fired d |}).

(** ** Evidence *)

(** A tick: what was loaded, and the verdicts reported and then forgotten. *)
Definition tick (r : reaper) (ev : string * result (list string)) : reaper :=
  let '(r, out) := observe r ev.1 ev.2 in foldl (λ r v, forget r (vd_Repo v) (vd_Key v)) r out.

Definition history (after : Z) (evs : list (string * result (list string))) : reaper :=
  foldl tick (newReaper after) evs.

(** The ticks of one repository, and whether a tick loaded without the key. *)
Definition ticks_of (repo : string) (evs : list (string * result (list string))) : list (result (list string)) :=
  (filter (λ ev, ev.1 = repo) evs).*2.

Definition lacks (repo key : string) (keys : result (list string)) : Prop :=
  match keys with Ok ks => key ∉ under repo <$> ks | Err _ => False end.

Definition declared (evs : list (string * result (list string))) (repo key : string) : Prop :=
  ∃ ks, (repo, Ok ks) ∈ evs ∧ key ∈ under repo <$> ks.

Definition lacked (evs : list (string * result (list string))) (repo key : string) (n : Z) : Prop :=
  ∃ earlier recent, ticks_of repo evs = earlier ++ recent ∧ Z.of_nat (length recent) = n ∧ Forall (lacks repo key) recent.

Definition missing (present : gset string) (l : list string) (absent : gmap string Z) (k : string) : option Z :=
  if bool_decide (k ∈ l) then
    if bool_decide (k ∈ present) then None else Some (default 0 (absent !! k) + 1)
  else absent !! k.

Lemma missing_out present l absent k : k ∉ l → missing present l absent k = absent !! k.
Proof. intros Hk. unfold missing. by rewrite bool_decide_eq_false_2. Qed.
Lemma missing_back present l absent k : k ∈ l → k ∈ present → missing present l absent k = None.
Proof. intros. unfold missing. by rewrite !bool_decide_eq_true_2. Qed.
Lemma missing_gone present l absent k :
  k ∈ l → k ∉ present → missing present l absent k = Some (default 0 (absent !! k) + 1).
Proof. intros. unfold missing. by rewrite bool_decide_eq_true_2, bool_decide_eq_false_2. Qed.

Lemma observe_key_spec repo present r out key r' out' :
  observe_key repo present (r, out) key = (r', out') →
  rp_after r' = rp_after r ∧ rp_seen r' = rp_seen r ∧
  (∀ k, rp_absent r' !! k = missing present [key] (rp_absent r) k) ∧
  (∀ v, v ∈ out' → v ∈ out ∨
     vd_Repo v = repo ∧ vd_Key v = key ∧ rp_after r ≤ vd_Ticks v ∧ missing present [key] (rp_absent r) key = Some (vd_Ticks v)).
Proof.
  unfold observe_key. intros H. case_bool_decide as Hp; injection H as <- <-; (split_and!; [done..| |]).
  - intros k. destruct (decide (k = key)) as [->|Hk]; [rewrite missing_back by set_solver|rewrite missing_out by set_solver].
    + apply lookup_delete_eq.
    + by apply lookup_delete_ne.
  - by left.
  - intros k. destruct (decide (k = key)) as [->|Hk]; [rewrite missing_gone by set_solver|rewrite missing_out by set_solver].
    + apply lookup_insert_eq.
    + by apply lookup_insert_ne.
  - intros v. destruct (_ <=? _) eqn:Hle; simpl; [|by left]. case_match; simpl; [|by left].
    rewrite elem_of_app, list_elem_of_singleton. intros [Hv|Hv]; [by left|subst v; right]. apply Z.leb_le in Hle.
    split_and!; [done..|]. by apply missing_gone; [set_solver|].
Qed.

Lemma observe_keys_spec repo present l r out :
  NoDup l →
  let '(r', out') := foldl (observe_key repo present) (r, out) l in
  rp_after r' = rp_after r ∧ rp_seen r' = rp_seen r ∧
  (∀ k, rp_absent r' !! k = missing present l (rp_absent r) k) ∧
  (∀ v, v ∈ out' → v ∈ out ∨
     vd_Repo v = repo ∧ vd_Key v ∈ l ∧ rp_after r ≤ vd_Ticks v ∧ missing present l (rp_absent r) (vd_Key v) = Some (vd_Ticks v)).
Proof.
  revert r out. induction l as [|key l IH]; intros r out Hnd; cbn [foldl].
  { split_and!; [done..|by left]. }
  apply NoDup_cons in Hnd as [Hkey Hnd]. destruct (observe_key repo present (r, out) key) as [r1 out1] eqn:H1.
  apply observe_key_spec in H1 as (Ha1 & Hs1 & Hk1 & Hv1). specialize (IH r1 out1 Hnd).
  destruct (foldl (observe_key repo present) (r1, out1) l) as [r2 out2]. destruct IH as (Ha2 & Hs2 & Hk2 & Hv2).
  assert (∀ k, missing present l (rp_absent r1) k = missing present (key :: l) (rp_absent r) k) as Hm.
  { intros k. destruct (decide (k = key)) as [->|Hne].
    - rewrite missing_out, Hk1 by done. destruct (decide (key ∈ present)).
      + by rewrite !missing_back by set_solver.
      + by rewrite !missing_gone by set_solver.
    - assert (rp_absent r1 !! k = rp_absent r !! k) as Hr1 by (rewrite Hk1; apply missing_out; set_solver).
      unfold missing. rewrite Hr1. by rewrite (bool_decide_ext (k ∈ key :: l) (k ∈ l)) by set_solver. }
  split_and!; [congruence..| |].
  - intros k. by rewrite Hk2.
  - intros v Hv. destruct (Hv2 v Hv) as [Hv'|(Hr & Hk & Hle & Hmv)].
    + destruct (Hv1 v Hv') as [?|(Hr & Hk & Hle & Hmv)]; [by left|right]. split_and!; [done|set_solver|done|].
      rewrite <- Hm, Hk, missing_out by done. by rewrite Hk1.
    + right. split_and!; [done|set_solver|lia|by rewrite <- Hm].
Qed.

(** What the reaper knows of a key of [repo] that no other repository declares. *)
Definition evidence (after : Z) (evs : list (string * result (list string))) (repo key : string) (r : reaper) : Prop :=
  rp_after r = after ∧ (key ∈ seen_of r repo → declared evs repo key) ∧
  (∀ repo', repo' ≠ repo → key ∉ seen_of r repo') ∧
  (∀ n, rp_absent r !! key = Some n → key ∈ seen_of r repo ∧ lacked evs repo key n).

Lemma ticks_of_snoc repo evs ev :
  ticks_of repo (evs ++ [ev]) = if bool_decide (ev.1 = repo) then ticks_of repo evs ++ [ev.2] else ticks_of repo evs.
Proof.
  unfold ticks_of. rewrite filter_app, fmap_app. case_bool_decide as H.
  - by rewrite filter_cons_True.
  - rewrite filter_cons_False by done. by rewrite app_nil_r.
Qed.

Lemma declared_mono evs ev repo key : declared evs repo key → declared (evs ++ [ev]) repo key.
Proof. intros (ks & Hin & Hk). exists ks. set_solver. Qed.

Lemma lacked_other evs ev repo key n : ev.1 ≠ repo → lacked evs repo key n → lacked (evs ++ [ev]) repo key n.
Proof. intros Hne. unfold lacked. by rewrite ticks_of_snoc, bool_decide_eq_false_2. Qed.

Lemma lacked_more evs repo keys key n :
  lacks repo key keys → lacked evs repo key n → lacked (evs ++ [(repo, keys)]) repo key (n + 1).
Proof.
  intros Hl (earlier & recent & Ht & Hn & Hall). exists earlier, (recent ++ [keys]).
  rewrite ticks_of_snoc, bool_decide_eq_true_2 by done. simpl. rewrite Ht, app_assoc. split_and!; [done| |].
  - rewrite length_app. simpl. lia.
  - by apply Forall_app_2; [|constructor].
Qed.

Lemma lacked_none evs repo key : lacked evs repo key 0.
Proof. exists (ticks_of repo evs), []. by rewrite app_nil_r. Qed.

Lemma delete_all_lookup (l : list string) (m : gmap string Z) k :
  foldl (λ m k, delete k m) m l !! k = if bool_decide (k ∈ l) then None else m !! k.
Proof.
  revert m. induction l as [|x l IH]; intros m; cbn [foldl].
  { by rewrite bool_decide_eq_false_2 by set_solver. }
  rewrite IH. destruct (decide (k = x)) as [->|Hne].
  - rewrite lookup_delete_eq. rewrite (bool_decide_eq_true_2 (x ∈ x :: l)) by set_solver. by case_bool_decide.
  - rewrite lookup_delete_ne by done. by rewrite (bool_decide_ext (k ∈ x :: l) (k ∈ l)) by set_solver.
Qed.

(** [observe] by what it does to the key. *)
Lemma observe_spec r repo keys r' out :
  observe r repo keys = (r', out) →
  rp_after r' = rp_after r ∧
  (∀ rp, seen_of r' rp = if bool_decide (rp = repo) then seen_of r repo ∪ match keys with
                           | Ok ks => list_to_set (under repo <$> ks) | Err _ => ∅ end else seen_of r rp) ∧
  (∀ k, rp_absent r' !! k = match keys with
     | Ok ks => missing (list_to_set (under repo <$> ks)) (elements (seen_of r repo)) (rp_absent r) k
     | Err _ => if bool_decide (k ∈ seen_of r repo) then None else rp_absent r !! k end) ∧
  (∀ v, v ∈ out → vd_Repo v = repo ∧ vd_Key v ∈ seen_of r repo ∧ rp_after r ≤ vd_Ticks v ∧
     rp_absent r' !! vd_Key v = Some (vd_Ticks v)).
Proof.
  unfold observe. intros H. destruct keys as [ks|er].
  - pose proof (observe_keys_spec repo (list_to_set (under repo <$> ks)) (elements (seen_of r repo)) r []
      ltac:(apply NoDup_elements)) as Hs.
    destruct (foldl _ (r, []) _) as [r1 out1]. destruct Hs as (Ha & Hs & Hk & Hv). injection H as <- <-.
    split_and!; simpl; [done| |done|].
    + intros rp. unfold seen_of at 1. simpl. unfold seen_of in *. rewrite Hs. case_bool_decide as Hrp.
      * subst rp. by rewrite lookup_insert_eq.
      * by rewrite lookup_insert_ne by done.
    + intros v Hin. destruct (Hv v Hin) as [?%elem_of_nil|(Hr & Hkey & Hle & Hm)]; [done|].
      rewrite Hk. split_and!; [done|by apply elem_of_elements|done..].
  - injection H as <- <-. split_and!; simpl; [done| | |by intros v ?%elem_of_nil].
    + intros rp. unfold seen_of. simpl. case_bool_decide as Hrp; [subst rp; set_solver|done].
    + intros k. rewrite delete_all_lookup. by rewrite (bool_decide_ext (k ∈ elements _) (k ∈ seen_of r repo)) by apply elem_of_elements.
Qed.

Definition unaliased (repo key : string) (ev : string * result (list string)) : Prop :=
  ev.1 ≠ repo → match ev.2 with Ok ks => key ∉ under ev.1 <$> ks | Err _ => True end.

Lemma observe_evidence after evs repo key r ev r' out :
  unaliased repo key ev → evidence after evs repo key r → observe r ev.1 ev.2 = (r', out) →
  evidence after (evs ++ [ev]) repo key r'.
Proof.
  destruct ev as [rp keys]. intros Hal (Ha & Hd & Ho & Hl) Hobs. simpl in *.
  apply observe_spec in Hobs as (Ha' & Hs' & Hab & _). unfold unaliased in Hal. simpl in Hal.
  split_and!; [congruence|..].
  - rewrite Hs'. case_bool_decide as Hrp; [subst rp|intros; by apply declared_mono, Hd].
    rewrite elem_of_union. intros [?|Hk]; [by apply declared_mono, Hd|]. destruct keys as [ks|er]; [|set_solver].
    exists ks. rewrite elem_of_list_to_set in Hk. set_solver.
  - intros rp' Hne. rewrite Hs'. case_bool_decide as Hrp; [subst rp'|by apply Ho].
    specialize (Hal Hne). specialize (Ho rp Hne). destruct keys as [ks|er]; set_solver.
  - intros n. rewrite Hab, Hs'. destruct (decide (rp = repo)) as [->|Hne].
    + rewrite (bool_decide_eq_true_2 (repo = repo)) by done. destruct keys as [ks|er].
      * destruct (decide (key ∈ seen_of r repo)) as [Hin|Hout].
        2:{ rewrite missing_out by (by rewrite elem_of_elements). intros Hn. by destruct (Hl n Hn). }
        destruct (decide (key ∈ under repo <$> ks)) as [Hp|Hp];
          [by rewrite missing_back by (rewrite ?elem_of_elements, ?elem_of_list_to_set; done)|].
        rewrite missing_gone by (rewrite ?elem_of_elements, ?elem_of_list_to_set; done). intros [= <-].
        split; [set_solver|]. apply lacked_more; [exact Hp|].
        destruct (rp_absent r !! key) as [n|] eqn:Hn; simpl; [by apply Hl|apply lacked_none].
      * case_bool_decide as Hin; [done|]. intros Hn. by destruct (Hl n Hn).
    + rewrite (bool_decide_eq_false_2 (repo = rp)) by auto. assert (rp_absent r !! key = Some n → key ∈ seen_of r repo ∧
        lacked (evs ++ [(rp, keys)]) repo key n) as Hkeep.
      { intros Hn. destruct (Hl n Hn). split; [done|]. by apply lacked_other. }
      destruct keys as [ks|er]; [rewrite missing_out by (rewrite elem_of_elements; by apply Ho)|
        rewrite bool_decide_eq_false_2 by (by apply Ho)]; exact Hkeep.
Qed.

Lemma forget_evidence after evs repo key r rp k : evidence after evs repo key r → evidence after evs repo key (forget r rp k).
Proof.
  intros (Ha & Hd & Ho & Hl). assert (∀ rp', seen_of (forget r rp k) rp' ⊆ seen_of r rp') as Hsub.
  { intros rp'. unfold seen_of, forget. simpl. destruct (decide (rp' = rp)) as [->|Hne];
      [rewrite lookup_alter_eq; destruct (rp_seen r !! rp); set_solver|by rewrite lookup_alter_ne]. }
  split_and!; [done|set_solver..|]. intros n. simpl. rewrite lookup_delete_Some. intros [Hne Hn].
  destruct (Hl n Hn) as [Hin Hlk]. split; [|done]. unfold seen_of, forget. simpl.
  destruct (decide (repo = rp)) as [->|Hrp]; [|by rewrite lookup_alter_ne].
  rewrite lookup_alter_eq. unfold seen_of in Hin. destruct (rp_seen r !! rp); set_solver.
Qed.

Lemma tick_evidence after evs repo key r ev :
  unaliased repo key ev → evidence after evs repo key r → evidence after (evs ++ [ev]) repo key (tick r ev).
Proof.
  intros Hal He. unfold tick. destruct (observe r ev.1 ev.2) as [r' out] eqn:Hobs.
  eapply observe_evidence in Hobs; [|done..]. clear He. revert r' Hobs.
  induction out as [|v out IH]; intros r' Hr'; [done|]. simpl. by apply IH, forget_evidence.
Qed.

Lemma history_evidence after evs repo key :
  Forall (unaliased repo key) evs → evidence after evs repo key (history after evs).
Proof.
  induction evs as [|ev evs IH] using rev_ind; intros Hal.
  { unfold history, seen_of. simpl. split_and!; [done|set_solver..|done]. }
  apply Forall_app in Hal as [Hal [Hev _]%Forall_cons]. unfold history. rewrite foldl_app. by apply tick_evidence, IH.
Qed.

(** ** Properties *)

(** C22. A target is retired on evidence only.  When the reaper reports a key of a
    repository, then whatever happened before - failed clones, unreadable
    configs, other repositories coming and going - the key had been declared in
    that repository, and the last ticks of the repository, at least as many as
    the threshold and this one included, all loaded and all lacked it. *)
Theorem retired_on_evidence after evs repo keys v :
  Forall (unaliased repo (vd_Key v)) evs →
  v ∈ (observe (history after evs) repo keys).2 →
  vd_Repo v = repo ∧ after ≤ vd_Ticks v ∧ declared evs repo (vd_Key v) ∧
  lacked (evs ++ [(repo, keys)]) repo (vd_Key v) (vd_Ticks v).
Proof.
  intros Hal Hv. pose proof (history_evidence after evs repo (vd_Key v) Hal) as He.
  destruct (observe (history after evs) repo keys) as [r' out] eqn:Hobs. simpl in Hv.
  pose proof (observe_evidence after evs repo (vd_Key v) _ (repo, keys) r' out ltac:(by intros []) He Hobs) as (_ & _ & _ & Hl).
  destruct He as (Ha & Hd & _). apply observe_spec in Hobs as (_ & _ & _ & Hout).
  destruct (Hout v Hv) as (Hr & Hin & Hle & Hab). split_and!; [done|by rewrite <- Ha|by apply Hd|by apply Hl].
Qed.

(** "web" goes missing, but a tick fails to load in between. *)
Definition outages : list (string * result (list string)) :=
  [("shop", Ok ["web"; "api"]); ("shop", Ok ["api"]); ("shop", Err ErrNotFound); ("blog", Ok ["web"]); ("shop", Ok ["api"])].

Lemma retired_on_evidence_witness :
  (observe (history 2 outages) "shop" (Ok ["api"])).2 = [{| vd_Repo := "shop"; vd_Key := "shop/web"; vd_Ticks := 2 |}] ∧
  lacked (outages ++ [("shop", Ok ["api"])]) "shop" "shop/web" 2.
Proof.
  assert ((observe (history 2 outages) "shop" (Ok ["api"])).2 =
    [{| vd_Repo := "shop"; vd_Key := "shop/web"; vd_Ticks := 2 |}]) as H by (vm_compute; reflexivity).
  split; [exact H|].
  apply (retired_on_evidence 2 outages "shop" (Ok ["api"]) {| vd_Repo := "shop"; vd_Key := "shop/web"; vd_Ticks := 2 |}).
  - unfold outages. rewrite !Forall_cons. split_and!; [by intros []..| |by intros []|constructor].
    intros _. simpl. by rewrite list_elem_of_singleton.
  - rewrite H. by left.
Defined.
