(* ===== verification/Reconcile.v ===== *)
(** * Reconciling

    The reconciler of [internal/reconcile/reconcile.go]: observe the target,
    step the rollout in flight or apply on drift, and run the post-deploy gate
    once the stepper is through.  And the bookkeeping of repeated failures of
    [internal/reconcile/fail.go], which decides what is logged and when a target
    is left alone. *)

From S2P Require Import Prelude GoTime Statekit Config Progressive Model Lifecycle Risk Analysis Security Store World.
From S2P Require Import EngineBase EngineGates EngineRollback EngineDeploy.

(** ** The reconciler *)
Record Reconciler := { rc_eng : Engine; rc_audit : bool }.

Record Outcome := {
  oc_Drift : bool;
  oc_Reconciled : bool;
  oc_Plan : option PlanResult;
  oc_Rollout : option Rollout;
}.

Definition outcome_of (drift reconciled : bool) (plan : option PlanResult) (rl : option Rollout) : Outcome :=
  {| oc_Drift := drift; oc_Reconciled := reconciled; oc_Plan := plan; oc_Rollout := rl |}.

(** The newest rollout of a target; the list is newest first. *)
Definition newest_of (ref : string) (rs : list Rollout) : option Rollout :=
  head (filter (λ r, r_TargetRef r = ref) rs).

Section Reconcile.
Context {S : Type} `{!Store S}.
Notation HW := (EngineDeploy.HW (S := S)).
Context `{!Statechart Phase LifeContext unit, !Statechart StepState StepContext HW}.
Context (env : Env) (rc : Reconciler).
Notation e := (rc_eng rc).

(** The reconciler is handed the engine's own logger, or none. *)
Definition rc_record (en : Entry) : M S unit :=
  if rc_audit rc then audit_Record en else mret tt.

Definition stuckVerifying (targetRef checksum : string) : M S (result (option Rollout)) :=
  get rs <- List 0 catch er => mret (Err er);
  mret (Ok (match newest_of targetRef rs with
            | Some r => if (r_Phase r == PhaseVerifying) && (m_Checksum (r_Desired r) == checksum)
                        then Some r else None
            | None => None
            end)).

Definition isPromoted (targetRef : string) : M S (result bool) :=
  get rs <- List 0 catch er => mret (Err er);
  mret (Ok (match newest_of targetRef rs with
            | Some r => r_Phase r == PhasePromoted
            | None => false
            end)).

Fixpoint waiting_on (deps : list string) : M S (result string) :=
  match deps with
  | [] => mret (Ok "")
  | dep :: deps =>
      get ok <- isPromoted dep catch er => mret (Err er);
      if negb ok then mret (Ok dep) else waiting_on deps
  end.

Definition waitingOn (c : Config.t) : M S (result string) :=
  waiting_on (Config.sp_DependsOn (Config.spec c)).

(** The post-deploy gate of a rollout past the stepper. *)
Definition finalize_gate (c : Config.t) (by_ : Identity) (plan : PlanResult) (drifted : bool) (r : Rollout)
    : M S (Outcome * option err) :=
  get p <- priorManifestErr (r_TargetRef r) (m_Checksum (r_Desired r)) catch er =>
    mret (outcome_of drifted false (Some plan) (Some r), Some (Wrap "reconcile: verify: " er ""));
  '(out, er) ← VerifyOrRollback env e (r_ID r) (default (r_Desired r) p) c;
  match er, vo_Rollout out with
  | Some er, _ => mret (outcome_of drifted true (Some plan) (Some r), Some (Wrap "reconcile: verify: " er ""))
  | None, Some final =>
      rc_record (rentry ActionApply final (phase_str (r_Phase final)) by_ "reconciled drift");;
      mret (outcome_of drifted true (Some plan) (Some final), None)
  | None, None => mret (outcome_of drifted true (Some plan) None, None)
  end.

Definition finalize (c : Config.t) (by_ : Identity) (plan : PlanResult) (drifted : bool) (rl : option Rollout)
    : M S (Outcome * option err) :=
  match rl with
  | None => mret (outcome_of drifted false (Some plan) None, None)
  | Some r =>
      match r_Phase r with
      | PhaseAwaitingApproval | PhaseDeploying | PhasePaused =>
          mret (outcome_of drifted false (Some plan) (Some r), None)
      | _ => finalize_gate c by_ plan drifted r
      end
  end.

Definition drift_entry (c : Config.t) (by_ : Identity) (plan : PlanResult) : Entry :=
  entry ActionDrift (Config.tg_Ref (target_of c)) by_ (render plan).

(** A rollout in flight is stepped, whatever the plan says. *)
Definition reconcile_in_flight (c : Config.t) (by_ : Identity) (id : string) : M S (Outcome * option err) :=
  '(rl, tickErr) ← Tick env e id c;
  match tickErr with
  | Some er => mret (outcome_of false false None rl, Some (Wrap "reconcile: tick: " er ""))
  | None =>
      get plan <- Plan env e c catch er =>
        mret (outcome_of false false None rl, Some (Wrap "reconcile: plan: " er ""));
      finalize c by_ plan (pl_Changed plan) rl
  end.

(** Live and Git agree: look at a rollout left in verifying, or alert. *)
Definition reconcile_in_sync (c : Config.t) (by_ : Identity) (plan : PlanResult) : M S (Outcome * option err) :=
  get stuck <- stuckVerifying (Config.tg_Ref (target_of c)) (m_Checksum (pl_Desired plan)) catch er =>
    mret (outcome_of false false (Some plan) None, Some (Wrap "reconcile: " er ""));
  match stuck with
  | Some r => finalize c by_ plan false (Some r)
  | None =>
      if pl_DriftAlert plan then
        rc_record (drift_entry c by_ plan);;
        mret (outcome_of true false (Some plan) None, None)
      else mret (outcome_of false false (Some plan) None, None)
  end.

Definition reconcile_request (c : Config.t) (by_ : Identity) : ApplyRequest := {|
  rq_Config := c; rq_Initiator := by_; rq_Root := ""; rq_Planned := true; rq_NeedsApproval := false;
  rq_Risk := RiskFromConfig c [] |}.

Definition Reconcile (c : Config.t) (by_ : Identity) : M S (Outcome * option err) :=
  get inf <- InFlight (Config.tg_Ref (target_of c)) catch er => mret (outcome_of false false None None, Some er);
  match inf with
  | Some inf => reconcile_in_flight c by_ (r_ID inf)
  | None =>
      get plan <- Plan env e c catch er =>
        mret (outcome_of false false None None, Some (Wrap "reconcile: plan: " er ""));
      if negb (pl_Changed plan) then reconcile_in_sync c by_ plan
      else
        rc_record (drift_entry c by_ plan);;
        '(rl, er) ← Apply env e (reconcile_request c by_);
        match er with
        | Some er => mret (outcome_of true false (Some plan) rl, Some (Wrap "reconcile: apply: " er ""))
        | None => finalize c by_ plan true rl
        end
  end.
End Reconcile.

(** ** Repeated failures

    The methods of [failStreak] on an allocated receiver, with the reading of
    its clock as an argument.  A missing map entry reads as the zero value. *)
Inductive failVerdict := failFresh | failEscalate | failQuiet.

#[global] Instance failVerdict_eq_dec : EqDecision failVerdict.
Proof. solve_decision. Defined.

Record failStreak := {
  fk_after : Z;
  fk_n : gmap string Z;
  fk_msg : gmap string string;
  fk_fired : gmap string bool;
  fk_perm : gmap string bool;
  fk_heldAt : gmap string Time;
}.

Definition permanentHoldFor : Duration := 30 * Minute.

Definition newFailStreak (after : Z) : failStreak := {|
  fk_after := if after <? 1 then 1 else after;
  fk_n := ∅; fk_msg := ∅; fk_fired := ∅; fk_perm := ∅; fk_heldAt := ∅ |}.

Definition permanentFailure (errText : string) : bool :=
  let s := ToLower errText in
  if Contains s "forbidden" then true
  else if Contains s "unauthorized" then true
  else false.

Definition clear (f : failStreak) (key : string) : failStreak := {|
  fk_after := fk_after f;
  fk_n := delete key (fk_n f); fk_msg := delete key (fk_msg f); fk_fired := delete key (fk_fired f);
  fk_perm := delete key (fk_perm f); fk_heldAt := delete key (fk_heldAt f) |}.

(** One key's entries written. *)
Definition put (f : failStreak) (key : string) (n : Z) (msg : string) (fired perm : bool)
    (heldAt : gmap string Time) : failStreak := {|
  fk_after := fk_after f;
  fk_n := <[key := n]> (fk_n f); fk_msg := <[key := msg]> (fk_msg f);
  fk_fired := <[key := fired]> (fk_fired f); fk_perm := <[key := perm]> (fk_perm f); fk_heldAt := heldAt |}.

Definition note (now : Time) (f : failStreak) (key errText : string) : failVerdict * failStreak :=
  if errText == "" then (failFresh, clear f key)
  else
    let perm := permanentFailure errText in
    let heldAt := if perm then <[key := now]> (fk_heldAt f) else fk_heldAt f in
    if default "" (fk_msg f !! key) != errText then
      if perm then (failEscalate, put f key 1 errText true perm heldAt)
      else (failFresh, put f key 1 errText false perm heldAt)
    else
      let n := default 0 (fk_n f !! key) + 1 in
      if default false (fk_fired f !! key) then (failQuiet, put f key n errText true perm heldAt)
      else if perm || (fk_after f <=? n) then (failEscalate, put f key n errText true perm heldAt)
      else (failFresh, put f key n errText false perm heldAt).

(** The held message, if the key is held. *)
Definition held (now : Time) (f : failStreak) (key : string) : option string :=
  if negb (default false (fk_fired f !! key)) || negb (default false (fk_perm f !! key)) then None
  else if permanentHoldFor <? now - default zero_time (fk_heldAt f !! key) then None
  else Some (default "" (fk_msg f !! key)).

Definition clearRepo (f : failStreak) (repo : string) : failStreak :=
  foldl (λ f k, if (k == repo) || HasPrefix k (repo +:+ "/") then clear f k else f) f
    (map_to_list (fk_msg f)).*1.
