(* ===== verification/Watch.v ===== *)
(** * Watching repositories

    The watcher of [internal/reconcile/watch.go] and [reap.go]: each tick takes
    the leader's lease, and for every matching repository clones or pulls it,
    reads what is declared, reports what is declared no longer, lets image
    automation write newer images to Git, orders the configs by their
    dependencies, preflights the whole batch and reconciles each config.  Reading
    the configs of a checkout is the argument [o_load_all]; log lines are left
    out. *)

From S2P Require Import Prelude Encoding GoTime Statekit Config Progressive Model Lifecycle Depgraph Risk Analysis Security Store.
From S2P Require Import World Git ConfigLoad ImageSelect ImageAuto EngineBase EngineGates EngineRollback EngineDeploy Reap Reconcile.

(** ** Configs of a repository *)
Record cfgPair := { cp_nc : NamedConfig; cp_cfg : Config.t }.

Definition ref_of (c : Config.t) : string := Config.tg_Ref (target_of c).
Definition pair_ref (p : cfgPair) : string := ref_of (cp_cfg p).

Definition configRoot (checkout configPath : string) : string := path_join checkout (Dir configPath).

Definition rootedConfigs (checkout : string) (ps : list cfgPair) : list (Config.t * string) :=
  (λ p, (cp_cfg p, configRoot checkout (nc_Path (cp_nc p)))) <$> ps.

(** Of configs that share a target ref the first is kept. *)
Fixpoint dedup (seen : gset string) (configs : list NamedConfig) : list NamedConfig :=
  match configs with
  | [] => []
  | nc :: configs =>
      let ref := ref_of (nc_Config nc) in
      if bool_decide (ref ∈ seen) then dedup seen configs
      else nc :: dedup ({[ref]} ∪ seen) configs
  end.

Definition pair_deps (p : cfgPair) : list Dependency :=
  (λ d, {| dep_From := d; dep_To := pair_ref p |}) <$> Config.sp_DependsOn (Config.spec (cp_cfg p)).

(** The pairs of the layers' refs, each once. *)
Fixpoint pick (byRef : gmap string cfgPair) (seen : gset string) (refs : list string) : list cfgPair * gset string :=
  match refs with
  | [] => ([], seen)
  | ref :: refs =>
      match byRef !! ref with
      | Some p => if bool_decide (ref ∈ seen) then pick byRef seen refs
                  else let '(out, seen) := pick byRef ({[ref]} ∪ seen) refs in (p :: out, seen)
      | None => pick byRef seen refs
      end
  end.

Definition orderByDependsOn (ncs : list NamedConfig) (cfgs : list Config.t) : list cfgPair :=
  let pairs := zip_with (λ nc cfg, {| cp_nc := nc; cp_cfg := cfg |}) ncs cfgs in
  let byRef := foldl (λ m p, <[pair_ref p := p]> m) (∅ : gmap string cfgPair) pairs in
  let deps := mjoin (pair_deps <$> pairs) in
  if (length deps =? 0)%nat then pairs
  else
    match Layers (New (pair_ref <$> pairs) deps) with
    | Err _ => pairs
    | Ok layers =>
        let '(out, seen) := pick byRef ∅ (mjoin layers) in
        out ++ filter (λ p, pair_ref p ∉ seen) pairs
    end.

(** ** The watcher *)
Record RepoSpec := { rs_Name : string; rs_URL : string; rs_Branch : string; rs_Initiator : Identity }.

Record Watcher := {
  wt_rec : Reconciler;
  wt_baseDir : string;
  wt_preflight : bool;
  wt_logf : bool;                          (* a logger is set *)
  wt_lease : option (string * Duration);   (* leader election: owner and ttl *)
  wt_imageAuto : option Scanner;
  wt_held : gset string;                   (* the repository locks *)
  wt_sources : gmap string Source;         (* repositories with a checkout *)
  wt_awaiting : gmap string Z;
  wt_orphans : reaper;
  wt_lastSeen : gmap string Config.t;
  wt_drifting : driftStreak;
  wt_failures : failStreak;
}.

Definition stuckAfterCycles : Z := 10.

Definition set_held (l : gset string) (w : Watcher) : Watcher := {|
  wt_rec := wt_rec w; wt_baseDir := wt_baseDir w; wt_preflight := wt_preflight w; wt_logf := wt_logf w;
  wt_lease := wt_lease w; wt_imageAuto := wt_imageAuto w; wt_held := l; wt_sources := wt_sources w;
  wt_awaiting := wt_awaiting w; wt_orphans := wt_orphans w; wt_lastSeen := wt_lastSeen w;
  wt_drifting := wt_drifting w; wt_failures := wt_failures w |}.
Definition set_sources (l : gmap string Source) (w : Watcher) : Watcher := {|
  wt_rec := wt_rec w; wt_baseDir := wt_baseDir w; wt_preflight := wt_preflight w; wt_logf := wt_logf w;
  wt_lease := wt_lease w; wt_imageAuto := wt_imageAuto w; wt_held := wt_held w; wt_sources := l;
  wt_awaiting := wt_awaiting w; wt_orphans := wt_orphans w; wt_lastSeen := wt_lastSeen w;
  wt_drifting := wt_drifting w; wt_failures := wt_failures w |}.
Definition set_awaiting (l : gmap string Z) (w : Watcher) : Watcher := {|
  wt_rec := wt_rec w; wt_baseDir := wt_baseDir w; wt_preflight := wt_preflight w; wt_logf := wt_logf w;
  wt_lease := wt_lease w; wt_imageAuto := wt_imageAuto w; wt_held := wt_held w; wt_sources := wt_sources w;
  wt_awaiting := l; wt_orphans := wt_orphans w; wt_lastSeen := wt_lastSeen w;
  wt_drifting := wt_drifting w; wt_failures := wt_failures w |}.
Definition set_orphans (o : reaper) (seen : gmap string Config.t) (w : Watcher) : Watcher := {|
  wt_rec := wt_rec w; wt_baseDir := wt_baseDir w; wt_preflight := wt_preflight w; wt_logf := wt_logf w;
  wt_lease := wt_lease w; wt_imageAuto := wt_imageAuto w; wt_held := wt_held w; wt_sources := wt_sources w;
  wt_awaiting := wt_awaiting w; wt_orphans := o; wt_lastSeen := seen;
  wt_drifting := wt_drifting w; wt_failures := wt_failures w |}.
Definition set_drifting (d : driftStreak) (w : Watcher) : Watcher := {|
  wt_rec := wt_rec w; wt_baseDir := wt_baseDir w; wt_preflight := wt_preflight w; wt_logf := wt_logf w;
  wt_lease := wt_lease w; wt_imageAuto := wt_imageAuto w; wt_held := wt_held w; wt_sources := wt_sources w;
  wt_awaiting := wt_awaiting w; wt_orphans := wt_orphans w; wt_lastSeen := wt_lastSeen w;
  wt_drifting := d; wt_failures := wt_failures w |}.
Definition set_failures (f : failStreak) (w : Watcher) : Watcher := {|
  wt_rec := wt_rec w; wt_baseDir := wt_baseDir w; wt_preflight := wt_preflight w; wt_logf := wt_logf w;
  wt_lease := wt_lease w; wt_imageAuto := wt_imageAuto w; wt_held := wt_held w; wt_sources := wt_sources w;
  wt_awaiting := wt_awaiting w; wt_orphans := wt_orphans w; wt_lastSeen := wt_lastSeen w;
  wt_drifting := wt_drifting w; wt_failures := f |}.

(** Consecutive cycles a config waits on Git. *)
Definition noteAwaiting (w : Watcher) (repo path : string) : Z * Watcher :=
  let k := repo +:+ "/" +:+ path in
  let n := default 0 (wt_awaiting w !! k) + 1 in
  (n, set_awaiting (<[k := n]> (wt_awaiting w)) w).

Definition clearAwaiting (w : Watcher) (repo path : string) : Watcher :=
  set_awaiting (delete (repo +:+ "/" +:+ path) (wt_awaiting w)) w.

Record RepoOutcome := { ro_Repo : string; ro_Changed : bool; ro_Outcome : Outcome; ro_Err : option err }.

Definition no_outcome : Outcome := outcome_of false false None None.
Definition failed_outcome (repo : string) (changed : bool) (er : err) : RepoOutcome :=
  {| ro_Repo := repo; ro_Changed := changed; ro_Outcome := no_outcome; ro_Err := Some er |}.

Definition nobody : Identity := {| id_Kind := ""; id_Name := ""; id_Groups := [] |}.

Section Watch.
Context {S : Type} `{!Store S}.
Notation HW := (EngineDeploy.HW (S := S)).
Context `{!Statechart Phase LifeContext unit, !Statechart StepState StepContext HW}.
Context (env : Env).

(** *** Orphans *)
Definition reap_entry (ref detail : string) : Entry := {|
  en_Action := ActionOrphan; en_RolloutID := ""; en_TargetRef := ref; en_Phase := "reap"; en_Actor := nobody;
  en_Detail := detail |}.

Definition logOrphanReap (w : Watcher) (ref : string) (removed : result Z) : M S unit :=
  rc_record (wt_rec w) (reap_entry ref
    match removed with
    | Err _ => "reap of a deleted target FAILED; resources may still be running"
    | Ok n => if n =? 0 then "reap matched no resources; the target's kinds may be outside reapTypes"
              else "reaped resources of a target whose RolloutConfig was deleted"
    end).

Definition reapOrphan (w : Watcher) (cfg : Config.t) (ref : string) : M S unit :=
  get tgt <- BuildTarget env (target_of cfg) catch er => logOrphanReap w ref (Err (Wrap "build target: " er ""));
  if negb (o_reaper env tgt) then
    logOrphanReap w ref (Err (Errorf ("target kind " +:+ quote (Config.tg_Kind (target_of cfg)) +:+ " cannot reap")))
  else
    removed ← ask (EReap tgt) (λ tr, o_reap env tr tgt);
    logOrphanReap w ref removed.

Definition reportOrphan (w : Watcher) (v : verdict) : M S Watcher :=
  let cfg := wt_lastSeen w !! vd_Key v in
  let ref := match cfg with Some c => ref_of c | None => "unknown" end in
  rc_record (wt_rec w) (entry ActionOrphan ref nobody "RolloutConfig no longer declared; resources may still be running");;
  match cfg with
  | Some c => if reapOnDelete (Some c) then reapOrphan w c ref else mret tt
  | None => mret tt
  end;;
  mret (set_orphans (forget (wt_orphans w) (vd_Repo v) (vd_Key v)) (delete (vd_Key v) (wt_lastSeen w)) w).

Fixpoint report_orphans (w : Watcher) (vs : list verdict) : M S Watcher :=
  match vs with
  | [] => mret w
  | v :: vs => w ← reportOrphan w v; report_orphans w vs
  end.

(** *** Lasting drift *)
Definition reportPersistentDrift (w : Watcher) (cfg : Config.t) : M S unit :=
  rc_record (wt_rec w) {|
    en_Action := ActionDrift; en_RolloutID := ""; en_TargetRef := ref_of cfg; en_Phase := "persistent";
    en_Actor := nobody; en_Detail := "drift alerted but uncorrected across consecutive reconciles" |}.

(** *** One config *)
Definition inFlight (targetRef : string) : M S bool :=
  get found <- InFlight targetRef catch er => mret true;
  mret (match found with Some _ => true | None => false end).

(** The reconciler with the config's root in its context. *)
Definition rooted_at (root : string) (rc : Reconciler) : Reconciler :=
  let e := rc_eng rc in
  {| rc_eng := {| e_guardrails := e_guardrails e; e_audit := e_audit e; e_governance := e_governance e;
                  e_artifact := e_artifact e; e_secrets := e_secrets e; e_notifier := e_notifier e;
                  e_metrics := e_metrics e; e_analysis := e_analysis e; e_confinement := e_confinement e;
                  e_owner := e_owner e; e_leaseTTL := e_leaseTTL e; e_healthRetryDelay := e_healthRetryDelay e;
                  e_allowSelfApprove := e_allowSelfApprove e; e_root := root |};
     rc_audit := rc_audit rc |}.

Definition config_key (r : RepoSpec) (p : cfgPair) : string := rs_Name r +:+ "/" +:+ nc_Path (cp_nc p).

Definition reconcile_config (w : Watcher) (r : RepoSpec) (changed : bool) (dir : string) (p : cfgPair)
    : M S (RepoOutcome * Watcher) :=
  let key := config_key r p in
  '(o, rerr) ← Reconcile env (rooted_at (configRoot dir (nc_Path (cp_nc p))) (wt_rec w)) (cp_cfg p) (rs_Initiator r);
  let out := {| ro_Repo := key; ro_Changed := changed; ro_Outcome := o; ro_Err := rerr |} in
  match rerr with
  | Some _ => mret (out, w)
  | None =>
      let w := set_failures (clear (wt_failures w) key) w in
      let '(n, d) := drift_observe (wt_drifting w) key (oc_Drift o && negb (oc_Reconciled o)) in
      let w := set_drifting d w in
      (if 0 <? n then reportPersistentDrift w (cp_cfg p) else mret tt);;
      mret (out, w)
  end.

Definition tick_config (w : Watcher) (r : RepoSpec) (changed : bool) (dir : string) (p : cfgPair)
    : M S (RepoOutcome * Watcher) :=
  let key := config_key r p in
  get wait <- waitingOn (cp_cfg p) catch er => mret (failed_outcome key changed er, w);
  if wait != "" then
    mret ({| ro_Repo := key; ro_Changed := changed; ro_Outcome := no_outcome; ro_Err := None |}, w)
  else
    t ← now env;
    match held t (wt_failures w) key with
    | Some msg =>
        busy ← inFlight (pair_ref p);
        if (busy : bool) then reconcile_config w r changed dir p
        else mret (failed_outcome key changed (Errorf msg), w)
    | None => reconcile_config w r changed dir p
    end.

Fixpoint tick_configs (w : Watcher) (r : RepoSpec) (changed : bool) (dir : string) (ps : list cfgPair)
    : M S (list RepoOutcome * Watcher) :=
  match ps with
  | [] => mret ([], w)
  | p :: ps =>
      '(o, w) ← tick_config w r changed dir p;
      '(os, w) ← tick_configs w r changed dir ps;
      mret (o :: os, w)
  end.

(** *** The batch *)
Definition refused (r : RepoSpec) (errs : list err) (ordered : list cfgPair) : err :=
  Errorf ("preflight refused " +:+ rs_Name r +:+ ": " +:+ pretty (length errs) +:+ " of " +:+
    pretty (length ordered) +:+ " target(s) would not apply, so NONE were applied — " +:+ Join (err_str <$> errs) "; ").

(** The warnings go to the log. *)
Definition tick_warned (w : Watcher) (r : RepoSpec) (changed : bool) (dir : string) (ordered : list cfgPair)
    : M S (list RepoOutcome * Watcher) :=
  WarnDanglingMiddlewares env (rc_eng (wt_rec w)) (rootedConfigs dir ordered);;
  tick_configs w r changed dir ordered.

Definition tick_batch (w : Watcher) (r : RepoSpec) (changed : bool) (dir : string) (ordered : list cfgPair)
    : M S (list RepoOutcome * Watcher) :=
  let w := if changed then set_failures (clearRepo (wt_failures w) (rs_Name r)) w else w in
  if wt_preflight w then
    t ← now env;
    match held t (wt_failures w) (rs_Name r) with
    | Some msg => mret ([failed_outcome (rs_Name r) changed (Errorf msg)], w)
    | None =>
        errs ← Preflight env (rc_eng (wt_rec w)) (rootedConfigs dir ordered);
        if (0 <? length errs)%nat then mret ([failed_outcome (rs_Name r) changed (refused r errs ordered)], w)
        else tick_warned (set_failures (clear (wt_failures w) (rs_Name r)) w) r changed dir ordered
    end
  else tick_warned w r changed dir ordered.

(** *** Image automation *)
Definition image_one (sc : Scanner) (w : Watcher) (r : RepoSpec) (src : Source) (nc : NamedConfig)
    : M S (Config.t * Watcher) :=
  p ← Process (TagLister0 := scanner_lister env sc) env src nc;
  match pr_Err p with
  | Some _ => mret (nc_Config nc, w)
  | None =>
      let o := is_Outcome (pr_Status p) in
      if Deployed o then mret (pr_Config p, clearAwaiting w (rs_Name r) (nc_Path nc))
      else if AwaitingGit o then mret (nc_Config nc, (noteAwaiting w (rs_Name r) (nc_Path nc)).2)
      else mret (nc_Config nc, clearAwaiting w (rs_Name r) (nc_Path nc))
  end.

(** Every config, before any is reconciled. *)
Fixpoint image_phase (sc : Scanner) (w : Watcher) (r : RepoSpec) (src : Source) (ncs : list NamedConfig)
    : M S (list Config.t * Watcher) :=
  match ncs with
  | [] => mret ([], w)
  | nc :: ncs =>
      '(cfg, w) ← image_one sc w r src nc;
      '(cfgs, w) ← image_phase sc w r src ncs;
      mret (cfg :: cfgs, w)
  end.

(** *** One repository *)
Definition tick_loaded (w : Watcher) (r : RepoSpec) (changed : bool) (src : Source) (configs : list NamedConfig)
    : M S (list RepoOutcome * Watcher) :=
  let configs := dedup ∅ configs in
  let seen := foldl (λ m nc, <[rs_Name r +:+ "/" +:+ nc_Path nc := nc_Config nc]> m) (wt_lastSeen w) configs in
  let '(orphans, vs) := observe (wt_orphans w) (rs_Name r) (Ok (nc_Path <$> configs)) in
  w ← report_orphans (set_orphans orphans seen w) vs;
  '(cfgs, w) ← match wt_imageAuto w with
               | Some sc => image_phase sc w r src configs
               | None => mret (nc_Config <$> configs, w)
               end;
  tick_batch w r changed (src_dir src) (orderByDependsOn configs cfgs).

Definition clone (w : Watcher) (r : RepoSpec) : M S (result Source) :=
  let dir := path_join (wt_baseDir w) (rs_Name r) in
  check ask (ERemoveAll dir) (λ tr, o_remove_all env tr dir)
    catch er => mret (Err (Wrap "clear stale clone directory: " er ""));
  get src <- Clone env (rs_URL r) (rs_Branch r) dir
    catch er => (ask (ERemoveAll dir) (λ tr, o_remove_all env tr dir);; mret (Err er));
  mret (Ok src).

(** Pull, load what is declared, and go on. *)
Definition tick_pulled (w : Watcher) (r : RepoSpec) (src : Source) (cloned : bool) : M S (list RepoOutcome * Watcher) :=
  let name := rs_Name r in
  get moved <- Pull env src catch er => mret ([failed_outcome name false (Wrap "watch: pull: " er "")], w);
  let changed := moved || cloned in
  get configs <- read (λ w, o_load_all env (w_trace w) (src_dir src)) catch er =>
    mret ([failed_outcome name changed (Wrap "watch: load config: " er "")],
          set_orphans (observe (wt_orphans w) name (Err er)).1 (wt_lastSeen w) w);
  tick_loaded w r changed src ((λ p, {| nc_Path := p.1; nc_Config := p.2 |}) <$> configs).

Definition tick_repo (w : Watcher) (r : RepoSpec) : M S (list RepoOutcome * Watcher) :=
  let name := rs_Name r in
  match wt_sources w !! name with
  | Some src => tick_pulled w r src false
  | None =>
      get src <- clone w r catch er => mret ([failed_outcome name false (Wrap "watch: clone: " er "")], w);
      tick_pulled (set_sources (<[name := src]> (wt_sources w)) w) r src true
  end.

Definition tickOne (w : Watcher) (r : RepoSpec) : M S (list RepoOutcome * Watcher) :=
  let name := rs_Name r in
  if bool_decide (name ∈ wt_held w) then
    mret ([failed_outcome name false (Errorf ("watch: repo " +:+ name +:+ " busy"))], w)
  else
    '(out, w) ← tick_repo (set_held ({[name]} ∪ wt_held w) w) r;
    mret (out, set_held (wt_held w ∖ {[name]}) w).

(** *** A tick over all repositories *)
Definition matching (hint : string) (repos : list RepoSpec) : list RepoSpec :=
  if TrimSpace hint == "" then repos
  else
    match filter (λ r, SameRepo (rs_URL r) hint = true) repos with
    | [] => repos
    | matched => matched
    end.

Fixpoint tick_repos (w : Watcher) (repos : list RepoSpec) : M S (list RepoOutcome * Watcher) :=
  match repos with
  | [] => mret ([], w)
  | r :: repos =>
      '(out, w) ← tickOne w r;
      '(outs, w) ← tick_repos w repos;
      mret (out ++ outs, w)
  end.

Definition TickHint (w : Watcher) (hint : string) (repos : list RepoSpec) : M S (list RepoOutcome * Watcher) :=
  let proceed := tick_repos w (matching hint repos) in
  match wt_lease w with
  | None => proceed
  | Some (owner, ttl) =>
      t ← now env;
      get ok <- store (AcquireLease "reconcile:leader" owner ttl t) catch er =>
        mret ([failed_outcome "" false (Wrap "watch: acquire leader lease: " er "")], w);
      if (ok : bool) then proceed else mret ([failed_outcome "" false ErrNotLeader], w)
  end.

(** *** Reporting a tick *)
Definition reportPermanentFailure (w : Watcher) (key detail : string) : M S unit :=
  rc_record (wt_rec w) {|
    en_Action := ActionApply; en_RolloutID := ""; en_TargetRef := key; en_Phase := "permanent"; en_Actor := nobody;
    en_Detail := detail |}.

Definition log_outcome (w : Watcher) (o : RepoOutcome) : M S Watcher :=
  match (er ← ro_Err o; if errors_Is er ErrNotLeader then None else Some er) with
  | Some er =>
      t ← now env;
      let '(v, f) := note t (wt_failures w) (ro_Repo o) (err_str er) in
      (if (v == failEscalate) && permanentFailure (err_str er)
       then reportPermanentFailure w (ro_Repo o) (err_str er) else mret tt);;
      mret (set_failures f w)
  | None =>
      match oc_Rollout (ro_Outcome o) with
      | Some _ => if oc_Reconciled (ro_Outcome o) || oc_Drift (ro_Outcome o)
                  then mret (set_failures (clear (wt_failures w) (ro_Repo o)) w) else mret w
      | None => mret w
      end
  end.

Fixpoint log_outcomes (w : Watcher) (os : list RepoOutcome) : M S Watcher :=
  match os with
  | [] => mret w
  | o :: os => w ← log_outcome w o; log_outcomes w os
  end.

Definition logOutcomes (w : Watcher) (os : list RepoOutcome) : M S Watcher :=
  if negb (wt_logf w) then mret w else log_outcomes w os.
End Watch.

(** ** Metrics ([reconcile/metrics.go]) *)
Definition tick_result (o : RepoOutcome) : option string :=
  match ro_Err o with
  | Some er => if errors_Is er ErrNotLeader then None else Some "error"
  | None => Some (if oc_Reconciled (ro_Outcome o) then "reconciled" else if oc_Drift (ro_Outcome o) then "drift" else "insync")
  end.

(** The latest rollout of each target, by update time. *)
Definition latest_step (m : gmap string Rollout) (r : Rollout) : gmap string Rollout :=
  match m !! r_TargetRef r with
  | Some cur => if r_UpdatedAt cur <? r_UpdatedAt r then <[r_TargetRef r := r]> m else m
  | None => <[r_TargetRef r := r]> m
  end.

(** In nanoseconds; the gauge shows seconds. *)
Definition oldestInFlight (now : Time) (rs : list Rollout) : Duration :=
  foldl (λ oldest r,
    if (r_Phase r == PhaseDeploying) || (r_Phase r == PhaseVerifying) then Z.max oldest (now - r_UpdatedAt r) else oldest)
    0 (map_to_list (foldl latest_step ∅ rs)).*2.
