(* ===== verification/Scenario.v ===== *)
(** * A concrete deployment

    One environment, engine and configuration in which the engine's operations
    run by evaluation: SQLite empty or filled by the operations themselves, the
    reference statechart interpreter, a clock that ticks once a second, and
    systems outside that do what they are asked unless the scenario says
    otherwise. *)

From S2P Require Import Prelude GoTime Statekit Config Progressive Model Lifecycle Risk.
From S2P Require Import Analysis Security Store World EngineBase EngineGates EngineRollback EngineDeploy.

Module Scenario.

Definition life_chart : Statechart Phase LifeContext unit := ref_statechart _ _ _ true.
Definition life_laws : @StatechartLaws Phase LifeContext unit _ life_chart := ref_laws _ _ _ true.
Definition step_chart : Statechart StepState StepContext (World Sqlite.Db * option err) := ref_statechart _ _ _ true.
Definition step_laws : @StatechartLaws StepState StepContext (World Sqlite.Db * option err) _ step_chart :=
  ref_laws _ _ _ true.

Definition healthy : HealthStatus := {| hs_State := HealthHealthy; hs_Reason := "" |}.
Definition unhealthy : HealthStatus := {| hs_State := HealthUnhealthy; hs_Reason := "5xx" |}.

(** Everything outside answers: applies, probes, metrics, governance.  [apply]
    and [health] say what the target does, [live] is the checksum it shows. *)
Definition outside_live (live : string) (apply : Manifest → option err) (health : list Effect → result HealthStatus)
    : Env := {|
  o_build := λ _ _, None;
  o_apply := λ _ _ m, apply m;
  o_observe := λ _ _, Ok {| fp_Value := live; fp_Meta := ∅ |};
  o_health := λ tr _, health tr;
  o_differ := λ _, false;
  o_diff := λ _ _ _, Ok "";
  o_renderer := λ _, false;
  o_referenced := λ _ _, false;
  o_render := λ _ _ _, Ok "";
  o_inspector := λ _, false;
  o_resources := λ _ _, Ok [];
  o_preflighter := λ _, false;
  o_preflight := λ _ _ _, None;
  o_reaper := λ _, false;
  o_reap := λ _ _, Ok 0;
  o_router := λ _ _, None;
  o_traffic := λ _ _, None;
  o_flag_provider := λ _ _, None;
  o_flag := λ _ _, None;
  o_exec := λ _ _, Ok 0;
  o_environ := ["PATH=/bin"];
  o_metrics := λ _ _, None;
  o_series_capable := false;
  o_query := λ _ _, Ok PrimFloat.one;
  o_series := λ _ _, Ok [];
  o_secret := λ _ _, Ok "s3cr3t";
  o_govern := λ _ _, Ok {| gd_Allowed := true; gd_Reason := "" |};
  o_artifact := λ _ _, Ok (true, "");
  o_rate := λ _ _, true;
  o_ctx_done := λ _, false;
  o_cel := λ _, Err (Errorf "cel: not in this scenario");
  o_cel_vars := λ _ _, Err (Errorf "cel: not in this scenario");
  o_sha256 := id;
  o_spec_sum := λ spec, as_string (spec !! "image");
  o_now := λ n, Z.of_nat n * Second;
  o_git := λ _ _ _, ("", None);
  o_git_token := λ _, Ok "";
  o_read_file := λ _ _, Ok "";
  o_write_file := λ _ _ _, None;
  o_remove_all := λ _ _, None;
  o_http := λ _ _, Err (Errorf "http: not in this scenario");
  o_load_all := λ _ _, Ok [];
  o_dangling := λ _ _, [];
  o_load := λ _, Err (Errorf "yaml: not in this scenario");
  o_yaml := λ _, Err (Errorf "yaml: not in this scenario");
  o_yaml_out := λ _, Err (Errorf "yaml: not in this scenario");
  o_regexp := λ p, Ok (λ s, s == p);
  o_url := λ _, Err (Errorf "url: not in this scenario");
  o_json_out := λ _, "";
  o_json_tags := λ _, Ok [];
  o_json_token := λ _, Ok ("", "");
  o_json_pr := λ _, Ok ("", "");
  o_json_prs := λ _, Ok [];
  o_json_hook := λ _, Ok ("", "", "");
  o_hmac := λ key body, key +:+ body;
|}.

Definition outside : (Manifest → option err) → (list Effect → result HealthStatus) → Env := outside_live "".
Definition sunny : Env := outside (λ _, None) (λ _, Ok healthy).

(** Guardrails as [boot] wires them: the floor, the freeze in the store. *)
Definition guardrails : Guardrails := {|
  gr_Floor := DefaultPolicyFloor; gr_Freeze := true; gr_AgentLimit := true; gr_FreezeSource := true |}.

Definition engine : Engine := {|
  e_guardrails := Some guardrails; e_audit := true; e_governance := false; e_artifact := None;
  e_secrets := false; e_notifier := true; e_metrics := false; e_analysis := true;
  e_confinement := ConfinementFromEnv (λ _, ""); e_owner := "rollopsd"; e_leaseTTL := 2 * Minute;
  e_healthRetryDelay := Second; e_allowSelfApprove := false; e_root := "/repo" |}.

Definition start (d : Sqlite.Db) : World Sqlite.Db := MkWorld d ∅ NewFreeze [] 0 [].

Definition ann : Identity := {| id_Kind := "human"; id_Name := "ann"; id_Groups := [] |}.
Definition bob : Identity := {| id_Kind := "human"; id_Name := "bob"; id_Groups := [] |}.
Definition robot : Identity := {| id_Kind := "agent"; id_Name := "robot"; id_Groups := [] |}.

(** A service with an image, deployed with the given strategy. *)
Definition service (ref image : string) (strategy : Config.Strategy) (auto : bool) : Config.t :=
  let risk := {| Config.rk_Threshold := PrimFloat.zero; Config.rk_Sensitive := "";
                 Config.rk_History := {| Config.rh_Lookback := 0; Config.rh_Weight := PrimFloat.zero;
                                         Config.rh_MaxFailures := 0 |} |} in
  {| Config.APIVersion := Config.SchemaVersion; Config.ConfigKind := Config.Kind;
     Config.Meta := {| Config.md_Name := ref; Config.md_Labels := ∅ |};
     Config.spec := {|
       Config.sp_Target := {| Config.tg_Kind := "container"; Config.tg_Ref := ref; Config.tg_Criticality := "";
                              Config.tg_Env := ""; Config.tg_Spec := {["image" := AString image]} |};
       Config.sp_Environments := []; Config.sp_Strategy := strategy; Config.sp_Risk := risk;
       Config.sp_Rollback := {| Config.rb_Auto := auto; Config.rb_HealthCheck := None; Config.rb_SmokeTest := None;
                                Config.rb_Database := None; Config.rb_Trigger := "" |};
       Config.sp_Analysis := None; Config.sp_FeatureFlags := None; Config.sp_TrafficRouting := None;
       Config.sp_ImagePolicy := None; Config.sp_Database := None; Config.sp_DependsOn := [];
       Config.sp_Schedule := ""; Config.sp_Verification := "" |} |}.

Definition rolling : Config.Strategy := {| Config.sy_Type := "rolling"; Config.sy_Steps := [] |}.
Definition canary : Config.Strategy :=
  {| Config.sy_Type := "canary";
     Config.sy_Steps := [ {| Config.ss_Weight := 10; Config.ss_Pause := "1m" |} ] |}.

Definition web (image : string) : Config.t := service "web" image rolling true.

Definition request (c : Config.t) (who : Identity) (approval : bool) : ApplyRequest := {|
  rq_Config := c; rq_Initiator := who; rq_Root := ""; rq_Planned := true; rq_NeedsApproval := approval;
  rq_Risk := {| ri_ChangeType := ""; ri_Environment := ""; ri_BlastRadius := 0 |} |}.

(** The rollouts of a target as (id, phase), newest first. *)
Definition phases (w : World Sqlite.Db) : list (string * Phase) :=
  match (Sqlite.list_rollouts 0 (w_store w)).1 with
  | Ok rs => (λ r, (r_ID r, r_Phase r)) <$> rs
  | Err _ => []
  end.

(** The manifests applied, in order, by checksum. *)
Definition deployed (w : World Sqlite.Db) : list string :=
  omap (λ ef, match ef with EApply _ m => Some (m_Checksum m) | _ => None end) (rev (w_trace w)).

End Scenario.
