(* ===== verification/Surface.v ===== *)
(** * What the surfaces share

    HTTP, gRPC, MCP and the console are front ends of the same engine operations
    under the same policy.  Their common flows: authorizing, planning the
    documents of a request, refusing a set, deploying, and acting on a stored
    rollout. *)

From S2P Require Import Prelude Encoding GoTime Statekit Config Progressive Model Lifecycle Risk Analysis Security.
From S2P Require Import Store World Git ConfigLoad EngineBase EngineGates EngineRollback EngineDeploy.

Definition scopeOf (c : Config.t) : Scope := {|
  sc_Env := Config.tg_Env (Config.sp_Target (Config.spec c));
  sc_TargetRef := Config.tg_Ref (Config.sp_Target (Config.spec c)) |}.
Definition target_scope (ref : string) : Scope := {| sc_Env := ""; sc_TargetRef := ref |}.

Definition plan_action (a : PlanAction) : string :=
  match a with PlanCreate => "create" | PlanUpdate => "update" | PlanNoop => "noop" end.

(** What [handlePlan] gathers over the configs of a document. *)
Record PlanSum := {
  ps_summaries : list string;
  ps_changed : bool;
  ps_action : string;
  ps_score : float;
  ps_needsApproval : bool;
  ps_sensitive : bool;
  ps_recentFailures : Z;
  ps_reason : string;
}.
Definition no_plans : PlanSum :=
  {| ps_summaries := []; ps_changed := false; ps_action := ""; ps_score := PrimFloat.zero; ps_needsApproval := false;
     ps_sensitive := false; ps_recentFailures := 0; ps_reason := "" |}.

(** A plan without a risk verdict has the zero values of its fields. *)
Definition no_decision : Decision :=
  {| d_Score := PrimFloat.zero; d_Threshold := PrimFloat.zero; d_NeedsApproval := false; d_Sensitive := false;
     d_RecentFailures := 0; d_Reason := "" |}.

Definition add_plan (s : PlanSum) (p : PlanResult) : PlanSum :=
  let d := default no_decision (pl_Risk p) in
  let action := plan_action (pl_Action p) in
  {| ps_summaries := ps_summaries s ++ [render p];
     ps_changed := pl_Changed p || ps_changed s;
     ps_action := if ps_action s == "" then action else if ps_action s != action then "mixed" else ps_action s;
     ps_score := if PrimFloat.ltb (ps_score s) (d_Score d) then d_Score d else ps_score s;
     ps_needsApproval := ps_needsApproval s || d_NeedsApproval d;
     ps_sensitive := ps_sensitive s || d_Sensitive d;
     ps_recentFailures := if ps_recentFailures s <? d_RecentFailures d then d_RecentFailures d else ps_recentFailures s;
     ps_reason := if d_Reason d != "" then d_Reason d else ps_reason s |}.

Definition plan_summary (n : nat) (s : PlanSum) : string :=
  let nl := String (char 10) "" in
  let summary := Join (ps_summaries s) nl in
  if (1 <? n)%nat then "RolloutSet → " +:+ pretty n +:+ " targets" +:+ nl +:+ summary else summary.

(** The fields every reply with a rollout has; [None] is the zero rollout. *)
Definition rollout_fields (rl : option Rollout) : list (string * any) :=
  [("id", AString (from_option r_ID "" rl)); ("phase", AString (from_option (phase_str ∘ r_Phase) "" rl));
   ("target", AString (from_option r_TargetRef "" rl))].

Definition strategy_str (s : RStrategy) : string :=
  match s with StrategyRolling => "rolling" | StrategyCanary => "canary" | StrategyBlueGreen => "blue-green" end.

Definition omit_empty (name value : string) : list (string * any) :=
  if value == "" then [] else [(name, AString value)].

Definition gate_fields (g : GateResult) : any :=
  AMap ([("gate", AString (gt_Gate g)); ("status", AString (gt_Status g))] ++ omit_empty "detail" (gt_Detail g)).

Definition fleet_fields (rep : FleetReport) : list (string * any) :=
  let count n := AInt (Z.of_nat n) in
  [("name", AString (fr_Name rep)); ("total", count (fr_Total rep)); ("promoted", count (fr_Promoted rep));
   ("active", count (fr_Active rep)); ("degraded", count (fr_Degraded rep)); ("awaiting", count (fr_Awaiting rep));
   ("members", AList ((λ m, AMap [("id", AString (fm_ID m)); ("target", AString (fm_Target m));
                                  ("phase", AString (phase_str (fm_Phase m)))]) <$> fr_Members rep))].

#[global] Instance M_fmap S : FMap (M S) := λ A B f m, m ≫= λ a, mret (f a).

Section Surface.
Context {S : Type} `{!Store S}.
Notation HW := (EngineDeploy.HW (S := S)).
Context `{!Statechart Phase LifeContext unit, !Statechart StepState StepContext HW}.
Context `{!Yaml} (env : Env) (e : Engine) (fs : FS) (getenv : string → string) (policy : Policy).

(** The part of a handler behind [policy.Authorize]. *)
Definition authorized {A} (id : Identity) (perm : Permission) (s : Scope) (deny : err → A) (k : M S A) : M S A :=
  match Authorize policy id perm s with Some er => mret (deny er) | None => k end.

(** Why a request failed, in the order the handlers look: what was asked for is
    wrong, is not allowed, is not there, or did not work. *)
Inductive Refusal := Invalid (er : err) | Denied (er : err) | Missing (er : err) | Failed (er : err).

Fixpoint plan_all (id : Identity) (acc : PlanSum) (docs : list NamedConfig) : M S (Refusal + PlanSum) :=
  match docs with
  | [] => mret (inr acc)
  | d :: docs =>
      authorized id PermPlan (scopeOf (nc_Config d)) (λ er, inl (Denied er))
        (get p <- Plan env e (nc_Config d) catch er => mret (inl (Failed er));
         plan_all id (add_plan acc p) docs)
  end.

(** Planning a document: the registry is reloaded, a set is expanded. *)
Definition plan_documents (id : Identity) (registry : list Cluster) (data path : string)
    : M S ((Refusal + PlanSum * string) * list Cluster) :=
  match LoadClusterRegistryEnv fs getenv registry with
  | (registry, Some er) => mret (inl (Invalid er), registry)
  | (registry, None) =>
      match loadDocuments registry data path with
      | Err er => mret (inl (Invalid er), registry)
      | Ok docs =>
          out ← plan_all id no_plans docs;
          mret (match out with inl r => inl r | inr s => inr (s, plan_summary (length docs) s) end, registry)
      end
  end.

(** Applying a document, which may not be a set. *)
Definition apply_document (id : Identity) (data : string) : M S (Refusal + option Rollout) :=
  match RefuseApplyRolloutSet data with
  | Some er => mret (inl (Invalid er))
  | None =>
      match load data with
      | Err er => mret (inl (Invalid er))
      | Ok c =>
          authorized id PermApply (scopeOf c) (λ er, inl (Denied er))
            (get _ <- Plan env e c catch er => mret (inl (Failed er));
             '(rl, er) ← Apply env e {| rq_Config := c; rq_Initiator := id; rq_Root := ""; rq_Planned := true;
                                        rq_NeedsApproval := false; rq_Risk := RiskFromConfig c [] |};
             mret (match er with Some er => inl (Failed er) | None => inr rl end))
      end
  end.

(** Something about a stored rollout, authorized for the rollout's target. *)
Definition on_rollout {A} (id : Identity) (perm : Permission) (ro : string) (k : M S (Refusal + A)) : M S (Refusal + A) :=
  get cur <- Status ro catch er => mret (inl (Missing er));
  authorized id perm (target_scope (r_TargetRef cur)) (λ er, inl (Denied er)) k.

Definition rollout_action (id : Identity) (perm : Permission) (ro : string) (op : M S outcome)
    : M S (Refusal + option Rollout) :=
  on_rollout id perm ro
    ('(rl, er) ← op; mret (match er with Some er => inl (Failed er) | None => inr rl end)).

Definition verify_rollout (id : Identity) (ro : string) : M S (Refusal + VerifyReport) :=
  on_rollout id PermPromote ro
    (get rep <- Verify env e ro catch er => mret (inl (Failed er)); mret (inr rep)).

Definition rollback_target (id : Identity) (target : string) (force : bool) : M S (Refusal + option Rollout) :=
  authorized id PermRollback (target_scope target) (λ er, inl (Denied er))
    ('(rl, er) ← RollbackLast env e target force;
     mret (match er with Some er => inl (Failed er) | None => inr rl end)).

Definition set_freeze (id : Identity) (active : bool) (reason : string) : M S (Refusal + bool * string) :=
  '(active, reason, er) ← SetFreeze env e active id reason;
  mret (match er with Some er => inl (Failed er) | None => inr (active, reason) end).

(** A read under [rollouts.status]. *)
Definition read_status {A} (id : Identity) (s : Scope) (c : M S (result A)) : M S (Refusal + A) :=
  authorized id PermStatus s (λ er, inl (Denied er))
    (get a <- c catch er => mret (inl (Missing er)); mret (inr a)).
End Surface.
