(* ===== verification/Api.v ===== *)
(** * The HTTP surface

    [internal/api/server.go]: routing, authentication and the handlers over the
    engine's operations, each authorized by the RBAC policy before it acts.  A
    handler is an operation in the monad of [World]; the in-process cluster
    registry, which planning reloads, is passed along.  Bodies are decoded by
    [Bodies]; [identify] is the configured authenticator (see [Auth]). *)

From S2P Require Import Prelude Encoding GoTime Statekit Config Progressive Model Lifecycle Risk Analysis Security.
From S2P Require Import Store World Git ConfigLoad EngineBase EngineGates EngineRollback EngineDeploy Surface.

Record Request := {
  hr_Method : string;
  hr_Path : string;
  hr_Authorization : string;
  hr_Query : gmap string string;
  hr_Body : result string;        (* what reading the body gives *)
}.

(** A status and the fields of the JSON object. *)
Definition Reply : Type := (Z * list (string * any))%type.

Class Bodies := {
  json_id_force : string → option (string * bool);
  json_target_force : string → option (string * bool);
  json_active_reason : string → option (bool * string);
}.

Inductive Route :=
| RPlan | RApply | RRollback | RApprove | RReject | RPromote | RPause | RResume | RAbort | RVerify | RFreeze
| RStatus (id : string) | RFleet | RHealthz.

(** ** Routing *)
Definition post_routes : list (string * Route) :=
  [("/v1/plan", RPlan); ("/v1/apply", RApply); ("/v1/rollback", RRollback); ("/v1/approve", RApprove);
   ("/v1/reject", RReject); ("/v1/promote", RPromote); ("/v1/pause", RPause); ("/v1/resume", RResume);
   ("/v1/abort", RAbort); ("/v1/verify", RVerify); ("/v1/freeze", RFreeze)].

(** One path segment that is not empty. *)
Definition segment (s : string) : bool := (s != "") && match IndexByte s slash with None => true | Some _ => false end.

Definition get_route (path : string) : option Route :=
  if path == "/v1/fleet" then Some RFleet
  else if path == "/healthz" then Some RHealthz
  else let id := TrimPrefix path "/v1/rollouts/" in
       if HasPrefix path "/v1/rollouts/" && segment id then Some (RStatus id) else None.

Definition post_route (path : string) : option Route := snd <$> head (filter (λ pr, pr.1 = path) post_routes).

Definition clean_path (p : string) : string :=
  let c := Clean p in if HasSuffix p "/" && (c != "/") then c +:+ "/" else c.

(** The handler of the mux, or the status it answers itself. *)
Definition route (method path : string) : Z + Route :=
  if clean_path path != path then inl 301
  else
    let reads := (method == "GET") || (method == "HEAD") in
    match post_route path, get_route path with
    | Some r, _ => if method == "POST" then inr r else inl 405
    | None, Some r => if reads then inr r else inl 405
    | None, None => inl 404
    end.

Definition bearer (h : string) : string := if HasPrefix h "Bearer " then TrimPrefix h "Bearer " else "".

Definition writeErr (status : Z) (msg : string) : Reply := (status, [("error", AString msg)]).

Section Server.
Context {S : Type} `{!Store S}.
Notation HW := (EngineDeploy.HW (S := S)).
Context `{!Statechart Phase LifeContext unit, !Statechart StepState StepContext HW}.
Context `{!Yaml, !Bodies} (env : Env) (e : Engine) (fs : FS) (getenv : string → string).
Context (identify : string → option Identity) (policy : Policy).

(** The status of a refusal, given those for what is missing and what failed. *)
Definition refused (missing failed : Z) (why : Refusal) : Reply :=
  match why with
  | Invalid er => writeErr 400 (err_str er)
  | Denied er => writeErr 403 (err_str er)
  | Missing er => writeErr missing (err_str er)
  | Failed er => writeErr failed (err_str er)
  end.
Definition reply {A} (missing failed ok : Z) (fields : A → list (string * any)) (out : Refusal + A) : Reply :=
  match out with inl why => refused missing failed why | inr a => (ok, fields a) end.

Definition handlePlan (id : Identity) (registry : list Cluster) (r : Request) : M S (Reply * list Cluster) :=
  match hr_Body r with
  | Err er => mret (writeErr 400 (err_str er), registry)
  | Ok body =>
      '(out, registry) ← plan_documents env e fs getenv policy id registry (limited body) "http";
      mret (reply 404 500 200 (λ '(s, summary),
        [("action", AString (ps_action s)); ("changed", ABool (ps_changed s)); ("summary", AString summary);
         ("risk_score", AFloat (ps_score s)); ("needs_approval", ABool (ps_needsApproval s));
         ("sensitive", ABool (ps_sensitive s)); ("recent_failures", AInt (ps_recentFailures s));
         ("reason", AString (ps_reason s))]) out, registry)
  end.

Definition handleApply (id : Identity) (r : Request) : M S Reply :=
  match hr_Body r with
  | Err er => mret (writeErr 400 (err_str er))
  | Ok body =>
      out ← apply_document env e policy id (limited body);
      let failed := match out with inl (Failed er) => if errors_Is er ErrTargetBusy then 409 else 500 | _ => 500 end in
      mret (reply 404 failed 202 (λ rl,
        rollout_fields rl ++ [("risk_score", AFloat (from_option r_RiskScore PrimFloat.zero rl))]) out)
  end.

Definition handleStatus (id : Identity) (rollout : string) : M S Reply :=
  reply 404 404 200 (λ rl, rollout_fields (Some rl) ++
    [("strategy", AString (strategy_str (r_Strategy rl))); ("note", AString (r_Note rl)); ("risk_score", AFloat (r_RiskScore rl));
     ("actor_kind", AString (id_Kind (r_Initiator rl))); ("actor_name", AString (id_Name (r_Initiator rl)))])
  <$> read_status policy id any_scope (Status rollout).

Definition handleFleet (id : Identity) (r : Request) : M S Reply :=
  let prefix := default "" (hr_Query r !! "prefix") in
  let filter_ := if prefix == "" then default "" (hr_Query r !! "filter") else prefix in
  reply 400 400 200 fleet_fields <$> read_status policy id any_scope (FleetStatus filter_).

(** The id a body names, with its [force] flag; a body without one is refused. *)
Definition with_id (r : Request) (k : string → bool → M S Reply) : M S Reply :=
  match hr_Body r with
  | Err _ => mret (writeErr 400 "id required")
  | Ok body =>
      match json_id_force (limited body) with
      | None => mret (writeErr 400 "id required")
      | Some (rollout, force) => if rollout == "" then mret (writeErr 400 "id required") else k rollout force
      end
  end.

Definition rolloutAction (id : Identity) (perm : Permission) (r : Request) (op : string → bool → M S outcome) : M S Reply :=
  with_id r (λ ro force,
    reply 404 412 200 (λ rl, rollout_fields rl ++ [("note", AString (from_option r_Note "" rl))])
    <$> rollout_action policy id perm ro (op ro force)).

Definition handleVerify (id : Identity) (r : Request) : M S Reply :=
  with_id r (λ ro _,
    reply 404 412 200 (λ rep,
      [("rolloutId", AString (vr_RolloutID rep)); ("targetRef", AString (vr_TargetRef rep));
       ("phase", AString (vr_Phase rep)); ("ok", ABool (vr_OK rep))] ++ omit_empty "reason" (vr_Reason rep) ++
      [("gates", AList (gate_fields <$> vr_Gates rep))])
    <$> verify_rollout env e policy id ro).

Definition handleFreeze (id : Identity) (r : Request) : M S Reply :=
  authorized policy id PermFreeze any_scope (λ er, writeErr 403 (err_str er))
    (match hr_Body r with
     | Err _ => mret (writeErr 400 "invalid body")
     | Ok body =>
         match json_active_reason (limited body) with
         | None => mret (writeErr 400 "invalid body")
         | Some (active, reason) =>
             reply 404 412 200 (λ '(active, reason), [("active", ABool active); ("reason", AString reason)])
             <$> set_freeze env e id active reason
         end
     end).

Definition handleRollback (id : Identity) (r : Request) : M S Reply :=
  match hr_Body r with
  | Err _ => mret (writeErr 400 "target required")
  | Ok body =>
      match json_target_force (limited body) with
      | None => mret (writeErr 400 "target required")
      | Some (target, force) =>
          if target == "" then mret (writeErr 400 "target required")
          else reply 404 412 202 rollout_fields <$> rollback_target env e policy id target force
      end
  end.

(** The mux: a handler, or an answer of its own. *)
Definition mux (id : Identity) (registry : list Cluster) (r : Request) : M S (Reply * list Cluster) :=
  let plain (m : M S Reply) := (reply ← m; mret (reply, registry)) in
  match route (hr_Method r) (hr_Path r) with
  | inl status => mret ((status, []), registry)
  | inr RPlan => handlePlan id registry r
  | inr RApply => plain (handleApply id r)
  | inr RRollback => plain (handleRollback id r)
  | inr RApprove => plain (rolloutAction id PermApprove r (λ ro _, Approve env e ro id))
  | inr RReject => plain (rolloutAction id PermApprove r (λ ro _, Reject env ro id))
  | inr RPromote => plain (rolloutAction id PermPromote r (λ ro force, Promote env e ro id force))
  | inr RPause => plain (rolloutAction id PermApply r (λ ro _, Pause env e ro id))
  | inr RResume => plain (rolloutAction id PermApply r (λ ro _, Resume env e ro id))
  | inr RAbort => plain (rolloutAction id PermApply r (λ ro _, Abort env e ro id))
  | inr RVerify => plain (handleVerify id r)
  | inr RFreeze => plain (handleFreeze id r)
  | inr (RStatus rollout) => plain (handleStatus id rollout)
  | inr RFleet => plain (handleFleet id r)
  | inr RHealthz => plain (mret (200, []))
  end.

(** [Handler]: [authMiddleware] around the mux.  The health probe alone passes
    without a credential, as nobody. *)
Definition Handler (registry : list Cluster) (r : Request) : M S (Reply * list Cluster) :=
  if hr_Path r == "/healthz" then mux no_identity registry r
  else
    let token := bearer (hr_Authorization r) in
    match identify token with
    | Some id => if token == "" then mret (writeErr 401 "unauthorized", registry) else mux id registry r
    | None => mret (writeErr 401 "unauthorized", registry)
    end.
End Server.
