(* ===== verification/Grpc.v ===== *)
(** * The gRPC surface

    [internal/grpcapi/server.go]: the interceptor that authenticates every call
    and the RPCs over the engine's operations.  Requests and responses are the
    generated messages' fields. *)

From S2P Require Import Prelude Encoding GoTime Statekit Config Progressive Model Lifecycle Risk Analysis Security.
From S2P Require Import Store World Git ConfigLoad EngineBase EngineGates EngineRollback EngineDeploy Surface.

Inductive Code :=
| InvalidArgument | NotFound | PermissionDenied | Unauthenticated | FailedPrecondition | Aborted | Internal.

(** An error status, or the fields of the response. *)
Definition GReply : Type := ((Code * string) + list (string * any))%type.

Inductive GRequest :=
| GPlan (config : string)
| GApply (config : string)
| GStatus (id : string)
| GRollback (target : string) (force : bool)
| GApprove (id : string)
| GReject (id : string)
| GPromote (id : string) (force : bool)
| GPause (id : string)
| GResume (id : string)
| GAbort (id : string)
| GVerify (id : string)
| GFreeze (active : bool) (reason : string)
| GFleetStatus (filter : string).

(** The conversion to [int32]. *)
Definition int32 (n : Z) : Z := (n + 2 ^ 31) mod 2 ^ 32 - 2 ^ 31.

(** The token of the [authorization] metadata: its first value, with or without
    the scheme. *)
Definition bearerFromMD (values : list string) : string :=
  match values with [] => "" | v :: _ => TrimPrefix v "Bearer " end.

Definition code_of (missing failed : Code) (why : Refusal) : Code * string :=
  match why with
  | Invalid er => (InvalidArgument, err_str er)
  | Denied er => (PermissionDenied, err_str er)
  | Missing er => (missing, err_str er)
  | Failed er => (failed, err_str er)
  end.
Definition answer {A} (missing failed : Code) (fields : A → list (string * any)) (out : Refusal + A) : GReply :=
  match out with inl why => inl (code_of missing failed why) | inr a => inr (fields a) end.

Section Grpc.
Context {S : Type} `{!Store S}.
Notation HW := (EngineDeploy.HW (S := S)).
Context `{!Statechart Phase LifeContext unit, !Statechart StepState StepContext HW}.
Context `{!Yaml} (env : Env) (e : Engine) (fs : FS) (getenv : string → string).
Context (identify : string → option Identity) (policy : Policy).

Definition grpc_Plan (id : Identity) (registry : list Cluster) (config : string) : M S (GReply * list Cluster) :=
  '(out, registry) ← plan_documents env e fs getenv policy id registry config "grpc";
  mret (answer NotFound Internal (λ '(s, summary),
    [("action", AString (ps_action s)); ("changed", ABool (ps_changed s)); ("summary", AString summary);
     ("risk_score", AFloat (ps_score s)); ("needs_approval", ABool (ps_needsApproval s));
     ("sensitive", ABool (ps_sensitive s)); ("recent_failures", AInt (int32 (ps_recentFailures s)));
     ("reason", AString (ps_reason s))]) out, registry).

(** The error is compared with [==], so a wrapped [ErrTargetBusy] is internal. *)
Definition grpc_Apply (id : Identity) (config : string) : M S GReply :=
  out ← apply_document env e policy id config;
  let failed := match out with inl (Failed er) => if er == ErrTargetBusy then Aborted else Internal | _ => Internal end in
  mret (answer NotFound failed (λ rl,
    rollout_fields rl ++ [("risk_score", AFloat (from_option r_RiskScore PrimFloat.zero rl))]) out).

Definition grpc_Status (id : Identity) (ro : string) : M S GReply :=
  answer NotFound Internal (λ rl, rollout_fields (Some rl) ++
    [("strategy", AString (strategy_str (r_Strategy rl))); ("step_index", AInt (int32 (r_StepIndex rl)));
     ("step_total", AInt (int32 (r_StepTotal rl))); ("step_weight", AInt (int32 (r_StepWeight rl)));
     ("note", AString (r_Note rl)); ("risk_score", AFloat (r_RiskScore rl));
     ("actor_kind", AString (id_Kind (r_Initiator rl))); ("actor_name", AString (id_Name (r_Initiator rl)))])
  <$> read_status policy id any_scope (Status ro).

Definition required (what : string) : GReply := inl (InvalidArgument, what +:+ " required").

Definition grpc_Rollback (id : Identity) (target : string) (force : bool) : M S GReply :=
  if target == "" then mret (required "target")
  else answer NotFound FailedPrecondition rollout_fields <$> rollback_target env e policy id target force.

Definition grpc_action (id : Identity) (perm : Permission) (ro : string) (op : M S outcome) : M S GReply :=
  if ro == "" then mret (required "id")
  else answer NotFound FailedPrecondition (λ rl, rollout_fields rl ++ [("note", AString (from_option r_Note "" rl))])
       <$> rollout_action policy id perm ro op.

Definition grpc_Verify (id : Identity) (ro : string) : M S GReply :=
  if ro == "" then mret (required "id")
  else answer NotFound FailedPrecondition (λ rep,
         [("id", AString (vr_RolloutID rep)); ("phase", AString (vr_Phase rep)); ("target", AString (vr_TargetRef rep));
          ("ok", ABool (vr_OK rep)); ("reason", AString (vr_Reason rep)); ("gates", AList (gate_fields <$> vr_Gates rep))])
       <$> verify_rollout env e policy id ro.

Definition grpc_Freeze (id : Identity) (active : bool) (reason : string) : M S GReply :=
  authorized policy id PermFreeze any_scope (λ er, inl (PermissionDenied, err_str er))
    (answer NotFound FailedPrecondition (λ '(active, reason), [("active", ABool active); ("reason", AString reason)])
     <$> set_freeze env e id active reason).

Definition int32_counts (fields : list (string * any)) : list (string * any) :=
  (λ '(k, v), (k, match v with AInt n => AInt (int32 n) | v => v end)) <$> fields.

Definition grpc_FleetStatus (id : Identity) (filter_ : string) : M S GReply :=
  answer InvalidArgument Internal (λ rep, int32_counts (fleet_fields rep))
  <$> read_status policy id any_scope (FleetStatus filter_).

(** An authenticated call. *)
Definition grpc_call (id : Identity) (registry : list Cluster) (req : GRequest) : M S (GReply * list Cluster) :=
  let plain (m : M S GReply) := (r ← m; mret (r, registry)) in
  match req with
  | GPlan config => grpc_Plan id registry config
  | GApply config => plain (grpc_Apply id config)
  | GStatus ro => plain (grpc_Status id ro)
  | GRollback target force => plain (grpc_Rollback id target force)
  | GApprove ro => plain (grpc_action id PermApprove ro (Approve env e ro id))
  | GReject ro => plain (grpc_action id PermApprove ro (Reject env ro id))
  | GPromote ro force => plain (grpc_action id PermPromote ro (Promote env e ro id force))
  | GPause ro => plain (grpc_action id PermApply ro (Pause env e ro id))
  | GResume ro => plain (grpc_action id PermApply ro (Resume env e ro id))
  | GAbort ro => plain (grpc_action id PermApply ro (Abort env e ro id))
  | GVerify ro => plain (grpc_Verify id ro)
  | GFreeze active reason => plain (grpc_Freeze id active reason)
  | GFleetStatus filter_ => plain (grpc_FleetStatus id filter_)
  end.

(** [authInterceptor] around it; [md] are the [authorization] values. *)
Definition grpc_serve (registry : list Cluster) (md : list string) (req : GRequest) : M S (GReply * list Cluster) :=
  let token := bearerFromMD md in
  match identify token with
  | Some id => if token == "" then mret (inl (Unauthenticated, "unauthorized"), registry) else grpc_call id registry req
  | None => mret (inl (Unauthenticated, "unauthorized"), registry)
  end.
End Grpc.
