(* ===== verification/Mcp.v ===== *)
(** * The agent surface

    [internal/mcp]: the tools of [mcp.go] and the hooks of [auth.go] that resolve
    the caller of each request.  A tool gives its output's fields or an error. *)

From S2P Require Import Prelude Encoding GoTime Statekit Config Progressive Model Lifecycle Risk Analysis Security.
From S2P Require Import Store World Git ConfigLoad EngineBase EngineGates EngineRollback EngineDeploy Surface Api.

Definition ErrUnauthenticated : err := Errorf "mcp: no authenticated caller".

Inductive Tool :=
| TPlan (config : string)
| TApply (config : string)
| TRollback (targetRef : string) (force : bool)
| TApprove (id : string)
| TReject (id : string)
| TPromote (id : string) (force : bool)
| TPause (id : string)
| TResume (id : string)
| TAbort (id : string)
| TVerify (id : string)
| TFreeze (active : bool) (reason : string)
| TStatus (id : string)
| TList (limit : Z)
| THistory (targetRef : string)
| TDrift
| TFleet (filter : string).

Definition Output : Type := result (list (string * any)).

Definition error_of (why : Refusal) : err :=
  match why with Invalid er | Denied er | Missing er | Failed er => er end.
Definition output {A} (fields : A → list (string * any)) (out : Refusal + A) : Output :=
  match out with inl why => Err (error_of why) | inr a => Ok (fields a) end.

(** Zero values are left out where the field says [omitempty]. *)
Definition omit_zero (name : string) (f : float) : list (string * any) :=
  if PrimFloat.eqb f PrimFloat.zero then [] else [(name, AFloat f)].
Definition omit_false (name : string) (b : bool) : list (string * any) := if b then [(name, ABool b)] else [].

Definition action_fields (rl : option Rollout) : list (string * any) :=
  [("rollout_id", AString (from_option r_ID "" rl)); ("phase", AString (from_option (phase_str ∘ r_Phase) "" rl));
   ("target", AString (from_option r_TargetRef "" rl))].

Definition status_fields (r : Rollout) : list (string * any) :=
  action_fields (Some r) ++ omit_empty "note" (r_Note r) ++ omit_zero "risk_score" (r_RiskScore r) ++
  omit_empty "actor_kind" (id_Kind (r_Initiator r)) ++ omit_empty "actor_name" (id_Name (r_Initiator r)).

(** [Format] with whole seconds. *)
Definition FormatSeconds (t : Time) : string := FormatRFC3339Nano (t - t mod Second).

Definition history_fields (rec : RolloutRecord) : list (string * any) :=
  [("rollout_id", AString (rr_RolloutID rec)); ("target", AString (rr_TargetRef rec)); ("phase", AString (phase_str (rr_Phase rec)))] ++
  omit_empty "note" (rr_Note rec) ++ omit_empty "actor_kind" (id_Kind (rr_Initiator rec)) ++
  omit_empty "actor_name" (id_Name (rr_Initiator rec)) ++ omit_empty "at" (FormatSeconds (rr_At rec)).

Definition drift_fields (it : DriftItem) : list (string * any) :=
  [("target", AString (di_TargetRef it)); ("phase", AString (phase_str (di_Phase it)))] ++
  omit_empty "desired" (di_Desired it) ++ omit_empty "observed" (di_Observed it) ++ [("drifted", ABool (di_Drifted it))].

Section Mcp.
Context {S : Type} `{!Store S}.
Notation HW := (EngineDeploy.HW (S := S)).
Context `{!Statechart Phase LifeContext unit, !Statechart StepState StepContext HW}.
Context `{!Yaml} (env : Env) (e : Engine) (fs : FS) (getenv : string → string).
Context (identify : string → option Identity) (policy : Policy).

Definition mcp_Plan (id : Identity) (registry : list Cluster) (config : string) : M S (Output * list Cluster) :=
  '(out, registry) ← plan_documents env e fs getenv policy id registry config "mcp";
  mret (output (λ '(s, summary),
    [("action", AString (ps_action s)); ("changed", ABool (ps_changed s)); ("summary", AString summary)] ++
    omit_zero "risk_score" (ps_score s) ++ omit_false "needs_approval" (ps_needsApproval s) ++
    omit_false "sensitive" (ps_sensitive s) ++
    (if ps_recentFailures s =? 0 then [] else [("recent_failures", AInt (ps_recentFailures s))]) ++
    omit_empty "reason" (ps_reason s)) out, registry).

Definition mcp_Apply (id : Identity) (config : string) : M S Output :=
  output (λ rl, action_fields rl ++ omit_zero "risk_score" (from_option r_RiskScore PrimFloat.zero rl))
  <$> apply_document env e policy id config.

Definition mcp_action (id : Identity) (perm : Permission) (ro : string) (op : M S outcome) : M S Output :=
  output (λ rl, action_fields rl ++ omit_empty "note" (from_option r_Note "" rl)) <$> rollout_action policy id perm ro op.

Definition mcp_Verify (id : Identity) (ro : string) : M S Output :=
  output (λ rep, [("rollout_id", AString (vr_RolloutID rep)); ("phase", AString (vr_Phase rep));
                  ("target", AString (vr_TargetRef rep)); ("ok", ABool (vr_OK rep))] ++
                 omit_empty "reason" (vr_Reason rep) ++ [("gates", AList (gate_fields <$> vr_Gates rep))])
  <$> verify_rollout env e policy id ro.

Definition mcp_Freeze (id : Identity) (active : bool) (reason : string) : M S Output :=
  authorized policy id PermFreeze any_scope Err
    (output (λ '(active, reason), [("active", ABool active)] ++ omit_empty "reason" reason)
     <$> set_freeze env e id active reason).

Definition mcp_History (id : Identity) (ref : string) : M S Output :=
  output (λ recs, [("records", AList ((AMap ∘ history_fields) <$> recs))])
  <$> read_status policy id (target_scope ref) (History ref).

Definition mcp_Rollback (id : Identity) (ref : string) (force : bool) : M S Output :=
  output action_fields <$> rollback_target env e policy id ref force.

Definition mcp_Status (id : Identity) (ro : string) : M S Output :=
  output status_fields <$> read_status policy id any_scope (Status ro).

Definition mcp_List (id : Identity) (limit : Z) : M S Output :=
  output (λ rs, [("rollouts", AList ((AMap ∘ status_fields) <$> rs))]) <$> read_status policy id any_scope (List limit).

Definition mcp_Drift (id : Identity) : M S Output :=
  output (λ items, [("items", AList ((AMap ∘ drift_fields) <$> items))]) <$> read_status policy id any_scope DriftReport.

Definition mcp_Fleet (id : Identity) (filter_ : string) : M S Output :=
  output fleet_fields <$> read_status policy id any_scope (FleetStatus filter_).

(** A tool call in a context with a caller ([Tools.caller] found one). *)
Definition mcp_call (id : Identity) (registry : list Cluster) (t : Tool) : M S (Output * list Cluster) :=
  let plain (m : M S Output) := (r ← m; mret (r, registry)) in
  match t with
  | TPlan config => mcp_Plan id registry config
  | TApply config => plain (mcp_Apply id config)
  | TRollback ref force => plain (mcp_Rollback id ref force)
  | TApprove ro => plain (mcp_action id PermApprove ro (Approve env e ro id))
  | TReject ro => plain (mcp_action id PermApprove ro (Reject env ro id))
  | TPromote ro force => plain (mcp_action id PermPromote ro (Promote env e ro id force))
  | TPause ro => plain (mcp_action id PermApply ro (Pause env e ro id))
  | TResume ro => plain (mcp_action id PermApply ro (Resume env e ro id))
  | TAbort ro => plain (mcp_action id PermApply ro (Abort env e ro id))
  | TVerify ro => plain (mcp_Verify id ro)
  | TFreeze active reason => plain (mcp_Freeze id active reason)
  | TStatus ro => plain (mcp_Status id ro)
  | TList limit => plain (mcp_List id limit)
  | THistory ref => plain (mcp_History id ref)
  | TDrift => plain (mcp_Drift id)
  | TFleet filter_ => plain (mcp_Fleet id filter_)
  end.

(** [authorize] rejects a request without a caller before any tool;
    [injectIdentity] puts the caller in the tool's context. *)
Definition injectIdentity (authorization : string) : option Identity :=
  let token := bearer authorization in if token == "" then None else identify token.

Definition mcp_serve (registry : list Cluster) (authorization : string) (t : Tool) : M S (Output * list Cluster) :=
  match injectIdentity authorization with
  | None => mret (Err ErrUnauthenticated, registry)
  | Some id => mcp_call id registry t
  end.
End Mcp.
