(* ===== verification/Ui.v ===== *)
(** * The web console

    [internal/ui/ui.go]: the JSON API of the console.  [who] is the identity the
    daemon's middleware attached to the request, [policy] may be absent, [sync]
    is the on-demand reconcile when it is wired.  The embedded files are served
    as they are; headers are left out. *)

From S2P Require Import Prelude Encoding GoTime Statekit Config Progressive Model Lifecycle Risk Analysis Security.
From S2P Require Import Store World Git ConfigLoad EngineBase EngineGates EngineRollback EngineDeploy Surface Api Mcp.

Inductive URoute :=
| UStatic | UDashboard | UTarget
| UApprove | UReject | UPromote | UPause | UResume | UAbort | UFreeze | URollback | USync.

Definition ui_posts : list (string * URoute) :=
  [("/ui/api/approve", UApprove); ("/ui/api/reject", UReject); ("/ui/api/promote", UPromote);
   ("/ui/api/pause", UPause); ("/ui/api/resume", UResume); ("/ui/api/abort", UAbort);
   ("/ui/api/freeze", UFreeze); ("/ui/api/rollback", URollback); ("/ui/api/sync", USync)].

(** Everything below [/ui/] is the page unless a pattern is more precise. *)
Definition ui_route (method path : string) : Z + URoute :=
  let reads := (method == "GET") || (method == "HEAD") in
  if clean_path path != path then inl 301
  else match head (filter (λ pr, pr.1 = path) ui_posts) with
  | Some (_, r) => if method == "POST" then inr r else if reads then inr UStatic else inl 405
  | None =>
      if negb (HasPrefix path "/ui/" || (path == "/ui")) then inl 404
      else if negb reads then inl 405
      else if path == "/ui/api/dashboard" then inr UDashboard
      else if path == "/ui/api/target" then inr UTarget
      else inr UStatic
  end.

Definition principal (id : Identity) : string := id_Kind id +:+ "/" +:+ id_Name id.

Definition rolloutJSON (rl : Rollout) : any := AMap
  [("id", AString (r_ID rl)); ("target", AString (r_TargetRef rl)); ("phase", AString (phase_str (r_Phase rl)));
   ("strategy", AString (strategy_str (r_Strategy rl))); ("by", AString (principal (r_Initiator rl)));
   ("byKind", AString (id_Kind (r_Initiator rl))); ("risk", AFloat (r_RiskScore rl));
   ("at", AString (FormatSeconds (r_UpdatedAt rl))); ("stepIndex", AInt (r_StepIndex rl));
   ("stepTotal", AInt (r_StepTotal rl)); ("stepWeight", AInt (r_StepWeight rl))].

Definition driftJSON (d : DriftItem) : any := AMap
  [("target", AString (di_TargetRef d)); ("phase", AString (phase_str (di_Phase d))); ("desired", AString (di_Desired d));
   ("observed", AString (di_Observed d)); ("drifted", ABool (di_Drifted d))].

Definition historyJSON (rec : RolloutRecord) : any := AMap
  [("at", AString (FormatSeconds (rr_At rec))); ("phase", AString (phase_str (rr_Phase rec)));
   ("rollout", AString (rr_RolloutID rec)); ("by", AString (principal (rr_Initiator rec)));
   ("byKind", AString (id_Kind (rr_Initiator rec))); ("note", AString (rr_Note rec))].

Definition phase_counts (rs : list Rollout) : gmap string Z :=
  foldl (λ m r, let p := phase_str (r_Phase r) in <[p := default 0 (m !! p) + 1]> m) ∅ rs.

Definition ok_reply : Reply := (200, [("ok", ABool true)]).

Section Ui.
Context {S : Type} `{!Store S}.
Notation HW := (EngineDeploy.HW (S := S)).
Context `{!Statechart Phase LifeContext unit, !Statechart StepState StepContext HW}.
Context `{!Bodies} (env : Env) (e : Engine) (policy : option Policy) (sync : option (M S (option err))).

(** [Server.authorize], with the forbidden reply of its callers. *)
Definition ui_authorized (id : Identity) (perm : Permission) (s : Scope) (k : M S Reply) : M S Reply :=
  match policy with
  | None => mret (writeErr 403 "forbidden")
  | Some p => authorized p id perm s (λ _, writeErr 403 "forbidden") k
  end.

Definition with_identity (who : option Identity) (k : Identity → M S Reply) : M S Reply :=
  match who with None => mret (writeErr 401 "unauthorized") | Some id => k id end.

(** [rolloutByID]: among the newest two hundred. *)
Definition rolloutByID (ro : string) : M S (option Rollout) :=
  rs ← List 200;
  mret (match rs with Err _ => None | Ok rs => head (filter (λ r, r_ID r = ro) rs) end).

Definition by_id (id : Identity) (perm : Permission) (r : Request) (op : string → M S outcome) : M S Reply :=
  with_id r (λ ro _,
    found ← rolloutByID ro;
    match found with
    | None => mret (writeErr 404 "rollout not found")
    | Some rl =>
        ui_authorized id perm (target_scope (r_TargetRef rl))
          ('(_, er) ← op ro;
           mret (match er with Some er => writeErr 400 (err_str er) | None => ok_reply end))
    end).

Definition actByID (who : option Identity) (perm : Permission) (r : Request) (op : string → Identity → M S outcome) : M S Reply :=
  with_identity who (λ id, by_id id perm r (λ ro, op ro id)).

(** The console never forces. *)
Definition apiPromote (who : option Identity) (r : Request) : M S Reply :=
  with_identity who (λ id, by_id id PermPromote r (λ ro, Promote env e ro id false)).

Definition apiFreeze (who : option Identity) (r : Request) : M S Reply :=
  with_identity who (λ id, ui_authorized id PermFreeze any_scope
    (match hr_Body r with
     | Err _ => mret (writeErr 400 "invalid body")
     | Ok body =>
         match json_active_reason (limited body) with
         | None => mret (writeErr 400 "invalid body")
         | Some (active, reason) =>
             '(_, er) ← SetFreeze env e active id reason;
             mret (match er with Some er => writeErr 400 (err_str er) | None => ok_reply end)
         end
     end)).

Definition apiRollback (who : option Identity) (r : Request) : M S Reply :=
  with_identity who (λ id,
    match hr_Body r with
    | Err _ => mret (writeErr 400 "target required")
    | Ok body =>
        match json_target_force (limited body) with
        | None => mret (writeErr 400 "target required")
        | Some (target, force) =>
            if target == "" then mret (writeErr 400 "target required")
            else ui_authorized id PermRollback (target_scope target)
              ('(_, er) ← RollbackLast env e target force;
               mret (match er with Some er => writeErr 400 (err_str er) | None => ok_reply end))
        end
    end).

Definition apiSync (who : option Identity) : M S Reply :=
  with_identity who (λ id, ui_authorized id PermApply any_scope
    (match sync with
     | None => mret (writeErr 501 "sync not available")
     | Some run => check run catch er => mret (writeErr 500 (err_str er)); mret ok_reply
     end)).

Definition can_sync : bool := match sync with Some _ => true | None => false end.

Definition apiDashboard : M S Reply :=
  get rs <- List 100 catch er => mret (writeErr 500 (err_str er));
  drift ← DriftReport;
  '(frozen, reason) ← FreezeStatus e;
  mret (200, [("counts", AMap (prod_map id AInt <$> map_to_list (phase_counts rs)));
              ("drift", AList (driftJSON <$> match drift with Ok l => l | Err _ => [] end));
              ("rollouts", AList (rolloutJSON <$> rs)); ("canSync", ABool can_sync); ("frozen", ABool frozen)] ++
             omit_empty "freezeReason" reason).

Definition resourceJSON (r : Resource) : any := AMap
  [("kind", AString (rs_Kind r)); ("name", AString (rs_Name r)); ("namespace", AString (rs_Namespace r));
   ("status", AString (rs_Status r)); ("parent", AString (rs_Parent r))].

Definition apiTarget (r : Request) : M S Reply :=
  let ref := default "" (hr_Query r !! "ref") in
  if ref == "" then mret (writeErr 400 "ref required")
  else
    get rs <- List 200 catch er => mret (writeErr 500 (err_str er));
    match head (filter (λ r, r_TargetRef r = ref) rs) with
    | None => mret (writeErr 404 "no rollouts for target")
    | Some latest =>
        drift ← DriftReport;
        diff ← Diff env (r_ID latest);
        res ← Resources env (r_ID latest);
        recs ← History ref;
        let drifted := match drift with
                       | Ok l => from_option di_Drifted false (head (filter (λ d, di_TargetRef d = ref) l))
                       | Err _ => false
                       end in
        mret (200, [("ref", AString ref); ("rollout", AMap
                      [("id", AString (r_ID latest)); ("phase", AString (phase_str (r_Phase latest)));
                       ("strategy", AString (strategy_str (r_Strategy latest))); ("desired", AString (m_Checksum (r_Desired latest)));
                       ("risk", AFloat (r_RiskScore latest)); ("at", AString (FormatSeconds (r_UpdatedAt latest)));
                       ("stepIndex", AInt (r_StepIndex latest)); ("stepTotal", AInt (r_StepTotal latest));
                       ("stepWeight", AInt (r_StepWeight latest))]);
                    ("diff", AString (match diff with Ok d => d | Err _ => "" end));
                    ("diffNote", AString (match diff with
                                          | Ok _ => ""
                                          | Err er => if errors_Is er ErrUnsupported then "this target type does not support diff" else err_str er
                                          end));
                    ("resources", AList (resourceJSON <$> match res with Ok l => l | Err _ => [] end));
                    ("history", AList (historyJSON <$> match recs with Ok l => l | Err _ => [] end));
                    ("awaiting", ABool (bool_decide (r_Phase latest = PhaseAwaitingApproval)));
                    ("drifted", ABool drifted); ("canSync", ABool can_sync)])
    end.

Definition ui_serve (who : option Identity) (r : Request) : M S Reply :=
  match ui_route (hr_Method r) (hr_Path r) with
  | inl status => mret (status, [])
  | inr UStatic => mret (200, [])
  | inr UDashboard => apiDashboard
  | inr UTarget => apiTarget r
  | inr UApprove => actByID who PermApprove r (Approve env e)
  | inr UReject => actByID who PermApprove r (Reject env)
  | inr UPromote => apiPromote who r
  | inr UPause => actByID who PermApply r (Pause env e)
  | inr UResume => actByID who PermApply r (Resume env e)
  | inr UAbort => actByID who PermApply r (Abort env e)
  | inr UFreeze => apiFreeze who r
  | inr URollback => apiRollback who r
  | inr USync => apiSync who
  end.
End Ui.
