(* ===== verification/Daemon.v ===== *)
(** * The daemon

    [cmd/rollopsd/main.go]: the authenticators, the policy and the tokens built
    from the environment and rebuilt on SIGHUP, the console's gate, the watched
    repositories, and what serves a message or an event.  The file system is
    [files], JSON and YAML decoding and the session service of the auth library
    are arguments. *)

From S2P Require Import Prelude Encoding GoTime Statekit Config Progressive Model Lifecycle Depgraph Risk Analysis Security Auth Store.
From S2P Require Import World Git ConfigLoad ImageSelect Transport ImageAuto EngineBase EngineGates EngineRollback EngineDeploy Reap Reconcile Watch.
From S2P Require Import Security Surface Api Grpc Mcp Ui.

(** What the daemon reads with. *)
Class Host := {
  files : string → result string;                            (* [os.ReadFile] *)
  getenv : string → string;
  yaml_policy : string → result (option policyFile);          (* [None] is an empty file *)
  json_tokens : string → result (gmap string string);
}.

Section Build.
Context `{!Host}.

(** ** MCP tokens *)
Definition agent_of (name : string) : Identity := {| id_Kind := "agent"; id_Name := name; id_Groups := [] |}.

Definition parseMCPTokens (raw source : string) : result TokenAuth :=
  if TrimSpace raw == "" then Ok ∅
  else match json_tokens raw with
       | Err er => Err (Wrap (source +:+ " is not valid JSON: ") er "")
       | Ok m => Ok (map_imap (λ tok name, if (tok == "") || (name == "") then None else Some (agent_of name)) m)
       end.

Definition loadMCPTokens : result TokenAuth :=
  let path := getenv "ROLLOPS_MCP_TOKENS_FILE" in
  if path != "" then
    match files path with
    | Err er => Err (Wrap ("read ROLLOPS_MCP_TOKENS_FILE " +:+ quote path +:+ ": ") er "")
    | Ok raw => parseMCPTokens raw ("ROLLOPS_MCP_TOKENS_FILE " +:+ path)
    end
  else parseMCPTokens (getenv "ROLLOPS_MCP_TOKENS") "ROLLOPS_MCP_TOKENS".

(** ** The policy *)
Definition LoadPolicyFile (p : Policy) (path : string) : Policy * option err :=
  match files path with
  | Err er => (p, Some (Wrap "security: read policy file: " er ""))
  | Ok data =>
      match yaml_policy data with
      | Err er => (p, Some (Wrap "security: parse policy file: " er ""))
      | Ok pf => ApplyPolicyFile p pf
      end
  end.

Definition bind_groups (oidcOn : bool) (p : Policy) : Policy :=
  if negb oidcOn then p
  else
    let admins := envOr getenv "ROLLOPS_OIDC_ADMIN_GROUP" "rollops-admins" in
    let p := if admins != "" then Bind p ("group:" +:+ admins) [RoleAdmin] else p in
    let agents := getenv "ROLLOPS_OIDC_AGENT_GROUP" in
    if agents != "" then Bind p ("group:" +:+ agents) [RoleAgent] else p.

Definition buildPolicy (oidcOn : bool) : result Policy :=
  let pf := getenv "ROLLOPS_POLICY_FILE" in
  if pf != "" then
    match LoadPolicyFile DefaultRBACPolicy pf with
    | (_, Some er) => Err er
    | (p, None) => Ok (bind_groups oidcOn p)
    end
  else Ok (bind_groups oidcOn DefaultRBACPolicy).

(** ** OIDC

    [discover] is [api.DiscoverJWKSURL] and [keys] the key cache of a URL. *)
Definition buildOIDCAuth (discover : string → result string) (keys : string → string → result PublicKey) : option OIDCConfig :=
  let issuer := getenv "ROLLOPS_OIDC_ISSUER" in
  let audience := getenv "ROLLOPS_OIDC_AUDIENCE" in
  if (issuer == "") || (audience == "") then None
  else
    let url := getenv "ROLLOPS_OIDC_JWKS_URL" in
    let url := if (url == "") && (getenv "ROLLOPS_OIDC_DISCOVER" != "")
               then match discover issuer with Ok u => u | Err _ => url end else url in
    let secret := getenv "ROLLOPS_OIDC_HS256_SECRET" in
    if url != "" then Some {| oi_Issuer := issuer; oi_Audience := audience; oi_HMACSecret := ""; oi_Keys := Some (keys url) |}
    else if secret != "" then Some {| oi_Issuer := issuer; oi_Audience := audience; oi_HMACSecret := secret; oi_Keys := None |}
    else None.

(** The bootstrap admin token. *)
Definition admin : Identity := {| id_Kind := "human"; id_Name := "admin"; id_Groups := [] |}.
Definition adminTokens : TokenAuth :=
  let tok := getenv "ROLLOPS_ADMIN_TOKEN" in if tok != "" then {[ tok := admin ]} else ∅.

(** ** SIGHUP

    The policy and the MCP tokens in force, before and after; a part that does
    not load keeps its value. *)
Definition reload (oidcOn : bool) (current : Policy * TokenAuth) : Policy * TokenAuth :=
  let '(policy, tokens) := current in
  (match buildPolicy oidcOn with Ok fresh => ReplaceWith policy fresh | Err _ => policy end,
   match loadMCPTokens with Ok fresh => Replace tokens (Some fresh) | Err _ => tokens end).

(** At the start a policy that does not load stops the daemon, tokens that do not
    load are none. *)
Definition boot (oidcOn : bool) : result (Policy * TokenAuth) :=
  try policy <- buildPolicy oidcOn;
  Ok (policy, match loadMCPTokens with Ok tokens => tokens | Err _ => ∅ end).

(** ** Watched repositories *)
Record watchEntry := {
  we_Name : string; we_URL : string; we_Branch : string; we_Path : string;
  we_Token : string; we_TokenFile : string; we_DeployKeyPath : string;
  we_GitHubAppID : string; we_GitHubInstallationID : string; we_GitHubAppPrivateKeyFile : string;
}.

(** [git.Auth]; [App] stands for the token source of a GitHub App. *)
Record GitAuth {App : Type} := { ga_Token : string; ga_DeployKeyPath : string; ga_TokenSource : option App }.

Record WatchSpec {App : Type} := { ws_Spec : RepoSpec; ws_Path : string; ws_Auth : GitAuth (App := App) }.

Section Specs.
Context {App : Type} (NewGitHubApp : string → string → string → result App) (json_specs : string → result (list watchEntry)).

Definition watch_token (r : watchEntry) : result string :=
  if we_TokenFile r == "" then Ok (we_Token r)
  else match files (we_TokenFile r) with
       | Err er => Err (Wrap ("watch repo " +:+ quote (we_Name r) +:+ ": read tokenFile: ") er "")
       | Ok b => Ok (TrimSpace b)
       end.

Definition watch_app (r : watchEntry) : result (option App) :=
  let repo := "watch repo " +:+ quote (we_Name r) in
  let id := we_GitHubAppID r in
  let inst := we_GitHubInstallationID r in
  let key := we_GitHubAppPrivateKeyFile r in
  if (id == "") && (inst == "") && (key == "") then Ok None
  else if (id == "") || (inst == "") || (key == "") then
    Err (Errorf (repo +:+ ": githubAppId, githubInstallationId, and githubAppPrivateKeyFile are required together"))
  else match files key with
       | Err er => Err (Wrap (repo +:+ ": read githubAppPrivateKeyFile: ") er "")
       | Ok pem => match NewGitHubApp id inst pem with
                   | Err er => Err (Wrap (repo +:+ ": github app: ") er "")
                   | Ok app => Ok (Some app)
                   end
       end.

Definition reconciler : Identity := {| id_Kind := "ci"; id_Name := "reconciler"; id_Groups := [] |}.

Definition watch_spec (r : watchEntry) : result (WatchSpec (App := App)) :=
  try token <- watch_token r;
  try app <- watch_app r;
  Ok {| ws_Spec := {| rs_Name := we_Name r; rs_URL := we_URL r; rs_Branch := we_Branch r; rs_Initiator := reconciler |};
        ws_Path := we_Path r;
        ws_Auth := {| ga_Token := token; ga_DeployKeyPath := we_DeployKeyPath r; ga_TokenSource := app |} |}.

Fixpoint watch_specs (rs : list watchEntry) : result (list (WatchSpec (App := App))) :=
  match rs with
  | [] => Ok []
  | r :: rs => try s <- watch_spec r; try ss <- watch_specs rs; Ok (s :: ss)
  end.

Definition loadWatchSpecs (path : string) : result (list (WatchSpec (App := App))) :=
  if path == "" then Ok []
  else match files path with
       | Err er => Err (Wrap "read watch config: " er "")
       | Ok data => match json_specs data with
                    | Err er => Err (Wrap "parse watch config: " er "")
                    | Ok raw => watch_specs raw
                    end
       end.
End Specs.
End Build.

(** ** The console's gate *)

(** The session service of the auth library, with its clock. *)
Class Sessions (Sess : Type) := {
  session_Validate : Time → string → Sess → bool * Sess;     (* of a well-formed token, else false *)
  session_Issue : Time → Sess → result string * Sess;
}.

Record ConsoleRequest := { cr_Request : Request; cr_Cookie : option string }.

(** [Request.BasicAuth]. *)
Definition BasicAuth (h : string) : option (string * string) :=
  if negb (ToLower (str_take 6 h) == "basic ") then None
  else match DecodeString StdEncoding (str_drop 6 h) with
       | None => None
       | Some cs => match IndexByte cs colon with
                    | None => None
                    | Some i => Some (str_take i cs, str_drop (S i) cs)
                    end
       end.

Section Console.
Context `{!Host, !Crypto} {Sess : Type} `{!Sessions Sess}.

Definition ui_user : string := envOr getenv "ROLLOPS_UI_USER" "admin".
Definition ui_pass : string := getenv "ROLLOPS_UI_PASSWORD".
Definition uiIdentity : Identity := {| id_Kind := "human"; id_Name := ui_user; id_Groups := [] |}.

(** The cookie of a session, when there is one and it is valid. *)
Definition cookie_ok (t : Time) (r : ConsoleRequest) (s : Sess) : bool * Sess :=
  match cr_Cookie r with Some tok => session_Validate t tok s | None => (false, s) end.

Definition password_ok (r : ConsoleRequest) : bool :=
  match BasicAuth (hr_Authorization (cr_Request r)) with
  | None => false
  | Some (u, p) => (u == ui_user) && (p == ui_pass)
  end.

(** A status, or the identity the console is entered with and the cookie that is
    set. *)
Definition basicAuth (t : Time) (r : ConsoleRequest) (s : Sess) : (Z + Identity * option string) * Sess :=
  if ui_pass == "" then (inl 403, s)
  else
    let '(ok, s) := cookie_ok t r s in
    if (ok : bool) then (inr (uiIdentity, None), s)
    else if negb (password_ok r) then (inl 401, s)
    else match session_Issue t s with
         | (Err _, s) => (inl 500, s)
         | (Ok tok, s) => (inr (uiIdentity, Some tok), s)
         end.

Definition uiAuth (oidc : option OIDCConfig) (t : Time) (r : ConsoleRequest) (s : Sess) : (Z + Identity * option string) * Sess :=
  match oidc with
  | None => basicAuth t r s
  | Some cfg =>
      match oidc_Identify cfg t (bearer (hr_Authorization (cr_Request r))) with
      | Some id => if id_Name id != "" then (inr (id, None), s) else basicAuth t r s
      | None => basicAuth t r s
      end
  end.

(** Console requests one after another; whom each let in, with which cookie. *)
Fixpoint console_visits (oidc : option OIDCConfig) (rs : list (Time * ConsoleRequest)) (s : Sess) : list (Z + Identity * option string) :=
  match rs with
  | [] => []
  | (t, r) :: rs => let '(out, s) := uiAuth oidc t r s in out :: console_visits oidc rs s
  end.
End Console.

(** ** Messages *)

(** A message to the daemon: an HTTP request with whether its connection has a
    verified client certificate, a gRPC call with its [authorization] metadata, a
    tool call with its [Authorization] header, or a console request. *)
Inductive Message :=
| Http (verified : bool) (r : Request)
| GrpcCall (md : list string) (req : GRequest)
| ToolCall (authorization : string) (t : Tool)
| Console (r : ConsoleRequest).

(** What the daemon holds in memory when a message arrives. *)
Record Memory {Sess : Type} := {
  mm_now : Time;
  mm_clientCA : bool;
  mm_registry : list Cluster;
  mm_policy : Policy;
  mm_admin : TokenAuth;
  mm_oidc : option OIDCConfig;
  mm_mcp : TokenAuth;
  mm_sessions : Sess;
  mm_watcher : option (Watcher * list RepoSpec);
}.

Section Serve.
Context {S : Type} `{!Store S}.
Notation HW := (EngineDeploy.HW (S := S)).
Context `{!Statechart Phase LifeContext unit, !Statechart StepState StepContext HW}.
Context `{!Host, !Crypto, !Yaml, !Bodies} {Sess : Type} `{!Sessions Sess} (env : Env) (e : Engine) (fs : FS).
Notation Memory := (Memory (Sess := Sess)).

Definition httpAuth (mem : Memory) : string → option Identity :=
  match mm_oidc mem with
  | None => token_Identify (mm_admin mem)
  | Some cfg => chain_Identify [token_Identify (mm_admin mem); oidc_Identify cfg (mm_now mem)]
  end.

(** Who a message comes from. *)
Definition caller (mem : Memory) (m : Message) : option Identity :=
  let known identify token := if token == "" then None else (identify : string → option Identity) token in
  match m with
  | Http _ r => known (httpAuth mem) (bearer (hr_Authorization r))
  | GrpcCall md _ => known (token_Identify (mm_admin mem)) (bearerFromMD md)
  | ToolCall authorization _ => known (swappable_Identify (Some (mm_mcp mem))) (bearer authorization)
  | Console r => match (uiAuth (mm_oidc mem) (mm_now mem) r (mm_sessions mem)).1 with inr (id, _) => Some id | inl _ => None end
  end.

(** [requireClientCertIfConfigured] around the HTTP surface. *)
Definition requireClientCertIfConfigured {A} (mem : Memory) (verified : bool) (refuse : A) (next : M S A) : M S A :=
  if negb (mm_clientCA mem) then next
  else if negb verified then mret refuse else next.

(** "Sync now": a tick of the watcher, whose outcomes are dropped. *)
Definition sync_now (mem : Memory) : option (M S (option err)) :=
  Some (match mm_watcher mem with
        | Some (wt, repos) => TickHint env wt "" repos;; mret None
        | None => mret None
        end).

(** Serving a message; the registry is what planning reloads. *)
Definition deliver (mem : Memory) (m : Message) : M S (list Cluster) :=
  match m with
  | Http verified r =>
      requireClientCertIfConfigured mem verified (mm_registry mem)
        (snd <$> Handler env e fs getenv (httpAuth mem) (mm_policy mem) (mm_registry mem) r)
  | GrpcCall md req =>
      snd <$> grpc_serve env e fs getenv (token_Identify (mm_admin mem)) (mm_policy mem) (mm_registry mem) md req
  | ToolCall authorization t =>
      snd <$> mcp_serve env e fs getenv (swappable_Identify (Some (mm_mcp mem))) (mm_policy mem) (mm_registry mem) authorization t
  | Console r =>
      match (uiAuth (mm_oidc mem) (mm_now mem) r (mm_sessions mem)).1 with
      | inl _ => mret (mm_registry mem)
      | inr (id, _) => (λ _, mm_registry mem) <$> ui_serve env e (Some (mm_policy mem)) (sync_now mem) (Some id) (cr_Request r)
      end
  end.

(** ** Everything that happens to the daemon *)
Inductive Event :=
| Served (m : Message)
| Polled                                  (* the watcher's timer *)
| Hooked (r : HookRequest)                (* GitHub's webhook *)
| Fired (at_ : Time).                     (* the schedule loop's timer *)

Definition tick_drop (mem : Memory) (hint : string) : M S unit :=
  match mm_watcher mem with
  | Some (wt, repos) => TickHint env wt hint repos;; mret tt
  | None => mret tt
  end.

(** [tickAndRecord]; its metrics are in [Probes], here is only the listing
    they are computed from. *)
Definition tickAndRecord (wt : Watcher) (repos : list RepoSpec) : M S Watcher :=
  '(os, wt) ← TickHint env wt "" repos;
  wt ← logOutcomes env wt os;
  get _ <- List 0 catch _ => mret wt;
  _ ← now env;
  mret wt.

Definition happen (mem : Memory) (ev : Event) : M S unit :=
  match ev with
  | Served m => deliver mem m;; mret tt
  | Polled => match mm_watcher mem with
              | Some (wt, repos) => tickAndRecord wt repos;; mret tt
              | None => mret tt
              end
  | Hooked r => WebhookHandler env (getenv "ROLLOPS_WEBHOOK_SECRET") (tick_drop mem) r;; mret tt
  | Fired at_ => FireDueSchedules env e at_;; mret tt
  end.

(** A history of the daemon: each event with the memory it finds. *)
Fixpoint history_runs (es : list (Memory * Event)) : M S unit :=
  match es with
  | [] => mret tt
  | (mem, ev) :: es => happen mem ev;; history_runs es
  end.
End Serve.
