(* ===== verification/LoadScenario.v ===== *)
(** * Loading: documents and file systems to evaluate on

    A decoder whose documents are short texts and a few file systems, with the
    witnesses of [ConfigLoad] and two executions that differ from what the
    sources' comments say. *)

From S2P Require Import Prelude Encoding GoTime Config Progressive Model Risk Security Store World Git ConfigLoad.
From S2P Require Import EngineBase EngineDeploy Scenario.

(** A config is the name of its target; [raw] is what the template encodes to
    and [order] how a map is walked. *)
#[local] Instance texts (raw : string) (order : list string) : Yaml := {
  yaml_head := λ s, Ok (Config.SchemaVersion, if s == "set" then KindRolloutSet else "");
  yaml_set := λ _, Err ErrNotFound;
  yaml_clusters := λ _, Err ErrNotFound;
  yaml_marshal := λ _, Ok raw;
  load := λ s, Ok (Scenario.service s "img:1" Scenario.rolling true);
  sprint := λ _, "";
  map_order := λ _, order;
}.

Definition a_set : rolloutSetDoc := {|
  rs_APIVersion := Config.SchemaVersion; rs_Metadata := {| Config.md_Name := "fleet"; Config.md_Labels := ∅ |};
  rs_Generators := []; rs_Template := None |}.
Definition template : gmap string any := {[ "spec" := ANil ]}.
Definition named (name : string) : gmap string any := {[ "name" := AString name ]}.

Lemma set_expands_witness :
  match @expandFromElements (texts "app-{{name}}" ["name"]) a_set template "fleet.yaml" [named "east"; named "west"] with
  | Ok out => NoDup (target_ref ∘ nc_Config <$> out) ∧ (target_ref ∘ nc_Config <$> out) = ["app-east"; "app-west"]
  | Err _ => False
  end.
Proof.
  destruct (@expandFromElements (texts "app-{{name}}" ["name"]) a_set template "fleet.yaml" [named "east"; named "west"])
    as [out|er] eqn:He.
  - split.
    + apply (@set_expands_to_one_target_per_element (texts "app-{{name}}" ["name"]) a_set template "fleet.yaml"
        [named "east"; named "west"] out He).
    + vm_compute in He. injection He as <-. vm_compute. reflexivity.
  - vm_compute in He. discriminate He.
Defined.

(** A value that is itself a placeholder is replaced or not depending on the
    order in which the map was walked. *)
Definition nested : gmap string any := <["a" := AString "{{b}}"]> (<["b" := AString "y"]> (named "x")).
Example expansion_depends_on_map_order :
  target_ref <$> (match @expandOne (texts "{{a}}" ["b"; "a"; "name"]) a_set template nested "x" with Ok c => Some c | Err _ => None end) = Some "y" ∧
  @expandOne (texts "{{a}}" ["a"; "b"; "name"]) a_set template nested "x" = Err (Errorf "unknown placeholder {{b}}").
Proof. vm_compute. auto. Qed.

(** A checkout with a directory of two configs and another file.  With [linked]
    the directory is a link to somewhere else. *)
Definition files (linked : bool) : FS := {|
  fs_lstat := λ p, if p == "/co/apps" then Ok (if linked then MSymlink else MDirectory)
                   else if HasPrefix p "/co/apps/" then Ok MRegular else Err ErrNotFound;
  fs_read := λ p, Ok (Security.Base p);
  fs_stat_dir := λ p, if p == "/co/apps" then Ok true else Err ErrNotFound;
  fs_readdir := λ p, Ok [("a.yaml", false); ("b.yml", false); ("notes.md", false); ("old.yaml", true)] |}.
Definition apps : RepoRef := {| rr_URL := ""; rr_Branch := ""; rr_Path := "../x/../apps" |}.

Lemma files_plain_names linked : plain_names (files linked).
Proof.
  intros d entries e [= <-] He. repeat (apply elem_of_cons in He as [-> | He]); [..|by apply elem_of_nil in He];
    (do 3 (split; [done|])); vm_compute; repeat split; done.
Qed.


(** A configured path that is a link to a directory is followed: only the files
    in it are looked at without following links. *)
Example a_linked_directory_is_followed :
  fs_lstat (files true) "/co/apps" = Ok MSymlink ∧
  is_ok (@LoadAllFromDir (texts "" []) (files true) [] "/co" apps) = true.
Proof. vm_compute. auto. Qed.
