(* ===== verification/Validate.v ===== *)
(** * Validating a configuration

    [Validate] of [internal/config/validate.go]: the published JSON schema, then
    the rules the schema cannot express, every problem reported.  The schema
    validator and the CEL compiler are third-party code and arguments here.
    [problem] says rule by rule what is wrong with a configuration; the theorems
    show the validation reports exactly that, and that a configuration it
    accepts cannot fail the engine for its form. *)

From S2P Require Import Prelude GoTime TimeParse Statekit Config Progressive Model Lifecycle Risk Analysis Security Store.
From S2P Require Import World EngineBase EngineGates EngineRollback EngineDeploy Scenario.
From Stdlib Require PrimFloat.
Import Config.

(** ** Reading decoded values *)
Definition has_key (m : list (string * any)) (k : string) : bool :=
  match any_at m k with Some _ => true | None => false end.

(** [errors.Join]: nil when there is nothing to join. *)
Definition newline : string := String (Ascii.ascii_of_nat 10) "".
Definition errors_Join (errs : list err) : option err :=
  match errs with [] => None | _ => Some (Errorf (Join (err_str <$> errs) newline)) end.

(** Appends an error when the condition holds. *)
Definition when (b : bool) (er : err) : list err := if b then [er] else [].
Definition when_err (o : option err) (pre : string) : list err :=
  match o with Some er => [Wrap pre er ""] | None => [] end.

Section Validate.
Context (cel : string → result celAst) (cel_vars : list string → string → result celAst).

(** ** The rules *)
Definition validateStrategy (path : string) (s : Strategy) : list err :=
  when ((sy_Type s == "canary") && (length (sy_Steps s) =? 0)%nat)
    (Errorf ("config: " +:+ path +:+ ": canary strategy requires at least one step")).

Definition env_path (i : nat) : string := "environments[" +:+ pretty i +:+ "].strategy".

Definition validateEnvironments (envs : list Environment) : list err :=
  mjoin (imap (λ i e, match ev_Strategy e with Some s => validateStrategy (env_path i) s | None => [] end) envs).

Definition validateRiskHistory (h : RiskHistory) : list err :=
  when (rh_Lookback h <? 0) (Errorf "config: risk.history.lookback must be >= 0") ++
  when (PrimFloat.ltb (rh_Weight h) PrimFloat.zero || PrimFloat.ltb PrimFloat.one (rh_Weight h))
    (Errorf "config: risk.history.weight must be between 0 and 1") ++
  when (rh_MaxFailures h <? 0) (Errorf "config: risk.history.maxFailures must be >= 0").

Definition duration_err (path text : string) : list err :=
  if text == "" then []
  else match ParseDuration text with
       | Ok _ => []
       | Err er => [Wrap ("config: " +:+ path +:+ " " +:+ quote text +:+ " is not a Go duration: ") er ""]
       end.

Definition validateDatabaseCommand (path : string) (db : DatabaseRollback) : list err :=
  when ((length (db_Command db) =? 0)%nat) (Errorf ("config: " +:+ path +:+ ".command must not be empty")) ++
  duration_err (path +:+ ".timeout") (db_Timeout db).

Definition validateMigrate (m : DatabaseRollback) : list err :=
  validateDatabaseCommand "database.migrate" m ++
  when (negb ((db_When m == "") || (db_When m == MigratePreDeploy) || (db_When m == MigratePostPromote)))
    (Errorf ("config: database.migrate.when " +:+ quote (db_When m) +:+ " must be " +:+ MigratePreDeploy +:+ " | " +:+
             MigratePostPromote)).

Definition validateDbRollback (rb : DatabaseRollback) : list err :=
  validateDatabaseCommand "database.rollback" rb ++
  when (db_When rb != "") (Errorf "config: database.rollback.when is not valid; when applies only to database.migrate").

Definition optional {A} (f : A → list err) (o : option A) : list err :=
  match o with Some x => f x | None => [] end.

Definition validateDatabase (d : Database) : list err :=
  optional validateMigrate (dbs_Migrate d) ++ optional validateDbRollback (dbs_Rollback d).

(** [analysis.New(nil, ...)]: the provider is not asked. *)
Definition no_provider : MetricsProvider unit := {| mp_Query := λ _ w, (Err (Errorf ""), w); mp_Series := None |}.

Definition check_template (a : Config.Analysis) : Template := {|
  te_Metrics := (λ m, {| me_Name := am_Name m; me_Query := am_Query m; me_Aggregation := am_Aggregation m |}) <$> an_Metrics a;
  te_Condition := an_Condition a; te_Interval := 0; te_Count := an_Count a; te_FailureLimit := an_FailureLimit a |}.

Definition validateAnalysis (a : Config.Analysis) : list err :=
  (if an_Plugin a != "" then
     when (an_SHA256 a == "") (Errorf "config: analysis.sha256 pin is required when analysis.plugin is set")
   else
     when (an_Provider a != "prometheus")
       (Errorf ("config: analysis.provider " +:+ quote (an_Provider a) +:+
                " is unsupported without a plugin (built-in: prometheus; else set analysis.plugin)")) ++
     when ((an_Provider a == "prometheus") && (TrimSpace (an_Address a) == ""))
       (Errorf "config: analysis.address is required for prometheus")) ++
  duration_err "analysis.interval" (an_Interval a) ++
  match NewAnalyzer cel_vars no_provider (check_template a) with
  | Ok _ => []
  | Err er => [Wrap "config: analysis: " er ""]
  end.

Definition validateFeatureFlags (f : FeatureFlags) : list err :=
  when (ff_Plugin f == "") (Errorf "config: featureFlags.plugin (binary path) is required") ++
  when (ff_SHA256 f == "") (Errorf "config: featureFlags.sha256 pin is required") ++
  when (ff_Flag f == "") (Errorf "config: featureFlags.flag is required") ++
  when (negb ((ff_When f == "") || (ff_When f == "step") || (ff_When f == "promote") || (ff_When f == "both")))
    (Errorf ("config: featureFlags.when " +:+ quote (ff_When f) +:+ " must be step | promote | both")).

Definition validateTrafficRouting (t : TrafficRouting) : list err :=
  (if tr_Provider t == "" then
     when (tr_Plugin t == "") (Errorf "config: trafficRouting.plugin (binary path) is required when no provider is set") ++
     when (tr_SHA256 t == "") (Errorf "config: trafficRouting.sha256 pin is required when no provider is set")
   else
     when (tr_Provider t != "gateway")
       (Errorf ("config: trafficRouting.provider " +:+ quote (tr_Provider t) +:+ " must be gateway (or empty for a plugin)"))) ++
  when (tr_Route t == "") (Errorf "config: trafficRouting.route is required") ++
  when (tr_StableService t == "") (Errorf "config: trafficRouting.stableService is required") ++
  when (tr_CanaryService t == "") (Errorf "config: trafficRouting.canaryService is required").

(** *** Manifest sources of a kubernetes target *)
Definition validateManifestFrom (mf : list (string * any)) : list err :=
  match filter (λ k, has_key mf k = true) ["path"; "kustomize"; "helm"] with
  | [] => [Errorf "config: spec.target.spec.manifestFrom must set exactly one of path | kustomize | helm"]
  | [k] =>
      if k == "path" then
        when (as_string (any_at mf "path") == "")
          (Errorf "config: spec.target.spec.manifestFrom.path must be a non-empty file path")
      else if k == "kustomize" then
        when (as_string (any_at mf "kustomize") == "")
          (Errorf "config: spec.target.spec.manifestFrom.kustomize must be a non-empty directory or URL")
      else
        match any_at mf "helm" with
        | Some (AMap h) => when (as_string (any_at h "chart") == "")
                             (Errorf "config: spec.target.spec.manifestFrom.helm.chart is required")
        | _ => [Errorf "config: spec.target.spec.manifestFrom.helm must be a mapping with a chart"]
        end
  | set => [Errorf ("config: spec.target.spec.manifestFrom must set exactly one of path | kustomize | helm, found: " +:+
                    Join set ", ")]
  end.

Definition flat_sources (spec : gmap string any) : list string :=
  filter (λ k, is_Some (spec !! k)) ["helm"; "kustomize"; "oci"; "bucket"].

Definition inline_source (spec : gmap string any) : list string :=
  if as_string (spec !! "manifest") == "" then [] else ["manifest"].

Definition validateKubernetesManifestSource (spec : gmap string any) : list err :=
  let sources := inline_source spec ++ flat_sources spec in
  match spec !! "manifestFrom" with
  | Some (AMap mf) =>
      when ((0 <? length sources)%nat)
        (Errorf ("config: spec.target.spec.manifestFrom is exclusive; remove the conflicting inline/flat source(s): " +:+
                 Join sources ", ")) ++
      validateManifestFrom mf
  | Some _ => [Errorf "config: spec.target.spec.manifestFrom must be a mapping of path | kustomize | helm"]
  | None =>
      match sources with
      | [] => [Errorf "config: kubernetes target must set a manifest source (manifest, manifestFrom, helm, kustomize, oci, or bucket)"]
      | [_] => []
      | _ => [Errorf ("config: kubernetes target must set exactly one manifest source, found: " +:+ Join sources ", ")]
      end
  end.

(** *** Image policy *)
Definition image_modes : list string := ["none"; "major"; "minor"; "patch"; "any"; "digest"].

Definition validateImagePolicy (t : Target) (p : ImagePolicy) : list err :=
  when (negb (bool_decide (ip_Mode p ∈ image_modes)))
    (Errorf ("config: imagePolicy.mode " +:+ quote (ip_Mode p) +:+ " must be none | major | minor | patch | any | digest")) ++
  when (as_string (tg_Spec t !! "image") == "")
    (Errorf "config: imagePolicy requires spec.target.spec.image (the tracked image)").

Definition condition_errs (path expr : string) : list err :=
  if expr == "" then [] else when_err (Check cel expr) ("config: " +:+ path +:+ ": ").

Definition self_dependencies (s : Spec) : list err :=
  (λ d, Errorf ("config: target " +:+ quote d +:+ " cannot depend on itself")) <$>
    filter (λ d, d = tg_Ref (sp_Target s)) (sp_DependsOn s).

Definition validateSchedule (schedule : string) : list err :=
  if schedule == "" then []
  else match ParseRFC3339 schedule with
       | Ok _ => []
       | Err er => [Wrap ("config: schedule " +:+ quote schedule +:+ " is not RFC3339: ") er ""]
       end.

Definition validateSemantics (c : Config.t) : list err :=
  let s := spec c in
  validateSchedule (sp_Schedule s) ++
  self_dependencies s ++
  validateStrategy "spec.strategy" (sp_Strategy s) ++
  validateEnvironments (sp_Environments s) ++
  condition_errs "risk.sensitive" (rk_Sensitive (sp_Risk s)) ++
  validateRiskHistory (rk_History (sp_Risk s)) ++
  condition_errs "rollback.trigger" (rb_Trigger (sp_Rollback s)) ++
  optional (validateDatabaseCommand "rollback.database") (rb_Database (sp_Rollback s)) ++
  optional validateDatabase (sp_Database s) ++
  optional validateAnalysis (sp_Analysis s) ++
  optional validateFeatureFlags (sp_FeatureFlags s) ++
  optional validateTrafficRouting (sp_TrafficRouting s) ++
  when (negb (bool_decide (sp_Verification s ∈ [""; "shallow"; "detect"; "full"])))
    (Errorf ("config: verification " +:+ quote (sp_Verification s) +:+ " must be shallow | detect | full")) ++
  (if tg_Kind (sp_Target s) == "kubernetes" then validateKubernetesManifestSource (tg_Spec (sp_Target s)) else []) ++
  optional (validateImagePolicy (sp_Target s)) (sp_ImagePolicy s).

(** The schema check fails to run, or runs and says what it found. *)
Definition Validate (schema : Config.t → result (option err)) (c : Config.t) : option err :=
  match schema c with
  | Err er => Some er
  | Ok found => errors_Join (when_err found "config: schema: " ++ validateSemantics c)
  end.
End Validate.

(** ** What a well-formed configuration is *)

(** The ways a kubernetes target can say where its manifest comes from. *)
Inductive source := SInline | SFlat (k : string) | SFrom.

Definition declares (spec : gmap string any) (src : source) : Prop :=
  match src with
  | SInline => as_string (spec !! "manifest") ≠ ""
  | SFlat k => k ∈ ["helm"; "kustomize"; "oci"; "bucket"] ∧ is_Some (spec !! k)
  | SFrom => is_Some (spec !! "manifestFrom")
  end.

(** A [manifestFrom] block with one source, and that one usable. *)
Definition usable_block (v : any) : Prop :=
  ∃ mf, v = AMap mf ∧
    (exists! k, k ∈ ["path"; "kustomize"; "helm"] ∧ is_Some (any_at mf k)) ∧
    (∀ k, k ∈ ["path"; "kustomize"] → is_Some (any_at mf k) → as_string (any_at mf k) ≠ "") ∧
    (∀ v, any_at mf "helm" = Some v → ∃ h, v = AMap h ∧ as_string (any_at h "chart") ≠ "").

Definition one_source (spec : gmap string any) : Prop :=
  (exists! src, declares spec src) ∧ ∀ v, spec !! "manifestFrom" = Some v → usable_block v.

Definition strategies (s : Spec) : list Strategy :=
  sp_Strategy s :: omap ev_Strategy (sp_Environments s).

Definition hooks (s : Spec) : list DatabaseRollback :=
  option_list (rb_Database (sp_Rollback s)) ++ option_list (DatabaseMigrate s) ++
  option_list (d ← sp_Database s; dbs_Rollback d).

Definition readable (duration : string) : Prop := duration = "" ∨ ∃ d, ParseDuration duration = Ok d.

Section WellFormed.
Context (cel : string → result celAst) (cel_vars : list string → string → result celAst).

Definition analysis_ok (a : Config.Analysis) : Prop :=
  (an_Plugin a ≠ "" → an_SHA256 a ≠ "") ∧
  (an_Plugin a = "" → an_Provider a = "prometheus" ∧ TrimSpace (an_Address a) ≠ "") ∧
  readable (an_Interval a) ∧ ∃ an, NewAnalyzer cel_vars no_provider (check_template a) = Ok an.

Definition flags_ok (f : FeatureFlags) : Prop :=
  ff_Plugin f ≠ "" ∧ ff_SHA256 f ≠ "" ∧ ff_Flag f ≠ "" ∧ ff_When f ∈ [""; "step"; "promote"; "both"].

Definition routing_ok (t : TrafficRouting) : Prop :=
  (tr_Provider t = "gateway" ∨ tr_Provider t = "" ∧ tr_Plugin t ≠ "" ∧ tr_SHA256 t ≠ "") ∧
  tr_Route t ≠ "" ∧ tr_StableService t ≠ "" ∧ tr_CanaryService t ≠ "".

Definition image_policy_ok (t : Target) (p : ImagePolicy) : Prop :=
  ip_Mode p ∈ image_modes ∧ as_string (tg_Spec t !! "image") ≠ "".

Record well_formed (s : Spec) : Prop := {
  wf_schedule : sp_Schedule s = "" ∨ ∃ t, ParseRFC3339 (sp_Schedule s) = Ok t;
  wf_dependencies : tg_Ref (sp_Target s) ∉ sp_DependsOn s;
  wf_strategies : Forall (λ st, sy_Type st = "canary" → sy_Steps st ≠ []) (strategies s);
  wf_conditions : Forall (λ expr, expr = "" ∨ ∃ p, Compile cel expr = Ok p)
                    [rk_Sensitive (sp_Risk s); rb_Trigger (sp_Rollback s)];
  wf_history : let h := rk_History (sp_Risk s) in
    0 ≤ rh_Lookback h ∧ 0 ≤ rh_MaxFailures h ∧
    PrimFloat.ltb (rh_Weight h) PrimFloat.zero = false ∧ PrimFloat.ltb PrimFloat.one (rh_Weight h) = false;
  wf_hooks : Forall (λ db, db_Command db ≠ [] ∧ readable (db_Timeout db)) (hooks s);
  wf_migrate : ∀ m, DatabaseMigrate s = Some m → db_When m ∈ [""; MigratePreDeploy; MigratePostPromote];
  wf_rollback : ∀ d rb, sp_Database s = Some d → dbs_Rollback d = Some rb → db_When rb = "";
  wf_analysis : ∀ a, sp_Analysis s = Some a → analysis_ok a;
  wf_flags : ∀ f, sp_FeatureFlags s = Some f → flags_ok f;
  wf_routing : ∀ t, sp_TrafficRouting s = Some t → routing_ok t;
  wf_verification : sp_Verification s ∈ [""; "shallow"; "detect"; "full"];
  wf_manifest : tg_Kind (sp_Target s) = "kubernetes" → one_source (tg_Spec (sp_Target s));
  wf_image : ∀ p, sp_ImagePolicy s = Some p → image_policy_ok (sp_Target s) p;
}.

(** ** Rule by rule *)
Lemma when_nil b er : when b er = [] ↔ b = false.
Proof. by destruct b. Qed.

Lemma optional_nil {A} (f : A → list err) o : optional f o = [] ↔ ∀ x, o = Some x → f x = [].
Proof. destruct o; simpl; naive_solver. Qed.

Lemma duration_nil path text : duration_err path text = [] ↔ readable text.
Proof.
  unfold duration_err, readable. case_bool_decide; [naive_solver|].
  destruct (ParseDuration text); naive_solver.
Qed.

Lemma condition_nil path expr : condition_errs cel path expr = [] ↔ expr = "" ∨ ∃ p, Compile cel expr = Ok p.
Proof.
  unfold condition_errs, Check. case_bool_decide; [naive_solver|]. destruct (Compile cel expr); simpl; naive_solver.
Qed.

Lemma schedule_nil text : validateSchedule text = [] ↔ text = "" ∨ ∃ t, ParseRFC3339 text = Ok t.
Proof. unfold validateSchedule. case_bool_decide; [naive_solver|]. destruct (ParseRFC3339 text); naive_solver. Qed.

Lemma strategy_nil path st : validateStrategy path st = [] ↔ (sy_Type st = "canary" → sy_Steps st ≠ []).
Proof.
  unfold validateStrategy. rewrite when_nil. case_bool_decide; simpl; [|naive_solver].
  destruct (sy_Steps st); simpl; naive_solver.
Qed.

Lemma environments_nil envs :
  validateEnvironments envs = [] ↔ Forall (λ st, sy_Type st = "canary" → sy_Steps st ≠ []) (omap ev_Strategy envs).
Proof.
  unfold validateEnvironments. generalize env_path. induction envs as [|e envs IH]; intros path; [done|].
  rewrite imap_cons. simpl mjoin. rewrite app_nil, (IH (path ∘ S)). simpl.
  destruct (ev_Strategy e); rewrite ?Forall_cons, ?strategy_nil; naive_solver.
Qed.

Lemma command_nil path db :
  validateDatabaseCommand path db = [] ↔ db_Command db ≠ [] ∧ readable (db_Timeout db).
Proof.
  unfold validateDatabaseCommand. rewrite app_nil, when_nil, duration_nil, Nat.eqb_neq.
  destruct (db_Command db); simpl; naive_solver.
Qed.

Lemma history_nil h :
  validateRiskHistory h = [] ↔ 0 ≤ rh_Lookback h ∧ 0 ≤ rh_MaxFailures h ∧
    PrimFloat.ltb (rh_Weight h) PrimFloat.zero = false ∧ PrimFloat.ltb PrimFloat.one (rh_Weight h) = false.
Proof.
  unfold validateRiskHistory. rewrite !app_nil, !when_nil, !Z.ltb_ge, orb_false_iff. naive_solver.
Qed.

Lemma one_of_nil (l : list string) (x : string) (er : err) : when (negb (bool_decide (x ∈ l))) er = [] ↔ x ∈ l.
Proof. rewrite when_nil, negb_false_iff. apply bool_decide_eq_true. Qed.

(** Decides a rule made of comparisons of strings. *)
Ltac rules :=
  rewrite ?app_nil, ?when_nil, ?negb_false_iff, ?orb_false_iff, ?orb_true_iff, ?andb_false_iff,
    ?bool_decide_eq_true, ?bool_decide_eq_false; rewrite ?elem_of_cons, ?elem_of_nil; naive_solver.

Lemma database_nil d :
  validateDatabase d = [] ↔
  (∀ m, dbs_Migrate d = Some m → (db_Command m ≠ [] ∧ readable (db_Timeout m)) ∧
     db_When m ∈ [""; MigratePreDeploy; MigratePostPromote]) ∧
  (∀ rb, dbs_Rollback d = Some rb → (db_Command rb ≠ [] ∧ readable (db_Timeout rb)) ∧ db_When rb = "").
Proof.
  unfold validateDatabase. rewrite app_nil, !optional_nil. f_equiv.
  - apply forall_proper. intros m. unfold validateMigrate. rewrite app_nil, command_nil.
    split; intros H Hm; specialize (H Hm) as [? Hw]; (split; [done|]); revert Hw; rules.
  - apply forall_proper. intros m. unfold validateDbRollback. rewrite app_nil, command_nil.
    split; intros H Hm; specialize (H Hm) as [? Hw]; (split; [done|]); revert Hw; rules.
Qed.

Lemma analysis_nil a : validateAnalysis cel_vars a = [] ↔ analysis_ok a.
Proof.
  unfold validateAnalysis, analysis_ok. rewrite !app_nil, duration_nil.
  assert (match NewAnalyzer cel_vars no_provider (check_template a) with
    | Ok _ => [] | Err er => [Wrap "config: analysis: " er ""] end = [] ↔
    ∃ an, NewAnalyzer cel_vars no_provider (check_template a) = Ok an) as ->
    by (destruct (NewAnalyzer cel_vars no_provider (check_template a)); naive_solver).
  case_bool_decide; simpl; rules.
Qed.

Lemma flags_nil f : validateFeatureFlags f = [] ↔ flags_ok f.
Proof. unfold validateFeatureFlags, flags_ok. rules. Qed.

Lemma routing_nil t : validateTrafficRouting t = [] ↔ routing_ok t.
Proof. unfold validateTrafficRouting, routing_ok. case_bool_decide as E; [rewrite E|]; rules. Qed.

Lemma image_nil t p : validateImagePolicy t p = [] ↔ image_policy_ok t p.
Proof. unfold validateImagePolicy, image_policy_ok. rewrite app_nil, one_of_nil. rules. Qed.

Lemma self_nil s : self_dependencies s = [] ↔ tg_Ref (sp_Target s) ∉ sp_DependsOn s.
Proof.
  unfold self_dependencies. split.
  - intros H%fmap_nil_inv Hin. assert (tg_Ref (sp_Target s) ∈ filter (λ d, d = tg_Ref (sp_Target s)) (sp_DependsOn s)) as Hf
      by (by apply list_elem_of_filter). rewrite H in Hf. set_solver.
  - intros H. assert (filter (λ d, d = tg_Ref (sp_Target s)) (sp_DependsOn s) = []) as ->; [|done].
    apply elem_of_nil_inv. intros d [-> Hd]%list_elem_of_filter. done.
Qed.

(** *** Manifest sources *)
Lemma singleton_unique {A} (l : list A) : NoDup l → (∃ k, l = [k]) ↔ exists! k, k ∈ l.
Proof.
  intros Hnd. split.
  - intros [k ->]. exists k. split; [set_solver|]. intros k' Hk'. set_solver.
  - intros (k & Hk & Hu). destruct l as [|a [|b l]]; [set_solver|by exists a|]. exfalso.
    apply NoDup_cons in Hnd as [Hab _]. apply Hab. rewrite <- (Hu a), (Hu b) by set_solver. set_solver.
Qed.

Lemma unique_iff {A} (P Q : A → Prop) : (∀ x, P x ↔ Q x) → (exists! x, P x) ↔ exists! x, Q x.
Proof. intros H. unfold unique. by setoid_rewrite H. Qed.

Definition source_of (k : string) : source := if k == "manifest" then SInline else SFlat k.

Definition sources (spec : gmap string any) : list source := source_of <$> inline_source spec ++ flat_sources spec.

Lemma sources_NoDup spec : NoDup (sources spec).
Proof.
  unfold sources. apply NoDup_fmap_2_strong.
  - intros x y. unfold source_of, inline_source, flat_sources. repeat case_bool_decide; naive_solver.
  - apply NoDup_app. split_and!.
    + unfold inline_source. case_bool_decide; repeat constructor; set_solver.
    + intros x Hx [_ Hf]%list_elem_of_filter. unfold inline_source in Hx. case_bool_decide; set_solver.
    + apply NoDup_filter. by_decision.
Qed.

Lemma sources_spec spec src : spec !! "manifestFrom" = None → src ∈ sources spec ↔ declares spec src.
Proof.
  intros Hn. unfold sources, inline_source. rewrite list_elem_of_fmap. setoid_rewrite elem_of_app.
  unfold flat_sources. setoid_rewrite list_elem_of_filter. split.
  - intros (k & -> & [Hk|[Hs Hk]]).
    + case_bool_decide; [set_solver|]. apply list_elem_of_singleton in Hk as ->. done.
    + unfold source_of. case_bool_decide as E; [subst k; exfalso; revert Hk; by_decision|done].
  - destruct src as [|k|]; simpl.
    + intros H. exists "manifest". split; [done|]. left. rewrite bool_decide_eq_false_2 by done. set_solver.
    + intros [Hk Hs]. exists k. split; [|by right]. unfold source_of. case_bool_decide as E; [|done].
      subst k. exfalso. revert Hk. by_decision.
    + rewrite Hn. by intros [? ?].
Qed.

Lemma block_nil mf : validateManifestFrom mf = [] ↔ usable_block (AMap mf).
Proof.
  unfold usable_block. trans ((exists! k, k ∈ ["path"; "kustomize"; "helm"] ∧ is_Some (any_at mf k)) ∧
    (∀ k, k ∈ ["path"; "kustomize"] → is_Some (any_at mf k) → as_string (any_at mf k) ≠ "") ∧
    (∀ v, any_at mf "helm" = Some v → ∃ h, v = AMap h ∧ as_string (any_at h "chart") ≠ "")); [|naive_solver].
  rewrite (unique_iff _ (λ k, k ∈ filter (λ k, has_key mf k = true) ["path"; "kustomize"; "helm"])).
  2:{ intros k. rewrite list_elem_of_filter. unfold has_key. destruct (any_at mf k); naive_solver. }
  rewrite <- singleton_unique by (apply NoDup_filter; by_decision).
  unfold validateManifestFrom. rewrite !filter_cons, filter_nil. unfold has_key.
  assert (∀ P : string → Prop, (∀ k, k ∈ ["path"; "kustomize"] → P k) ↔ P "path" ∧ P "kustomize") as ->.
  { intros P. setoid_rewrite elem_of_cons. setoid_rewrite list_elem_of_singleton. naive_solver. }
  destruct (any_at mf "path") as [vp|], (any_at mf "kustomize") as [vk|], (any_at mf "helm") as [vh|];
    rewrite ?decide_True, ?decide_False by done; simpl; try rules.
  assert (∀ P : any → Prop, (∀ v, Some vh = Some v → P v) ↔ P vh) as -> by naive_solver.
  destruct vh; rewrite ?when_nil, ?bool_decide_eq_false; split; try naive_solver.
Qed.

Lemma manifest_nil spec : validateKubernetesManifestSource spec = [] ↔ one_source spec.
Proof.
  unfold validateKubernetesManifestSource, one_source. cbv zeta.
  destruct (spec !! "manifestFrom") as [v|] eqn:Hv.
  - assert ((∀ v', Some v = Some v' → usable_block v') ↔ usable_block v) as -> by naive_solver.
    assert (∀ mf, v = AMap mf → (exists! src, declares spec src) ↔ inline_source spec ++ flat_sources spec = []) as Hu.
    { intros mf _. split.
      - intros (src & Hs & Hu). assert (src = SFrom) as -> by (apply Hu; simpl; by rewrite Hv).
        apply elem_of_nil_inv. intros k [Hk|[Hk Hf]%list_elem_of_filter]%elem_of_app.
        + unfold inline_source in Hk. case_bool_decide as E; [set_solver|]. by specialize (Hu SInline E).
        + by specialize (Hu (SFlat k) (conj Hf Hk)).
      - intros [Hi Hf]%app_nil. exists SFrom. split; [simpl; by rewrite Hv|]. intros [|k|]; simpl; [| |done].
        + unfold inline_source in Hi. case_bool_decide; done.
        + intros [Hk Hs]. assert (k ∈ flat_sources spec) as Hin by (by apply list_elem_of_filter).
          rewrite Hf in Hin. set_solver. }
    destruct v as [| | | | | |mf]; try (split; [done|intros (_ & mf & ? & _); done]).
    rewrite app_nil, when_nil, block_nil, (Hu mf eq_refl), Nat.ltb_ge.
    destruct (inline_source spec ++ flat_sources spec); simpl; naive_solver lia.
  - rewrite (unique_iff _ (λ src, src ∈ sources spec)) by (intros src; by rewrite sources_spec).
    rewrite <- singleton_unique by apply sources_NoDup. unfold sources.
    destruct (inline_source spec ++ flat_sources spec) as [|k [|k' l]]; simpl; naive_solver.
Qed.

Lemma validateSemantics_nil c : validateSemantics cel cel_vars c = [] ↔ well_formed (spec c).
Proof.
  unfold validateSemantics. cbv zeta. rewrite !app_nil, schedule_nil, self_nil, strategy_nil, environments_nil,
    !condition_nil, history_nil, one_of_nil.
  assert ((if tg_Kind (sp_Target (spec c)) == "kubernetes"
           then validateKubernetesManifestSource (tg_Spec (sp_Target (spec c))) else []) = [] ↔
    (tg_Kind (sp_Target (spec c)) = "kubernetes" → one_source (tg_Spec (sp_Target (spec c))))) as ->
    by (rewrite <- manifest_nil; case_bool_decide; naive_solver).
  rewrite !optional_nil. setoid_rewrite analysis_nil. setoid_rewrite flags_nil. setoid_rewrite routing_nil.
  setoid_rewrite image_nil. setoid_rewrite command_nil. setoid_rewrite database_nil.
  split.
  - intros (? & ? & ? & ? & ? & ? & ? & Hrb & Hdb & ? & ? & ? & ? & ? & ?).
    split; try done; unfold strategies, hooks, DatabaseMigrate.
    + by constructor.
    + rewrite !Forall_cons. naive_solver.
    + destruct (rb_Database _), (sp_Database (spec c)) as [[[m|] [rb|] bc]|]; simpl; rewrite ?Forall_cons, ?Forall_nil; naive_solver.
    + destruct (sp_Database (spec c)); naive_solver.
    + naive_solver.
  - intros [? ? Hst [? [? _]%Forall_cons]%Forall_cons Hh Hk Hm Hr ? ? ? ? ? ?].
    unfold strategies, hooks, DatabaseMigrate in *. apply Forall_cons in Hst as [? ?].
    rewrite !Forall_app in Hk. cbv zeta in Hh. destruct Hh as (? & ? & ? & ?). destruct Hk as (Hk1 & Hk2 & Hk3). split_and!; try done.
    + intros x Hx. rewrite Hx in Hk1. by apply Forall_cons in Hk1 as [? _].
    + intros d Hd. rewrite Hd in *. simpl in *. split.
      * intros m Hm'. rewrite Hm' in *. apply Forall_cons in Hk2 as [? _]. auto.
      * intros rb Hrb. rewrite Hrb in *. apply Forall_cons in Hk3 as [? _]. eauto.
Qed.
End WellFormed.

(** ** Properties *)

(** Whether an analyzer can be built depends on the template alone, not on who
    answers its queries or how long it waits between them. *)
Lemma NewAnalyzer_any {W W'} cel_vars (p : MetricsProvider W) (p' : MetricsProvider W') t t' an :
  te_Metrics t = te_Metrics t' → te_Condition t = te_Condition t' → te_Count t = te_Count t' →
  te_FailureLimit t = te_FailureLimit t' →
  NewAnalyzer cel_vars p t = Ok an → ∃ an', NewAnalyzer cel_vars p' t' = Ok an'.
Proof.
  unfold NewAnalyzer, effective_count. cbv zeta. intros -> -> -> ->.
  repeat case_match; intros; simplify_eq; eauto.
Qed.

Lemma strategies_effective c name : Promote.EffectiveStrategy c name ∈ strategies (spec c).
Proof.
  unfold Promote.EffectiveStrategy, strategies. cbv zeta.
  destruct (filter _ (sp_Environments (spec c))) as [|e l] eqn:E; simpl; [set_solver|].
  assert (e ∈ e :: l) as He by set_solver. rewrite <- E in He. apply list_elem_of_filter in He as [_ He].
  destruct (ev_Strategy e) as [st|] eqn:Hst; simpl; [|set_solver].
  apply elem_of_cons. right. apply list_elem_of_omap. eauto.
Qed.

Lemma hooks_hook s db : DatabaseMigrate s = Some db ∨ DatabaseRollbackHook s = Some db → db ∈ hooks s.
Proof.
  unfold hooks, DatabaseMigrate, DatabaseRollbackHook. rewrite !elem_of_app.
  destruct (sp_Database s) as [[[m|] [rb|] bc]|], (rb_Database (sp_Rollback s)); simpl; set_solver.
Qed.

Lemma Validate_none cel cel_vars schema c :
  Validate cel cel_vars schema c = None ↔ schema c = Ok None ∧ well_formed cel cel_vars (spec c).
Proof.
  unfold Validate, errors_Join. rewrite <- validateSemantics_nil.
  destruct (schema c) as [[er|]|er]; simpl; [naive_solver| |naive_solver].
  destruct (validateSemantics cel cel_vars c); naive_solver.
Qed.

(** Validation accepts exactly the well-formed configurations: the schema
    holds, the schedule is a time, no target waits for itself, every canary has
    a step, conditions compile to booleans, database hooks have a command and a
    readable timeout, plugins are pinned, a kubernetes target says in exactly one
    usable way where its manifest comes from.  Any broken rule, alone or with
    others, makes it fail. *)
Theorem Validate_accepts_well_formed cel cel_vars schema c :
  Validate cel cel_vars schema c = None ↔ schema c = Ok None ∧ well_formed cel cel_vars (spec c).
Proof. apply Validate_none. Qed.

(** C26. An accepted configuration cannot fail the engine for its form.  In every
    environment a canary follows the declared steps, never the built-in ones;
    every database hook runs its command, not stopped by its timeout's text; the
    analysis can be built whatever the metrics backend, and without a plugin a
    backend is at hand; the sensitive condition compiles, so the risk gate fails
    only when evaluating it does. *)
Theorem accepted_config_is_runnable {S} `{!Store S} env e schema c :
  Validate (o_cel env) (o_cel_vars env) schema c = None →
  let s := spec c in
  (∀ name, let st := Promote.EffectiveStrategy c name in
     sy_Type st = "canary" → p_Steps (PlanFor st) = ensureFull (fromConfig (sy_Steps st))) ∧
  (∀ db, DatabaseMigrate s = Some db ∨ DatabaseRollbackHook s = Some db →
     db_Command db ≠ [] ∧ runDatabaseCommand (S := S) env e db = execDBRollback env e (db_Command db)) ∧
  (∀ a, sp_Analysis s = Some a →
     (∀ provider : MetricsProvider (World S), ∃ an, NewAnalyzer (o_cel_vars env) provider (template_of a) = Ok an) ∧
     (an_Plugin a = "" → metrics_provider (S := S) env e a = mret (Ok (outside_metrics env)))) ∧
  (rk_Sensitive (sp_Risk s) ≠ "" →
     ∃ p, ∀ i, Eval (o_cel env) (rk_Sensitive (sp_Risk s)) i = EvalBool p i).
Proof.
  intros Hv s. apply Validate_none in Hv. fold s in Hv. destruct Hv as [_ Hw]. split_and!.
  - intros name st Ht. pose proof (proj1 (Forall_forall _ _) (wf_strategies _ _ _ Hw) _ (strategies_effective c name) Ht) as Hs.
    unfold PlanFor. fold st in Hs. rewrite Ht. simpl. unfold fromConfig. destruct (sy_Steps st); [done|]. done.
  - intros db Hdb%hooks_hook. destruct (proj1 (Forall_forall _ _) (wf_hooks _ _ _ Hw) _ Hdb) as [Hc Hr]. split; [done|].
    unfold runDatabaseCommand. destruct Hr as [->|[d ->]]; [done|]. by case_bool_decide.
  - intros a Ha. destruct (wf_analysis _ _ _ Hw a Ha) as (_ & Hp & _ & an & Han). split.
    + intros provider. by eapply NewAnalyzer_any; [..|exact Han].
    + intros Hn. destruct (Hp Hn) as [Hprom _]. unfold metrics_provider. rewrite Hn, Hprom. by destruct (e_metrics e).
  - intros Hne. pose proof (wf_conditions _ _ _ Hw) as [[?|[p Hp]] _]%Forall_cons; [done|].
    exists p. intros i. unfold Eval. by rewrite Hp.
Qed.

Section Witnesses.
Import Scenario.

(** A canary on kubernetes with a migration, an analysis and a schedule. *)
Definition full_config : Config.t :=
  let base := spec (service "web" "v1" canary true) in
  let migrate := {| db_Command := ["migrate"; "up"]; db_Timeout := "90s"; db_When := MigratePreDeploy |} in
  {| APIVersion := SchemaVersion; ConfigKind := Kind; Meta := {| md_Name := "web"; md_Labels := ∅ |};
     spec := {|
       sp_Target := {| tg_Kind := "kubernetes"; tg_Ref := "web"; tg_Criticality := ""; tg_Env := "";
                       tg_Spec := {["manifestFrom" := AMap [("path", AString "deploy.yaml")]]} |};
       sp_Environments := []; sp_Strategy := canary; sp_Risk := sp_Risk base; sp_Rollback := sp_Rollback base;
       sp_Analysis := Some {|
         an_Provider := "prometheus"; an_Address := "http://prom"; an_Plugin := ""; an_SHA256 := "";
         an_Metrics := [{| am_Name := "errors"; am_Query := "rate"; am_Aggregation := "max" |}];
         an_Condition := "errors < 1"; an_Interval := "30s"; an_Count := 3; an_FailureLimit := 1 |};
       sp_FeatureFlags := None; sp_TrafficRouting := None; sp_ImagePolicy := None;
       sp_Database := Some {| dbs_Migrate := Some migrate; dbs_Rollback := None; dbs_BackwardCompatible := true |};
       sp_DependsOn := ["db"]; sp_Schedule := "2026-09-21T14:13:20Z"; sp_Verification := "detect" |} |}.

(** Every expression compiles to a boolean. *)
Definition compiling : list string → string → result celAst :=
  λ _ _, Ok {| ast_OutputType := BoolType; ast_Program := Ok (λ _, Ok (ABool true)) |}.

Definition with_cel (en : Env) : Env := {|
  o_build := o_build en; o_apply := o_apply en; o_observe := o_observe en; o_health := o_health en;
  o_differ := o_differ en; o_diff := o_diff en; o_renderer := o_renderer en; o_referenced := o_referenced en;
  o_render := o_render en; o_inspector := o_inspector en; o_resources := o_resources en;
  o_preflighter := o_preflighter en; o_preflight := o_preflight en; o_reaper := o_reaper en; o_reap := o_reap en;
  o_router := o_router en; o_traffic := o_traffic en; o_flag_provider := o_flag_provider en; o_flag := o_flag en;
  o_exec := o_exec en; o_environ := o_environ en; o_metrics := o_metrics en; o_series_capable := o_series_capable en;
  o_query := o_query en; o_series := o_series en; o_secret := o_secret en; o_govern := o_govern en;
  o_artifact := o_artifact en; o_rate := o_rate en; o_ctx_done := o_ctx_done en; o_cel := compiling [];
  o_cel_vars := compiling; o_sha256 := o_sha256 en; o_spec_sum := o_spec_sum en;
  o_now := o_now en; o_git := o_git en; o_git_token := o_git_token en; o_read_file := o_read_file en;
  o_write_file := o_write_file en; o_remove_all := o_remove_all en; o_http := o_http en; o_load_all := o_load_all en; o_dangling := o_dangling en;
  o_load := o_load en; o_yaml := o_yaml en; o_yaml_out := o_yaml_out en; o_regexp := o_regexp en; o_url := o_url en;
  o_json_out := o_json_out en; o_json_tags := o_json_tags en; o_json_token := o_json_token en; o_json_pr := o_json_pr en;
  o_json_prs := o_json_prs en; o_json_hook := o_json_hook en; o_hmac := o_hmac en |}.

Lemma full_config_accepted : Validate (compiling []) compiling (λ _, Ok None) full_config = None.
Proof. vm_compute. reflexivity. Qed.

Lemma Validate_accepts_well_formed_witness :
  well_formed (compiling []) compiling (spec full_config).
Proof. exact (proj2 (proj1 (Validate_accepts_well_formed (compiling []) compiling (λ _, Ok None) full_config) full_config_accepted)). Defined.

Lemma accepted_config_is_runnable_witness :
  p_Steps (PlanFor canary) = ensureFull (fromConfig (sy_Steps canary)).
Proof.
  destruct (accepted_config_is_runnable (S := Sqlite.Db) (with_cel sunny) engine (λ _, Ok None) full_config
    full_config_accepted) as [H _].
  exact (H "prod" eq_refl).
Defined.
End Witnesses.
