(* ===== verification/Process.v ===== *)
(** * Programs that call tools

    The targets of [internal/target] act by starting processes and talking to
    hosts.  Such code is a program over the trace of its calls, newest first: a
    call is recorded and then answered by the outside, whose answer may depend on
    everything called before.  [issues P m] says that every call of [m], whatever
    the outside answers, satisfies [P]; its rules are the ones the safety
    theorems of the targets are built from. *)

From S2P Require Import Prelude.

Definition Prog (E A : Type) : Type := list E → A * list E.

#[global] Instance Prog_ret E : MRet (Prog E) := λ A a tr, (a, tr).
#[global] Instance Prog_bind E : MBind (Prog E) := λ A B k m tr, let '(a, tr') := m tr in k a tr'.

Section Calls.
Context {E : Type}.

(** A call: recorded, then answered. *)
Definition call {A} (e : E) (answer : list E → A) : Prog E A := λ tr, let tr := e :: tr in (answer tr, tr).

Definition attempt_result {A B} (c : Prog E (result A)) (h : err → Prog E B) (k : A → Prog E B) : Prog E B :=
  r ← c; match r with Ok a => k a | Err e => h e end.
Definition attempt_error {B} (c : Prog E (option err)) (h : err → Prog E B) (k : Prog E B) : Prog E B :=
  r ← c; match r with Some e => h e | None => k end.

(** A [defer]. *)
Definition finally {A} (after : Prog E unit) (body : Prog E A) : Prog E A := r ← body; after;; mret r.
End Calls.

(** [attempt x <- c catch e => h ; k] and [ensure c catch e => h ; k]: Go's
    [if err != nil] after a call with and without a value. *)
Notation "'attempt' x <- c 'catch' e => h ; k" := (attempt_result c (λ e, h) (λ x, k))
  (at level 20, x pattern, c at level 100, e name, h at level 200, k at level 200, right associativity) : go_scope.
Notation "'ensure' c 'catch' e => h ; k" := (attempt_error c (λ e, h) k)
  (at level 20, c at level 100, e name, h at level 200, k at level 200, right associativity) : go_scope.

(** ** What a program may call *)
Section Issues.
Context {E : Type}.
Implicit Types (P Q : E → Prop).

Definition issues {A} P (m : Prog E A) : Prop := ∀ tr, ∃ new, (m tr).2 = new ++ tr ∧ Forall P new.

Lemma issues_ret {A} P (a : A) : issues P (mret a).
Proof. intros tr. by exists []. Qed.

Lemma issues_call {A} P e (f : list E → A) : P e → issues P (call e f).
Proof. intros He tr. exists [e]. by repeat constructor. Qed.

Lemma issues_bind {A B} P (m : Prog E A) (k : A → Prog E B) : issues P m → (∀ a, issues P (k a)) → issues P (m ≫= k).
Proof.
  intros Hm Hk tr. destruct (Hm tr) as (new & Hn & HP). unfold mbind, Prog_bind. destruct (m tr) as [a tr'] eqn:Em.
  simpl in Hn. subst tr'. destruct (Hk a (new ++ tr)) as (more & -> & HQ).
  exists (more ++ new). rewrite Forall_app, <- app_assoc. auto.
Qed.

Lemma issues_result {A B} P (c : Prog E (result A)) h (k : A → Prog E B) :
  issues P c → (∀ e, issues P (h e)) → (∀ a, issues P (k a)) → issues P (attempt_result c h k).
Proof. intros Hc Hh Hk. apply issues_bind; [done|]. by intros [a|e]. Qed.

Lemma issues_error {B} P (c : Prog E (option err)) h (k : Prog E B) :
  issues P c → (∀ e, issues P (h e)) → issues P k → issues P (attempt_error c h k).
Proof. intros Hc Hh Hk. apply issues_bind; [done|]. by intros [e|]. Qed.

Lemma issues_finally {A} P after (body : Prog E A) : issues P after → issues P body → issues P (finally after body).
Proof.
  intros Ha Hb. apply issues_bind; [done|]. intros r. apply issues_bind; [done|]. intros []. apply issues_ret.
Qed.

Lemma issues_fmap {A B} P (f : A → B) (m : Prog E A) : issues P m → issues P (a ← m; mret (f a)).
Proof. intros Hm. apply issues_bind; [done|]. intros a. apply issues_ret. Qed.

Lemma issues_mono {A} P Q (m : Prog E A) : (∀ e, P e → Q e) → issues P m → issues Q m.
Proof.
  intros HPQ Hm tr. destruct (Hm tr) as (new & He & HP). exists new. split; [done|]. by eapply Forall_impl.
Qed.

(** From the rule to the trace of a run. *)
Lemma issues_trace {A} P (m : Prog E A) tr e : issues P m → e ∈ (m tr).2 → e ∈ tr ∨ P e.
Proof.
  intros Hm. destruct (Hm tr) as (new & -> & HP). rewrite elem_of_app. intros [He|He]; [right|by left].
  by eapply Forall_forall in HP.
Qed.
End Issues.

(** Follows the shape of a program, splitting on its tests. *)
Ltac issue_step :=
  first
    [ apply issues_ret
    | assumption
    | apply issues_call
    | apply issues_result; [|intros ?|intros ?]
    | apply issues_error; [|intros ?|]
    | apply issues_finally
    | apply issues_bind; [|intros ?]
    | match goal with
      | |- issues _ (match ?x with _ => _ end) => destruct x eqn:?
      | |- issues _ (let '_ := ?x in _) => destruct x eqn:?
      end ].
Ltac issue := repeat issue_step.
