(* ===== verification/Outbound.v ===== *)
(** * Services the program calls

    The clients of external services: secret providers ([internal/secrets]), the
    governor over HTTP ([internal/governance/http.go]), notification channels
    ([internal/notify]), the Prometheus query client
    ([internal/analysis/prometheus.go]) and GitHub App tokens
    ([internal/git/githubapp.go]).  Each is a program over the trace of its calls;
    the network, the clock, the environment of the process, mail and the
    cryptography are the class [Net].  JSON is [Json]. *)

From S2P Require Import Prelude Encoding GoTime TimeParse Json Config Model World Git Process.

(** ** The outside *)
Record OutRequest := {
  or_Method : string;
  or_URL : string;
  or_Header : list (string * string);   (* in the order it is set *)
  or_Body : string;
}.

(** The answer: its code, its status line and what can be read of its body. *)
Record OutResponse := { os_Code : Z; os_Status : string; os_Body : string }.

Record Mail := { ma_Addr : string; ma_Auth : option (string * string * string); ma_From : string; ma_To : list string; ma_Msg : string }.

(** What an MCP tool answers: whether it is an error, and its content by type. *)
Definition ToolAnswer : Type := bool * list (string * string).

Inductive NetCall :=
| CDo (r : OutRequest) (timeout : option Duration)
| CLookupEnv (key : string)
| CReadFile (path : string)
| CNow
| CMail (m : Mail)
| CTransport (url : string) (authorization : option string)
| CInitialize
| CCallTool (name : string) (to : list string) (subject body : string)
| CClose.

Class Net := {
  nt_NewRequest : string → option err;             (* an URL that is none *)
  nt_Do : list NetCall → result OutResponse;
  nt_LookupEnv : list NetCall → option string;
  nt_ReadFile : list NetCall → result string;
  nt_Now : list NetCall → Time;
  nt_Mail : list NetCall → option err;
  nt_Transport : list NetCall → option err;
  nt_Initialize : list NetCall → option err;
  nt_CallTool : list NetCall → result ToolAnswer;
  nt_hmac : string → string → string;                (* HMAC-SHA256: key, message *)
  nt_pem : string → option string;                   (* [pem.Decode] *)
  nt_PKCS1 : string → result string;                 (* an RSA key *)
  nt_PKCS8 : string → result (string + string);      (* an RSA key, or the type of another *)
  nt_SignPKCS1v15 : string → string → result string; (* key, what SHA-256 digests *)
  nt_ParseFloat : string → result float;
  nt_FormatFloat : float → string;
}.

Section Net.
Context `{Net}.
Notation P := (Prog NetCall).

(** [client.Do] of a request that could be built. *)
Definition Do (r : OutRequest) (timeout : option Duration) : P (result OutResponse) := call (CDo r timeout) nt_Do.

(** ** Secrets ([secrets.go], [vault.go]) *)
Record Secret := NewSecret { sec_value : string }.
Definition secret_String (s : Secret) : string := "***".
Definition secret_GoString (s : Secret) : string := "secrets.Secret(***)".
Definition Reveal (s : Secret) : string := sec_value s.
Definition secret_IsZero (s : Secret) : bool := sec_value s == "".

Definition SecretProvider : Type := string → P (result Secret).

Definition secrets_ErrNotFound : err := Errorf "secrets: not found".

Definition upper_ascii (c : Ascii.ascii) : Ascii.ascii := if byte_in 97 122 c then char (byte c - 32) else c.
Fixpoint ToUpper (s : string) : string := match s with String c s => String (upper_ascii c) (ToUpper s) | "" => "" end.

Definition envKey (ref : string) : string :=
  ReplaceAll (ReplaceAll (ReplaceAll (ToUpper ref) "-" "_") "/" "_") "." "_".

Definition env_Resolve (prefix : string) : SecretProvider := λ ref,
  let key := prefix +:+ envKey ref in
  v ← call (CLookupEnv key) nt_LookupEnv;
  mret (match v with
        | Some v => if v == "" then Err (Wrap "" secrets_ErrNotFound (": env " +:+ key)) else Ok (NewSecret v)
        | None => Err (Wrap "" secrets_ErrNotFound (": env " +:+ key))
        end).

Fixpoint chain_go (ps : list SecretProvider) (last : option err) (ref : string) : P (result Secret) :=
  match ps with
  | [] => mret (Err (default secrets_ErrNotFound last))
  | p :: ps => r ← p ref; match r with Ok s => mret (Ok s) | Err e => chain_go ps (Some e) ref end
  end.
Definition chain_Resolve (ps : list SecretProvider) : SecretProvider := chain_go ps None.

Record VaultProvider := { va_Addr : string; va_Token : string; va_Mount : string }.

Definition hash_sign : Ascii.ascii := char 35.

(** What precedes the last [c] and what follows it. *)
Fixpoint cut_last (c : Ascii.ascii) (s : string) : option (string * string) :=
  match s with
  | "" => None
  | String d s => match cut_last c s with
                  | Some (a, b) => Some (String d a, b)
                  | None => if d == c then Some ("", s) else None
                  end
  end.
(** The same for the first. *)
Fixpoint cut_first (c : Ascii.ascii) (s : string) : option (string * string) :=
  match s with
  | "" => None
  | String d s => if d == c then Some ("", s) else '(a, b) ← cut_first c s; Some (String d a, b)
  end.

Definition bad_ref (ref : string) : err := Errorf ("secrets: ref " +:+ quote ref +:+ " must be mount/path#key").

Definition parseRef (ref defaultMount : string) : result (string * string * string) :=
  match cut_last hash_sign ref with
  | None => Err (bad_ref ref)
  | Some (loc, key) =>
      let '(mount, path) := default (defaultMount, loc) (cut_first slash loc) in
      if (mount == "") || (path == "") || (key == "") then Err (bad_ref ref) else Ok (mount, path, key)
  end.

(** [strings.TrimRight s "/"] is [trim_slashes_back]. *)
Definition vault_url (v : VaultProvider) (mount path : string) : string :=
  trim_slashes_back (va_Addr v) +:+ "/v1/" +:+ mount +:+ "/data/" +:+ path.

(** The two levels [data] of the answer. *)
Definition vault_data (v : json) : result (gmap string string) :=
  into_struct (λ m k v, if EqualFold k "data" then
    into_struct (λ m k v, if EqualFold k "data" then into_strings m v else Ok m) m v else Ok m) ∅ v.

Definition vault_answer (ref key : string) (resp : OutResponse) : result Secret :=
  if os_Code resp =? 404 then Err (Wrap "" secrets_ErrNotFound (": vault " +:+ ref))
  else if negb (os_Code resp =? 200) then
    Err (Errorf ("secrets: vault status " +:+ pretty (os_Code resp) +:+ ": " +:+ TrimSpace (str_take 512 (os_Body resp))))
  else match (try v <- Decode (os_Body resp); vault_data v) with
       | Err e => Err (Wrap "secrets: vault decode: " e "")
       | Ok data => match data !! key with
                    | None => Err (Wrap "" secrets_ErrNotFound (": key " +:+ quote key +:+ " in " +:+ ref))
                    | Some val => Ok (NewSecret val)
                    end
       end.

Definition vault_Resolve (v : VaultProvider) : SecretProvider := λ ref,
  match parseRef ref (va_Mount v) with
  | Err e => mret (Err e)
  | Ok (mount, path, key) =>
      let url := vault_url v mount path in
      match nt_NewRequest url with
      | Some e => mret (Err e)
      | None =>
          attempt resp <- Do {| or_Method := "GET"; or_URL := url; or_Header := [("X-Vault-Token", va_Token v)]; or_Body := "" |} None
            catch e => mret (Err (Wrap "secrets: vault: " e ""));
          mret (vault_answer ref key resp)
      end
  end.

Definition secret_env : SecretProvider := env_Resolve "ROLLOPS_SECRET_".

Definition vault_token (getenv : string → string) : P (result string) :=
  let token := TrimSpace (getenv "VAULT_TOKEN") in
  let path := TrimSpace (getenv "VAULT_TOKEN_FILE") in
  if (token == "") && (path != "") then
    attempt b <- call (CReadFile path) nt_ReadFile catch e => mret (Err (Wrap "secrets: read VAULT_TOKEN_FILE: " e ""));
    mret (Ok (TrimSpace b))
  else mret (Ok token).

Definition secrets_FromEnv (getenv : string → string) : P (result SecretProvider) :=
  let addr := TrimSpace (getenv "VAULT_ADDR") in
  if addr == "" then mret (Ok secret_env)
  else
    attempt token <- vault_token getenv catch e => mret (Err e);
    mret (Ok (chain_Resolve [vault_Resolve {| va_Addr := addr; va_Token := token; va_Mount := "" |}; secret_env])).

(** ** The governor ([http.go]) *)
Record HTTPProvider := { gp_URL : string; gp_Secret : string; gp_Token : string; gp_Timeout : Duration }.

Definition defaultGovernanceTimeout : Duration := 5 * Second.

Definition governance_FromEnv (getenv : string → string) : option HTTPProvider :=
  let url := getenv "ROLLOPS_GOVERNANCE_URL" in
  if url == "" then None
  else
    let raw := getenv "ROLLOPS_GOVERNANCE_TIMEOUT" in
    let timeout := if raw != "" then
                     match ParseDuration raw with
                     | Ok parsed => if 0 <? parsed then parsed else defaultGovernanceTimeout
                     | Err _ => defaultGovernanceTimeout
                     end
                   else defaultGovernanceTimeout in
    Some {| gp_URL := url; gp_Secret := getenv "ROLLOPS_GOVERNANCE_SECRET";
            gp_Token := getenv "ROLLOPS_GOVERNANCE_TOKEN"; gp_Timeout := timeout |}.

Definition wireRequest (q : GovRequest) : json :=
  JObj ([("action", JStr (gq_Action q)); ("target_ref", JStr (gq_TargetRef q))] ++
        omit_empty_member "environment" (gq_Environment q) ++ omit_empty_member "version" (gq_Version q) ++
        omit_empty_member "actor_id" (id_Name (gq_Actor q)) ++ omit_empty_member "actor_kind" (id_Kind (gq_Actor q))).

(** A decision with its evidence. *)
Definition wireDecision : Type := GovDecision * gmap string string.

Definition decision_field (d : wireDecision) (k : string) (v : json) : result wireDecision :=
  let '(g, evidence) := d in
  if EqualFold k "allowed" then try b <- into_bool (gd_Allowed g) v; Ok ({| gd_Allowed := b; gd_Reason := gd_Reason g |}, evidence)
  else if EqualFold k "reason" then try r <- into_string (gd_Reason g) v; Ok ({| gd_Allowed := gd_Allowed g; gd_Reason := r |}, evidence)
  else if EqualFold k "evidence" then try m <- into_strings evidence v; Ok (g, m)
  else Ok d.

Definition no_decision : wireDecision := ({| gd_Allowed := false; gd_Reason := "" |}, ∅).
Definition decode_decision (body : string) : result wireDecision :=
  try v <- Decode body; into_struct decision_field no_decision v.

Definition signature_header (secret body : string) : list (string * string) :=
  if secret != "" then [("X-Rollops-Signature", "sha256=" +:+ hex_encode (nt_hmac secret body))] else [].

Definition governor_request (p : HTTPProvider) (body : string) : OutRequest := {|
  or_Method := "POST"; or_URL := gp_URL p;
  or_Header := [("Content-Type", "application/json")] ++
               (if gp_Token p != "" then [("Authorization", "Bearer " +:+ gp_Token p)] else []) ++
               signature_header (gp_Secret p) body;
  or_Body := body |}.

Definition http_Evaluate (p : HTTPProvider) (q : GovRequest) : P (result wireDecision) :=
  let body := Marshal (wireRequest q) in
  let timeout := if gp_Timeout p <=? 0 then defaultGovernanceTimeout else gp_Timeout p in
  match nt_NewRequest (gp_URL p) with
  | Some e => mret (Err (Wrap "governance: build request: " e ""))
  | None =>
      attempt resp <- Do (governor_request p body) (Some timeout)
        catch e => mret (Err (Wrap ("governance: " +:+ gp_URL p +:+ " is unreachable: ") e ""));
      if negb (os_Code resp =? 200) then mret (Err (Errorf ("governance: " +:+ gp_URL p +:+ " answered " +:+ os_Status resp)))
      else mret (match decode_decision (os_Body resp) with
                 | Err e => Err (Wrap ("governance: unreadable decision from " +:+ gp_URL p +:+ ": ") e "")
                 | Ok d => Ok d
                 end)
  end.

(** [Hook.Evaluate] over the provider, if there is one. *)
Definition hook_Evaluate (p : option HTTPProvider) (q : GovRequest) : P (result wireDecision) :=
  match p with
  | None => mret (Ok ({| gd_Allowed := true; gd_Reason := "" |}, ∅))
  | Some p =>
      if (gq_Action q == "") || (gq_TargetRef q == "") then mret (Err (Errorf "governance: action and target are required"))
      else
        attempt d <- http_Evaluate p q catch e => mret (Err e);
        mret (Ok (if negb (gd_Allowed d.1) && (gd_Reason d.1 == "")
                  then ({| gd_Allowed := false; gd_Reason := "denied by governance hook" |}, d.2) else d))
  end.

(** ** Notifications ([notify.go], [email.go], [webhook.go], [briefkasten.go]) *)
Definition event_verb (ev : Event) : string * string :=
  if nk_Kind ev == ApprovalNeeded then ("⏳", "needs approval")
  else if nk_Kind ev == NotifyFailed then ("❌", "failed")
  else if nk_Kind ev == NotifyRolledBack then ("↩️", "rolled back")
  else if nk_Kind ev == NotifyPromoted then ("✅", "promoted")
  else ("•", nk_Kind ev).

Definition event_Message (ev : Event) : string :=
  let '(emoji, verb) := event_verb ev in
  emoji +:+ " Rollops: " +:+ nk_TargetRef ev +:+ " " +:+ verb +:+
  (if nk_RolloutID ev != "" then " (" +:+ nk_RolloutID ev +:+ ")" else "") +:+
  (if nk_Detail ev != "" then " — " +:+ nk_Detail ev else "").

Definition event_Subject (ev : Event) : string := "Rollops: " +:+ nk_TargetRef ev +:+ " " +:+ (event_verb ev).2.

Definition event_json (ev : Event) : json :=
  JObj ([("kind", JStr (nk_Kind ev)); ("target_ref", JStr (nk_TargetRef ev)); ("rollout_id", JStr (nk_RolloutID ev))] ++
        omit_empty_member "detail" (nk_Detail ev) ++ omit_empty_member "version" (nk_Version ev) ++
        omit_empty_member "environment" (nk_Environment ev)).

Record Email := { em_Addr : string; em_From : string; em_To : list string; em_Auth : option (string * string * string) }.
Record Webhook := { wh_URL : string; wh_Secret : string }.
Record Briefkasten := { bk_URL : string; bk_Token : string; bk_To : list string }.
Inductive Notifier := NBriefkasten (b : Briefkasten) | NEmail (m : Email) | NWebhook (h : Webhook).

Definition crlf : string := String (char 13) (String (char 10) "").

Definition email_message (m : Email) (ev : Event) : string :=
  "From: " +:+ em_From m +:+ crlf +:+ "To: " +:+ Join (em_To m) ", " +:+ crlf +:+
  "Subject: " +:+ event_Subject ev +:+ crlf +:+
  "MIME-Version: 1.0" +:+ crlf +:+ "Content-Type: text/plain; charset=utf-8" +:+ crlf +:+ crlf +:+
  event_Message ev +:+ crlf.

Definition email_Notify (m : Email) (ev : Event) : P (option err) :=
  er ← call (CMail {| ma_Addr := em_Addr m; ma_Auth := em_Auth m; ma_From := em_From m; ma_To := em_To m;
                      ma_Msg := email_message m ev |}) nt_Mail;
  mret ((λ e, Wrap "notify: email: " e "") <$> er).

Definition webhook_request (h : Webhook) (body : string) : OutRequest := {|
  or_Method := "POST"; or_URL := wh_URL h;
  or_Header := [("Content-Type", "application/json")] ++ signature_header (wh_Secret h) body;
  or_Body := body |}.

Definition webhook_Notify (h : Webhook) (ev : Event) : P (option err) :=
  let body := Marshal (event_json ev) in
  match nt_NewRequest (wh_URL h) with
  | Some e => mret (Some e)
  | None =>
      attempt resp <- Do (webhook_request h body) None catch e => mret (Some (Wrap "notify: webhook: " e ""));
      mret (if 300 <=? os_Code resp then Some (Errorf ("notify: webhook status " +:+ pretty (os_Code resp))) else None)
  end.

(** The text of the first content item that is one. *)
Definition tool_text (content : list (string * string)) : string :=
  default "" (snd <$> head (filter (λ item, item.1 = "text") content)).

Definition briefkasten_call (b : Briefkasten) (name : string) (ev : Event) : P (result (bool * string)) :=
  let auth := if bk_Token b != "" then Some ("Bearer " +:+ bk_Token b) else None in
  ensure call (CTransport (bk_URL b) auth) nt_Transport catch e => mret (Err e);
  ensure call CInitialize nt_Initialize catch e => mret (Err e);
  finally (call CClose (λ _, tt))
    (attempt res <- call (CCallTool name (bk_To b) (event_Subject ev) (event_Message ev)) nt_CallTool catch e => mret (Err e);
     mret (Ok (res.1, tool_text res.2))).

Definition briefkasten_Notify (b : Briefkasten) (ev : Event) : P (option err) :=
  attempt res <- briefkasten_call b "email.send" ev catch e => mret (Some (Wrap "notify: briefkasten: " e ""));
  mret (if res.1 then Some (Errorf ("notify: briefkasten: email.send: " +:+ res.2)) else None).

Definition Notify (n : Notifier) (ev : Event) : P (option err) :=
  match n with NBriefkasten b => briefkasten_Notify b ev | NEmail m => email_Notify m ev | NWebhook h => webhook_Notify h ev end.

(** [Multi]: every channel, and the first error. *)
Fixpoint multi_go (ns : list Notifier) (first : option err) (ev : Event) : P (option err) :=
  match ns with
  | [] => mret first
  | n :: ns => er ← Notify n ev; multi_go ns (match first with Some e => Some e | None => er end) ev
  end.
Definition multi_Notify (ns : list Notifier) (ev : Event) : P (option err) := multi_go ns None ev.

Definition splitRecipients (s : string) : list string := filter (λ r, r ≠ "") (TrimSpace <$> Split s value_separator).

(** The host of an address: up to the last colon. *)
Definition smtp_host (addr : string) : string :=
  match cut_last name_separator addr with Some (host, _) => host | None => addr end.

Definition notify_FromEnv (getenv : string → string) : option (list Notifier) * list string :=
  let briefkasten := getenv "ROLLOPS_BRIEFKASTEN_URL" in
  let addr := getenv "ROLLOPS_SMTP_ADDR" in
  let hook := getenv "ROLLOPS_WEBHOOK_URL" in
  let user := getenv "ROLLOPS_SMTP_USER" in
  let ns :=
    (if briefkasten != "" then [(NBriefkasten {| bk_URL := briefkasten; bk_Token := getenv "ROLLOPS_BRIEFKASTEN_TOKEN";
       bk_To := splitRecipients (getenv "ROLLOPS_BRIEFKASTEN_TO") |}, "briefkasten")] else []) ++
    (if addr != "" then [(NEmail {| em_Addr := addr; em_From := getenv "ROLLOPS_SMTP_FROM";
       em_To := splitRecipients (getenv "ROLLOPS_SMTP_TO");
       em_Auth := if user != "" then Some (user, getenv "ROLLOPS_SMTP_PASS", smtp_host addr) else None |}, "email")] else []) ++
    (if hook != "" then [(NWebhook {| wh_URL := hook; wh_Secret := getenv "ROLLOPS_WEBHOOK_SECRET" |}, "webhook")] else []) in
  if (length ns =? 0)%nat then (None, []) else (Some ns.*1, ns.*2).

(** ** Prometheus ([prometheus.go]) *)
Record SeriesSample := { ss_Labels : gmap string string; ss_Value : float }.
Record promResponse := { pr_Status : string; pr_ResultType : string; pr_Result : list json; pr_Error : string }.

Definition up_hex (n : Z) : Ascii.ascii := char (if n <? 10 then 48 + n else 55 + n).
(** [url.QueryEscape]. *)
Definition query_plain (c : Ascii.ascii) : bool :=
  byte_in 97 122 c || byte_in 65 90 c || byte_in 48 57 c || bool_decide (byte c ∈ [45; 95; 46; 126]).
Fixpoint QueryEscape (s : string) : string :=
  match s with
  | "" => ""
  | String c s => if query_plain c then String c (QueryEscape s)
                  else if byte c =? 32 then String (char 43) (QueryEscape s)
                  else String (char 37) (String (up_hex (byte c / 16)) (String (up_hex (byte c mod 16)) (QueryEscape s)))
  end.

Definition into_raws (old : list json) (v : json) : result (list json) :=
  match v with JArr l => Ok l | JNull => Ok [] | _ => Err wrong_type end.

Definition prom_data_field (r : promResponse) (k : string) (v : json) : result promResponse :=
  if EqualFold k "resultType" then
    try s <- into_string (pr_ResultType r) v;
    Ok {| pr_Status := pr_Status r; pr_ResultType := s; pr_Result := pr_Result r; pr_Error := pr_Error r |}
  else if EqualFold k "result" then
    try l <- into_raws (pr_Result r) v;
    Ok {| pr_Status := pr_Status r; pr_ResultType := pr_ResultType r; pr_Result := l; pr_Error := pr_Error r |}
  else Ok r.

Definition prom_field (r : promResponse) (k : string) (v : json) : result promResponse :=
  if EqualFold k "status" then
    try s <- into_string (pr_Status r) v;
    Ok {| pr_Status := s; pr_ResultType := pr_ResultType r; pr_Result := pr_Result r; pr_Error := pr_Error r |}
  else if EqualFold k "data" then into_struct prom_data_field r v
  else if EqualFold k "error" then
    try s <- into_string (pr_Error r) v;
    Ok {| pr_Status := pr_Status r; pr_ResultType := pr_ResultType r; pr_Result := pr_Result r; pr_Error := s |}
  else Ok r.

Definition decode_prom (body : string) : result promResponse :=
  try v <- Decode body;
  into_struct prom_field {| pr_Status := ""; pr_ResultType := ""; pr_Result := []; pr_Error := "" |} v.

(** A value read as [any]: a number must be a [float64]. *)
Fixpoint any_error (v : json) : option err :=
  match v with
  | JNum lit => match nt_ParseFloat lit with Ok _ => None | Err e => Some e end
  | JArr l => foldr (λ v e, match any_error v with Some e => Some e | None => e end) None l
  | JObj l => foldr (λ kv e, match any_error kv.2 with Some e => Some e | None => e end) None l
  | _ => None
  end.

(** A JSON array read as [[]any]. *)
Definition into_anys (v : json) : result (list json) :=
  match v with
  | JArr l => match any_error v with Some e => Err e | None => Ok l end
  | JNull => Ok []
  | _ => Err wrong_type
  end.

Definition not_a_number : err := Errorf "strconv.ParseFloat: invalid syntax".

(** [strconv.ParseFloat (fmt.Sprint v)]; what [Sprint] makes of an array or an
    object is no number. *)
Definition sample_number (v : json) : result float :=
  match v with
  | JStr s => nt_ParseFloat s
  | JNum lit => try f <- nt_ParseFloat lit; nt_ParseFloat (nt_FormatFloat f)
  | JBool b => nt_ParseFloat (if b then "true" else "false")
  | JNull => nt_ParseFloat "<nil>"
  | _ => Err not_a_number
  end.

Definition vector_field (it : gmap string string * list json) (k : string) (v : json) : result (gmap string string * list json) :=
  if EqualFold k "metric" then try m <- into_strings it.1 v; Ok (m, it.2)
  else if EqualFold k "value" then try l <- into_anys v; Ok (it.1, l)
  else Ok it.

Definition parseSample (resultType : string) (raw : json) : result SeriesSample :=
  if resultType == "scalar" then
    match into_anys raw with
    | Ok [_; v] => try f <- sample_number v; Ok {| ss_Labels := ∅; ss_Value := f |}
    | _ => Err (Errorf "analysis: bad scalar result")
    end
  else
    match into_struct vector_field (∅, []) raw with
    | Ok (labels, [_; v]) => try f <- sample_number v; Ok {| ss_Labels := labels; ss_Value := f |}
    | _ => Err (Errorf "analysis: bad vector result")
    end.

Fixpoint parse_samples (resultType : string) (l : list json) : result (list SeriesSample) :=
  match l with
  | [] => Ok []
  | raw :: l => try s <- parseSample resultType raw; try rest <- parse_samples resultType l; Ok (s :: rest)
  end.

Definition prom_answer (query : string) (resp : OutResponse) : result (list SeriesSample) :=
  if negb (os_Code resp =? 200) then Err (Errorf ("analysis: prometheus status " +:+ pretty (os_Code resp)))
  else match decode_prom (os_Body resp) with
       | Err e => Err (Wrap "analysis: prometheus decode: " e "")
       | Ok r =>
           if pr_Status r != "success" then Err (Errorf ("analysis: prometheus error: " +:+ pr_Error r))
           else if (length (pr_Result r) =? 0)%nat then Err (Errorf ("analysis: prometheus query " +:+ quote query +:+ " returned no data"))
           else parse_samples (pr_ResultType r) (pr_Result r)
       end.

Definition prom_url (addr query : string) : string := addr +:+ "/api/v1/query?query=" +:+ QueryEscape query.

Definition QuerySeries (addr query : string) : P (result (list SeriesSample)) :=
  let u := prom_url addr query in
  match nt_NewRequest u with
  | Some e => mret (Err e)
  | None =>
      attempt resp <- Do {| or_Method := "GET"; or_URL := u; or_Header := []; or_Body := "" |} None
        catch e => mret (Err (Wrap "analysis: prometheus: " e ""));
      mret (prom_answer query resp)
  end.

Definition formatLabels (m : gmap string string) : string :=
  if (size m =? 0)%nat then "{}"
  else "{" +:+ Join ((λ k, k +:+ "=" +:+ quote (default "" (m !! k))) <$> sort_strings (elements (dom m))) ", " +:+ "}".

Definition multiSeriesError (query : string) (samples : list SeriesSample) : err :=
  Errorf ("analysis: prometheus query " +:+ quote query +:+ " returned " +:+ pretty (length samples) +:+ " series (e.g. " +:+
          formatLabels (from_option ss_Labels ∅ (head samples)) +:+
          "); set metrics[].aggregation (max|min|sum|any) or narrow the query").

(** An empty answer is an error already, so the first sample is there. *)
Definition Query (addr query : string) : P (result float) :=
  attempt samples <- QuerySeries addr query catch e => mret (Err e);
  mret (match samples with [s] => Ok (ss_Value s) | _ => Err (multiSeriesError query samples) end).

(** ** GitHub App tokens ([githubapp.go]) *)
Record GitHubApp := {
  ga_appID : string;
  ga_installationID : string;
  ga_key : string;
  ga_apiBase : string;
  ga_token : string;
  ga_exp : Time;
}.

Definition parseRSAPrivateKey (pemKey : string) : result string :=
  match nt_pem pemKey with
  | None => Err (Errorf "githubapp: no PEM block in private key")
  | Some block =>
      match nt_PKCS1 block with
      | Ok key => Ok key
      | Err _ =>
          match nt_PKCS8 block with
          | Err e => Err (Wrap "githubapp: parse private key (PKCS#1/#8): " e "")
          | Ok (inl key) => Ok key
          | Ok (inr type) => Err (Errorf ("githubapp: private key is " +:+ type +:+ ", want RSA"))
          end
      end
  end.

Definition WithGitHubAPIBase (base : string) (g : GitHubApp) : GitHubApp := {|
  ga_appID := ga_appID g; ga_installationID := ga_installationID g; ga_key := ga_key g; ga_apiBase := base;
  ga_token := ga_token g; ga_exp := ga_exp g |}.

(** The options left are those of a client and of a clock, which are outside. *)
Definition NewGitHubApp (appID installationID pemKey : string) (opts : list (GitHubApp → GitHubApp)) : result GitHubApp :=
  if (appID == "") || (installationID == "") then Err (Errorf "githubapp: appID and installationID are required")
  else try key <- parseRSAPrivateKey pemKey;
       Ok (foldl (λ g o, o g) {| ga_appID := appID; ga_installationID := installationID; ga_key := key;
                                 ga_apiBase := "https://api.github.com"; ga_token := ""; ga_exp := zero_time |} opts).

Definition base64URL (b : string) : string := EncodeToString RawURLEncoding b.

Definition jwt_header : json := JObj [("alg", JStr "RS256"); ("typ", JStr "JWT")].
Definition unix (t : Time) : Z := t / Second.
Definition jwt_claims (appID : string) (now : Time) : json :=
  JObj [("exp", JNum (pretty (unix (now + 9 * Minute)))); ("iat", JNum (pretty (unix (now - 60 * Second)))); ("iss", JStr appID)].

Definition read_clock : P Time := call CNow nt_Now.

Definition signing_input (appID : string) (now : Time) : string :=
  base64URL (Marshal jwt_header) +:+ "." +:+ base64URL (Marshal (jwt_claims appID now)).

Definition signJWT (g : GitHubApp) : P (result string) :=
  now ← read_clock;
  let signingInput := signing_input (ga_appID g) now in
  mret (match nt_SignPKCS1v15 (ga_key g) signingInput with
        | Err e => Err (Wrap "githubapp: sign jwt: " e "")
        | Ok sig => Ok (signingInput +:+ "." +:+ base64URL sig)
        end).

(** [time.Time.UnmarshalJSON]; GitHub writes no escapes in a time. *)
Definition into_time (old : Time) (v : json) : result Time :=
  match v with JStr s => ParseRFC3339 s | JNull => Ok old | _ => Err wrong_type end.

Definition token_field (r : string * Time) (k : string) (v : json) : result (string * Time) :=
  if EqualFold k "token" then try s <- into_string r.1 v; Ok (s, r.2)
  else if EqualFold k "expires_at" then try t <- into_time r.2 v; Ok (r.1, t)
  else Ok r.

(** The token and its expiry, the zero time when it has none. *)
Definition token_answer (resp : OutResponse) : result (string * Time) :=
  let body := limited (os_Body resp) in
  if negb (os_Code resp =? 201) then
    Err (Errorf ("githubapp: installation token status " +:+ pretty (os_Code resp) +:+ ": " +:+ TrimSpace body))
  else match (try v <- Unmarshal body; into_struct token_field ("", zero_time) v) with
       | Err e => Err (Wrap "githubapp: parse installation token: " e "")
       | Ok (token, exp) => if token == "" then Err (Errorf "githubapp: empty installation token in response") else Ok (token, exp)
       end.

Definition token_request (g : GitHubApp) (jwt : string) : OutRequest := {|
  or_Method := "POST"; or_URL := ga_apiBase g +:+ "/app/installations/" +:+ ga_installationID g +:+ "/access_tokens";
  or_Header := [("Authorization", "Bearer " +:+ jwt); ("Accept", "application/vnd.github+json"); ("X-GitHub-Api-Version", "2022-11-28")];
  or_Body := "" |}.

Definition mint (g : GitHubApp) : P (result (string * Time)) :=
  attempt jwt <- signJWT g catch e => mret (Err e);
  match nt_NewRequest (or_URL (token_request g jwt)) with
  | Some e => mret (Err e)
  | None =>
      attempt resp <- Do (token_request g jwt) None catch e => mret (Err (Wrap "githubapp: installation token request: " e ""));
      match token_answer resp with
      | Err e => mret (Err e)
      | Ok (token, exp) =>
          if exp == zero_time then now ← read_clock; mret (Ok (token, now + Hour)) else mret (Ok (token, exp))
      end
  end.

Definition set_token (g : GitHubApp) (token : string) (exp : Time) : GitHubApp := {|
  ga_appID := ga_appID g; ga_installationID := ga_installationID g; ga_key := ga_key g; ga_apiBase := ga_apiBase g;
  ga_token := token; ga_exp := exp |}.

(** The cached token is looked at with one reading of the clock. *)
Definition Token (g : GitHubApp) : P (result string * GitHubApp) :=
  cached ← (if ga_token g != "" then now ← read_clock; mret (now <? ga_exp g - 60 * Second) else mret false);
  if (cached : bool) then mret (Ok (ga_token g), g)
  else
    attempt r <- mint g catch e => mret (Err e, g);
    mret (Ok r.1, set_token g r.1 r.2).
End Net.
