(* ===== verification/Boot.v ===== *)
(** * Building an engine

    [engine.New] and its options, and [internal/boot]: how the daemon and the
    one-shot command build the same engine from the environment of the process
    and the store.  An engine that boots has its guardrails and starts with the
    freeze the store has. *)

From S2P Require Import Prelude Encoding GoTime TimeParse Json Config Model Security Provenance Store World Git ConfigLoad Process Outbound.

(** ** The engine and its options ([engine.go]) *)
Definition EngineOption : Type := Engine → Engine.

Definition WithGuardrails (g : Guardrails) : EngineOption := λ e, {|
  e_guardrails := Some g; e_audit := e_audit e; e_governance := e_governance e; e_artifact := e_artifact e;
  e_secrets := e_secrets e; e_notifier := e_notifier e; e_metrics := e_metrics e; e_analysis := e_analysis e;
  e_confinement := e_confinement e; e_owner := e_owner e; e_leaseTTL := e_leaseTTL e;
  e_healthRetryDelay := e_healthRetryDelay e; e_allowSelfApprove := e_allowSelfApprove e; e_root := e_root e |}.
Definition WithAudit : EngineOption := λ e, {|
  e_guardrails := e_guardrails e; e_audit := true; e_governance := e_governance e; e_artifact := e_artifact e;
  e_secrets := e_secrets e; e_notifier := e_notifier e; e_metrics := e_metrics e; e_analysis := e_analysis e;
  e_confinement := e_confinement e; e_owner := e_owner e; e_leaseTTL := e_leaseTTL e;
  e_healthRetryDelay := e_healthRetryDelay e; e_allowSelfApprove := e_allowSelfApprove e; e_root := e_root e |}.
Definition WithGovernance (p : option HTTPProvider) : EngineOption := λ e, {|
  e_guardrails := e_guardrails e; e_audit := e_audit e; e_governance := bool_decide (is_Some p); e_artifact := e_artifact e;
  e_secrets := e_secrets e; e_notifier := e_notifier e; e_metrics := e_metrics e; e_analysis := e_analysis e;
  e_confinement := e_confinement e; e_owner := e_owner e; e_leaseTTL := e_leaseTTL e;
  e_healthRetryDelay := e_healthRetryDelay e; e_allowSelfApprove := e_allowSelfApprove e; e_root := e_root e |}.
Definition WithArtifactGate (mode : string) (verifier : bool) : EngineOption := λ e, {|
  e_guardrails := e_guardrails e; e_audit := e_audit e; e_governance := e_governance e; e_artifact := Some (mode, verifier);
  e_secrets := e_secrets e; e_notifier := e_notifier e; e_metrics := e_metrics e; e_analysis := e_analysis e;
  e_confinement := e_confinement e; e_owner := e_owner e; e_leaseTTL := e_leaseTTL e;
  e_healthRetryDelay := e_healthRetryDelay e; e_allowSelfApprove := e_allowSelfApprove e; e_root := e_root e |}.
Definition WithSecrets : EngineOption := λ e, {|
  e_guardrails := e_guardrails e; e_audit := e_audit e; e_governance := e_governance e; e_artifact := e_artifact e;
  e_secrets := true; e_notifier := e_notifier e; e_metrics := e_metrics e; e_analysis := e_analysis e;
  e_confinement := e_confinement e; e_owner := e_owner e; e_leaseTTL := e_leaseTTL e;
  e_healthRetryDelay := e_healthRetryDelay e; e_allowSelfApprove := e_allowSelfApprove e; e_root := e_root e |}.
Definition WithNotifier : EngineOption := λ e, {|
  e_guardrails := e_guardrails e; e_audit := e_audit e; e_governance := e_governance e; e_artifact := e_artifact e;
  e_secrets := e_secrets e; e_notifier := true; e_metrics := e_metrics e; e_analysis := e_analysis e;
  e_confinement := e_confinement e; e_owner := e_owner e; e_leaseTTL := e_leaseTTL e;
  e_healthRetryDelay := e_healthRetryDelay e; e_allowSelfApprove := e_allowSelfApprove e; e_root := e_root e |}.
Definition WithMetricsProvider : EngineOption := λ e, {|
  e_guardrails := e_guardrails e; e_audit := e_audit e; e_governance := e_governance e; e_artifact := e_artifact e;
  e_secrets := e_secrets e; e_notifier := e_notifier e; e_metrics := true; e_analysis := true;
  e_confinement := e_confinement e; e_owner := e_owner e; e_leaseTTL := e_leaseTTL e;
  e_healthRetryDelay := e_healthRetryDelay e; e_allowSelfApprove := e_allowSelfApprove e; e_root := e_root e |}.
Definition WithMetricAnalysis : EngineOption := λ e, {|
  e_guardrails := e_guardrails e; e_audit := e_audit e; e_governance := e_governance e; e_artifact := e_artifact e;
  e_secrets := e_secrets e; e_notifier := e_notifier e; e_metrics := e_metrics e; e_analysis := true;
  e_confinement := e_confinement e; e_owner := e_owner e; e_leaseTTL := e_leaseTTL e;
  e_healthRetryDelay := e_healthRetryDelay e; e_allowSelfApprove := e_allowSelfApprove e; e_root := e_root e |}.
(** The command runners of the engine read the same field. *)
Definition WithConfinement (c : Confinement) : EngineOption := λ e, {|
  e_guardrails := e_guardrails e; e_audit := e_audit e; e_governance := e_governance e; e_artifact := e_artifact e;
  e_secrets := e_secrets e; e_notifier := e_notifier e; e_metrics := e_metrics e; e_analysis := e_analysis e;
  e_confinement := c; e_owner := e_owner e; e_leaseTTL := e_leaseTTL e;
  e_healthRetryDelay := e_healthRetryDelay e; e_allowSelfApprove := e_allowSelfApprove e; e_root := e_root e |}.
Definition WithLeaseOwner (owner : string) : EngineOption := λ e, {|
  e_guardrails := e_guardrails e; e_audit := e_audit e; e_governance := e_governance e; e_artifact := e_artifact e;
  e_secrets := e_secrets e; e_notifier := e_notifier e; e_metrics := e_metrics e; e_analysis := e_analysis e;
  e_confinement := e_confinement e; e_owner := owner; e_leaseTTL := e_leaseTTL e;
  e_healthRetryDelay := e_healthRetryDelay e; e_allowSelfApprove := e_allowSelfApprove e; e_root := e_root e |}.
Definition WithLeaseTTL (ttl : Duration) : EngineOption := λ e, {|
  e_guardrails := e_guardrails e; e_audit := e_audit e; e_governance := e_governance e; e_artifact := e_artifact e;
  e_secrets := e_secrets e; e_notifier := e_notifier e; e_metrics := e_metrics e; e_analysis := e_analysis e;
  e_confinement := e_confinement e; e_owner := e_owner e; e_leaseTTL := ttl;
  e_healthRetryDelay := e_healthRetryDelay e; e_allowSelfApprove := e_allowSelfApprove e; e_root := e_root e |}.
Definition WithHealthRetryDelay (d : Duration) : EngineOption := λ e, {|
  e_guardrails := e_guardrails e; e_audit := e_audit e; e_governance := e_governance e; e_artifact := e_artifact e;
  e_secrets := e_secrets e; e_notifier := e_notifier e; e_metrics := e_metrics e; e_analysis := e_analysis e;
  e_confinement := e_confinement e; e_owner := e_owner e; e_leaseTTL := e_leaseTTL e;
  e_healthRetryDelay := d; e_allowSelfApprove := e_allowSelfApprove e; e_root := e_root e |}.

(** [defaultOwner]: the host and the process. *)
Definition defaultOwner (hostname : string) (pid : Z) : string :=
  (if hostname == "" then "localhost" else hostname) +:+ ":" +:+ pretty pid.

(** [allowSelfApprove]: read once from the environment of the process. *)
Definition allowSelfApprove (getenv : string → string) : bool := getenv "ROLLOPS_ALLOW_SELF_APPROVE" == "1".

(** No confinement: the zero value. *)
Definition no_confinement : Confinement := {|
  cf_commands := {| as_enabled := false; as_values := ∅ |}; cf_namespaces := {| as_enabled := false; as_values := ∅ |};
  cf_confineCluster := false; cf_allowedEnv := [] |}.

(** [New]; the root of an operation comes with its context. *)
Definition New (getenv : string → string) (hostname : string) (pid : Z) (opts : list EngineOption) : Engine :=
  foldl (λ e o, o e) {|
    e_guardrails := None; e_audit := false; e_governance := false; e_artifact := None; e_secrets := false;
    e_notifier := false; e_metrics := false; e_analysis := false; e_confinement := no_confinement;
    e_owner := defaultOwner hostname pid; e_leaseTTL := 2 * Minute; e_healthRetryDelay := 10 * Second;
    e_allowSelfApprove := allowSelfApprove getenv; e_root := "" |} opts.

(** ** [internal/boot] *)
Definition analysisEnabled (v : string) : bool :=
  let v := ToLower (TrimSpace v) in (v == "1") || (v == "true") || (v == "yes").

Definition Confinement_Active (c : Confinement) : bool :=
  as_enabled (cf_commands c) || as_enabled (cf_namespaces c) || cf_confineCluster c.
Definition onOff (b : bool) : string := if b then "on" else "off".
Definition LogSummary (c : Confinement) : string :=
  "commands=" +:+ onOff (as_enabled (cf_commands c)) +:+ " namespaces=" +:+ onOff (as_enabled (cf_namespaces c)) +:+
  " cluster=" +:+ onOff (cf_confineCluster c) +:+ " env=confined(+" +:+ pretty (length (cf_allowedEnv c)) +:+ ")".

Definition boot_guardrails : Guardrails :=
  {| gr_Floor := DefaultPolicyFloor; gr_Freeze := true; gr_AgentLimit := true; gr_FreezeSource := true |}.

(** The options with what they carry: the freeze of this process, the providers,
    and the lines of the log. *)
Record Booted := {
  bt_options : list EngineOption;
  bt_freeze : Freeze;
  bt_secrets : SecretProvider;
  bt_gate : option (string * ArtifactVerifier);
  bt_notifier : option (list Notifier);
  bt_governance : option HTTPProvider;
  bt_log : list string;
}.

Section Boot.
Context `{Net, Codec} (cosign : nat → list string → string * option err).
Context {S : Type} `{!Store S} (getenv : string → string).

Definition gate_log : list string :=
  (if (0 <? length (parseList (getenv "ROLLOPS_PROVENANCE_BUILDERS")))%nat && negb (boot_authenticated getenv)
   then ["rollops: ROLLOPS_PROVENANCE_BUILDERS is set but no cosign key or identity is; provenance cannot be verified without one"] else []) ++
  (if (0 <? length (parseList (getenv "ROLLOPS_SOURCE_GATES")))%nat && (length (parseList (getenv "ROLLOPS_SOURCE_KEYS")) =? 0)%nat
   then ["rollops: ROLLOPS_SOURCE_GATES is set but ROLLOPS_SOURCE_KEYS is not; the source summary is verified against the gate's own public key"] else []).

Definition confinement_log (c : Confinement) : list string :=
  ("rollops: multi-tenant confinement: " +:+ LogSummary c) ::
  (if negb (Confinement_Active c) then
     ["rollops: multi-tenant confinement is OFF (trusted-repo mode); for untrusted/multi-tenant repos set ROLLOPS_ALLOWED_COMMANDS, ROLLOPS_ALLOWED_NAMESPACES, and/or ROLLOPS_CONFINE_TARGET_CLUSTER=1"]
   else []).

(** The options once the freeze row and the secret provider are there. *)
Definition assemble (row : FreezeState) (prov : SecretProvider) : Booted :=
  let owner := if getenv "ROLLOPS_INSTANCE_ID" == "" then "rollopsd" else getenv "ROLLOPS_INSTANCE_ID" in
  let analysis := analysisEnabled (getenv "ROLLOPS_ANALYSIS") in
  let '(gate, describe) := artifactGate cosign getenv in
  let notifier := (notify_FromEnv getenv).1 in
  let governor := governance_FromEnv getenv in
  let confinement := ConfinementFromEnv getenv in
  {| bt_options :=
       [WithAudit; WithGuardrails boot_guardrails; WithSecrets; WithLeaseOwner owner] ++
       (if analysis then [WithMetricAnalysis] else []) ++
       (match gate with Some (mode, _) => [WithArtifactGate mode true] | None => [] end) ++
       (match notifier with Some _ => [WithNotifier] | None => [] end) ++
       (match governor with Some p => [WithGovernance (Some p)] | None => [] end) ++
       [WithConfinement confinement];
     bt_freeze := if fs_Active row then Engage NewFreeze (fs_By row) (fs_Reason row) else NewFreeze;
     bt_secrets := prov; bt_gate := gate; bt_notifier := notifier; bt_governance := governor;
     bt_log :=
       (if fs_Active row then ["rollops: freeze restored (" +:+ fs_Reason row +:+ ")"] else []) ++
       (if getenv "VAULT_ADDR" != "" then ["rollops: secret chain Vault+Env (" +:+ getenv "VAULT_ADDR" +:+ ")"] else []) ++
       (if analysis then ["rollops: metric analysis enabled (observability-free default is off)"] else []) ++
       gate_log ++
       (match gate with Some _ => ["rollops: artifact gate: " +:+ describe] | None => [] end) ++
       (match governor with Some p => ["rollops: external governance: " +:+ gp_URL p +:+ " (fail-closed)"] | None => [] end) ++
       confinement_log confinement |}.

Definition boot_Options (st : option S) : Prog NetCall (result Booted * option S) :=
  match st with
  | None => mret (Err (Errorf "boot: store is required"), None)
  | Some s =>
      let '(row, s) := LoadFreeze s in
      match row with
      | Err e => mret (Err (Wrap "boot: load freeze: " e ""), Some s)
      | Ok row =>
          attempt prov <- secrets_FromEnv getenv catch e => mret (Err (Wrap "boot: secrets: " e ""), Some s);
          mret (Ok (assemble row prov), Some s)
      end
  end.
End Boot.
