(* ===== verification/KubeRender.v ===== *)
(** * Rendering a kubernetes manifest

    [internal/target/kubernetes/render.go]: the bytes to apply, from an inline
    manifest, a chart, an overlay, a bundle of a registry or a bucket, and the
    override of container images.  The tools ([helm], [kubectl kustomize],
    [oras], [aws], [gsutil]), the file system and the YAML and JSON codecs are
    the class [Tools]. *)

From S2P Require Import Prelude Encoding Config Model World ImageSelect Git Process.

(** ** Tools *)

(** How a process ended badly: an [exec.ExitError] with its code, or another
    error; the text is its [Error]. *)
Inductive procErr :=
| PExit (code : Z) (text : string)
| PFail (text : string).

Record Proc := { pr_out : string; pr_err : string; pr_fail : option procErr }.

Inductive ToolCall :=
| TExec (name : string) (stdin : option string) (args : list string)
| TReadFile (path : string)
| TMkdirTemp (pattern : string)
| TRemoveAll (path : string)
| TStderr (msg : string).

(** One answer of a YAML decoder reading a document into a [map[string]any]:
    the map, a null document, or a document that is not a mapping. *)
Inductive decoded :=
| DDoc (doc : list (string * any))
| DNull
| DBad (e : err).

Record statusCondition := { sc_Type : string; sc_Status : string; sc_Reason : string; sc_Message : string }.

(** The answers to the newest call of a trace, and the codecs.  A stream of
    YAML documents is what its decoder answers in turn, then for ever [io.EOF]
    ([None]) or the syntax error that stopped it. *)
Class Tools := {
  tl_exec : list ToolCall → Proc;
  tl_read : list ToolCall → result string;
  tl_mkdir : list ToolCall → result string;
  tl_json : string → option (gmap string any);            (* a JSON object *)
  tl_docs : string → list decoded * option err;
  tl_docs_out : list (list (string * any)) → result string;
  tl_nodes : string → list Node * option err;
  tl_nodes_out : list Node → result string;
  tl_nodes_close : list Node → option err;
  tl_yaml : string → result any;                          (* the first document *)
  tl_marshal : list (string * any) → result string;
  tl_conditions : string → result (list statusCondition);
  tl_labels : string → result (gmap string string);
}.

(** The error of a command, with the exit code [errors.As] finds. *)
Record cmdErr := { ce_exit : option Z; ce_err : err }.

Definition proc_exit (e : procErr) : option Z := match e with PExit code _ => Some code | PFail _ => None end.
Definition proc_err (e : procErr) : err := match e with PExit _ text | PFail text => Errorf text end.

Section Render.
Context `{Tools}.

(** The output, and the error if the process failed. *)
Definition execRunner (name : string) (stdin : option string) (args : list string) : Prog ToolCall (string * option cmdErr) :=
  p ← call (TExec name stdin args) tl_exec;
  mret (pr_out p, (λ e, {| ce_exit := proc_exit e; ce_err := Wrap (name +:+ ": ") (proc_err e) (": " +:+ pr_err p) |}) <$> pr_fail p).

(** A command of which only the error or the output matters. *)
Definition run (name : string) (stdin : option string) (args : list string) : Prog ToolCall (result string) :=
  r ← execRunner name stdin args;
  mret (match r.2 with Some e => Err (ce_err e) | None => Ok r.1 end).

Definition os_ReadFile (path : string) : Prog ToolCall (result string) := call (TReadFile path) tl_read.
Definition os_MkdirTemp (pattern : string) : Prog ToolCall (result string) := call (TMkdirTemp pattern) tl_mkdir.
Definition os_RemoveAll (path : string) : Prog ToolCall unit := call (TRemoveAll path) (λ _, tt).

Definition str (m : list (string * any)) (key : string) : string := as_string (any_at m key).

(** ** Where a source is *)
Definition isRemoteSource (p : string) : bool :=
  Contains p "://" || HasPrefix p "git@" || Contains p "//" ||
  existsb (HasPrefix p) ["github.com/"; "gitlab.com/"; "bitbucket.org/"].

Definition resolveSourcePath (root path : string) : result string :=
  if isRemoteSource path then Ok path
  else if root == "" then Ok path
  else
    let clean := Clean path in
    if HasPrefix clean "/" || (clean == "..") || HasPrefix clean "../" then
      Err (Errorf ("path " +:+ quote path +:+ " escapes the config root"))
    else Ok (path_join root clean).

(** ** Images of containers *)
Definition imageRepo (image : string) : string :=
  let image := match IndexByte image at_sign with Some i => str_take i image | None => image end in
  match LastIndexByte image colon with
  | Some i => if index_z (LastIndexByte image slash) <? Z.of_nat i then str_take i image else image
  | None => image
  end.

Definition childByKey (m : Node) (key : string) : option Node :=
  match m with NMapping content => find_key key content | _ => None end.

Definition update_child (key : string) (f : Node → Node) (m : Node) : Node :=
  match m with NMapping content => NMapping (update_key key f content) | m => m end.

(** A document is unwrapped to its first node. *)
Definition k8s_mappingPath (n : Node) (keys : list string) : option Node :=
  descend (match n with NDocument (m :: _) => m | n => n end) keys.

Definition update_doc (f : Node → Node) (keys : list string) (n : Node) : Node :=
  match n with NDocument (m :: rest) => NDocument (update_path f keys m :: rest) | n => update_path f keys n end.

Definition container_image (repoFilter image : string) (c : Node) : Node * bool :=
  match childByKey c "image" with
  | None => (c, false)
  | Some img =>
      if (repoFilter == "") || (imageRepo (node_value img) == repoFilter)
      then (update_child "image" (set_value image) c, true)
      else (c, false)
  end.

(** One of the two lists of a pod template; a node with items is a sequence. *)
Definition container_list (repoFilter image : string) (acc : Node * bool) (key : string) : Node * bool :=
  match childByKey acc.1 key with
  | Some (NOther v items) =>
      let rs := container_image repoFilter image <$> items in
      (update_child key (λ _, NOther v rs.*1) acc.1, acc.2 || existsb snd rs)
  | _ => acc
  end.

Definition pod_path : list string := ["spec"; "template"; "spec"].

Definition setContainerImages (doc : Node) (repoFilter image : string) (matched : bool) : Node * bool :=
  match k8s_mappingPath doc pod_path with
  | None => (doc, matched)
  | Some tmpl =>
      let '(tmpl, matched) := foldl (container_list repoFilter image) (tmpl, matched) ["containers"; "initContainers"] in
      (update_doc (λ _, tmpl) pod_path doc, matched)
  end.

(** The loop stops at the first error of the decoder, [io.EOF] or not. *)
Definition overrideContainerImage (manifest image : string) : result string :=
  let repo := imageRepo image in
  let '(docs, matchedAny) :=
    foldl (λ acc doc, let '(doc, matched) := setContainerImages doc repo image acc.2 in (acc.1 ++ [doc], matched))
          ([], false) (tl_nodes manifest).1 in
  let docs := if matchedAny : bool then docs else (λ d, (setContainerImages d "" image matchedAny).1) <$> docs in
  match tl_nodes_out docs with
  | Err er => Err (Wrap "kubernetes: image override encode: " er "")
  | Ok out => match tl_nodes_close docs with Some er => Err er | None => Ok out end
  end.

(** ** Sources *)
Definition renderTree (root mode file src : string) : Prog ToolCall (result string) :=
  if mode == "manifest" then
    if file == "" then mret (Err (Errorf ("kubernetes: " +:+ src +:+ ".file is required when render is manifest")))
    else
      attempt data <- os_ReadFile (path_join root file)
        catch er => mret (Err (Wrap ("kubernetes: " +:+ src +:+ " read manifest: ") er ""));
      mret (Ok data)
  else
    attempt out <- run "kubectl" None ["kustomize"; root]
      catch er => mret (Err (Wrap ("kubernetes: " +:+ src +:+ " kustomize build: ") er ""));
    mret (Ok out).

(** The fetched directory, or the subdirectory the source names. *)
Definition tree_root (dir sub : string) : string := if sub != "" then path_join dir sub else dir.

Definition renderBucket (b : list (string * any)) : Prog ToolCall (result string) :=
  let urlStr := str b "url" in
  if urlStr == "" then mret (Err (Errorf "kubernetes: bucket.url is required"))
  else
    attempt dir <- os_MkdirTemp "rollops-bucket-"
      catch er => mret (Err (Wrap "kubernetes: bucket temp dir: " er ""));
    finally (os_RemoveAll dir) (
      let rest := renderTree (tree_root dir (str b "path")) (str b "render") (str b "file") "bucket" in
      if HasPrefix urlStr "s3://" then
        attempt _ <- run "aws" None ["s3"; "sync"; urlStr; dir]
          catch er => mret (Err (Wrap ("kubernetes: aws s3 sync " +:+ quote urlStr +:+ ": ") er ""));
        rest
      else if HasPrefix urlStr "gs://" then
        attempt _ <- run "gsutil" None ["-m"; "rsync"; "-r"; urlStr; dir]
          catch er => mret (Err (Wrap ("kubernetes: gsutil rsync " +:+ quote urlStr +:+ ": ") er ""));
        rest
      else mret (Err (Errorf ("kubernetes: bucket.url must be an s3:// or gs:// URL: " +:+ quote urlStr)))).

Definition renderOCI (o : list (string * any)) : Prog ToolCall (result string) :=
  let ref := str o "ref" in
  if ref == "" then mret (Err (Errorf "kubernetes: oci.ref is required"))
  else
    attempt dir <- os_MkdirTemp "rollops-oci-"
      catch er => mret (Err (Wrap "kubernetes: oci temp dir: " er ""));
    finally (os_RemoveAll dir) (
      attempt _ <- run "oras" None ["pull"; ref; "-o"; dir]
        catch er => mret (Err (Wrap ("kubernetes: oras pull " +:+ quote ref +:+ ": ") er ""));
      renderTree (tree_root dir (str o "path")) (str o "render") (str o "file") "oci").

(** An option with its value, left out when empty. *)
Definition flag (name value : string) : list string := if value != "" then [name; value] else [].

Definition release_name (h : list (string * any)) : string :=
  if str h "releaseName" == "" then "rollops" else str h "releaseName".

Definition renderHelm (h : list (string * any)) : Prog ToolCall (result string) :=
  let chart := str h "chart" in
  if chart == "" then mret (Err (Errorf "kubernetes: helm.chart is required"))
  else
    let args := ["template"; release_name h; chart] ++ flag "--repo" (str h "repo") ++
                flag "--version" (str h "version") ++ flag "--namespace" (str h "namespace") in
    let template stdin args :=
      attempt out <- run "helm" stdin args catch er => mret (Err (Wrap "kubernetes: helm template: " er ""));
      mret (Ok out) in
    match as_map (any_at h "values") with
    | Some ((_ :: _) as vals) =>
        match tl_marshal vals with
        | Err er => mret (Err (Wrap "kubernetes: marshal helm values: " er ""))
        | Ok y => template (Some y) (args ++ ["-f"; "/dev/stdin"])
        end
    | _ => template None args
    end.

Fixpoint all_strings (l : list any) : option (list string) :=
  match l with
  | [] => Some []
  | AString s :: l => (cons s) <$> all_strings l
  | _ => None
  end.

Definition stringList (v : option any) : result (list string) :=
  match v with
  | None | Some ANil => Ok []
  | Some (AList raw) => match all_strings raw with
                        | Some out => Ok out
                        | None => Err (Errorf "must be a list of file paths")
                        end
  | Some _ => Err (Errorf "must be a list of file paths")
  end.

Fixpoint values_args (root : string) (files : list string) : result (list string) :=
  match files with
  | [] => Ok []
  | f :: files =>
      match resolveSourcePath root f with
      | Err er => Err er
      | Ok vf => try rest <- values_args root files; Ok ("-f" :: vf :: rest)
      end
  end.

Definition renderHelmFrom (h : list (string * any)) (root : string) : Prog ToolCall (result string) :=
  let chart := str h "chart" in
  if chart == "" then mret (Err (Errorf "kubernetes: manifestFrom.helm.chart is required"))
  else
    let repo := str h "repo" in
    match (if (repo == "") && negb (isRemoteSource chart) then resolveSourcePath root chart else Ok chart) with
    | Err er => mret (Err (Wrap "kubernetes: manifestFrom.helm.chart: " er ""))
    | Ok chartArg =>
        match (try files <- stringList (any_at h "values"); values_args root files) with
        | Err er => mret (Err (Wrap "kubernetes: manifestFrom.helm.values: " er ""))
        | Ok values =>
            attempt out <- run "helm" None (["template"; release_name h; chartArg] ++ flag "--repo" repo ++
                flag "--version" (str h "version") ++ flag "--namespace" (str h "namespace") ++ values)
              catch er => mret (Err (Wrap "kubernetes: helm template: " er ""));
            mret (Ok out)
        end
    end.

Definition runKustomize (root path : string) : Prog ToolCall (result string) :=
  match resolveSourcePath root path with
  | Err er => mret (Err (Wrap "kubernetes: kustomize: " er ""))
  | Ok target =>
      attempt out <- run "kubectl" None ["kustomize"; target]
        catch er => mret (Err (Wrap "kubernetes: kustomize build: " er ""));
      mret (Ok out)
  end.

Definition renderKustomize (k : list (string * any)) (root : string) : Prog ToolCall (result string) :=
  let path := str k "path" in
  if path == "" then mret (Err (Errorf "kubernetes: kustomize.path is required")) else runKustomize root path.

Definition renderPath (root path : string) : Prog ToolCall (result string) :=
  if path == "" then mret (Err (Errorf "kubernetes: manifestFrom.path must not be empty"))
  else match resolveSourcePath root path with
       | Err er => mret (Err (Wrap "kubernetes: manifestFrom.path: " er ""))
       | Ok target =>
           attempt data <- os_ReadFile target
             catch er => mret (Err (Wrap ("kubernetes: manifestFrom read " +:+ quote path +:+ ": ") er ""));
           mret (Ok data)
       end.

Definition exactly_one : err := Errorf "kubernetes: manifestFrom must set exactly one of path / kustomize / helm".

Definition renderManifestFrom (mf : list (string * any)) (root : string) : Prog ToolCall (result string) :=
  let n := length (filter (λ k, is_Some (any_at mf k)) ["path"; "kustomize"; "helm"]) in
  if negb (n =? 1)%nat then mret (Err exactly_one)
  else match any_at mf "path", any_at mf "kustomize", any_at mf "helm" with
       | Some (AString p), _, _ => renderPath root p
       | _, Some (AString k), _ =>
           if k == "" then mret (Err (Errorf "kubernetes: manifestFrom.kustomize must not be empty"))
           else runKustomize root k
       | _, _, Some (AMap h) => renderHelmFrom h root
       | _, _, _ => mret (Err exactly_one)
       end.

Definition renderSource (spec : gmap string any) (root : string) : Prog ToolCall (result string) :=
  match as_map (spec !! "manifestFrom"), as_map (spec !! "oci"), as_map (spec !! "bucket"),
        as_map (spec !! "helm"), as_map (spec !! "kustomize") with
  | Some mf, _, _, _, _ => renderManifestFrom mf root
  | _, Some o, _, _, _ => renderOCI o
  | _, _, Some b, _, _ => renderBucket b
  | _, _, _, Some h, _ => renderHelm h
  | _, _, _, _, Some k => renderKustomize k root
  | _, _, _, _, _ =>
      let s := as_string (spec !! "manifest") in
      mret (if s != "" then Ok s
            else Err (Errorf "kubernetes: spec must set one of manifestFrom / oci / bucket / helm / kustomize / manifest"))
  end.

Definition render (spec : gmap string any) (root : string) : Prog ToolCall (result string) :=
  attempt out <- renderSource spec root catch er => mret (Err er);
  let img := as_string (spec !! "image") in
  mret (if img != "" then overrideContainerImage out img else Ok out).

(** The configured flow has a JSON object; anything else is the manifest. *)
Definition manifestFromSpec (specJSON root : string) : Prog ToolCall (result string) :=
  match tl_json specJSON with
  | Some spec => render spec root
  | None => mret (Ok specJSON)
  end.

Definition specReferencesSource (specJSON : string) : bool :=
  match tl_json specJSON with
  | Some spec => match as_map (spec !! "manifestFrom") with Some _ => true | None => false end
  | None => false
  end.
End Render.
