(* ===== verification/KubeCluster.v ===== *)
(** * A cluster driven by kubectl

    [internal/target/kubernetes/cluster_kubectl.go] with the labels of
    [prune.go], the ignored differences of [ignore.go] and the middleware
    warnings of [dangling.go]: the cluster a target acts on is the external
    [kubectl], started with the arguments built here. *)

From S2P Require Import Prelude Encoding Config Model Security World ImageSelect Git Reap Auth Process KubeRender.

(** ** Decoded maps *)

(** [m[k] = v] and [delete(m, k)]. *)
Fixpoint any_set (m : list (string * any)) (k : string) (v : any) : list (string * any) :=
  match m with
  | [] => [(k, v)]
  | (k', v') :: m => if k' == k then (k, v) :: m else (k', v') :: any_set m k v
  end.
Definition any_del (m : list (string * any)) (k : string) : list (string * any) := filter (λ p, p.1 ≠ k) m.

(** [reflect.DeepEqual]; maps compare by key. *)
Fixpoint deepEqual (a b : any) {struct a} : bool :=
  match a, b with
  | ANil, ANil => true
  | AString s, AString t => s == t
  | ABool x, ABool y => Bool.eqb x y
  | AInt x, AInt y => x =? y
  | AFloat x, AFloat y => PrimFloat.eqb x y
  | AList l, AList l' =>
      (fix go (l l' : list any) : bool :=
         match l, l' with
         | [], [] => true
         | x :: l, y :: l' => deepEqual x y && go l l'
         | _, _ => false
         end) l l'
  | AMap m, AMap m' =>
      (length m =? length m')%nat &&
      (fix go (m : list (string * any)) : bool :=
         match m with
         | [] => true
         | (k, v) :: m => match any_at m' k with Some v' => deepEqual v v' | None => false end && go m
         end) m
  | _, _ => false
  end.

(** A view of a target's free-form settings. *)
Definition spec_str (s : gmap string any) (key : string) : string := as_string (s !! key).
Definition spec_bool (s : gmap string any) (key : string) : bool := match s !! key with Some (ABool b) => b | _ => false end.
Definition nonempty_string (e : any) : option string :=
  match e with AString s => if s == "" then None else Some s | _ => None end.
Definition spec_strSlice (s : gmap string any) (key : string) : list string :=
  match s !! key with Some (AList v) => omap nonempty_string v | _ => [] end.

(** ** Labels ([prune.go]) *)
Definition PruneLabel : string := "rollops.klarlabs.de/target".
Definition ChecksumAnnotation : string := "rollops.klarlabs.de/checksum".

(** One document with the label in [metadata.labels]. *)
Definition label_doc (val : string) (doc : list (string * any)) : list (string * any) :=
  let meta := default [] (as_map (any_at doc "metadata")) in
  let labels := default [] (as_map (any_at meta "labels")) in
  any_set doc "metadata" (AMap (any_set meta "labels" (AMap (any_set labels PruneLabel (AString val))))).

(** Null documents are dropped; a document that is not a mapping is an error. *)
Fixpoint label_docs (val : string) (docs : list decoded) (end_err : option err) : result (list (list (string * any))) :=
  match docs with
  | [] => match end_err with None => Ok [] | Some er => Err er end
  | DBad er :: _ => Err er
  | DNull :: docs => label_docs val docs end_err
  | DDoc doc :: docs => try rest <- label_docs val docs end_err; Ok (label_doc val doc :: rest)
  end.

Definition pruneArgs (prune : bool) (pruneVal : string) : list string :=
  if prune then ["--prune"; "--selector"; PruneLabel +:+ "=" +:+ pruneVal] else [].

Definition defaultReapTypes : list string := ["all"].

Definition reapArgs (types : list string) (pruneVal : string) : list string :=
  let types := match types with [] => defaultReapTypes | _ => types end in
  ["delete"; Join types ","; "--selector"; PruneLabel +:+ "=" +:+ pruneVal; "--ignore-not-found"].

(** ** Ignored differences ([ignore.go]) *)
Definition kubeNoise : list string :=
  ["/status"; "/metadata/resourceVersion"; "/metadata/uid"; "/metadata/generation"; "/metadata/creationTimestamp";
   "/metadata/managedFields"; "/metadata/annotations/kubectl.kubernetes.io~1last-applied-configuration"].

Definition parseIgnore (s : gmap string any) : list string := spec_strSlice s "ignoreDifferences".

Definition dot_char : Ascii.ascii := Ascii.ascii_of_nat 46.

Definition pointerParts (p : string) : list string :=
  let p := TrimSpace p in
  if p == "" then []
  else if HasPrefix p "/" then
    filter (λ s, s ≠ "") ((λ s, ReplaceAll (ReplaceAll s "~1" "/") "~0" "~") <$> drop 1 (Split p slash))
  else Split p dot_char.

(** [strconv.Atoi]: an optional sign, digits, in the range of [int64]. *)
Definition strconv_Atoi (s : string) : option Z :=
  let '(neg, body) :=
    match s with
    | String c rest =>
        if bool_decide (c = Ascii.ascii_of_nat 45) then (true, rest)
        else if bool_decide (c = Ascii.ascii_of_nat 43) then (false, rest) else (false, s)
    | EmptyString => (false, s)
    end in
  if (body == "") || ((digits_of body).2 != "") then None
  else
    let n := (if neg : bool then -1 else 1) * atoi_go 0 body in
    if (n <? - 2 ^ 63) || (2 ^ 63 - 1 <? n) then None else Some n.

Fixpoint deleteAt (doc : any) (parts : list string) {struct parts} : any :=
  match parts with
  | [] => doc
  | [part] => match doc with AMap n => AMap (any_del n part) | _ => doc end
  | part :: parts =>
      match doc with
      | AMap n => AMap ((λ kv, if kv.1 == part then (kv.1, deleteAt kv.2 parts) else kv) <$> n)
      | AList n => match strconv_Atoi part with
                   | Some i => if (i <? 0) || (Z.of_nat (length n) <=? i) then doc
                               else AList (alter (λ v, deleteAt v parts) (Z.to_nat i) n)
                   | None => doc
                   end
      | _ => doc
      end
  end.

(** ** The cluster *)
Record kubectlCluster := {
  kc_kubeconfig : string;
  kc_context : string;
  kc_namespace : string;
  kc_resource : string;
  kc_prune : bool;
  kc_reapOnDelete : bool;
  kc_reapTypes : list string;
  kc_pruneVal : string;
  kc_healthCond : string;
}.

(** Words of an error text. *)
Definition unreachableMarkers : list string :=
  ["Unable to connect to the server"; "The connection to the server"; "connection refused"; "i/o timeout";
   "TLS handshake timeout"; "(ServiceUnavailable)"; "(InternalError)";
   "the server is currently unable to handle the request"].

Definition isUnreachable (e : err) : bool := existsb (Contains (err_str e)) unreachableMarkers.
Definition isNotFound (e : err) : bool := Contains (err_str e) "(NotFound)".

Definition rolloutKinds : list string :=
  ["deployment"; "deploy"; "deployments"; "statefulset"; "sts"; "statefulsets"; "daemonset"; "ds"; "daemonsets"].

Definition resourceKind (resource : string) : string :=
  ToLower (TrimSpace (match IndexByte resource slash with Some i => str_take i resource | None => resource end)).

Definition defaultProgressDeadline : Z := 600.

Definition conditionReason (c : statusCondition) : string :=
  if (sc_Reason c != "") && (sc_Message c != "") then sc_Reason c +:+ ": " +:+ sc_Message c
  else if sc_Message c != "" then sc_Message c
  else if sc_Reason c != "" then sc_Reason c
  else sc_Type c +:+ " is False".

(** The verdict of one condition: healthy, and otherwise why not. *)
Definition condition_verdict (c : statusCondition) : bool * string :=
  if EqualFold (sc_Status c) "True" then (true, "")
  else if EqualFold (sc_Status c) "False" then (false, conditionReason c)
  else (false, sc_Type c +:+ " is " +:+ sc_Status c +:+ " (progressing)").

(** [strings.SplitN] for a one-byte separator, [n] positive. *)
Fixpoint SplitN (n : nat) (s : string) (sep : Ascii.ascii) : list string :=
  match n with
  | O | S O => [s]
  | S n => match IndexByte s sep with
           | None => [s]
           | Some i => str_take i s :: SplitN n (str_drop (i + 1) s) sep
           end
  end.

Definition pipe : Ascii.ascii := Ascii.ascii_of_nat 124.
Definition ready_mark : string := String (Ascii.ascii_of_nat 194) (String (Ascii.ascii_of_nat 183) "").   (* U+00B7 *)

(** One line of the pods of a workload. *)
Definition pod_of (ns parent line : string) : option Resource :=
  match Split line pipe with
  | name :: phase :: rest =>
      if name == "" then None
      else
        let status := match rest with
                      | r :: _ => if r == "true" then phase +:+ " " +:+ ready_mark +:+ " ready" else phase
                      | [] => phase
                      end in
        Some {| rs_Kind := "Pod"; rs_Name := name; rs_Namespace := ns; rs_Status := status; rs_Parent := parent |}
  | _ => None
  end.

Section Cluster.
Context `{Tools}.

Definition labelManifest (manifest val : string) : result string :=
  let '(docs, end_err) := tl_docs manifest in
  match label_docs val docs end_err with Err er => Err er | Ok docs => tl_docs_out docs end.

Definition equivalentIgnoring (live desired : string) (ignore : list string) : result bool :=
  match tl_yaml live with
  | Err er => Err (Wrap "kubernetes: parse live yaml: " er "")
  | Ok a =>
      match tl_yaml desired with
      | Err er => Err (Wrap "kubernetes: parse desired yaml: " er "")
      | Ok b =>
          let strip v := foldl (λ v p, deleteAt v (pointerParts p)) v (kubeNoise ++ ignore) in
          Ok (deepEqual (strip a) (strip b))
      end
  end.

Definition evalConditions (raw healthCond : string) : bool * string :=
  let raw := TrimSpace raw in
  if raw == "" then (true, "")
  else match tl_conditions raw with
       | Err er => (false, "parse status.conditions: " +:+ err_str er)
       | Ok conds =>
           let wanted := if healthCond == "" then ["Ready"; "Available"; "Succeeded"] else [healthCond] in
           match head (w ← wanted; filter (λ c, EqualFold (sc_Type c) w = true) conds) with
           | Some c => condition_verdict c
           | None => (false, if healthCond != "" then "condition " +:+ quote healthCond +:+ " not found"
                             else "no Ready/Available/Succeeded condition present")
           end
       end.

Definition selectorFromMatchLabels (j : string) : string :=
  let j := TrimSpace j in
  if (j == "") || (j == "{}") then ""
  else match tl_labels j with
       | Err _ => ""
       | Ok m => Join (sort_strings ((λ kv, kv.1 +:+ "=" +:+ kv.2) <$> map_to_list m)) ","
       end.

(** The namespace is checked and the credentials of the repository dropped
    before anything is started. *)
Definition newKubectl (s : gmap string any) (ref : string) (conf : Confinement) : Prog ToolCall (result kubectlCluster) :=
  let ns := if spec_str s "namespace" == "" then "default" else spec_str s "namespace" in
  match CheckNamespace conf ns with
  | Some er => mret (Err (Wrap ("kubernetes: target " +:+ quote ref +:+ ": ") er ""))
  | None =>
      let confined := cf_confineCluster conf in
      let kubeconfig := spec_str s "kubeconfig" in
      let kctx := spec_str s "context" in
      (if confined && ((kubeconfig != "") || (kctx != ""))
       then call (TStderr ("rollops: target " +:+ quote ref +:+
                           ": ROLLOPS_CONFINE_TARGET_CLUSTER set — ignoring repo-supplied kubeconfig/context")) (λ _, tt)
       else mret tt);;
      mret (Ok {| kc_kubeconfig := if confined then "" else kubeconfig;
                  kc_context := if confined then "" else kctx;
                  kc_namespace := ns;
                  kc_resource := spec_str s "resource";
                  kc_prune := spec_bool s "prune";
                  kc_reapOnDelete := spec_bool s "reapOnDelete";
                  kc_reapTypes := spec_strSlice s "reapTypes";
                  kc_pruneVal := labelValue ref;
                  kc_healthCond := spec_str s "healthCondition" |})
  end.

Section Kubectl.
Context (k : kubectlCluster).

Definition baseArgs : list string :=
  flag "--kubeconfig" (kc_kubeconfig k) ++ flag "--context" (kc_context k) ++ flag "-n" (kc_namespace k).

Definition kc_run (stdin : option string) (args : list string) : Prog ToolCall (string * option cmdErr) :=
  p ← call (TExec "kubectl" stdin (baseArgs ++ args)) tl_exec;
  mret (pr_out p,
        (λ e, {| ce_exit := proc_exit e;
                 ce_err := Wrap ("kubectl " +:+ Join args " " +:+ ": ") (proc_err e) (": " +:+ TrimSpace (pr_err p)) |})
          <$> pr_fail p).

Definition kc_Preflight (manifest : string) : Prog ToolCall (option err) :=
  match labelManifest manifest (kc_pruneVal k) with
  | Err er => mret (Some (Wrap "kubernetes: label target resources: " er ""))
  | Ok labeled =>
      r ← kc_run (Some labeled) ["apply"; "--dry-run=server"; "-f"; "-"];
      mret (ce_err <$> r.2)
  end.

Definition MiddlewareExists (namespace name : string) : Prog ToolCall (bool * option err) :=
  if (namespace == "") || (name == "") then mret (false, None)
  else
    r ← kc_run None ["get"; "middleware.traefik.io/" +:+ name; "-n"; namespace; "-o"; "name"];
    mret (match r.2 with
          | None => (true, None)
          | Some e =>
              let msg := ToLower (err_str (ce_err e)) in
              if Contains msg "notfound" || Contains msg "not found" then (false, None) else (false, Some (ce_err e))
          end).

Definition kc_Apply (manifest checksum : string) : Prog ToolCall (option err) :=
  match labelManifest manifest (kc_pruneVal k) with
  | Err er => mret (Some (Wrap "kubernetes: label target resources: " er ""))
  | Ok labeled =>
      r ← kc_run (Some labeled) (["apply"; "-f"; "-"] ++ pruneArgs (kc_prune k) (kc_pruneVal k));
      match r.2 with
      | Some e => mret (Some (ce_err e))
      | None =>
          r ← kc_run None ["annotate"; "--overwrite"; kc_resource k; ChecksumAnnotation +:+ "=" +:+ checksum];
          mret (ce_err <$> r.2)
      end
  end.

Definition checksum_path : string :=
  "jsonpath={.metadata.annotations." +:+ ReplaceAll ChecksumAnnotation "." "\." +:+ "}".

Definition kc_LiveChecksum : Prog ToolCall (result string) :=
  r ← kc_run None ["get"; kc_resource k; "-o"; checksum_path];
  mret (match r.2 with
        | None => Ok (TrimSpace r.1)
        | Some e => if isNotFound (ce_err e) then Ok ""
                    else Err (Wrap "kubernetes: read live checksum: " (ce_err e) "")
        end).

Definition kc_LiveYAML : Prog ToolCall (result string) :=
  r ← kc_run None ["get"; kc_resource k; "-o"; "yaml"];
  mret (match r.2 with
        | None => Ok r.1
        | Some e => if isNotFound (ce_err e) then Ok "" else Err (Wrap "kubernetes: read live object: " (ce_err e) "")
        end).

(** Seconds as [kubectl] takes them; the sum wraps like an [int]. *)
Definition rolloutWait : Prog ToolCall string :=
  r ← kc_run None ["get"; kc_resource k; "-o"; "jsonpath={.spec.progressDeadlineSeconds}"];
  let deadline :=
    match r.2, strconv_Atoi (TrimSpace r.1) with
    | None, Some n => if 0 <? n then n else defaultProgressDeadline
    | _, _ => defaultProgressDeadline
    end in
  mret (pretty (wrap64 (deadline + 30)) +:+ "s").

Definition conditionHealthy : Prog ToolCall (result (bool * string)) :=
  r ← kc_run None ["get"; kc_resource k; "-o"; "jsonpath={.status.conditions}"];
  mret (match r.2 with
        | Some e => if isUnreachable (ce_err e) then Err (Wrap "kubernetes: health: " (ce_err e) "")
                    else Ok (false, TrimSpace r.1)
        | None => Ok (evalConditions r.1 (kc_healthCond k))
        end).

Definition kc_Healthy : Prog ToolCall (result (bool * string)) :=
  if (kc_healthCond k == "") && bool_decide (resourceKind (kc_resource k) ∈ rolloutKinds) then
    wait ← rolloutWait;
    r ← kc_run None ["rollout"; "status"; kc_resource k; "--timeout=" +:+ wait];
    mret (match r.2 with
          | Some e => if isUnreachable (ce_err e) then Err (Wrap "kubernetes: health: " (ce_err e) "")
                      else Ok (false, TrimSpace r.1)
          | None => Ok (true, "")
          end)
  else conditionHealthy.

Definition kc_Diff (manifest : string) : Prog ToolCall (result string) :=
  let manifest := match labelManifest manifest (kc_pruneVal k) with Ok labeled => labeled | Err _ => manifest end in
  r ← kc_run (Some manifest) ["diff"; "-f"; "-"];
  mret (match r.2 with
        | Some e => if bool_decide (ce_exit e = Some 1) then Ok (if TrimSpace r.1 == "" then "" else r.1)
                    else Err (Wrap "kubernetes: diff: " (ce_err e) "")
        | None => Ok (if TrimSpace r.1 == "" then "" else r.1)
        end).

Definition resource_path : string :=
  "jsonpath={.kind}|{.metadata.name}|{.metadata.namespace}|{.status.readyReplicas}/{.status.replicas}|{.spec.selector.matchLabels}".
Definition pods_path : string :=
  "jsonpath={range .items[*]}{.metadata.name}|{.status.phase}|{.status.containerStatuses[0].ready}{" +:+
  String dquote ("\n" +:+ String dquote "}{end}").

Definition pods (ns selector parent : string) : Prog ToolCall (list Resource) :=
  r ← kc_run None ["get"; "pods"; "-n"; ns; "-l"; selector; "-o"; pods_path];
  mret (match r.2 with
        | Some _ => []
        | None => omap (pod_of ns parent) (Split (TrimSpace r.1) newline_char)
        end).

Definition kc_Resources : Prog ToolCall (result (list Resource)) :=
  r ← kc_run None ["get"; kc_resource k; "-o"; resource_path];
  match r.2 with
  | Some e => mret (Err (Wrap "kubernetes: list resources: " (ce_err e) ""))
  | None =>
      match SplitN 5 (TrimSpace r.1) pipe with
      | kind :: name :: pns :: ready :: rest =>
          if name == "" then mret (Ok [])
          else
            let ns := if pns == "" then kc_namespace k else pns in
            let root := {| rs_Kind := kind; rs_Name := name; rs_Namespace := ns; rs_Status := "ready " +:+ ready; rs_Parent := "" |} in
            let sel := match rest with labels :: _ => selectorFromMatchLabels labels | [] => "" end in
            if sel == "" then mret (Ok [root])
            else ps ← pods ns sel name; mret (Ok (root :: ps))
      | _ => mret (Ok [])
      end
  end.

Definition kc_ReapTarget : Prog ToolCall (result Z) :=
  if negb (kc_reapOnDelete k) then
    mret (Err (Errorf "kubernetes: reap requested but reapOnDelete is not set for this target"))
  else if kc_pruneVal k == "" then mret (Err (Errorf "kubernetes: refusing to reap with an empty target marker"))
  else
    r ← kc_run None (reapArgs (kc_reapTypes k) (kc_pruneVal k));
    mret (match r.2 with
          | Some e => Err (ce_err e)
          | None => Ok (Z.of_nat (length (filter (λ line, TrimSpace line ≠ "") (Split (TrimSpace r.1) newline_char))))
          end).
End Kubectl.

(** The daemon's ambient credentials. *)
Definition ambient : kubectlCluster :=
  {| kc_kubeconfig := ""; kc_context := ""; kc_namespace := ""; kc_resource := ""; kc_prune := false;
     kc_reapOnDelete := false; kc_reapTypes := []; kc_pruneVal := ""; kc_healthCond := "" |}.
Definition AmbientMiddlewareExists : string → string → Prog ToolCall (bool * option err) := MiddlewareExists ambient.
End Cluster.
