(* ===== verification/KubeTarget.v ===== *)
(** * The kubernetes target

    [internal/target/kubernetes/kubernetes.go]: the target over the interface
    [Cluster], which [kubectl_cluster] implements, and the warnings of
    [dangling.go] about an Ingress that names a missing Middleware. *)

From S2P Require Import Prelude Encoding Config Model Security World ImageSelect Git Reap Process KubeRender KubeCluster.

(** A manifest as a target gets it, the specification as bytes. *)
Record RawManifest := {
  rm_Kind : string;
  rm_Spec : string;
  rm_Checksum : string;
  rm_Root : string;
  rm_Rendered : string;
}.

(** [pt.Result]. *)
Record Result := { re_Changed : bool; re_Detail : string }.

(** What a target needs of a cluster. *)
Record Cluster := {
  cl_Apply : string → string → Prog ToolCall (option err);
  cl_Preflight : string → Prog ToolCall (option err);
  cl_LiveChecksum : Prog ToolCall (result string);
  cl_LiveYAML : Prog ToolCall (result string);
  cl_Healthy : Prog ToolCall (result (bool * string));
  cl_Diff : string → Prog ToolCall (result string);
  cl_Resources : Prog ToolCall (result (list Resource));
  cl_ReapTarget : Prog ToolCall (result Z);
}.

Record KTarget := { kt_cl : Cluster; kt_ignore : list string }.

Section Target.
Context `{Tools}.

Definition kubectl_cluster (k : kubectlCluster) : Cluster := {|
  cl_Apply := kc_Apply k; cl_Preflight := kc_Preflight k; cl_LiveChecksum := kc_LiveChecksum k;
  cl_LiveYAML := kc_LiveYAML k; cl_Healthy := kc_Healthy k; cl_Diff := kc_Diff k;
  cl_Resources := kc_Resources k; cl_ReapTarget := kc_ReapTarget k |}.

Definition newTarget (cfg : Config.Target) (conf : Confinement) : Prog ToolCall (result KTarget) :=
  let s := Config.tg_Spec cfg in
  if spec_str s "resource" == "" then
    mret (Err (Errorf ("kubernetes: target " +:+ quote (Config.tg_Ref cfg) +:+
                       ": spec.resource is required (e.g. deployment/api)")))
  else
    attempt k <- newKubectl s (Config.tg_Ref cfg) conf catch er => mret (Err er);
    mret (Ok {| kt_cl := kubectl_cluster k; kt_ignore := parseIgnore s |}).

(** [New] takes the confinement from the daemon's environment. *)
Definition kube_New (getenv : string → string) (cfg : Config.Target) : Prog ToolCall (result KTarget) :=
  newTarget cfg (ConfinementFromEnv getenv).

(** The captured bytes win over rendering again. *)
Definition desiredManifest (m : RawManifest) : Prog ToolCall (result string) :=
  if rm_Rendered m != "" then mret (Ok (rm_Rendered m)) else manifestFromSpec (rm_Spec m) (rm_Root m).

Section Operations.
Context (t : KTarget).

Definition kt_Preflight (m : RawManifest) : Prog ToolCall (option err) :=
  attempt manifest <- desiredManifest m catch er => mret (Some er);
  cl_Preflight (kt_cl t) manifest.

Definition apply_and_stamp (manifest checksum : string) : Prog ToolCall (result Result) :=
  ensure cl_Apply (kt_cl t) manifest checksum catch er => mret (Err (Wrap "kubernetes: apply: " er ""));
  mret (Ok {| re_Changed := true; re_Detail := "applied to cluster" |}).

(** A matching stamp is confirmed by an empty diff before anything is skipped;
    an error of either makes the manifest be applied. *)
Definition kt_Apply (m : RawManifest) : Prog ToolCall (result Result) :=
  attempt manifest <- desiredManifest m catch er => mret (Err er);
  cur ← cl_LiveChecksum (kt_cl t);
  if (match cur with Ok c => c | Err _ => "" end == rm_Checksum m) && (rm_Checksum m != "") then
    diff ← cl_Diff (kt_cl t) manifest;
    match diff with
    | Ok d => if TrimSpace d == ""
              then mret (Ok {| re_Changed := false; re_Detail := "cluster already at desired checksum" |})
              else apply_and_stamp manifest (rm_Checksum m)
    | Err _ => apply_and_stamp manifest (rm_Checksum m)
    end
  else apply_and_stamp manifest (rm_Checksum m).

Definition kt_Observe : Prog ToolCall (result string) :=
  attempt cur <- cl_LiveChecksum (kt_cl t) catch er => mret (Err (Wrap "kubernetes: observe: " er ""));
  mret (Ok cur).

Definition kt_Diff (m : RawManifest) : Prog ToolCall (result string) :=
  attempt manifest <- desiredManifest m catch er => mret (Err er);
  same ← (if (0 <? length (kt_ignore t))%nat then
            live ← cl_LiveYAML (kt_cl t);
            mret (match live with
                  | Ok live => (TrimSpace live != "") &&
                               match equivalentIgnoring live manifest (kt_ignore t) with Ok b => b | Err _ => false end
                  | Err _ => false
                  end)
          else mret false);
  if same : bool then mret (Ok "") else cl_Diff (kt_cl t) manifest.

Definition kt_Render (m : RawManifest) : Prog ToolCall (result string) := manifestFromSpec (rm_Spec m) (rm_Root m).
Definition kt_Referenced (m : RawManifest) : bool := specReferencesSource (rm_Spec m).
Definition kt_Resources : Prog ToolCall (result (list Resource)) := cl_Resources (kt_cl t).
Definition kt_ReapTarget : Prog ToolCall (result Z) := cl_ReapTarget (kt_cl t).

Definition kt_Health : Prog ToolCall (result HealthStatus) :=
  attempt v <- cl_Healthy (kt_cl t) catch er => mret (Err er);
  mret (Ok (if v.1 : bool then {| hs_State := HealthHealthy; hs_Reason := "" |}
            else {| hs_State := HealthUnhealthy; hs_Reason := v.2 |})).
End Operations.

(** ** Dangling middlewares *)
Definition TraefikRouterMiddlewaresAnnotation : string := "traefik.ingress.kubernetes.io/router.middlewares".

Record mwNeed := { mw_ingressNS : string; mw_ingressName : string; mw_token : string }.

Definition splitMiddlewareAnnotation (raw : string) : list string :=
  let raw := TrimSpace raw in
  if raw == "" then []
  else omap (λ part,
         let part := TrimSpace part in
         match IndexByte part at_sign with
         | None => None
         | Some i =>
             let namePart := TrimSpace (str_take i part) in
             if (str_drop (i + 1) part != "kubernetescrd") || (namePart == "") then None else Some namePart
         end) (Split raw comma).

(** What one document adds: a middleware of the batch, or the needs of an
    ingress. *)
Definition scan_doc (acc : gset string * list mwNeed) (doc : list (string * any)) : gset string * list mwNeed :=
  match as_map (any_at doc "metadata") with
  | None => acc
  | Some meta =>
      let name := str meta "name" in
      let ns := if str meta "namespace" == "" then "default" else str meta "namespace" in
      if name == "" then acc
      else if str doc "kind" == "Middleware" then ({[ ns +:+ "/" +:+ name ]} ∪ acc.1, acc.2)
      else if str doc "kind" == "Ingress" then
        match as_map (any_at meta "annotations") with
        | None => acc
        | Some ann =>
            (acc.1, acc.2 ++ ((λ token, {| mw_ingressNS := ns; mw_ingressName := name; mw_token := token |})
                               <$> splitMiddlewareAnnotation (str ann TraefikRouterMiddlewaresAnnotation)))
        end
      else acc
  end.

(** The [n]-th answer of the decoder. *)
Inductive answer := AnDoc (d : decoded) | AnEOF | AnErr (e : err).
Definition Decode (raw : string) (n : nat) : answer :=
  let '(docs, end_err) := tl_docs raw in
  match docs !! n with
  | Some d => AnDoc d
  | None => match end_err with None => AnEOF | Some e => AnErr e end
  end.

(** The loop of [scanManifestDocs] from the [n]-th answer on: only [io.EOF]
    ends it.  [None]: still running when the fuel is used up. *)
Fixpoint scanManifestDocs (fuel : nat) (raw : string) (n : nat) (acc : gset string * list mwNeed)
    : option (gset string * list mwNeed) :=
  match fuel with
  | O => None
  | S fuel =>
      match Decode raw n with
      | AnEOF => Some acc
      | AnDoc (DDoc doc) => scanManifestDocs fuel raw (S n) (scan_doc acc doc)
      | AnDoc _ | AnErr _ => scanManifestDocs fuel raw (S n) acc
      end
  end.

Definition hyphen : Ascii.ascii := Ascii.ascii_of_nat 45.

(** Every way to cut the token at a hyphen into a namespace and a name. *)
Fixpoint hyphen_splits (before s : string) : list (string * string) :=
  match s with
  | EmptyString => []
  | String c s =>
      (if bool_decide (c = hyphen) then [(before, s)] else []) ++ hyphen_splits (before +:+ String c "") s
  end.

Section Resolve.
Context (inBatch : gset string) (exists_ : string → string → Prog ToolCall (bool * option err)).

Definition liveOrBatch (ns name : string) : Prog ToolCall bool :=
  if bool_decide (ns +:+ "/" +:+ name ∈ inBatch) then mret true
  else r ← exists_ ns name; mret (r.1 && match r.2 with None => true | Some _ => false end).

Fixpoint any_resolved (l : list (string * string)) : Prog ToolCall bool :=
  match l with
  | [] => mret false
  | (ns, name) :: l =>
      if (ns == "") || (name == "") then any_resolved l
      else b ← liveOrBatch ns name; if b : bool then mret true else any_resolved l
  end.

Definition middlewareResolved (token ingressNS : string) : Prog ToolCall bool :=
  b ← liveOrBatch ingressNS token;
  if b : bool then mret true else any_resolved (hyphen_splits "" token).

Definition warning (n : mwNeed) : string :=
  "Ingress " +:+ mw_ingressNS n +:+ "/" +:+ mw_ingressName n +:+ " names Middleware " +:+
  quote (mw_token n +:+ "@kubernetescrd") +:+ " via " +:+ TraefikRouterMiddlewaresAnnotation +:+
  ", but it is neither in this batch nor live in the cluster".

Fixpoint warnings (needs : list mwNeed) (seen : list string) : Prog ToolCall (list string) :=
  match needs with
  | [] => mret seen
  | n :: needs =>
      b ← middlewareResolved (mw_token n) (mw_ingressNS n);
      if (b : bool) || bool_decide (warning n ∈ seen) then warnings needs seen
      else warnings needs (seen ++ [warning n])
  end.
End Resolve.

Fixpoint scan_all (fuel : nat) (manifests : list string) (acc : gset string * list mwNeed)
    : option (gset string * list mwNeed) :=
  match manifests with
  | [] => Some acc
  | raw :: manifests => acc ← scanManifestDocs fuel raw O acc; scan_all fuel manifests acc
  end.

Definition DanglingMiddlewareWarnings (fuel : nat) (manifests : list string)
    (exists_ : string → string → Prog ToolCall (bool * option err)) : option (Prog ToolCall (list string)) :=
  '(inBatch, needs) ← scan_all fuel manifests (∅, []);
  Some (warnings inBatch exists_ needs []).
End Target.
