(* ===== verification/Hosts.v ===== *)
(** * Targets that stamp a host

    The SSH target ([internal/target/ssh]), the FTP target
    ([internal/target/ftp]) and the registry of target kinds
    ([internal/target/registry.go], [builtin.go]).  Both targets write the payload
    and then a stamp with its checksum, over the interface [FileHost], whose laws
    [FileLaws] say what writing and reading a file means even when a write fails
    half-way.  The transports are modelled down to the commands and replies. *)

From S2P Require Import Prelude Encoding Config Model World ImageSelect Git KubeCluster KubeTarget.

(** An action on a host in state [W]. *)
Definition Act (W A : Type) : Type := W → A * W.
#[global] Instance Act_ret W : MRet (Act W) := λ A a w, (a, w).
#[global] Instance Act_bind W : MBind (Act W) := λ A B k m w, let '(a, w') := m w in k a w'.

(** The answer to a read: the content, [ErrNotFound], or another error. *)
Inductive fileRead := RData (content : string) | RMissing | RFail (e : err).

Class FileHost (W : Type) := {
  fh_write : string → string → Act W (option err);
  fh_read : string → Act W fileRead;
}.

(** A successful write stores the content; a failed one may leave anything, but
    only in that file; a read changes nothing and answers with what is there. *)
Class FileLaws (W : Type) `{FileHost W} := {
  files : W → gmap string string;
  write_ok : ∀ p c w w', fh_write p c w = (None, w') → files w' = <[p := c]> (files w);
  write_err : ∀ p c w e w', fh_write p c w = (Some e, w') → ∀ q, q ≠ p → files w' !! q = files w !! q;
  read_frame : ∀ p w, files (fh_read p w).2 = files w;
  read_data : ∀ p w c w', fh_read p w = (RData c, w') → files w !! p = Some c;
  read_missing : ∀ p w w', fh_read p w = (RMissing, w') → files w !! p = None;
}.

(** ** The SSH target ([ssh.go]) *)
Record HostTarget := { ht_deployPath : string; ht_stampPath : string; ht_healthCmd : string }.

Definition ssh_newWith (s : gmap string any) : HostTarget :=
  let deployPath := if spec_str s "deployPath" == "" then "/srv/rollops/payload" else spec_str s "deployPath" in
  let stampPath := if spec_str s "stampPath" == "" then deployPath +:+ ".rollops-stamp" else spec_str s "stampPath" in
  {| ht_deployPath := deployPath; ht_stampPath := stampPath; ht_healthCmd := spec_str s "healthCmd" |}.

Section Ssh.
Context {W : Type} `{FileHost W} (t : HostTarget).

(** The stamp, and the error of reading it; empty when it could not be read. *)
Definition readStamp : Act W (string * fileRead) :=
  r ← fh_read (ht_stampPath t);
  mret (match r with RData b => (b, r) | _ => ("", r) end).

Definition ssh_Apply (m : RawManifest) : Act W (result Result) :=
  cur ← readStamp;
  if (cur.1 == rm_Checksum m) && (rm_Checksum m != "") then
    mret (Ok {| re_Changed := false; re_Detail := "already at desired checksum" |})
  else
    er ← fh_write (ht_deployPath t) (rm_Spec m);
    match er with
    | Some er => mret (Err (Wrap "ssh: write payload: " er ""))
    | None =>
        er ← fh_write (ht_stampPath t) (rm_Checksum m);
        match er with
        | Some er => mret (Err (Wrap "ssh: write stamp: " er ""))
        | None => mret (Ok {| re_Changed := true; re_Detail := "deployed " +:+ ht_deployPath t |})
        end
    end.

Definition ssh_Observe : Act W (result string) :=
  cur ← readStamp;
  mret (match cur.2 with RFail er => Err (Wrap "ssh: observe: " er "") | _ => Ok cur.1 end).

(** [run] is the transport's [Run]: exit code, output, error. *)
Definition ssh_Health (run : string → Act W (Z * string * option err)) : Act W HealthStatus :=
  if ht_healthCmd t == "" then
    r ← run "true";
    mret (match r.2 with
          | Some _ => {| hs_State := HealthUnhealthy; hs_Reason := "host unreachable" |}
          | None => {| hs_State := HealthHealthy; hs_Reason := "" |}
          end)
  else
    '((code, out), er) ← run (ht_healthCmd t);
    mret (match er with
          | Some er => {| hs_State := HealthUnhealthy; hs_Reason := err_str er |}
          | None =>
              if negb (code =? 0) then
                {| hs_State := HealthUnhealthy; hs_Reason := "health command exit " +:+ pretty code +:+ ": " +:+ out |}
              else {| hs_State := HealthHealthy; hs_Reason := "" |}
          end).
End Ssh.

(** *** The transport ([transport_ssh.go]) *)
Definition squote : Ascii.ascii := Ascii.ascii_of_nat 39.
Definition squote_str : string := String squote "".
(** End the quotes, an escaped quote, start again. *)
Definition escaped_quote : string := String squote (String backslash (String squote (String squote ""))).

Definition shellQuote (s : string) : string := squote_str +:+ ReplaceAll s squote_str escaped_quote +:+ squote_str.

Definition missingFileExit : Z := 44.

Definition readFileCommand (path : string) : string :=
  let q := shellQuote path in
  "if [ -e " +:+ q +:+ " ]; then cat " +:+ q +:+ "; else exit " +:+ pretty missingFileExit +:+ "; fi".

Definition writeFileCommand (path : string) : string := "cat > " +:+ shellQuote path.

Definition readFileResult (code : Z) (out : string) : fileRead :=
  if code =? 0 then RData out
  else if code =? missingFileExit then RMissing
  else RFail (Errorf ("ssh: read file: exit status " +:+ pretty code)).

(** A session: the command with its input; how it ended. *)
Record SshCall := { sc_cmd : string; sc_stdin : option string }.
Inductive session :=
| SNone (e : err)                       (* no session could be opened *)
| SDone (out : string)
| SExit (code : Z) (text out : string)  (* an [ssh.ExitError] *)
| SError (e : err) (out errout : string)
| SCancelled (e : err) (out : string).

Section SshTransport.
Context (remote : list SshCall → session).

Definition ssh_session (cmd : string) (stdin : option string) : Act (list SshCall) session :=
  λ tr, let tr := {| sc_cmd := cmd; sc_stdin := stdin |} :: tr in (remote tr, tr).

Definition transport_Run (cmd : string) : Act (list SshCall) (Z * string * option err) :=
  s ← ssh_session cmd None;
  mret (match s with
        | SNone e => (-1, "", Some e)
        | SDone out => (0, out, None)
        | SExit code _ out => (code, out, None)
        | SError e out errout => (-1, out +:+ errout, Some e)
        | SCancelled e out => (-1, out, Some e)
        end).

(** A write runs to its end; an exit status is an error like any other. *)
Definition transport_WriteFile (path content : string) : Act (list SshCall) (option err) :=
  s ← ssh_session (writeFileCommand path) (Some content);
  let failed e := Some (Wrap ("ssh: write " +:+ path +:+ ": ") e "") in
  mret (match s with
        | SNone e => Some e
        | SDone _ => None
        | SExit _ text _ => failed (Errorf text)
        | SError e _ _ | SCancelled e _ => failed e
        end).

Definition transport_ReadFile (path : string) : Act (list SshCall) fileRead :=
  '((code, out), er) ← transport_Run (readFileCommand path);
  mret (match er with Some e => RFail e | None => readFileResult code out end).

#[global] Instance ssh_transport : FileHost (list SshCall) := {|
  fh_write := transport_WriteFile; fh_read := transport_ReadFile |}.
End SshTransport.

(** Who the host may be: a pinned key, nobody, or anybody. *)
Inductive HostCheck (PK : Type) := FixedHostKey (pk : PK) | RefuseHost (e : err) | InsecureIgnoreHostKey.
Arguments FixedHostKey {PK}. Arguments RefuseHost {PK}. Arguments InsecureIgnoreHostKey {PK}.

Record ClientConfig (PK K : Type) := { cc_User : string; cc_Key : K; cc_HostKeyCallback : HostCheck PK }.
Arguments cc_HostKeyCallback {PK K}.

(** [net.JoinHostPort]. *)
Definition JoinHostPort (host port : string) : string :=
  if Contains host ":" || Contains host "%" then "[" +:+ host +:+ "]:" +:+ port else host +:+ ":" +:+ port.

Section Dial.
Context {PK K C : Type} (ParseAuthorizedKey : string → result PK) (ReadFile : string → result string)
  (ParsePrivateKey : string → result K) (Dial : string → ClientConfig PK K → result C).

Definition authMethods (s : gmap string any) : result K :=
  let keyPath := spec_str s "privateKeyPath" in
  if keyPath == "" then Err (Errorf "ssh: spec.privateKeyPath is required (key supplied via SecretProvider)")
  else match ReadFile keyPath with
       | Err er => Err (Wrap "ssh: read key: " er "")
       | Ok pem => match ParsePrivateKey pem with
                   | Err er => Err (Wrap "ssh: parse key: " er "")
                   | Ok signer => Ok signer
                   end
       end.

Definition hostKeyCallback (s : gmap string any) : HostCheck PK :=
  let fp := spec_str s "hostKey" in
  if fp != "" then
    match ParseAuthorizedKey fp with
    | Ok pk => FixedHostKey pk
    | Err er => RefuseHost (Wrap "ssh: spec.hostKey is set but unparseable, refusing rather than connecting unverified: " er "")
    end
  else if spec_bool s "insecureSkipHostKeyCheck" then InsecureIgnoreHostKey
  else RefuseHost (Errorf "ssh: no pinned host key (set spec.hostKey, or spec.insecureSkipHostKeyCheck for dev)").

Definition dialSSH (s : gmap string any) : result C :=
  let port := if spec_str s "port" == "" then "22" else spec_str s "port" in
  let user := if spec_str s "user" == "" then "deploy" else spec_str s "user" in
  try auth <- authMethods s;
  let addr := JoinHostPort (spec_str s "host") port in
  match Dial addr {| cc_User := user; cc_Key := auth; cc_HostKeyCallback := hostKeyCallback s |} with
  | Err er => Err (Wrap ("ssh: dial " +:+ addr +:+ ": ") er "")
  | Ok client => Ok client
  end.

Definition ssh_New (cfg : Config.Target) : result (C * HostTarget) :=
  let s := Config.tg_Spec cfg in
  if spec_str s "host" == "" then
    Err (Errorf ("ssh: target " +:+ quote (Config.tg_Ref cfg) +:+ ": spec.host is required"))
  else try tr <- dialSSH s; Ok (tr, ssh_newWith s).
End Dial.

(** ** The FTP target ([ftp.go], [conn_ftp.go]) *)
Definition ftp_newWith (s : gmap string any) : HostTarget :=
  let deployPath := if spec_str s "deployPath" == "" then "payload" else spec_str s "deployPath" in
  let stampPath := if spec_str s "stampPath" == "" then deployPath +:+ ".rollops-stamp" else spec_str s "stampPath" in
  {| ht_deployPath := deployPath; ht_stampPath := stampPath; ht_healthCmd := "" |}.

Section Ftp.
Context {W : Type} `{FileHost W} (t : HostTarget).

Definition ftp_Apply (m : RawManifest) : Act W (result Result) :=
  cur ← readStamp t;
  if (cur.1 == rm_Checksum m) && (rm_Checksum m != "") then
    mret (Ok {| re_Changed := false; re_Detail := "already at desired checksum" |})
  else
    er ← fh_write (ht_deployPath t) (rm_Spec m);
    match er with
    | Some er => mret (Err (Wrap "ftp: store payload: " er ""))
    | None =>
        er ← fh_write (ht_stampPath t) (rm_Checksum m);
        match er with
        | Some er => mret (Err (Wrap "ftp: store stamp: " er ""))
        | None => mret (Ok {| re_Changed := true; re_Detail := "uploaded " +:+ ht_deployPath t |})
        end
    end.

Definition ftp_Observe : Act W (result string) :=
  cur ← readStamp t;
  mret (match cur.2 with RFail er => Err (Wrap "ftp: observe: " er "") | _ => Ok cur.1 end).

Definition ftp_Health (ping : Act W (option err)) : Act W HealthStatus :=
  er ← ping;
  mret (match er with
        | Some er => {| hs_State := HealthUnhealthy; hs_Reason := err_str er |}
        | None => {| hs_State := HealthHealthy; hs_Reason := "" |}
        end).
End Ftp.

Inductive FtpCall := FStor (path content : string) | FRetr (path : string) | FReadAll | FNoOp.

(** A failed command: a reply code of the server, or another error. *)
Inductive ftpErr := FReply (code : Z) (e : err) | FOther (e : err).
Definition ftp_err (e : ftpErr) : err := match e with FReply _ e | FOther e => e end.

Definition StatusFileUnavailable : Z := 550.

Definition retrieveError (e : ftpErr) : fileRead :=
  match e with
  | FReply code e => if code =? StatusFileUnavailable then RMissing else RFail (Wrap "ftp: retrieve: " e "")
  | FOther e => RFail (Wrap "ftp: retrieve: " e "")
  end.

Section FtpConn.
Context (reply : list FtpCall → option ftpErr) (content : list FtpCall → result string).

Definition ftp_call (c : FtpCall) : Act (list FtpCall) (option ftpErr) := λ tr, let tr := c :: tr in (reply tr, tr).

Definition conn_Store (path data : string) : Act (list FtpCall) (option err) :=
  r ← ftp_call (FStor path data); mret (ftp_err <$> r).

Definition conn_Retrieve (path : string) : Act (list FtpCall) fileRead :=
  r ← ftp_call (FRetr path);
  match r with
  | Some e => mret (retrieveError e)
  | None => λ tr, let tr := FReadAll :: tr in (match content tr with Ok b => RData b | Err e => RFail e end, tr)
  end.

Definition conn_Ping : Act (list FtpCall) (option err) := r ← ftp_call FNoOp; mret (ftp_err <$> r).

#[global] Instance ftp_conn : FileHost (list FtpCall) := {| fh_write := conn_Store; fh_read := conn_Retrieve |}.
End FtpConn.

Section FtpDial.
Context {C : Type} (Dial : string → result C) (Login : C → string → string → option err).

Definition dialFTP (s : gmap string any) : result C :=
  let port := if spec_str s "port" == "" then "21" else spec_str s "port" in
  let addr := JoinHostPort (spec_str s "host") port in
  match Dial addr with
  | Err er => Err (Wrap ("ftp: dial " +:+ addr +:+ ": ") er "")
  | Ok c =>
      let user := if spec_str s "user" == "" then "anonymous" else spec_str s "user" in
      match Login c user (spec_str s "password") with
      | Some er => Err (Wrap "ftp: login: " er "")
      | None => Ok c
      end
  end.

Definition ftp_New (cfg : Config.Target) : result (C * HostTarget) :=
  let s := Config.tg_Spec cfg in
  if spec_str s "host" == "" then
    Err (Errorf ("ftp: target " +:+ quote (Config.tg_Ref cfg) +:+ ": spec.host is required"))
  else try conn <- dialFTP s; Ok (conn, ftp_newWith s).
End FtpDial.

(** ** The registry *)
Section Registry.
Context {T : Type}.

Definition Factory : Type := Config.Target → result T.
Definition NewRegistry : gmap string Factory := ∅.

(** [None]: the panic of a kind registered twice. *)
Definition Registry_Register (r : gmap string Factory) (kind : string) (f : Factory) : option (gmap string Factory) :=
  match r !! kind with Some _ => None | None => Some (<[kind := f]> r) end.

Definition Kinds (r : gmap string Factory) : list string := sort_strings (map_to_list r).*1.

Definition Registry_Build (r : gmap string Factory) (t : Config.Target) : result T :=
  match r !! Config.tg_Kind t with
  | None => Err (Errorf ("target: unknown kind " +:+ quote (Config.tg_Kind t) +:+ " (registered: [" +:+ Join (Kinds r) " " +:+ "])"))
  | Some f => f t
  end.

Definition Builtin (ssh ftp kubernetes plugin : Factory) : option (gmap string Factory) :=
  r ← Registry_Register NewRegistry "ssh" ssh;
  r ← Registry_Register r "ftp" ftp;
  r ← Registry_Register r "kubernetes" kubernetes;
  Registry_Register r "plugin" plugin.
End Registry.

(** ** What an apply leaves on the host *)
Section Stamps.
Context {W : Type} `{FileLaws W} (t : HostTarget).
Hypothesis apart : ht_deployPath t ≠ ht_stampPath t.

Lemma readStamp_frame w : files (readStamp t w).2 = files w.
Proof.
  unfold readStamp, mbind, Act_bind. pose proof (read_frame (ht_stampPath t) w) as Hf.
  destruct (fh_read (ht_stampPath t) w) as [r w']. by destruct r.
Qed.

Lemma readStamp_some w c w' r : readStamp t w = ((c, r), w') → c ≠ "" → files w !! ht_stampPath t = Some c.
Proof.
  unfold readStamp, mbind, Act_bind. destruct (fh_read (ht_stampPath t) w) as [[b| |e] w1] eqn:Hr; simpl; intros [= <- <- <-] Hne;
    try done. by eapply read_data.
Qed.

Lemma readStamp_here w c : files w !! ht_stampPath t = Some c → c ≠ "" → ∀ s r w', readStamp t w = ((s, r), w') →
  s = c ∨ ∃ e, r = RFail e.
Proof.
  intros Hc Hne s r w'. unfold readStamp, mbind, Act_bind.
  destruct (fh_read (ht_stampPath t) w) as [[b| |e] w1] eqn:Hr; simpl; intros [= <- <- <-].
  - apply read_data in Hr. left. congruence.
  - apply read_missing in Hr. congruence.
  - right. by eexists.
Qed.

(** The two files an apply is about. *)
Definition payload (w : W) : option string := files w !! ht_deployPath t.
Definition stamp (w : W) : option string := files w !! ht_stampPath t.

(** The outcomes of the target's apply: nothing was needed because the stamp is
    the wanted one; or both files were written; or a write failed, and then the
    stamp is untouched unless it is the stamp's own write that failed, after the
    payload was written. *)
Lemma ssh_apply_outcomes m w r w' :
  ssh_Apply t m w = (r, w') →
  match r with
  | Ok res =>
      if re_Changed res then payload w' = Some (rm_Spec m) ∧ stamp w' = Some (rm_Checksum m)
      else files w' = files w ∧ stamp w = Some (rm_Checksum m)
  | Err _ => stamp w' = stamp w ∨ payload w' = Some (rm_Spec m)
  end.
Proof.
  unfold ssh_Apply, mbind, Act_bind, mret, Act_ret, payload, stamp.
  pose proof (readStamp_frame w) as Hf. destruct (readStamp t w) as [[c rd] w1] eqn:Hr. simpl in *.
  case_bool_decide as Hc; simpl; [case_bool_decide as Hne; simpl|].
  2:{ intros [= <- <-]. split; [done|]. subst c. by eapply readStamp_some. }
  all: destruct (fh_write (ht_deployPath t) (rm_Spec m) w1) as [[e|] w2] eqn:Hw;
    [intros [= <- <-]; left; rewrite (write_err _ _ _ _ _ Hw) by done; by rewrite Hf|].
  all: destruct (fh_write (ht_stampPath t) (rm_Checksum m) w2) as [[e|] w3] eqn:Hs; intros [= <- <-].
  all: apply write_ok in Hw.
  all: try (right; rewrite (write_err _ _ _ _ _ Hs) by done; by rewrite Hw, lookup_insert_eq).
  all: apply write_ok in Hs; rewrite Hs; simpl; split;
    [rewrite lookup_insert_ne by done; by rewrite Hw, lookup_insert_eq|by rewrite lookup_insert_eq].
Qed.

(** A successful apply is observed: when the stamp can be read at all, it is the
    checksum that was applied, and applying again changes nothing. *)
Theorem applied_is_observed m w res w' :
  rm_Checksum m ≠ "" → ssh_Apply t m w = (Ok res, w') →
  (∀ v w2, ssh_Observe t w' = (Ok v, w2) → v = rm_Checksum m) ∧
  (∀ s rd w2, readStamp t w' = ((s, rd), w2) → (∀ e, rd ≠ RFail e) →
     ∃ res', ssh_Apply t m w' = (Ok res', w2) ∧ re_Changed res' = false ∧ files w2 = files w').
Proof.
  intros Hne Ha. assert (stamp w' = Some (rm_Checksum m)) as Hst.
  { apply ssh_apply_outcomes in Ha. destruct (re_Changed res); [by destruct Ha|]. unfold stamp in *. destruct Ha as [-> ?]. done. }
  split.
  - intros v w2. unfold ssh_Observe, mbind, Act_bind, mret, Act_ret. destruct (readStamp t w') as [[s rd] w1] eqn:Hr. simpl.
    destruct (readStamp_here _ _ Hst Hne _ _ _ Hr) as [->|[e ->]]; [|done]. by destruct rd; intros [= <- <-].
  - intros s rd w2 Hr Hrd. destruct (readStamp_here _ _ Hst Hne _ _ _ Hr) as [->|[e ->]]; [|by destruct (Hrd e)].
    unfold ssh_Apply, mbind, Act_bind, mret, Act_ret. rewrite Hr. simpl.
    rewrite bool_decide_eq_true_2, bool_decide_eq_false_2 by done. simpl.
    eexists. split; [done|]. split; [done|]. pose proof (readStamp_frame w') as Hf. by rewrite Hr in Hf.
Qed.

(** A failed apply can leave the old stamp beside a new or broken payload.  Going
    back to the version of that stamp is then reported as not needed: whatever
    the failed apply left is kept. *)
Theorem going_back_restores_nothing m1 m2 w e w1 s rd w2 :
  rm_Checksum m1 ≠ "" → stamp w = Some (rm_Checksum m1) →
  ssh_Apply t m2 w = (Err e, w1) → stamp w1 = stamp w →
  readStamp t w1 = ((s, rd), w2) → (∀ e, rd ≠ RFail e) →
  ∃ res, ssh_Apply t m1 w1 = (Ok res, w2) ∧ re_Changed res = false ∧ payload w2 = payload w1.
Proof.
  intros Hne Hst _ Hkept Hr Hrd. rewrite Hst in Hkept.
  destruct (readStamp_here _ _ Hkept Hne _ _ _ Hr) as [->|[e' ->]]; [|by destruct (Hrd e')].
  unfold ssh_Apply, mbind, Act_bind, mret, Act_ret. rewrite Hr. simpl.
  rewrite bool_decide_eq_true_2, bool_decide_eq_false_2 by done. simpl.
  eexists. split; [done|]. split; [done|]. unfold payload. pose proof (readStamp_frame w1) as Hf. rewrite Hr in Hf. by rewrite <- Hf.
Qed.
End Stamps.

(** The FTP target is the SSH target with other messages. *)
Lemma ftp_same_effects {W} `{FileHost W} t m w :
  (ftp_Apply t m w).2 = (ssh_Apply t m w).2 ∧ is_ok (ftp_Apply t m w).1 = is_ok (ssh_Apply t m w).1.
Proof.
  unfold ftp_Apply, ssh_Apply, mbind, Act_bind, mret, Act_ret. destruct (readStamp t w) as [[c rd] w1]. simpl.
  destruct (_ && _); [done|]. destruct (fh_write _ _ w1) as [[e|] w2]; [done|].
  by destruct (fh_write _ _ w2) as [[e|] w3].
Qed.

(** ** What the remote shell makes of a command

    The quoting rules of a POSIX shell, for the characters these commands use:
    words and the operators [;] and [>].  [None]: a character with another
    meaning outside quotes, or an unfinished quotation. *)
Inductive shToken := ShWord (s : string) | ShOp (s : string).

Definition sh_special (c : Ascii.ascii) : bool :=
  existsb (λ n, Nat.eqb (Ascii.nat_of_ascii c) n) [9; 10; 34; 36; 38; 40; 41; 60; 96; 124]%nat.
Definition sh_flush (cur : option string) : list shToken := match cur with Some w => [ShWord w] | None => [] end.

Fixpoint sh_lex (quoted : bool) (cur : option string) (s : string) : option (list shToken) :=
  match s with
  | EmptyString => if quoted then None else Some (sh_flush cur)
  | String c s =>
      let more := Some (default "" cur +:+ String c "") in
      if quoted then if bool_decide (c = squote) then sh_lex false cur s else sh_lex true more s
      else if bool_decide (c = squote) then sh_lex true (Some (default "" cur)) s
      else if bool_decide (c = backslash) then
        match s with
        | String d s => sh_lex false (Some (default "" cur +:+ String d "")) s
        | EmptyString => None
        end
      else if bool_decide (c = Ascii.ascii_of_nat 32) then (app (sh_flush cur)) <$> sh_lex false None s
      else if bool_decide (c = Ascii.ascii_of_nat 59) || bool_decide (c = Ascii.ascii_of_nat 62) then
        (λ ts, sh_flush cur ++ ShOp (String c "") :: ts) <$> sh_lex false None s
      else if sh_special c then None
      else sh_lex false more s
  end.

(** What [ReplaceAll] makes of the quotes, a character at a time. *)
Fixpoint escape_quotes (s : string) : string :=
  match s with
  | EmptyString => EmptyString
  | String c s => (if bool_decide (c = squote) then escaped_quote else String c "") +:+ escape_quotes s
  end.

Lemma replace_quotes n s : (str_len s ≤ n)%nat → replace_all n s squote_str escaped_quote = escape_quotes s.
Proof.
  revert s. induction n as [|n IH]; intros [|c s] Hn; try done; [unfold str_len in Hn; simpl in Hn; lia|].
  assert (str_len s ≤ n)%nat by (unfold str_len in *; simpl in Hn; lia).
  change (replace_all (S n) (String c s) squote_str escaped_quote) with
    (if HasPrefix (String c s) squote_str then escaped_quote +:+ replace_all n (str_drop 1 (String c s)) squote_str escaped_quote
     else String c (replace_all n s squote_str escaped_quote)).
  change (HasPrefix (String c s) squote_str) with (match Ascii.ascii_dec squote c with left _ => HasPrefix s "" | right _ => false end).
  change (escape_quotes (String c s)) with ((if bool_decide (c = squote) then escaped_quote else String c "") +:+ escape_quotes s).
  destruct (Ascii.ascii_dec squote c) as [->|Hne].
  - rewrite bool_decide_eq_true_2 by done. rewrite <- IH by done. by destruct s.
  - rewrite bool_decide_eq_false_2 by congruence. by rewrite IH.
Qed.

Lemma lex_escaped s cur rest :
  sh_lex true (Some cur) (escape_quotes s +:+ String squote rest) = sh_lex false (Some (cur +:+ s)) rest.
Proof.
  revert cur. induction s as [|c s IH]; intros cur.
  - rewrite str_app_empty_r. done.
  - assert (∀ x, (cur +:+ String c "") +:+ x = cur +:+ String c x) as Happ.
    { intros x. clear. induction cur as [|d cur IH]; [done|]. change (String d ((cur +:+ String c "") +:+ x) = String d (cur +:+ String c x)).
      by rewrite IH. }
    change (escape_quotes (String c s)) with ((if bool_decide (c = squote) then escaped_quote else String c "") +:+ escape_quotes s).
    case_bool_decide as Hc.
    + subst. etrans; [|by rewrite <- Happ; apply IH]. done.
    + etrans; [|by rewrite <- Happ; apply IH]. simpl. by rewrite bool_decide_eq_false_2.
Qed.

Lemma lex_quoted s cur rest : sh_lex false cur (shellQuote s +:+ rest) = sh_lex false (Some (default "" cur +:+ s)) rest.
Proof.
  unfold shellQuote, ReplaceAll. rewrite replace_quotes by done.
  assert (∀ a b : string, (a +:+ squote_str) +:+ b = a +:+ String squote b) as Happ.
  { intros a b. induction a as [|c a IH]; [done|]. change (String c ((a +:+ squote_str) +:+ b) = String c (a +:+ String squote b)). by rewrite IH. }
  change ((squote_str +:+ escape_quotes s +:+ squote_str) +:+ rest) with (String squote ((escape_quotes s +:+ squote_str) +:+ rest)).
  rewrite Happ, <- lex_escaped. done.
Qed.

Lemma str_assoc (a b c : string) : (a +:+ b) +:+ c = a +:+ b +:+ c.
Proof. induction a as [|x a IH]; [done|]. change (String x ((a +:+ b) +:+ c) = String x (a +:+ b +:+ c)). by rewrite IH. Qed.

Lemma lex_write x : sh_lex false None ("cat > " +:+ x) = app [ShWord "cat"; ShOp ">"] <$> sh_lex false None x.
Proof. simpl. change ("" +:+ x) with x. by destruct (sh_lex false None x). Qed.
Lemma lex_test x : sh_lex false None ("if [ -e " +:+ x) = app [ShWord "if"; ShWord "["; ShWord "-e"] <$> sh_lex false None x.
Proof. simpl. change ("" +:+ x) with x. by destruct (sh_lex false None x). Qed.
Lemma lex_then w x : sh_lex false (Some w) (" ]; then cat " +:+ x) =
  app [ShWord w; ShWord "]"; ShOp ";"; ShWord "then"; ShWord "cat"] <$> sh_lex false None x.
Proof. simpl. change ("" +:+ x) with x. by destruct (sh_lex false None x). Qed.

(** C31. The commands sent to a host say the same for every path: the path is one
    word of the shell, never more of the command, whatever quotes, spaces and
    operators it holds. *)
Theorem path_is_one_word path :
  sh_lex false None (writeFileCommand path) = Some [ShWord "cat"; ShOp ">"; ShWord path] ∧
  sh_lex false None (readFileCommand path) =
    Some [ShWord "if"; ShWord "["; ShWord "-e"; ShWord path; ShWord "]"; ShOp ";"; ShWord "then"; ShWord "cat"; ShWord path;
          ShOp ";"; ShWord "else"; ShWord "exit"; ShWord "44"; ShOp ";"; ShWord "fi"].
Proof.
  split.
  - unfold writeFileCommand. rewrite <- (str_app_empty_r (shellQuote path)), lex_write, lex_quoted. done.
  - unfold readFileCommand. rewrite lex_test, lex_quoted, lex_then, lex_quoted. done.
Qed.

(** ** Whom a connection trusts *)

(** Whether a host that shows the key [pk] is accepted. *)
Definition accepts {PK} `{EqDecision PK} (hc : HostCheck PK) (pk : PK) : bool :=
  match hc with FixedHostKey p => bool_decide (p = pk) | RefuseHost _ => false | InsecureIgnoreHostKey => true end.

(** A host is accepted only when it shows the pinned key, or when nothing is
    pinned and the check was turned off; a pin that cannot be read accepts
    nobody. *)
Theorem host_must_be_pinned {PK} `{EqDecision PK} (parse : string → result PK) s pk :
  accepts (hostKeyCallback parse s) pk = true ↔
  (spec_str s "hostKey" ≠ "" ∧ parse (spec_str s "hostKey") = Ok pk) ∨
  (spec_str s "hostKey" = "" ∧ spec_bool s "insecureSkipHostKeyCheck" = true).
Proof.
  unfold hostKeyCallback. case_bool_decide as Hk; simpl.
  - destruct (spec_bool s "insecureSkipHostKeyCheck"); simpl; naive_solver.
  - destruct (parse _) as [p|e]; simpl; [rewrite bool_decide_eq_true|]; naive_solver.
Qed.

(** The registry builds every kind it registered with that kind's factory, and
    names the kinds it knows otherwise. *)
Lemma builtin_builds {T} (ssh ftp kubernetes plugin : Factory (T := T)) t :
  ∃ r, Builtin ssh ftp kubernetes plugin = Some r ∧
    (Config.tg_Kind t = "ssh" → Registry_Build r t = ssh t) ∧ (Config.tg_Kind t = "ftp" → Registry_Build r t = ftp t) ∧
    (Config.tg_Kind t = "kubernetes" → Registry_Build r t = kubernetes t) ∧
    (Config.tg_Kind t = "plugin" → Registry_Build r t = plugin t) ∧
    (Config.tg_Kind t ∉ ["ssh"; "ftp"; "kubernetes"; "plugin"] → ∃ e, Registry_Build r t = Err e).
Proof.
  eexists. split; [reflexivity|]. unfold Registry_Build. split_and!; try by intros ->.
  rewrite !not_elem_of_cons. intros (N1 & N2 & N3 & N4 & _). rewrite !lookup_insert_ne by done.
  unfold NewRegistry. rewrite lookup_empty. by eexists.
Qed.

Module Demo.

(** A host in memory: its files, and which of the next writes fail, leaving the
    file as it was. *)
Definition Host : Type := gmap string string * list bool.

#[export] Instance host_files : FileHost Host := {|
  fh_write p c w :=
    match w.2 with
    | true :: faults => (Some (Errorf "connection reset by peer"), (w.1, faults))
    | _ :: faults => (None, (<[p := c]> w.1, faults))
    | [] => (None, (<[p := c]> w.1, []))
    end;
  fh_read p w := (match w.1 !! p with Some c => RData c | None => RMissing end, w) |}.

#[export] Instance host_laws : FileLaws Host.
Proof.
  refine {| files := fst |}.
  - intros p c [m [|[] faults]] w'; simpl; by intros [= <-].
  - intros p c [m [|[] faults]] e w'; simpl; by intros [= <- <-].
  - done.
  - intros p [m faults] c w'; simpl. by destruct (m !! p); intros [= <- <-].
  - intros p [m faults] w'; simpl. by destruct (m !! p); intros [= <-].
Defined.

Definition target : HostTarget := ssh_newWith ∅.
Definition manifest (spec sum : string) : RawManifest :=
  {| rm_Kind := "ssh"; rm_Spec := spec; rm_Checksum := sum; rm_Root := ""; rm_Rendered := "" |}.
Definition v1 : RawManifest := manifest "one" "sum-1".
Definition v2 : RawManifest := manifest "two" "sum-2".

Lemma applied_is_observed_witness :
  ∃ w', ssh_Apply target v1 ((∅, []) : Host) = (Ok {| re_Changed := true; re_Detail := "deployed /srv/rollops/payload" |}, w') ∧
    ∀ v w2, ssh_Observe target w' = (Ok v, w2) → v = "sum-1".
Proof.
  eexists. split; [reflexivity|].
  refine (proj1 (applied_is_observed target _ v1 ((∅, []) : Host) _ _ _ eq_refl)); vm_compute; discriminate.
Defined.

(** The first version is in place; the upload of the second fails at the stamp;
    going back to the first is not needed, and the second stays. *)
Lemma going_back_restores_nothing_witness :
  let w : Host := (<["/srv/rollops/payload" := "one"]> (<["/srv/rollops/payload.rollops-stamp" := "sum-1"]> ∅), [false; true]) in
  ∃ e w1 res w2, ssh_Apply target v2 w = (Err e, w1) ∧ ssh_Apply target v1 w1 = (Ok res, w2) ∧ re_Changed res = false ∧
    payload target w2 = Some "two".
Proof.
  intros w. eexists _, _.
  assert (∃ res, ssh_Apply target v1 (ssh_Apply target v2 w).2 = (Ok res, (readStamp target (ssh_Apply target v2 w).2).2) ∧
            re_Changed res = false ∧ payload target (readStamp target (ssh_Apply target v2 w).2).2 = payload target (ssh_Apply target v2 w).2)
    as (res & H1 & H2 & H3).
  { eapply (going_back_restores_nothing target v1 v2 w); [vm_compute; discriminate|reflexivity|reflexivity|reflexivity|reflexivity|].
    vm_compute. discriminate. }
  exists res. eexists. split; [reflexivity|]. split; [exact H1|]. split; [exact H2|]. rewrite H3. reflexivity.
Defined.
End Demo.
