(* ===== verification/Plugins.v ===== *)
(** * Plugins

    A plugin is a binary pinned by its hash that the host starts as a process:
    the host side ([internal/pluginhost]: verification, policy, launch, client),
    the toolkit a plugin is written with ([pkg/plugin]: handshake, manifest,
    server, the target wrapper), and the adapters that make a plugin a target, a
    flag provider, a traffic router or a source of metrics, with the built-in
    Gateway API router ([internal/target/plugin], [internal/featureflags],
    [internal/trafficrouting], [internal/metricplugin]).  The operating system is
    the class [PluginOS], cryptography and codecs are its fields. *)

From S2P Require Import Prelude Encoding Json Config Model Security World ImageSelect Git ConfigLoad Process KubeRender.
From S2P Require Import KubeCluster KubeTarget Hosts.

(** ** Manifests ([manifest.go]) *)
Definition RiskPassive : string := "passive".
Definition RiskActive : string := "active".
Definition RiskInvasive : string := "invasive".

Record Tool := { to_Name : string; to_Description : string; to_Mutating : bool; to_RiskClass : string }.
Record Capability := { ca_Name : string; ca_Description : string; ca_Tools : list Tool }.
Record Safety := {
  sa_NetworkHosts : list string;
  sa_FilePaths : list string;
  sa_EnvVars : list string;
  sa_RiskClass : string;
  sa_NeedsConfirmation : bool;
}.
Record PluginManifest := { pm_Name : string; pm_Version : string; pm_Capabilities : list Capability; pm_Safety : Safety }.

Definition no_safety : Safety :=
  {| sa_NetworkHosts := []; sa_FilePaths := []; sa_EnvVars := []; sa_RiskClass := ""; sa_NeedsConfirmation := false |}.

(** The fluent builder: the manifest so far and the open capability. *)
Record ManifestBuilder := { mb_m : PluginManifest; mb_cap : option Capability }.

Definition NewManifest (name version : string) : ManifestBuilder :=
  {| mb_m := {| pm_Name := name; pm_Version := version; pm_Capabilities := []; pm_Safety := no_safety |}; mb_cap := None |}.

Definition flush (b : ManifestBuilder) : ManifestBuilder :=
  match mb_cap b with
  | None => b
  | Some c =>
      {| mb_m := {| pm_Name := pm_Name (mb_m b); pm_Version := pm_Version (mb_m b);
                    pm_Capabilities := pm_Capabilities (mb_m b) ++ [c]; pm_Safety := pm_Safety (mb_m b) |};
         mb_cap := None |}
  end.

Definition builder_Capability (name description : string) (b : ManifestBuilder) : ManifestBuilder :=
  {| mb_m := mb_m (flush b); mb_cap := Some {| ca_Name := name; ca_Description := description; ca_Tools := [] |} |}.

Definition builder_ToolRisk (name description : string) (mutating : bool) (risk : string) (b : ManifestBuilder) : ManifestBuilder :=
  {| mb_m := mb_m b;
     mb_cap := (λ c, {| ca_Name := ca_Name c; ca_Description := ca_Description c;
                        ca_Tools := ca_Tools c ++ [{| to_Name := name; to_Description := description;
                                                      to_Mutating := mutating; to_RiskClass := risk |}] |}) <$> mb_cap b |}.
Definition builder_Tool (name description : string) (mutating : bool) : ManifestBuilder → ManifestBuilder :=
  builder_ToolRisk name description mutating "".

Definition builder_Safety (s : Safety) (b : ManifestBuilder) : ManifestBuilder :=
  {| mb_m := {| pm_Name := pm_Name (mb_m b); pm_Version := pm_Version (mb_m b);
                pm_Capabilities := pm_Capabilities (mb_m b); pm_Safety := s |}; mb_cap := mb_cap b |}.

Definition builder_Build (b : ManifestBuilder) : PluginManifest := mb_m (flush b).

(** On the wire the safety message may be absent. *)
Record GetManifestResponse := {
  gm_Name : string; gm_Version : string; gm_ApiVersion : string; gm_Capabilities : list Capability; gm_Safety : option Safety;
}.

Definition APIVersion : string := "v1".

Definition manifestToProto (m : PluginManifest) : GetManifestResponse :=
  {| gm_Name := pm_Name m; gm_Version := pm_Version m; gm_ApiVersion := APIVersion;
     gm_Capabilities := pm_Capabilities m; gm_Safety := Some (pm_Safety m) |}.

Definition manifestFromProto (r : GetManifestResponse) : PluginManifest :=
  {| pm_Name := gm_Name r; pm_Version := gm_Version r; pm_Capabilities := gm_Capabilities r;
     pm_Safety := default no_safety (gm_Safety r) |}.

(** ** Handshake ([handshake.go]) *)
Definition ProtocolVersion : Z := 1.
Definition Cookie : string := "ROLLOPS_TARGET_PLUGIN_V1".
Definition handshakePrefix : string := "ROLLOPS_PLUGIN".

Record Handshake := { hd_ProtocolVersion : Z; hd_Cookie : string; hd_Addr : string }.

Definition handshake_Line (h : Handshake) : string :=
  handshakePrefix +:+ "|" +:+ pretty (hd_ProtocolVersion h) +:+ "|" +:+ hd_Cookie h +:+ "|" +:+ hd_Addr h.

Definition ParseHandshake (line : string) : option Handshake :=
  match Split (TrimSpace line) pipe with
  | [prefix; version; cookie; addr] =>
      if prefix != handshakePrefix then None
      else v ← strconv_Atoi version; Some {| hd_ProtocolVersion := v; hd_Cookie := cookie; hd_Addr := addr |}
  | _ => None
  end.

Definition handshake_Verify (h : Handshake) : option err :=
  if hd_Cookie h != Cookie then Some (Errorf "plugin: bad handshake cookie (not a target plugin)")
  else if negb (hd_ProtocolVersion h =? ProtocolVersion) then
    Some (Errorf ("plugin: protocol version mismatch: host " +:+ pretty ProtocolVersion +:+ ", plugin " +:+
                  pretty (hd_ProtocolVersion h)))
  else if hd_Addr h == "" then Some (Errorf "plugin: handshake missing listen address")
  else None.

(** ** Policy ([policy.go]) *)
Definition ConfirmEnv : string := "ROLLOPS_PLUGIN_CONFIRM".
Definition AllowedEnvEnv : string := "ROLLOPS_PLUGIN_ALLOWED_ENV".

Record PluginPolicy := {
  pp_AllowedNetworkHosts : list string;
  pp_AllowedEnvVars : list string;
  pp_AllowedFilePaths : list string;
  pp_MaxRiskClass : string;
  pp_AllowConfirmation : bool;
  pp_ConfirmedPlugins : list string;
}.

Definition splitList (v : string) : list string := filter (λ t, t ≠ "") (TrimSpace <$> Split v comma).

Definition DefaultPolicy (getenv : string → string) : PluginPolicy :=
  {| pp_AllowedNetworkHosts := []; pp_AllowedEnvVars := splitList (getenv AllowedEnvEnv); pp_AllowedFilePaths := ["*"];
     pp_MaxRiskClass := RiskActive; pp_AllowConfirmation := true; pp_ConfirmedPlugins := splitList (getenv ConfirmEnv) |}.

(** The map [riskRank], and the ranks used to compare classes. *)
Definition riskRank (c : string) : option Z :=
  if c == RiskPassive then Some 0 else if c == RiskActive then Some 1 else if c == RiskInvasive then Some 2 else None.
Definition riskRankOf (c : string) : Z := if c == "" then -1 else default 3 (riskRank c).

Definition effectiveRisk (m : PluginManifest) : string :=
  if sa_RiskClass (pm_Safety m) != "" then sa_RiskClass (pm_Safety m)
  else foldl (λ best t, if (to_RiskClass t != "") && (riskRankOf best <? riskRankOf (to_RiskClass t)) then to_RiskClass t else best)
         "" (c ← pm_Capabilities m; ca_Tools c).

Definition allowed (v : string) (l : list string) : bool := existsb (λ a, (a == "*") || (a == v)) l.
Definition prefixAllowed (v : string) (l : list string) : bool := existsb (λ a, (a == "*") || HasPrefix v a) l.

(** The first entry that is not allowed. *)
Definition refused (ok : string → bool) (l : list string) : option string := head (filter (λ v, ok v = false) l).

Definition policy_Validate (p : PluginPolicy) (m : PluginManifest) : option err :=
  let s := pm_Safety m in
  let eff := effectiveRisk m in
  let plugin := "plugin " +:+ quote (pm_Name m) +:+ ": " in
  let exceeds := match riskRank eff with None => true | Some rank => default 0 (riskRank (pp_MaxRiskClass p)) <? rank end in
  if (eff != "") && exceeds then
    Some (Errorf (plugin +:+ "risk class " +:+ quote eff +:+ " exceeds policy max " +:+ quote (pp_MaxRiskClass p)))
  else if sa_NeedsConfirmation s && negb (pp_AllowConfirmation p) then
    Some (Errorf (plugin +:+ "requires confirmation, not permitted by policy"))
  else if sa_NeedsConfirmation s && negb (allowed (pm_Name m) (pp_ConfirmedPlugins p)) then
    Some (Errorf (plugin +:+ "requires operator confirmation; add it to " +:+ ConfirmEnv +:+ " (or set " +:+
                  quote ConfirmEnv +:+ " to " +:+ quote "*" +:+ ") to load it"))
  else match refused (λ h, allowed h (pp_AllowedNetworkHosts p)) (sa_NetworkHosts s) with
       | Some h => Some (Errorf (plugin +:+ "network host " +:+ quote h +:+ " not allow-listed"))
       | None =>
           match refused (λ e, allowed e (pp_AllowedEnvVars p)) (sa_EnvVars s) with
           | Some e => Some (Errorf (plugin +:+ "env var " +:+ quote e +:+ " not allow-listed"))
           | None =>
               match refused (λ f, prefixAllowed f (pp_AllowedFilePaths p)) (sa_FilePaths s) with
               | Some f => Some (Errorf (plugin +:+ "file path " +:+ quote f +:+ " not allow-listed"))
               | None => None
               end
           end
       end.

Definition HasCapability (m : PluginManifest) (name : string) : bool := existsb (λ c, ca_Name c == name) (pm_Capabilities m).

(** ** Standard error of a plugin ([cappedWriter]) *)
Record cappedWriter := { cw_midLine : bool; cw_remaining : nat; cw_truncated : bool }.

(** What reaches the daemon's own standard error. *)
Inductive relayed := RPrefix | RChunk (s : string) | RTruncated.

Definition newline_at (p : string) : option nat := IndexByte p newline_char.

(** The loop of [Write]; each round takes at least a byte of [p]. *)
Fixpoint capped_write (fuel : nat) (c : cappedWriter) (p : string) : list relayed * cappedWriter :=
  match fuel with
  | O => ([], c)
  | S fuel =>
      if p == "" then ([], c)
      else if (cw_remaining c =? 0)%nat then
        (if cw_truncated c then [] else [RTruncated],
         {| cw_midLine := cw_midLine c; cw_remaining := cw_remaining c; cw_truncated := true |})
      else
        let '(chunk, rest, mid) :=
          match newline_at p with
          | None => (p, "", true)
          | Some i => (str_take (i + 1) p, str_drop (i + 1) p, false)
          end in
        let chunk := str_take (cw_remaining c) chunk in
        let '(out, c') := capped_write fuel {| cw_midLine := mid; cw_remaining := cw_remaining c - str_len chunk;
                                               cw_truncated := cw_truncated c |} rest in
        ((if cw_midLine c then [] else [RPrefix]) ++ RChunk chunk :: out, c')
  end.
Definition Write (c : cappedWriter) (p : string) : list relayed * cappedWriter := capped_write (S (str_len p)) c p.
Definition maxStderrBytes : nat := Nat.pow 2 20.
Definition new_cappedWriter (cap : nat) : cappedWriter := {| cw_midLine := false; cw_remaining := cap; cw_truncated := false |}.

(** ** The operating system *)
Inductive PCall :=
| PEvalSymlinks (path : string)
| PRead (path : string)
| PStart (path : string) (environ : list string)
| PAwaitHandshake
| PDial (addr : string)
| PKill
| PGetManifest
| PInvoke (capability tool input : string)
| PClose.

Inductive started := Started | PipeError (e : err) | StartError (e : err).

(** The wait for the handshake: the lines read and the error that ended the
    reading if any, the caller gone, or the time up. *)
Inductive handshakeWait := WLines (lines : list string) (e : option err) | WCanceled (e : err) | WTimeout (after : string).

Inductive publicKey := ECDSAKey (k : string) | Ed25519Key (k : string) | RSAKey (k : string) | OtherKey (type : string).

Class PluginOS := {
  po_getenv : string → string;
  po_environ : list string;
  po_eval : list PCall → result string;
  po_read : list PCall → result string;
  po_start : list PCall → started;
  po_await : list PCall → handshakeWait;
  po_dial : list PCall → option err;
  po_manifest : list PCall → result GetManifestResponse;
  po_invoke : list PCall → result string;
  po_sha256 : string → string;
  po_pem : string → option string;
  po_pkix : string → result publicKey;
  po_ecdsa : string → string → string → bool;         (* key, digest, signature *)
  po_ed25519 : string → string → string → bool;       (* key, message, signature *)
  po_rsa : string → string → string → option err;
}.

(** ** The host *)
Definition PublicKeyEnv : string := "ROLLOPS_PLUGIN_PUBLIC_KEY".

Section HostSide.
Context `{PluginOS}.

(** [os.Open] with [io.Copy] or [io.ReadAll], or [os.ReadFile]. *)
Definition read_file (path : string) : Prog PCall (result string) := call (PRead path) po_read.

Definition VerifyBinary (path sha256hex : string) : Prog PCall (option err) :=
  if sha256hex == "" then mret (Some (Errorf ("plugin: binary " +:+ path +:+ ": sha256 pin required")))
  else
    attempt content <- read_file path catch er => mret (Some (Wrap "plugin: open binary: " er ""));
    let got := hex_encode (po_sha256 content) in
    mret (if negb (EqualFold got sha256hex) then
            Some (Errorf ("plugin: binary " +:+ path +:+ ": sha256 mismatch: pinned " +:+ sha256hex +:+ ", got " +:+ got))
          else None).

Definition parsePublicKey (pubPEM : string) : result publicKey :=
  match po_pem pubPEM with
  | None => Err (Errorf "plugin: no PEM block in public key")
  | Some block => match po_pkix block with
                  | Err er => Err (Wrap "plugin: parse public key: " er "")
                  | Ok pub => Ok pub
                  end
  end.

Definition signature_failed (path scheme : string) : err :=
  Errorf ("plugin: " +:+ path +:+ ": signature verification failed (" +:+ scheme +:+ ")").

(** The binary is read again for the digest, and once more for Ed25519. *)
Definition verifyCosignSignature (path sigB64 pubPEM : string) : Prog PCall (option err) :=
  match parsePublicKey pubPEM with
  | Err er => mret (Some er)
  | Ok pub =>
      match DecodeString StdEncoding (TrimSpace sigB64) with
      | None => mret (Some (Errorf "plugin: decode signature: illegal base64 data"))
      | Some sig =>
          attempt content <- read_file path catch er => mret (Some (Wrap "plugin: open binary: " er ""));
          let digest := po_sha256 content in
          match pub with
          | ECDSAKey k => mret (if po_ecdsa k digest sig then None else Some (signature_failed path "ecdsa"))
          | Ed25519Key k =>
              attempt content <- read_file path catch er => mret (Some (Wrap "plugin: open binary: " er ""));
              mret (if po_ed25519 k content sig then None else Some (signature_failed path "ed25519"))
          | RSAKey k =>
              mret ((λ er, Wrap ("plugin: " +:+ path +:+ ": signature verification failed (rsa): ") er "") <$> po_rsa k digest sig)
          | OtherKey type => mret (Some (Errorf ("plugin: unsupported public key type " +:+ type)))
          end
      end
  end.

Definition VerifyArtifact (path sha256hex : string) : Prog PCall (option err) :=
  ensure VerifyBinary path sha256hex catch er => mret (Some er);
  let keyPath := po_getenv PublicKeyEnv in
  if keyPath == "" then mret None
  else if Contains keyPath ".." then
    mret (Some (Errorf ("plugin: " +:+ PublicKeyEnv +:+ " must not contain dot-dot segments: " +:+ quote keyPath)))
  else
    attempt pubPEM <- read_file (Clean keyPath)
      catch er => mret (Some (Wrap ("plugin: read public key (" +:+ PublicKeyEnv +:+ "): ") er ""));
    attempt sigB64 <- read_file (path +:+ ".sig")
      catch er => mret (Some (Wrap ("plugin: " +:+ PublicKeyEnv +:+ " set but signature " +:+ path +:+ ".sig missing: ") er ""));
    verifyCosignSignature path sigB64 pubPEM.

Definition buildPluginEnv (allowed parentEnv : list string) : list string := ConfineEnv allowed parentEnv.

(** Lines that are no handshake are skipped. *)
Definition awaitHandshake : Prog PCall (result Handshake) :=
  w ← call PAwaitHandshake po_await;
  mret (match w with
        | WLines lines e =>
            match head (omap ParseHandshake lines), e with
            | Some hs, _ => Ok hs
            | None, Some e => Err (Wrap "plugin: reading handshake: " e "")
            | None, None => Err (Errorf "plugin: exited before handshake")
            end
        | WCanceled e => Err (Wrap "plugin: handshake canceled: " e "")
        | WTimeout after => Err (Errorf ("plugin: handshake timeout after " +:+ after))
        end).

Definition killLaunch : Prog PCall unit := call PKill (λ _, tt).
Definition proc_Close : Prog PCall unit := call PClose (λ _, tt).

Definition Launch (path : string) (allowedEnv : list string) : Prog PCall (option err) :=
  s ← call (PStart path (buildPluginEnv allowedEnv po_environ)) po_start;
  match s with
  | PipeError er => mret (Some (Wrap "plugin: launch: " er ""))
  | StartError er => mret (Some (Wrap ("plugin: launch " +:+ path +:+ ": ") er ""))
  | Started =>
      attempt hs <- awaitHandshake catch er => (killLaunch;; mret (Some er));
      match handshake_Verify hs with
      | Some er => killLaunch;; mret (Some er)
      | None =>
          ensure call (PDial (hd_Addr hs)) po_dial
            catch er => (killLaunch;; mret (Some (Wrap ("plugin: dial " +:+ hd_Addr hs +:+ ": ") er "")));
          mret None
      end
  end.

Definition client_Manifest : Prog PCall (result PluginManifest) :=
  attempt resp <- call PGetManifest po_manifest catch er => mret (Err (Wrap "plugin: get manifest: " er ""));
  mret (Ok (manifestFromProto resp)).

Definition client_Invoke (capability tool input : string) : Prog PCall (result string) :=
  attempt out <- call (PInvoke capability tool input) po_invoke
    catch er => mret (Err (Wrap ("plugin: invoke " +:+ capability +:+ "/" +:+ tool +:+ ": ") er ""));
  mret (Ok out).

(** What the four builders share: the binary behind the links is verified before
    it is started, and a plugin whose manifest is refused is closed.  [wrap] is
    the builder's prefix of errors; the error of resolving links has its own. *)
Definition start_plugin (binary pin capability resolve : string) (wrap : err → err) : Prog PCall (option err) :=
  attempt real <- call (PEvalSymlinks binary) po_eval catch er => mret (Some (Wrap resolve er ""));
  ensure VerifyArtifact real pin catch er => mret (Some (wrap er));
  let policy := DefaultPolicy po_getenv in
  ensure Launch real (pp_AllowedEnvVars policy) catch er => mret (Some (wrap er));
  attempt m <- client_Manifest catch er => (proc_Close;; mret (Some (wrap er)));
  match policy_Validate policy m with
  | Some er => proc_Close;; mret (Some (wrap er))
  | None =>
      if negb (HasCapability m capability) then
        proc_Close;;
        mret (Some (wrap (Errorf ("plugin " +:+ quote (pm_Name m) +:+ " does not declare the " +:+ quote capability +:+ " capability"))))
      else mret None
  end.

Definition prefixed (p : string) (er : err) : err := Wrap p er "".

Definition CapabilityTarget : string := "target".
Definition CapabilityFeatureFlag : string := "featureflag".
Definition CapabilityTrafficRouter : string := "trafficrouter".
Definition CapabilityMetricProvider : string := "metricprovider".
Definition ToolApply : string := "apply".
Definition ToolObserve : string := "observe".
Definition ToolHealth : string := "health".
Definition ToolApplyFlag : string := "apply_flag".
Definition ToolSetWeight : string := "set_weight".
Definition ToolQueryMetric : string := "query_metric".

Definition plugin_Build (cfg : Config.Target) : Prog PCall (option err) :=
  let binary := as_string (Config.tg_Spec cfg !! "binary") in
  let pre := "plugin: target " +:+ quote (Config.tg_Ref cfg) +:+ ": " in
  if binary == "" then mret (Some (Errorf (pre +:+ "spec.binary is required")))
  else start_plugin binary (as_string (Config.tg_Spec cfg !! "sha256")) CapabilityTarget (pre +:+ "resolve binary: ") (prefixed pre).

Definition BuildProvider (cfg : option Config.FeatureFlags) : Prog PCall (option err) :=
  match cfg with
  | None => mret (Some (Errorf "featureflags: nil config"))
  | Some cfg => start_plugin (Config.ff_Plugin cfg) (Config.ff_SHA256 cfg) CapabilityFeatureFlag
                  "featureflags: resolve plugin: " (prefixed "featureflags: ")
  end.

Inductive Router := GatewayRouter (kubeconfig kubeContext : string) | PluginRouter.

Definition BuildRouter (cfg : option Config.TrafficRouting) : Prog PCall (result Router) :=
  match cfg with
  | None => mret (Err (Errorf "trafficrouting: nil config"))
  | Some cfg =>
      if Config.tr_Provider cfg == "gateway" then mret (Ok (GatewayRouter (Config.tr_Kubeconfig cfg) (Config.tr_Context cfg)))
      else if Config.tr_Provider cfg != "" then
        mret (Err (Errorf ("trafficrouting: unknown provider " +:+ quote (Config.tr_Provider cfg))))
      else
        er ← start_plugin (Config.tr_Plugin cfg) (Config.tr_SHA256 cfg) CapabilityTrafficRouter
               "trafficrouting: resolve plugin: " (prefixed "trafficrouting: ");
        mret (match er with Some er => Err er | None => Ok PluginRouter end)
  end.

Definition metricplugin_Build (cfg : option Config.Analysis) : Prog PCall (option err) :=
  match cfg with
  | None => mret (Some (Errorf "analysis: nil config"))
  | Some cfg => start_plugin (Config.an_Plugin cfg) (Config.an_SHA256 cfg) CapabilityMetricProvider
                  "analysis: resolve plugin: " (prefixed "analysis: ")
  end.
End HostSide.

(** ** The wire ([wire.go]) *)
Record ApplyInput := { ai_Kind : string; ai_Spec : string; ai_Checksum : string }.
Record ApplyOutput := { ao_Changed : bool; ao_Detail : string }.
Record ObserveOutput := { oo_Value : string; oo_Meta : gmap string string }.
Record HealthOutput := { ho_State : Z; ho_Reason : string }.

(** JSON of the payloads: encoding cannot fail for these types. *)
Class Wire := {
  enc_apply_in : ApplyInput → string;      dec_apply_in : string → result ApplyInput;
  enc_apply_out : ApplyOutput → string;    dec_apply_out : string → result ApplyOutput;
  enc_observe : ObserveOutput → string;    dec_observe : string → result ObserveOutput;
  enc_health : HealthOutput → string;      dec_health : string → result HealthOutput;
  enc_flag : FlagChange → string;          dec_flag : string → result FlagChange;
  enc_traffic : TrafficChange → string;    dec_traffic : string → result TrafficChange;
  enc_query : string → string;             dec_query : string → result string;
  enc_metric : float → string;             dec_metric : string → result float;
}.

(** What is encoded can be decoded, where its text is UTF-8; the specification
    travels as bytes. *)
Class WireLaws `{Wire} := {
  apply_in_wire : ∀ x, valid_utf8 (ai_Kind x) → valid_utf8 (ai_Checksum x) → dec_apply_in (enc_apply_in x) = Ok x;
  apply_out_wire : ∀ x, valid_utf8 (ao_Detail x) → dec_apply_out (enc_apply_out x) = Ok x;
  observe_wire : ∀ x, valid_utf8 (oo_Value x) → map_Forall (λ k v, valid_utf8 k ∧ valid_utf8 v) (oo_Meta x) →
                 dec_observe (enc_observe x) = Ok x;
  health_wire : ∀ x, valid_utf8 (ho_Reason x) → -2 ^ 63 ≤ ho_State x < 2 ^ 63 → dec_health (enc_health x) = Ok x;
}.

(** [pt.HealthState] as an [int]. *)
Definition health_int (s : HealthState) : Z :=
  match s with HealthUnknown => 0 | HealthHealthy => 1 | HealthDegraded => 2 | HealthUnhealthy => 3 end.

(** *** The adapters, over a way to invoke a tool *)
Section Adapters.
Context {W : Type} `{Wire} (invoke : string → string → string → Act W (result string)).

Definition adapter_Apply (m : RawManifest) : Act W (result Result) :=
  out ← invoke CapabilityTarget ToolApply (enc_apply_in {| ai_Kind := rm_Kind m; ai_Spec := rm_Spec m; ai_Checksum := rm_Checksum m |});
  mret (match out with
        | Err er => Err er
        | Ok out => match dec_apply_out out with
                    | Err er => Err (Wrap "plugin: apply: " er "")
                    | Ok res => Ok {| re_Changed := ao_Changed res; re_Detail := ao_Detail res |}
                    end
        end).

Definition adapter_Observe : Act W (result Fingerprint) :=
  out ← invoke CapabilityTarget ToolObserve "{}";
  mret (match out with
        | Err er => Err er
        | Ok out => match dec_observe out with
                    | Err er => Err (Wrap "plugin: observe: " er "")
                    | Ok res => Ok {| fp_Value := oo_Value res; fp_Meta := oo_Meta res |}
                    end
        end).

Definition adapter_Health : Act W (result HealthStatus) :=
  out ← invoke CapabilityTarget ToolHealth "{}";
  mret (match out with
        | Err er => Err er
        | Ok out =>
            match dec_health out with
            | Err er => Err (Wrap "plugin: health: " er "")
            | Ok res =>
                if ho_State res =? 1 then Ok {| hs_State := HealthHealthy; hs_Reason := ho_Reason res |}
                else if ho_State res =? 2 then Ok {| hs_State := HealthDegraded; hs_Reason := ho_Reason res |}
                else if ho_State res =? 3 then Ok {| hs_State := HealthUnhealthy; hs_Reason := ho_Reason res |}
                else Err (Errorf ("plugin: invalid health state " +:+ pretty (ho_State res)))
            end
        end).

Definition plugin_ApplyFlag (c : FlagChange) : Act W (option err) :=
  out ← invoke CapabilityFeatureFlag ToolApplyFlag (enc_flag c);
  mret (match out with Err er => Some er | Ok _ => None end).

Definition plugin_SetWeight (c : TrafficChange) : Act W (option err) :=
  out ← invoke CapabilityTrafficRouter ToolSetWeight (enc_traffic c);
  mret (match out with Err er => Some er | Ok _ => None end).

Definition plugin_Query (query : string) : Act W (result float) :=
  out ← invoke CapabilityMetricProvider ToolQueryMetric (enc_query query);
  mret (match out with
        | Err er => Err er
        | Ok out => match dec_metric out with
                    | Err er => Err (Wrap "analysis: decode metric result: " er "")
                    | Ok v => Ok v
                    end
        end).
End Adapters.

(** ** The plugin side ([server.go], [target.go]) *)
Section Server.
Context {W : Type} `{Wire}.

Record Server := { sv_manifest : PluginManifest; sv_tools : gmap string (string → Act W (result string)) }.

Definition NewServer (m : PluginManifest) : Server := {| sv_manifest := m; sv_tools := ∅ |}.
Definition HandleTool (capability tool : string) (fn : string → Act W (result string)) (s : Server) : Server :=
  {| sv_manifest := sv_manifest s; sv_tools := <[capability +:+ "/" +:+ tool := fn]> (sv_tools s) |}.

Definition GetManifest (s : Server) : GetManifestResponse := manifestToProto (sv_manifest s).

Definition InvokeTool (s : Server) (capability tool input : string) : Act W (result string) :=
  let key := capability +:+ "/" +:+ tool in
  match sv_tools s !! key with
  | None => mret (Err (Errorf ("plugin: unknown tool " +:+ quote key)))
  | Some fn => fn input
  end.

(** A target as a plugin author writes it. *)
Record PluginTarget := {
  pt_Apply : RawManifest → Act W (result Result);
  pt_Observe : Act W (result Fingerprint);
  pt_Health : Act W (result HealthStatus);
}.

Definition target_manifest (name version : string) (safety : Safety) : PluginManifest :=
  builder_Build (builder_Safety safety (flush
    (builder_Tool ToolHealth "Report health" false
    (builder_Tool ToolObserve "Report live fingerprint" false
    (builder_Tool ToolApply "Deploy desired state" true
    (builder_Capability CapabilityTarget "Deployment target" (NewManifest name version))))))).

Definition map_ok {A} (f : A → string) (m : Act W (result A)) : Act W (result string) :=
  r ← m; mret (match r with Ok a => Ok (f a) | Err er => Err er end).

Definition ServeTarget (name version : string) (t : PluginTarget) (safety : Safety) : Server :=
  HandleTool CapabilityTarget ToolHealth
    (λ _, map_ok (λ hs, enc_health {| ho_State := health_int (hs_State hs); ho_Reason := hs_Reason hs |}) (pt_Health t))
  (HandleTool CapabilityTarget ToolObserve
    (λ _, map_ok (λ fp, enc_observe {| oo_Value := fp_Value fp; oo_Meta := fp_Meta fp |}) (pt_Observe t))
  (HandleTool CapabilityTarget ToolApply
    (λ inp, match dec_apply_in inp with
            | Err er => mret (Err er)
            | Ok req =>
                map_ok (λ res, enc_apply_out {| ao_Changed := re_Changed res; ao_Detail := re_Detail res |})
                  (pt_Apply t {| rm_Kind := ai_Kind req; rm_Spec := ai_Spec req; rm_Checksum := ai_Checksum req;
                                 rm_Root := ""; rm_Rendered := "" |})
            end)
  (NewServer (target_manifest name version safety)))).
End Server.
Arguments Server : clear implicits.
Arguments PluginTarget : clear implicits.

(** *** The other wrappers *)
Section Wrappers.
Context {W : Type} `{Wire}.

Definition tool_manifest (name version capability description tool tool_description : string) (mutating : bool) (safety : Safety)
    : PluginManifest :=
  builder_Build (builder_Safety safety (flush
    (builder_Tool tool tool_description mutating (builder_Capability capability description (NewManifest name version))))).

(** A tool that only acts. *)
Definition acting {A} (dec : string → result A) (act : A → Act W (option err)) (inp : string) : Act W (result string) :=
  match dec inp with
  | Err er => mret (Err er)
  | Ok a => r ← act a; mret (match r with Some er => Err er | None => Ok "{}" end)
  end.

Definition ServeFlagProvider (name version : string) (apply : FlagChange → Act W (option err)) (safety : Safety) : Server W :=
  HandleTool CapabilityFeatureFlag ToolApplyFlag (acting dec_flag apply)
    (NewServer (tool_manifest name version CapabilityFeatureFlag "Feature-flag provider" ToolApplyFlag
                  "Set a flag's rollout percentage / state" true safety)).

Definition ServeTrafficRouter (name version : string) (setWeight : TrafficChange → Act W (option err)) (safety : Safety) : Server W :=
  HandleTool CapabilityTrafficRouter ToolSetWeight (acting dec_traffic setWeight)
    (NewServer (tool_manifest name version CapabilityTrafficRouter "Progressive-delivery traffic router" ToolSetWeight
                  "Shift traffic weight to the canary backend" true safety)).

Definition ServeMetricProvider (name version : string) (query : string → Act W (result float)) (safety : Safety) : Server W :=
  HandleTool CapabilityMetricProvider ToolQueryMetric
    (λ inp, match dec_query inp with
            | Err er => mret (Err er)
            | Ok q => map_ok enc_metric (query q)
            end)
    (NewServer (tool_manifest name version CapabilityMetricProvider "Rollout-analysis metric provider" ToolQueryMetric
                  "Resolve a query to a scalar metric value" false safety)).
End Wrappers.

(** ** The Gateway API router ([gateway.go]) *)
Record patchOp := { op_Op : string; op_Path : string; op_Value : Z }.

(** The weight a backend gets, if it is one of the two. *)
Definition backend_weight (c : TrafficChange) (name : string) : option Z :=
  if name == tc_CanaryService c then Some (tc_Weight c)
  else if name == tc_StableService c then Some (100 - tc_Weight c)
  else None.

(** The operations for one rule, and for the rules of a route: the names of the
    backends of each. *)
Definition rule_ops (c : TrafficChange) (ri : nat) (refs : list string) : list patchOp :=
  omap (λ '(bi, name),
    (λ weight, {| op_Op := "add";
                  op_Path := "/spec/rules/" +:+ pretty ri +:+ "/backendRefs/" +:+ pretty bi +:+ "/weight";
                  op_Value := weight |}) <$> backend_weight c name)
    (zip (seq 0 (length refs)) refs).
Definition route_ops (c : TrafficChange) (rules : list (list string)) : list patchOp :=
  '(ri, refs) ← zip (seq 0 (length rules)) rules; rule_ops c ri refs.

Section Gateway.
Context `{Tools} (parse_route : string → result (list (list string))) (marshal_ops : list patchOp → result string).
Context (kubeconfig kubeContext : string).

Definition gateway_baseArgs : list string := flag "--kubeconfig" kubeconfig ++ flag "--context" kubeContext.

Definition gateway_kubectl (stdin : option string) (args : list string) : Prog ToolCall (result string) :=
  p ← call (TExec "kubectl" stdin (gateway_baseArgs ++ args)) tl_exec;
  mret (match pr_fail p with
        | Some e => Err (Wrap ("kubectl " +:+ Join args " " +:+ ": ") (proc_err e) (": " +:+ TrimSpace (pr_err p)))
        | None => Ok (pr_out p)
        end).

Definition gateway_SetWeight (c : TrafficChange) : Prog ToolCall (option err) :=
  attempt raw <- gateway_kubectl None ["get"; "httproute"; tc_Route c; "-n"; tc_Namespace c; "-o"; "json"]
    catch er => mret (Some (Wrap "trafficrouting: gateway: get httproute: " er ""));
  match parse_route raw with
  | Err er => mret (Some (Wrap "trafficrouting: gateway: parse httproute: " er ""))
  | Ok rules =>
      match route_ops c rules with
      | [] => mret (Some (Errorf ("trafficrouting: gateway: httproute " +:+ tc_Namespace c +:+ "/" +:+ tc_Route c +:+
                                  " has no backendRefs named " +:+ quote (tc_StableService c) +:+ " or " +:+
                                  quote (tc_CanaryService c))))
      | ops =>
          match marshal_ops ops with
          | Err er => mret (Some er)
          | Ok body =>
              attempt _ <- gateway_kubectl None ["patch"; "httproute"; tc_Route c; "-n"; tc_Namespace c; "--type=json"; "-p"; body]
                catch er => mret (Some (Wrap "trafficrouting: gateway: patch weights: " er ""));
              mret None
          end
      end
  end.
End Gateway.
