(* ===== verification/Marketplace.v ===== *)
(** * The plugin marketplace and its commands

    [internal/registry/registry.go] and [internal/cli/plugin.go]: the index, how a
    name becomes a pinned artifact, and the commands that search, list, install
    and update plugins, as programs over the trace of what they print, download
    and write.  The command line is parsed with the rules of Go's [flag]
    package. *)

From S2P Require Import Prelude Encoding Provenance Model Security World Git Process.

(** ** The outside of a command *)
Inductive CliCall :=
| CPrint (text : string)
| CTable (rows : list (list string))
| CUsage (flags : string)
| CRead (path : string)
| CStat (path : string)
| CReadDir (path : string)
| CInfo (path : string)
| CGet (url : string)
| CTemp (pattern : string)
| CWrite (path content : string)
| CRemove (path : string)
| CMkdirAll (path : string)
| CInstall (src dst : string)          (* [copyFileMode] *)
| CVerifyBlob (v : CosignBlobVerifier) (path : string)
| CNow
| CPoll
| CTool (name : string) (args : list string)
| CDaemon (addr token : string)
| COpenDB (path : string)
| CTestEvent
| CProbeGovernor.

Inductive dirRead := DirEntries (l : list (string * bool)) | DirMissing | DirFail (e : err).

(** A tool that was looked up and run, with its combined output. *)
Inductive toolRun := ToolMissing | ToolRan (path out : string) (e : option err).

(** [os.FileInfo]: regular, the permission bits, the size. *)
Record FileInfo := { fi_Regular : bool; fi_Perm : Z; fi_Size : Z }.

(** A download: the request cannot be made, the exchange fails, or a response
    with what could be read of its body and how reading ended. *)
Inductive download := DBadRequest (e : err) | DFailed (e : err) | DResponse (status : Z) (body : string) (ended : option err).

(** ** The index ([registry.go]) *)
Record Cosign := { co_Identity : string; co_Issuer : string }.
Record Artifact := {
  ar_OS : string;
  ar_Arch : string;
  ar_URL : string;
  ar_SHA256 : string;
  ar_Bundle : string;
  ar_Signature : string;
  ar_Certificate : string;
}.
Record Version := { ve_Cosign : option Cosign; ve_Artifacts : list Artifact }.
Record RPlugin := {
  rp_Name : string;
  rp_Description : string;
  rp_Homepage : string;
  rp_Capabilities : list string;
  rp_Latest : string;
  rp_Versions : gmap string Version;
}.
Definition PluginIndex : Type := list RPlugin.

(** What the outside answers, as a function of the trace (the call included).
    [cl_range] is the order in which Go ranges over a map. *)
Class CliHost := {
  cl_getenv : string → string;
  cl_home : option string;
  cl_goos : string;
  cl_goarch : string;
  cl_version : string * string * string;      (* version, commit and date of the build *)
  cl_f3 : PrimFloat.float → string;                     (* [%.3f] *)
  cl_read : list CliCall → result string;
  cl_stat : list CliCall → option err;
  cl_readdir : list CliCall → dirRead;
  cl_info : list CliCall → result FileInfo;
  cl_get : list CliCall → download;
  cl_temp : list CliCall → result string;
  cl_write : list CliCall → option err;
  cl_mkdir : list CliCall → option err;
  cl_install : list CliCall → option err;
  cl_cosign : list CliCall → list string → string * option err;
  cl_sha256 : string → string;
  cl_index : string → option err → result PluginIndex;
  cl_range : list CliCall → list (string * Version) → list (string * Version);
  cl_now : list CliCall → Z;
  cl_poll : list CliCall → option err;
  cl_tool : list CliCall → toolRun;
  cl_daemon : list CliCall → result string;
  cl_opendb : list CliCall → option err;
  cl_notify : list CliCall → option err;
  cl_govern : list CliCall → option err;
}.

Definition DefaultURL : string := "https://raw.githubusercontent.com/klarlabs-studio/rollops/main/registry/plugins.json".

Definition Signed (a : Artifact) : bool := (ar_Bundle a != "") || (ar_Signature a != "").

Definition Find (i : PluginIndex) (name : string) : option RPlugin := head (filter (λ p, rp_Name p = name) i).

Definition for_platform (goos goarch : string) (a : Artifact) : bool := (ar_OS a == goos) && (ar_Arch a == goarch).

Definition Resolve (i : PluginIndex) (name version goos goarch : string) : result (Artifact * option Cosign) :=
  match Find i name with
  | None => Err (Errorf ("registry: plugin " +:+ quote name +:+ " not found"))
  | Some p =>
      let version := if version == "" then rp_Latest p else version in
      match rp_Versions p !! version with
      | None => Err (Errorf ("registry: plugin " +:+ quote name +:+ " has no version " +:+ quote version))
      | Some v =>
          match head (filter (λ a, for_platform goos goarch a = true) (ve_Artifacts v)) with
          | Some a => Ok (a, ve_Cosign v)
          | None => Err (Errorf ("registry: plugin " +:+ quote name +:+ " " +:+ version +:+ ": no artifact for " +:+ goos +:+ "/" +:+ goarch))
          end
      end
  end.

(** [strings.Contains]. *)
Definition Contains (s sub : string) : bool := bool_decide (is_Some (Index s sub)).

Definition matches_query (q : string) (p : RPlugin) : bool :=
  (q == "") || Contains (ToLower (rp_Name p)) q || Contains (ToLower (rp_Description p)) q ||
  Contains (ToLower (Join (rp_Capabilities p) " ")) q.

Definition by_name (p p' : RPlugin) : Prop := String.le (rp_Name p) (rp_Name p').
#[global] Instance by_name_dec : RelDecision by_name := λ p p', _.

Definition Search_ (i : PluginIndex) (q : string) : list RPlugin :=
  let q := ToLower (TrimSpace q) in
  merge_sort by_name (filter (λ p, matches_query q p = true) i).

(** ** Flags

    [flag.FlagSet.Parse] for flags that are strings or booleans. *)
Record Flag := { fl_name : string; fl_bool : bool; fl_default : string }.

Definition ParseBool (s : string) : option bool :=
  if bool_decide (s ∈ ["1"; "t"; "T"; "TRUE"; "true"; "True"]) then Some true
  else if bool_decide (s ∈ ["0"; "f"; "F"; "FALSE"; "false"; "False"]) then Some false
  else None.

Definition equals_sign : Ascii.ascii := char 61.
Definition dash_sign : Ascii.ascii := char 45.

(** The name of a flag and its value, if one is attached; [None] when the
    argument is not a flag, [Some None] when its syntax is wrong. *)
Inductive flagToken := NotFlag | Terminator | BadFlag | AFlag (name : string) (value : option string).

Definition split_flag (body : string) : flagToken :=
  match body with
  | "" => BadFlag
  | String c rest =>
      if (c == dash_sign) || (c == equals_sign) then BadFlag
      else match IndexByte rest equals_sign with
           | Some i => AFlag (String c (str_take i rest)) (Some (str_drop (i + 1) rest))
           | None => AFlag body None
           end
  end%string.

Definition flag_token (s : string) : flagToken :=
  if s == "--" then Terminator
  else if (s == "-") || negb (HasPrefix s "-") then NotFlag
  else split_flag (if HasPrefix s "--" then str_drop 2 s else str_drop 1 s).

Definition ErrHelp : err := Errorf "flag: help requested".

Definition bool_str (b : bool) : string := if b then "true" else "false".

(** The values of the flags that were set and the arguments left over, or the
    error. *)
Fixpoint flag_parse (flags : list Flag) (vals : gmap string string) (args : list string) : result (gmap string string * list string) :=
  match args with
  | [] => Ok (vals, [])
  | s :: rest =>
      match flag_token s with
      | NotFlag => Ok (vals, args)
      | Terminator => Ok (vals, rest)
      | BadFlag => Err (Errorf ("bad flag syntax: " +:+ s))
      | AFlag name value =>
          match head (filter (λ f, fl_name f = name) flags) with
          | None => if (name == "help") || (name == "h") then Err ErrHelp
                    else Err (Errorf ("flag provided but not defined: -" +:+ name))
          | Some f =>
              if fl_bool f then
                let v := default "true" value in
                match ParseBool v with
                | Some b => flag_parse flags (<[name := bool_str b]> vals) rest
                | None => Err (Errorf ("invalid boolean value " +:+ quote v +:+ " for -" +:+ name +:+ ": parse error"))
                end
              else
                match value, rest with
                | Some v, _ => flag_parse flags (<[name := v]> vals) rest
                | None, v :: rest' => flag_parse flags (<[name := v]> vals) rest'
                | None, [] => Err (Errorf ("flag needs an argument: -" +:+ name))
                end
          end
      end
  end.

Definition flag_value (flags : list Flag) (vals : gmap string string) (name : string) : string :=
  default (default "" (fl_default <$> head (filter (λ f, fl_name f = name) flags))) (vals !! name).

(** ** The commands ([plugin.go]) *)
Definition nl : string := String (char 10) "".
Definition brackets (l : list string) : string := "[" +:+ Join l " " +:+ "]".

Section Commands.
Context `{CliHost}.
Notation P := (Prog CliCall).

Definition print (text : string) : P unit := call (CPrint text) (λ _, tt).
Definition println (text : string) : P unit := print (text +:+ nl).
Definition fail {A} (er : err) : P (result A) := mret (Err er).

Definition registry_URL : string :=
  let v := cl_getenv "ROLLOPS_PLUGIN_REGISTRY" in if v != "" then v else DefaultURL.

Definition Fetch (url : string) : P (result PluginIndex) :=
  d ← call (CGet url) cl_get;
  mret (match d with
        | DBadRequest er => Err er
        | DFailed er => Err (Wrap ("registry: fetch " +:+ url +:+ ": ") er "")
        | DResponse status body ended =>
            if negb (status =? 200) then Err (Errorf ("registry: fetch " +:+ url +:+ ": status " +:+ pretty status))
            else match cl_index body ended with
                 | Err er => Err (Wrap "registry: parse: " er "")
                 | Ok idx => Ok idx
                 end
        end).

(** The first published artifact with this digest, in the order Go ranges over
    the versions. *)
Definition publishes (sum goos goarch : string) (v : Version) : bool :=
  existsb (λ a, for_platform goos goarch a && EqualFold (ar_SHA256 a) sum) (ve_Artifacts v).

Fixpoint FindVersionBySHA (range : list (string * Version) → list (string * Version)) (i : PluginIndex) (sum goos goarch : string)
    : option (string * string) :=
  match i with
  | [] => None
  | p :: i =>
      match head (filter (λ kv, publishes sum goos goarch kv.2 = true) (range (map_to_list (rp_Versions p)))) with
      | Some kv => Some (rp_Name p, kv.1)
      | None => FindVersionBySHA range i sum goos goarch
      end
  end.

(** [fs.Parse]: a failure prints the usage. *)
Definition fs_Parse (set : string) (flags : list Flag) (args : list string) : P (result (gmap string string * list string)) :=
  match flag_parse flags ∅ args with
  | Ok r => mret (Ok r)
  | Err er => (if bool_decide (er = ErrHelp) then mret tt else println (err_str er));; call (CUsage set) (λ _, tt);; mret (Err er)
  end.

Definition registry_flag : Flag := {| fl_name := "registry"; fl_bool := false; fl_default := registry_URL |}.

Definition defaultPluginDir : string :=
  let d := cl_getenv "ROLLOPS_PLUGIN_DIR" in
  if d != "" then d
  else match cl_home with Some home => path_join (path_join home ".rollops") "plugins" | None => "rollops-plugins" end.

Definition dir_flag : Flag := {| fl_name := "dir"; fl_bool := false; fl_default := defaultPluginDir |}.
Definition string_flag (name : string) : Flag := {| fl_name := name; fl_bool := false; fl_default := "" |}.
Definition bool_flag (name : string) : Flag := {| fl_name := name; fl_bool := true; fl_default := "false" |}.

Definition requireSignature (flagSet : bool) : bool := flagSet || truthy (cl_getenv "ROLLOPS_PLUGIN_REQUIRE_SIGNATURE").

Definition sha256File (path : string) : P (result string) :=
  attempt content <- call (CRead path) cl_read catch er => fail er;
  mret (Ok (hex_encode (cl_sha256 content))).

Definition copyFileMode (src dst : string) : P (option err) := call (CInstall src dst) cl_install.

(** *** Downloads

    A local path is used in place; what is downloaded is removed afterwards. *)
Definition remove (p : string) : P unit := call (CRemove p) (λ _, tt).

Definition to_temp (pattern body : string) (ended : option err) : P (result (string * option string)) :=
  attempt f <- call (CTemp pattern) cl_temp catch er => fail er;
  ensure call (CWrite f body) cl_write catch er => (remove f;; fail er);
  match ended with Some er => remove f;; fail er | None => mret (Ok (f, Some f)) end.

Definition downloaded (pattern src : string) : P (result (string * option string)) :=
  d ← call (CGet src) cl_get;
  match d with
  | DBadRequest er | DFailed er => fail er
  | DResponse status body ended =>
      if 300 <=? status then fail (Errorf ("download " +:+ src +:+ ": status " +:+ pretty status))
      else to_temp pattern body ended
  end.

Definition in_place (src : string) : P (result (string * option string)) :=
  ensure call (CStat src) cl_stat catch er => fail er; mret (Ok (src, None)).

Definition downloadTemp (src : string) : P (result (string * option string)) :=
  if negb (Contains src "://") then in_place src else downloaded "rollops-cosign-*" src.

Definition fetchPlugin (source : string) : P (result (string * option string)) :=
  if HasPrefix source "https://" then downloaded "rollops-plugin-*" source
  else if Contains source "://" then
    fail (Errorf ("unsupported source scheme (use a local path or https URL): " +:+ source))
  else in_place source.

Definition isPathOrURL (source : string) : P bool :=
  if Contains source "://" then mret true
  else er ← call (CStat source) cl_stat; mret (match er with None => true | Some _ => false end).

(** [v.VerifyBlob]. *)
Definition verify_blob (v : CosignBlobVerifier) (path : string) : P Verdict :=
  call (CVerifyBlob v path) (λ tr, (VerifyBlob (λ _, cl_cosign tr) v path 0%nat).1).

Definition cleanup (c : option string) : P unit := match c with Some p => remove p | None => mret tt end.
Definition cleanup_all (l : list (option string)) : P unit := foldr (λ c k, cleanup c;; k) (mret tt) l.

(** *** Installing from the registry *)

(** The verifier of a signed release, with what to remove afterwards. *)
Definition signature_material (cos : Cosign) (art : Artifact) : P (result CosignBlobVerifier * list (option string)) :=
  let verifier sig cert bundle :=
    {| cb_KeyPath := ""; cb_CertIdentity := co_Identity cos; cb_CertOIDCIssuer := co_Issuer cos;
       cb_SignaturePath := sig; cb_CertificatePath := cert; cb_BundlePath := bundle |} in
  if ar_Bundle art != "" then
    attempt (p, c) <- downloadTemp (ar_Bundle art) catch er => mret (Err (Wrap "fetch cosign bundle: " er ""), []);
    mret (Ok (verifier "" "" p), [c])
  else
    attempt (p, c) <- downloadTemp (ar_Signature art) catch er => mret (Err (Wrap "fetch cosign signature: " er ""), []);
    if ar_Certificate art != "" then
      attempt (q, c') <- downloadTemp (ar_Certificate art) catch er => mret (Err (Wrap "fetch cosign certificate: " er ""), [c]);
      mret (Ok (verifier p q ""), [c; c'])
    else mret (Ok (verifier p "" ""), [c]).

Definition check_signature (v : option CosignBlobVerifier) (path : string) : P (option err) :=
  match v with
  | None => mret None
  | Some v =>
      println "cosign: verifying against the registry-published signature";;
      '(ok, reason, verr) ← verify_blob v path;
      match verr with
      | Some er => mret (Some (Wrap "cosign: " er ""))
      | None =>
          if negb ok then mret (Some (Errorf ("cosign verification failed: " +:+ reason)))
          else println "cosign: verified";; mret None
      end
  end.

(** From the verified signature to the file in place. *)
Definition place_artifact (name : string) (art : Artifact) (v : option CosignBlobVerifier) (dest path : string) : P (result string) :=
  ensure check_signature v path catch er => fail er;
  attempt sum <- sha256File path catch er => fail er;
  if negb (EqualFold sum (ar_SHA256 art)) then
    fail (Errorf ("registry pin mismatch for " +:+ quote name +:+ ": index " +:+ ar_SHA256 art +:+ ", got " +:+ sum))
  else
    println "registry: sha256 matches the published pin";;
    ensure call (CMkdirAll (Dir dest)) cl_mkdir catch er => fail er;
    ensure copyFileMode path dest catch er => fail er;
    mret (Ok sum).

Definition install_artifact (name : string) (art : Artifact) (v : option CosignBlobVerifier) (dest : string) (requireSig : bool)
    : P (result string) :=
  match v, requireSig with
  | None, true =>
      fail (Errorf (name +:+ " has no signature to verify and --require-signature is set (refusing to install unsigned plugin)"))
  | _, _ =>
      match v with
      | None => println ("warning: " +:+ name +:+ " is unsigned — installing on its sha256 pin alone; pass --require-signature to refuse unsigned plugins")
      | Some _ => mret tt
      end;;
      attempt (path, c) <- fetchPlugin (ar_URL art) catch er => fail (Wrap "fetch: " er "");
      finally (cleanup c) (place_artifact name art v dest path)
  end.

Definition resolveAndInstall (name : string) (art : Artifact) (cos : option Cosign) (dest : string) (requireSig : bool)
    : P (result string) :=
  match cos with
  | Some c => println ("registry: " +:+ name +:+ " is published by " +:+ co_Identity c)
  | None => mret tt
  end;;
  match cos with
  | Some c =>
      if Signed art then
        '(v, cleanups) ← signature_material c art;
        finally (cleanup_all cleanups)
          match v with Err er => fail er | Ok v => install_artifact name art (Some v) dest requireSig end
      else install_artifact name art None dest requireSig
  | None => install_artifact name art None dest requireSig
  end.

Definition printInstalledPin (dest sum : string) : P unit :=
  println ("installed " +:+ dest +:+ nl +:+ "sha256 " +:+ sum);;
  println ("pin it in the matching rollout spec block, e.g.:" +:+ nl +:+ "  <featureFlags|trafficRouting|analysis>:" +:+ nl +:+
           "    plugin: " +:+ dest +:+ nl +:+ "    sha256: " +:+ sum).

(** *** Installing *)
Definition install_flags : list Flag :=
  [dir_flag; string_flag "name"; string_flag "version"; registry_flag; string_flag "cosign-key"; string_flag "cosign-identity";
   string_flag "cosign-issuer"; string_flag "signature"; string_flag "certificate"; string_flag "bundle"; bool_flag "require-signature"].

Definition install_usage : P unit :=
  println ("rollops plugin install <path|https-url> [flags]" +:+ nl +:+ nl +:+
           "Fetch a plugin binary, verify it, install it, and print the sha256 to pin.");;
  call (CUsage "plugin install") (λ _, tt).

(** [fs.Parse] with the usage of this command. *)
Definition install_Parse (args : list string) : P (result (gmap string string * list string)) :=
  match flag_parse install_flags ∅ args with
  | Ok r => mret (Ok r)
  | Err er => (if bool_decide (er = ErrHelp) then mret tt else println (err_str er));; install_usage;; mret (Err er)
  end.

Definition install_named (source version dir name reg : string) (requireSig : bool) : P (option err) :=
  let wrap er := Some (Wrap "plugin install: " er "") in
  attempt idx <- Fetch reg catch er => mret (wrap er);
  match Resolve idx source version cl_goos cl_goarch with
  | Err er => mret (wrap er)
  | Ok (art, cos) =>
      let dest := path_join dir (if name == "" then source else name) in
      attempt sum <- resolveAndInstall source art cos dest requireSig catch er => mret (wrap er);
      printInstalledPin dest sum;; mret None
  end.

(** A path or a URL: verified with the flags' material, if there is any. *)
Definition check_manual (source path : string) (v : CosignBlobVerifier) (requireSig : bool) : P (option err) :=
  if blob_Configured v then
    '(ok, reason, verr) ← verify_blob v path;
    match verr with
    | Some er => mret (Some (Wrap "plugin install: cosign: " er ""))
    | None =>
        if negb ok then mret (Some (Errorf ("plugin install: cosign verification failed: " +:+ reason)))
        else println "cosign: verified";; mret None
    end
  else if requireSig then
    mret (Some (Errorf ("plugin install: " +:+ source +:+
      " has no signature to verify and --require-signature is set (refusing to install unsigned plugin; pass cosign flags to verify it)")))
  else
    println ("warning: " +:+ source +:+ " is unsigned — installing on its sha256 alone; pass --require-signature to refuse unsigned plugins");;
    mret None.

Definition place_source (source path dir name : string) (v : CosignBlobVerifier) (requireSig : bool) : P (option err) :=
  let wrap er := Some (Wrap "plugin install: " er "") in
  ensure check_manual source path v requireSig catch er => mret (Some er);
  attempt sum <- sha256File path catch er => mret (Some er);
  let target := if name == "" then Base (TrimSuffix source "/") else name in
  ensure call (CMkdirAll dir) cl_mkdir catch er => mret (wrap er);
  let dest := path_join dir target in
  ensure copyFileMode path dest catch er => mret (wrap er);
  printInstalledPin dest sum;; mret None.

Definition install_source (source dir name : string) (v : CosignBlobVerifier) (requireSig : bool) : P (option err) :=
  attempt (path, c) <- fetchPlugin source catch er => mret (Some (Wrap "plugin install: fetch: " er ""));
  finally (cleanup c) (place_source source path dir name v requireSig).

Definition pluginInstall (args : list string) : P (option err) :=
  let missing := Some (Errorf "plugin install: a source (path or https URL) is required as the first argument") in
  match args with
  | [] => install_usage;; mret missing
  | source :: rest =>
      if HasPrefix source "-" then
        install_usage;; mret (if (source == "-h") || (source == "--help") then None else missing)
      else
        attempt (vals, extra) <- install_Parse rest catch er => mret (Some er);
        if negb (length extra =? 0)%nat then
          install_usage;; mret (Some (Errorf ("plugin install: unexpected extra arguments: " +:+ brackets extra)))
        else
          let flag := flag_value install_flags vals in
          let requireSig := requireSignature (flag "require-signature" == "true") in
          explicit ← isPathOrURL source;
          if negb explicit then install_named source (flag "version") (flag "dir") (flag "name") (flag "registry") requireSig
          else
            install_source source (flag "dir") (flag "name")
              {| cb_KeyPath := flag "cosign-key"; cb_CertIdentity := flag "cosign-identity"; cb_CertOIDCIssuer := flag "cosign-issuer";
                 cb_SignaturePath := flag "signature"; cb_CertificatePath := flag "certificate"; cb_BundlePath := flag "bundle" |} requireSig
  end.

(** *** Updating *)

(** What is executable and regular in a plugin directory. *)
Definition installed_file (dir : string) (e : string * bool) : P (option FileInfo) :=
  if e.2 then mret None
  else
    info ← call (CInfo (path_join dir e.1)) cl_info;
    mret (match info with
          | Ok i => if fi_Regular i && negb (Z.land (fi_Perm i) 73 =? 0) then Some i else None
          | Err _ => None
          end).

Definition update_wrap (name : string) (er : err) : option err := Some (Wrap ("plugin update: " +:+ name +:+ ": ") er "").

(** One installed plugin: whether it is outdated, or the error that stops. *)
Definition update_one (idx : PluginIndex) (dir : string) (apply requireSig : bool) (name : string) : P (option err * bool) :=
  let path := path_join dir name in
  attempt sum <- sha256File path catch er => mret (update_wrap name er, false);
  range ← (λ tr, (cl_range tr, tr));
  match FindVersionBySHA range idx sum cl_goos cl_goarch with
  | None => println (name +:+ String (char 9) "unknown (not from this registry)");; mret (None, false)
  | Some (plugin, ver) =>
      let latest := from_option rp_Latest "" (Find idx plugin) in
      if ver == latest then
        println (name +:+ String (char 9) ("up to date (" +:+ plugin +:+ " " +:+ ver +:+ ")"));; mret (None, false)
      else
        println (name +:+ String (char 9) ("outdated (" +:+ plugin +:+ " " +:+ ver +:+ " -> " +:+ latest +:+ ")"));;
        if negb apply then mret (None, true)
        else
          match Resolve idx plugin latest cl_goos cl_goarch with
          | Err er => mret (update_wrap name er, true)
          | Ok (art, cos) =>
              attempt newSum <- resolveAndInstall plugin art cos path requireSig catch er => mret (update_wrap name er, true);
              println ("upgraded " +:+ name +:+ " to " +:+ latest +:+ nl +:+ "sha256 " +:+ newSum);; mret (None, true)
          end
  end.

Fixpoint update_all (idx : PluginIndex) (dir only : string) (apply requireSig : bool) (entries : list (string * bool)) (outdated : bool)
    : P (option err * bool) :=
  match entries with
  | [] => mret (None, outdated)
  | e :: entries =>
      if (only != "") && (e.1 != only) then update_all idx dir only apply requireSig entries outdated
      else
        file ← installed_file dir e;
        match file with
        | None => update_all idx dir only apply requireSig entries outdated
        | Some _ =>
            '(er, old) ← update_one idx dir apply requireSig e.1;
            match er with
            | Some er => mret (Some er, outdated || old)
            | None => update_all idx dir only apply requireSig entries (outdated || old)
            end
        end
  end.

Definition update_flags : list Flag := [dir_flag; registry_flag; bool_flag "apply"; bool_flag "require-signature"].

Definition no_directory (dir : string) : P (option err) := println ("no plugins installed (" +:+ dir +:+ " does not exist)");; mret None.

Definition pluginUpdate (args : list string) : P (option err) :=
  let '(only, rest) := match args with a :: rest => if HasPrefix a "-" then ("", args) else (a, rest) | [] => ("", []) end in
  attempt (vals, extra) <- fs_Parse "plugin update" update_flags rest catch er => mret (Some er);
  let flag := flag_value update_flags vals in
  let '(only, extra) := match extra with [a] => if only == "" then (a, []) else (only, extra) | _ => (only, extra) end in
  if negb (length extra =? 0)%nat then mret (Some (Errorf ("plugin update: unexpected extra arguments: " +:+ brackets extra)))
  else
    attempt idx <- Fetch (flag "registry") catch er => mret (Some (Wrap "plugin update: " er ""));
    entries ← call (CReadDir (flag "dir")) cl_readdir;
    match entries with
    | DirMissing => no_directory (flag "dir")
    | DirFail er => mret (Some (Wrap "plugin update: " er ""))
    | DirEntries entries =>
        let apply := flag "apply" == "true" in
        '(er, outdated) ← update_all idx (flag "dir") only apply (requireSignature (flag "require-signature" == "true")) entries false;
        match er with
        | Some er => mret (Some er)
        | None =>
            (if outdated && negb apply then println "run 'rollops plugin update --apply' to upgrade outdated plugins" else mret tt);;
            mret None
        end
    end.

(** *** Looking *)
Definition pluginSearch (args : list string) : P (option err) :=
  attempt (vals, extra) <- fs_Parse "plugin search" [registry_flag] args catch er => mret (Some er);
  attempt idx <- Fetch (flag_value [registry_flag] vals "registry") catch er => mret (Some (Wrap "plugin search: " er ""));
  match Search_ idx (Join extra " ") with
  | [] => println "no plugins match";; mret None
  | found =>
      call (CTable (["NAME"; "LATEST"; "CAPABILITIES"; "DESCRIPTION"] ::
                    ((λ p, [rp_Name p; rp_Latest p; Join (rp_Capabilities p) ","; rp_Description p]) <$> found))) (λ _, tt);;
      mret None
  end.

Definition sortedVersions (p : RPlugin) : list string :=
  let vers := rev (sort_strings (filter (λ v, v ≠ rp_Latest p) (map_to_list (rp_Versions p)).*1)) in
  match rp_Versions p !! rp_Latest p with Some _ => rp_Latest p :: vers | None => vers end.

Definition print_version (p : RPlugin) (ver : string) : P unit :=
  println (nl +:+ "  " +:+ ver);;
  match rp_Versions p !! ver with
  | None => mret tt
  | Some v =>
      match ve_Cosign v with
      | Some c => println ("    cosign: " +:+ co_Identity c +:+ " (" +:+ co_Issuer c +:+ ")")
      | None => mret tt
      end;;
      call (CTable ((λ a, ["    " +:+ ar_OS a +:+ "/" +:+ ar_Arch a; ar_SHA256 a; ar_URL a]) <$> ve_Artifacts v)) (λ _, tt)
  end.

Definition pluginInfo (args : list string) : P (option err) :=
  match args with
  | [] => mret (Some (Errorf "plugin info: a plugin name is required as the first argument"))
  | name :: rest =>
      if HasPrefix name "-" then mret (Some (Errorf "plugin info: a plugin name is required as the first argument"))
      else
        attempt (vals, extra) <- fs_Parse "plugin info" [registry_flag] rest catch er => mret (Some er);
        if negb (length extra =? 0)%nat then mret (Some (Errorf ("plugin info: unexpected extra arguments: " +:+ brackets extra)))
        else
          attempt idx <- Fetch (flag_value [registry_flag] vals "registry") catch er => mret (Some (Wrap "plugin info: " er ""));
          match Find idx name with
          | None => mret (Some (Errorf ("plugin info: plugin " +:+ quote name +:+ " not found in registry")))
          | Some p =>
              println (rp_Name p);;
              (if rp_Description p != "" then println ("  " +:+ rp_Description p) else mret tt);;
              (if rp_Homepage p != "" then println ("  homepage:     " +:+ rp_Homepage p) else mret tt);;
              println ("  capabilities: " +:+ Join (rp_Capabilities p) ", ");;
              println ("  latest:       " +:+ rp_Latest p);;
              foldr (λ ver k, print_version p ver;; k) (mret tt) (sortedVersions p);;
              mret None
          end
  end.

Fixpoint list_rows (dir : string) (entries : list (string * bool)) (rows : list (list string)) : P (result (list (list string))) :=
  match entries with
  | [] => mret (Ok rows)
  | e :: entries =>
      file ← installed_file dir e;
      match file with
      | None => list_rows dir entries rows
      | Some i =>
          attempt sum <- sha256File (path_join dir e.1) catch er => fail (Wrap ("plugin list: " +:+ e.1 +:+ ": ") er "");
          list_rows dir entries (rows ++ [[e.1; pretty (fi_Size i); sum]])
      end
  end.

Definition pluginList (args : list string) : P (option err) :=
  attempt (vals, _) <- fs_Parse "plugin list" [dir_flag] args catch er => mret (Some er);
  let dir := flag_value [dir_flag] vals "dir" in
  entries ← call (CReadDir dir) cl_readdir;
  match entries with
  | DirMissing => no_directory dir
  | DirFail er => mret (Some (Wrap "plugin list: " er ""))
  | DirEntries entries =>
      attempt rows <- list_rows dir entries [] catch er => mret (Some er);
      match rows with
      | [] => println ("no plugins installed in " +:+ dir);; mret None
      | rows => call (CTable (["NAME"; "SIZE"; "SHA256"] :: rows)) (λ _, tt);; mret None
      end
  end.

Definition plugin (args : list string) : P (option err) :=
  match args with
  | [] => mret (Some (Errorf "plugin: subcommand required (search | info | install | list | update)"))
  | sub :: rest =>
      if sub == "search" then pluginSearch rest
      else if sub == "info" then pluginInfo rest
      else if sub == "install" then pluginInstall rest
      else if (sub == "list") || (sub == "ls") then pluginList rest
      else if (sub == "update") || (sub == "upgrade") then pluginUpdate rest
      else mret (Some (Errorf ("plugin: unknown subcommand " +:+ quote sub +:+ " (try: search, info, install, list, update)")))
  end.
End Commands.
