(* ===== verification/Cli.v ===== *)
(** * The command line

    [internal/cli/cli.go]: the commands over the [Operations] interface, the
    in-process adapter of the engine ([EngineOps]), and [doctor].  A command runs
    in the state of its backend and leaves a trace of what it prints and asks the
    host.  The wait of [apply --wait] is a loop with fuel; that it ends is proved
    in [CliSafety]. *)

From S2P Require Import Prelude Encoding GoTime Statekit Config Progressive Model Lifecycle Risk Analysis Security Store World.
From S2P Require Import EngineBase EngineGates EngineRollback EngineDeploy Git ConfigLoad Process Hosts Marketplace Surface.

(** ** What the commands see of a rollout, a plan and the reports *)
Record RolloutView := {
  rv_ID : string;
  rv_Phase : string;
  rv_TargetRef : string;
  rv_Strategy : string;
  rv_StepIndex : Z;
  rv_StepTotal : Z;
  rv_StepWeight : Z;
  rv_Note : string;
}.
Definition no_view : RolloutView :=
  {| rv_ID := ""; rv_Phase := ""; rv_TargetRef := ""; rv_Strategy := ""; rv_StepIndex := 0; rv_StepTotal := 0; rv_StepWeight := 0; rv_Note := "" |}.
Definition view (r : Rollout) : RolloutView :=
  {| rv_ID := r_ID r; rv_Phase := phase_str (r_Phase r); rv_TargetRef := r_TargetRef r; rv_Strategy := strategy_str (r_Strategy r);
     rv_StepIndex := r_StepIndex r; rv_StepTotal := r_StepTotal r; rv_StepWeight := r_StepWeight r; rv_Note := r_Note r |}.
Definition view_of (r : option Rollout) : RolloutView := from_option view no_view r.

Record PlanView := {
  pv_Summary : string;
  pv_RiskScore : float;
  pv_NeedsApproval : bool;
  pv_Sensitive : bool;
  pv_RecentFailures : Z;
  pv_RiskReason : string;
  pv_Rendered : string;
}.
Definition plan_view (p : PlanResult) : PlanView :=
  let d := default no_decision (pl_Risk p) in
  {| pv_Summary := render p; pv_RiskScore := d_Score d; pv_NeedsApproval := d_NeedsApproval d; pv_Sensitive := d_Sensitive d;
     pv_RecentFailures := d_RecentFailures d; pv_RiskReason := d_Reason d; pv_Rendered := default "" (pl_Rendered p) |}.

Record VerifyView := { vv_RolloutID : string; vv_Phase : string; vv_OK : bool; vv_Reason : string; vv_Gates : list GateResult }.
Definition verify_view (r : VerifyReport) : VerifyView :=
  {| vv_RolloutID := vr_RolloutID r; vv_Phase := vr_Phase r; vv_OK := vr_OK r; vv_Reason := vr_Reason r; vv_Gates := vr_Gates r |}.

(** Target, phase and id of a member. *)
Record FleetView := {
  fv_Name : string; fv_Total : Z; fv_Promoted : Z; fv_Active : Z; fv_Degraded : Z; fv_Awaiting : Z;
  fv_Members : list (string * string * string);
}.
Definition fleet_view (r : FleetReport) : FleetView :=
  {| fv_Name := fr_Name r; fv_Total := Z.of_nat (fr_Total r); fv_Promoted := Z.of_nat (fr_Promoted r); fv_Active := Z.of_nat (fr_Active r);
     fv_Degraded := Z.of_nat (fr_Degraded r); fv_Awaiting := Z.of_nat (fr_Awaiting r);
     fv_Members := (λ m, (fm_Target m, phase_str (fm_Phase m), fm_ID m)) <$> fr_Members r |}.

(** ** The operations a command drives

    [root] is the directory of the configuration, which travels in the context.
    The optional fields are the interfaces a backend may also implement. *)
Definition reply : Type := RolloutView * option err.
Record Operations (W : Type) := {
  op_Plan : string → Config.t → Act W (result PlanView);
  op_Apply : string → ApplyRequest → Act W reply;
  op_Status : string → Act W reply;
  op_Promote : string → bool → Act W reply;
  op_Verify : string → Act W (result VerifyView);
  op_Approve : string → Act W reply;
  op_Reject : string → Act W reply;
  op_Pause : string → Act W reply;
  op_Resume : string → Act W reply;
  op_Abort : string → Act W reply;
  op_RollbackLast : string → bool → Act W reply;
  op_Freeze : bool → string → Act W (bool * string * option err);
  op_History : option (string → Act W (result (list RolloutRecord)));
  op_FleetStatus : option (string → Act W (result FleetView));
  op_InFlight : option (string → Act W (result (option RolloutView)));
  op_Drive : option (string → Config.t → string → Act W reply);
}.
Arguments op_Plan {W} _ _ _.
Arguments op_Apply {W} _ _ _.
Arguments op_Status {W} _ _.
Arguments op_Promote {W} _ _ _.
Arguments op_Verify {W} _ _.
Arguments op_Approve {W} _ _.
Arguments op_Reject {W} _ _.
Arguments op_Pause {W} _ _.
Arguments op_Resume {W} _ _.
Arguments op_Abort {W} _ _.
Arguments op_RollbackLast {W} _ _ _.
Arguments op_Freeze {W} _ _ _.
Arguments op_History {W} _.
Arguments op_FleetStatus {W} _.
Arguments op_InFlight {W} _.
Arguments op_Drive {W} _.

(** ** The engine in process *)
Definition with_root (root : string) (e : Engine) : Engine :=
  {| e_guardrails := e_guardrails e; e_audit := e_audit e; e_governance := e_governance e;
     e_artifact := e_artifact e; e_secrets := e_secrets e; e_notifier := e_notifier e;
     e_metrics := e_metrics e; e_analysis := e_analysis e; e_confinement := e_confinement e;
     e_owner := e_owner e; e_leaseTTL := e_leaseTTL e; e_healthRetryDelay := e_healthRetryDelay e;
     e_allowSelfApprove := e_allowSelfApprove e; e_root := root |}.

Section InProcess.
#[local] Existing Instance M_ret.
#[local] Existing Instance M_bind.
Context {S : Type} `{!Store S}.
Notation HW := (EngineDeploy.HW (S := S)).
Context `{!Statechart Phase LifeContext unit, !Statechart StepState StepContext HW}.
Context (env : Env) (e : Engine) (actor : Identity).

Definition replied (m : M S outcome) : M S reply := '(r, er) ← m; mret (view_of r, er).
Definition ok_view {A B} (f : A → B) (m : M S (result A)) : M S (result B) :=
  r ← m; mret (match r with Ok a => Ok (f a) | Err er => Err er end).

Definition engine_Status (id : string) : M S reply :=
  r ← Status id; mret (match r with Ok r => (view r, None) | Err er => (no_view, Some er) end).

(** [EngineOps.Drive]. *)
Definition Drive (root : string) (c : Config.t) (id : string) : M S reply :=
  get r <- Status id catch er => mret (no_view, Some er);
  match r_Phase r with
  | PhaseDeploying =>
      '(rl, er) ← Tick env (with_root root e) id c;
      mret (match rl with Some rl => view rl | None => view r end, er)
  | PhaseVerifying =>
      p ← priorManifest (r_TargetRef r) (m_Checksum (r_Desired r));
      '(out, er) ← VerifyOrRollback env (with_root root e) id (default (r_Desired r) p) c;
      mret (view_of (vo_Rollout out), er)
  | _ => mret (view r, None)
  end.

Definition EngineOps : Operations (World S) := {|
  op_Plan root c := ok_view plan_view (Plan env (with_root root e) c);
  op_Apply root req := replied (Apply env (with_root root e) req);
  op_Status := engine_Status;
  op_Promote id force := replied (Promote env e id actor force);
  op_Verify id := ok_view verify_view (Verify env e id);
  op_Approve id := replied (Approve env e id actor);
  op_Reject id := replied (Reject env id actor);
  op_Pause id := replied (Pause env e id actor);
  op_Resume id := replied (Resume env e id actor);
  op_Abort id := replied (Abort env e id actor);
  op_RollbackLast ref force := replied (RollbackLast env e ref force);
  op_Freeze on reason := SetFreeze env e on actor reason;
  op_History := Some History;
  op_FleetStatus := Some (λ filter_, ok_view fleet_view (FleetStatus filter_));
  op_InFlight := Some (λ ref, ok_view (fmap view) (InFlight ref));
  op_Drive := Some Drive |}.
End InProcess.

(** ** [Duration.String] *)
Fixpoint strip_zeros (s : list Ascii.ascii) : list Ascii.ascii :=
  match s with c :: s' => if bool_decide (c = char 48) then strip_zeros s' else s | [] => [] end.
Fixpoint pad_zeros (n : nat) (s : string) : string :=
  match n with O => s | Datatypes.S n => if (str_len s <=? n)%nat then String (char 48) (pad_zeros n s) else s end.
(** The fraction of [v] over [10^prec], without trailing zeros. *)
Definition frac_str (v : Z) (prec : nat) : string :=
  match strip_zeros (rev (String.list_ascii_of_string (pad_zeros prec (pretty v)))) with
  | [] => ""
  | l => "." +:+ String.string_of_list_ascii (rev l)
  end.
Definition with_frac (v : Z) (prec : nat) : string :=
  let unit := 10 ^ Z.of_nat prec in pretty (v / unit) +:+ frac_str (v mod unit) prec.

Definition Duration_String (d : Duration) : string :=
  let u := Z.abs d in
  let body :=
    if u =? 0 then "0s"
    else if u <? 1000 then pretty u +:+ "ns"
    else if u <? 1000000 then with_frac u 3 +:+ "µs"
    else if u <? Second then with_frac u 6 +:+ "ms"
    else
      let secs := u / Second in
      let seconds := pretty (secs mod 60) +:+ frac_str (u mod Second) 9 +:+ "s" in
      let minutes := secs / 60 in
      if minutes =? 0 then seconds
      else let hm := pretty (minutes mod 60) +:+ "m" +:+ seconds in
           if minutes / 60 =? 0 then hm else pretty (minutes / 60) +:+ "h" +:+ hm in
  if d <? 0 then "-" +:+ body else body.

Example duration_30m : Duration_String (30 * Minute) = "30m0s".
Proof. reflexivity. Qed.
Example duration_1_5s : Duration_String (1500 * Millisecond) = "1.5s".
Proof. reflexivity. Qed.
Example duration_90ms : Duration_String (90050 * 1000) = "90.05ms".
Proof. reflexivity. Qed.
Example duration_2h : Duration_String (2 * Hour + 3 * Second + 1) = "2h0m3.000000001s".
Proof. reflexivity. Qed.

(** ** The commands *)
Record Doctor := {
  dc_DBPath : string;
  dc_DaemonAddr : string;
  dc_Token : string;
  dc_Probe : bool;                        (* a probe is configured *)
  dc_Notifier : option (list string);     (* the names of its channels *)
  dc_Governor : option string;            (* its URL *)
}.

Definition waitPoll : Duration := 10 * Second.

(** A run of the program: out of fuel, or what it returned. *)
Definition exit : Type := option (option err).

Definition act_result {W A B} (c : Act W (result A)) (h : err → Act W B) (k : A → Act W B) : Act W B :=
  r ← c; match r with Ok a => k a | Err e => h e end.
Notation "'run' x <- c 'catch' e => h ; k" := (act_result c (λ e, h) (λ x, k))
  (at level 20, x pattern, c at level 100, e name, h at level 200, k at level 200, right associativity) : go_scope.

Section App.
Context {W : Type} `{!CliHost, !Yaml} (fs : FS) (ops : Operations W) (actor : Identity) (dr : Doctor).
Notation Cmd := (Act (list CliCall * W)).

Definition host {A} (p : Prog CliCall A) : Cmd A := λ '(tr, w), let '(a, tr') := p tr in (a, (tr', w)).
Definition backend {A} (m : Act W A) : Cmd A := λ '(tr, w), let '(a, w') := m w in (a, (tr, w')).

Definition say (line : string) : Cmd unit := host (println line).
Definition write_out (text : string) : Cmd unit := host (print text).
Definition done_ : Cmd exit := mret (Some None).
Definition failed (er : err) : Cmd exit := mret (Some (Some er)).
Definition refuse (msg : string) : Cmd exit := failed (Errorf msg).

Definition tab : string := String (char 9) "".

(** *** Reading configurations *)
Definition readConfigFileArg (args : list string) : Prog CliCall (result (string * string)) :=
  match args with
  | [] => mret (Err (Errorf "config file path required"))
  | path :: _ =>
      attempt data <- call (CRead path) cl_read catch er => mret (Err (Wrap "read config: " er ""));
      mret (Ok (data, Dir path))
  end.

Definition loadDocumentsArg (args : list string) : Prog CliCall (result (list NamedConfig * string)) :=
  attempt (data, root) <- readConfigFileArg args catch er => mret (Err er);
  match LoadClusterRegistryEnv fs cl_getenv [] with
  | (_, Some er) => mret (Err er)
  | (registry, None) =>
      mret (match loadDocuments registry data (default "" (head args)) with Ok docs => Ok (docs, root) | Err er => Err er end)
  end.

(** *** plan *)
Definition plan_lines (d : NamedConfig) (p : PlanView) : list string :=
  [pv_Summary p +:+ nl] ++
  (if PrimFloat.ltb PrimFloat.zero (pv_RiskScore p) || pv_NeedsApproval p || pv_Sensitive p || (0 <? pv_RecentFailures p) then
     ["  risk: score=" +:+ cl_f3 (pv_RiskScore p) +:+ " needs_approval=" +:+ bool_str (pv_NeedsApproval p) +:+
      " sensitive=" +:+ bool_str (pv_Sensitive p) +:+ " recent_failures=" +:+ pretty (pv_RecentFailures p) +:+ nl] ++
     (if pv_RiskReason p != "" then ["  reason: " +:+ pv_RiskReason p +:+ nl] else [])
   else []) ++
  (if pv_Rendered p != "" then
     [nl +:+ "--- rendered manifest (" +:+ Config.tg_Ref (target_of (nc_Config d)) +:+ ") ---" +:+ nl +:+ pv_Rendered p +:+ nl]
   else []).

Fixpoint write_all (l : list string) : Cmd unit :=
  match l with [] => mret tt | s :: l => write_out s;; write_all l end.

Fixpoint plan_each (root : string) (docs : list NamedConfig) : Cmd exit :=
  match docs with
  | [] => done_
  | d :: docs =>
      run p <- backend (op_Plan ops root (nc_Config d)) catch er => failed er;
      write_all (plan_lines d p);; plan_each root docs
  end.

Definition plan (args : list string) : Cmd exit :=
  run (docs, root) <- host (loadDocumentsArg args) catch er => failed er;
  (if (1 <? length docs)%nat then say ("RolloutSet → " +:+ pretty (length docs) +:+ " targets") else mret tt);;
  plan_each root docs.

(** *** apply *)
Definition wait_line (r : RolloutView) : string :=
  "rollout " +:+ rv_ID r +:+ ": " +:+ rv_Phase r +:+
  (if 0 <? rv_StepTotal r then
     " (step " +:+ pretty (rv_StepIndex r) +:+ "/" +:+ pretty (rv_StepTotal r) +:+ ", " +:+ pretty (rv_StepWeight r) +:+ "%)"
   else "").

Definition advance (root : string) (c : Config.t) (id : string) : Act W reply :=
  match op_Drive ops with Some drive => drive root c id | None => op_Status ops id end.

Definition noted (r : RolloutView) (note : string) : RolloutView :=
  {| rv_ID := rv_ID r; rv_Phase := rv_Phase r; rv_TargetRef := rv_TargetRef r; rv_Strategy := rv_Strategy r;
     rv_StepIndex := rv_StepIndex r; rv_StepTotal := rv_StepTotal r; rv_StepWeight := rv_StepWeight r; rv_Note := note |}.

(** The second half of a round, for a rollout that is not settled: give up at the
    deadline, or wait and advance it and go on with [again]. *)
Definition wait_round (again : RolloutView → Cmd exit) (root : string) (c : Config.t) (timeout : Duration) (deadline : Time) (r : RolloutView)
    : Cmd exit :=
  t ← host (call CNow cl_now);
  if deadline <? t then refuse ("rollout " +:+ rv_ID r +:+ ": still " +:+ rv_Phase r +:+ " after " +:+ Duration_String timeout)
  else
    polled ← host (call CPoll cl_poll);
    match polled with
    | Some er => failed er
    | None =>
        '(next, er) ← backend (advance root c (rv_ID r));
        match er with
        | Some er =>
            if rv_Phase next != phase_str PhaseRolledBack then failed er
            else again (if rv_Note next == "" then noted next (err_str er) else next)
        | None => again next
        end
    end.

(** The rounds of [waitForRollout] up to [deadline]. *)
Fixpoint wait_loop (fuel : nat) (root : string) (c : Config.t) (timeout : Duration) (deadline : Time) (lastNote : string) (r : RolloutView) : Cmd exit :=
  match fuel with
  | O => mret None
  | Datatypes.S fuel =>
      if rv_Phase r == phase_str PhasePromoted then say ("rollout " +:+ rv_ID r +:+ ": promoted");; done_
      else if rv_Phase r == phase_str PhaseRolledBack then refuse ("rollout " +:+ rv_ID r +:+ ": rolled back: " +:+ rv_Note r)
      else if (rv_Phase r == phase_str PhaseAwaitingApproval) || (rv_Phase r == phase_str PhasePaused) then
        say ("rollout " +:+ rv_ID r +:+ ": " +:+ rv_Phase r +:+ " — waiting on an operator, not on time");; done_
      else
        let note := rv_Phase r +:+ " " +:+ pretty (rv_StepIndex r) +:+ "/" +:+ pretty (rv_StepTotal r) in
        (if note != lastNote then say (wait_line r) else mret tt);;
        wait_round (wait_loop fuel root c timeout deadline note) root c timeout deadline r
  end.

Definition waitForRollout (fuel : nat) (root : string) (c : Config.t) (r : RolloutView) (timeout : Duration) : Cmd exit :=
  t ← host (call CNow cl_now);
  wait_loop fuel root c timeout (t + timeout) "" r.

Record applyArgs := { aa_wait : bool; aa_timeout : Duration; aa_rest : list string }.

Definition wait_timeout (v : string) : result Duration :=
  match ParseDuration v with Ok d => Ok d | Err er => Err (Wrap "apply: --wait-timeout: " er "") end.

Fixpoint apply_args (args : list string) (acc : applyArgs) : result applyArgs :=
  let waiting d := {| aa_wait := true; aa_timeout := d; aa_rest := aa_rest acc |} in
  match args with
  | [] => Ok acc
  | arg :: rest =>
      let other := apply_args rest {| aa_wait := aa_wait acc; aa_timeout := aa_timeout acc; aa_rest := aa_rest acc ++ [arg] |} in
      if arg == "--wait" then apply_args rest {| aa_wait := true; aa_timeout := aa_timeout acc; aa_rest := aa_rest acc |}
      else if arg == "--wait-timeout" then
        match rest with
        | v :: rest => match wait_timeout v with Err er => Err er | Ok d => apply_args rest (waiting d) end
        | [] => other
        end
      else if HasPrefix arg "--wait-timeout=" then
        match wait_timeout (TrimPrefix arg "--wait-timeout=") with Err er => Err er | Ok d => apply_args rest (waiting d) end
      else other
  end.

(** With [--wait] a busy target's own rollout is waited for. *)
Definition wait_for_busy (fuel : nat) (root : string) (c : Config.t) (timeout : Duration) (er : err) : Cmd exit :=
  match op_InFlight ops with
  | None => failed er
  | Some find =>
      found ← backend (find (Config.tg_Ref (target_of c)));
      match found with
      | Ok (Some inf) =>
          say ("rollout " +:+ rv_ID inf +:+ " already in flight (" +:+ rv_Phase inf +:+ ", " +:+ rv_TargetRef inf +:+
               "): waiting for it; nothing new is applied");;
          waitForRollout fuel root c inf timeout
      | _ => failed er
      end
  end.

Definition apply (fuel : nat) (args : list string) : Cmd exit :=
  match apply_args args {| aa_wait := false; aa_timeout := 30 * Minute; aa_rest := [] |} with
  | Err er => failed er
  | Ok aa =>
      run (data, root) <- host (readConfigFileArg (aa_rest aa)) catch er => failed er;
      match RefuseApplyRolloutSet data with
      | Some er => failed er
      | None =>
          match load data with
          | Err er => failed er
          | Ok c =>
              run _ <- backend (op_Plan ops root c) catch er => failed er;
              '(r, er) ← backend (op_Apply ops root {| rq_Config := c; rq_Initiator := actor; rq_Root := root; rq_Planned := true;
                                                       rq_NeedsApproval := false; rq_Risk := RiskFromConfig c [] |});
              match er with
              | Some er => if aa_wait aa && errors_Is er ErrTargetBusy then wait_for_busy fuel root c (aa_timeout aa) er else failed er
              | None =>
                  say ("rollout " +:+ rv_ID r +:+ ": " +:+ rv_Phase r +:+ " (" +:+ rv_TargetRef r +:+ ")");;
                  if aa_wait aa then waitForRollout fuel root c r (aa_timeout aa) else done_
              end
          end
      end
  end.

(** *** The other commands *)
Definition rollout_line (r : RolloutView) : string := "rollout " +:+ rv_ID r +:+ ": " +:+ rv_Phase r.

(** [rolloutIDCmd], which [approve] and [reject] repeat. *)
Definition rolloutIDCmd (name : string) (op : string → Act W reply) (args : list string) : Cmd exit :=
  match args with
  | [] => refuse (name +:+ ": rollout id required")
  | id :: _ =>
      '(r, er) ← backend (op id);
      match er with Some er => failed er | None => say (rollout_line r);; done_ end
  end.

Definition pause : list string → Cmd exit := rolloutIDCmd "pause" (op_Pause ops).
Definition resume : list string → Cmd exit := rolloutIDCmd "resume" (op_Resume ops).
Definition abort : list string → Cmd exit := rolloutIDCmd "abort" (op_Abort ops).
Definition approve : list string → Cmd exit := rolloutIDCmd "approve" (op_Approve ops).
Definition reject : list string → Cmd exit := rolloutIDCmd "reject" (op_Reject ops).

Definition note_of (id : string) (hist : list RolloutRecord) : option string :=
  rr_Note <$> head (filter (λ rec, rr_RolloutID rec = id ∧ rr_Note rec ≠ "") hist).

Definition status (args : list string) : Cmd exit :=
  match args with
  | [] => refuse "status: rollout id required"
  | id :: _ =>
      '(r, er) ← backend (op_Status ops id);
      match er with
      | Some er => failed er
      | None =>
          say (rv_ID r +:+ tab +:+ rv_Phase r +:+ tab +:+ rv_TargetRef r +:+ tab +:+ rv_Strategy r);;
          (if 0 <? rv_StepTotal r then
             say ("steps" +:+ tab +:+ pretty (rv_StepIndex r) +:+ "/" +:+ pretty (rv_StepTotal r) +:+ " (" +:+ pretty (rv_StepWeight r) +:+ "%)")
           else mret tt);;
          match op_History ops with
          | None => done_
          | Some history =>
              hist ← backend (history (rv_TargetRef r));
              match hist with
              | Ok hist => match note_of (rv_ID r) hist with Some n => say ("note" +:+ tab +:+ n);; done_ | None => done_ end
              | Err _ => done_
              end
          end
      end
  end.

Definition count_note (n : Z) (what : string) : Cmd unit :=
  if 0 <? n then write_out (" (" +:+ pretty n +:+ " " +:+ what +:+ ")") else mret tt.

Definition fleet (args : list string) : Cmd exit :=
  match args with
  | [] => refuse "fleet: set name or prefix required (e.g. web or web@)"
  | name :: _ =>
      match op_FleetStatus ops with
      | None => refuse "fleet: not supported by this operations backend"
      | Some status =>
          run rep <- backend (status name) catch er => failed er;
          write_out (fv_Name rep +:+ ": " +:+ pretty (fv_Promoted rep) +:+ "/" +:+ pretty (fv_Total rep) +:+ " promoted");;
          count_note (fv_Active rep) "active";; count_note (fv_Degraded rep) "degraded";; count_note (fv_Awaiting rep) "awaiting";;
          say "";;
          write_all ((λ '(target, phase, id), "  " +:+ target +:+ tab +:+ phase +:+ tab +:+ id +:+ nl) <$> fv_Members rep);;
          done_
      end
  end.

(** [--force] or [-f] in any position. *)
Definition is_force (arg : string) : bool := (arg == "--force") || (arg == "-f").
Definition forced (args : list string) : bool := existsb is_force args.
Definition unforced (args : list string) : list string := filter (λ a, is_force a = false) args.

Definition promote (args : list string) : Cmd exit :=
  match unforced args with
  | [] => refuse "promote: rollout id required"
  | id :: _ =>
      '(r, er) ← backend (op_Promote ops id (forced args));
      match er with Some er => failed er | None => say (rollout_line r);; done_ end
  end.

Definition rollback (args : list string) : Cmd exit :=
  match unforced args with
  | [] => refuse "rollback: target ref required"
  | ref :: _ =>
      '(r, er) ← backend (op_RollbackLast ops ref (forced args));
      match er with Some er => failed er | None => say (rollout_line r +:+ " (" +:+ rv_TargetRef r +:+ ")");; done_ end
  end.

Definition gate_line (g : GateResult) : string :=
  gt_Gate g +:+ tab +:+ gt_Status g +:+ (if gt_Detail g != "" then tab +:+ gt_Detail g else "") +:+ nl.

Definition verify (args : list string) : Cmd exit :=
  match args with
  | [] => refuse "verify: rollout id required"
  | id :: _ =>
      run rep <- backend (op_Verify ops id) catch er => failed er;
      say ("rollout " +:+ vv_RolloutID rep +:+ ": " +:+ vv_Phase rep);;
      write_all (gate_line <$> vv_Gates rep);;
      if vv_OK rep then say "verify: ok (nothing changed)";; done_ else refuse ("verify: " +:+ vv_Reason rep)
  end.

Definition freeze (on : bool) (args : list string) : Cmd exit :=
  '(active, reason, er) ← backend (op_Freeze ops on (Join args " "));
  match er with
  | Some er => failed er
  | None => say (if active : bool then "frozen: " +:+ reason else "unfrozen");; done_
  end.

Definition version : Cmd exit :=
  let '(v, commit, date) := cl_version in say ("rollops " +:+ v +:+ " (" +:+ commit +:+ ", " +:+ date +:+ ")");; done_.

Definition usage : Cmd exit := host (call (CUsage "rollops") (λ _, tt));; done_.

(** *** doctor

    A check prints its line and names what failed. *)
Definition verdict (name : string) (er : option err) (ok : string) (after : string) : Cmd (list string) :=
  match er with
  | Some er => say (name +:+ ": fail (" +:+ err_str er +:+ ")" +:+ after);; mret [name]
  | None => say (name +:+ ": ok (" +:+ ok);; mret []
  end.

Definition skipped (line : string) : Cmd (list string) := say line;; mret [].

Definition firstLine (s : string) : string := match IndexByte s (char 10) with Some i => str_take i s | None => s end.

Definition execToolProbe (name : string) (args : list string) : Prog CliCall (result string) :=
  t ← call (CTool name args) cl_tool;
  mret (match t with
        | ToolMissing => Err (Errorf (name +:+ " not found on PATH"))
        | ToolRan path out er =>
            let line := TrimSpace (firstLine out) in
            match er with
            | Some er => if line != "" then Err (Errorf (err_str er +:+ ": " +:+ line)) else Err er
            | None => Ok (if line == "" then path else line)
            end
        end).

Definition check_tool (name : string) (args : list string) : Cmd (list string) :=
  r ← host (execToolProbe name args);
  match r with
  | Err er => verdict name (Some er) "" ""
  | Ok ver => verdict name None (ver +:+ ")") ""
  end.

Definition specUsesHelm (spec : gmap string any) : bool :=
  bool_decide (is_Some (spec !! "helm")) ||
  match spec !! "manifestFrom" with Some (AMap mf) => bool_decide ("helm" ∈ mf.*1) | _ => false end.

Definition probeRenderTools (spec : gmap string any) : Cmd (list string) :=
  kubectl ← check_tool "kubectl" ["version"; "--client"];
  helm ← (if specUsesHelm spec then check_tool "helm" ["version"; "--short"] else mret []);
  mret (kubectl ++ helm).

Definition strategy_line (d : NamedConfig) : list string :=
  let note := Config.HonestStrategy (Some (nc_Config d)) in
  if note != "" then ["strategy " +:+ Config.tg_Ref (target_of (nc_Config d)) +:+ ": " +:+ note +:+ nl] else [].

(** The verdict on the configuration, and the first one of it. *)
Definition check_config (args : list string) : Cmd (list string * option Config.t) :=
  match args with
  | [] => say "config: skipped (pass rollops.yaml to validate)";; mret ([], None)
  | path :: _ =>
      r ← host (loadDocumentsArg [path]);
      match r with
      | Err er => say ("config: fail (" +:+ err_str er +:+ ")");; mret (["config"], None)
      | Ok (docs, _) =>
          say ("config: ok (" +:+ path +:+ ") — " +:+ pretty (length docs) +:+ " rollout(s)");;
          write_all (docs ≫= strategy_line);;
          mret ([], nc_Config <$> head docs)
      end
  end.

Definition check_clusters_file : Cmd (list string) :=
  let path := cl_getenv "ROLLOPS_CLUSTERS" in
  if path != "" then
    match LoadClustersFile fs path with
    | Err er => verdict "clusters" (Some er) "" ""
    | Ok cs => verdict "clusters" None (path +:+ ") — " +:+ pretty (length cs) +:+ " cluster(s)") ""
    end
  else skipped "clusters: skipped (set ROLLOPS_CLUSTERS for cluster generators)".

Definition check_tools (cfg : option Config.t) : Cmd (list string) :=
  match cfg with
  | Some c => if Config.tg_Kind (target_of c) == "kubernetes" then probeRenderTools (Config.tg_Spec (target_of c)) else mret []
  | None => mret []
  end.

Definition check_daemon : Cmd (list string) :=
  let addr := dc_DaemonAddr dr in
  let mine := cl_version.1.1 in
  if negb (dc_Probe dr) then verdict "daemon" (Some (Errorf "probe not configured")) "" ""
  else
    r ← host (call (CDaemon addr (dc_Token dr)) cl_daemon);
    match r with
    | Err er => verdict "daemon" (Some er) "" ""
    | Ok theirs =>
        if theirs == "" then verdict "daemon" None (addr +:+ ", version not reported — older than this check)") ""
        else if theirs != mine then
          verdict "daemon" (Some (Errorf (addr +:+ " runs " +:+ theirs +:+ ", this client is " +:+ mine +:+ " — update the daemon"))) "" ""
        else verdict "daemon" None (addr +:+ ", " +:+ theirs +:+ ")") ""
    end.

Definition check_database : Cmd (list string) :=
  let path := if dc_DBPath dr == "" then "rollops.db" else dc_DBPath dr in
  er ← host (call (COpenDB path) cl_opendb); verdict "database" er (path +:+ ")") "".

Definition check_notify : Cmd (list string) :=
  match dc_Notifier dr with
  | Some channels => er ← host (call CTestEvent cl_notify); verdict "notify" er (Join channels ", " +:+ ")") ""
  | None => skipped "notify: skipped (set ROLLOPS_BRIEFKASTEN_URL, ROLLOPS_SMTP_ADDR, or ROLLOPS_WEBHOOK_URL)"
  end.

Definition check_governance : Cmd (list string) :=
  match dc_Governor dr with
  | Some url =>
      er ← host (call CProbeGovernor cl_govern);
      verdict "governance" er (url +:+ ", fail-closed)") " — applies will be refused while this is unreachable"
  | None => skipped "governance: skipped (set ROLLOPS_GOVERNANCE_URL to require external approval)"
  end.

Definition doctor (args : list string) : Cmd exit :=
  '(f1, cfg) ← check_config args;
  f2 ← check_clusters_file;
  f3 ← check_tools cfg;
  f4 ← (if dc_DaemonAddr dr != "" then check_daemon else check_database);
  f5 ← check_notify;
  f6 ← check_governance;
  match f1 ++ f2 ++ f3 ++ f4 ++ f5 ++ f6 with
  | [] => done_
  | names => refuse ("doctor failed: " +:+ Join names ", ")
  end.

(** ** [Run] *)
Definition Run (fuel : nat) (args : list string) : Cmd exit :=
  match args with
  | [] => usage
  | cmd :: rest =>
      if cmd == "plan" then plan rest
      else if cmd == "apply" then apply fuel rest
      else if cmd == "status" then status rest
      else if cmd == "fleet" then fleet rest
      else if cmd == "promote" then promote rest
      else if cmd == "verify" then verify rest
      else if cmd == "approve" then approve rest
      else if cmd == "reject" then reject rest
      else if cmd == "pause" then pause rest
      else if cmd == "resume" then resume rest
      else if cmd == "abort" then abort rest
      else if cmd == "rollback" then rollback rest
      else if cmd == "freeze" then freeze true rest
      else if cmd == "unfreeze" then freeze false rest
      else if cmd == "doctor" then doctor rest
      else if cmd == "plugin" then er ← host (plugin rest); mret (Some er)
      else if (cmd == "version") || (cmd == "--version") then version
      else if (cmd == "help") || (cmd == "-h") || (cmd == "--help") then usage
      else refuse ("unknown command " +:+ quote cmd +:+ " (try: plan, apply, status, fleet, promote, pause, resume, abort, approve, reject, rollback, freeze, unfreeze, doctor, plugin, version)")
  end.
End App.
