(* ===== verification/Client.v ===== *)
(** * The command line over a daemon

    [internal/grpcapi/client.go]: the operations of the commands as calls of the
    gRPC service, and the choice between the two modes of [cmd/rollops/main.go].
    A call is an argument; the fields of a response are read as the generated
    getters do, with the zero value for what is missing. *)

From S2P Require Import Prelude Encoding GoTime Statekit Config Progressive Model Lifecycle Risk Analysis Security Store World.
From S2P Require Import EngineBase EngineGates EngineRollback EngineDeploy Git ConfigLoad Scenario Process Hosts Marketplace Surface Grpc Cli.

(** ** Getters *)
Definition field (name : string) (fields : list (string * any)) : option any := snd <$> head (filter (λ kv, kv.1 = name) fields).
Definition get_str (name : string) (fields : list (string * any)) : string := as_string (field name fields).
Definition get_int (name : string) (fields : list (string * any)) : Z :=
  match field name fields with Some (AInt n) => n | _ => 0 end.
Definition get_bool (name : string) (fields : list (string * any)) : bool :=
  match field name fields with Some (ABool b) => b | _ => false end.
Definition get_float (name : string) (fields : list (string * any)) : PrimFloat.float :=
  match field name fields with Some (AFloat f) => f | _ => PrimFloat.zero end.
Definition get_list (name : string) (fields : list (string * any)) : list (list (string * any)) :=
  match field name fields with
  | Some (AList l) => (λ v, match v with AMap m => m | _ => [] end) <$> l
  | _ => []
  end.

Definition code_str (c : Code) : string :=
  match c with
  | InvalidArgument => "InvalidArgument" | NotFound => "NotFound" | PermissionDenied => "PermissionDenied"
  | Unauthenticated => "Unauthenticated" | FailedPrecondition => "FailedPrecondition" | Aborted => "Aborted" | Internal => "Internal"
  end.
Definition rpc_error (why : Code * string) : err := Errorf ("rpc error: code = " +:+ code_str why.1 +:+ " desc = " +:+ why.2).

(** What each call makes of its response. *)
Definition client_plan (f : list (string * any)) : PlanView :=
  {| pv_Summary := get_str "summary" f; pv_RiskScore := get_float "risk_score" f; pv_NeedsApproval := get_bool "needs_approval" f;
     pv_Sensitive := get_bool "sensitive" f; pv_RecentFailures := get_int "recent_failures" f; pv_RiskReason := get_str "reason" f;
     pv_Rendered := "" |}.
Definition client_rollout (f : list (string * any)) : RolloutView :=
  {| rv_ID := get_str "id" f; rv_Phase := get_str "phase" f; rv_TargetRef := get_str "target" f; rv_Strategy := "";
     rv_StepIndex := 0; rv_StepTotal := 0; rv_StepWeight := 0; rv_Note := "" |}.
Definition client_action (f : list (string * any)) : RolloutView := noted (client_rollout f) (get_str "note" f).
Definition client_status (f : list (string * any)) : RolloutView :=
  {| rv_ID := get_str "id" f; rv_Phase := get_str "phase" f; rv_TargetRef := get_str "target" f; rv_Strategy := get_str "strategy" f;
     rv_StepIndex := get_int "step_index" f; rv_StepTotal := get_int "step_total" f; rv_StepWeight := get_int "step_weight" f;
     rv_Note := get_str "note" f |}.
Definition client_gate (f : list (string * any)) : GateResult :=
  {| gt_Gate := get_str "gate" f; gt_Status := get_str "status" f; gt_Detail := get_str "detail" f |}.
Definition client_verify (f : list (string * any)) : VerifyView :=
  {| vv_RolloutID := get_str "id" f; vv_Phase := get_str "phase" f; vv_OK := get_bool "ok" f; vv_Reason := get_str "reason" f;
     vv_Gates := client_gate <$> get_list "gates" f |}.
Definition client_fleet (f : list (string * any)) : FleetView :=
  {| fv_Name := get_str "name" f; fv_Total := get_int "total" f; fv_Promoted := get_int "promoted" f; fv_Active := get_int "active" f;
     fv_Degraded := get_int "degraded" f; fv_Awaiting := get_int "awaiting" f;
     fv_Members := (λ m, (get_str "target" m, get_str "phase" m, get_str "id" m)) <$> get_list "members" f |}.

Section Client.
Context {W : Type} (rpc : GRequest → Act W GReply) (marshal : Config.t → result string).

Definition call_rpc {A} (req : GRequest) (read : list (string * any) → A) : Act W (result A) :=
  r ← rpc req; mret (match r with inl why => Err (rpc_error why) | inr f => Ok (read f) end).
Definition as_reply (m : Act W (result RolloutView)) : Act W reply :=
  r ← m; mret (match r with Ok v => (v, None) | Err er => (no_view, Some er) end).

(** [rolloutAction]. *)
Definition rolloutAction (req : GRequest) : Act W reply := as_reply (call_rpc req client_action).

Definition client_Plan (c : Config.t) : Act W (result PlanView) :=
  match marshal c with Err er => mret (Err er) | Ok y => call_rpc (GPlan y) client_plan end.
Definition client_Apply (req : ApplyRequest) : Act W reply :=
  match marshal (rq_Config req) with Err er => mret (no_view, Some er) | Ok y => as_reply (call_rpc (GApply y) client_rollout) end.
Definition client_Freeze (on : bool) (reason : string) : Act W (bool * string * option err) :=
  r ← call_rpc (GFreeze on reason) (λ f, (get_bool "active" f, get_str "reason" f));
  mret (match r with Ok v => (v, None) | Err er => (false, "", Some er) end).

(** [Client] as the operations of the commands. *)
Definition ClientOps : Operations W := {|
  op_Plan _ c := client_Plan c;
  op_Apply _ req := client_Apply req;
  op_Status id := as_reply (call_rpc (GStatus id) client_status);
  op_Promote id force := rolloutAction (GPromote id force);
  op_Verify id := call_rpc (GVerify id) client_verify;
  op_Approve id := rolloutAction (GApprove id);
  op_Reject id := rolloutAction (GReject id);
  op_Pause id := rolloutAction (GPause id);
  op_Resume id := rolloutAction (GResume id);
  op_Abort id := rolloutAction (GAbort id);
  op_RollbackLast ref force := as_reply (call_rpc (GRollback ref force) client_rollout);
  op_Freeze := client_Freeze;
  op_History := None;
  op_FleetStatus := Some (λ filter_, call_rpc (GFleetStatus filter_) client_fleet);
  op_InFlight := None;
  op_Drive := None |}.
End Client.

(** The version the daemon announced last, and the notice of a difference. *)
Definition recordVersion (vals : list string) (daemonVersion : string) : string :=
  match vals with v :: _ => if v == "" then daemonVersion else v | [] => daemonVersion end.
Definition DaemonVersion (daemonVersion : string) : string * bool := (daemonVersion, daemonVersion != "").
Definition skew_notice (mine addr daemonVersion : string) : option string :=
  let '(got, ok) := DaemonVersion daemonVersion in
  if ok && (got != mine) then
    Some ("rollops: this client is " +:+ mine +:+ " but the daemon at " +:+ addr +:+ " is " +:+ got +:+
          " — the daemon runs the rollouts, so update it (deploy/kubernetes/rollopsd-deployment.yaml pins the image)")
  else None.

(** ** The entry point ([cmd/rollops/main.go]) *)

(** The metadata of a call: the token of the environment. *)
Definition client_ctx (token : string) : list string := ["Bearer " +:+ token].

(** [probeDaemon]'s reading of the answer to a status request for a rollout that
    does not exist. *)
Definition probe_verdict (daemon : string) (r : GReply) : result string :=
  match r with
  | inl (NotFound, _) | inr _ => Ok daemon
  | inl (Unauthenticated, _) => Err (Errorf "unauthorized token")
  | inl why => Err (rpc_error why)
  end.

Definition localUser (current : option string) : Identity :=
  {| id_Kind := "human"; id_Name := match current with Some u => if u != "" then u else "unknown" | None => "unknown" end; id_Groups := [] |}.

(** What answers a command: nothing (doctor and plugin), a daemon, or the engine
    in this process. *)
Inductive Mode := NoBackend | Daemon (addr token : string) | InThisProcess (db : string).

Definition mode (getenv : string → string) (args : list string) : Mode :=
  let db := if getenv "ROLLOPS_DB" == "" then "rollops.db" else getenv "ROLLOPS_DB" in
  match args with
  | cmd :: _ => if (cmd == "doctor") || (cmd == "plugin") then NoBackend
                else if getenv "ROLLOPS_DAEMON" != "" then Daemon (getenv "ROLLOPS_DAEMON") (getenv "ROLLOPS_TOKEN") else InThisProcess db
  | [] => if getenv "ROLLOPS_DAEMON" != "" then Daemon (getenv "ROLLOPS_DAEMON") (getenv "ROLLOPS_TOKEN") else InThisProcess db
  end.

Definition main_doctor (getenv : string → string) (notifier : option (list string)) (governor : bool) : Doctor :=
  {| dc_DBPath := if getenv "ROLLOPS_DB" == "" then "rollops.db" else getenv "ROLLOPS_DB";
     dc_DaemonAddr := getenv "ROLLOPS_DAEMON"; dc_Token := getenv "ROLLOPS_TOKEN"; dc_Probe := true;
     dc_Notifier := notifier; dc_Governor := if governor then Some (getenv "ROLLOPS_GOVERNANCE_URL") else None |}.

(** ** The two modes agree *)
Section Agreement.
#[local] Existing Instance M_ret.
#[local] Existing Instance M_bind.
Context {S : Type} `{!Store S}.
Notation HW := (EngineDeploy.HW (S := S)).
Context `{!Statechart Phase LifeContext unit, !Statechart StepState StepContext HW}.
Context `{!Yaml} (env : Env) (e : Engine) (fs : FS) (getenv : string → string) (policy : Policy) (marshal : Config.t → result string).
Context (id : Identity) (registry : list Cluster).

(** An authenticated call of the daemon on the same store. *)
Definition daemon_rpc (req : GRequest) : Act (World S) GReply :=
  λ w, let '((r, _), w') := grpc_call env e fs getenv policy id registry req w in (r, w').

(** A local answer as the client reports it: the fields the message has, or the
    error as a status. *)
Definition carried {A B} (code : Code) (none : B) (f : A → B) (out : (A * option err) * World S) : (B * option err) * World S :=
  match out with
  | ((v, None), w) => ((f v, None), w)
  | ((_, Some er), w) => ((none, Some (rpc_error (code, err_str er))), w)
  end.

Definition brief (v : RolloutView) : RolloutView :=
  {| rv_ID := rv_ID v; rv_Phase := rv_Phase v; rv_TargetRef := rv_TargetRef v; rv_Strategy := ""; rv_StepIndex := 0; rv_StepTotal := 0;
     rv_StepWeight := 0; rv_Note := "" |}.
Definition brief_note (v : RolloutView) : RolloutView := noted (brief v) (rv_Note v).
Definition steps32 (v : RolloutView) : RolloutView :=
  {| rv_ID := rv_ID v; rv_Phase := rv_Phase v; rv_TargetRef := rv_TargetRef v; rv_Strategy := rv_Strategy v;
     rv_StepIndex := int32 (rv_StepIndex v); rv_StepTotal := int32 (rv_StepTotal v); rv_StepWeight := int32 (rv_StepWeight v);
     rv_Note := rv_Note v |}.
Definition counts32 (v : FleetView) : FleetView :=
  {| fv_Name := fv_Name v; fv_Total := int32 (fv_Total v); fv_Promoted := int32 (fv_Promoted v); fv_Active := int32 (fv_Active v);
     fv_Degraded := int32 (fv_Degraded v); fv_Awaiting := int32 (fv_Awaiting v); fv_Members := fv_Members v |}.

Lemma read_gate g : client_gate (match gate_fields g with AMap m => m | _ => [] end) = g.
Proof. destruct g as [gate st detail]. unfold gate_fields, omit_empty. simpl gt_Detail. case_bool_decide as Hd; [subst|]; reflexivity. Qed.
Lemma read_gates (gs : list GateResult) : client_gate <$> ((λ v, match v with AMap m => m | _ => [] end) <$> (gate_fields <$> gs)) = gs.
Proof. induction gs as [|g gs IH]; [done|]. rewrite !fmap_cons, IH, read_gate. done. Qed.
Lemma read_fleet rep : client_fleet (int32_counts (fleet_fields rep)) = counts32 (fleet_view rep).
Proof.
  unfold client_fleet, counts32, fleet_view. f_equal; try reflexivity. simpl fv_Members.
  change (get_list "members" (int32_counts (fleet_fields rep)))
    with ((λ v, match v with AMap m => m | _ => [] end) <$>
          ((λ m, AMap [("id", AString (fm_ID m)); ("target", AString (fm_Target m)); ("phase", AString (phase_str (fm_Phase m)))]) <$> fr_Members rep)).
  rewrite <- !list_fmap_compose. done.
Qed.

Notation client := (ClientOps daemon_rpc marshal).
Notation local := (EngineOps (S := S) env e id).

(** The daemon finds the rollout, then acts on what it found. *)
Definition after_status (ro : string) (act : World S → reply * World S) (w : World S) : reply * World S :=
  match Status ro w with
  | (Err er, w1) => ((no_view, Some (rpc_error (NotFound, err_str er))), w1)
  | (Ok _, w1) => carried FailedPrecondition no_view brief_note (act w1)
  end.

Lemma action_agrees perm ro req (op : M S outcome) w :
  (∀ perm s, Authorize policy id perm s = None) → ro ≠ "" →
  grpc_call env e fs getenv policy id registry req = (r ← grpc_action policy id perm ro op; mret (r, registry)) →
  rolloutAction daemon_rpc req w = after_status ro (replied op) w.
Proof.
  intros Hg Hro Hreq.
  unfold rolloutAction, as_reply, call_rpc, daemon_rpc, mbind, Act_bind, mret, Act_ret. rewrite Hreq.
  unfold mbind, M_bind, mret, M_ret, grpc_action, after_status, replied. rewrite bool_decide_eq_false_2 by done.
  unfold fmap, M_fmap, rollout_action, on_rollout, on_result, authorized, mbind, M_bind, mret, M_ret.
  destruct (Status ro w) as [[cur|er] w1]; [|done]. rewrite Hg. by destruct (op w1) as [[[rl|] [er|]] w2].
Qed.

(** C40. For a caller who is granted everything, a command that controls a rollout
    does through the daemon what it does in process: the same operation, in the
    caller's name, on the same store, with the same answer, shortened to the
    fields of the message, or the same error as a status. *)
Theorem daemon_mode_agrees ro ref force on reason w :
  (∀ perm s, Authorize policy id perm s = None) → ro ≠ "" → ref ≠ "" →
  op_Promote client ro force w = after_status ro (op_Promote local ro force) w ∧
  op_Approve client ro w = after_status ro (op_Approve local ro) w ∧
  op_Reject client ro w = after_status ro (op_Reject local ro) w ∧
  op_Pause client ro w = after_status ro (op_Pause local ro) w ∧
  op_Resume client ro w = after_status ro (op_Resume local ro) w ∧
  op_Abort client ro w = after_status ro (op_Abort local ro) w ∧
  op_Status client ro w = carried NotFound no_view steps32 (op_Status local ro w) ∧
  op_RollbackLast client ref force w = carried FailedPrecondition no_view brief (op_RollbackLast local ref force w) ∧
  op_Freeze client on reason w = carried FailedPrecondition (false, "") (λ x, x) (op_Freeze local on reason w).
Proof.
  intros Hg Hro Href.
  assert (∀ perm req op, grpc_call env e fs getenv policy id registry req = (r ← grpc_action policy id perm ro op; mret (r, registry)) →
    rolloutAction daemon_rpc req w = after_status ro (replied op) w) as Hact by (intros; by eapply action_agrees).
  split_and!; try by eapply Hact.
  - simpl. unfold as_reply, call_rpc, daemon_rpc, engine_Status, mbind, Act_bind, M_bind, mret, Act_ret, M_ret. simpl.
    unfold grpc_Status, fmap, M_fmap, read_status, authorized, on_result, mbind, M_bind, mret, M_ret. rewrite Hg.
    destruct (Status ro w) as [[r|er] w1]; reflexivity.
  - simpl. unfold as_reply, call_rpc, daemon_rpc, replied, mbind, Act_bind, M_bind, mret, Act_ret, M_ret. simpl.
    unfold grpc_Rollback. rewrite bool_decide_eq_false_2 by done.
    unfold fmap, M_fmap, rollback_target, authorized, mbind, M_bind, mret, M_ret. rewrite Hg.
    destruct (RollbackLast env e ref force w) as [[[rl|] [er|]] w1]; reflexivity.
  - simpl. unfold client_Freeze, call_rpc, daemon_rpc, mbind, Act_bind, M_bind, mret, Act_ret, M_ret. simpl.
    unfold grpc_Freeze, fmap, M_fmap, Surface.set_freeze, authorized, mbind, M_bind, mret, M_ret. rewrite Hg.
    destruct (SetFreeze env e on id reason w) as [[[active why] [er|]] w1]; reflexivity.
Qed.

(** The reports arrive whole, the counts of a fleet as 32-bit numbers. *)
Theorem daemon_mode_reports ro name w :
  (∀ perm s, Authorize policy id perm s = None) → ro ≠ "" →
  op_Verify client ro w =
    match Status ro w with
    | (Err er, w1) => (Err (rpc_error (NotFound, err_str er)), w1)
    | (Ok _, w1) => match op_Verify local ro w1 with
                    | (Ok v, w2) => (Ok v, w2)
                    | (Err er, w2) => (Err (rpc_error (FailedPrecondition, err_str er)), w2)
                    end
    end ∧
  call_rpc daemon_rpc (GFleetStatus name) client_fleet w =
    match ok_view fleet_view (FleetStatus name) w with
    | (Ok v, w1) => (Ok (counts32 v), w1)
    | (Err er, w1) => (Err (rpc_error (InvalidArgument, err_str er)), w1)
    end.
Proof.
  intros Hg Hro. split.
  - simpl. unfold call_rpc, daemon_rpc, ok_view, mbind, Act_bind, M_bind, mret, Act_ret, M_ret. simpl.
    unfold grpc_Verify. rewrite bool_decide_eq_false_2 by done.
    unfold fmap, M_fmap, verify_rollout, on_rollout, on_result, authorized, mbind, M_bind, mret, M_ret.
    destruct (Status ro w) as [[r|er] w1]; [|done]. rewrite Hg. destruct (Verify env e ro w1) as [[rep|er] w2]; [|done].
    unfold answer. do 2 f_equal. unfold client_verify, verify_view. f_equal. apply read_gates.
  - unfold call_rpc, daemon_rpc, ok_view, mbind, Act_bind, M_bind, mret, Act_ret, M_ret. simpl.
    unfold grpc_FleetStatus, fmap, M_fmap, read_status, authorized, on_result, mbind, M_bind, mret, M_ret. rewrite Hg.
    destruct (FleetStatus name w) as [[rep|er] w1]; [|done]. unfold answer. by rewrite read_fleet.
Qed.
End Agreement.

Module ClientDemo.
Import Scenario.
#[local] Existing Instance life_chart.
#[local] Existing Instance step_chart.

#[local] Instance no_documents : Yaml := {|
  yaml_head _ := Err (Errorf "none"); yaml_set _ := Err (Errorf "none"); yaml_clusters _ := Err (Errorf "none");
  yaml_marshal _ := Err (Errorf "none"); load _ := Err (Errorf "none"); sprint _ := ""; map_order m := (map_to_list m).*1 |}.
Definition no_files : FS :=
  {| fs_lstat _ := Err (Errorf "none"); fs_read _ := Err (Errorf "none"); fs_stat_dir _ := Err (Errorf "none"); fs_readdir _ := Err (Errorf "none") |}.

Definition admin : Identity := {| id_Kind := "human"; id_Name := "admin"; id_Groups := [] |}.
Definition canarying : World Sqlite.Db := (Apply sunny engine (request (service "api" "v1" canary true) ann false) (start Sqlite.empty)).2.
Definition canary_id : string := "ro-19700101T000002.000000000".

Lemma admin_may perm s : Authorize DefaultRBACPolicy admin perm s = None.
Proof. destruct perm; vm_compute; reflexivity. Qed.

Lemma daemon_mode_agrees_witness :
  let out := op_Abort (ClientOps (daemon_rpc sunny engine no_files (λ _, "") DefaultRBACPolicy admin []) (λ _, Err (Errorf "none"))) canary_id canarying in
  (rv_Phase out.1.1, out.1.2) = ("rolled-back", None) ∧
  out = after_status canary_id (op_Abort (EngineOps sunny engine admin) canary_id) canarying.
Proof.
  split; [vm_compute; reflexivity|].
  destruct (daemon_mode_agrees sunny engine no_files (λ _, "") DefaultRBACPolicy (λ _, Err (Errorf "none")) admin [] canary_id "api"
              false false "" canarying admin_may) as (_ & _ & _ & _ & _ & Ha & _); [discriminate|discriminate|].
  exact Ha.
Defined.
End ClientDemo.
