(* ===== verification/Frame.v ===== *)
(** * Frames: what an operation leaves alone

    Reasoning about the engine's monadic programs.  [keeps R m] says every run
    of [m] relates the world before to the world after by the preorder [R];
    composition is a hint database, so a frame of an operation follows from the
    frames of what it calls.  [quiet l] is the frame of an operation that leaves
    the store's view, the locks and the freeze alone and interacts with the
    outside only within the level [l]; [calm l] allows the store to change.
    [wp] is the weakest precondition, for the properties that depend on
    results. *)

From S2P Require Import Prelude GoTime Statekit Config Progressive Model Lifecycle Risk.
From S2P Require Import Analysis Security Store World EngineBase EngineGates EngineRollback EngineDeploy.

(** ** Levels of interaction

    [Probe] looks but changes nothing outside; [Exec] also runs commands on the
    host (a smoke test); [All] includes deploying, shifting traffic and setting
    flags. *)
Inductive level := Probe | Exec | All.

Definition allowed (l : level) (ef : Effect) : bool :=
  match l, ef with
  | All, _ => true
  | _, (EApply _ _ | EReap _ | ETraffic _ | EFlag _ | EGit _ _ _ | EWriteFile _ _ | ERemoveAll _) => false
  | Probe, EExec _ _ => false
  | _, _ => true
  end.

Definition level_le (l l' : level) : bool :=
  match l, l' with
  | Probe, _ | _, All | Exec, Exec => true
  | _, _ => false
  end.

Lemma allowed_mono l l' ef : level_le l l' = true → allowed l ef = true → allowed l' ef = true.
Proof. by destruct l, l', ef. Qed.

Section Frames.
Context {S : Type} `{!Store S, !StoreLaws S}.
Implicit Types (w : World S).

Definition grew (l : level) w w' : Prop :=
  ∃ tr, w_trace w' = tr ++ w_trace w ∧ Forall (λ ef, allowed l ef = true) tr.

(** The locks as before, the clock not set back. *)
Definition kept w w' : Prop := w_locks w' = w_locks w ∧ (w_tick w ≤ w_tick w')%nat.

Definition calm (l : level) w w' : Prop := kept w w' ∧ grew l w w'.

Definition quiet (l : level) w w' : Prop :=
  calm l w w' ∧ same_view (w_store w) (w_store w') ∧ w_freeze w' = w_freeze w.

#[global] Instance same_view_preorder : PreOrder (same_view (S := S)).
Proof. split; unfold same_view; [done|]. intros x y z. naive_solver congruence. Qed.

#[global] Instance grew_preorder l : PreOrder (grew l).
Proof.
  split.
  - intros w. by exists [].
  - intros w1 w2 w3 (t1 & H1 & F1) (t2 & H2 & F2). exists (t2 ++ t1). split.
    + by rewrite H2, H1, app_assoc.
    + by apply Forall_app.
Qed.

#[global] Instance kept_preorder : PreOrder kept.
Proof.
  split.
  - by intros w.
  - intros w1 w2 w3 [L1 T1] [L2 T2]. split; [congruence|lia].
Qed.

#[global] Instance calm_preorder l : PreOrder (calm l).
Proof.
  split.
  - intros w. split; reflexivity.
  - intros w1 w2 w3 [H1 G1] [H2 G2]. split; by transitivity w2.
Qed.

#[global] Instance quiet_preorder l : PreOrder (quiet l).
Proof.
  split.
  - intros w. split_and!; reflexivity.
  - intros w1 w2 w3 (C1 & V1 & F1) (C2 & V2 & F2). split_and!; [by transitivity w2| |congruence].
    by transitivity (w_store w2).
Qed.

Lemma grew_mono l l' w w' : level_le l l' = true → grew l w w' → grew l' w w'.
Proof.
  intros Hl (tr & Ht & F). exists tr. split; [done|]. eapply Forall_impl; [exact F|].
  intros ef. by apply allowed_mono.
Qed.

Lemma calm_mono l l' w w' : level_le l l' = true → calm l w w' → calm l' w w'.
Proof. intros Hl [H G]. split; [done|by eapply grew_mono]. Qed.

Lemma quiet_mono l l' w w' : level_le l l' = true → quiet l w w' → quiet l' w w'.
Proof. intros Hl (C & V & F). split_and!; [by eapply calm_mono|done|done]. Qed.

Lemma quiet_calm l w w' : quiet l w w' → calm l w w'.
Proof. by intros [? _]. Qed.

(** ** The frame rule *)
Definition keeps {A} (R : World S → World S → Prop) (m : M S A) : Prop := ∀ w, R w (m w).2.

Context (R : World S → World S → Prop) `{!PreOrder R}.

Lemma keeps_ret {A} (a : A) : keeps R (mret a).
Proof. intros w. simpl. reflexivity. Qed.

Lemma keeps_read {A} (f : World S → A) : keeps R (read f).
Proof. intros w. simpl. reflexivity. Qed.

Lemma keeps_bind {A B} (m : M S A) (k : A → M S B) :
  keeps R m → (∀ a, keeps R (k a)) → keeps R (m ≫= k).
Proof.
  intros Hm Hk w. unfold mbind, M_bind. specialize (Hm w). destruct (m w) as [a w1].
  simpl in Hm. transitivity w1; [done|apply Hk].
Qed.

Lemma keeps_on_error {B} (c : M S (option err)) (h : err → M S B) (k : M S B) :
  keeps R c → (∀ er, keeps R (h er)) → keeps R k → keeps R (on_error c h k).
Proof. intros Hc Hh Hk. apply keeps_bind; [done|]. by intros [er|]. Qed.

Lemma keeps_on_result {A B} (c : M S (result A)) (h : err → M S B) (k : A → M S B) :
  keeps R c → (∀ er, keeps R (h er)) → (∀ a, keeps R (k a)) → keeps R (on_result c h k).
Proof. intros Hc Hh Hk. apply keeps_bind; [done|]. by intros [a|er]. Qed.

Lemma keeps_deferred {A} (after : M S unit) (body : M S A) :
  keeps R body → keeps R after → keeps R (deferred after body).
Proof. intros. apply keeps_bind; [done|]. intros a. apply keeps_bind; [done|]. intros _. apply keeps_ret. Qed.
End Frames.

Lemma keeps_impl {S A} (R R' : World S → World S → Prop) (m : M S A) :
  (∀ w w', R w w' → R' w w') → keeps R m → keeps R' m.
Proof. intros Hi Hk w. apply Hi, Hk. Qed.

Create HintDb frames discriminated.
#[export] Hint Resolve keeps_ret keeps_read : frames.

(** Decomposes a program along its structure, leaving the calls to the hints. *)
Ltac frame_step :=
  match goal with
  | |- keeps _ (mret _) => apply keeps_ret; apply _
  | |- keeps _ (read _) => apply keeps_read; apply _
  | |- keeps _ (on_error _ _ _) => apply keeps_on_error; [apply _| |intros ?|]
  | |- keeps _ (on_result _ _ _) => apply keeps_on_result; [apply _| |intros ?|intros ?]
  | |- keeps _ (deferred _ _) => apply keeps_deferred; [apply _| |]
  | |- keeps _ (mbind _ _) => apply keeps_bind; [apply _| |intros ?]
  | |- keeps _ (if ?b then _ else _) => destruct b eqn:?
  | |- keeps _ (match ?x with _ => _ end) => destruct x eqn:?
  | |- keeps _ _ => solve [eauto 2 with frames]
  end.
Ltac frame := repeat frame_step.

(** ** Primitive operations *)
Section Primitive.
Context {S : Type} `{!Store S, !StoreLaws S}.

Lemma quiet_ask {A} l ef (f : list Effect → A) : allowed l ef = true → keeps (quiet (S := S) l) (ask ef f).
Proof.
  intros Ha w. split; [|done]. split; [done|]. exists [ef]. split; [done|]. by constructor.
Qed.

Lemma quiet_now l env : keeps (quiet (S := S) l) (now env).
Proof. intros w. split; [|done]. split; [split; [done|simpl; lia]|]. by exists []. Qed.

Lemma quiet_newID l env : keeps (quiet (S := S) l) (newID env).
Proof. unfold newID. apply keeps_bind; [apply _|apply quiet_now|]. intros t. frame. Qed.

(** A store operation that leaves the view alone. *)
Lemma quiet_store {A} l (f : S → A * S) : (∀ s, same_view s (f s).2) → keeps (quiet l) (store f).
Proof.
  intros Hf w. unfold store. specialize (Hf (w_store w)). destruct (f (w_store w)) as [a s].
  split; [|done]. split; [done|]. by exists [].
Qed.

Lemma calm_store {A} l (f : S → A * S) : keeps (calm l) (store f).
Proof.
  intros w. unfold store. destruct (f (w_store w)) as [a s]. split; [done|]. by exists [].
Qed.

Lemma calm_of_quiet {A} l (m : M S A) : keeps (quiet l) m → keeps (calm l) m.
Proof. apply keeps_impl. intros w w'. apply quiet_calm. Qed.

Lemma quiet_load l id : keeps (quiet l) (store (LoadRollout id)).
Proof. apply quiet_store. intros s. apply load_rollout_spec. Qed.
Lemma quiet_list l n : keeps (quiet l) (store (ListRollouts n)).
Proof. apply quiet_store. intros s. apply list_limit_spec. Qed.
Lemma quiet_save_observed l t : keeps (quiet l) (store (SaveObservedState t)).
Proof. apply quiet_store. intros s. apply save_observed_view. Qed.
Lemma quiet_fingerprints l : keeps (quiet l) (store ObservedFingerprints).
Proof. apply quiet_store. intros s. apply fingerprints_view. Qed.
Lemma quiet_due l t : keeps (quiet l) (store (DueSchedules t)).
Proof. apply quiet_store. intros s. apply due_schedules_spec. Qed.
Lemma quiet_history l ref : keeps (quiet l) (store (StoreHistory ref)).
Proof. apply quiet_store. intros s. apply history_view. Qed.
Lemma quiet_load_freeze l : keeps (quiet l) (store LoadFreeze).
Proof. apply quiet_store. intros s. apply load_freeze_spec. Qed.
Lemma quiet_release_lease l k o : keeps (quiet l) (store (ReleaseLease k o)).
Proof. apply quiet_store. intros s. apply release_view. Qed.
Lemma quiet_acquire_lease l k o d t : keeps (quiet l) (store (AcquireLease k o d t)).
Proof. apply quiet_store. intros s. apply acquire_view. Qed.

Lemma quiet_secrets l f : keeps (quiet (S := S) l) (write (λ w, set_secrets (f w) w)).
Proof. intros w. split; [|done]. split; [done|]. by exists []. Qed.
End Primitive.

#[export] Hint Resolve quiet_now quiet_newID quiet_load quiet_list quiet_save_observed quiet_fingerprints
  quiet_due quiet_history quiet_load_freeze quiet_release_lease quiet_acquire_lease quiet_secrets calm_store : frames.
#[export] Hint Extern 1 (keeps (quiet ?l) (ask _ _)) => apply quiet_ask; first [reflexivity | by destruct l] : frames.
#[export] Hint Extern 5 (keeps (calm _) _) => apply calm_of_quiet : frames.

(** ** The helpers *)
Section Helpers.
Context {S : Type} `{!Store S, !StoreLaws S}.
Context (env : Env) (e : Engine) (l : level).
Notation Q m := (keeps (quiet (S := S) l) m).

Lemma quiet_audit en : Q (audit_Record en).
Proof. unfold audit_Record. frame. Qed.
#[local] Hint Resolve quiet_audit : frames.
Lemma quiet_record en : Q (record e en).
Proof. unfold record. frame. Qed.
Lemma quiet_notify ev : Q (notifyEvent e ev).
Proof. unfold notifyEvent. frame. Qed.
#[local] Hint Resolve quiet_record quiet_notify : frames.

Lemma quiet_notifyDeployment k r d : Q (notifyDeployment e k r d).
Proof. unfold notifyDeployment. frame. Qed.
Lemma quiet_CheckApply g id t : Q (CheckApply env g id t).
Proof. unfold CheckApply. frame. Qed.
Lemma quiet_governance q : Q (governance_Evaluate env e q).
Proof. unfold governance_Evaluate. frame. Qed.
Lemma quiet_BuildTarget t : Q (BuildTarget env t).
Proof. unfold BuildTarget. frame. Qed.
#[local] Hint Resolve quiet_BuildTarget : frames.
Lemma quiet_build t : Q (build env t).
Proof. unfold build. frame. Qed.
Lemma quiet_rawTarget ref m : Q (rawTarget env ref m).
Proof. unfold rawTarget. frame. Qed.
Lemma quiet_buildTarget ref m : Q (buildTarget env ref m).
Proof. unfold buildTarget, build. frame. Qed.
Lemma quiet_Observe_target t : Q (target_Observe env t).
Proof. unfold target_Observe. frame. Qed.
Lemma quiet_Diff_target t m : Q (target_Diff env t m).
Proof. unfold target_Diff. frame. Qed.
Lemma quiet_Health_target t : Q (target_Health env t).
Proof. unfold target_Health. frame. Qed.
#[local] Hint Resolve quiet_build quiet_rawTarget quiet_Observe_target quiet_Diff_target quiet_Health_target : frames.

Lemma quiet_health_retry n t er : Q (health_retry env e n t er).
Proof. revert er. induction n as [|n IH]; intros er; simpl; frame. Qed.
#[local] Hint Resolve quiet_health_retry : frames.
Lemma quiet_healthWithRetry t : Q (healthWithRetry env e t).
Proof. unfold healthWithRetry. frame. Qed.
Lemma quiet_stamp ref m : Q (stampReferencedChecksum env ref m).
Proof. unfold stampReferencedChecksum. frame. Qed.
Lemma quiet_resolve_entries kvs out : Q (resolve_entries env e kvs out).
Proof. revert out. induction kvs as [|[k v] kvs IH]; intros out; simpl; frame. Qed.
#[local] Hint Resolve quiet_resolve_entries : frames.
Lemma quiet_resolveSecrets t : Q (resolveSecrets env e t).
Proof. unfold resolveSecrets. frame. Qed.
Lemma quiet_check_artifact mode v image : Q (check_artifact env mode v image).
Proof. unfold check_artifact. frame. Qed.
#[local] Hint Resolve quiet_check_artifact : frames.
Lemma quiet_apply_artifact ref t actor : Q (apply_artifact env e ref t actor).
Proof. unfold apply_artifact. frame. Qed.

Lemma quiet_riskWeights c : Q (riskWeights c).
Proof. unfold riskWeights. frame. Qed.
#[local] Hint Resolve quiet_riskWeights : frames.
Lemma quiet_EvaluateRisk c i : Q (EvaluateRisk env c i).
Proof. unfold EvaluateRisk. frame. Qed.
Lemma quiet_priorManifestErr ref sum : Q (priorManifestErr ref sum).
Proof. unfold priorManifestErr. frame. Qed.
#[local] Hint Resolve quiet_priorManifestErr : frames.
Lemma quiet_priorManifest ref sum : Q (priorManifest ref sum).
Proof. unfold priorManifest. frame. Qed.
Lemma quiet_rollbackBaseline ref m : Q (rollbackBaseline env e ref m).
Proof. unfold rollbackBaseline. frame. Qed.
Lemma quiet_InFlight ref : Q (InFlight ref).
Proof. unfold InFlight. frame. Qed.
End Helpers.

#[export] Hint Resolve quiet_audit quiet_record quiet_notify quiet_notifyDeployment quiet_CheckApply quiet_governance
  quiet_BuildTarget quiet_build quiet_rawTarget quiet_buildTarget quiet_Observe_target quiet_Diff_target
  quiet_Health_target quiet_health_retry quiet_healthWithRetry quiet_stamp quiet_resolve_entries
  quiet_resolveSecrets quiet_check_artifact quiet_apply_artifact quiet_riskWeights quiet_EvaluateRisk
  quiet_priorManifestErr quiet_priorManifest quiet_rollbackBaseline quiet_InFlight : frames.

(** ** Operations that run commands or deploy *)
Section Commands.
Context {S : Type} `{!Store S, !StoreLaws S}.
Context (env : Env) (e : Engine) (l : level).
Notation Q m := (keeps (quiet (S := S) l) m).

Section AtExec.
Context (Hl : level_le Exec l = true).

Lemma quiet_exec c : Q (exec env e c).
Proof. unfold exec. apply quiet_ask. by destruct l. Qed.
#[local] Hint Resolve quiet_exec : frames.
Lemma quiet_execSmoke c : Q (execSmoke env e c).
Proof. unfold execSmoke. frame. Qed.
Lemma quiet_execDB c : Q (execDBRollback env e c).
Proof. unfold execDBRollback. frame. Qed.
#[local] Hint Resolve quiet_execDB : frames.
Lemma quiet_runDatabaseCommand db : Q (runDatabaseCommand env e db).
Proof. unfold runDatabaseCommand. frame. Qed.
End AtExec.

(** The measurement loop keeps what the provider and the waiting keep. *)
Lemma keeps_analysis (R : World S → World S → Prop) `{!PreOrder R} sleep (a : Analyzer (World S)) :
  (∀ q, keeps R (mp_Query (an_provider a) q)) →
  (∀ f q, mp_Series (an_provider a) = Some f → keeps R (f q)) →
  (∀ d w, R w (sleep d w)) → keeps R (λ w, RunAnalysis sleep a w).
Proof.
  intros Hq Hs Hw.
  assert (∀ m, keeps R (λ w, queryMetric a m w)) as Hqm.
  { intros m w. unfold queryMetric. case_match; [apply Hq|].
    destruct (mp_Series (an_provider a)) as [f|] eqn:Hf; [|reflexivity].
    pose proof (Hs f (me_Query m) eq_refl w) as H1. by destruct (f (me_Query m) w) as [[|] w1]. }
  assert (∀ ms vals, keeps R (λ w, let '(v, er, w') := sample a ms vals w in ((v, er), w'))) as Hsm.
  { induction ms as [|m ms IH]; intros vals w; simpl; [reflexivity|].
    pose proof (Hqm m w) as H1. simpl in H1. destruct (queryMetric a m w) as [[v|er] w1]; simpl in *; [|done].
    transitivity w1; [done|]. apply (IH (<[me_Name m := v]> vals) w1). }
  assert (keeps R (λ w, measure a w)) as Hm.
  { intros w. unfold measure. pose proof (Hsm (te_Metrics (an_tmpl a)) ∅ w) as H1.
    cbv beta in H1 |- *. destruct (sample a _ _ w) as [[v er] w1]. exact H1. }
  intros w. unfold RunAnalysis.
  generalize (Z.to_nat (effective_count (an_tmpl a))) as n, true as first, 0 as fails, (@nil Measurement) as acc.
  intros n. revert w. induction n as [|n IH]; intros w first fails acc; cbn [run_loop]; [reflexivity|].
  match goal with |- context [measure a ?x] => set (w1 := x) end.
  assert (R w w1) as H1 by (unfold w1; case_match; [apply Hw|reflexivity]).
  pose proof (Hm w1) as H2. cbv beta in H2. destruct (measure a w1) as [mm w2]. simpl in H2.
  assert (R w w2) as H3 by (by transitivity w1).
  case_match; [case_match; [done|]|]; (etransitivity; [exact H3|apply IH]).
Qed.

Lemma quiet_wait d (w : World S) : quiet l w (wait d w).
Proof. apply (quiet_ask l (EWait d) (λ _, tt)). by destruct l. Qed.
End Commands.

Section Gates.
Context {S : Type} `{!Store S, !StoreLaws S}.
Context (env : Env) (e : Engine) (l : level) (Hl : level_le Exec l = true).
Notation Q m := (keeps (quiet (S := S) l) m).
#[local] Hint Resolve quiet_execSmoke quiet_runDatabaseCommand : frames.

Lemma quiet_metrics_provider a : Q (metrics_provider env e a).
Proof. unfold metrics_provider. frame. Qed.
#[local] Hint Resolve quiet_metrics_provider : frames.

Lemma metrics_provider_outside a w p w' :
  metrics_provider (S := S) env e a w = (Ok p, w') → p = outside_metrics env.
Proof.
  unfold metrics_provider, on_error, mbind, M_bind, mret, M_ret, ask. intros H.
  repeat case_match; by simplify_eq.
Qed.

Lemma quiet_outside_run tmpl prog :
  Q (λ w, RunAnalysis wait {| an_provider := outside_metrics env; an_tmpl := tmpl; an_prog := prog |} w).
Proof.
  apply keeps_analysis; [apply _|..].
  - intros q. apply quiet_ask. by destruct l.
  - intros f q. simpl. destruct (o_series_capable env); intros [= <-]. apply quiet_ask. by destruct l.
  - intros d w. apply quiet_wait.
Qed.

Lemma NewAnalyzer_provider {W} cel (p : MetricsProvider W) t a :
  NewAnalyzer cel p t = Ok a → an_provider a = p.
Proof. unfold NewAnalyzer. intros H. by repeat (case_match; simplify_eq/=). Qed.

Lemma quiet_runAnalysis a : Q (runAnalysis env e a).
Proof.
  intros w. unfold runAnalysis, on_result, mbind, M_bind.
  pose proof (quiet_metrics_provider a w) as H1.
  destruct (metrics_provider env e a w) as [[p|er] w1] eqn:Hp; [|done]. simpl in H1.
  apply metrics_provider_outside in Hp. subst p.
  destruct (NewAnalyzer _ _ _) as [an|] eqn:Ha; [|done].
  apply NewAnalyzer_provider in Ha. destruct an as [pr tm pg]. simpl in Ha. subst pr.
  pose proof (quiet_outside_run tm pg w1) as H2. simpl in H2.
  destruct (RunAnalysis wait _ w1) as [res w2]. simpl in *.
  etransitivity; [exact H1|exact H2].
Qed.
#[local] Hint Resolve quiet_runAnalysis : frames.

Lemma quiet_gateHealth r : Q (gateHealth env e r).
Proof. unfold gateHealth. frame. Qed.
Lemma quiet_gateSmoke st : Q (gateSmoke env e st).
Proof. unfold gateSmoke. frame. Qed.
Lemma quiet_gateAnalysis a : Q (gateAnalysis env e a).
Proof. unfold gateAnalysis. frame. Qed.
#[local] Hint Resolve quiet_gateHealth quiet_gateSmoke quiet_gateAnalysis : frames.

Lemma quiet_run_gate acc en d g : Q g → Q (run_gate acc en d g).
Proof. intros Hg. unfold run_gate. frame. Qed.

Lemma quiet_runGates r gs : Q (runGates env e r gs).
Proof.
  unfold runGates. apply keeps_bind; [apply _|apply quiet_run_gate; frame|intros ?].
  apply keeps_bind; [apply _|apply quiet_run_gate; frame|intros ?].
  apply keeps_bind; [apply _|apply quiet_run_gate; frame|intros [? ?]]. frame.
Qed.
#[local] Hint Resolve quiet_runGates : frames.

Lemma quiet_runPostDeployChecks r c : Q (runPostDeployChecks env e r c).
Proof. unfold runPostDeployChecks. frame. Qed.
Lemma quiet_Verify id : Q (Verify env e id).
Proof. unfold Verify. frame. Qed.
End Gates.
