(* ===== verification/EngineLocks.v ===== *)
(** * Engine: locks and the frames of every operation

    The target lock ([locks.go]) as a frame: an operation that takes it puts it
    back, whatever happens in between; and the frames of the deploy and control
    operations, which hold for any lawful statekit interpreter because the step
    machine's actions only run the health gate. *)

From S2P Require Import Prelude GoTime Statekit Config Progressive Model Lifecycle Risk Analysis.
From S2P Require Import Security Store World EngineBase EngineGates EngineRollback EngineDeploy Frame.

(** ** Acquiring *)
Section Acquire.
Context {S : Type} `{!Store S, !StoreLaws S}.
Context (env : Env) (e : Engine).
Implicit Types (w : World S).

(** Everything but the locks is as before. *)
Definition only_locks w w' : Prop :=
  w_trace w' = w_trace w ∧ same_view (w_store w) (w_store w') ∧ w_freeze w' = w_freeze w ∧
  (w_tick w ≤ w_tick w')%nat.

Lemma acquire_spec ref w :
  let '(r, w') := acquireTarget env e ref w in
  only_locks w w' ∧
  match r with
  | Ok true => ref ∉ w_locks w ∧ w_locks w' = {[ref]} ∪ w_locks w
  | _ => w_locks w' = w_locks w
  end ∧
  (ref ∈ w_locks w → r = Ok false).
Proof.
  unfold acquireTarget, TryAcquire, on_result, localRelease, store, now, read, write, mbind, M_bind, mret, M_ret.
  destruct (decide (ref ∈ w_locks w)) as [Hin|Hout].
  { rewrite bool_decide_eq_true_2 by done. simpl. split_and!; done. }
  rewrite bool_decide_eq_false_2 by done. simpl.
  assert (({[ref]} ∪ w_locks w) ∖ {[ref]} = w_locks w) as Hback by set_solver.
  destruct has_leases; simpl; [|by split_and!].
  pose proof (acquire_view ("target:" +:+ ref) (e_owner e) (e_leaseTTL e) (o_now env (w_tick w)) (w_store w)) as Hv.
  destruct (AcquireLease _ _ _ _ (w_store w)) as [[[]|er] s]; simpl in *; rewrite ?Hback;
    unfold only_locks; split_and!; first [done|simpl; lia].
Qed.

Lemma release_spec ref w :
  let w' := (releaseTarget e ref w).2 in
  only_locks w w' ∧ w_locks w' = w_locks w ∖ {[ref]}.
Proof.
  unfold releaseTarget, localRelease, store, write, mbind, M_bind, mret, M_ret.
  destruct has_leases; simpl; [|by split_and!].
  pose proof (release_view ("target:" +:+ ref) (e_owner e) (w_store w)) as Hv.
  destruct (ReleaseLease _ _ (w_store w)) as [r s]; simpl in *. by split_and!.
Qed.

(** The lock rules: what a body does under the lock holds of the acquisition
    and release around it. *)
Lemma with_target_acquires {A} ref (failed : err → A) (body : M S A) w :
  let w1 := (acquireTarget env e ref w).2 in
  only_locks w w1 ∧
    ((∃ er, with_target env e ref failed body w = (failed er, w1) ∧ w_locks w1 = w_locks w) ∨
     (ref ∉ w_locks w ∧ w_locks w1 = {[ref]} ∪ w_locks w ∧
      ∃ w3, with_target env e ref failed body w = ((body w1).1, w3) ∧ only_locks (body w1).2 w3 ∧
            w_locks w3 = w_locks (body w1).2 ∖ {[ref]})).
Proof.
  unfold with_target, on_result, deferred, mbind, M_bind, mret, M_ret.
  pose proof (acquire_spec ref w) as Ha. destruct (acquireTarget env e ref w) as [r w1].
  destruct Ha as (Ho & Hl & _). split; [done|]. destruct r as [[]|er]; [right|left; eauto..].
  destruct Hl as [Hn Hl]. split_and!; [done..|]. cbn [snd]. destruct (body w1) as [a w2].
  pose proof (release_spec ref w2) as Hr. destruct (releaseTarget e ref w2) as [u w3]. exists w3. by destruct Hr.
Qed.

Lemma with_target_run {A} ref (failed : err → A) (body : M S A) w :
  ∃ w1, only_locks w w1 ∧
    ((∃ er, with_target env e ref failed body w = (failed er, w1) ∧ w_locks w1 = w_locks w) ∨
     (ref ∉ w_locks w ∧ w_locks w1 = {[ref]} ∪ w_locks w ∧
      ∃ w3, with_target env e ref failed body w = ((body w1).1, w3) ∧ only_locks (body w1).2 w3 ∧
            w_locks w3 = w_locks (body w1).2 ∖ {[ref]})).
Proof. exists (acquireTarget env e ref w).2. apply with_target_acquires. Qed.

(** What lies between an acquisition and its release, seen from outside. *)
Lemma calm_locked l ref w w1 w2 w3 :
  only_locks w w1 → ref ∉ w_locks w → w_locks w1 = {[ref]} ∪ w_locks w → calm l w1 w2 →
  only_locks w2 w3 → w_locks w3 = w_locks w2 ∖ {[ref]} → calm l w w3.
Proof.
  intros (Ht & _ & _ & Hk) Hn Hl [[Hlb Hkb] (tr & Htr & Hf)] (Ht3 & _ & _ & Hk3) Hl3. split.
  - split; [|lia]. rewrite Hl3, Hlb, Hl. set_solver.
  - exists tr. by rewrite Ht3, Htr, Ht.
Qed.

Lemma quiet_locked l ref w w1 w2 w3 :
  only_locks w w1 → ref ∉ w_locks w → w_locks w1 = {[ref]} ∪ w_locks w → quiet l w1 w2 →
  only_locks w2 w3 → w_locks w3 = w_locks w2 ∖ {[ref]} → quiet l w w3.
Proof.
  intros Ho Hn Hl (Hc & Hv2 & Hz2) Ho3 Hl3. split; [by eapply calm_locked|].
  destruct Ho as (_ & Hv & Hz & _), Ho3 as (_ & Hv3 & Hz3 & _). split; [|congruence].
  etransitivity; [exact Hv|]. etransitivity; [exact Hv2|done].
Qed.

Lemma calm_with_target_at {A} l ref (failed : err → A) (body : M S A) w :
  (∀ w1, only_locks w w1 → calm l w1 (body w1).2) → calm l w (with_target env e ref failed body w).2.
Proof.
  intros Hb. destruct (with_target_run ref failed body w) as (w1 & Ho & [(er & -> & Hl)|Hrun]).
  - destruct Ho as (Ht & _ & _ & Hk). split; [done|]. exists []. simpl. by rewrite Ht.
  - destruct Hrun as (Hn & Hl & w3 & -> & Ho3 & Hl3). eapply calm_locked; [done..|by apply Hb|done|done].
Qed.

Lemma quiet_with_target_at {A} l ref (failed : err → A) (body : M S A) w :
  (∀ w1, only_locks w w1 → quiet l w1 (body w1).2) → quiet l w (with_target env e ref failed body w).2.
Proof.
  intros Hb. split; [apply calm_with_target_at; intros; by apply quiet_calm, Hb|].
  destruct (with_target_run ref failed body w) as (w1 & Ho & [(er & -> & Hl)|Hrun]); [by destruct Ho as (_ & ? & ? & _)|].
  destruct Hrun as (Hn & Hl & w3 & -> & Ho3 & Hl3). eapply quiet_locked; [done..|by apply Hb|done|done].
Qed.

Lemma result_with_target {A} (P : A → Prop) ref (failed : err → A) (body : M S A) w :
  (∀ er, P (failed er)) → (∀ w1, only_locks w w1 → P (body w1).1) → P (with_target env e ref failed body w).1.
Proof.
  intros Hf Hb. destruct (with_target_run ref failed body w) as (w1 & Ho & [(er & -> & _)|Hrun]); [apply Hf|].
  destruct Hrun as (_ & _ & w3 & -> & _). by apply Hb.
Qed.

(** The same of the one world the body runs in. *)
Lemma refused_with_target {A} l (P : A → Prop) ref (failed : err → A) (body : M S A) w :
  let w1 := (acquireTarget env e ref w).2 in
  (∀ er, P (failed er)) → quiet l w1 (body w1).2 ∧ P (body w1).1 →
  quiet l w (with_target env e ref failed body w).2 ∧ P (with_target env e ref failed body w).1.
Proof.
  intros w1 Hf [Hq Hp]. destruct (with_target_acquires ref failed body w) as (Ho & [(er & -> & Hl)|Hrun]); fold w1 in Ho.
  - split; [|apply Hf]. cbn [snd]. destruct Ho as (Ht & Hv & Hz & Hk). split; [|done]. split; [by split|]. exists []. by split; [exact Ht|constructor].
  - destruct Hrun as (Hn & Hl & w3 & -> & Ho3 & Hl3). split; [|done]. by eapply quiet_locked.
Qed.

Lemma calm_with_target {A} l ref (failed : err → A) (body : M S A) :
  keeps (calm l) body → keeps (calm l) (with_target env e ref failed body).
Proof. intros Hb w. apply calm_with_target_at. intros; apply Hb. Qed.

(** A busy target is not touched: the body does not run. *)
Lemma with_target_busy {A} ref (failed : err → A) (body : M S A) w :
  ref ∈ w_locks w →
  ∃ w', with_target env e ref failed body w = (failed ErrTargetBusy, w') ∧
        only_locks w w' ∧ w_locks w' = w_locks w.
Proof.
  intros Hin. unfold with_target, on_result, mbind, M_bind, mret, M_ret.
  pose proof (acquire_spec ref w) as Ha. destruct (acquireTarget env e ref w) as [r w1].
  destruct Ha as (Ho & Hl & Hbusy). rewrite Hbusy in * by done. eauto.
Qed.
End Acquire.
#[export] Hint Resolve calm_with_target : frames.

(** ** The step machine's world *)
Lemma assoc_elem {K V} `{EqDecision K} (k : K) (l : list (K * V)) v : assoc k l = Some v → (k, v) ∈ l.
Proof.
  induction l as [|[k' v'] l IH]; simpl; [done|]. case_bool_decide; subst; intros ?; simplify_eq; set_solver.
Qed.

Section MachineWorld.
Context {St C W : Type} `{EqDecision St} (R : W → W → Prop) `{!PreOrder R}.
Implicit Types (m : MachineConfig St C W).

(** All actions of the machine stay within [R]. *)
Definition actions_keep m : Prop := ∀ a f, (a, f) ∈ mc_actions m → ∀ c w, R w (f c w).2.

Lemma run_entry_keeps m s c w : actions_keep m → R w (run_entry m s c w).2.
Proof.
  intros Hm. unfold run_entry. repeat (case_match; try reflexivity). eapply Hm. by eapply assoc_elem.
Qed.

Lemma entered_keeps m s c w out : actions_keep m → entered m s c w out → R w out.2.
Proof.
  intros Hm. unfold entered. pose proof (run_entry_keeps m s c w Hm) as H1.
  destruct (run_entry m s c w) as [c1 w1]. simpl in H1.
  destruct (first_enabled _ _ _) as [t|]; [|by intros ->].
  pose proof (run_entry_keeps m t c1 w1 Hm) as H2. destruct (run_entry m t c1 w1) as [c2 w2].
  simpl in H2. intros [->| ->]; [done|by transitivity w1].
Qed.

Context `{!Statechart St C W, !StatechartLaws St C W}.

Lemma start_keeps m c w : actions_keep m → R w (sc_start m c w).2.
Proof. intros Hm. eapply entered_keeps; [done|apply start_spec]. Qed.
Lemma send_keeps m s c ev w : actions_keep m → R w (sc_send m s c ev w).2.
Proof.
  intros Hm. pose proof (send_spec m s c ev w) as H. destruct (event_target _ _ _ _); [by eapply entered_keeps|].
  rewrite H. reflexivity.
Qed.
Lemma advance_keeps m s c d w : actions_keep m → R w (sc_advance m s c d w).2.
Proof.
  intros Hm. pose proof (advance_spec m s c d w) as H. destruct (timer_target _ _ _ _); [by eapply entered_keeps|].
  rewrite H. reflexivity.
Qed.
End MachineWorld.

Section StepFrames.
Context {S : Type} `{!Store S, !StoreLaws S}.
Notation HW := (EngineDeploy.HW (S := S)).
Context `{!Statechart StepState StepContext HW, !StatechartLaws StepState StepContext HW}.
Context (env : Env) (e : Engine) (l : level).

Definition hw_quiet (x y : HW) : Prop := quiet l x.1 y.1.
#[global] Instance hw_quiet_preorder : PreOrder hw_quiet.
Proof. split; unfold hw_quiet; [intros x; reflexivity|]. intros x y z H1 H2. by transitivity (y.1). Qed.

Definition tame (m : MachineConfig StepState StepContext HW) : Prop := actions_keep hw_quiet m.

Lemma step_actions_health h i steps a f :
  (a, f) ∈ step_actions (W := HW) h i steps → ∃ j weight, f = enter_action h j weight.
Proof.
  revert i. induction steps as [|s steps IH]; intros i; simpl; [set_solver|].
  rewrite elem_of_cons. intros [[= -> ->]|H]; [eauto|by eapply IH].
Qed.

Lemma tame_machine plan h :
  (∀ j weight x, hw_quiet x (h j weight x).2) → tame (step_machine plan h).
Proof.
  intros Hh a f Hin c x. apply step_actions_health in Hin as (j & weight & ->).
  unfold enter_action. specialize (Hh j weight x). by destruct (h j weight x) as [ok x1].
Qed.

Lemma stepHealth_quiet tgt j weight x : hw_quiet x (stepHealth env e tgt j weight x).2.
Proof.
  destruct x as [w h]. unfold stepHealth, hw_quiet.
  pose proof (quiet_healthWithRetry env e l tgt w) as H. destruct (healthWithRetry env e tgt w) as [[hs|er] w1]; [|done].
  simpl in *. by case_bool_decide.
Qed.

Lemma tame_stepHealth plan tgt : tame (step_machine plan (stepHealth env e tgt)).
Proof. apply tame_machine. intros. apply stepHealth_quiet. Qed.
Lemma tame_healthy plan : tame (step_machine plan always_healthy).
Proof. apply tame_machine. intros j weight x. simpl. reflexivity. Qed.

Lemma quiet_step_op {A} (f : HW → A * HW) h : (∀ x, hw_quiet x (f x).2) → keeps (quiet l) (step_op f h).
Proof.
  intros Hf w. unfold step_op. specialize (Hf (w, h)). destruct (f (w, h)) as [a [w1 h1]]. done.
Qed.

Lemma quiet_send s ev h : tame (sp_machine s) → keeps (quiet l) (step_op (Progressive.send s ev) h).
Proof. intros Ht. apply quiet_step_op. intros x. unfold Progressive.send, with_out. simpl. apply (send_keeps hw_quiet). exact Ht. Qed.
Lemma quiet_advance s d h : tame (sp_machine s) → keeps (quiet l) (step_op (Advance s d) h).
Proof. intros Ht. apply quiet_step_op. intros x. unfold Advance, with_out. simpl. apply (advance_keeps hw_quiet). exact Ht. Qed.
Lemma quiet_NewStepper m h : tame m → keeps (quiet l) (step_op (NewStepper m) h).
Proof. intros Ht. apply quiet_step_op. intros x. unfold NewStepper, with_out. simpl. apply (start_keeps hw_quiet). exact Ht. Qed.
End StepFrames.

(** A bind whose continuation may use what every result satisfies. *)
Lemma keeps_bind_post {S A B} (R : World S → World S → Prop) `{!PreOrder R} (P : A → Prop) (m : M S A) (k : A → M S B) :
  keeps R m → (∀ w, P (m w).1) → (∀ a, P a → keeps R (k a)) → keeps R (m ≫= k).
Proof.
  intros Hm HP Hk w. unfold mbind, M_bind. specialize (Hm w). specialize (HP w). destruct (m w) as [a w1].
  simpl in *. transitivity w1; [done|by apply Hk].
Qed.

(** [frame], stopping at a stepper operation. *)
Ltac frame_to_step :=
  repeat match goal with
  | |- keeps _ (mbind _ (step_op _ _)) => fail 1
  | _ => frame_step
  end.

(** ** Every operation puts its locks back *)
Section Operations.
Context {S : Type} `{!Store S, !StoreLaws S}.
Notation HW := (EngineDeploy.HW (S := S)).
Context `{!Statechart Phase LifeContext unit}.
Context `{!Statechart StepState StepContext HW, !StatechartLaws StepState StepContext HW}.
Context (env : Env) (e : Engine).
Notation C m := (keeps (calm (S := S) All) m).
Notation Q m := (keeps (quiet (S := S) All) m).

Lemma quiet_database db : Q (runDatabaseCommand env e db).
Proof. by apply quiet_runDatabaseCommand. Qed.
Lemma quiet_gates r gs : Q (runGates env e r gs).
Proof. by apply quiet_runGates. Qed.
Lemma quiet_checks r c : Q (runPostDeployChecks env e r c).
Proof. by apply quiet_runPostDeployChecks. Qed.
#[local] Hint Resolve quiet_database quiet_gates quiet_checks : frames.

Lemma quiet_target_Apply t m : Q (target_Apply env t m).
Proof. unfold target_Apply. frame. Qed.
Lemma quiet_driveTraffic ref tr weight : Q (driveTraffic env e ref tr weight).
Proof. unfold driveTraffic, trafficrouting_Apply. frame. Qed.
Lemma quiet_driveFlag ref ff p : Q (driveFlag env e ref ff p).
Proof. unfold driveFlag, featureflags_Apply. frame. Qed.
Lemma quiet_driveFlagDisable ref ff : Q (driveFlagDisable env e ref ff).
Proof. unfold driveFlagDisable, featureflags_Apply. frame. Qed.
#[local] Hint Resolve quiet_target_Apply quiet_driveTraffic quiet_driveFlag quiet_driveFlagDisable : frames.
Lemma quiet_resetDelivery r : Q (resetDelivery env e r).
Proof. unfold resetDelivery. frame. Qed.
Lemma quiet_deployOnce cfg t m : Q (deployOnce env e cfg t m).
Proof. unfold deployOnce. frame. Qed.
Lemma quiet_still_baking p t : Q (still_baking env p t).
Proof. unfold still_baking. frame. Qed.
#[local] Hint Resolve quiet_resetDelivery quiet_deployOnce quiet_still_baking : frames.

Lemma calm_save r : C (save r).
Proof. apply calm_store. Qed.
#[local] Hint Resolve calm_save : frames.
Lemma calm_applyRollback r prior note db force : C (applyRollback env e r prior note db force).
Proof. unfold applyRollback. frame. Qed.
#[local] Hint Resolve calm_applyRollback : frames.
Lemma calm_rollbackWithDatabase id prior note db force : C (rollbackWithDatabase env e id prior note db force).
Proof. unfold rollbackWithDatabase. frame. apply calm_with_target. frame. Qed.
#[local] Hint Resolve calm_rollbackWithDatabase : frames.
Lemma calm_Rollback id prior force : C (Rollback env e id prior force).
Proof. apply calm_rollbackWithDatabase. Qed.
#[local] Hint Resolve calm_Rollback : frames.
Lemma calm_RollbackLast ref force : C (RollbackLast env e ref force).
Proof. unfold RollbackLast. frame. Qed.
Lemma calm_finish_promote r note : C (finish_promote env r note).
Proof. unfold finish_promote. frame. Qed.
#[local] Hint Resolve calm_finish_promote : frames.
Lemma calm_promoteWithNote id note : C (promoteWithNote env e id note).
Proof. unfold promoteWithNote. frame. Qed.
#[local] Hint Resolve calm_promoteWithNote : frames.
Lemma calm_promote_commit id by_ force note : C (promote_commit env e id by_ force note).
Proof. unfold promote_commit. frame. Qed.
#[local] Hint Resolve calm_promote_commit : frames.
Lemma calm_Promote id by_ force : C (Promote env e id by_ force).
Proof. unfold Promote. frame. Qed.
Lemma calm_VerifyOrRollback id prior c : C (VerifyOrRollback env e id prior c).
Proof. unfold VerifyOrRollback. frame. Qed.
Lemma calm_approve_deploy r by_ : C (approve_deploy env r by_).
Proof. unfold approve_deploy. frame. Qed.
#[local] Hint Resolve calm_approve_deploy : frames.
Lemma calm_Approve id by_ : C (Approve env e id by_).
Proof. unfold Approve. frame. apply calm_with_target. frame. Qed.
Lemma calm_Reject id by_ : C (Reject env id by_).
Proof. unfold Reject. frame. Qed.

(** The deploy path. *)
Lemma calm_SetFreeze on by_ reason : C (SetFreeze env e on by_ reason).
Proof.
  unfold SetFreeze. frame. intros w. split; [done|]. by exists [].
Qed.
Lemma calm_fail_mark lc r er actor : C (fail_mark env e lc r er actor).
Proof. unfold fail_mark. frame. Qed.
#[local] Hint Resolve calm_fail_mark : frames.
Lemma calm_failProgressive lc r cfg m er actor : C (failProgressive env e lc r cfg m er actor).
Proof. unfold failProgressive. frame. Qed.
Lemma calm_recordStep plan cfg s r : C (recordStep env e plan cfg s r).
Proof. unfold recordStep. frame. Qed.
Lemma calm_recover r why : C (recoverInterrupted env e r why).
Proof. unfold recoverInterrupted. frame. Qed.
Lemma calm_drive_finish lc cfg plan s r t actor : C (drive_finish env e lc cfg plan s r t actor).
Proof. unfold drive_finish. frame. Qed.
#[local] Hint Resolve calm_failProgressive calm_recordStep calm_recover calm_drive_finish : frames.

Lemma step_op_machine (s : Stepper HW) st h :
  let f := if Progressive.Pause st =? 0 then StepperNext s else Advance s (Progressive.Pause st) in
  ∀ w, sp_machine (step_op f h w).1.1 = sp_machine s.
Proof.
  intros f w. unfold step_op, f. by destruct (Progressive.Pause st =? 0); simpl;
    [destruct (sc_send _ _ _ _ _) as [[? ?] [? ?]]|destruct (sc_advance _ _ _ _ _) as [[? ?] [? ?]]].
Qed.

Lemma calm_step_op (s : Stepper HW) st h :
  tame All (sp_machine s) →
  C (step_op (if Progressive.Pause st =? 0 then StepperNext s else Advance s (Progressive.Pause st)) h).
Proof.
  intros Ht. apply calm_of_quiet. destruct (Progressive.Pause st =? 0); [by apply quiet_send|by apply quiet_advance].
Qed.

Lemma calm_drive_loop fuel plan cfg s h r t :
  tame All (sp_machine s) → C (drive_loop env e fuel plan cfg s h r t).
Proof.
  revert s h r t. induction fuel as [|fuel IH]; intros s h r t Ht; cbn [drive_loop]; frame_to_step.
  apply (keeps_bind_post _ (λ a, sp_machine a.1 = sp_machine s)); [by apply calm_step_op|apply step_op_machine|].
  intros [s' h'] Hs. simpl in Hs. frame; apply IH; by rewrite Hs.
Qed.

Lemma calm_driveStepper lc r cfg plan s t h actor :
  tame All (sp_machine s) → C (driveStepper env e lc r cfg plan s t h actor).
Proof. intros Ht. unfold driveStepper. frame. by apply calm_drive_loop. Qed.

Lemma built_machine plan (h : StepHealth HW) m : BuildStepMachine plan (Some h) = Ok m → m = step_machine plan h.
Proof. unfold BuildStepMachine. by case_match; intros; simplify_eq/=. Qed.

Lemma calm_startStepper lc r cfg tgt actor : C (startStepper env e lc r cfg tgt actor).
Proof.
  unfold startStepper. frame_to_step.
  match goal with H : BuildStepMachine _ _ = Ok ?m |- _ =>
    assert (tame All m) as Ht by (apply built_machine in H as ->; apply tame_stepHealth) end.
  apply (keeps_bind_post _ (λ a, tame All (sp_machine a.1))); [apply calm_of_quiet, (quiet_NewStepper All); exact Ht| |].
  - intros w. unfold step_op, NewStepper, with_out. simpl. by destruct (sc_start _ _ _) as [[? ?] [? ?]].
  - intros [s h] Hs. frame. by apply calm_driveStepper.
Qed.
#[local] Hint Resolve calm_startStepper : frames.

Lemma restored_machine (m : MachineConfig StepState StepContext HW) snap s :
  RestoreStepper m snap = Ok s → sp_machine s = m.
Proof. unfold RestoreStepper. intros H. by repeat case_match; simplify_eq/=. Qed.

Lemma calm_stepHealth_op tgt i weight h : C (step_op (stepHealth env e tgt i weight) h).
Proof. apply calm_of_quiet, quiet_step_op. intros x. apply stepHealth_quiet. Qed.
#[local] Hint Resolve calm_stepHealth_op : frames.

Lemma calm_tick_drive r cfg tgt p s : tame All (sp_machine s) → C (tick_drive env e r cfg tgt p s).
Proof. intros Ht. unfold tick_drive. frame; by apply calm_driveStepper. Qed.

Lemma calm_tick_locked r cfg : C (tick_locked env e r cfg).
Proof.
  unfold tick_locked. frame. apply calm_tick_drive. erewrite restored_machine by done.
  match goal with H : BuildStepMachine _ _ = Ok _ |- _ => apply built_machine in H as -> end. apply tame_stepHealth.
Qed.
#[local] Hint Resolve calm_tick_locked : frames.

Lemma calm_Tick id cfg : C (Tick env e id cfg).
Proof. unfold Tick. frame. Qed.

Lemma calm_apply_gates req : C (apply_gates env e req).
Proof. unfold apply_gates. frame. Qed.
Lemma calm_apply_commit req lc r m tgt : C (apply_commit env e req lc r m tgt).
Proof. unfold apply_commit. frame. Qed.
#[local] Hint Resolve calm_apply_gates calm_apply_commit : frames.
Lemma calm_apply_locked req need score : C (apply_locked env e req need score).
Proof. unfold apply_locked. frame. Qed.
#[local] Hint Resolve calm_apply_locked : frames.
Lemma calm_Apply req : C (Apply env e req).
Proof. unfold Apply. frame. Qed.

Lemma quiet_restoreControlStepper r : Q (restoreControlStepper env r).
Proof. unfold restoreControlStepper. frame. Qed.
Lemma calm_saveControl r lc s plan t by_ a d : C (saveControl env e r lc s plan t by_ a d).
Proof. unfold saveControl. frame. Qed.
Lemma calm_abort_in_place r by_ n a : C (abort_in_place env e r by_ n a).
Proof. unfold abort_in_place. frame. Qed.
#[local] Hint Resolve quiet_restoreControlStepper calm_saveControl calm_abort_in_place : frames.

Lemma restored_tame r w : 
  match (restoreControlStepper env r w).1 with Ok (s, _) => tame All (sp_machine s) | Err _ => True end.
Proof.
  unfold restoreControlStepper, mbind, M_bind, mret, M_ret, now.
  repeat case_match; simplify_eq/=; repeat case_match; simplify_eq/=; try done.
  erewrite restored_machine by done.
  match goal with H : BuildStepMachine _ None = Ok _ |- _ => unfold BuildStepMachine in H; repeat case_match; simplify_eq/= end.
  apply tame_healthy.
Qed.

Lemma calm_restored {A} r (h : err → M S A) k :
  (∀ er, C (h er)) → (∀ s p, tame All (sp_machine s) → C (k (s, p))) →
  C (on_result (restoreControlStepper env r) h k).
Proof.
  intros Hh Hk. unfold on_result.
  apply (keeps_bind_post _ (λ res, match res with Ok (s, _) => tame All (sp_machine s) | Err _ => True end));
    [frame|apply restored_tame|].
  intros [[s p]|er]; [apply Hk|by intros _].
Qed.

Lemma calm_hold_target id body : (∀ r, C (body r)) → C (hold_target env e id body).
Proof. intros Hb. unfold hold_target. frame. Qed.

Lemma calm_control s ev h : tame All (sp_machine s) → C (step_op (Progressive.send s ev) h).
Proof. intros Ht. apply calm_of_quiet. by apply quiet_send. Qed.

Lemma calm_Pause id by_ : C (Pause env e id by_).
Proof.
  apply calm_hold_target. intros r. case_match; [frame|]. apply calm_restored; [intros; frame|]. intros s p Ht.
  apply keeps_bind; [apply _|by apply calm_control|intros [? ?]]. frame.
Qed.
Lemma calm_Resume id by_ : C (Resume env e id by_).
Proof.
  apply calm_hold_target. intros r. case_match; [frame|]. apply calm_restored; [intros; frame|]. intros s p Ht.
  apply keeps_bind; [apply _|by apply calm_control|intros [? ?]]. frame.
Qed.
Lemma calm_Abort id by_ : C (Abort env e id by_).
Proof.
  apply calm_hold_target. intros r. case_match; [frame|]. apply keeps_bind; [apply _| |intros ?; cbv zeta; frame].
  case_match; [|frame]. apply calm_restored; [intros; frame|]. intros s p Ht.
  apply keeps_bind; [apply _|by apply calm_control|intros; frame].
Qed.

Lemma calm_scheduled_deploy s : C (scheduled_deploy env s).
Proof. unfold scheduled_deploy. frame. Qed.
#[local] Hint Resolve calm_scheduled_deploy : frames.
Lemma calm_applyScheduled s : C (applyScheduled env e s).
Proof. apply calm_with_target. frame. Qed.
#[local] Hint Resolve calm_applyScheduled : frames.
Lemma calm_fire_all due : C (fire_all env e due).
Proof. induction due as [|s due IH]; simpl; frame. Qed.
#[local] Hint Resolve calm_fire_all : frames.
Lemma calm_FireDueSchedules t : C (FireDueSchedules env e t).
Proof. unfold FireDueSchedules. frame. Qed.
End Operations.
