(* ===== verification/EngineMoves.v ===== *)
(** * Engine: how stored rollouts move

    A small program logic over the engine's monad - triples whose precondition
    survives every quiet call - and with it the invariant of the store: whatever
    the operations do, a stored rollout only moves along the lifecycle chart and
    keeps its target, initiator and creation time. *)

From S2P Require Import Prelude GoTime Statekit Config Progressive Model Lifecycle Risk Analysis.
From S2P Require Import Security Store World EngineBase EngineGates EngineRollback EngineDeploy Frame EngineLocks.

(** ** Triples *)
Section Triples.
Context {S : Type} `{!Store S, !StoreLaws S}.
Implicit Types (w : World S) (P : World S → Prop).

Definition triple {A} P (m : M S A) (Q : A → World S → Prop) : Prop := ∀ w, P w → Q (m w).1 (m w).2.

(** The store's view as before, the clock and the trace not set back. *)
Definition still w w' : Prop :=
  same_view (w_store w) (w_store w') ∧ (w_tick w ≤ w_tick w')%nat ∧ grew All w w'.

Class Stable P : Prop := stable : ∀ w w', still w w' → P w → P w'.

Lemma still_quiet l w w' : quiet l w w' → still w w'.
Proof. intros ([[_ ?] Hg] & ? & _). split_and!; [done..|]. eapply grew_mono; [|exact Hg]. by destruct l. Qed.
Lemma still_locks w w' : only_locks w w' → still w w'.
Proof. intros (Ht & ? & _ & ?). split_and!; [done..|]. exists []. by rewrite Ht. Qed.
Lemma still_store s w : same_view (w_store w) s → still w (set_store s w).
Proof. intros Hv. split_and!; [done|done|by exists []]. Qed.

Lemma t_ret {A} P (a : A) Q : (∀ w, P w → Q a w) → triple P (mret a) Q.
Proof. intros H w. apply H. Qed.

Lemma t_bind {A B} P (m : M S A) (k : A → M S B) Q' Q :
  triple P m Q' → (∀ a, triple (Q' a) (k a) Q) → triple P (m ≫= k) Q.
Proof.
  intros Hm Hk w HP. specialize (Hm w HP). unfold mbind, M_bind. destruct (m w) as [a w1]. by apply Hk.
Qed.

Lemma t_pre {A} P P' (m : M S A) Q : (∀ w, P w → P' w) → triple P' m Q → triple P m Q.
Proof. intros H Ht w HP. by apply Ht, H. Qed.
Lemma t_post {A} P (m : M S A) Q Q' : (∀ a w, Q' a w → Q a w) → triple P m Q' → triple P m Q.
Proof. intros H Ht w HP. by apply H, Ht. Qed.
Lemma t_fact {A} (F : Prop) P (m : M S A) Q : (F → triple P m Q) → triple (λ w, F ∧ P w) m Q.
Proof. intros H w [HF HP]. by apply H. Qed.

(** A call of whose result only the fact [F] matters. *)
Lemma t_bind_fact {A B} (F : A → Prop) (m : M S A) (k : A → M S B) Q :
  (∀ w, F (m w).1) → (∀ a, F a → triple (λ _, True) (k a) Q) → triple (λ _, True) (m ≫= k) Q.
Proof.
  intros HF Hk w _. specialize (HF w). unfold mbind, M_bind. destruct (m w) as [a w1]. by apply Hk.
Qed.

(** A quiet call whose results satisfy [F]. *)
Lemma t_quiet_fact {A B} l P `{!Stable P} (F : A → Prop) (m : M S A) (k : A → M S B) Q :
  keeps (quiet l) m → (∀ w, F (m w).1) → (∀ a, F a → triple P (k a) Q) → triple P (m ≫= k) Q.
Proof.
  intros Hm HF Hk w HP. specialize (Hm w). specialize (HF w). unfold mbind, M_bind. destruct (m w) as [a w1].
  apply Hk; [done|]. eapply stable; [|done]. by eapply still_quiet.
Qed.

Lemma t_quiet {A B} l P `{!Stable P} (m : M S A) (k : A → M S B) Q :
  keeps (quiet l) m → (∀ a, triple P (k a) Q) → triple P (m ≫= k) Q.
Proof. intros Hm Hk. by eapply (t_quiet_fact l P (λ _, True)). Qed.

Lemma t_check {B} l P `{!Stable P} (c : M S (option err)) (h : err → M S B) k Q :
  keeps (quiet l) c → (∀ er, triple P (h er) Q) → triple P k Q → triple P (on_error c h k) Q.
Proof. intros Hc Hh Hk. apply (t_quiet l P); [done|]. by intros [er|]. Qed.

Lemma t_get {A B} l P `{!Stable P} (c : M S (result A)) (h : err → M S B) k Q :
  keeps (quiet l) c → (∀ er, triple P (h er) Q) → (∀ a, triple P (k a) Q) → triple P (on_result c h k) Q.
Proof. intros Hc Hh Hk. apply (t_quiet l P); [done|]. by intros [a|er]. Qed.

(** The lock around a body. *)
Lemma t_with_target_res {A} env e ref (failed : err → A) (body : M S A) P (Q : A → World S → Prop)
    `{!Stable P, !∀ a, Stable (Q a)} :
  triple P body Q → (∀ er w, P w → Q (failed er) w) → triple P (with_target env e ref failed body) Q.
Proof.
  intros Hb Hf w HP.
  destruct (with_target_run env e ref failed body w) as (w1 & Ho%still_locks & [(er & -> & _)|Hrun]).
  - apply Hf. by eapply stable.
  - destruct Hrun as (_ & _ & w3 & -> & Ho3%still_locks & _). eapply stable; [exact Ho3|].
    apply Hb. by eapply stable.
Qed.

Lemma t_with_target {A} env e ref (failed : err → A) (body : M S A) P P' `{!Stable P, !Stable P'} :
  triple P body (λ _, P') → (∀ w, P w → P' w) → triple P (with_target env e ref failed body) (λ _, P').
Proof. intros Hb HPP. apply t_with_target_res; [done..|]. by intros _. Qed.

#[global] Instance stable_true : Stable (λ _, True).
Proof. by intros w w'. Qed.
End Triples.

(** Decomposes a program whose calls are quiet; stops at anything else. *)
Ltac t_step :=
  match goal with
  | |- triple _ (mret _) _ => apply t_ret
  | |- triple _ (if ?b then _ else _) _ => destruct b eqn:?
  | |- triple _ (match ?x with _ => _ end) _ => destruct x eqn:?
  | |- triple _ (let _ := _ in _) _ => cbv zeta
  | |- triple _ (on_error _ _ _) _ =>
      apply (t_check All); [apply _|by frame|intros ?|]
  | |- triple _ (on_result _ _ _) _ =>
      apply (t_get All); [apply _|by frame|intros ?|intros ?]
  | |- triple _ (mbind _ _) _ => apply (t_quiet All); [apply _|by frame|intros ?]
  end.
Ltac t_steps := repeat t_step.

(** ** The invariant *)
Definition id_at (env : Env) (n : nat) : string := "ro-" +:+ FormatID (o_now env n).

(** The rollout's later form: moved along the chart, the same rollout. *)
Definition advanced (approvals : bool) (r r' : Rollout) : Prop :=
  moves approvals (r_Phase r) (r_Phase r') ∧ r_TargetRef r' = r_TargetRef r ∧
  r_Initiator r' = r_Initiator r ∧ r_CreatedAt r' = r_CreatedAt r.

#[global] Instance advanced_preorder a : PreOrder (advanced a).
Proof.
  split; unfold advanced, moves; [done|].
  intros x y z (H1 & H2 & H3 & H4) (G1 & G2 & G3 & G4). split_and!; [by etrans|congruence..].
Qed.

Section Evolution.
Context {S : Type} `{!Store S, !StoreLaws S}.
Context (env : Env) (approvable : string → bool) (mintable : bool).
Implicit Types (w : World S).

(** An id drawn from the clock between the two worlds. *)
Definition minted w w' (id : string) : Prop :=
  ∃ n, (w_tick w ≤ n < w_tick w')%nat ∧ id = id_at env n.

(** An id that may be stored: it was, or it was drawn and drawing is allowed. *)
Definition known w w' (id : string) : Prop :=
  is_Some (rollouts_of (w_store w) !! id) ∨ (mintable = true ∧ minted w w' id).

(** Every rollout stored before is there after, advanced - through an approval
    only if its id is approvable - unless its id was drawn again; and every
    rollout there after is known. *)
Definition evolves w w' : Prop :=
  (w_tick w ≤ w_tick w')%nat ∧
  (∀ id r, rollouts_of (w_store w) !! id = Some r →
     minted w w' id ∨ ∃ r', rollouts_of (w_store w') !! id = Some r' ∧ advanced (approvable id) r r') ∧
  (∀ id, is_Some (rollouts_of (w_store w') !! id) → known w w' id).

Lemma minted_mono w1 w2 w3 w4 id :
  (w_tick w1 ≤ w_tick w2)%nat → (w_tick w3 ≤ w_tick w4)%nat → minted w2 w3 id → minted w1 w4 id.
Proof. intros ? ? (n & ? & ->). exists n. split; [lia|done]. Qed.

Lemma known_mono w1 w2 w3 id : (w_tick w2 ≤ w_tick w3)%nat → known w1 w2 id → known w1 w3 id.
Proof. intros ? [?|[? ?]]; [by left|right]. split; [done|by eapply minted_mono; [..|eassumption]]. Qed.

#[global] Instance evolves_preorder : PreOrder evolves.
Proof.
  split.
  - intros w. split_and!; [done| |by left]. intros id r Hr. right. exists r. by split.
  - intros w1 w2 w3 (T1 & E1 & K1) (T2 & E2 & K2). split_and!; [lia| |].
    + intros id r Hr.
      destruct (E1 id r Hr) as [Hm|(r' & Hr' & A1)]; [left; by eapply minted_mono; [..|exact Hm]|].
      destruct (E2 id r' Hr') as [Hm|(r'' & Hr'' & A2)]; [left; by eapply minted_mono; [..|exact Hm]|].
      right. exists r''. split; [done|by transitivity r'].
    + intros id Hid. destruct (K2 id Hid) as [Hk|[? Hm]]; [eapply known_mono; [exact T2|by apply K1]|].
      right. split; [done|by eapply minted_mono; [exact T1|..|exact Hm]].
Qed.

Lemma evolves_still w w' : still w w' → evolves w w'.
Proof.
  intros ((Hr & _) & Ht & _). split_and!; [done| |]; intros id; rewrite Hr; [|by left].
  intros r Hid. right. by exists r.
Qed.

#[global] Instance evolves_stable w0 : Stable (evolves w0).
Proof. intros w w' Hs He. transitivity w; [done|by apply evolves_still]. Qed.

(** What an operation in the middle of its work knows: the store has evolved
    since [w0], the id is known, and its row has not moved past phase [p]. *)
Definition tracked w0 (id : string) (p : Phase) w : Prop :=
  evolves w0 w ∧ known w0 w id ∧
  (minted w0 w id ∨ ∀ r, rollouts_of (w_store w) !! id = Some r → moves (approvable id) (r_Phase r) p).

#[global] Instance tracked_stable w0 id p : Stable (tracked w0 id p).
Proof.
  intros w w' Hs (He & Hk & Hp). split; [by eapply stable|]. destruct Hs as ((Hr & _) & Ht & _). rewrite Hr.
  split; [by eapply known_mono|]. destruct Hp as [Hm|Hp]; [left; by eapply minted_mono; [..|exact Hm]|by right].
Qed.

Lemma tracked_evolves w0 id p w : tracked w0 id p w → evolves w0 w.
Proof. by intros []. Qed.

Lemma tracked_mono w0 id p q w : moves (approvable id) p q → tracked w0 id p w → tracked w0 id q w.
Proof.
  intros Hpq (He & Hk & [Hm|Hp]); (split_and!; [done..|]); [by left|right]. intros r Hr. etrans; [by apply Hp|done].
Qed.

(** ** The rules *)
Lemma stored_phase old r : r_Phase (stored old r) = r_Phase r.
Proof. by destruct old. Qed.

Lemma advanced_stored a r0 r : moves a (r_Phase r0) (r_Phase r) → advanced a r0 (stored (Some r0) r).
Proof. intros H. split_and!; done. Qed.

Lemma t_save w0 id p r :
  r_ID r = id → moves (approvable id) p (r_Phase r) → triple (tracked w0 id p) (save r) (λ _, tracked w0 id (r_Phase r)).
Proof.
  intros <- Hp w Ht. apply (tracked_mono _ _ _ _ _ Hp) in Ht. destruct Ht as ((Tk & He & Hn) & Hk & Hb).
  unfold save, store. pose proof (save_rollout_spec r (w_store w)) as Hs.
  destruct (SaveRollout r (w_store w)) as [[er|] s]; simpl.
  - apply (tracked_stable _ _ _ w); [by apply still_store|by split].
  - destruct Hs as (Hr & _). split; [split_and!; [done| |]|split; [done|]].
    + simpl. intros id r0 Hr0. destruct (He id r0 Hr0) as [Hm|(r1 & Hr1 & A1)]; [by left|].
      rewrite Hr. destruct (decide (id = r_ID r)) as [->|Hne].
      * destruct Hb as [Hm|Hb]; [by left|]. right. rewrite lookup_insert_eq, Hr1. eexists. split; [done|].
        transitivity r1; [done|]. by apply advanced_stored, Hb.
      * right. exists r1. by rewrite lookup_insert_ne.
    + simpl. intros id. rewrite Hr. destruct (decide (id = r_ID r)) as [->|Hne]; [done|].
      rewrite lookup_insert_ne by done. apply Hn.
    + destruct Hb as [Hm|Hb]; [by left|right]. simpl. rewrite Hr, lookup_insert_eq. intros r1 [= <-].
      by rewrite stored_phase.
Qed.

Lemma t_bind_save {B} w0 id p r (k : option err → M S B) Q :
  r_ID r = id → moves (approvable id) p (r_Phase r) → (∀ o, triple (tracked w0 id (r_Phase r)) (k o) Q) →
  triple (tracked w0 id p) (save r ≫= k) Q.
Proof. intros Hid Hp Hk. eapply t_bind; [by apply t_save|]. intros o. apply Hk. Qed.

Lemma t_check_save {B} w0 id p r (h : err → M S B) k Q :
  r_ID r = id → moves (approvable id) p (r_Phase r) → (∀ er, triple (tracked w0 id (r_Phase r)) (h er) Q) →
  triple (tracked w0 id (r_Phase r)) k Q → triple (tracked w0 id p) (on_error (save r) h k) Q.
Proof. intros Hid Hp Hh Hk. apply t_bind_save; [done..|]. by intros [er|]. Qed.

Lemma t_load {B} w0 id (h : err → M S B) k Q :
  (∀ er, triple (evolves w0) (h er) Q) →
  (∀ r, r_ID r = id → triple (tracked w0 (r_ID r) (r_Phase r)) (k r) Q) →
  triple (evolves w0) (on_result (store (LoadRollout id)) h k) Q.
Proof.
  intros Hh Hk w He. unfold on_result, mbind, M_bind, store.
  pose proof (load_rollout_spec id (w_store w)) as [Hv Hl].
  destruct (LoadRollout id (w_store w)) as [[r|er] s]; simpl in *.
  - apply Hk; [exact (view_ids _ _ _ Hl)|]. split; [eapply stable; [by apply still_store|exact He]|].
    rewrite (view_ids _ _ _ Hl). split; [apply He; by exists r|right].
    destruct Hv as (Hr & _). simpl. rewrite Hr, Hl. by intros r' [= <-].
  - apply Hh. eapply stable; [by apply still_store|exact He].
Qed.

Lemma t_newID {B} w0 p (k : string → M S B) Q :
  mintable = true → (∀ id, triple (tracked w0 id p) (k id) Q) → triple (evolves w0) (newID env ≫= k) Q.
Proof.
  intros Hmint Hk w He. unfold newID, now, mbind, M_bind, mret, M_ret. apply Hk.
  assert (minted w0 (set_tick (Datatypes.S (w_tick w)) w) (id_at env (w_tick w))) as Hm.
  { exists (w_tick w). destruct He as [Ht _]. split; [simpl; lia|done]. }
  split_and!; [|by right|by left].
  eapply stable; [|exact He]. apply (still_quiet All), (quiet_now All env).
Qed.
End Evolution.

(** [t_step] extended with the rules for saving. *)
Ltac m_step :=
  match goal with
  | |- triple (tracked _ _ _ _ _ _) (on_error (save _) _ _) _ =>
      apply t_check_save; [reflexivity|simpl; eauto with rollops|intros ?|]
  | |- triple (tracked _ _ _ _ _ _) (mbind _ (save _)) _ =>
      apply t_bind_save; [reflexivity|simpl; eauto with rollops|intros ?]
  | |- triple _ _ _ => t_step
  | H : tracked _ _ _ ?w0 _ _ ?w |- evolves _ _ _ ?w0 ?w => exact (tracked_evolves _ _ _ _ _ _ _ H)
  | |- ∀ w, tracked _ _ _ _ _ _ w → evolves _ _ _ _ w => intros ?; apply tracked_evolves
  | |- ∀ w, evolves _ _ _ _ w → evolves _ _ _ _ w => by intros ?
  end.
Ltac m_steps := repeat m_step.

Section Moves.
Context {S : Type} `{!Store S, !StoreLaws S}.
Notation HW := (EngineDeploy.HW (S := S)).
Context `{!Statechart Phase LifeContext unit, !StatechartLaws Phase LifeContext unit}.
Context `{!Statechart StepState StepContext HW, !StatechartLaws StepState StepContext HW}.
Context (env : Env) (e : Engine) (approvable : string → bool) (mintable : bool) (w0 : World S).
Notation ev := (evolves env approvable mintable w0).
Notation tr := (tracked env approvable mintable w0).
#[local] Hint Resolve quiet_database quiet_gates quiet_checks quiet_target_Apply quiet_driveTraffic quiet_driveFlag
  quiet_driveFlagDisable quiet_resetDelivery quiet_deployOnce quiet_still_baking quiet_restoreControlStepper : frames.

(** An accepted event is a legal move. *)
Lemma Send_moves a p evt lc q :
  Send (resume p) evt = (lc, (q, None)) → a = true ∨ evt ≠ EventApprove → moves a p (lc_phase lc).
Proof.
  intros H Ha. destruct (resume_phase p {| PlanProduced := true; NeedsApproval := false |}) as (Hp & Hc & Hb).
  fold (resume p) in *. pose proof (Send_ok (resume p) evt q Hb) as Hs. rewrite H in Hs. simpl in Hs.
  destruct (Hs eq_refl) as [Hn ->]. rewrite Hp in Hn. by eapply moves_next.
Qed.
#[local] Hint Resolve Send_moves : rollops.
#[local] Hint Extern 1 (_ = true ∨ _ ≠ EventApprove) => right; discriminate : rollops.

Lemma moves_verifying a : moves a PhaseDeploying PhaseVerifying.
Proof. by apply (moves_next _ _ {| PlanProduced := true; NeedsApproval := false |} EventDeployed); [right|]. Qed.
#[local] Hint Resolve moves_verifying : rollops.

Lemma t_applyRollback r prior note db force :
  triple (tr (r_ID r) (r_Phase r)) (applyRollback env e r prior note db force)
    (λ out w, r_ID out.2 = r_ID r ∧ tr (r_ID r) (r_Phase out.2) w).
Proof.
  unfold applyRollback. m_steps; by intros.
Qed.

Lemma t_rollbackWithDatabase id prior note db force :
  triple ev (rollbackWithDatabase env e id prior note db force) (λ _, ev).
Proof.
  apply t_load; [intros; m_steps|]. intros r _. apply t_with_target; [apply _..| |apply tracked_evolves].
  eapply t_bind; [apply t_applyRollback|]. intros [out r']. apply t_ret. intros w [_ H]. by eapply tracked_evolves.
Qed.

Lemma t_load_ev {B} id (h : err → M S B) k :
  (∀ er, triple ev (h er) (λ _, ev)) → (∀ r, triple (tr (r_ID r) (r_Phase r)) (k r) (λ _, ev)) →
  triple ev (on_result (store (LoadRollout id)) h k) (λ _, ev).
Proof. intros Hh Hk. apply t_load; [done|]. intros r _. apply Hk. Qed.

Lemma t_forget {A} id p (m : M S A) Q : triple ev m Q → triple (tr id p) m Q.
Proof. apply t_pre. intros w. apply tracked_evolves. Qed.

(** A call that only lets the store evolve, then more. *)
Lemma t_then {A B} (m : M S A) (k : A → M S B) Q :
  triple ev m (λ _, ev) → (∀ a, triple ev (k a) Q) → triple ev (m ≫= k) Q.
Proof. intros Hm Hk. by eapply t_bind; [exact Hm|]. Qed.

Lemma t_Rollback id prior force : triple ev (Rollback env e id prior force) (λ _, ev).
Proof. apply t_rollbackWithDatabase. Qed.

Lemma t_RollbackLast ref force : triple ev (RollbackLast env e ref force) (λ _, ev).
Proof. unfold RollbackLast. m_steps. apply t_Rollback. Qed.

Lemma t_promoteWithNote id note : triple ev (promoteWithNote env e id note) (λ _, ev).
Proof.
  apply t_load_ev; [intros; m_steps|]. intros r. unfold finish_promote. m_steps.
Qed.

Lemma t_promote_commit id by_ force note : triple ev (promote_commit env e id by_ force note) (λ _, ev).
Proof. apply t_then; [apply t_promoteWithNote|]. intros [p er]. m_steps. Qed.

Lemma t_Promote id by_ force : triple ev (Promote env e id by_ force) (λ _, ev).
Proof.
  apply t_load_ev; [intros; m_steps|]. intros r. m_steps; apply t_forget, t_promote_commit.
Qed.

Lemma t_VerifyOrRollback id prior c : triple ev (VerifyOrRollback env e id prior c) (λ _, ev).
Proof.
  apply t_load_ev; [intros; m_steps|]. intros r. cbv zeta. apply (t_quiet All); [apply _|by frame|].
  intros [[failed reason] note]. destruct failed; m_steps; apply t_forget, t_then;
    [apply t_rollbackWithDatabase| |apply t_promoteWithNote|]; intros [? ?]; m_steps.
Qed.

Lemma Send_error lc : built lc → lc_phase lc = PhaseDeploying → lc_phase (Send lc EventError).1 = PhaseRolledBack.
Proof. intros Hb Hp. rewrite Send_spec, Hp by done. reflexivity. Qed.

Lemma Send_deployed lc : built lc → lc_phase lc = PhaseDeploying →
  ∃ lc', Send lc EventDeployed = (lc', (PhaseVerifying, None)) ∧ lc_phase lc' = PhaseVerifying.
Proof. intros Hb Hp. rewrite Send_spec, Hp by done. simpl. eauto. Qed.

Lemma resume_built p : built (resume p) ∧ lc_phase (resume p) = p.
Proof.
  destruct (resume_phase p {| PlanProduced := true; NeedsApproval := false |}) as (Hp & _ & Hb). by split.
Qed.

Lemma t_approve_deploy r by_ :
  approvable (r_ID r) = true →
  triple (tr (r_ID r) (r_Phase r)) (approve_deploy env r by_) (λ _, ev).
Proof.
  intros Ha. unfold approve_deploy. destruct (Send _ EventApprove) as [lc [q [er|]]] eqn:Hs; [m_steps|].
  destruct (resume_built (r_Phase r)) as [Hb _]. pose proof (Send_built _ EventApprove Hb) as Hb'.
  rewrite Hs in Hb'. simpl in Hb'. pose proof (Send_moves true _ _ _ _ Hs (or_introl eq_refl)) as Hm.
  assert (∀ evt, moves (approvable (r_ID r)) (r_Phase r) (lc_phase (Send lc evt).1)) as Hstar.
  { intros evt. rewrite Ha. etrans; [exact Hm|]. rewrite Send_spec by done.
    case_match; [by eapply moves_next; [left|]|constructor]. }
  destruct (id_Name by_ != ""); m_steps; simpl; first [apply Hstar|idtac];
    match goal with H : Send lc EventDeployed = _ |- _ => specialize (Hstar EventDeployed); by rewrite H in Hstar end.
Qed.

Lemma t_Approve id by_ : approvable id = true → triple ev (Approve env e id by_) (λ _, ev).
Proof.
  intros Ha. apply t_load; [intros; m_steps|]. intros r <-. m_step; [m_steps|].
  apply t_with_target; [apply _..| |apply tracked_evolves]. m_steps; by apply t_approve_deploy.
Qed.

Lemma t_Reject id by_ : triple ev (Reject env id by_) (λ _, ev).
Proof. apply t_load_ev; [intros; m_steps|]. intros r. destruct (id_Name by_ != ""); m_steps. Qed.

(** ** Deploying *)
Definition deploying (lc : Lifecycle) : Prop := built lc ∧ lc_phase lc = PhaseDeploying.

Lemma t_fail_mark lc r er actor p :
  deploying lc → triple (tr (r_ID r) p) (fail_mark env e lc r er actor) (λ _, ev).
Proof.
  intros [Hb Hp]. unfold fail_mark. rewrite (Send_error lc Hb Hp). m_steps.
Qed.

Lemma t_failProgressive lc r cfg m er actor :
  deploying lc → triple (tr (r_ID r) (r_Phase r)) (failProgressive env e lc r cfg m er actor) (λ _, ev).
Proof.
  intros Hd. unfold failProgressive. m_steps; try by apply t_fail_mark.
  eapply t_bind; [apply t_applyRollback|]. intros [[rolled rbErr] r']. simpl. apply t_fact. intros Hid.
  rewrite <- Hid. m_steps; by apply t_fail_mark.
Qed.

(** What the stepper's loop keeps of the rollout it carries. *)
Definition same_row (r r' : Rollout) : Prop := r_ID r' = r_ID r ∧ r_Phase r' = r_Phase r.

Lemma t_recordStep plan cfg s r :
  triple (tr (r_ID r) (r_Phase r)) (recordStep env e plan cfg s r)
    (λ out w, same_row r out.1 ∧ tr (r_ID r) (r_Phase r) w).
Proof. unfold recordStep. m_steps; by intros. Qed.

Definition loop_row (r : Rollout) (res : loop_result (S := S)) : Prop :=
  match res with LoopFailed r' _ | LoopStopped _ _ r' _ => same_row r r' end.

Lemma t_drive_loop fuel plan cfg s h r t :
  tame All (sp_machine s) →
  triple (tr (r_ID r) (r_Phase r)) (drive_loop env e fuel plan cfg s h r t)
    (λ res w, loop_row r res ∧ tr (r_ID r) (r_Phase r) w).
Proof.
  revert s h r t. induction fuel as [|fuel IH]; intros s h r t Ht; cbn [drive_loop]; [by apply t_ret|].
  m_step; [by apply t_ret|]. m_step; [|by apply t_ret]. m_step. m_step; [by apply t_ret|].
  apply (t_quiet_fact All _ (λ a, sp_machine a.1 = sp_machine s)); [|apply step_op_machine|].
  { destruct (_ =? 0); [by apply quiet_send|by apply quiet_advance]. }
  intros [s' h'] Hs. simpl in Hs. m_step; [by apply t_ret|]. m_step; [|by apply t_ret]. m_step.
  m_step; [apply IH; by rewrite Hs|]. eapply t_bind; [apply t_recordStep|]. intros [r' er]. simpl.
  apply t_fact. intros [Hid Hph]. m_step; [apply t_ret; simpl; by intros|].
  rewrite <- Hid, <- Hph. eapply t_post; [|apply IH; by rewrite Hs].
  intros res w [Hr Hw]. split; [|done]. destruct res; simpl in *; by destruct Hr; split; etrans.
Qed.

Lemma t_drive_finish lc cfg plan s r t actor :
  deploying lc → r_Phase r = PhaseDeploying →
  triple (tr (r_ID r) (r_Phase r)) (drive_finish env e lc cfg plan s r t actor) (λ _, ev).
Proof.
  intros [Hb Hp] Hr. unfold drive_finish. destruct (Send_deployed lc Hb Hp) as (lc' & -> & Hp').
  rewrite Hp, Hp', Hr. m_steps.
Qed.

Lemma t_driveStepper lc r cfg plan s t h actor :
  tame All (sp_machine s) → deploying lc → r_Phase r = PhaseDeploying →
  triple (tr (r_ID r) (r_Phase r)) (driveStepper env e lc r cfg plan s t h actor) (λ _, ev).
Proof.
  intros Ht Hd Hr. unfold driveStepper. m_step; [by apply t_failProgressive|].
  eapply t_bind; [apply t_recordStep|]. intros [r' er]. simpl. apply t_fact. intros [Hid Hph].
  rewrite <- Hid, <- Hph in *. m_step; [by apply t_failProgressive|].
  eapply t_bind; [exact (t_drive_loop (drive_fuel plan) plan cfg s h r' t Ht)|]. intros res. apply t_fact. intros Hrow.
  destruct res as [r'' er'|s'' h'' r'' t'']; destruct Hrow as [Hid' Hph']; rewrite <- Hid', <- Hph' in *.
  - by apply t_failProgressive.
  - m_step; [by apply t_failProgressive|by apply t_drive_finish].
Qed.

Lemma t_startStepper lc r cfg tgt actor :
  deploying lc → r_Phase r = PhaseDeploying →
  triple (tr (r_ID r) (r_Phase r)) (startStepper env e lc r cfg tgt actor) (λ _, ev).
Proof.
  intros Hd Hr. unfold startStepper. cbv zeta. destruct (BuildStepMachine _ _) as [m|er] eqn:Hm;
    [|by apply t_failProgressive]. apply built_machine in Hm as ->. m_step.
  apply (t_quiet_fact All _ (λ a, tame All (sp_machine a.1))).
  - apply (quiet_NewStepper All), tame_stepHealth.
  - intros w. unfold step_op, NewStepper, with_out. simpl. destruct (sc_start _ _ _) as [[? ?] [? ?]]. apply tame_stepHealth.
  - intros [s h] Hs. m_step. by apply t_driveStepper.
Qed.

Lemma t_recoverInterrupted r why :
  r_Phase r = PhaseDeploying → triple (tr (r_ID r) (r_Phase r)) (recoverInterrupted env e r why) (λ _, ev).
Proof.
  intros ->. unfold recoverInterrupted. m_steps.
Qed.

Lemma t_tick_drive r cfg tgt p s :
  tame All (sp_machine s) → r_Phase r = PhaseDeploying →
  triple (tr (r_ID r) (r_Phase r)) (tick_drive env e r cfg tgt p s) (λ _, ev).
Proof.
  intros Ht Hr. assert (deploying (resume (r_Phase r))) as Hd by (rewrite Hr; apply resume_built).
  unfold tick_drive. m_step; [|by apply t_driveStepper]. m_step; [|by apply t_driveStepper]. m_step.
  m_step; [|by apply t_driveStepper].
  apply (t_quiet All); [apply _|apply quiet_step_op; intros x; apply stepHealth_quiet|].
  intros [ok h]. m_step; [m_steps|by apply t_failProgressive].
Qed.

Lemma t_Tick id cfg : triple ev (Tick env e id cfg) (λ _, ev).
Proof.
  apply t_load_ev; [intros; m_steps|]. intros r. destruct (r_Phase r) eqn:Hr; try m_steps.
  apply t_with_target; [apply _..| |apply tracked_evolves]. rewrite <- Hr. unfold tick_locked.
  m_steps; try (by apply t_recoverInterrupted). apply t_tick_drive; [|done].
  erewrite restored_machine by done.
  match goal with H : BuildStepMachine _ _ = Ok _ |- _ => apply built_machine in H as -> end. apply tame_stepHealth.
Qed.

(** ** Apply *)
Lemma gated_phase ctx lc1 q1 lc2 q2 :
  Send (NewLifecycle ctx) EventValidate = (lc1, (q1, None)) → Send lc1 EventGate = (lc2, (q2, None)) →
  built lc2 ∧ lc_phase lc2 = if NeedsApproval ctx then PhaseAwaitingApproval else PhaseDeploying.
Proof.
  intros H1 H2. destruct (resume_phase PhasePending ctx) as (Hp & Hc & Hb).
  change (ResumeLifecycle PhasePending ctx) with (NewLifecycle ctx) in *.
  rewrite Send_spec, Hp in H1 by done. simpl in H1. simplify_eq.
  rewrite Send_spec in H2 by (destruct Hb as [x ?]; by exists x). simpl in H2. rewrite Hc in H2.
  destruct Hb as [x ?].
  destruct (NeedsApproval ctx); [|destruct (PlanProduced ctx)]; simplify_eq/=; (split; [by exists x|done]).
Qed.

Lemma t_apply_commit req lc r m tgt :
  built lc → r_Phase r = lc_phase lc → (∃ b : bool, lc_phase lc = if b then PhaseAwaitingApproval else PhaseDeploying) →
  triple (tr (r_ID r) (r_Phase r)) (apply_commit env e req lc r m tgt) (λ _, ev).
Proof.
  intros Hb Hr [b Hph]. unfold apply_commit. cbv zeta. m_step; [m_steps|].
  m_step. apply (t_quiet All); [apply _|by case_match; frame|intros _]. m_step; [m_steps|].
  assert (deploying lc) as Hd by (split; [done|]; split_bool; destruct b; congruence).
  m_step; [by apply t_failProgressive|]. apply t_startStepper; [done|]. destruct Hd. congruence.
Qed.

Lemma t_apply_locked req need score : mintable = true → triple ev (apply_locked env e req need score) (λ _, ev).
Proof.
  intros Hmint. unfold apply_locked. cbv zeta.
  m_step; [m_steps|]. m_step; [m_steps|]. m_step; [|m_steps]. m_step; [m_steps|]. m_step.
  m_step; [m_steps|]. m_step; [m_steps|]. m_step; [m_steps|].
  destruct (Send _ EventValidate) as [lc1 [q1 [er|]]] eqn:H1; [m_steps|].
  destruct (Send lc1 EventGate) as [lc2 [q2 [er|]]] eqn:H2; [m_steps|].
  destruct (gated_phase _ _ _ _ _ H1 H2) as [Hb Hph]. m_step.
  apply (t_newID env approvable mintable w0 (lc_phase lc2)); [done|]. intros id. apply (t_quiet All); [apply _|by case_match; frame|].
  intros blocked. apply (t_apply_commit req lc2 (captured _ _ id _ (lc_phase lc2) _ _ blocked)); eauto.
Qed.

Lemma t_Apply req : mintable = true → triple ev (Apply env e req) (λ _, ev).
Proof.
  intros Hmint. unfold Apply. cbv zeta. m_step; [m_steps|].
  apply (t_get All); [apply _|unfold apply_gates; by frame|intros; m_steps|]. intros [need score].
  apply t_with_target; [apply _..|by apply t_apply_locked|done].
Qed.

(** ** Control *)
Lemma t_restored {A} id p r (h : err → M S A) k Q :
  (∀ er, triple (tr id p) (h er) Q) → (∀ s q, tame All (sp_machine s) → triple (tr id p) (k (s, q)) Q) →
  triple (tr id p) (on_result (restoreControlStepper env r) h k) Q.
Proof.
  intros Hh Hk.
  apply (t_quiet_fact All _ (λ res, match res with Ok (s, _) => tame All (sp_machine s) | Err _ => True end));
    [frame|apply restored_tame|]. intros [[s q]|er]; [apply Hk|by intros _].
Qed.

Lemma t_hold_target id body :
  (∀ r, triple (tr (r_ID r) (r_Phase r)) (body r) (λ _, ev)) → triple ev (hold_target env e id body) (λ _, ev).
Proof.
  intros Hb. apply t_load_ev; [intros; m_steps|]. intros r.
  apply t_with_target; [apply _..|apply Hb|apply tracked_evolves].
Qed.

Lemma t_control {B} id p s evt h (k : _ → M S B) Q :
  tame All (sp_machine s) → (∀ a, triple (tr id p) (k a) Q) →
  triple (tr id p) (step_op (Progressive.send s evt) h ≫= k) Q.
Proof. intros Ht Hk. apply (t_quiet All); [apply _|by apply quiet_send|done]. Qed.

Lemma t_saveControl lc r s plan t by_ a d :
  moves (approvable (r_ID r)) (r_Phase r) (lc_phase lc) →
  triple (tr (r_ID r) (r_Phase r)) (saveControl env e r lc s plan t by_ a d) (λ _, ev).
Proof. intros Hl. unfold saveControl. m_steps. Qed.

Lemma t_Pause id by_ : triple ev (Pause env e id by_) (λ _, ev).
Proof.
  apply t_hold_target. intros r. m_step; [m_steps|]. apply t_restored; [intros; m_steps|]. intros s p Ht. cbv zeta.
  apply t_control; [done|]. intros [? ?]. m_steps. apply t_saveControl. eauto with rollops.
Qed.

Lemma t_Resume id by_ : triple ev (Resume env e id by_) (λ _, ev).
Proof.
  apply t_hold_target. intros r. m_step; [m_steps|]. apply t_restored; [intros; m_steps|]. intros s p Ht. cbv zeta.
  apply t_control; [done|]. intros [? ?]. m_steps. apply t_saveControl. eauto with rollops.
Qed.

Lemma t_abort_in_place r by_ n a : triple (tr (r_ID r) (r_Phase r)) (abort_in_place env e r by_ n a) (λ _, ev).
Proof. unfold abort_in_place. m_steps. Qed.

Lemma t_Abort id by_ : triple ev (Abort env e id by_) (λ _, ev).
Proof.
  apply t_hold_target. intros r. m_step; [m_steps|].
  apply (t_bind _ _ _ (λ _, tr (r_ID r) (r_Phase r))).
  - m_step; [|by apply t_ret]. apply t_restored; [intros; by apply t_ret|]. intros s p Ht.
    apply t_control; [done|]. intros _. by apply t_ret.
  - intros _. cbv zeta. m_step; [apply (t_abort_in_place (set_StepperSnap None r))|]. m_step.
    m_step; [|apply (t_abort_in_place (set_StepperSnap None r))].
    eapply t_bind; [apply (t_applyRollback (set_StepperSnap None r))|]. intros [[rolled er] r']. apply t_fact. intros _.
    m_steps.
Qed.

(** ** Schedules and the kill-switch *)
Lemma t_scheduled_deploy s : mintable = true → triple ev (scheduled_deploy env s) (λ _, ev).
Proof.
  intros Hmint. unfold scheduled_deploy. m_step; [m_steps|]. m_step.
  apply (t_newID env approvable mintable w0 PhaseDeploying); [done|]. intros id. cbv zeta. m_steps.
Qed.

Lemma t_applyScheduled s : mintable = true → triple ev (applyScheduled env e s) (λ _, ev).
Proof.
  intros Hmint. apply t_with_target; [apply _..| |done]. m_steps; by apply t_scheduled_deploy.
Qed.

Lemma t_store_view {A} (f : S → A * S) :
  (∀ s, rollouts_of (f s).2 = rollouts_of s) → triple ev (store f) (λ _, ev).
Proof.
  intros Hf w He. unfold store. specialize (Hf (w_store w)). destruct (f (w_store w)) as [a s]. simpl in *.
  destruct He as [Ht He]. split; [done|]. simpl. by rewrite Hf.
Qed.

Lemma delete_rollouts id s : rollouts_of (DeleteSchedule id s).2 = rollouts_of s.
Proof.
  pose proof (delete_schedule_spec id s) as H. destruct (DeleteSchedule id s) as [[er|] s']; by destruct H.
Qed.
Lemma schedule_rollouts sc s : rollouts_of (StoreSchedule sc s).2 = rollouts_of s.
Proof. pose proof (schedule_spec sc s) as H. destruct (StoreSchedule sc s) as [[er|] s']; by destruct H. Qed.
Lemma freeze_rollouts f s : rollouts_of (SaveFreeze f s).2 = rollouts_of s.
Proof. pose proof (save_freeze_spec f s) as H. destruct (SaveFreeze f s) as [[er|] s']; by destruct H. Qed.

Lemma t_fire_all due : mintable = true → triple ev (fire_all env e due) (λ _, ev).
Proof.
  intros Hmint. induction due as [|s due IH]; simpl; [by apply t_ret|].
  apply t_then; [by apply t_applyScheduled|]. intros [fired [er|]].
  - apply t_then; [apply IH|]. intros [rs errs]. by apply t_ret.
  - apply t_then; [apply t_store_view, delete_rollouts|]. intros derr.
    apply t_then; [apply IH|]. intros [rs errs]. by apply t_ret.
Qed.

Lemma t_FireDueSchedules t : mintable = true → triple ev (FireDueSchedules env e t) (λ _, ev).
Proof. intros Hmint. unfold FireDueSchedules. m_steps. by apply t_fire_all. Qed.

Lemma t_Schedule s : triple ev (Schedule env s) (λ _, ev).
Proof.
  unfold Schedule. apply (t_quiet All); [apply _|by case_match; frame|]. intros id. apply t_store_view, schedule_rollouts.
Qed.

Lemma t_SetFreeze on by_ reason : triple ev (SetFreeze env e on by_ reason) (λ _, ev).
Proof.
  unfold SetFreeze. m_step; [m_steps|]. m_step. cbv zeta.
  apply t_then; [apply t_store_view, freeze_rollouts|]. intros [er|]; [m_steps|].
  apply (t_bind _ _ _ (λ _, ev)); [|intros _; m_steps].
  intros w He. exact He.
Qed.
End Moves.
