(* ===== verification/EngineSession.v ===== *)
(** * Engine: sessions

    The engine's operations as data, a session as a sequence of them, and the
    invariants every session keeps, whoever issues the operations, in whatever
    order, and whatever the systems outside answer: locks are released, stored
    rollouts move along the lifecycle chart only, and nothing but an approval
    lets a gated rollout deploy. *)

From S2P Require Import Prelude GoTime Statekit Config Progressive Model Lifecycle Risk Analysis Security.
From S2P Require Import Store World EngineBase EngineGates EngineRollback EngineDeploy Reconcile Scenario Frame EngineLocks.
From S2P Require Import EngineMoves.

Inductive Operation :=
| OpPlan (c : Config.t)
| OpObserve (t : Config.Target)
| OpVerify (id : string)
| OpApply (req : ApplyRequest)
| OpTick (id : string) (c : Config.t)
| OpApprove (id : string) (by_ : Identity)
| OpReject (id : string) (by_ : Identity)
| OpPromote (id : string) (by_ : Identity) (force : bool)
| OpRollback (id : string) (prior : Manifest) (force : bool)
| OpRollbackLast (ref : string) (force : bool)
| OpVerifyOrRollback (id : string) (prior : Manifest) (c : Config.t)
| OpPause (id : string) (by_ : Identity)
| OpResume (id : string) (by_ : Identity)
| OpAbort (id : string) (by_ : Identity)
| OpSchedule (s : ScheduledRollout)
| OpFireDueSchedules (at_ : Time)
| OpFreeze (on : bool) (by_ : Identity) (reason : string)
| OpReconcile (audited : bool) (c : Config.t) (by_ : Identity).

Section Session.
Context {S : Type} `{!Store S}.
Notation HW := (EngineDeploy.HW (S := S)).
Context `{!Statechart Phase LifeContext unit, !Statechart StepState StepContext HW}.
Context (env : Env) (e : Engine).

Definition discard {A} (m : M S A) : M S unit := m ≫= λ _, mret tt.

Definition perform (op : Operation) : M S unit :=
  match op with
  | OpPlan c => discard (Plan env e c)
  | OpObserve t => discard (Observe env t)
  | OpVerify id => discard (Verify env e id)
  | OpApply req => discard (Apply env e req)
  | OpTick id c => discard (Tick env e id c)
  | OpApprove id by_ => discard (Approve env e id by_)
  | OpReject id by_ => discard (Reject env id by_)
  | OpPromote id by_ force => discard (Promote env e id by_ force)
  | OpRollback id prior force => discard (Rollback env e id prior force)
  | OpRollbackLast ref force => discard (RollbackLast env e ref force)
  | OpVerifyOrRollback id prior c => discard (VerifyOrRollback env e id prior c)
  | OpPause id by_ => discard (Pause env e id by_)
  | OpResume id by_ => discard (Resume env e id by_)
  | OpAbort id by_ => discard (Abort env e id by_)
  | OpSchedule s => discard (Schedule env s)
  | OpFireDueSchedules t => discard (FireDueSchedules env e t)
  | OpFreeze on by_ reason => discard (SetFreeze env e on by_ reason)
  | OpReconcile audited c by_ => discard (Reconcile env {| rc_eng := e; rc_audit := audited |} c by_)
  end.

Fixpoint session (ops : list Operation) : M S unit :=
  match ops with
  | [] => mret tt
  | op :: ops => perform op;; session ops
  end.
End Session.

Section SessionFacts.
Context {S : Type} `{!Store S, !StoreLaws S}.
Notation HW := (EngineDeploy.HW (S := S)).
Context `{!Statechart Phase LifeContext unit, !StatechartLaws Phase LifeContext unit}.
Context `{!Statechart StepState StepContext HW, !StatechartLaws StepState StepContext HW}.
Context (env : Env) (e : Engine).

Lemma quiet_live_diff l ver ref m : keeps (quiet (S := S) l) (live_diff env ver ref m).
Proof. unfold live_diff. frame. Qed.
#[local] Hint Resolve quiet_live_diff : frames.
Lemma quiet_Plan l eng c : keeps (quiet (S := S) l) (Plan env eng c).
Proof. unfold Plan. frame. Qed.
Lemma quiet_Observe l t : keeps (quiet (S := S) l) (Observe env t).
Proof. unfold Observe. frame. Qed.
Lemma calm_Schedule s : keeps (calm (S := S) All) (Schedule env s).
Proof. unfold Schedule. frame. Qed.

(** *** The reconciler *)
Lemma quiet_rc_record l rc en : keeps (quiet (S := S) l) (rc_record rc en).
Proof. unfold rc_record. frame. Qed.
Lemma quiet_stuckVerifying l ref sum : keeps (quiet (S := S) l) (stuckVerifying ref sum).
Proof. unfold stuckVerifying, List. frame. Qed.
#[local] Hint Resolve quiet_Plan quiet_rc_record quiet_stuckVerifying : frames.

Lemma calm_finalize rc c by_ plan drifted rl : keeps (calm (S := S) All) (finalize env rc c by_ plan drifted rl).
Proof. unfold finalize, finalize_gate. pose proof (calm_VerifyOrRollback (S := S) env (rc_eng rc)) as Hv. frame. Qed.
#[local] Hint Resolve calm_finalize : frames.
Lemma calm_Reconcile rc c by_ : keeps (calm (S := S) All) (Reconcile env rc c by_).
Proof.
  pose proof (calm_Tick (S := S) env (rc_eng rc)) as Ht. pose proof (calm_Apply (S := S) env (rc_eng rc)) as Ha.
  unfold Reconcile, reconcile_in_flight, reconcile_in_sync. frame.
Qed.

Lemma t_finalize ap mint w0 rc c by_ plan drifted rl :
  triple (evolves env ap mint w0) (finalize env rc c by_ plan drifted rl) (λ _, evolves env ap mint w0).
Proof.
  unfold finalize, finalize_gate. m_steps.
  all: eapply t_bind; [apply t_VerifyOrRollback|intros [out er]; m_steps].
Qed.

Lemma t_Reconcile ap w0 rc c by_ : triple (evolves env ap true w0) (Reconcile env rc c by_) (λ _, evolves env ap true w0).
Proof.
  unfold Reconcile, reconcile_in_flight, reconcile_in_sync. m_steps; try apply t_finalize.
  - eapply t_bind; [apply t_Tick|intros [rl er]; m_steps; apply t_finalize].
  - eapply t_bind; [by apply t_Apply|intros [rl er]; m_steps; apply t_finalize].
Qed.

Lemma keeps_discard {A} R `{!PreOrder R} (m : M S A) : keeps R m → keeps R (discard m).
Proof. intros H. unfold discard. by apply keeps_bind; [apply _|done|intros; apply keeps_ret; apply _]. Qed.

Lemma calm_perform op : keeps (calm (S := S) All) (perform env e op).
Proof.
  destruct op; simpl; apply keeps_discard; try apply _.
  - apply calm_of_quiet, quiet_Plan.
  - apply calm_of_quiet, quiet_Observe.
  - by apply calm_of_quiet, quiet_Verify.
  - apply calm_Apply.
  - apply calm_Tick.
  - apply calm_Approve.
  - apply calm_Reject.
  - apply calm_Promote.
  - apply calm_Rollback.
  - apply calm_RollbackLast.
  - apply calm_VerifyOrRollback.
  - apply calm_Pause.
  - apply calm_Resume.
  - apply calm_Abort.
  - apply calm_Schedule.
  - apply calm_FireDueSchedules.
  - apply calm_SetFreeze.
  - apply calm_Reconcile.
Qed.

Lemma calm_session ops : keeps (calm (S := S) All) (session env e ops).
Proof.
  induction ops as [|op ops IH]; simpl; [apply keeps_ret, _|].
  apply keeps_bind; [apply _|apply calm_perform|done].
Qed.

(** Which rollouts the operations approve. *)
Definition approves (op : Operation) (id : string) : bool :=
  match op with OpApprove id' _ => id' == id | _ => false end.

Lemma evolves_quiet {A} l ap (m : M S A) w : keeps (quiet l) m → evolves env ap true w (m w).2.
Proof. intros H. by eapply evolves_still, still_quiet. Qed.

Lemma evolves_triple {A} ap (m : M S A) w :
  (∀ w0, triple (evolves env ap true w0) m (λ _, evolves env ap true w0)) → evolves env ap true w (m w).2.
Proof. intros H. by apply (H w w). Qed.

Lemma evolves_perform ap op w :
  (∀ id, approves op id = true → ap id = true) → evolves env ap true w (perform env e op w).2.
Proof.
  intros Ha. assert (∀ A (m : M S A), evolves env ap true w (m w).2 → evolves env ap true w (discard m w).2) as Hd
    by (intros A m; unfold discard, mbind, M_bind; by destruct (m w)).
  destruct op; simpl; apply Hd.
  1-3: eapply evolves_quiet; first [apply (quiet_Plan All)|apply (quiet_Observe All)|by apply (quiet_Verify _ _ All)].
  all: apply evolves_triple; intros w0.
  - by apply t_Apply.
  - apply t_Tick.
  - apply t_Approve, Ha. simpl. by rewrite bool_decide_eq_true_2.
  - apply t_Reject.
  - apply t_Promote.
  - apply t_Rollback.
  - apply t_RollbackLast.
  - apply t_VerifyOrRollback.
  - apply t_Pause.
  - apply t_Resume.
  - apply t_Abort.
  - apply t_Schedule.
  - by apply t_FireDueSchedules.
  - apply t_SetFreeze.
  - apply t_Reconcile.
Qed.

Lemma evolves_session ap ops w :
  (∀ op id, op ∈ ops → approves op id = true → ap id = true) → evolves env ap true w (session env e ops w).2.
Proof.
  revert w. induction ops as [|op ops IH]; intros w Ha; simpl; [reflexivity|].
  pose proof (evolves_perform ap op w ltac:(intros; eapply Ha; [by left|done])) as H1.
  unfold mbind, M_bind. destruct (perform env e op w) as [[] w1].
  etransitivity; [exact H1|]. apply IH. intros op' id Hin. apply Ha. by right.
Qed.
End SessionFacts.

(** ** Properties *)

(** C7. Every operation releases the target locks it takes, whatever it
    returns: after any session - applies that fail half-way, ticks, approvals,
    rollbacks, aborts, scheduled applies, with the store and every system outside
    answering or failing as they please - exactly the locks held before are
    held. *)
Theorem session_releases_locks {S} `{!Store S, !StoreLaws S}
    `{!Statechart Phase LifeContext unit, !StatechartLaws Phase LifeContext unit}
    `{!Statechart StepState StepContext (World S * option err),
      !StatechartLaws StepState StepContext (World S * option err)}
    env e ops (w : World S) :
  w_locks (session env e ops w).2 = w_locks w.
Proof. apply (calm_session env e ops w). Qed.

(** C2. A stored rollout never leaves the lifecycle.  After any session it is
    still stored under its id, for the same target, with the same initiator and
    creation time, and its phase was reached by moves of the chart - so a
    rolled-back rollout stays rolled back.  (Unless the clock handed its id out
    a second time: ids are timestamps.) *)
Theorem session_moves_along_chart {S} `{!Store S, !StoreLaws S}
    `{!Statechart Phase LifeContext unit, !StatechartLaws Phase LifeContext unit}
    `{!Statechart StepState StepContext (World S * option err),
      !StatechartLaws StepState StepContext (World S * option err)}
    env e ops (w : World S) id r :
  rollouts_of (w_store w) !! id = Some r →
  let w' := (session env e ops w).2 in
  (∀ n, (w_tick w ≤ n < w_tick w')%nat → id ≠ id_at env n) →
  ∃ r', rollouts_of (w_store w') !! id = Some r' ∧ advanced true r r' ∧
        (r_Phase r = PhaseRolledBack → r_Phase r' = PhaseRolledBack).
Proof.
  intros Hr w' Hn. destruct (evolves_session env e (λ _, true) ops w ltac:(done)) as (_ & He & _).
  destruct (He id r Hr) as [(n & Hlt & Hid)|(r' & Hr' & Ha)]; [by destruct (Hn n Hlt)|].
  exists r'. split_and!; [done|done|]. intros Hp. destruct Ha as [Hm _]. rewrite Hp in Hm. by eapply moves_final.
Qed.

(** C1. The approval gate cannot be bypassed.  Whatever operations follow -
    ticks, promotions forced or not, pauses, resumes, aborts, rollbacks, new
    applies, schedules, reconciles, a freeze lifted - a rollout awaiting approval is, as long
    as nobody approves it, still awaiting approval or rolled back. *)
Theorem only_approval_releases_the_gate {S} `{!Store S, !StoreLaws S}
    `{!Statechart Phase LifeContext unit, !StatechartLaws Phase LifeContext unit}
    `{!Statechart StepState StepContext (World S * option err),
      !StatechartLaws StepState StepContext (World S * option err)}
    env e ops (w : World S) id r :
  rollouts_of (w_store w) !! id = Some r → r_Phase r = PhaseAwaitingApproval →
  (∀ op, op ∈ ops → approves op id = false) →
  let w' := (session env e ops w).2 in
  (∀ n, (w_tick w ≤ n < w_tick w')%nat → id ≠ id_at env n) →
  ∃ r', rollouts_of (w_store w') !! id = Some r' ∧
        (r_Phase r' = PhaseAwaitingApproval ∨ r_Phase r' = PhaseRolledBack).
Proof.
  intros Hr Hp Hops w' Hn.
  destruct (evolves_session env e (λ i, bool_decide (i ≠ id)) ops w) as (_ & He & _).
  { intros op i Hin Ha. apply bool_decide_eq_true_2. intros ->. by rewrite Hops in Ha. }
  destruct (He id r Hr) as [(n & Hlt & Hid)|(r' & Hr' & Ha)]; [by destruct (Hn n Hlt)|].
  exists r'. split; [done|]. destruct Ha as [Hm _]. rewrite Hp in Hm.
  rewrite bool_decide_eq_false_2 in Hm by (by intros []). by apply moves_awaiting.
Qed.

Section Witnesses.
Import Scenario.
#[local] Existing Instance life_chart.
#[local] Existing Instance life_laws.
#[local] Existing Instance step_chart.
#[local] Existing Instance step_laws.

(** The first release is deploying, the second waits for approval. *)
Definition gated : World Sqlite.Db :=
  (session sunny engine [OpApply (request (web "v1") ann false); OpApply (request (web "v2") ann true)]
     (start Sqlite.empty)).2.
Definition gated_id : string := "ro-19700101T000016.000000000".
Definition pushy : list Operation :=
  [OpPromote gated_id ann true; OpTick gated_id (web "v2"); OpResume gated_id ann; OpFreeze false ann "";
   OpAbort gated_id ann; OpFireDueSchedules (100 * Second); OpVerifyOrRollback gated_id empty_manifest (web "v2")].

Lemma session_releases_locks_witness :
  w_locks (session sunny engine pushy gated).2 = w_locks gated.
Proof. apply session_releases_locks. Defined.

Lemma gated_row : (λ r, (r_TargetRef r, r_Phase r)) <$> rollouts_of (w_store gated) !! gated_id =
  Some ("web", PhaseAwaitingApproval).
Proof. vm_compute. reflexivity. Qed.

Lemma fresh_gated n : (w_tick gated ≤ n < w_tick (session sunny engine pushy gated).2)%nat → gated_id ≠ id_at sunny n.
Proof.
  assert (w_tick gated = 17 ∧ (w_tick (session sunny engine pushy gated).2 <=? 40) = true)%nat as [-> Ht%Nat.leb_le]
    by (vm_compute; split; reflexivity).
  assert (forallb (λ n, negb (bool_decide (gated_id = id_at sunny n))) (seq 17 23) = true) as Hall
    by (vm_compute; reflexivity).
  intros Hn. rewrite forallb_forall in Hall. specialize (Hall n).
  rewrite in_seq, negb_true_iff, bool_decide_eq_false in Hall. apply Hall. lia.
Qed.

Lemma session_moves_along_chart_witness :
  ∃ r', rollouts_of (w_store (session sunny engine pushy gated).2) !! gated_id = Some r' ∧ r_TargetRef r' = "web".
Proof.
  pose proof gated_row as Hw. destruct (rollouts_of (w_store gated) !! gated_id) as [r|] eqn:Hr; [|discriminate].
  destruct (session_moves_along_chart sunny engine pushy gated gated_id r Hr fresh_gated)
    as (r' & Hr' & (_ & Ht & _) & _).
  exists r'. split; [exact Hr'|]. rewrite Ht. by injection Hw.
Defined.

Lemma only_approval_releases_the_gate_witness :
  ∃ r', rollouts_of (w_store (session sunny engine pushy gated).2) !! gated_id = Some r' ∧
        (r_Phase r' = PhaseAwaitingApproval ∨ r_Phase r' = PhaseRolledBack).
Proof.
  pose proof gated_row as Hw. destruct (rollouts_of (w_store gated) !! gated_id) as [r|] eqn:Hr; [|discriminate].
  apply (only_approval_releases_the_gate sunny engine pushy gated gated_id r Hr).
  - by injection Hw.
  - apply Forall_forall. repeat constructor.
  - exact fresh_gated.
Defined.
End Witnesses.
