(* ===== verification/SurfaceSafety.v ===== *)
(** * The surfaces: authorization

    Whatever a message says and whichever surface it comes through - HTTP, gRPC,
    MCP or the console - serving it is a session of engine operations in the
    caller's name, each of which the policy grants the caller; composed with the
    sessions' invariants, what the approval gate promises holds for any
    traffic. *)

From S2P Require Import Prelude Encoding GoTime Statekit Config Progressive Model Lifecycle Risk Analysis Security.
From S2P Require Import Store World Git ConfigLoad EngineBase EngineGates EngineRollback EngineDeploy Reconcile.
From S2P Require Import Surface Api Grpc Mcp Ui Frame EngineLocks EngineMoves EngineSession.

Section Acts.
Context {S : Type} `{!Store S, !StoreLaws S}.
Notation HW := (EngineDeploy.HW (S := S)).
Context `{!Statechart Phase LifeContext unit, !StatechartLaws Phase LifeContext unit}.
Context `{!Statechart StepState StepContext HW, !StatechartLaws StepState StepContext HW}.
Context `{!Yaml, !Bodies} (env : Env) (e : Engine) (fs : FS) (getenv : string → string) (policy : Policy).
Implicit Types (w : World S).

Definition granted id perm s : Prop := Authorize policy id perm s = None.
(** [perm] is granted on the target of a stored rollout. *)
Definition granted_on id perm w ro : Prop :=
  ∃ r, rollouts_of (w_store w) !! ro = Some r ∧ granted id perm (target_scope (r_TargetRef r)).

(** What an operation of [id] needs. *)
Definition permits (id : Identity) w (op : Operation) : Prop :=
  match op with
  | OpPlan c => granted id PermPlan (scopeOf c) ∨ granted id PermApply (scopeOf c)
  | OpApply req => granted id PermApply (scopeOf (rq_Config req)) ∧ rq_Initiator req = id
  | OpApprove ro by_ | OpReject ro by_ => by_ = id ∧ granted_on id PermApprove w ro
  | OpPromote ro by_ _ => by_ = id ∧ granted_on id PermPromote w ro
  | OpPause ro by_ | OpResume ro by_ | OpAbort ro by_ => by_ = id ∧ granted_on id PermApply w ro
  | OpVerify ro => granted_on id PermPromote w ro
  | OpRollbackLast ref _ => granted id PermRollback (target_scope ref)
  | OpFreeze _ by_ _ => by_ = id ∧ granted id PermFreeze any_scope
  | _ => False
  end.

(** [m] reads, then is a session of operations [id] may perform. *)
Definition acts {A} (id : Identity) (m : M S A) : Prop :=
  ∀ w, ∃ ops w1, quiet Probe w w1 ∧ (m w).2 = (session env e ops w1).2 ∧ ∀ op, op ∈ ops → permits id w op.

Lemma acts_quiet {A} id (m : M S A) : keeps (quiet Probe) m → acts id m.
Proof. intros Hm w. exists [], (m w).2. split; [apply Hm|]. split; [done|]. set_solver. Qed.

Lemma acts_ret {A} id (a : A) : acts id (mret a).
Proof. apply acts_quiet, keeps_ret, _. Qed.

Lemma bind_ret_world {A B} (m : M S A) (k : A → M S B) w :
  (∀ a w', (k a w').2 = w') → ((m ≫= k) w).2 = (m w).2.
Proof. intros Hk. unfold mbind, M_bind. destruct (m w) as [a w']. apply Hk. Qed.

Lemma acts_bind_ret {A B} id (m : M S A) (k : A → M S B) :
  (∀ a w', (k a w').2 = w') → acts id m → acts id (m ≫= k).
Proof. intros Hk Hm w. destruct (Hm w) as (ops & w1 & ? & Heq & ?). exists ops, w1. by rewrite bind_ret_world. Qed.

Lemma acts_fmap {A B} id (f : A → B) (m : M S A) : acts id m → acts id (f <$> m).
Proof. by apply acts_bind_ret. Qed.

(** One operation, alone. *)
Lemma session_one op w : (session env e [op] w).2 = (perform env e op w).2.
Proof. simpl. unfold mbind, M_bind. by destruct (perform env e op w). Qed.

Lemma discard_world {A} (m : M S A) w : (discard m w).2 = (m w).2.
Proof. by apply bind_ret_world. Qed.

Lemma acts_op {A} id op (m : M S A) :
  (∀ w, (m w).2 = (perform env e op w).2) → (∀ w, permits id w op) → acts id m.
Proof.
  intros Hm Hp w. exists [op], w. split; [reflexivity|]. split; [by rewrite session_one|].
  by intros op' ->%list_elem_of_singleton.
Qed.

Lemma acts_authorized {A} id perm s (deny : err → A) (k : M S A) :
  (granted id perm s → acts id k) → acts id (authorized policy id perm s deny k).
Proof. intros Hk. unfold authorized. destruct (Authorize policy id perm s) eqn:Ha; [apply acts_ret|by apply Hk]. Qed.

Lemma permits_quiet id w w1 op : quiet Probe w w1 → permits id w1 op → permits id w op.
Proof. intros (_ & (Hv & _) & _). destruct op; simpl; unfold granted_on; rewrite ?Hv; done. Qed.

(** A read that finds a stored rollout, then an operation on it behind the
    authorization for its target. *)
Lemma acts_found {A B} id perm (find : M S A) (found : A → option Rollout) ro op (deny : A → B) (refuse : err → B) (k : M S B) :
  keeps (quiet Probe) find →
  (∀ w r, found (find w).1 = Some r → rollouts_of (w_store w) !! ro = Some r) →
  (∀ w, (k w).2 = (perform env e op w).2) →
  (∀ w, granted_on id perm w ro → permits id w op) →
  acts id (a ← find; match found a with
                     | None => mret (deny a)
                     | Some r => authorized policy id perm (target_scope (r_TargetRef r)) refuse k
                     end).
Proof.
  intros Hq Hf Hk Hp w. pose proof (Hq w) as Hw. specialize (Hf w). unfold mbind, M_bind.
  destruct (find w) as [a w1]. simpl in *. destruct (found a) as [r|] eqn:Hr.
  2:{ exists [], w1. split; [done|]. split; [done|set_solver]. }
  unfold authorized. destruct (Authorize policy id perm _) eqn:Ha.
  { exists [], w1. split; [done|]. split; [done|set_solver]. }
  exists [op], w1. split; [done|]. split; [by rewrite session_one|].
  intros op' ->%list_elem_of_singleton. eapply permits_quiet; [done|]. apply Hp. exists r. split; [|done].
  destruct Hw as (_ & (Hv & _) & _). rewrite Hv. by apply Hf.
Qed.

(** ** The shared flows *)
Lemma acts_on_rollout {A} id perm ro op (k : M S (Refusal + A)) :
  (∀ w, (k w).2 = (perform env e op w).2) → (∀ w, granted_on id perm w ro → permits id w op) →
  acts id (on_rollout policy id perm ro k).
Proof.
  intros Hk Hp w.
  destruct (acts_found id perm (Status ro) (λ res, match res with Ok r => Some r | Err _ => None end) ro op
    (λ res, match res with Err er => inl (Missing er) | Ok _ => inl (Missing ErrNotFound) end)
    (λ er, inl (Denied er)) k) with (w := w) as (ops & w1 & Hq & Hs & Hops); [apply quiet_load| |done|done|].
  { intros w1 r. unfold Status, store. pose proof (proj2 (load_rollout_spec ro (w_store w1))) as Hl.
    destruct (LoadRollout ro (w_store w1)) as [[r'|er] s]; simpl in *; [|done]. by intros [= <-]. }
  exists ops, w1. split; [done|]. split; [|done]. rewrite <- Hs. unfold on_rollout, on_result, mbind, M_bind.
  by destruct (Status ro w) as [[r|er] w2].
Qed.

Lemma acts_rollout_action id perm ro op (m : M S outcome) :
  (∀ w, (m w).2 = (perform env e op w).2) → (∀ w, granted_on id perm w ro → permits id w op) →
  acts id (rollout_action policy id perm ro m).
Proof.
  intros Hm. apply acts_on_rollout. intros w. rewrite <- Hm. apply bind_ret_world. by intros [rl er] w'.
Qed.

Lemma acts_verify_rollout id ro : acts id (verify_rollout env e policy id ro).
Proof.
  apply (acts_on_rollout id _ ro (OpVerify ro)); [|done]. intros w. simpl. rewrite discard_world.
  apply bind_ret_world. by intros [rep|er] w'.
Qed.

Lemma acts_rollback_target id ref force : acts id (rollback_target env e policy id ref force).
Proof.
  apply acts_authorized. intros Hg. apply (acts_op id (OpRollbackLast ref force)); [|done].
  intros w. simpl. rewrite discard_world. apply bind_ret_world. by intros [rl er] w'.
Qed.

Lemma acts_set_freeze id active reason :
  granted id PermFreeze any_scope → acts id (set_freeze env e id active reason).
Proof.
  intros Hg. apply (acts_op id (OpFreeze active id reason)); [|done].
  intros w. simpl. rewrite discard_world. apply bind_ret_world. by intros [[a b] er] w'.
Qed.

Lemma acts_read_status {A} id s (c : M S (result A)) : keeps (quiet Probe) c → acts id (read_status policy id s c).
Proof. intros Hc. apply acts_authorized. intros _. apply acts_quiet. frame. Qed.

(** Planning the documents of a request, one operation each. *)
Lemma acts_plan_all id acc docs : acts id (plan_all env e policy id acc docs).
Proof.
  assert (∀ w, ∃ ops, (plan_all env e policy id acc docs w).2 = (session env e ops w).2 ∧
                      ∀ op, op ∈ ops → ∃ c, op = OpPlan c ∧ granted id PermPlan (scopeOf c)) as Hall.
  { revert acc. induction docs as [|d docs IH]; intros acc w; simpl; [exists []; set_solver|].
    unfold authorized. destruct (Authorize policy id PermPlan _) eqn:Ha; [exists []; set_solver|].
    unfold on_result, mbind, M_bind. destruct (Plan env e (nc_Config d) w) as [[p|er] w1] eqn:Hp.
    - destruct (IH (add_plan acc p) w1) as (ops & Hops & Hg). exists (OpPlan (nc_Config d) :: ops). split.
      + rewrite Hops. simpl. unfold mbind, M_bind, discard, mbind, M_bind. by rewrite Hp.
      + intros op [-> | Hin]%elem_of_cons; [by eexists|by apply Hg].
    - exists [OpPlan (nc_Config d)]. split.
      + rewrite session_one. simpl. rewrite discard_world, Hp. done.
      + intros op ->%list_elem_of_singleton. by eexists. }
  intros w. destruct (Hall w) as (ops & Hops & Hg). exists ops, w. split; [reflexivity|]. split; [done|].
  intros op (c & -> & Hc)%Hg. by left.
Qed.

Lemma acts_plan_documents id registry data path : acts id (plan_documents env e fs getenv policy id registry data path).
Proof.
  unfold plan_documents. destruct (LoadClusterRegistryEnv _ _ _) as [reg [er|]]; [apply acts_ret|].
  destruct (loadDocuments _ _ _) as [docs|]; [|apply acts_ret].
  apply acts_bind_ret; [done|]. apply acts_plan_all.
Qed.

Lemma acts_apply_document id data : acts id (apply_document env e policy id data).
Proof.
  unfold apply_document. destruct (RefuseApplyRolloutSet _); [apply acts_ret|]. destruct (load _) as [c|]; [|apply acts_ret].
  apply acts_authorized. intros Hg w. unfold on_result.
  set (req := {| rq_Config := c; rq_Initiator := id; rq_Root := ""; rq_Planned := true;
                 rq_NeedsApproval := false; rq_Risk := RiskFromConfig c [] |}).
  unfold mbind at 1, M_bind at 1. destruct (Plan env e c w) as [[p|er] w1] eqn:Hp.
  - exists [OpPlan c; OpApply req], w. split; [reflexivity|]. split.
    + rewrite bind_ret_world by (by intros [rl er] w'). simpl. unfold mbind, M_bind.
      destruct (discard (Plan env e c) w) as [u w1'] eqn:Hd.
      assert (w1' = w1) as -> by (pose proof (discard_world (Plan env e c) w) as Hw; rewrite Hd, Hp in Hw; done).
      pose proof (discard_world (Apply env e req) w1) as Hw. by destruct (discard (Apply env e req) w1).
    + intros op [-> | ->%list_elem_of_singleton]%elem_of_cons; [by right|done].
  - exists [OpPlan c], w. split; [reflexivity|]. split; [by rewrite session_one; simpl; rewrite discard_world, Hp|].
    intros op ->%list_elem_of_singleton. by right.
Qed.
End Acts.

Create HintDb acts discriminated.
#[export] Hint Resolve acts_ret acts_verify_rollout acts_rollback_target acts_plan_documents acts_apply_document : acts.

(** Decomposes a handler down to the shared flows and the operations. *)
Ltac acts_step :=
  match goal with
  | |- acts _ _ _ _ (_ <$> _) => apply acts_fmap
  | |- acts _ _ _ _ (authorized _ _ _ _ _ _) => apply acts_authorized; intros ?
  | |- acts _ _ _ _ (if ?b then _ else _) => destruct b
  | |- acts _ _ _ _ (match ?x with _ => _ end) => destruct x
  | |- acts _ _ _ _ _ => solve [eauto 2 with acts]
  | |- acts _ _ _ _ (mbind _ _) => apply acts_bind_ret; [solve [by intros | by intros [] | by intros [[] []]]|]
  end.
Ltac acts_steps := repeat acts_step.

(** ** The surfaces *)
Section Surfaces.
Context {S : Type} `{!Store S, !StoreLaws S}.
Notation HW := (EngineDeploy.HW (S := S)).
Context `{!Statechart Phase LifeContext unit, !StatechartLaws Phase LifeContext unit}.
Context `{!Statechart StepState StepContext HW, !StatechartLaws StepState StepContext HW}.
Context `{!Yaml, !Bodies} (env : Env) (e : Engine) (fs : FS) (getenv : string → string).
Context (identify : string → option Identity) (policy : Policy) (sync : option (M S (option err))).
Implicit Types (w : World S).
Notation acts := (acts (S := S) env e policy).

Lemma quiet_FleetStatus filter_ : keeps (quiet (S := S) Probe) (FleetStatus filter_).
Proof. unfold FleetStatus. frame. Qed.
Lemma quiet_DriftReport : keeps (quiet (S := S) Probe) DriftReport.
Proof. unfold DriftReport. frame. Qed.
Lemma acts_Status id s ro : acts id (read_status policy id s (Status ro)).
Proof. apply acts_read_status, quiet_load. Qed.
Lemma acts_Fleet id s filter_ : acts id (read_status policy id s (FleetStatus filter_)).
Proof. apply acts_read_status, quiet_FleetStatus. Qed.
Lemma acts_List id s n : acts id (read_status policy id s (List n)).
Proof. apply acts_read_status, quiet_list. Qed.
Lemma acts_History id s ref : acts id (read_status policy id s (History ref)).
Proof. apply acts_read_status, quiet_history. Qed.
Lemma acts_Drift id s : acts id (read_status policy id s DriftReport).
Proof. apply acts_read_status, quiet_DriftReport. Qed.
#[local] Hint Resolve acts_Status acts_Fleet acts_List acts_History acts_Drift acts_set_freeze : acts.

(** The operations on a rollout the surfaces offer, by the permission each needs. *)
Lemma acts_Approve id ro : acts id (rollout_action policy id PermApprove ro (Approve env e ro id)).
Proof. by apply (acts_rollout_action _ _ _ id _ ro (OpApprove ro id)); [intros w; rewrite <- discard_world|]. Qed.
Lemma acts_Reject id ro : acts id (rollout_action policy id PermApprove ro (Reject env ro id)).
Proof. by apply (acts_rollout_action _ _ _ id _ ro (OpReject ro id)); [intros w; rewrite <- discard_world|]. Qed.
Lemma acts_Promote id ro force : acts id (rollout_action policy id PermPromote ro (Promote env e ro id force)).
Proof. by apply (acts_rollout_action _ _ _ id _ ro (OpPromote ro id force)); [intros w; rewrite <- discard_world|]. Qed.
Lemma acts_Pause id ro : acts id (rollout_action policy id PermApply ro (Pause env e ro id)).
Proof. by apply (acts_rollout_action _ _ _ id _ ro (OpPause ro id)); [intros w; rewrite <- discard_world|]. Qed.
Lemma acts_Resume id ro : acts id (rollout_action policy id PermApply ro (Resume env e ro id)).
Proof. by apply (acts_rollout_action _ _ _ id _ ro (OpResume ro id)); [intros w; rewrite <- discard_world|]. Qed.
Lemma acts_Abort id ro : acts id (rollout_action policy id PermApply ro (Abort env e ro id)).
Proof. by apply (acts_rollout_action _ _ _ id _ ro (OpAbort ro id)); [intros w; rewrite <- discard_world|]. Qed.
#[local] Hint Resolve acts_Approve acts_Reject acts_Promote acts_Pause acts_Resume acts_Abort : acts.

Lemma acts_mux id registry r : acts id (mux env e fs getenv policy id registry r).
Proof.
  unfold mux, handlePlan, handleApply, handleRollback, handleVerify, handleFreeze, handleStatus, handleFleet,
    rolloutAction, with_id.
  acts_steps.
Qed.

Lemma acts_grpc id registry req : acts id (grpc_call env e fs getenv policy id registry req).
Proof.
  unfold grpc_call, grpc_Plan, grpc_Apply, grpc_Status, grpc_Rollback, grpc_action, grpc_Verify, grpc_Freeze, grpc_FleetStatus.
  acts_steps.
Qed.

Lemma acts_mcp id registry t : acts id (mcp_call env e fs getenv policy id registry t).
Proof. unfold mcp_call, mcp_Plan, mcp_Apply, mcp_action, mcp_Verify, mcp_Freeze, mcp_History, mcp_Rollback, mcp_Status, mcp_List, mcp_Drift, mcp_Fleet. acts_steps. Qed.

(** The console looks a rollout up in a listing. *)
Lemma found_is_stored ro w (r : Rollout) : (rolloutByID ro w).1 = Some r → rollouts_of (w_store w) !! ro = Some r.
Proof.
  unfold rolloutByID, List, store, mbind, M_bind. pose proof (proj2 (list_limit_spec 200 (w_store w))) as Hl.
  destruct (ListRollouts 200 (w_store w)) as [[rs|er] s]; simpl in *; [|done].
  intros Hh. apply head_Some_elem_of, list_elem_of_filter in Hh as [<- Hr]. by apply Hl.
Qed.

Lemma acts_by_id id perm r (m : string → M S outcome) (op : string → Operation) :
  (∀ ro w, (m ro w).2 = (perform env e (op ro) w).2) →
  (∀ ro w, granted_on policy id perm w ro → permits policy id w (op ro)) →
  acts id (by_id (Some policy) id perm r m).
Proof.
  intros Hm Hp. unfold by_id, with_id. acts_steps.
  refine (acts_found env e policy id perm (rolloutByID s) (λ found, found) s (op s) (λ _, writeErr 404 "rollout not found")
    (λ _, writeErr 403 "forbidden") _ _ (found_is_stored s) _ (Hp s)).
  - unfold rolloutByID, List. frame.
  - intros w. rewrite <- Hm. apply bind_ret_world. by intros [rl er] w'.
Qed.

(** The operations of a caller who may be nobody. *)
Definition acts_as {A} (who : option Identity) (m : M S A) w : Prop :=
  ∃ ops w1, quiet Probe w w1 ∧ (m w).2 = (session env e ops w1).2 ∧
    ∀ op, op ∈ ops → ∃ id, who = Some id ∧ permits policy id w op.

Lemma acts_as_some {A} id (m : M S A) w : acts id m → acts_as (Some id) m w.
Proof. intros Hm. destruct (Hm w) as (ops & w1 & ? & ? & Hp). exists ops, w1. split_and!; [done..|]. eauto. Qed.

Lemma acts_as_quiet {A} who (m : M S A) w : keeps (quiet Probe) m → acts_as who m w.
Proof. intros Hm. exists [], (m w).2. split; [apply Hm|]. split; [done|]. set_solver. Qed.

Lemma acts_as_identity who (k : Identity → M S Reply) w : (∀ id, acts id (k id)) → acts_as who (with_identity who k) w.
Proof. intros Hk. destruct who as [id|]; [by apply acts_as_some, Hk|]. apply acts_as_quiet, keeps_ret, _. Qed.

Ltac one_operation := intros; simpl; rewrite ?discard_world; first [done | apply bind_ret_world; by intros [] | by split].

Lemma quiet_dashboard : keeps (quiet (S := S) Probe) (apiDashboard e sync).
Proof. unfold apiDashboard, List, FreezeStatus. pose proof quiet_DriftReport. frame. Qed.
Lemma quiet_target r : keeps (quiet (S := S) Probe) (apiTarget env sync r).
Proof. unfold apiTarget, List, Diff, Resources, History. pose proof quiet_DriftReport. frame. Qed.

(** A request of the console is such a session too, or - on [/ui/api/sync], for
    a caller who may apply anywhere - a run of [sync]. *)
Lemma acts_console who r w :
  acts_as who (ui_serve env e (Some policy) sync who r) w ∨
  ∃ id run, who = Some id ∧ granted policy id PermApply any_scope ∧ sync = Some run ∧
    (ui_serve env e (Some policy) sync who r w).2 = (run w).2.
Proof.
  unfold ui_serve. destruct (ui_route _ _) as [status|route]; [left; apply acts_as_quiet, keeps_ret, _|].
  destruct route.
  4-11: left; apply acts_as_identity; intros id.
  - left. apply acts_as_quiet, keeps_ret, _.
  - left. apply acts_as_quiet, quiet_dashboard.
  - left. apply acts_as_quiet, quiet_target.
  - apply (acts_by_id _ _ _ _ (λ ro, OpApprove ro id)); one_operation.
  - apply (acts_by_id _ _ _ _ (λ ro, OpReject ro id)); one_operation.
  - apply (acts_by_id _ _ _ _ (λ ro, OpPromote ro id false)); one_operation.
  - apply (acts_by_id _ _ _ _ (λ ro, OpPause ro id)); one_operation.
  - apply (acts_by_id _ _ _ _ (λ ro, OpResume ro id)); one_operation.
  - apply (acts_by_id _ _ _ _ (λ ro, OpAbort ro id)); one_operation.
  - unfold ui_authorized. acts_steps. apply (acts_op env e policy id (OpFreeze b id s)); one_operation.
  - unfold ui_authorized. acts_steps. apply (acts_op env e policy id (OpRollbackLast s b)); one_operation.
  - destruct who as [id|]; [|left; apply acts_as_quiet, keeps_ret, _].
    unfold apiSync, with_identity, ui_authorized, authorized.
    destruct (Authorize policy id PermApply any_scope) eqn:Ha; [left; apply acts_as_quiet, keeps_ret, _|].
    destruct sync as [run|]; [|left; apply acts_as_quiet, keeps_ret, _].
    right. exists id, run. split_and!; [done..|]. unfold on_error. apply bind_ret_world. by intros [er|] w'.
Qed.

(** The probe's path leads nowhere else. *)
Lemma route_healthz method : (∃ status, route method "/healthz" = inl status) ∨ route method "/healthz" = inr RHealthz.
Proof.
  unfold route. change (clean_path "/healthz" != "/healthz") with false.
  change (post_route "/healthz") with (@None Route). change (get_route "/healthz") with (Some RHealthz).
  cbv iota. destruct (_ || _); [by right|left; by eexists].
Qed.

Lemma acts_as_fmap {A B} who (f : A → B) (m : M S A) w : acts_as who m w → acts_as who (f <$> m) w.
Proof. intros (ops & w1 & Hq & Hs & Hp). exists ops, w1. split_and!; [done| |done]. by rewrite <- Hs; apply bind_ret_world. Qed.

(** A caller known by a token that is not empty. *)
Definition known (token : string) : option Identity := if token == "" then None else identify token.

Lemma Handler_acts registry r w :
  acts_as (known (bearer (hr_Authorization r))) (Handler env e fs getenv identify policy registry r) w.
Proof.
  unfold Handler, known. remember (hr_Path r == "/healthz") as probe eqn:Hh. destruct probe.
  { symmetry in Hh. apply bool_decide_eq_true in Hh. exists [], w. split; [reflexivity|]. split; [|set_solver]. unfold mux. rewrite Hh.
    by destruct (route_healthz (hr_Method r)) as [[status ->] | ->]. }
  clear Hh. destruct (identify _) as [id|]; case_bool_decide; try apply acts_as_quiet, keeps_ret, _.
  apply acts_as_some, acts_mux.
Qed.

Lemma grpc_acts registry md req w :
  acts_as (known (bearerFromMD md)) (grpc_serve env e fs getenv identify policy registry md req) w.
Proof.
  unfold grpc_serve, known. destruct (identify _) as [id|]; case_bool_decide; try apply acts_as_quiet, keeps_ret, _.
  apply acts_as_some, acts_grpc.
Qed.

Lemma mcp_acts registry h t w :
  acts_as (known (bearer h)) (mcp_serve env e fs getenv identify policy registry h t) w.
Proof.
  unfold mcp_serve, injectIdentity, known. case_bool_decide; [apply acts_as_quiet, keeps_ret, _|].
  destruct (identify _) as [id|]; [|apply acts_as_quiet, keeps_ret, _]. apply acts_as_some, acts_mcp.
Qed.
End Surfaces.
