(* ===== verification/EngineSafety.v ===== *)
(** * Engine: what stops a deployment

    The refusals of the engine: a freeze, an approval that is needed, a rollout
    in flight, the four-eyes rule, an unsafe rollback.  Each shows that the
    operation reports the refusal and that nothing outside was touched: the
    interactions stay within [Probe], the store's view is as before. *)

From S2P Require Import Prelude GoTime Statekit Config Progressive Model Lifecycle Risk Analysis Security.
From S2P Require Import Store World EngineBase EngineGates EngineRollback EngineDeploy Scenario Frame EngineLocks EngineMoves.
From Stdlib Require Import Floats.

Definition is_error {A} (r : A * option err) : bool := match r.2 with Some _ => true | None => false end.

Section Safety.
Context {S : Type} `{!Store S, !StoreLaws S}.
Notation HW := (EngineDeploy.HW (S := S)).
Context `{!Statechart Phase LifeContext unit, !StatechartLaws Phase LifeContext unit}.
Context `{!Statechart StepState StepContext HW, !StatechartLaws StepState StepContext HW}.
Context (env : Env) (e : Engine).
Implicit Types (w : World S).

(** ** The freeze *)
Definition frozen w : Prop := fs_Active (freeze_of (w_store w)) = true.

Lemma frozen_view w w' : same_view (w_store w) (w_store w') → frozen w → frozen w'.
Proof. unfold frozen. by intros (_ & _ & ->). Qed.

(** A read of the freeze made now says engaged or fails. *)
Definition halted w : Prop := frozen w ∨ ∃ er, (LoadFreeze (w_store w)).1 = Err er.

Lemma halted_frozen w : frozen w → halted w.
Proof. by left. Qed.
#[local] Hint Resolve halted_frozen : core.

Lemma frozen_check g id t w :
  gr_FreezeSource g = true → halted w →
  ∃ er w', CheckApply env g id t w = (Err er, w') ∧ errors_Is er ErrFrozen = true ∧ quiet Probe w w'.
Proof.
  intros Hg Hf. pose proof (quiet_CheckApply env Probe g id t w) as Hq.
  revert Hq. unfold CheckApply, on_result, store, mbind, M_bind, mret, M_ret. rewrite Hg.
  pose proof (load_freeze_spec (w_store w)) as [_ Hl]. unfold halted in Hf. destruct (LoadFreeze (w_store w)) as [[f|er] s]; simpl in Hl.
  - destruct Hf as [Hf|[er Her]]; [|done]. subst f. rewrite Hf. intros Hq. eexists _, _. split_and!; [done|done|exact Hq].
  - intros Hq. eexists _, _. split_and!; [done|done|exact Hq].
Qed.

Lemma frozen_apply_gates g req w :
  e_guardrails e = Some g → gr_FreezeSource g = true → halted w →
  ∃ er w', apply_gates env e req w = (Err er, w') ∧ errors_Is er ErrFrozen = true ∧ quiet Probe w w'.
Proof.
  intros He Hg Hf. pose proof (λ id t, frozen_check g id t w Hg Hf) as Hc.
  unfold apply_gates. rewrite He. unfold on_result at 1. unfold mbind, M_bind.
  match goal with |- context [CheckApply env g ?i ?t w] => destruct (Hc i t) as (er & w1 & -> & Hi & Hq) end.
  pose proof (quiet_record e Probe (entry ActionApply (Config.tg_Ref (target_of (rq_Config req))) (rq_Initiator req)
    ("blocked: " +:+ err_str er)) w1) as Hr.
  destruct (record e _ w1) as [u w2]. exists er, w2. split_and!; [done|done|]. etransitivity; [exact Hq|exact Hr].
Qed.

Lemma frozen_Apply g req w :
  e_guardrails e = Some g → gr_FreezeSource g = true → halted w →
  ∃ er w', Apply env e req w = ((None, Some er), w') ∧ quiet Probe w w' ∧
           (id_Kind (rq_Initiator req) ≠ "agent" ∨ rq_Planned req = true → errors_Is er ErrFrozen = true).
Proof.
  intros He Hg Hf. unfold Apply. case_match eqn:Hagent.
  - eexists _, w. split_and!; [done|reflexivity|]. split_bool. intros [|]; congruence.
  - destruct (frozen_apply_gates g req w He Hg Hf) as (er & w1 & Hr & Hi & Hq).
    unfold on_result, mbind, M_bind. rewrite Hr. eauto.
Qed.

(** The guardrail check as [Approve] and [applyScheduled] use it. *)
Definition guarded_check {A} g (id : Identity) (t : FloorInput) (en : err → Entry) (refuse : err → A)
    (k : bool → M S A) : M S A :=
  get force <- CheckApply env g id t catch er => (record e (en er);; mret (refuse er));
  k force.

Lemma frozen_guarded {A} g id t en (refuse : err → A * option err) k w :
  gr_FreezeSource g = true → halted w → (∀ er, is_error (refuse er) = true) →
  quiet Probe w (guarded_check g id t en refuse k w).2 ∧ is_error (guarded_check g id t en refuse k w).1 = true.
Proof.
  intros Hg Hf He. unfold guarded_check, on_result, mbind, M_bind.
  destruct (frozen_check g id t w Hg Hf) as (er & w1 & -> & _ & Hq).
  pose proof (quiet_record e Probe (en er) w1) as Hr. destruct (record e (en er) w1) as [u w2]. simpl in *.
  split; [|apply He]. etransitivity; [exact Hq|exact Hr].
Qed.

(** The freeze at the time of the check: [Approve] checks when it has read the
    rollout and holds the target, a scheduled apply when it holds the target, and
    the schedules that are due run one after the other. *)
Definition halts_approve (id : string) w : Prop :=
  ∀ r w1, store (LoadRollout id) w = (Ok r, w1) → halted (acquireTarget env e (r_TargetRef r) w1).2.

Fixpoint halts_all (due : list ScheduledRollout) w : Prop :=
  match due with
  | [] => True
  | s :: due => halted (acquireTarget env e (sr_TargetRef s) w).2 ∧ halts_all due (applyScheduled env e s w).2
  end.
Definition halts_schedules (t : Time) w : Prop :=
  ∀ due w1, store (DueSchedules t) w = (Ok due, w1) → halts_all due w1.

Lemma halted_acquire ref w : frozen w → halted (acquireTarget env e ref w).2.
Proof.
  intros Hf. left. eapply frozen_view; [|exact Hf]. pose proof (acquire_spec env e ref w) as H.
  destruct (acquireTarget env e ref w) as [ok w1]. by destruct H as ((_ & Hv & _) & _).
Qed.

Lemma frozen_Approve g id by_ w :
  e_guardrails e = Some g → gr_FreezeSource g = true → halts_approve id w →
  quiet Probe w (Approve env e id by_ w).2 ∧ is_error (Approve env e id by_ w).1 = true.
Proof.
  intros He Hg Hf. unfold halts_approve in Hf. unfold Approve. unfold on_result at 1 3, mbind, M_bind.
  pose proof (quiet_load Probe id w) as Hl. destruct (store (LoadRollout id) w) as [[r|er] w1]; [|done].
  simpl in Hl. case_match.
  { pose proof (quiet_record e Probe (rentry ActionApply r "" by_ "approve rejected: four-eyes (approver == initiator)") w1) as Hr.
    destruct (record e _ w1) as [u w2]. split; [|done]. etransitivity; [exact Hl|exact Hr]. }
  rewrite He.
  pose (body := guarded_check g by_ (no_floor_input (r_TargetRef r))
    (λ er, rentry ActionApply r "" by_ ("approve blocked: " +:+ err_str er)) (λ er, (Some r, Some er))
    (λ _, approve_deploy env r by_)).
  destruct (refused_with_target env e Probe (λ a, is_error a = true) (r_TargetRef r) (λ er, (Some r, Some er)) body w1) as [Hq Hr];
    [done|by apply frozen_guarded; [|apply Hf|]|].
  split; [|exact Hr]. etransitivity; [exact Hl|exact Hq].
Qed.

Lemma frozen_applyScheduled g s w :
  e_guardrails e = Some g → gr_FreezeSource g = true → halted (acquireTarget env e (sr_TargetRef s) w).2 →
  quiet Probe w (applyScheduled env e s w).2 ∧ is_error (applyScheduled env e s w).1 = true.
Proof.
  intros He Hg Hf. unfold applyScheduled. rewrite He.
  apply (refused_with_target env e Probe (λ a, is_error a = true)); [done|]. by apply frozen_guarded.
Qed.

Lemma frozen_fire_all g due w :
  e_guardrails e = Some g → gr_FreezeSource g = true → halts_all due w →
  quiet Probe w (fire_all env e due w).2 ∧ (fire_all env e due w).1.1 = [].
Proof.
  intros He Hg. revert w. induction due as [|s due IH]; intros w Hf; [done|]. destruct Hf as [Hs Hf]. cbn [fire_all].
  destruct (frozen_applyScheduled g s w He Hg Hs) as [Hq Hr]. unfold mbind, M_bind.
  destruct (applyScheduled env e s w) as [[fired [er|]] w1]; [|done]. simpl in Hq.
  destruct (IH w1 Hf) as [Hq1 Hr1].
  destruct (fire_all env e due w1) as [[rs errs] w2]. simpl in *. subst. split; [|done].
  etransitivity; [exact Hq|exact Hq1].
Qed.

Lemma frozen_Fire g t w :
  e_guardrails e = Some g → gr_FreezeSource g = true → halts_schedules t w →
  quiet Probe w (FireDueSchedules env e t w).2 ∧ (FireDueSchedules env e t w).1.1 = [].
Proof.
  intros He Hg Hf. unfold halts_schedules in Hf. unfold FireDueSchedules, on_result, mbind, M_bind.
  pose proof (quiet_due Probe t w) as Hl. destruct (store (DueSchedules t) w) as [[due|er] w1]; [|done].
  simpl in Hl. destruct (frozen_fire_all g due w1 He Hg) as [Hq Hr]; [by apply Hf|].
  split; [|done]. etransitivity; [exact Hl|exact Hq].
Qed.

Lemma frozen_halts_all g due w :
  e_guardrails e = Some g → gr_FreezeSource g = true → frozen w → halts_all due w.
Proof.
  intros He Hg. revert w. induction due as [|s due IH]; intros w Hf; [done|]. cbn [halts_all]. split; [by apply halted_acquire|].
  destruct (frozen_applyScheduled g s w He Hg) as [Hq _]; [by apply halted_acquire|].
  apply IH. eapply frozen_view; [apply Hq|done].
Qed.

(** A stored freeze is engaged at every one of these checks. *)
Lemma frozen_halts g w :
  e_guardrails e = Some g → gr_FreezeSource g = true → frozen w →
  halted w ∧ (∀ id, halts_approve id w) ∧ (∀ t, halts_schedules t w).
Proof.
  intros He Hg Hf. split_and!; [by left| |].
  - intros id r w1 Hl. apply halted_acquire. eapply frozen_view; [|exact Hf].
    pose proof (quiet_load Probe id w) as Hq. rewrite Hl in Hq. apply Hq.
  - intros t due w1 Hl. eapply frozen_halts_all; [done..|]. eapply frozen_view; [|exact Hf].
    pose proof (quiet_due Probe t w) as Hq. rewrite Hl in Hq. apply Hq.
Qed.

(** ** The approval gate *)
Definition floor_input (req : ApplyRequest) : FloorInput := {|
  fi_TargetRef := Config.tg_Ref (target_of (rq_Config req)); fi_Environment := ri_Environment (rq_Risk req);
  fi_ChangeType := ri_ChangeType (rq_Risk req); fi_Criticality := Config.tg_Criticality (target_of (rq_Config req)) |}.

(** The world in which an apply scores the risk: after the guardrails. *)
Definition guarded (req : ApplyRequest) : M S (result bool) :=
  match e_guardrails e with
  | None => mret (Ok false)
  | Some g => CheckApply env g (rq_Initiator req) (floor_input req)
  end.
Definition scored_in (req : ApplyRequest) w : World S := (guarded req w).2.

(** Approval is asked for by the request, the policy floor or the risk gate: the
    decision it makes of the history as it is when the apply evaluates it. *)
Definition wants_approval (req : ApplyRequest) w : Prop :=
  rq_NeedsApproval req = true ∨
  (∃ g, e_guardrails e = Some g ∧ MustApprove (gr_Floor g) (floor_input req) = true) ∨
  (risk_configured (rq_Config req) = true ∧
   ∃ d, (EvaluateRisk env (rq_Config req) (rq_Risk req) (scored_in req w)).1 = Ok d ∧ d_NeedsApproval d = true).

Lemma CheckApply_floor g id t w force : (CheckApply env g id t w).1 = Ok force → force = MustApprove (gr_Floor g) t.
Proof.
  unfold CheckApply, mbind, M_bind, mret, M_ret.
  destruct ((if gr_FreezeSource g then _ else _ : M S (option err)) w) as [[er|] w1]; [done|].
  destruct ((if _ && gr_AgentLimit g then _ else _ : M S bool) w1) as [[] w2]; simpl; [by intros [= <-]|done].
Qed.

Lemma apply_gates_ask req w need score :
  wants_approval req w → (apply_gates env e req w).1 = Ok (need, score) → need = true.
Proof.
  intros Hw. unfold apply_gates. cbv zeta. fold (floor_input req).
  change (match e_guardrails e with None => mret (Ok false) | Some g => _ end) with (guarded req).
  assert (∀ force, (guarded req w).1 = Ok force → ∀ g, e_guardrails e = Some g → force = MustApprove (gr_Floor g) (floor_input req)) as Hforce.
  { intros force Hf g Hg. unfold guarded in Hf. rewrite Hg in Hf. by eapply CheckApply_floor. }
  unfold on_result at 1, mbind, M_bind. unfold wants_approval, scored_in in Hw.
  destruct (guarded req w) as [[force|er] w1]; [|by destruct (record e _ w1)]. cbn [fst snd] in Hw, Hforce.
  unfold on_result, mbind, M_bind. destruct (risk_configured (rq_Config req)).
  - destruct (EvaluateRisk env (rq_Config req) (rq_Risk req) w1) as [[d|er] w2] eqn:Er; [|done]. cbn.
    destruct (governance_Evaluate env e _ w2) as [gov w3]. repeat case_match; try (by destruct (record e _ _)).
    all: cbn; intros [= <- _]; destruct Hw as [->|[(g & Hg & Hm)|(_ & d' & [= <-] & ->)]]; [done| |by rewrite orb_true_r];
      by rewrite (Hforce _ eq_refl g Hg), Hm, orb_true_r.
  - cbn. destruct (governance_Evaluate env e _ w1) as [gov w3]. repeat case_match; try (by destruct (record e _ _)).
    all: cbn; intros [= <- _]; destruct Hw as [->|[(g & Hg & Hm)|(? & _)]]; [done| |done];
      by rewrite (Hforce _ eq_refl g Hg), Hm, orb_true_r.
Qed.

(** The stored phase of a rollout. *)
Definition phase_in w (id : string) : option Phase := r_Phase <$> rollouts_of (w_store w) !! id.

#[global] Instance phase_in_stable id p : Stable (λ w, phase_in w id = p).
Proof. intros w w' ((Hr & _) & _). unfold phase_in. by rewrite Hr. Qed.

Lemma saved_phase r w : (save r w).1 = None → phase_in (save r w).2 (r_ID r) = Some (r_Phase r).
Proof.
  unfold save, store. pose proof (save_rollout_spec r (w_store w)) as Hs.
  destruct (SaveRollout r (w_store w)) as [o s]. simpl. intros ->. destruct Hs as (Hr & _).
  unfold phase_in. simpl. rewrite Hr, lookup_insert_eq. simpl. by rewrite stored_phase.
Qed.

(** What a gated apply promises of its outcome. *)
Definition waits (out : presult) w : Prop :=
  ∀ r, out = (Some r, None) → r_Phase r = PhaseAwaitingApproval ∧ phase_in w (r_ID r) = Some PhaseAwaitingApproval.

#[global] Instance waits_stable out : Stable (waits out).
Proof. intros w w' Hs Hw r Hr. destruct (Hw r Hr). split; [done|]. by eapply (phase_in_stable _ _ w). Qed.

Lemma waits_error o er w : waits (o, Some er) w.
Proof. by intros r. Qed.

Lemma calm_apply_commit_gated req lc r m tgt :
  r_Phase r = PhaseAwaitingApproval → keeps (calm (S := S) Probe) (apply_commit env e req lc r m tgt).
Proof.
  intros Hr. unfold apply_commit. rewrite (bool_decide_eq_true_2 (r_Phase r = _)) by done. cbv zeta.
  apply keeps_on_error; [apply _|apply calm_store|intros ?; frame|frame].
Qed.

Lemma t_apply_commit_gated req lc r m tgt :
  r_Phase r = PhaseAwaitingApproval → triple (λ _, True) (apply_commit env e req lc r m tgt) waits.
Proof.
  intros Hr. unfold apply_commit. rewrite (bool_decide_eq_true_2 (r_Phase r = _)) by done. cbv zeta.
  apply (t_bind _ _ _ (λ o w, o = None → phase_in w (r_ID r) = Some PhaseAwaitingApproval)).
  { intros w _. rewrite <- Hr. apply saved_phase. }
  intros [er|]; [apply t_ret; intros; apply waits_error|].
  apply (t_pre _ (λ w, phase_in w (r_ID r) = Some PhaseAwaitingApproval)); [by intros w ->|].
  t_step. apply (t_quiet All); [apply _|case_match; frame|intros _]. t_step. apply t_ret.
  intros w Hw r' [= <-]. done.
Qed.

Lemma calm_apply_locked_gated req score : keeps (calm (S := S) Probe) (apply_locked env e req true score).
Proof.
  unfold apply_locked. cbv zeta.
  repeat match goal with
  | |- keeps _ (mbind _ (newID _)) => fail 1
  | |- keeps _ (let '(_, _) := Send _ EventGate in _) => fail 1
  | _ => frame_step
  end.
  destruct (Send _ EventGate) as [lc2 [q2 [er|]]] eqn:H2; frame. apply calm_apply_commit_gated. simpl.
  by edestruct gated_phase as [_ ->].
Qed.

Lemma t_apply_locked_gated req score : triple (λ _, True) (apply_locked env e req true score) waits.
Proof.
  assert (∀ er : err, triple (λ _, True) (mret (None, Some er)) waits) as Herr
    by (intros; apply t_ret; intros; apply waits_error).
  unfold apply_locked. cbv zeta.
  t_step; [apply Herr|]. t_step; [apply Herr|]. t_step; [|apply Herr]. t_step; [apply Herr|]. t_step.
  t_step; [apply Herr|]. t_step; [apply Herr|]. t_step; [apply Herr|].
  destruct (Send _ EventValidate) as [lc1 [q1 [er|]]] eqn:H1; [apply Herr|].
  destruct (Send lc1 EventGate) as [lc2 [q2 [er|]]] eqn:H2; [apply Herr|]. t_step. t_step.
  apply (t_quiet All); [apply _|case_match; frame|intros blocked].
  apply t_apply_commit_gated. simpl. by edestruct gated_phase as [_ ->].
Qed.

Lemma gated_Apply req w :
  wants_approval req w → calm Probe w (Apply env e req w).2 ∧ waits (Apply env e req w).1 (Apply env e req w).2.
Proof.
  intros Hw. unfold Apply. case_match; [split; [reflexivity|apply waits_error]|].
  pose proof (λ need score, apply_gates_ask req w need score Hw) as Hg. unfold on_result, mbind, M_bind.
  assert (keeps (calm (S := S) Probe) (apply_gates env e req)) as Hc by (unfold apply_gates; frame).
  specialize (Hc w). destruct (apply_gates env e req w) as [[[need score]|er] w1]; simpl in Hg, Hc;
    [|split; [done|apply waits_error]].
  rewrite (Hg _ _ eq_refl) in *. split.
  - etransitivity; [exact Hc|]. apply calm_with_target. apply calm_apply_locked_gated.
  - apply (t_with_target_res env e _ _ _ (λ _, True) waits); [apply t_apply_locked_gated| |done].
    intros; apply waits_error.
Qed.

(** ** One rollout at a time *)
Definition in_flight_row w (ref : string) : Prop :=
  ∃ id r, rollouts_of (w_store w) !! id = Some r ∧ r_TargetRef r = ref ∧
          (r_Phase r = PhaseDeploying ∨ r_Phase r = PhasePaused).

Lemma in_flight_view ref w w' : same_view (w_store w) (w_store w') → in_flight_row w ref → in_flight_row w' ref.
Proof. unfold in_flight_row. by intros (-> & _). Qed.

Lemma in_flight_found rs ref r :
  r ∈ rs → r_TargetRef r = ref → (r_Phase r = PhaseDeploying ∨ r_Phase r = PhasePaused) →
  ∃ r', in_flight ref rs = Some r'.
Proof.
  intros Hin Href Hp. unfold in_flight.
  destruct (filter _ rs) as [|r' l] eqn:Hf; [|by exists r'].
  exfalso. assert (r ∈ filter (λ r, r_TargetRef r = ref ∧ (r_Phase r = PhaseDeploying ∨ r_Phase r = PhasePaused)) rs) as Hr
    by (by apply list_elem_of_filter).
  rewrite Hf in Hr. by apply not_elem_of_nil in Hr.
Qed.

Lemma apply_locked_in_flight req need score w :
  in_flight_row w (Config.tg_Ref (target_of (rq_Config req))) →
  quiet Probe w (apply_locked env e req need score w).2 ∧ is_error (apply_locked env e req need score w).1 = true.
Proof.
  intros (id & r & Hr & Href & Hp). unfold apply_locked, InFlight, on_result, mbind, M_bind.
  pose proof (quiet_list Probe 0 w) as Hq. unfold store in *. pose proof (list_rollouts_spec (w_store w)) as [_ Hl].
  destruct (ListRollouts 0 (w_store w)) as [[rs|er] s]; [|done]. simpl in *.
  destruct (in_flight_found rs (Config.tg_Ref (target_of (rq_Config req))) r) as [r' Hr']; [|done..|].
  { rewrite Hl. apply list_elem_of_fmap. exists (id, r). split; [done|]. by apply elem_of_map_to_list. }
  rewrite Hr'. done.
Qed.

Lemma quiet_apply_gates req : keeps (quiet (S := S) Probe) (apply_gates env e req).
Proof. unfold apply_gates. frame. Qed.

Lemma busy_Apply req w :
  Config.tg_Ref (target_of (rq_Config req)) ∈ w_locks w →
  quiet Probe w (Apply env e req w).2 ∧ is_error (Apply env e req w).1 = true.
Proof.
  intros Hin. unfold Apply. case_match; [done|]. unfold on_result, mbind, M_bind.
  pose proof (quiet_apply_gates req w) as Hq. destruct (apply_gates env e req w) as [[[need score]|er] w1]; [|done].
  simpl in Hq. rewrite <- (proj1 (proj1 (proj1 Hq))) in Hin.
  destruct (with_target_busy env e _ (λ er, (None, Some er)) (apply_locked env e req need score) w1 Hin)
    as (w2 & -> & (Ht & Hv & Hz & Hk) & Hl).
  split; [|done]. etransitivity; [exact Hq|]. split; [|done]. split; [done|]. exists []. simpl. by rewrite Ht.
Qed.

Lemma in_flight_Apply req w :
  in_flight_row w (Config.tg_Ref (target_of (rq_Config req))) →
  quiet Probe w (Apply env e req w).2 ∧ is_error (Apply env e req w).1 = true.
Proof.
  intros Hf. unfold Apply. case_match; [done|]. unfold on_result, mbind, M_bind.
  pose proof (quiet_apply_gates req w) as Hq. destruct (apply_gates env e req w) as [[[need score]|er] w1]; [|done].
  simpl in Hq. assert (∀ w2, only_locks w1 w2 → in_flight_row w2 (Config.tg_Ref (target_of (rq_Config req)))) as Hf2.
  { intros w2 (_ & Hv & _). eapply in_flight_view; [exact Hv|]. eapply in_flight_view; [apply Hq|done]. }
  split; [etransitivity; [exact Hq|]; apply quiet_with_target_at|
          apply (result_with_target env e (λ a, is_error a = true)); [done|]];
    intros w2 Ho; by apply apply_locked_in_flight, Hf2.
Qed.

(** ** Rolling back over a migration *)
Lemma applyRollback_unsafe r prior note db w :
  rollback_unsafe r (rollback_hook r db) = true →
  is_error (applyRollback env e r prior note db false w).1.1 = true ∧ (applyRollback env e r prior note db false w).2 = w.
Proof. intros Hu. unfold applyRollback. cbv zeta. by rewrite Hu. Qed.

Lemma unsafe_Rollback id prior w :
  (∀ r, rollouts_of (w_store w) !! id = Some r → rollback_unsafe r (rollback_hook r None) = true) →
  quiet Probe w (Rollback env e id prior false w).2 ∧ is_error (Rollback env e id prior false w).1 = true.
Proof.
  intros Hu. unfold Rollback, rollbackWithNote, rollbackWithDatabase, on_result, mbind, M_bind.
  pose proof (quiet_load Probe id w) as Hq. pose proof (load_rollout_spec id (w_store w)) as [_ Hl]. unfold store in *.
  destruct (LoadRollout id (w_store w)) as [[r|er] s]; [|done]. simpl in Hq, Hl. specialize (Hu r Hl).
  pose proof (λ w2, applyRollback_unsafe r prior "" None w2 Hu) as Hun.
  split; [etransitivity; [exact Hq|]; apply quiet_with_target_at|
          apply (result_with_target env e (λ a, is_error a = true)); [done|]];
    intros w2 Ho; destruct (Hun w2) as [He Hw];
    by destruct (applyRollback env e r prior "" None false w2) as [[out r'] w3]; simpl in *; subst.
Qed.

(** ** Four eyes *)
Lemma self_Approve id by_ w :
  e_allowSelfApprove e = false →
  (∀ r, rollouts_of (w_store w) !! id = Some r →
        realPrincipal (r_Initiator r) && sameIdentity by_ (r_Initiator r) = true) →
  quiet Probe w (Approve env e id by_ w).2 ∧ is_error (Approve env e id by_ w).1 = true.
Proof.
  intros Hs Hr. unfold Approve, on_result at 1 3, mbind, M_bind.
  pose proof (quiet_load Probe id w) as Hq. pose proof (load_rollout_spec id (w_store w)) as [_ Hl]. unfold store in *.
  destruct (LoadRollout id (w_store w)) as [[r|er] s]; [|done]. simpl in Hq, Hl. specialize (Hr r Hl).
  rewrite Hs. simpl. rewrite Hr.
  match goal with |- context [record e ?x ?y] => pose proof (quiet_record e Probe x y) as Hq2; destruct (record e x y) as [u w2] end.
  split; [|done]. etransitivity; [exact Hq|exact Hq2].
Qed.
End Safety.

(** ** Properties *)

(** C4. The kill-switch stops every new deployment, and fails closed.  When the
    read of the freeze that an operation makes says engaged or fails, [Apply]
    refuses with [ErrFrozen], [Approve] and scheduled applies fail, no schedule
    fires, and nothing outside is deployed, executed or shifted and the store is
    left as it is.  A freeze that is stored as engaged is such a read for each of
    them.  (An agent that did not plan first is refused before the freeze is
    asked, as the first part says.) *)
Theorem freeze_stops_deploys {S} `{!Store S, !StoreLaws S, !Statechart Phase LifeContext unit}
    `{!Statechart StepState StepContext (World S * option err)} env e g (w : World S) :
  e_guardrails e = Some g → gr_FreezeSource g = true →
  (halted w → ∀ req, ∃ er, (Apply env e req w).1 = (None, Some er) ∧ quiet Probe w (Apply env e req w).2 ∧
     (id_Kind (rq_Initiator req) ≠ "agent" ∨ rq_Planned req = true → errors_Is er ErrFrozen = true)) ∧
  (∀ id by_, halts_approve env e id w →
     quiet Probe w (Approve env e id by_ w).2 ∧ is_error (Approve env e id by_ w).1 = true) ∧
  (∀ t, halts_schedules env e t w →
     quiet Probe w (FireDueSchedules env e t w).2 ∧ (FireDueSchedules env e t w).1.1 = []) ∧
  (fs_Active (freeze_of (w_store w)) = true →
     halted w ∧ (∀ id, halts_approve env e id w) ∧ (∀ t, halts_schedules env e t w)).
Proof.
  intros He Hg. split_and!.
  - intros Hf req. destruct (frozen_Apply env e g req w He Hg Hf) as (er & w' & -> & Hq & Hi). by exists er.
  - intros id by_. by eapply frozen_Approve.
  - intros t. by eapply frozen_Fire.
  - by eapply frozen_halts.
Qed.

(** C6. A rollout that needs approval waits for it.  When the request, the
    policy floor or the risk gate asks for approval - the gate as this apply
    evaluates it, on the history of the target at that moment - [Apply] deploys
    nothing, runs no command and shifts no traffic; and if it succeeds, the
    rollout it returns is stored awaiting approval. *)
Theorem gated_apply_waits {S} `{!Store S, !StoreLaws S}
    `{!Statechart Phase LifeContext unit, !StatechartLaws Phase LifeContext unit}
    `{!Statechart StepState StepContext (World S * option err)} env e req (w : World S) :
  wants_approval env e req w →
  let '(out, w') := Apply env e req w in
  grew Probe w w' ∧
  ∀ r, out = (Some r, None) → r_Phase r = PhaseAwaitingApproval ∧ phase_in w' (r_ID r) = Some PhaseAwaitingApproval.
Proof.
  intros Hw. pose proof (gated_Apply env e req w Hw) as [Hc Hr]. destruct (Apply env e req w) as [out w']. split; [apply Hc|].
  exact Hr.
Qed.

(** One rollout per target at a time: while a rollout of the target is
    stored as deploying or paused, or its lock is held, [Apply] for that target
    fails and neither deploys nor stores anything. *)
Theorem apply_refuses_busy_target {S} `{!Store S, !StoreLaws S, !Statechart Phase LifeContext unit}
    `{!Statechart StepState StepContext (World S * option err)} env e req (w : World S) :
  let ref := Config.tg_Ref (target_of (rq_Config req)) in
  in_flight_row w ref ∨ ref ∈ w_locks w →
  quiet Probe w (Apply env e req w).2 ∧ is_error (Apply env e req w).1 = true.
Proof. intros ref [Hf|Hl]; [by apply in_flight_Apply|by apply busy_Apply]. Qed.

(** A rollback does not silently undo code under a migrated database: when
    the release ran a migration that is not declared backward compatible and
    there is no database rollback command, an unforced rollback fails and
    nothing is re-applied or stored. *)
Theorem unsafe_rollback_refused {S} `{!Store S, !StoreLaws S, !Statechart Phase LifeContext unit}
    env e id prior (w : World S) :
  (∀ r, rollouts_of (w_store w) !! id = Some r →
        r_DBMigrateCmd r ≠ [] ∧ r_DBBackwardCompatible r = false ∧ r_DBRollbackCmd r = []) →
  quiet Probe w (Rollback env e id prior false w).2 ∧ is_error (Rollback env e id prior false w).1 = true.
Proof.
  intros Hu. apply unsafe_Rollback. intros r Hr. destruct (Hu r Hr) as (Hm & Hb & Hd).
  unfold rollback_unsafe, rollback_hook. rewrite Hb, Hd. simpl. by destruct (r_DBMigrateCmd r).
Qed.

(** Four eyes: unless self-approval is switched on, nobody approves a
    rollout they started themselves, the system account apart; the attempt
    deploys and stores nothing. *)
Theorem self_approval_refused {S} `{!Store S, !StoreLaws S, !Statechart Phase LifeContext unit}
    env e id by_ (w : World S) :
  e_allowSelfApprove e = false → id_Kind by_ ≠ "" → id_Name by_ ≠ "" → id_Name by_ ≠ "system" →
  (∀ r, rollouts_of (w_store w) !! id = Some r → id_Kind (r_Initiator r) = id_Kind by_ ∧ id_Name (r_Initiator r) = id_Name by_) →
  quiet Probe w (Approve env e id by_ w).2 ∧ is_error (Approve env e id by_ w).1 = true.
Proof.
  intros Hs Hk Hn Hsys Hr. apply self_Approve; [done|]. intros r Hrow. destruct (Hr r Hrow) as [H1 H2].
  unfold realPrincipal, sameIdentity. rewrite H1, H2. by repeat case_bool_decide.
Qed.

Section Witnesses.
Import Scenario.
#[local] Existing Instance life_chart.
#[local] Existing Instance life_laws.
#[local] Existing Instance step_chart.
#[local] Existing Instance step_laws.

(** The kill-switch, thrown by ann. *)
Definition frozen_world : World Sqlite.Db := (SetFreeze sunny engine true ann "incident" (start Sqlite.empty)).2.

(** Nothing is frozen, but the statement that reads it fails. *)
Definition unreadable_world : World Sqlite.Db := start {|
  Sqlite.db_rollouts := ∅; Sqlite.db_history := []; Sqlite.db_target_state := ∅; Sqlite.db_schedules := ∅;
  Sqlite.db_freeze := None; Sqlite.db_leases := ∅; Sqlite.db_faults := [Some (Errorf "disk I/O error")] |}.

Lemma freeze_stops_deploys_witness :
  (∃ er, (Apply sunny engine (request (web "v1") ann false) frozen_world).1 = (None, Some er) ∧ errors_Is er ErrFrozen = true) ∧
  (∃ er, (Apply sunny engine (request (web "v1") ann false) unreadable_world).1 = (None, Some er) ∧ errors_Is er ErrFrozen = true) ∧
  is_error (Approve sunny engine "ro" bob frozen_world).1 = true.
Proof.
  destruct (freeze_stops_deploys sunny engine guardrails frozen_world eq_refl eq_refl) as (H & Ha & _ & Hf).
  destruct Hf as (Hh & Hap & _); [vm_compute; reflexivity|].
  destruct (freeze_stops_deploys sunny engine guardrails unreadable_world eq_refl eq_refl) as (H' & _).
  split; [|split].
  - destruct (H Hh (request (web "v1") ann false)) as (er & Hr & _ & Hi). exists er. split; [exact Hr|]. apply Hi. right. reflexivity.
  - destruct (H' ltac:(right; eexists; vm_compute; reflexivity) (request (web "v1") ann false)) as (er & Hr & _ & Hi).
    exists er. split; [exact Hr|]. apply Hi. right. reflexivity.
  - apply Ha. apply Hap.
Defined.

(** A change to a critical target: the floor asks, the request does not. *)
Definition critical_request : ApplyRequest :=
  let c := web "v1" in
  let sp := Config.spec c in
  {| rq_Config := {|
       Config.APIVersion := Config.APIVersion c; Config.ConfigKind := Config.ConfigKind c; Config.Meta := Config.Meta c;
       Config.spec := {|
         Config.sp_Target := {| Config.tg_Kind := "container"; Config.tg_Ref := "web";
                                Config.tg_Criticality := "critical"; Config.tg_Env := "";
                                Config.tg_Spec := {["image" := AString "v1"]} |};
         Config.sp_Environments := []; Config.sp_Strategy := Config.sp_Strategy sp; Config.sp_Risk := Config.sp_Risk sp;
         Config.sp_Rollback := Config.sp_Rollback sp; Config.sp_Analysis := None; Config.sp_FeatureFlags := None;
         Config.sp_TrafficRouting := None; Config.sp_ImagePolicy := None; Config.sp_Database := None;
         Config.sp_DependsOn := []; Config.sp_Schedule := ""; Config.sp_Verification := "" |} |};
     rq_Initiator := robot; rq_Root := ""; rq_Planned := true; rq_NeedsApproval := false;
     rq_Risk := {| ri_ChangeType := ""; ri_Environment := ""; ri_BlastRadius := 0 |} |}.

(** A change that only the history of its target makes risky. *)
Definition risky_request : ApplyRequest :=
  let c := web "v1" in
  let sp := Config.spec c in
  {| rq_Config := {|
       Config.APIVersion := Config.APIVersion c; Config.ConfigKind := Config.ConfigKind c; Config.Meta := Config.Meta c;
       Config.spec := {|
         Config.sp_Target := Config.sp_Target sp; Config.sp_Environments := []; Config.sp_Strategy := Config.sp_Strategy sp;
         Config.sp_Risk := {| Config.rk_Threshold := 0.5%float; Config.rk_Sensitive := "";
                              Config.rk_History := {| Config.rh_Lookback := 5; Config.rh_Weight := 0.9%float;
                                                      Config.rh_MaxFailures := 3 |} |};
         Config.sp_Rollback := Config.sp_Rollback sp; Config.sp_Analysis := None; Config.sp_FeatureFlags := None;
         Config.sp_TrafficRouting := None; Config.sp_ImagePolicy := None; Config.sp_Database := None;
         Config.sp_DependsOn := []; Config.sp_Schedule := ""; Config.sp_Verification := "" |} |};
     rq_Initiator := ann; rq_Root := ""; rq_Planned := true; rq_NeedsApproval := false;
     rq_Risk := {| ri_ChangeType := ""; ri_Environment := ""; ri_BlastRadius := 0 |} |}.

Definition with_failures : World Sqlite.Db := start {|
  Sqlite.db_rollouts := ∅;
  Sqlite.db_history := replicate 3 {| rr_RolloutID := "ro-0"; rr_TargetRef := "web"; rr_Phase := PhaseRolledBack; rr_Note := "";
                                      rr_Initiator := ann; rr_At := 0 |};
  Sqlite.db_target_state := ∅; Sqlite.db_schedules := ∅; Sqlite.db_freeze := None; Sqlite.db_leases := ∅; Sqlite.db_faults := [] |}.

Lemma gated_apply_waits_witness :
  (let '(out, w') := Apply sunny engine critical_request (start Sqlite.empty) in
   grew Probe (start Sqlite.empty) w' ∧ is_error out = false) ∧
  (let '(out, w') := Apply sunny engine risky_request with_failures in grew Probe with_failures w' ∧ is_error out = false) ∧
  deployed (Apply sunny engine risky_request (start Sqlite.empty)).2 ≠ [].
Proof.
  split; [|split].
  - pose proof (gated_apply_waits sunny engine critical_request (start Sqlite.empty)) as H.
    assert (is_error (Apply sunny engine critical_request (start Sqlite.empty)).1 = false) as He by (vm_compute; reflexivity).
    destruct (Apply sunny engine critical_request (start Sqlite.empty)) as [out w'].
    split; [|exact He]. apply H. right. left. exists guardrails. split; [reflexivity|vm_compute; reflexivity].
  - pose proof (gated_apply_waits sunny engine risky_request with_failures) as H.
    assert (is_error (Apply sunny engine risky_request with_failures).1 = false) as He by (vm_compute; reflexivity).
    destruct (Apply sunny engine risky_request with_failures) as [out w'].
    split; [|exact He]. apply H. right. right. split; [reflexivity|]. eexists. split; vm_compute; reflexivity.
  - vm_compute. discriminate.
Defined.

(** A canary in its first bake. *)
Definition baking : World Sqlite.Db :=
  (Apply sunny engine (request (service "web" "v1" canary true) ann false) (start Sqlite.empty)).2.

Lemma apply_refuses_busy_target_witness :
  is_error (Apply sunny engine (request (web "v2") bob false) baking).1 = true.
Proof.
  apply (apply_refuses_busy_target sunny engine (request (web "v2") bob false) baking). left.
  exists "ro-19700101T000002.000000000".
  assert ((λ r, (r_TargetRef r, r_Phase r)) <$> rollouts_of (w_store baking) !! "ro-19700101T000002.000000000" =
          Some ("web", PhaseDeploying)) as Hr by (vm_compute; reflexivity).
  destruct (rollouts_of (w_store baking) !! "ro-19700101T000002.000000000") as [r|]; [|discriminate].
  exists r. injection Hr as Ht Hp. split; [reflexivity|]. split; [exact Ht|left; exact Hp].
Defined.

(** A promoted release that migrated the database one way. *)
Definition migrated : Rollout :=
  let r := Sqlite.demo_rollout "ro-1" 0 in
  {| r_ID := r_ID r; r_TargetRef := r_TargetRef r; r_Phase := r_Phase r; r_Strategy := r_Strategy r;
     r_Desired := r_Desired r; r_RiskScore := r_RiskScore r; r_Initiator := r_Initiator r; r_Note := "";
     r_StepIndex := 0; r_StepTotal := 0; r_StepWeight := 0; r_DBRollbackCmd := []; r_DBRollbackTimeout := "";
     r_DBMigrateCmd := ["migrate"; "up"]; r_DBMigrateTimeout := ""; r_DBMigrateWhen := "pre-deploy";
     r_DBBackwardCompatible := false; r_DeliveryTraffic := None; r_DeliveryFlag := None; r_Analysis := None;
     r_RollbackBlocked := ""; r_SmokeTest := None; r_StepperSnap := None; r_CreatedAt := 0; r_UpdatedAt := 0 |}.

Lemma unsafe_rollback_refused_witness :
  is_error (Rollback sunny engine "ro-1" empty_manifest false
              (start (Sqlite.save_rollout migrated Sqlite.empty).2)).1 = true.
Proof.
  apply (unsafe_rollback_refused sunny engine "ro-1" empty_manifest). intros r Hr.
  assert ((λ r, (r_DBMigrateCmd r, r_DBBackwardCompatible r, r_DBRollbackCmd r)) <$>
            rollouts_of (w_store (start (Sqlite.save_rollout migrated Sqlite.empty).2)) !! "ro-1" =
          Some (["migrate"; "up"], false, [])) as Hf by (vm_compute; reflexivity).
  rewrite Hr in Hf. injection Hf as Hm Hb Hd. split; [by rewrite Hm|]. split; [exact Hb|exact Hd].
Defined.

(** Ann's own rollout waits for approval. *)
Definition waiting : World Sqlite.Db :=
  (Apply sunny engine (request (web "v1") ann true) (start Sqlite.empty)).2.

Lemma self_approval_refused_witness :
  is_error (Approve sunny engine "ro-19700101T000002.000000000" ann waiting).1 = true.
Proof.
  apply (self_approval_refused sunny engine "ro-19700101T000002.000000000" ann waiting);
    [reflexivity|discriminate..|].
  assert (r_Initiator <$> rollouts_of (w_store waiting) !! "ro-19700101T000002.000000000" = Some ann) as Hr
    by (vm_compute; reflexivity).
  intros r Hrow. rewrite Hrow in Hr. injection Hr as Hr. rewrite Hr. split; reflexivity.
Defined.
End Witnesses.
