(* ===== verification/EngineVerify.v ===== *)
(** * Engine: the post-deploy gates decide

    What promotion and the automatic gate ([Promote], [VerifyOrRollback]) promise
    about the gates they ran: health, smoke test and metric analysis, in that
    order, each run only if none before it failed. *)

From S2P Require Import Prelude GoTime Statekit Config Progressive Model Lifecycle Risk Analysis Security Store.
From S2P Require Import World EngineBase EngineGates EngineRollback EngineDeploy Scenario Frame EngineLocks EngineMoves EngineSafety.

(** A gate that was due passed; one that was not due was skipped. *)
Definition gate_ok (enabled : bool) (g : GateResult) : Prop :=
  gt_Status g = if enabled then GatePass else GateSkipped.

Definition has_analysis (gs : gateSet) : bool := match gs_analysis gs with Some _ => true | None => false end.

Definition passed (gs : gateSet) (gates : list GateResult) : Prop :=
  ∃ h s a, gates = [h; s; a] ∧ gate_ok (gs_health gs) h ∧ gate_ok (smoke_enabled gs) s ∧ gate_ok (has_analysis gs) a.

(** What a gate may answer: a pass, or a failure that says something. *)
Definition decided (g : GateResult) : Prop :=
  gt_Status g = GatePass ∨ (gt_Status g = GateFail ∧ gt_Detail g ≠ "").

Section GateFacts.
Context {S : Type} `{!Store S, !StoreLaws S}.
Context (env : Env) (e : Engine).
Implicit Types (w : World S).

Notation decides m := (triple (S := S) (λ _, True) m (λ g _, decided g)).

Lemma decided_pass g d : decided (gate_result g GatePass d).
Proof. by left. Qed.
Lemma decided_fail g c d : decided (gate_result g GateFail (String c d)).
Proof. by right. Qed.

Lemma health_decides r : decides (gateHealth env e r).
Proof.
  unfold gateHealth. t_steps; intros; simpl; first [apply decided_pass|apply decided_fail|idtac].
  repeat case_match; first [apply decided_pass|apply decided_fail].
Qed.

Lemma smoke_decides st : decides (gateSmoke env e st).
Proof.
  unfold gateSmoke. apply (t_get All); [apply _|by apply quiet_execSmoke| |]; intros; apply t_ret; intros;
    repeat case_match; first [apply decided_pass|apply decided_fail].
Qed.

Lemma provider_error a w : match (metrics_provider env e a w).1 with Err er => err_str er ≠ "" | Ok _ => True end.
Proof.
  unfold metrics_provider, on_error, ask, mbind, M_bind, mret, M_ret.
  destruct (e_metrics e); [done|]. destruct (Config.an_Plugin a != ""); [by destruct (o_metrics _ _ _)|].
  by destruct (Config.an_Provider a == "prometheus").
Qed.

Lemma analysis_decides a : decides (gateAnalysis env e a).
Proof.
  unfold gateAnalysis. apply (t_bind_fact (λ out, out.1 = false → out.2 ≠ "")).
  - intros w. unfold runAnalysis, on_result, mbind, M_bind. pose proof (provider_error a w) as Hp.
    destruct (metrics_provider env e a w) as [[p|er] w1]; [|done].
    destruct (NewAnalyzer _ _ _) as [an|er]; [|done]. destruct (RunAnalysis wait an w1) as [res w2]. simpl.
    by destruct (ar_Passed res).
  - intros [[] note] Hn; apply t_ret; intros _ _; [by left|right]. split; [done|]. by apply Hn.
Qed.

(** One round of the closure, on gates that have all passed or been skipped. *)
Lemma run_gate_step out en d g w :
  (en = true → triple (λ _, True) g (λ r _, decided r)) →
  ∃ r, (run_gate (out, false) en d g w).1 = (out ++ [r], gt_Status r == GateFail) ∧
       (gt_Status r ≠ GateFail → gate_ok en r) ∧ (gt_Status r = GateFail → gt_Detail r ≠ "").
Proof.
  intros Hg. unfold run_gate, mbind, M_bind, mret, M_ret, gate_ok. destruct en; simpl.
  - specialize (Hg eq_refl w I). destruct (g w) as [r w1]. exists r. split; [done|].
    simpl in Hg. by destruct Hg as [->|[-> Hd]].
  - by exists (gate_result (gateNameOf (length out)) GateSkipped d).
Qed.

Lemma run_gate_failed out en d g w :
  (run_gate (out, true) en d g w).1 = (out ++ [gate_result (gateNameOf (length out)) GateNotRun ""], true).
Proof. done. Qed.

Lemma runGates_verdict r gs w :
  let gates := (runGates env e r gs w).1 in (firstFailure gates = "" ↔ passed gs gates).
Proof.
  unfold runGates, mbind, M_bind.
  destruct (run_gate_step [] (gs_health gs) "no health check configured" (gateHealth env e r) w) as (h & Hh & Ph & Fh);
    [intros; apply health_decides|].
  destruct (run_gate ([], false) _ _ _ w) as [acc w1]. simpl in Hh. subst acc.
  case_bool_decide as Hf.
  { simpl. rewrite (bool_decide_eq_true_2 _ Hf). split; [by intros ?; destruct Fh|].
    intros (? & ? & ? & [= <- _ _] & Hok & _). unfold gate_ok in Hok. rewrite Hf in Hok. by destruct (gs_health gs). }
  match goal with |- context [run_gate ([h], false) ?en ?d ?g w1] =>
    destruct (run_gate_step [h] en d g w1) as (s & Hs & Ps & Fs);
      [|destruct (run_gate ([h], false) en d g w1) as [acc w2]; simpl in Hs; subst acc] end.
  { unfold smoke_enabled. destruct (gs_smoke gs); [intros _; apply smoke_decides|done]. }
  case_bool_decide as Hf2.
  { simpl. rewrite (bool_decide_eq_false_2 _ Hf), (bool_decide_eq_true_2 _ Hf2). split; [by intros ?; destruct Fs|].
    intros (? & ? & ? & [= _ <- _] & _ & Hok & _). unfold gate_ok in Hok. rewrite Hf2 in Hok. by destruct (smoke_enabled gs). }
  match goal with |- context [run_gate ([h; s], false) ?en ?d ?g w2] =>
    destruct (run_gate_step [h; s] en d g w2) as (a & Ha & Pa & Fa);
      [|destruct (run_gate ([h; s], false) en d g w2) as [acc w3]; simpl in Ha; subst acc] end.
  { destruct (gs_analysis gs); [intros _; apply analysis_decides|done]. }
  simpl. rewrite (bool_decide_eq_false_2 _ Hf), (bool_decide_eq_false_2 _ Hf2).
  case_bool_decide as Hf3.
  - split; [by intros ?; destruct Fa|].
    intros (? & ? & ? & [= _ _ <-] & _ & _ & Hok). unfold gate_ok in Hok. rewrite Hf3 in Hok. by destruct (has_analysis gs).
  - split; [|done]. intros _. exists h, s, a. split_and!; [done|by apply Ph|by apply Ps|by apply Pa].
Qed.
End GateFacts.

Section Outcomes.
Context {S : Type} `{!Store S, !StoreLaws S}.
Context `{!Statechart Phase LifeContext unit, !StatechartLaws Phase LifeContext unit}.
Context (env : Env) (e : Engine).
Implicit Types (w : World S).

(** The row of a rollout, and what has been done outside. *)
Definition row id (r : Rollout) w : Prop := rollouts_of (w_store w) !! id = Some r.
Definition did (ef : Effect) w : Prop := ef ∈ w_trace w.

#[global] Instance row_stable id r : Stable (row id r).
Proof. intros w w' ((Hr & _) & _). unfold row. by rewrite Hr. Qed.
#[global] Instance did_stable ef : Stable (did ef).
Proof. intros w w' (_ & _ & tr & Ht & _). unfold did. rewrite Ht. set_solver. Qed.
#[global] Instance and_stable P Q : Stable P → Stable Q → Stable (λ w : World S, P w ∧ Q w).
Proof. intros HP HQ w w' Hs [H1 H2]. split; by eapply stable. Qed.
#[global] Instance pure_stable (F : Prop) P : Stable P → Stable (λ w : World S, F → P w).
Proof. intros HP w w' Hs Hw HF. eapply stable; [done|by apply Hw]. Qed.

Lemma t_load_row {B} id r (h : err → M S B) k Q :
  (∀ er, triple (row id r) (h er) Q) → triple (row id r) (k r) Q →
  triple (row id r) (on_result (store (LoadRollout id)) h k) Q.
Proof.
  intros Hh Hk w Hr. unfold on_result, mbind, M_bind, store.
  pose proof (load_rollout_spec id (w_store w)) as [Hv Hl].
  destruct (LoadRollout id (w_store w)) as [[r'|er] s]; simpl in *.
  - unfold row in Hr. rewrite Hr in Hl. simplify_eq. apply Hk. by eapply stable; [apply still_store|].
  - apply Hh. by eapply stable; [apply still_store|].
Qed.

Lemma t_load_any {B} id (h : err → M S B) k Q :
  (∀ er, triple (λ _, True) (h er) Q) → (∀ r, r_ID r = id → triple (row id r) (k r) Q) →
  triple (λ _, True) (on_result (store (LoadRollout id)) h k) Q.
Proof.
  intros Hh Hk w _. unfold on_result, mbind, M_bind, store.
  pose proof (load_rollout_spec id (w_store w)) as [Hv Hl].
  destruct (LoadRollout id (w_store w)) as [[r|er] s]; simpl in *; [|by apply Hh].
  apply Hk; [by eapply view_ids|]. unfold row. simpl. by destruct Hv as (-> & _).
Qed.

(** Saving as the last act. *)
Lemma t_save_end {B} P r (h : err → M S B) k Q :
  (∀ er, triple (λ _, True) (h er) Q) →
  triple (λ w, phase_in w (r_ID r) = Some (r_Phase r)) k Q → triple P (on_error (save r) h k) Q.
Proof.
  intros Hh Hk w _. unfold on_error, mbind, M_bind. pose proof (saved_phase r w) as Hs.
  destruct (save r w) as [[er|] w1]; [by apply Hh|apply Hk, Hs; done].
Qed.

(** ** Promotion *)
Definition promoted id (r : Rollout) (out : outcome) w : Prop :=
  out.2 = None → ∃ p, out.1 = Some p ∧ r_Phase r = PhaseVerifying ∧ r_Phase p = PhasePromoted ∧ r_ID p = id ∧
                      phase_in w id = Some PhasePromoted.

#[global] Instance promoted_stable id r out : Stable (promoted id r out).
Proof.
  intros w w' Hs Hp He. destruct (Hp He) as (p & H1 & H2 & H3 & H4 & H5). exists p. split_and!; [done..|].
  by eapply (phase_in_stable _ _ w).
Qed.

Lemma verified p lc q : Send (resume p) EventVerifyOK = (lc, (q, None)) → p = PhaseVerifying ∧ lc_phase lc = PhasePromoted.
Proof.
  intros H. destruct (resume_built p) as [Hb Hp]. pose proof (Send_ok _ EventVerifyOK q Hb) as Hs.
  rewrite H in Hs. simpl in Hs. destruct (Hs eq_refl) as [Hn ->]. rewrite Hp in Hn. by destruct p; simplify_eq/=.
Qed.

Lemma t_finish_promote id r r' note :
  r_ID r' = id → r_Phase r = PhaseVerifying → r_Phase r' = PhasePromoted →
  triple (row id r) (finish_promote env r' note) (promoted id r).
Proof.
  intros Hid Hv Hp. unfold finish_promote. t_step. cbv zeta. apply t_save_end; [by intros; apply t_ret|].
  apply t_ret. intros w Hw _. eexists. split_and!; [done|done|done|done|]. subst id. rewrite <- Hp. exact Hw.
Qed.

Lemma t_promoteWithNote_ok id r note :
  r_ID r = id → triple (row id r) (promoteWithNote env e id note) (promoted id r).
Proof.
  intros Hid. unfold promoteWithNote. apply t_load_row; [by intros; apply t_ret|].
  destruct (Send _ EventVerifyOK) as [lc [q [er|]]] eqn:Hs; [by apply t_ret|].
  destruct (verified _ _ _ Hs) as [Hv Hp]. cbv zeta. case_match; [|by apply t_finish_promote].
  apply (t_check All); [apply _|by apply quiet_runDatabaseCommand| |by apply t_finish_promote].
  intros er. t_step. apply (t_bind _ _ _ (λ _ _, True)); [done|]. intros _. by apply t_ret.
Qed.

Lemma t_promote_commit_ok id r by_ force note :
  r_ID r = id → triple (row id r) (promote_commit env e id by_ force note) (promoted id r).
Proof.
  intros Hid. unfold promote_commit. eapply t_bind; [by apply t_promoteWithNote_ok|].
  intros [p [er|]]; [by apply t_ret|]. t_step; [|by apply t_ret; intros w Hw]. t_step. apply t_ret. intros w Hw He.
  destruct (Hw eq_refl) as (? & [= ->] & H). eauto.
Qed.

(** An unforced promotion has run the captured gates, and they passed. *)
Lemma Promote_ok id by_ r w :
  row id r w →
  (Promote env e id by_ false w).1.2 = None →
  promoted id r (Promote env e id by_ false w).1 (Promote env e id by_ false w).2 ∧
  ∃ gs, gatesFromRollout e r = Ok gs ∧ passed gs (runGates env e r gs (store (LoadRollout id) w).2).1.
Proof.
  intros Hr. unfold Promote, on_result, mbind, M_bind.
  pose proof (load_rollout_spec id (w_store w)) as [Hv Hl]. unfold store.
  destruct (LoadRollout id (w_store w)) as [[r'|er] s]; [|done].
  simpl in Hl, Hv. unfold row in Hr. rewrite Hr in Hl. simplify_eq.
  destruct (gatesFromRollout e r') as [gs|er]; [|done].
  pose proof (runGates_verdict env e r' gs (set_store s w)) as Hg.
  pose proof (quiet_runGates env e Exec eq_refl r' gs (set_store s w)) as Hq.
  destruct (runGates env e r' gs (set_store s w)) as [gates w1] eqn:Hrun. simpl in Hg, Hq.
  case_bool_decide as Hff; [|done]. simpl. intros He. split.
  - apply t_promote_commit_ok; [by eapply view_ids|]. unfold row. destruct Hq as (_ & (Hq & _) & _). rewrite Hq. simpl.
    destruct Hv as (Hv & _). by rewrite Hv.
  - exists gs. split; [done|]. simpl. rewrite Hrun. by apply Hg.
Qed.

(** ** Rolling back *)
Definition reverted id (ref : string) (prior : Manifest) (out : outcome) w : Prop :=
  out.2 = None → ∃ p, out.1 = Some p ∧ r_ID p = id ∧ r_Phase p = PhaseRolledBack ∧ phase_in w id = Some PhaseRolledBack ∧
                      did (EApply (manifest_target ref prior) prior) w.

#[global] Instance reverted_stable id ref prior out : Stable (reverted id ref prior out).
Proof.
  intros w w' Hs Hp He. destruct (Hp He) as (p & H1 & H0 & H2 & H3 & H4). exists p. split_and!; [done..| |].
  - by eapply (phase_in_stable _ _ w).
  - by eapply stable.
Qed.

Lemma rolled p lc q : Send (resume p) EventRollback = (lc, (q, None)) → lc_phase lc = PhaseRolledBack.
Proof.
  intros H. destruct (resume_built p) as [Hb Hp]. pose proof (Send_ok _ EventRollback q Hb) as Hs.
  rewrite H in Hs. simpl in Hs. destruct (Hs eq_refl) as [Hn ->]. rewrite Hp in Hn. by destruct p; simplify_eq/=.
Qed.

Lemma built_target ref m w : match (buildTarget env ref m w).1 with Ok t => t = manifest_target ref m | Err _ => True end.
Proof. unfold buildTarget, build, BuildTarget, on_error, mbind, M_bind, ask, mret, M_ret. by repeat case_match; simplify_eq/=. Qed.

Lemma t_target_Apply t m : triple (λ _ : World S, True) (target_Apply env t m) (λ _, did (EApply t m)).
Proof. intros w _. unfold target_Apply, ask, did. simpl. set_solver. Qed.

Lemma t_save_did {B} ef r (h : err → M S B) k Q :
  (∀ er, triple (did ef) (h er) Q) →
  triple (λ w, phase_in w (r_ID r) = Some (r_Phase r) ∧ did ef w) k Q → triple (did ef) (on_error (save r) h k) Q.
Proof.
  intros Hh Hk w Hd. unfold on_error, mbind, M_bind. pose proof (saved_phase r w) as Hs.
  assert (did ef (save r w).2) as Hd' by (unfold save, store; by destruct (SaveRollout r (w_store w))).
  destruct (save r w) as [[er|] w1]; [by apply Hh|]. apply Hk. split; [by apply Hs|done].
Qed.

Lemma t_applyRollback_ok r prior note db force :
  triple (λ _, True) (applyRollback env e r prior note db force)
    (λ out, reverted (r_ID r) (r_TargetRef r) prior out.1).
Proof.
  unfold applyRollback. cbv zeta. t_step; [by apply t_ret|].
  destruct (Send _ EventRollback) as [lc [q [er|]]] eqn:Hs; [by apply t_ret|]. apply rolled in Hs.
  unfold on_result. apply (t_bind_fact (λ res, match res with Ok t => t = manifest_target (r_TargetRef r) prior | Err _ => True end));
    [apply built_target|]. intros [t|er]; [intros ->|by intros _; apply t_ret].
  unfold on_error at 1. eapply t_bind; [apply t_target_Apply|]. intros [er|]; [by apply t_ret|].
  assert (∀ r' : Rollout, r_ID r' = r_ID r → r_Phase r' = PhaseRolledBack →
    triple (did (EApply (manifest_target (r_TargetRef r) prior) prior))
      (check save r' catch er => mret ((None, Some er), r'); mret ((Some r', None), r'))
      (λ out, reverted (r_ID r) (r_TargetRef r) prior out.1)) as Hend.
  { intros r' Hid Hp. apply t_save_did; [by intros; apply t_ret|]. apply t_ret. intros w [Hw Hd] _.
    exists r'. rewrite Hid, Hp in Hw. by split_and!. }
  t_step. cbv zeta. apply (t_quiet All); [apply _|apply quiet_resetDelivery|intros _]. case_match; [|by apply Hend].
  apply (t_check All); [apply _|case_match; [by apply quiet_runDatabaseCommand|frame]| |by apply Hend].
  intros er. apply (t_bind _ _ _ (λ _ _, True)); [done|]. intros _. by apply t_ret.
Qed.

Lemma t_rollbackWithDatabase_ok id r prior note db force :
  r_ID r = id → triple (row id r) (rollbackWithDatabase env e id prior note db force) (reverted id (r_TargetRef r) prior).
Proof.
  intros Hid. unfold rollbackWithDatabase. apply t_load_row; [by intros; apply t_ret|].
  apply t_with_target_res; [apply _..| |by intros].
  eapply t_bind; [apply (t_pre _ (λ _, True)); [done|apply t_applyRollback_ok]|]. intros [out r']. apply t_ret. by rewrite <- Hid.
Qed.

(** ** The automatic gate *)
Definition auto_gates (c : Config.t) (r : Rollout) id w : list GateResult :=
  (runGates env e r (gatesFromConfig e c) (store (LoadRollout id) w).2).1.

Lemma checks_verdict r c w :
  let '(failed, reason, note) := (runPostDeployChecks env e r c w).1 in
  (failed = false ↔ passed (gatesFromConfig e c) (runGates env e r (gatesFromConfig e c) w).1).
Proof.
  unfold runPostDeployChecks, mbind, M_bind. pose proof (runGates_verdict env e r (gatesFromConfig e c) w) as Hg.
  destruct (runGates env e r (gatesFromConfig e c) w) as [gates w1]. simpl in *.
  case_bool_decide as Hf; simpl; [by rewrite <- Hg|]. split; [done|]. intros Hp. by apply Hg in Hp.
Qed.

(** What [VerifyOrRollback] promises, given what the gates said ([ok]). *)
Definition gate_contract id (r : Rollout) (prior : Manifest) (c : Config.t) (ok : Prop) w
    (out : VerifyOutcome * option err) w' : Prop :=
  (out.2 = None → vo_RolledBack out.1 = false →
     ok ∧ r_Phase r = PhaseVerifying ∧ phase_in w' id = Some PhasePromoted) ∧
  (out.2 = None → vo_RolledBack out.1 = true →
     ¬ ok ∧ Config.rb_Auto (Config.sp_Rollback (Config.spec c)) = true ∧ r_RollbackBlocked r = "" ∧
     phase_in w' id = Some PhaseRolledBack ∧
     did (EApply (manifest_target (r_TargetRef r) (rooted (e_root e) prior)) (rooted (e_root e) prior)) w') ∧
  (¬ ok → Config.rb_Auto (Config.sp_Rollback (Config.spec c)) = false ∨ r_RollbackBlocked r ≠ "" →
     out.2 ≠ None ∧ quiet Exec w w').

Lemma t_gate_failed id r prior c w0 reason :
  r_ID r = id →
  triple (λ w, row id r w ∧ quiet Exec w0 w)
    (let out := {| vo_Rollout := Some r; vo_RolledBack := false; vo_Reason := reason |} in
     let rb := Config.sp_Rollback (Config.spec c) in
     let prior := rooted (e_root e) prior in
     if negb (Config.rb_Auto rb) then
       mret (out, Some (Errorf ("engine: verify failed (auto-rollback disabled): " +:+ reason)))
     else if r_RollbackBlocked r != "" then
       mret (out, Some (Errorf ("engine: verify failed and auto-rollback was not attempted (" +:+
                                r_RollbackBlocked r +:+ "): " +:+ reason)))
     else
       '(rolled, er) ← rollbackWithDatabase env e id prior reason (Config.DatabaseRollbackHook (Config.spec c)) true;
       match er, rolled with
       | None, Some rb =>
           notifyDeployment e NotifyRolledBack rb reason;;
           mret ({| vo_Rollout := Some rb; vo_RolledBack := true; vo_Reason := reason |}, None)
       | None, None => mret ({| vo_Rollout := None; vo_RolledBack := false; vo_Reason := "" |}, None)
       | Some er, _ => mret (out, Some (Wrap ("engine: auto-rollback after " +:+ quote reason +:+ ": ") er ""))
       end)
    (gate_contract id r prior c False w0).
Proof.
  intros Hid. cbv zeta. destruct (Config.rb_Auto _) eqn:Ha; simpl.
  2:{ apply t_ret. intros w [_ Hq]. by split_and!. }
  case_bool_decide as Hb; simpl.
  2:{ apply t_ret. intros w [_ Hq]. by split_and!. }
  eapply t_bind; [apply (t_pre _ (row id r)); [by intros w []|by apply t_rollbackWithDatabase_ok]|].
  intros [rolled [er|]].
  { apply t_ret. intros w _. split_and!; [done|done|]. intros _ [|]; congruence. }
  t_step; [|apply t_ret; intros w Hw; by destruct (Hw eq_refl) as (p & [=] & _)].
  t_step. apply t_ret. intros w Hw. destruct (Hw eq_refl) as (p & [= ->] & _ & Hp & Hph & Hd).
  split_and!; [done|intros _ _; split_and!; by auto|]. intros _ [|]; congruence.
Qed.

Lemma t_gate_passed id r prior c w0 note :
  r_ID r = id →
  triple (row id r)
    ('(promoted, er) ← promoteWithNote env e id note;
     match er, promoted with
     | None, Some p =>
         match Config.sp_FeatureFlags (Config.spec c) with
         | Some ff => if flagsEnabled (Some ff) "promote" then driveFlag env e (r_TargetRef p) ff 100 else mret tt
         | None => mret tt
         end;;
         notifyDeployment e NotifyPromoted p "";;
         mret ({| vo_Rollout := Some p; vo_RolledBack := false; vo_Reason := "" |}, None)
     | None, None => mret ({| vo_Rollout := None; vo_RolledBack := false; vo_Reason := "" |}, None)
     | Some er, _ => mret ({| vo_Rollout := None; vo_RolledBack := false; vo_Reason := "" |}, Some er)
     end)
    (gate_contract id r prior c True w0).
Proof.
  intros Hid. eapply t_bind; [by apply t_promoteWithNote_ok|]. intros [p [er|]].
  { apply t_ret. intros w _. by split_and!. }
  t_step; [|apply t_ret; intros w Hw; by destruct (Hw eq_refl) as (p' & [=] & _)].
  apply (t_quiet All); [apply _|repeat case_match; first [apply quiet_driveFlag|frame]|intros _].
  t_step. apply t_ret. intros w Hw. destruct (Hw eq_refl) as (p' & [= ->] & Hv & Hp & _ & Hph).
  split_and!; [|done|done]. by intros _ _.
Qed.

(** Whatever the rollout was before: no error means it is settled. *)
Definition settled id (out : VerifyOutcome * option err) w : Prop :=
  out.2 = None → ∃ p, vo_Rollout out.1 = Some p ∧ r_ID p = id ∧ Settled (r_Phase p) = true ∧
                      phase_in w id = Some (r_Phase p).

#[global] Instance settled_stable id out : Stable (settled id out).
Proof.
  intros w w' Hs Hw He. destruct (Hw He) as (p & H1 & H2 & H3 & H4). exists p. split_and!; [done..|].
  by eapply (phase_in_stable _ _ w).
Qed.

Lemma t_VerifyOrRollback_settles id prior c :
  triple (λ _, True) (VerifyOrRollback env e id prior c) (settled id).
Proof.
  unfold VerifyOrRollback. apply t_load_any; [by intros; apply t_ret|]. intros r Hid.
  apply (t_quiet All); [apply _|by apply quiet_runPostDeployChecks|]. intros [[[] reason] note]; cbv zeta.
  - do 2 (t_step; [by apply t_ret|]).
    eapply t_bind; [by apply t_rollbackWithDatabase_ok|]. intros [rolled [er|]]; [by apply t_ret|].
    t_step; [|apply t_ret; intros w Hw; by destruct (Hw eq_refl) as (? & [=] & _)].
    t_step. apply t_ret. intros w Hw _. destruct (Hw eq_refl) as (p & [= ->] & Hp & Hr & Hph & _).
    exists p. rewrite Hr. by split_and!.
  - eapply t_bind; [by apply t_promoteWithNote_ok|]. intros [p [er|]]; [by apply t_ret|].
    t_step; [|apply t_ret; intros w Hw; by destruct (Hw eq_refl) as (? & [=] & _)].
    apply (t_quiet All); [apply _|repeat case_match; first [apply quiet_driveFlag|frame]|intros _].
    t_step. apply t_ret. intros w Hw _. destruct (Hw eq_refl) as (p' & [= ->] & _ & Hp & Hi & Hph).
    exists p'. rewrite Hp. by split_and!.
Qed.

Lemma VerifyOrRollback_contract id prior c r w :
  row id r w →
  gate_contract id r prior c (passed (gatesFromConfig e c) (auto_gates c r id w)) w
    (VerifyOrRollback env e id prior c w).1 (VerifyOrRollback env e id prior c w).2.
Proof.
  intros Hr. unfold VerifyOrRollback, auto_gates, on_result, mbind, M_bind.
  pose proof (load_rollout_spec id (w_store w)) as [Hv Hl]. pose proof (quiet_load Exec id w) as Hq. unfold store in *.
  destruct (LoadRollout id (w_store w)) as [[r'|er] s]; [|by split_and!].
  simpl in Hl, Hv, Hq. unfold row in Hr. rewrite Hr in Hl. simplify_eq.
  assert (r_ID r' = id) as Hid by (by eapply view_ids).
  pose proof (checks_verdict r' c (set_store s w)) as Hc.
  pose proof (quiet_runPostDeployChecks env e Exec eq_refl r' c (set_store s w)) as Hq1.
  destruct (runPostDeployChecks env e r' c (set_store s w)) as [[[failed reason] note] w1]. simpl in Hc, Hq1.
  assert (row id r' w1) as Hrow.
  { unfold row. destruct Hq1 as (_ & (-> & _) & _). simpl. by destruct Hv as (-> & _). }
  cbv zeta. simpl. destruct failed.
  - pose proof (t_gate_failed id r' prior c w reason Hid w1) as Ht. destruct Ht as (H1 & H2 & H3).
    { split; [done|]. etransitivity; [exact Hq|exact Hq1]. }
    assert (¬ passed (gatesFromConfig e c) (runGates env e r' (gatesFromConfig e c) (set_store s w)).1) as Hn
      by (intros Hp; by apply Hc in Hp).
    split_and!; [intros; by destruct H1|intros; destruct H2; [done..|by split]|intros; apply H3; tauto].
  - pose proof (t_gate_passed id r' prior c w note Hid w1 Hrow) as (H1 & H2 & H3).
    assert (passed (gatesFromConfig e c) (runGates env e r' (gatesFromConfig e c) (set_store s w)).1) as Hp by (by apply Hc).
    split_and!; [intros; destruct H1; [done..|by split]|intros; by destruct H2|intros Hn; by destruct Hn].
Qed.
End Outcomes.

(** ** Properties *)

(** C5. Promotion goes through the gates.  An unforced [Promote] that succeeds
    ran the gates captured on the rollout - health always, the smoke test and
    the metric analysis when it has them - and every one of them passed; the
    rollout was verifying, and is stored promoted. *)
Theorem promote_only_through_gates {S} `{!Store S, !StoreLaws S}
    `{!Statechart Phase LifeContext unit, !StatechartLaws Phase LifeContext unit}
    env e id by_ r (w : World S) :
  rollouts_of (w_store w) !! id = Some r →
  let '((out, er), w') := Promote env e id by_ false w in
  er = None →
  r_Phase r = PhaseVerifying ∧ phase_in w' id = Some PhasePromoted ∧
  ∃ gs, gatesFromRollout e r = Ok gs ∧ gs_health gs = true ∧
        passed gs (runGates env e r gs (store (LoadRollout id) w).2).1.
Proof.
  intros Hr. pose proof (Promote_ok env e id by_ r w Hr) as H.
  destruct (Promote env e id by_ false w) as [[out er] w']. intros ->. destruct (H eq_refl) as [Hp (gs & Hgs & Hok)].
  destruct (Hp eq_refl) as (p & _ & Hv & _ & _ & Hph). split_and!; [done|done|]. exists gs. split_and!; [done| |done].
  unfold gatesFromRollout in Hgs. by repeat case_match; simplify_eq/=.
Qed.

(** C3. The automatic gate keeps or reverts, never anything in between.  When
    [VerifyOrRollback] reports no error and no rollback, every configured gate
    passed and the rollout is promoted; when it reports a rollback, a gate
    failed, the prior manifest was re-applied to the target and the rollout is
    rolled back; and when a gate failed but rollback is off, or blocked because
    the recorded prior was not what was running, it fails and re-applies and
    stores nothing. *)
Theorem auto_gate_keeps_or_reverts {S} `{!Store S, !StoreLaws S}
    `{!Statechart Phase LifeContext unit, !StatechartLaws Phase LifeContext unit}
    env e id prior c r (w : World S) :
  rollouts_of (w_store w) !! id = Some r →
  let ok := passed (gatesFromConfig e c) (auto_gates env e c r id w) in
  let auto := Config.rb_Auto (Config.sp_Rollback (Config.spec c)) in
  let restored := rooted (e_root e) prior in
  let '((out, er), w') := VerifyOrRollback env e id prior c w in
  (er = None → vo_RolledBack out = false →
     ok ∧ r_Phase r = PhaseVerifying ∧ phase_in w' id = Some PhasePromoted) ∧
  (er = None → vo_RolledBack out = true →
     ¬ ok ∧ auto = true ∧ r_RollbackBlocked r = "" ∧ phase_in w' id = Some PhaseRolledBack ∧
     EApply (manifest_target (r_TargetRef r) restored) restored ∈ w_trace w') ∧
  (¬ ok → auto = false ∨ r_RollbackBlocked r ≠ "" → er ≠ None ∧ quiet Exec w w').
Proof.
  intros Hr. pose proof (VerifyOrRollback_contract env e id prior c r w Hr) as H. cbv zeta.
  by destruct (VerifyOrRollback env e id prior c w) as [[out er] w'].
Qed.

(** [Verify] is a dry run of the same gates: whatever it reports, nothing is
    deployed, shifted or stored; and its verdict is OK exactly when every gate of
    the rollout passed. *)
Theorem verify_is_a_dry_run {S} `{!Store S, !StoreLaws S} env e id (w : World S) :
  let '(res, w') := Verify env e id w in
  quiet Exec w w' ∧
  ∀ rep, res = Ok rep →
    ∃ gs, gatesFromRollout e (vr_Rollout rep) = Ok gs ∧ (vr_OK rep = true ↔ passed gs (vr_Gates rep)).
Proof.
  pose proof (quiet_Verify env e Exec eq_refl id w) as Hq. revert Hq.
  unfold Verify, on_result, mbind, M_bind. destruct (store (LoadRollout id) w) as [[r|er] w1]; [|done].
  destruct (gatesFromRollout e r) as [gs|er] eqn:Hg; [|done].
  pose proof (runGates_verdict env e r gs w1) as Hv. destruct (runGates env e r gs w1) as [gates w2].
  intros Hq. split; [exact Hq|]. intros rep [= <-]. exists gs. split; [exact Hg|]. simpl in *.
  rewrite bool_decide_eq_true. exact Hv.
Qed.

Section Witnesses.
Import Scenario.
#[local] Existing Instance life_chart.
#[local] Existing Instance life_laws.
#[local] Existing Instance step_chart.
#[local] Existing Instance step_laws.

(** A release that has deployed and waits for its gates. *)
Definition deployed_world : World Sqlite.Db :=
  (Apply sunny engine (request (web "v1") ann false) (start Sqlite.empty)).2.
Definition deployed_id : string := "ro-19700101T000002.000000000".

Lemma deployed_row :
  (λ r, (r_TargetRef r, r_Phase r, r_RollbackBlocked r)) <$> rollouts_of (w_store deployed_world) !! deployed_id =
  Some ("web", PhaseVerifying, "").
Proof. vm_compute. reflexivity. Qed.

Lemma promote_only_through_gates_witness :
  phase_in (Promote sunny engine deployed_id ann false deployed_world).2 deployed_id = Some PhasePromoted.
Proof.
  pose proof deployed_row as Hd.
  destruct (rollouts_of (w_store deployed_world) !! deployed_id) as [r|] eqn:Hr; [|discriminate].
  pose proof (promote_only_through_gates sunny engine deployed_id ann r deployed_world Hr) as H.
  assert ((Promote sunny engine deployed_id ann false deployed_world).1.2 = None) as He by (vm_compute; reflexivity).
  destruct (Promote sunny engine deployed_id ann false deployed_world) as [[out er] w'].
  destruct (H He) as (_ & Hp & _). exact Hp.
Defined.

(** The target turns unhealthy after the deploy. *)
Definition stormy : Env := outside (λ _, None) (λ _, Ok unhealthy).
Definition v0 : Manifest := {| m_Kind := "container"; m_Spec := {["image" := AString "v0"]}; m_Labels := ∅;
                               m_Checksum := "v0"; m_Root := ""; m_Rendered := "" |}.

Lemma auto_gate_keeps_or_reverts_witness :
  let w' := (VerifyOrRollback stormy engine deployed_id v0 (web "v1") deployed_world).2 in
  phase_in w' deployed_id = Some PhaseRolledBack ∧
  EApply (manifest_target "web" (rooted "/repo" v0)) (rooted "/repo" v0) ∈ w_trace w'.
Proof.
  pose proof deployed_row as Hd.
  destruct (rollouts_of (w_store deployed_world) !! deployed_id) as [r|] eqn:Hr; [|discriminate].
  pose proof (auto_gate_keeps_or_reverts stormy engine deployed_id v0 (web "v1") r deployed_world Hr) as H.
  assert ((let '(out, er) := (VerifyOrRollback stormy engine deployed_id v0 (web "v1") deployed_world).1 in
           (vo_RolledBack out, er)) = (true, None)) as He by (vm_compute; reflexivity).
  cbv zeta in H. destruct (VerifyOrRollback stormy engine deployed_id v0 (web "v1") deployed_world) as [[out er] w'].
  injection He as Ho He. destruct H as (_ & H & _). destruct (H He Ho) as (_ & _ & _ & Hp & Hin).
  injection Hd as Ht _ _. rewrite Ht in Hin. split; [exact Hp|exact Hin].
Defined.

Lemma verify_is_a_dry_run_witness :
  quiet Exec deployed_world (Verify stormy engine deployed_id deployed_world).2.
Proof.
  pose proof (verify_is_a_dry_run stormy engine deployed_id deployed_world) as H.
  destruct (Verify stormy engine deployed_id deployed_world) as [res w']. exact (proj1 H).
Defined.
End Witnesses.
