(* ===== verification/EngineCanary.v ===== *)
(** * Engine: the tick-driven canary

    The stepper inside [Apply] and [Tick]: its loop terminates within the number
    of steps, a healthy rollout without bakes runs through to verification, and a
    tick during a bake moves nothing. *)

From S2P Require Import Prelude GoTime Statekit Config Progressive Model Lifecycle Risk Analysis Security Store.
From S2P Require Import World EngineBase EngineGates EngineRollback EngineDeploy Scenario Frame EngineLocks EngineMoves EngineSafety EngineVerify.

Section Canary.
Context {S : Type} `{!Store S, !StoreLaws S}.
Notation HW := (EngineDeploy.HW (S := S)).
Context `{!Statechart Phase LifeContext unit, !StatechartLaws Phase LifeContext unit}.
Context `{!Statechart StepState StepContext HW, !StatechartLaws StepState StepContext HW}.
Context (env : Env) (e : Engine).
Implicit Types (w : World S) (s : Stepper HW).

(** ** Termination

    A round of the loop that goes on has left a step for a later one. *)
Definition one_step (st : Step) s : HW → Stepper HW * HW :=
  if Progressive.Pause st =? 0 then StepperNext s else Advance s (Progressive.Pause st).

Section Rounds.
Context (plan : Progressive.Plan) (h : StepHealth HW).

Definition rounds_left (st : StepState) : nat :=
  match st with SStep i => length (p_Steps plan) - i | SPaused _ => 1 | _ => 0 end.

(** A stepper of the plan's machine, in one of its states. *)
Definition located s : Prop :=
  sp_machine s = step_machine plan h ∧
  match sp_state s with SStep i | SPaused i => (i < length (p_Steps plan))%nat | _ => True end.

(** Where a step leads: it stays, ends, or reaches a later step. *)
Definition led_on s (out : StepState * StepContext * HW) : Prop :=
  let '(st, c, _) := out in
  match st with SStep i | SPaused i => (i < length (p_Steps plan))%nat | _ => True end ∧
  ((st = sp_state s ∧ c = sp_ctx s) ∨ (rounds_left st < rounds_left (sp_state s))%nat).

Lemma led_on_stay s x : located s → led_on s (sp_state s, sp_ctx s, x).
Proof. intros [_ Hl]. split; [done|by left]. Qed.

Lemma led_on_next s i c x out :
  sp_state s = SStep i → (i < length (p_Steps plan))%nat → entered (step_machine plan h) (next_state plan i) c x out →
  led_on s out.
Proof.
  intros Hs Hi He. destruct (lookup_lt_is_Some_2 (p_Steps plan) i Hi) as [st Hst].
  apply (entered_next _ _ _ _ _ _ _ Hst) in He. unfold moved_on in He. unfold led_on. rewrite Hs.
  destruct (p_Steps plan !! Datatypes.S i) as [st'|] eqn:Hn.
  - apply lookup_lt_Some in Hn. destruct (h _ _ x) as [ok x'].
    destruct He as [->|[_ ->]]; (split; [done|right; simpl; lia]).
  - subst out. split; [done|right; simpl; lia].
Qed.

Lemma next_target s :
  located s → event_target (step_machine plan h) (sp_state s) (sp_ctx s) EvNext =
    match sp_state s with
    | SStep i => if Failed (sp_ctx s) then None else Some (next_state plan i)
    | _ => None
    end.
Proof.
  intros [_ Hi]. destruct (sp_state s) as [i|i| |]; [| |by rewrite event_target_final by eauto..];
    destruct (lookup_lt_is_Some_2 (p_Steps plan) i Hi) as [st Hs];
    [by rewrite (event_target_step _ _ _ _ _ _ Hs)|by rewrite (event_target_paused _ _ _ _ _ _ Hs)].
Qed.

Lemma send_next_leads s x : located s → led_on s (sc_send (sp_machine s) (sp_state s) (sp_ctx s) EvNext x).
Proof.
  intros Hl. pose proof Hl as [Hm Hi]. rewrite Hm.
  pose proof (send_spec (step_machine plan h) (sp_state s) (sp_ctx s) EvNext x) as H.
  rewrite (next_target s Hl) in H.
  destruct (sp_state s) as [i|i| |] eqn:Hst; try (rewrite H; rewrite <- Hst; by apply led_on_stay);
    (destruct (Failed (sp_ctx s)); [rewrite H; rewrite <- Hst; by apply led_on_stay|by eapply led_on_next]).
Qed.

Lemma advance_leads s d x : located s → led_on s (sc_advance (sp_machine s) (sp_state s) (sp_ctx s) d x).
Proof.
  intros Hl. pose proof Hl as [Hm Hi]. rewrite Hm.
  pose proof (advance_spec (step_machine plan h) (sp_state s) (sp_ctx s) d x) as H.
  destruct (timer_target _ _ _ _) as [t|] eqn:Ht; [|rewrite H; by apply led_on_stay].
  destruct (sp_state s) as [i|i| |] eqn:Hst; [|by rewrite timer_target_none in Ht; naive_solver..].
  destruct (lookup_lt_is_Some_2 (p_Steps plan) i Hi) as [st Hs].
  apply (timer_target_some _ _ _ _ _ _ _ Hs) in Ht as [_ ->]. by eapply led_on_next.
Qed.

(** A stepper that went on is located with fewer rounds left, or where it was. *)
Lemma one_step_leads st s x :
  located s → let s' := (one_step st s x).1 in
  located s' ∧ ((sp_state s' = sp_state s ∧ sp_ctx s' = sp_ctx s) ∨
                (rounds_left (sp_state s') < rounds_left (sp_state s))%nat).
Proof.
  intros Hl. unfold one_step. destruct (_ =? 0).
  - pose proof (send_next_leads s x Hl) as H. unfold StepperNext, Progressive.send, with_out.
    destruct (sc_send _ _ _ _ x) as [[st' c'] x']. destruct H as [Hi H]. simpl. split; [|done]. split; [apply Hl|done].
  - pose proof (advance_leads s (Progressive.Pause st) x Hl) as H. unfold Advance, with_out.
    destruct (sc_advance _ _ _ _ x) as [[st' c'] x']. destruct H as [Hi H]. simpl. split; [|done]. split; [apply Hl|done].
Qed.

Lemma ended s : rounds_left (sp_state s) = 0%nat → located s → Complete s || Aborted s = true.
Proof. intros Hr [_ Hl]. unfold Complete, Aborted. destruct (sp_state s); simpl in *; [lia|done..]. Qed.

Lemma drive_loop_ended fuel cfg s he r t w :
  Complete s || Aborted s = true → drive_loop env e fuel plan cfg s he r t w = (LoopStopped s he r t, w).
Proof. intros He. destruct fuel; simpl; [done|]. by rewrite He. Qed.

Lemma drive_loop_enough fuel k cfg s he r t w :
  located s → (rounds_left (sp_state s) ≤ fuel)%nat →
  drive_loop env e (fuel + k) plan cfg s he r t w = drive_loop env e fuel plan cfg s he r t w.
Proof.
  revert s he r t w. induction fuel as [|fuel IH]; intros s he r t w Hl Hr.
  { rewrite !drive_loop_ended by (apply ended; [lia|done]). done. }
  simpl. destruct (Complete s || Aborted s); [done|]. destruct (steps_at plan _) as [st|]; [|done].
  unfold mbind, M_bind. destruct (still_baking env _ t w) as [[] w1]; [done|].
  unfold step_op. fold (one_step st s). pose proof (one_step_leads st s (w1, he) Hl) as Hone.
  destruct (one_step st s (w1, he)) as [s' [w2 he']]. simpl in Hone.
  destruct (Aborted s' || Failed (sp_ctx s')); [done|]. destruct Hone as [Hl' Hone].
  destruct (Complete s' || negb (Index (sp_ctx s') =? Index (sp_ctx s))) eqn:Hgo; [|done].
  destruct (now env w2) as [t' w3]. destruct (Complete s') eqn:Hc; [by rewrite !drive_loop_ended by (by rewrite Hc)|].
  simpl in Hgo. destruct Hone as [[_ Hctx]|Hlt]; [rewrite Hctx, Z.eqb_refl in Hgo; done|].
  destruct (recordStep env e plan cfg s' r w3) as [[r' [er|]] w4]; [done|]. apply IH; [done|lia].
Qed.
End Rounds.

(** ** A healthy rollout runs through *)
Section Healthy.
Context (cfg : Config.t) (tgt : Config.Target).
Let plan := PlanFor (Config.sp_Strategy (Config.spec cfg)).

(** The target answers every probe, never as unhealthy; no step bakes; the
    traffic router takes every weight of the plan. *)
Definition always_up : Prop := ∀ tr, ∃ hs, o_health env tr tgt = Ok hs ∧ hs_State hs ≠ HealthUnhealthy.
Definition no_bakes : Prop := ∀ st, st ∈ p_Steps plan → Progressive.Pause st = 0.
Definition routable : Prop := ∀ st ref w, st ∈ p_Steps plan →
  (driveTraffic env e ref (Config.sp_TrafficRouting (Config.spec cfg)) (Weight st) w).1 = None.

Context (Hup : always_up) (Hbake : no_bakes) (Hroute : routable).

Lemma stepHealth_up i weight x : ∃ w', stepHealth env e tgt i weight x = (true, (w', x.2)).
Proof.
  destruct x as [w he]. unfold stepHealth, healthWithRetry, on_result, target_Health, ask, mbind, M_bind.
  destruct (Hup (EHealth tgt :: w_trace w)) as (hs & -> & Hs). simpl. rewrite bool_decide_eq_false_2 by done. by eexists.
Qed.

Definition at_step (i : nat) s : Prop :=
  sp_machine s = step_machine plan (stepHealth env e tgt) ∧ sp_state s = SStep i ∧
  ∃ st, p_Steps plan !! i = Some st ∧ sp_ctx s = entry_ctx i (Weight st) true.

Lemma at_step_running i s : at_step i s → Complete s = false ∧ Aborted s = false ∧ Failed (sp_ctx s) = false.
Proof. intros (_ & Hs & st & _ & Hc). unfold Complete, Aborted. by rewrite Hs, Hc. Qed.

Lemma next_step i s x :
  at_step i s →
  let '(s', x') := StepperNext s x in
  x'.2 = x.2 ∧
  (if decide (Datatypes.S i < length (p_Steps plan))%nat then at_step (Datatypes.S i) s'
   else Complete s' = true ∧ Failed (sp_ctx s') = false).
Proof.
  intros (Hm & Hs & st & Hst & Hc). unfold StepperNext, Progressive.send, with_out. rewrite Hm, Hs.
  pose proof (next_moves plan (stepHealth env e tgt) i st (sp_ctx s) x Hst ltac:(by rewrite Hc)) as H.
  unfold moved_on in H. destruct (p_Steps plan !! Datatypes.S i) as [st'|] eqn:Hn.
  - destruct (stepHealth_up (Datatypes.S i) (Weight st') x) as [w' Hh]. rewrite Hh in H.
    destruct H as [-> |[? _]]; [|done]. simpl. split; [done|].
    rewrite decide_True by (by apply lookup_lt_Some in Hn). split_and!; [done|done|]. by exists st'.
  - rewrite H. simpl. split; [done|]. rewrite decide_False by (apply lookup_ge_None in Hn; lia). by rewrite Hc.
Qed.

Lemma recordStep_ok i s r w : at_step i s → ∃ r' w', recordStep env e plan cfg s r w = ((r', None), w') ∧ same_row r r'.
Proof.
  intros (_ & _ & st & Hst & Hc). unfold recordStep. case_match; [by eexists _, _|].
  unfold mbind, M_bind. destruct (now env w) as [t w1]. destruct (save _ w1) as [o w2]. unfold on_error, mbind, M_bind.
  rewrite Hc. cbn [CtxWeight entry_ctx].
  match goal with |- context [driveTraffic env e ?ref ?tr (Weight st) w2] =>
    pose proof (Hroute st ref w2 ltac:(by eapply list_elem_of_lookup_2)) as Hd;
    destruct (driveTraffic env e ref tr (Weight st) w2) as [o' w3] end.
  simpl in Hd. subst o'.
  match goal with |- context [match ?x with Some _ => _ | None => _ end w3] => generalize x end.
  intros ff. match goal with |- context [match (?m w3) with pair _ _ => _ end] => destruct (m w3) as [u w4] end.
  by eexists _, _.
Qed.

Lemma drive_loop_completes fuel i s he r t w :
  at_step i s → (length (p_Steps plan) - i ≤ fuel)%nat →
  ∃ s' he' r' t' w', drive_loop env e fuel plan cfg s he r t w = (LoopStopped s' he' r' t', w') ∧
                     Complete s' = true ∧ same_row r r'.
Proof.
  revert i s he r t w. induction fuel as [|fuel IH]; intros i s he r t w Hs Hf.
  { destruct Hs as (_ & _ & st & Hst & _). apply lookup_lt_Some in Hst. lia. }
  destruct (at_step_running i s Hs) as (Hc & Ha & _). pose proof Hs as (_ & _ & st & Hst & Hctx).
  cbn [drive_loop]. rewrite Hc, Ha. simpl. unfold steps_at. rewrite Hctx. simpl.
  rewrite (proj2 (Z.ltb_ge _ _)) by lia. rewrite Nat2Z.id, Hst.
  assert (Progressive.Pause st = 0) as Hp by (apply Hbake; by eapply list_elem_of_lookup_2).
  unfold still_baking, mbind, M_bind, mret, M_ret. rewrite Hp. simpl. unfold step_op.
  pose proof (next_step i s (w, he) Hs) as Hn. destruct (StepperNext s (w, he)) as [s' [w1 he']].
  simpl in Hn. destruct Hn as [-> Hn]. case_decide as Hi.
  - destruct (at_step_running _ _ Hn) as (Hc' & Ha' & Hf'). rewrite Ha', Hf', Hc'. cbn [orb].
    pose proof Hn as (_ & _ & st' & Hst' & Hctx'). rewrite Hctx'. cbn [Index entry_ctx].
    rewrite (proj2 (Z.eqb_neq _ _)) by lia. cbn [negb].
    match goal with |- context [recordStep env e plan cfg s' r ?x] =>
      destruct (recordStep_ok _ s' r x Hn) as (r' & w3 & -> & [Hid Hph]) end.
    destruct (IH (Datatypes.S i) s' he r' (o_now env (w_tick w1)) w3 Hn ltac:(lia)) as (s2 & he2 & r2 & t2 & w4 & -> & Hc2 & [Hid2 Hph2]).
    eexists _, _, _, _, _. split_and!; [done|done|]. split; congruence.
  - destruct Hn as [Hn HF]. assert (Aborted s' = false) as -> by (unfold Complete, Aborted in *; split_bool; by rewrite Hn).
    rewrite HF, Hn. simpl. rewrite drive_loop_ended by (by rewrite Hn).
    by eexists _, _, _, _, _.
Qed.

(** What a run of the stepper ends in: verification, or a store that cannot
    be written. *)
Definition ran_through id (out : presult) w : Prop :=
  (∃ r', out = (Some r', None) ∧ r_ID r' = id ∧ r_Phase r' = PhaseVerifying ∧ phase_in w id = Some PhaseVerifying) ∨
  (∃ er r' st, out = (None, Some er) ∧ (SaveRollout (S := S) r' st).1 = Some er).

#[global] Instance ran_through_stable id out : Stable (ran_through id out).
Proof.
  intros w w' Hs [(r' & H1 & H2 & H3 & H4)|H]; [left|by right]. exists r'. split_and!; [done..|].
  by eapply (phase_in_stable _ _ w).
Qed.

Lemma t_drive_finish_complete lc p s r t actor :
  deploying lc → Complete s = true →
  triple (λ _, True) (drive_finish env e lc cfg p s r t actor) (ran_through (r_ID r)).
Proof.
  intros [Hb Hp] Hc. unfold drive_finish. cbv zeta. t_step. rewrite Hc.
  destruct (Send_deployed lc Hb Hp) as (lc' & -> & Hp'). rewrite Hp'.
  set (r' := set_Phase PhaseVerifying _). unfold on_error.
  apply (t_bind _ _ _ (λ o w, match o with
    | Some er => ∃ st, (SaveRollout r' st).1 = Some er
    | None => phase_in w (r_ID r) = Some PhaseVerifying end)).
  { intros w _. pose proof (saved_phase r' w) as Hs. unfold save, store in *.
    destruct (SaveRollout r' (w_store w)) as [[er|] st] eqn:HS; simpl in *; [|by apply Hs].
    exists (w_store w). by rewrite HS. }
  intros [er|].
  - apply t_ret. intros w [st Hst]. right. by exists er, r', st.
  - apply (t_quiet All); [apply _|frame|intros _]. apply t_ret. intros w Hw. left. by exists r'.
Qed.

Lemma startStepper_completes lc r actor w :
  deploying lc → let '(out, w') := startStepper env e lc r cfg tgt actor w in ran_through (r_ID r) out w'.
Proof.
  intros Hd. unfold startStepper. fold plan. cbv zeta. unfold BuildStepMachine.
  destruct (length (p_Steps plan) =? 0)%nat eqn:Hlen.
  { apply Nat.eqb_eq, nil_length_inv in Hlen. by apply PlanFor_nonempty in Hlen. }
  cbn [default]. unfold mbind, M_bind. destruct (now env w) as [t0 w1]. unfold step_op, NewStepper, with_out.
  destruct (p_Steps plan !! O) as [st|] eqn:Hst; [|by apply lookup_ge_None in Hst; apply Nat.eqb_neq in Hlen; lia].
  pose proof (start_outcome plan (stepHealth env e tgt) st zero_ctx (w1, None) Hst) as Hs.
  destruct (stepHealth_up 0 (Weight st) (w1, None)) as [w2 Hh]. rewrite Hh in Hs. destruct Hs as [Hs|[? _]]; [|done].
  simpl in Hs |- *. rewrite Hs. simpl. set (s := {| sp_machine := _; sp_state := _; sp_ctx := _ |}).
  assert (at_step 0 s) as Hat by (split_and!; [done|done|by exists st]).
  match goal with |- context [driveStepper _ _ _ _ _ _ _ ?t ?he _ ?w3] => generalize t, he, w3 end. intros t he w3.
  unfold driveStepper. destruct (at_step_running 0 s Hat) as (_ & -> & _). unfold mbind, M_bind.
  destruct (recordStep_ok 0 s r w3 Hat) as (r1 & w4 & -> & [Hid1 _]).
  destruct (drive_loop_completes (drive_fuel plan) 0 s he r1 t w4 Hat) as (s2 & he2 & r2 & t2 & w5 & -> & Hc2 & [Hid2 _]).
  { unfold drive_fuel. lia. }
  assert (Aborted s2 = false) as -> by (unfold Complete, Aborted in *; split_bool; by rewrite Hc2).
  pose proof (t_drive_finish_complete lc plan s2 r2 t2 actor Hd Hc2 w5 I) as Hf.
  rewrite Hid2, Hid1 in Hf. by destruct (drive_finish env e lc cfg plan s2 r2 t2 actor w5).
Qed.
End Healthy.

(** ** Ticking during a bake *)
Notation fails m := (triple (λ _ : World S, True) m (λ out _, out.2 ≠ None)).

Lemma t_any {A B} (m : M S A) (k : A → M S B) Q :
  (∀ a, triple (λ _, True) (k a) Q) → triple (λ _, True) (m ≫= k) Q.
Proof. intros Hk. by apply (t_bind_fact (λ _, True)). Qed.

Lemma fail_mark_fails lc r er actor : fails (fail_mark env e lc r er actor).
Proof. unfold fail_mark. cbv zeta. repeat (apply t_any; intros ?). by apply t_ret. Qed.

Lemma failProgressive_fails lc r cfg m er actor : fails (failProgressive env e lc r cfg m er actor).
Proof.
  unfold failProgressive. cbv zeta. case_match; [apply fail_mark_fails|]. case_match; [|apply fail_mark_fails].
  apply t_any. intros [prior|]; [|apply fail_mark_fails]. apply t_any. intros [[[rolled|] [rbErr|]] r']; try apply fail_mark_fails.
  repeat (apply t_any; intros ?). by apply t_ret.
Qed.

(** The clock, read between the two worlds, has not passed the bake of the step
    the snapshot is in. *)
Definition baking (p : stepperPersist) w w' : Prop :=
  ∃ i c st, sn_Snap p = (SStep i, c) ∧ (i < length (p_Steps (sn_Plan p)))%nat ∧ steps_at (sn_Plan p) (Index c) = Some st ∧ 0 < Progressive.Pause st ∧
    ∀ n, (w_tick w ≤ n < w_tick w')%nat → o_now env n - sn_EnteredAt p < Progressive.Pause st.

Lemma baking_within p w1 w2 w3 w4 :
  (w_tick w1 ≤ w_tick w2)%nat → (w_tick w3 ≤ w_tick w4)%nat → baking p w1 w4 → baking p w2 w3.
Proof. intros ? ? (i & c & st & H0 & H1 & H2 & H3 & H4). exists i, c, st. split_and!; [done..|]. intros n ?. apply H4. lia. Qed.

Lemma tick_drive_baking r cfg tgt p s w :
  Snapshot s = sn_Snap p → tame All (sp_machine s) →
  baking p w (tick_drive env e r cfg tgt p s w).2 → (tick_drive env e r cfg tgt p s w).1.2 = None →
  quiet Probe w (tick_drive env e r cfg tgt p s w).2.
Proof.
  intros Hsnap Ht (i & c & st & Hs & _ & Hst & Hp & Hclock). revert Hclock. rewrite Hs in Hsnap. injection Hsnap as Hs1 Hs2.
  assert (Complete s = false ∧ Aborted s = false) as [Hc Ha] by (unfold Complete, Aborted; by rewrite Hs1).
  unfold tick_drive. cbv zeta. rewrite Hc, Ha, Hs2, Hst. simpl. unfold still_baking. rewrite (proj2 (Z.ltb_lt _ _) Hp).
  unfold mbind, M_bind, mret, M_ret. cbn [now].
  destruct (Z.ltb_spec (o_now env (w_tick w) - sn_EnteredAt p) (Progressive.Pause st)) as [Hlt|Hge].
  - intros _. set (w1 := set_tick _ w). assert (quiet Probe w w1) as Hq by apply (quiet_now Probe env).
    pose proof (quiet_step_op Probe (stepHealth env e tgt (Z.to_nat (Index c)) (CtxWeight c)) None) as Hh.
    specialize (Hh ltac:(intros x; apply stepHealth_quiet) w1).
    destruct (step_op _ None w1) as [[[] he] w2].
    + intros _. etransitivity; [exact Hq|exact Hh].
    + intros He. by apply failProgressive_fails in He.
  - intros Hclock. exfalso. specialize (Hclock (w_tick w)).
    match type of Hclock with context [driveStepper ?a ?b ?c ?d ?x ?f ?g ?h ?i ?j ?w1] =>
      pose proof (calm_driveStepper a b c d x f g h i j Ht w1) as [[_ Hk] _] end.
    simpl in Hk. simpl in Hclock. lia.
Qed.

Lemma restored_snapshot (m : MachineConfig StepState StepContext HW) snap s : RestoreStepper m snap = Ok s → Snapshot s = snap.
Proof.
  unfold RestoreStepper. rewrite restore_spec. intros H. destruct snap as [st c]. simpl in H.
  by destruct (declared m st); simplify_eq.
Qed.

Lemma restores_step plan (h : StepHealth HW) i c :
  (i < length (p_Steps plan))%nat → ∃ s, RestoreStepper (step_machine plan h) (SStep i, c) = Ok s.
Proof.
  intros Hi. destruct (lookup_lt_is_Some_2 (p_Steps plan) i Hi) as [st Hst].
  unfold RestoreStepper. rewrite restore_spec. simpl. unfold declared. cbn [mc_states step_machine].
  destruct (step_states_lookup (length (p_Steps plan)) 0 _ i st
    [(SComplete, final_config); (SAborted, final_config)] Hst) as [E _]. simpl in E. rewrite E. eauto.
Qed.

Lemma tick_locked_baking r cfg p w :
  r_StepperSnap r = Some (Good p) →
  let '(out, w') := tick_locked env e r cfg w in baking p w w' → out.2 = None → quiet Probe w w'.
Proof.
  intros Hsnap. unfold tick_locked. rewrite Hsnap. simpl. unfold on_result, mbind, M_bind.
  pose proof (quiet_resolveSecrets env e Probe (target_of cfg) w) as H1.
  destruct (resolveSecrets env e (target_of cfg) w) as [[tcfg|er] w1]; [|done]. simpl in H1.
  pose proof (quiet_build env Probe tcfg w1) as H2. destruct (build env tcfg w1) as [[tgt|er] w2]; [|done]. simpl in H2.
  destruct (BuildStepMachine (sn_Plan p) (Some (stepHealth env e tgt))) as [m|er] eqn:Hm.
  2:{ unfold BuildStepMachine in Hm. case_match eqn:Hlen; [|done]. apply Nat.eqb_eq in Hlen.
      destruct (recoverInterrupted env e r _ w2) as [out w']. intros (i & c & st & _ & Hi & _). lia. }
  apply built_machine in Hm as ->. pose proof (quiet_now Probe env w2) as H3. destruct (now env w2) as [t w3]. simpl in H3.
  destruct (RestoreStepper _ (sn_Snap p)) as [s|er] eqn:Hr.
  2:{ destruct (recoverInterrupted env e r _ w3) as [out w']. intros (i & c & st & Hs & Hi & _). rewrite Hs in Hr.
      by destruct (restores_step (sn_Plan p) (stepHealth env e tgt) i c Hi) as [? Hr']; rewrite Hr in Hr'. }
  assert (quiet Probe w w3) as Hq by (etransitivity; [exact H1|]; etransitivity; [exact H2|exact H3]).
  pose proof (tick_drive_baking r cfg tgt p s w3 (restored_snapshot _ _ _ Hr)) as H.
  rewrite (restored_machine _ _ _ Hr) in H. specialize (H (tame_stepHealth env e All _ _)).
  destruct (tick_drive env e r cfg tgt p s w3) as [out w']. simpl in H. intros Hb He.
  etransitivity; [exact Hq|]. apply H; [|done]. eapply baking_within; [| |exact Hb]; [apply Hq|done].
Qed.

Lemma Tick_baking id cfg r p w :
  row id r w → r_Phase r = PhaseDeploying → r_StepperSnap r = Some (Good p) →
  let '(out, w') := Tick env e id cfg w in baking p w w' → out.2 = None → quiet Probe w w'.
Proof.
  intros Hr Hph Hsnap. unfold Tick, on_result, mbind, M_bind, store.
  pose proof (load_rollout_spec id (w_store w)) as [Hv Hl]. pose proof (quiet_load Probe id w) as Hq. unfold store in Hq.
  destruct (LoadRollout id (w_store w)) as [[r'|er] s]; [|done].
  simpl in Hl, Hv, Hq. unfold row in Hr. rewrite Hr in Hl. simplify_eq. rewrite Hph. destruct (_ != _); [done|].
  set (w1 := set_store s w) in *.
  destruct (with_target_run env e (r_TargetRef r') (λ er, (Some r', Some er)) (tick_locked env e r' cfg) w1)
    as (w2 & Ho & [(er & -> & Hlk)|(Hn & Hlk & w3 & -> & Ho3 & Hlk3)]); [done|].
  pose proof (tick_locked_baking r' cfg p w2 Hsnap) as Hb.
  destruct (tick_locked env e r' cfg w2) as [out w']. simpl in Ho3, Hlk3 |- *. intros Hbake He.
  etransitivity; [exact Hq|]. eapply quiet_locked; [done..| |done|done]. apply Hb; [|done].
  eapply baking_within; [| |exact Hbake]; [|apply Ho3]. etransitivity; [apply Hq|apply Ho].
Qed.
End Canary.

(** ** Properties *)

(** C18. The stepper's loop terminates: from any state of the plan's machine - a
    step, a paused step, an end - and however the health gate, the clock and the
    router answer, it stops within one round per step, so more fuel than
    [drive_fuel] changes nothing. *)
Theorem drive_loop_terminates {S} `{!Store S, !StoreLaws S}
    `{!Statechart StepState StepContext (World S * option err),
      !StatechartLaws StepState StepContext (World S * option err)}
    env e plan h k cfg (s : Stepper (World S * option err)) he r t w :
  located plan h s →
  drive_loop env e (drive_fuel plan + k) plan cfg s he r t w = drive_loop env e (drive_fuel plan) plan cfg s he r t w.
Proof.
  intros Hl. apply (drive_loop_enough env e plan h); [done|]. unfold drive_fuel, rounds_left.
  case_match; lia.
Qed.

(** C19. A healthy rollout gets through.  When no step of the strategy bakes, the
    target never answers a probe as unhealthy and the router takes every weight,
    driving the stepper right after the deploy ends in a stored rollout that is
    verifying; the only other outcome is the error of a store that could not be
    written. *)
Theorem healthy_rollout_runs_through {S} `{!Store S, !StoreLaws S}
    `{!Statechart Phase LifeContext unit, !StatechartLaws Phase LifeContext unit}
    `{!Statechart StepState StepContext (World S * option err),
      !StatechartLaws StepState StepContext (World S * option err)}
    env e cfg tgt lc r actor (w : World S) :
  always_up env tgt → no_bakes cfg → routable (S := S) env e cfg → deploying lc →
  let '(out, w') := startStepper env e lc r cfg tgt actor w in
  (∃ r', out = (Some r', None) ∧ r_ID r' = r_ID r ∧ r_Phase r' = PhaseVerifying ∧
         phase_in w' (r_ID r) = Some PhaseVerifying) ∨
  (∃ er r' st, out = (None, Some er) ∧ (SaveRollout (S := S) r' st).1 = Some er).
Proof. intros. by apply startStepper_completes. Qed.

(** A bake is waited out.  A tick whose clock readings all fall before the
    end of the current step's bake, and which reports no error, deploys nothing,
    shifts no traffic and stores nothing: the canary stays at its weight. *)
Theorem tick_waits_out_the_bake {S} `{!Store S, !StoreLaws S}
    `{!Statechart Phase LifeContext unit, !StatechartLaws Phase LifeContext unit}
    `{!Statechart StepState StepContext (World S * option err),
      !StatechartLaws StepState StepContext (World S * option err)}
    env e id cfg r p (w : World S) :
  rollouts_of (w_store w) !! id = Some r → r_Phase r = PhaseDeploying → r_StepperSnap r = Some (Good p) →
  let '(out, w') := Tick env e id cfg w in
  baking env p w w' → out.2 = None → quiet Probe w w'.
Proof. apply Tick_baking. Qed.

Section Witnesses.
Import Scenario.
#[local] Existing Instance life_chart.
#[local] Existing Instance life_laws.
#[local] Existing Instance step_chart.
#[local] Existing Instance step_laws.

Definition slow : Progressive.Plan := PlanFor canary.
Definition resting : Stepper (World Sqlite.Db * option err) :=
  {| sp_machine := step_machine slow always_healthy; sp_state := SStep 0;
     sp_ctx := {| Index := 0; CtxWeight := 10; Failed := false |} |}.

Lemma drive_loop_terminates_witness :
  let w := start Sqlite.empty in
  let r := Sqlite.demo_rollout "ro-1" 0 in
  drive_loop sunny engine (drive_fuel slow + 5) slow (service "web" "v1" canary true) resting None r (- Minute) w =
  drive_loop sunny engine (drive_fuel slow) slow (service "web" "v1" canary true) resting None r (- Minute) w.
Proof.
  apply (drive_loop_terminates sunny engine slow always_healthy). split; [reflexivity|vm_compute; lia].
Defined.

Lemma healthy_rollout_runs_through_witness :
  let lc := resume PhaseDeploying in
  let r := Sqlite.demo_rollout "ro-1" 0 in
  let '(out, w') := startStepper sunny engine lc r (web "v1") (target_of (web "v1")) ann (start Sqlite.empty) in
  out.2 = None ∧ phase_in w' "ro-1" = Some PhaseVerifying.
Proof.
  intros lc r.
  pose proof (healthy_rollout_runs_through sunny engine (web "v1") (target_of (web "v1")) lc r ann (start Sqlite.empty)) as H.
  assert ((startStepper sunny engine lc r (web "v1") (target_of (web "v1")) ann (start Sqlite.empty)).1.2 = None) as He
    by (vm_compute; reflexivity).
  destruct (startStepper sunny engine lc r (web "v1") (target_of (web "v1")) ann (start Sqlite.empty)) as [out w'].
  destruct H as [(r' & _ & _ & _ & Hp)|(er & r' & st & Ho & _)].
  - intros tr. exists healthy. split; [reflexivity|discriminate].
  - intros st Hst. vm_compute in Hst. repeat (apply elem_of_cons in Hst as [->|Hst]; [reflexivity|]). by apply not_elem_of_nil in Hst.
  - intros st ref w _. reflexivity.
  - apply resume_built.
  - split; [exact He|exact Hp].
  - rewrite Ho in He. discriminate.
Defined.

Definition canary_web : Config.t := service "web" "v1" canary true.
Definition canary_world : World Sqlite.Db := (Apply sunny engine (request canary_web ann false) (start Sqlite.empty)).2.
Definition canary_id : string := "ro-19700101T000002.000000000".

Lemma tick_waits_out_the_bake_witness :
  quiet Probe canary_world (Tick sunny engine canary_id canary_web canary_world).2.
Proof.
  pose (snap := {| sn_Plan := slow; sn_Snap := (SStep 0, {| Index := 0; CtxWeight := 10; Failed := false |});
                   sn_EnteredAt := 4 * Second |}).
  assert ((λ r, (r_Phase r, r_StepperSnap r)) <$> rollouts_of (w_store canary_world) !! canary_id =
          Some (PhaseDeploying, Some (Good snap))) as Hr by (vm_compute; reflexivity).
  destruct (rollouts_of (w_store canary_world) !! canary_id) as [r|] eqn:Hrow; [|discriminate].
  injection Hr as Hp Hs.
  pose proof (tick_waits_out_the_bake sunny engine canary_id canary_web r snap canary_world Hrow Hp Hs) as H.
  assert (w_tick canary_world = 8%nat ∧ w_tick (Tick sunny engine canary_id canary_web canary_world).2 = 11%nat ∧
          (Tick sunny engine canary_id canary_web canary_world).1.2 = None) as (H1 & H2 & H3)
    by (vm_compute; repeat split; reflexivity).
  destruct (Tick sunny engine canary_id canary_web canary_world) as [out w']. apply H; [|exact H3].
  exists 0%nat, {| Index := 0; CtxWeight := 10; Failed := false |}, {| Weight := 10; Progressive.Pause := Minute |}.
  split; [reflexivity|]. split; [vm_compute; lia|]. split; [vm_compute; reflexivity|]. split; [reflexivity|].
  rewrite H1. simpl in H2. rewrite H2. simpl. intros n Hn. unfold Minute, Second in *. lia.
Defined.
End Witnesses.
