(* ===== verification/EngineQueue.v ===== *)
(** * Engine: the kill-switch, the schedule queue, the rollback target

    [Freeze] persists before it engages; [FireDueSchedules] removes what it fired
    and keeps the rest; and which manifest a rollback restores, with the cases
    where it is not one that ever ran. *)

From S2P Require Import Prelude GoTime Statekit Config Progressive Model Lifecycle Risk Analysis Security Store World.
From S2P Require Import EngineBase EngineGates EngineRollback EngineDeploy Scenario Frame EngineLocks EngineMoves EngineSafety EngineVerify EngineSession.

Section Queue.
Context {S : Type} `{!Store S, !StoreLaws S}.
Context (env : Env) (e : Engine).
Implicit Types (w : World S).

(** ** The queue *)
Definition queue (m : gmap string ScheduledRollout) w : Prop := schedules_of (w_store w) = m.

#[global] Instance queue_stable m : Stable (queue m).
Proof. intros w w' ((_ & Hs & _) & _). unfold queue. by rewrite Hs. Qed.

Lemma t_save_queue m r : triple (queue m) (save r) (λ _, queue m).
Proof.
  intros w Hq. unfold save, store. pose proof (save_rollout_spec r (w_store w)) as H.
  destruct (SaveRollout r (w_store w)) as [[er|] s]; unfold queue in *; simpl; [by destruct H as (_ & -> & _)|].
  by destruct H as (_ & -> & _).
Qed.

(** A deployed schedule returns the rollout it fired. *)
Definition fired m (out : outcome) w : Prop := queue m w ∧ (out.2 = None → ∃ r, out.1 = Some r).
#[global] Instance fired_stable m out : Stable (fired m out).
Proof. intros w w' Hs [Hq Hr]. split; [by eapply stable|done]. Qed.

Lemma t_scheduled_queue m s : triple (queue m) (scheduled_deploy env s) (fired m).
Proof.
  unfold scheduled_deploy. t_step; [by apply t_ret|]. t_step. t_step. cbv zeta.
  unfold on_error at 1. eapply t_bind; [apply t_save_queue|]. intros [er|]; [by apply t_ret|].
  apply (t_check All); [apply _|apply quiet_target_Apply| |].
  - intros er. t_step. eapply t_bind; [apply t_save_queue|]. intros o. by apply t_ret.
  - t_step. unfold on_error. eapply t_bind; [apply t_save_queue|]. intros [er|]; [by apply t_ret|].
    apply t_ret. intros w Hq. split; [done|]. eauto.
Qed.

Lemma t_applyScheduled_queue m s : triple (queue m) (applyScheduled env e s) (fired m).
Proof.
  apply t_with_target_res; [apply _..| |by intros].
  destruct (e_guardrails e) as [g|]; [|apply t_scheduled_queue].
  t_step; [t_step; by apply t_ret|]. t_step; [t_step; by apply t_ret|apply t_scheduled_queue].
Qed.

(** What firing leaves: nothing new, and with no error nothing of what was
    due. *)
Lemma fire_all_queue due m :
  triple (queue m) (fire_all env e due)
    (λ out w, (schedules_of (w_store w) ⊆ m) ∧
              (out.2 = [] → length out.1 = length due ∧ ∀ sc, sc ∈ due → schedules_of (w_store w) !! sr_ID sc = None)).
Proof.
  revert m. induction due as [|s due IH]; intros m; simpl.
  { apply t_ret. intros w <-. split; [done|]. intros _. split; [done|]. set_solver. }
  eapply t_bind; [apply t_applyScheduled_queue|]. intros [r [er|]].
  - eapply t_bind; [apply (t_pre _ (queue m)); [by intros w []|apply IH]|]. intros [rs errs]. apply t_ret.
    by intros w [Hm _].
  - apply (t_pre _ (λ w, (∃ r', r = Some r') ∧ queue m w)); [intros w [Hq Hr]; split; [by apply Hr|done]|].
    apply t_fact. intros [r' ->].
    apply (t_bind _ _ _ (λ o w, match o with Some _ => queue m w | None => queue (delete (sr_ID s) m) w end)).
    { intros w Hq. unfold store. pose proof (delete_schedule_spec (sr_ID s) (w_store w)) as H. unfold queue in *.
      destruct (DeleteSchedule (sr_ID s) (w_store w)) as [[er|] st]; simpl; [destruct H as (_ & H & _)|destruct H as (_ & _ & H)];
        by rewrite H, Hq. }
    intros [derr|].
    + eapply t_bind; [apply IH|]. intros [rs errs]. apply t_ret. by intros w [Hm _].
    + eapply t_bind; [apply IH|]. intros [rs errs]. apply t_ret. intros w [Hm Hall]. simpl in *. split.
      * etransitivity; [exact Hm|]. apply delete_subseteq.
      * intros He. destruct (Hall He) as [Hlen Hdue]. split; [by rewrite Hlen|]. intros sc [->|Hin]%elem_of_cons; [|by apply Hdue].
        destruct (schedules_of (w_store w) !! sr_ID s) as [x|] eqn:Hx; [|done].
        apply (lookup_weaken _ _ _ _ Hx) in Hm. by rewrite lookup_delete_eq in Hm.
Qed.
End Queue.

(** ** Properties *)

(** The kill-switch is durable before it acts.  When [Freeze] reports an
    error, neither the stored nor the in-memory freeze changed; when it reports
    success, both are in the state that was asked for, so a restart or another
    process sees it too. *)
Theorem freeze_durable_before_engaged {S} `{!Store S, !StoreLaws S} env e on by_ reason (w : World S) :
  let '((active, _, er), w') := SetFreeze env e on by_ reason w in
  match er with
  | Some _ => w_freeze w' = w_freeze w ∧ freeze_of (w_store w') = freeze_of (w_store w)
  | None => active = on ∧ fz_active (w_freeze w') = on ∧ fs_Active (freeze_of (w_store w')) = on ∧
            rollouts_of (w_store w') = rollouts_of (w_store w)
  end.
Proof.
  unfold SetFreeze. destruct (negb (freeze_attached e)); [done|].
  unfold on_error, mbind, M_bind, store, write, read, mret, M_ret. cbn [now].
  match goal with |- context [SaveFreeze ?f ?s] => pose proof (save_freeze_spec f s) as H; destruct (SaveFreeze f s) as [[er|] st] end.
  - simpl. by destruct H as (_ & _ & ->).
  - simpl in *. destruct H as (Hr & _ & Ha & _).
    match goal with |- context [record e ?en ?w1] =>
      pose proof (quiet_record e Probe en w1) as (_ & (Hr2 & _ & Hf2) & Hz2); destruct (record e en w1) as [u w2] end.
    simpl in *. rewrite Hz2, Hf2, Hr2. destruct on; by split_and!.
Qed.

(** The schedule queue drains exactly.  [FireDueSchedules] never adds to or
    alters the queue; and when it reports no error, every schedule that was due
    has fired - as many rollouts as schedules - and left the queue. *)
Theorem fired_schedules_leave_the_queue {S} `{!Store S, !StoreLaws S} env e at_ (w : World S) :
  let '((rs, errs), w') := FireDueSchedules env e at_ w in
  schedules_of (w_store w') ⊆ schedules_of (w_store w) ∧
  (errs = [] → ∃ due, (DueSchedules at_ (w_store w)).1 = Ok due ∧ length rs = length due ∧
                      ∀ sc, sc ∈ due → schedules_of (w_store w') !! sr_ID sc = None).
Proof.
  unfold FireDueSchedules, on_result, mbind, M_bind, store.
  pose proof (due_schedules_spec at_ (w_store w)) as [Hv _]. destruct (DueSchedules at_ (w_store w)) as [[due|er] s]; simpl in Hv.
  - pose proof (fire_all_queue env e due (schedules_of s) (set_store s w) eq_refl) as [Hm Hall].
    destruct (fire_all env e due (set_store s w)) as [[rs errs] w']. simpl in *. destruct Hv as (_ & Hs & _).
    rewrite <- Hs. split; [done|]. intros He. exists due. by destruct (Hall He).
  - simpl. destruct Hv as (_ & -> & _). by split.
Qed.

Section Witnesses.
Import Scenario.
#[local] Existing Instance life_chart.
#[local] Existing Instance step_chart.

Lemma freeze_durable_before_engaged_witness :
  let '((active, _, er), w') := SetFreeze sunny engine true ann "incident" (start Sqlite.empty) in
  er = None ∧ fs_Active (freeze_of (w_store w')) = true.
Proof.
  pose proof (freeze_durable_before_engaged sunny engine true ann "incident" (start Sqlite.empty)) as H.
  assert ((SetFreeze sunny engine true ann "incident" (start Sqlite.empty)).1.2 = None) as He by (vm_compute; reflexivity).
  destruct (SetFreeze sunny engine true ann "incident" (start Sqlite.empty)) as [[[active r] er] w'].
  simpl in He. rewrite He in H. split; [exact He|]. exact (proj1 (proj2 (proj2 H))).
Defined.

Definition nightly : ScheduledRollout := {|
  sr_ID := "sch-1"; sr_TargetRef := "web"; sr_DueAt := 5 * Second;
  sr_Desired := {| m_Kind := "container"; m_Spec := {["image" := AString "v1"]}; m_Labels := ∅; m_Checksum := "v1";
                   m_Root := ""; m_Rendered := "" |};
  sr_Initiator := ann |}.
Definition queued : World Sqlite.Db := (Schedule sunny nightly (start Sqlite.empty)).2.

Lemma fired_schedules_leave_the_queue_witness :
  let '((rs, errs), w') := FireDueSchedules sunny engine (9 * Second) queued in
  errs = [] ∧ length rs = 1%nat ∧ schedules_of (w_store w') ⊆ schedules_of (w_store queued).
Proof.
  pose proof (fired_schedules_leave_the_queue sunny engine (9 * Second) queued) as H.
  assert ((FireDueSchedules sunny engine (9 * Second) queued).1.2 = [] ∧
          length (FireDueSchedules sunny engine (9 * Second) queued).1.1 = 1%nat) as [He Hl] by (vm_compute; split; reflexivity).
  destruct (FireDueSchedules sunny engine (9 * Second) queued) as [[rs errs] w']. destruct H as [Hs _].
  split; [exact He|]. split; [exact Hl|exact Hs].
Defined.

(** ** What a rollback restores

    The "last known good" manifest is that of the newest rollout with another
    checksum, in whatever phase it ended.  Here v2 was rejected at the approval
    gate and never deployed; rolling v3 back deploys it. *)
Definition rejected_then_rolled_back : World Sqlite.Db :=
  (session sunny engine
     [OpApply (request (web "v1") ann false); OpPromote "ro-19700101T000002.000000000" ann false;
      OpApply (request (web "v2") ann true); OpReject "ro-19700101T000017.000000000" bob;
      OpApply (request (web "v3") ann false); OpRollbackLast "web" false]
     (start Sqlite.empty)).2.

Theorem rollback_deploys_a_rejected_manifest :
  deployed rejected_then_rolled_back = ["v1"; "v3"; "v2"] ∧
  phase_in rejected_then_rolled_back "ro-19700101T000017.000000000" = Some PhaseRolledBack.
Proof. vm_compute. split; reflexivity. Qed.

(** ** Who approved

    [Approve] sets the rollout's initiator to the approver and saves it; the
    row keeps the initiator it was created with, so the rollout returned and
    the one loaded later disagree. *)
Definition approved : option Rollout * option err * World Sqlite.Db :=
  Approve sunny engine "ro-19700101T000002.000000000" bob
    (Apply sunny engine (request (web "v1") ann true) (start Sqlite.empty)).2.

Theorem approver_is_not_stored :
  (r_Initiator <$> approved.1.1) = Some bob ∧
  (r_Initiator <$> rollouts_of (w_store approved.2) !! "ro-19700101T000002.000000000") = Some ann.
Proof. vm_compute. split; reflexivity. Qed.

(** ** What the floor sees of a scheduled apply

    Only the target's reference: its criticality, environment and change type
    are not passed, so the default floor asks for nothing. *)
Theorem default_floor_never_stops_a_schedule ref : MustApprove DefaultPolicyFloor (no_floor_input ref) = false.
Proof. reflexivity. Qed.
End Witnesses.
