(* ===== verification/ReconcileSafety.v ===== *)
(** * Reconciling: what the loop promises

    Theorems on [Reconcile]: it steps the rollout in flight and never starts a
    second one, it reports a reconciled target only once the rollout is settled,
    and when it reports no rollout it has touched nothing.  And on [failStreak]:
    a repeated failure alerts once, and only a permanent one holds the target,
    for half an hour. *)

From S2P Require Import Prelude GoTime Statekit Config Progressive Model Lifecycle Risk Analysis Security Store.
From S2P Require Import World EngineBase EngineGates EngineRollback EngineDeploy Reconcile Scenario Frame EngineLocks.
From S2P Require Import EngineMoves EngineSession EngineSafety EngineVerify EngineCanary.

Section Reconciling.
Context {S : Type} `{!Store S, !StoreLaws S}.
Notation HW := (EngineDeploy.HW (S := S)).
Context `{!Statechart Phase LifeContext unit, !StatechartLaws Phase LifeContext unit}.
Context `{!Statechart StepState StepContext HW, !StatechartLaws StepState StepContext HW}.
Context (env : Env) (rc : Reconciler).
Implicit Types (w : World S).
#[local] Hint Resolve quiet_Plan quiet_rc_record quiet_stuckVerifying : frames.

(** ** Settling *)
Definition settles (out : Outcome * option err) w : Prop :=
  out.2 = None → oc_Reconciled out.1 = true →
  ∃ r, oc_Rollout out.1 = Some r ∧ Settled (r_Phase r) = true ∧ phase_in w (r_ID r) = Some (r_Phase r).

Lemma gate_settles c by_ plan drifted r :
  triple (λ _, True) (finalize_gate env rc c by_ plan drifted r) settles.
Proof.
  unfold finalize_gate. apply (t_get All); [apply _|by frame|by intros; apply t_ret|]. intros p.
  eapply t_bind; [apply t_VerifyOrRollback_settles|]. intros [out [er|]]; [by apply t_ret|].
  destruct (vo_Rollout out) as [final|] eqn:Hf.
  - t_step. apply t_ret. intros w Hw _ _. destruct (Hw eq_refl) as (q & Hq & Hid & Hset & Hph).
    simpl in Hq. rewrite Hf in Hq. simplify_eq. exists q. by rewrite Hid.
  - apply t_ret. intros w Hw. destruct (Hw eq_refl) as (q & Hq & _). simpl in Hq. congruence.
Qed.

Lemma finalize_settles c by_ plan drifted rl :
  triple (λ _, True) (finalize env rc c by_ plan drifted rl) settles.
Proof. unfold finalize. repeat case_match; first [by apply t_ret|apply gate_settles]. Qed.

Lemma Reconcile_settles c by_ : triple (λ _, True) (Reconcile env rc c by_) settles.
Proof.
  unfold Reconcile, reconcile_in_flight, reconcile_in_sync. t_steps; try by intros.
  all: try apply finalize_settles.
  all: apply t_any; intros [rl [er|]]; t_steps; try by intros.
  all: apply finalize_settles.
Qed.

(** ** Reporting *)

(** An operation that reports no error returns the rollout. *)
Definition returned (out : presult) : Prop := out.2 = None → is_Some out.1.
Notation returns m := (triple (λ _ : World S, True) m (λ out _, returned out)).

#[global] Instance const_stable (F : Prop) : Stable (λ _ : World S, F).
Proof. by intros w w'. Qed.

Lemma returns_failed (m : M S presult) : triple (λ _, True) m (λ out _, out.2 ≠ None) → returns m.
Proof. apply t_post. by intros out w Hf He. Qed.

Lemma returns_locked ref (failed : err → presult) (body : M S presult) :
  (∀ er, (failed er).2 ≠ None) → returns body → returns (with_target env (rc_eng rc) ref failed body).
Proof. intros Hf Hb. apply t_with_target_res; [apply _..|done|]. intros er w _ He. by destruct (Hf er). Qed.

Ltac r_step :=
  match goal with
  | |- triple _ (mret _) _ => apply t_ret; intros _ _; unfold returned; simpl; solve [by eauto|discriminate]
  | |- triple _ (failProgressive _ _ _ _ _ _ _ _) _ => apply returns_failed, failProgressive_fails
  | |- triple _ (with_target _ _ _ _ _) _ => apply returns_locked; [done|]
  | |- triple _ (if ?b then _ else _) _ => destruct b eqn:?
  | |- triple _ (match ?x with _ => _ end) _ => destruct x eqn:?
  | |- triple _ (let _ := _ in _) _ => cbv zeta
  | |- triple _ (on_error _ _ _) _ => apply t_any; intros [?|]
  | |- triple _ (on_result _ _ _) _ => apply t_any; intros [?|?]
  | |- triple _ (mbind _ _) _ => apply t_any; intros ?
  end.
Ltac r_steps := repeat r_step.

Lemma driveStepper_returns lc r c plan s t h actor : returns (driveStepper env (rc_eng rc) lc r c plan s t h actor).
Proof. unfold driveStepper, drive_finish. r_steps. Qed.

Lemma Tick_returns id c : returns (Tick env (rc_eng rc) id c).
Proof. unfold Tick, tick_locked, tick_drive, recoverInterrupted. r_steps; apply driveStepper_returns. Qed.

Lemma Apply_returns req : returns (Apply env (rc_eng rc) req).
Proof.
  unfold Apply, apply_locked, apply_commit, startStepper. r_steps; apply driveStepper_returns.
Qed.

Notation reports m := (triple (λ _ : World S, True) m (λ out _, out.2 = None → is_Some (oc_Rollout out.1))).

Lemma gate_reports c by_ plan drifted r : reports (finalize_gate env rc c by_ plan drifted r).
Proof.
  unfold finalize_gate. apply t_any. intros [p|er]; [|by apply t_ret].
  eapply t_bind; [apply t_VerifyOrRollback_settles|]. intros [out [er|]]; [by apply t_ret|].
  destruct (vo_Rollout out) as [final|] eqn:Hf.
  - apply (t_pre _ (λ _, True)); [done|]. apply t_any. intros _. apply t_ret. intros. by eexists.
  - apply t_ret. intros w Hw. destruct (Hw eq_refl) as (q & Hq & _). simpl in Hq. congruence.
Qed.

Lemma finalize_reports c by_ plan drifted r : reports (finalize env rc c by_ plan drifted (Some r)).
Proof. unfold finalize. repeat case_match; first [apply gate_reports|apply t_ret; intros; by eexists]. Qed.

Lemma returned_reports c by_ plan drifted rl :
  triple (λ _, returned (rl, None)) (finalize env rc c by_ plan drifted rl)
    (λ out _, out.2 = None → is_Some (oc_Rollout out.1)).
Proof. intros w Hr. destruct (Hr eq_refl) as [r Hrl]. simpl in Hrl. subst rl. by apply finalize_reports. Qed.

(** ** Idling *)
Lemma t_within {A B} l w0 (m : M S A) (k : A → M S B) Q :
  keeps (quiet l) m → (∀ a, triple (quiet l w0) (k a) Q) → triple (quiet l w0) (m ≫= k) Q.
Proof.
  intros Hm Hk w Hw. specialize (Hm w). unfold mbind, M_bind. destruct (m w) as [a w1].
  apply Hk. by etransitivity.
Qed.

Definition idle w0 (out : Outcome * option err) w : Prop :=
  out.2 = None → oc_Rollout out.1 = None → quiet Probe w0 w.

Lemma reports_idle w0 m : reports m → triple (quiet Probe w0) m (idle w0).
Proof. intros Hm w _ He Hr. destruct (Hm w I He) as [r Hr']. congruence. Qed.

Lemma in_sync_idle c by_ plan w0 : triple (quiet Probe w0) (reconcile_in_sync env rc c by_ plan) (idle w0).
Proof.
  unfold reconcile_in_sync. apply t_within; [by frame|]. intros [[r|]|er]; [by apply reports_idle, finalize_reports| |by apply t_ret].
  case_match; [|by apply t_ret; intros w Hw _ _]. apply t_within; [by frame|]. intros _. by apply t_ret; intros w Hw _ _.
Qed.

Lemma Reconcile_idle c by_ w0 : triple (quiet Probe w0) (Reconcile env rc c by_) (idle w0).
Proof.
  unfold Reconcile. apply t_within; [by frame|]. intros [[inf|]|er]; [| |by apply t_ret].
  - apply reports_idle. unfold reconcile_in_flight. eapply t_bind; [apply Tick_returns|]. intros [rl [er|]]; [by apply t_ret|].
    apply (t_get All); [apply _|by frame|by intros; apply t_ret|]. intros plan. apply returned_reports.
  - apply t_within; [by frame|]. intros [plan|er]; [|by apply t_ret]. case_match; [apply in_sync_idle|].
    apply t_within; [by frame|]. intros _. apply reports_idle. eapply t_bind; [apply Apply_returns|].
    intros [rl [er|]]; [by apply t_ret|apply returned_reports].
Qed.

(** ** One rollout at a time *)
Lemma in_flight_listed w ref rs s :
  in_flight_row w ref → ListRollouts 0 (w_store w) = (Ok rs, s) → ∃ r, in_flight ref rs = Some r.
Proof.
  intros (id & r & Hr & Href & Hp) Hl. pose proof (list_rollouts_spec (w_store w)) as [_ Hrs]. rewrite Hl in Hrs.
  apply (in_flight_found rs ref r); [|done..]. simpl in Hrs. rewrite Hrs.
  apply list_elem_of_fmap. exists (id, r). split; [done|]. by apply elem_of_map_to_list.
Qed.

Lemma Reconcile_in_flight c by_ w :
  in_flight_row w (Config.tg_Ref (target_of c)) → evolves env (λ _, false) false w (Reconcile env rc c by_ w).2.
Proof.
  intros Hf. unfold Reconcile, InFlight, on_result, mbind, M_bind.
  pose proof (quiet_list All 0 w) as Hq. unfold store in *.
  destruct (ListRollouts 0 (w_store w)) as [[rs|er] s] eqn:Hl; [|by eapply evolves_still, still_quiet].
  destruct (in_flight_listed w _ rs s Hf Hl) as [r Hr]. simpl. rewrite Hr.
  assert (triple (evolves env (λ _, false) false w) (reconcile_in_flight env rc c by_ (r_ID r))
            (λ _, evolves env (λ _, false) false w)) as Ht.
  { unfold reconcile_in_flight. eapply t_bind; [apply t_Tick|]. intros [rl er]. m_steps. apply t_finalize. }
  apply Ht. by eapply evolves_still, still_quiet.
Qed.
End Reconciling.

(** ** Repeated failures *)

(** Failures noted one after the other: the verdicts on one key, and the end. *)
Fixpoint verdicts (key : string) (f : failStreak) (evs : list (Time * string * string)) : list failVerdict * failStreak :=
  match evs with
  | [] => ([], f)
  | (t, k, msg) :: evs =>
      let '(v, f) := note t f k msg in
      let '(vs, f) := verdicts key f evs in
      (if k == key then v :: vs else vs, f)
  end.

(** When the key failed. *)
Definition times (key : string) (evs : list (Time * string * string)) : list Time :=
  omap (λ '(t, k, _), if k == key then Some t else None) evs.

(** What the [i]th sighting of the same failure should say. *)
Definition verdict_at (after : Z) (perm : bool) (i : Z) : failVerdict :=
  let alarm := if perm then 1 else Z.max 2 after in
  if i <? alarm then failFresh else if i =? alarm then failEscalate else failQuiet.

Definition alarmed (after : Z) (perm : bool) (i : Z) : bool := (if perm then 1 else Z.max 2 after) <=? i.

(** The key's failure [x] has been seen [n] times, last at [t]. *)
Definition seen (f : failStreak) (key x : string) (n : Z) (t : Time) : Prop :=
  1 ≤ n ∧ fk_msg f !! key = Some x ∧ fk_n f !! key = Some n ∧ fk_perm f !! key = Some (permanentFailure x) ∧
  fk_fired f !! key = Some (alarmed (fk_after f) (permanentFailure x) n) ∧
  (permanentFailure x = true → fk_heldAt f !! key = Some t).

Lemma note_after f t k msg : fk_after (note t f k msg).2 = fk_after f.
Proof. unfold note. by repeat case_match. Qed.

Lemma note_other f key x n t t' k msg : k ≠ key → seen f key x n t → seen (note t' f k msg).2 key x n t.
Proof.
  intros Hk (Hn & H). unfold note, seen. repeat case_match; simpl;
    rewrite ?lookup_insert_ne, ?lookup_delete_ne by done; done.
Qed.

Lemma note_again f key x n t t' :
  x ≠ "" → 1 ≤ fk_after f → seen f key x n t →
  (note t' f key x).1 = verdict_at (fk_after f) (permanentFailure x) (n + 1) ∧ seen (note t' f key x).2 key x (n + 1) t'.
Proof.
  intros Hx Ha (Hn & Hm & Hc & Hp & Hf & Hh). unfold note, seen, verdict_at, alarmed in *.
  rewrite Hm, Hc, Hf, (bool_decide_eq_false_2 (x = "")) by done. simpl. rewrite (bool_decide_eq_true_2 (x = x)) by done. simpl.
  destruct (permanentFailure x) eqn:Hperm; simpl.
  - rewrite (proj2 (Z.leb_le 1 n)), (proj2 (Z.leb_le 1 (n + 1))), (proj2 (Z.ltb_ge (n + 1) 1)) by lia. simpl.
    rewrite (proj2 (Z.eqb_neq (n + 1) 1)) by lia. split; [done|]. rewrite !lookup_insert_eq. split_and!; [lia|done..].
  - destruct (Z.leb_spec (Z.max 2 (fk_after f)) n); simpl.
    + rewrite (proj2 (Z.ltb_ge (n + 1) _)), (proj2 (Z.eqb_neq (n + 1) _)) by lia.
      split; [done|]. rewrite !lookup_insert_eq, (proj2 (Z.leb_le _ (n + 1))) by lia. split_and!; [lia|done..].
    + destruct (Z.leb_spec (fk_after f) (n + 1)); simpl; rewrite !lookup_insert_eq.
      * rewrite (proj2 (Z.ltb_ge (n + 1) _)), (proj2 (Z.eqb_eq (n + 1) _)) by lia.
        rewrite (proj2 (Z.leb_le _ (n + 1))) by lia. split; [done|]. split_and!; [lia|done..].
      * rewrite (proj2 (Z.ltb_lt (n + 1) _)), (proj2 (Z.leb_gt _ (n + 1))) by lia.
        split; [done|]. split_and!; [lia|done..].
Qed.

Lemma note_first f key x t :
  x ≠ "" → fk_msg f !! key ≠ Some x →
  (note t f key x).1 = verdict_at (fk_after f) (permanentFailure x) 1 ∧ seen (note t f key x).2 key x 1 t.
Proof.
  intros Hx Hm. unfold note, seen, verdict_at, alarmed. rewrite bool_decide_eq_false_2 by done.
  rewrite bool_decide_eq_false_2 by (destruct (fk_msg f !! key) as [m|]; simpl; congruence). simpl.
  destruct (permanentFailure x) eqn:Hperm; simpl; rewrite !lookup_insert_eq; [done|].
  by rewrite (proj2 (Z.ltb_lt 1 _)), (proj2 (Z.leb_gt _ 1)) by lia.
Qed.

Lemma held_seen f key x n t now :
  seen f key x n t →
  held now f key = if permanentFailure x && (now - t <=? permanentHoldFor) then Some x else None.
Proof.
  intros (Hn & Hm & _ & Hp & Hf & Hh). unfold held. rewrite Hm, Hp, Hf. simpl.
  destruct (permanentFailure x) eqn:Hperm; [|by rewrite orb_true_r]. rewrite (Hh eq_refl). unfold alarmed.
  rewrite (proj2 (Z.leb_le 1 n)) by lia. simpl. rewrite Z.ltb_antisym. by destruct (_ <=? _).
Qed.

Lemma verdicts_seen key x evs f n t0 :
  x ≠ "" → 1 ≤ fk_after f → Forall (λ '(t, k, msg), k = key → msg = x) evs → seen f key x n t0 →
  let '(vs, f') := verdicts key f evs in
  vs = verdict_at (fk_after f) (permanentFailure x) <$> seqZ (n + 1) (Z.of_nat (length (times key evs))) ∧
  seen f' key x (n + Z.of_nat (length (times key evs))) (default t0 (last (times key evs))).
Proof.
  intros Hx. revert f n t0. induction evs as [|[[t k] msg] evs IH]; intros f n t0 Ha Hev Hs.
  { simpl. by rewrite Z.add_0_r. }
  apply Forall_cons in Hev as [Hk Hev]. simpl. pose proof (note_after f t k msg) as Hna.
  unfold times. simpl. fold (times key evs). destruct (decide (k = key)) as [->|Hne].
  - rewrite (Hk eq_refl) in *. destruct (note_again f key x n t0 t Hx Ha Hs) as [Hv Hs'].
    destruct (note t f key x) as [v f1]. simpl in *. specialize (IH f1 (n + 1) t ltac:(lia) Hev Hs').
    destruct (verdicts key f1 evs) as [vs f2]. destruct IH as [-> Hf2]. rewrite bool_decide_eq_true_2 by done. simpl.
    rewrite Hna, Hv, (seqZ_cons (n + 1)) by (simpl; lia). split.
    + simpl. f_equal. f_equal. f_equal; lia.
    + rewrite last_cons. replace (n + Z.of_nat _) with (n + 1 + Z.of_nat (length (times key evs))) by (simpl; lia).
      by destruct (last (times key evs)).
  - pose proof (note_other f key x n t0 t k msg Hne Hs) as Hs'. destruct (note t f k msg) as [v f1]. simpl in *.
    specialize (IH f1 n t0 ltac:(lia) Hev Hs'). destruct (verdicts key f1 evs) as [vs f2].
    rewrite (bool_decide_eq_false_2 (k = key)), Hna in * by done. exact IH.
Qed.

Lemma note_msg_other f key t k msg : k ≠ key → fk_msg (note t f k msg).2 !! key = fk_msg f !! key.
Proof.
  intros Hk. unfold note. repeat case_match; simpl; by rewrite ?lookup_insert_ne, ?lookup_delete_ne by done.
Qed.

Lemma verdicts_fresh key x evs f :
  x ≠ "" → 1 ≤ fk_after f → fk_msg f !! key ≠ Some x → Forall (λ '(t, k, msg), k = key → msg = x) evs →
  let '(vs, f') := verdicts key f evs in
  vs = verdict_at (fk_after f) (permanentFailure x) <$> seqZ 1 (Z.of_nat (length (times key evs))) ∧
  ∀ t, last (times key evs) = Some t → ∃ n, seen f' key x n t.
Proof.
  intros Hx. revert f. induction evs as [|[[t k] msg] evs IH]; intros f Ha Hm Hev; [done|].
  apply Forall_cons in Hev as [Hk Hev]. simpl. pose proof (note_after f t k msg) as Hna.
  unfold times. simpl. fold (times key evs). destruct (decide (k = key)) as [->|Hne].
  - rewrite (Hk eq_refl) in *. destruct (note_first f key x t Hx Hm) as [Hv Hs].
    destruct (note t f key x) as [v f1]. simpl in *.
    pose proof (verdicts_seen key x evs f1 1 t Hx ltac:(lia) Hev Hs) as Hvs.
    destruct (verdicts key f1 evs) as [vs f2]. destruct Hvs as [-> Hf2]. rewrite bool_decide_eq_true_2 by done. simpl.
    rewrite Hna, Hv, (seqZ_cons 1) by (simpl; lia). split; [simpl; do 3 f_equal; lia|].
    intros t' Hl. rewrite last_cons in Hl. eexists. destruct (last (times key evs)); simplify_eq/=; exact Hf2.
  - pose proof (note_msg_other f key t k msg Hne) as Hm'. destruct (note t f k msg) as [v f1]. simpl in *.
    specialize (IH f1 ltac:(lia) ltac:(by rewrite Hm') Hev). destruct (verdicts key f1 evs) as [vs f2].
    rewrite (bool_decide_eq_false_2 (k = key)), Hna in * by done. exact IH.
Qed.

(** ** Properties *)

(** C20. A target reported as reconciled is settled.  When [Reconcile] returns no
    error and says it reconciled, the rollout it returns is promoted or rolled
    back, and stored so - whether it was ticked through its last step, applied in
    this call or found left in verifying. *)
Theorem reconcile_settles {S} `{!Store S, !StoreLaws S}
    `{!Statechart Phase LifeContext unit, !StatechartLaws Phase LifeContext unit}
    `{!Statechart StepState StepContext (World S * option err),
      !StatechartLaws StepState StepContext (World S * option err)}
    env rc c by_ (w : World S) :
  let '((out, er), w') := Reconcile env rc c by_ w in
  er = None → oc_Reconciled out = true →
  ∃ r, oc_Rollout out = Some r ∧ Settled (r_Phase r) = true ∧ phase_in w' (r_ID r) = Some (r_Phase r).
Proof.
  pose proof (Reconcile_settles env rc c by_ w I) as H. by destruct (Reconcile env rc c by_ w) as [[out er] w'].
Qed.

(** The heartbeat is harmless.  When [Reconcile] returns no error and no
    rollout - live and Git agree, or they differ but the target is only watched -
    it has deployed nothing, run no command, shifted no traffic, and left stored
    rollouts, schedules and the freeze as they were. *)
Theorem reconcile_without_rollout_is_idle {S} `{!Store S, !StoreLaws S}
    `{!Statechart Phase LifeContext unit, !StatechartLaws Phase LifeContext unit}
    `{!Statechart StepState StepContext (World S * option err),
      !StatechartLaws StepState StepContext (World S * option err)}
    env rc c by_ (w : World S) :
  let '((out, er), w') := Reconcile env rc c by_ w in
  er = None → oc_Rollout out = None → quiet Probe w w'.
Proof.
  pose proof (Reconcile_idle env rc c by_ w w ltac:(reflexivity)) as H.
  by destruct (Reconcile env rc c by_ w) as [[out er] w'].
Qed.

(** A rollout in flight owns its target: while one is deploying or paused,
    [Reconcile] only steps it.  It starts no second rollout, whatever the plan
    says, and what was stored before is still stored, moved along the chart
    without an approval. *)
Theorem reconcile_steps_the_rollout_in_flight {S} `{!Store S, !StoreLaws S}
    `{!Statechart Phase LifeContext unit, !StatechartLaws Phase LifeContext unit}
    `{!Statechart StepState StepContext (World S * option err),
      !StatechartLaws StepState StepContext (World S * option err)}
    env rc c by_ (w : World S) :
  in_flight_row w (Config.tg_Ref (target_of c)) →
  let w' := (Reconcile env rc c by_ w).2 in
  (∀ id, is_Some (rollouts_of (w_store w') !! id) → is_Some (rollouts_of (w_store w) !! id)) ∧
  (∀ id r, rollouts_of (w_store w) !! id = Some r → (∀ n, (w_tick w ≤ n < w_tick w')%nat → id ≠ id_at env n) →
     ∃ r', rollouts_of (w_store w') !! id = Some r' ∧ advanced false r r').
Proof.
  intros Hf w'. destruct (Reconcile_in_flight env rc c by_ w Hf) as (_ & He & Hk). split.
  - intros id Hid. by destruct (Hk id Hid) as [?|[? _]].
  - intros id r Hr Hn. destruct (He id r Hr) as [(n & Hlt & Hid)|?]; [by destruct (Hn n Hlt)|done].
Qed.

(** A repeated failure alerts once.  However failures of other targets
    interleave, the sightings of one unchanged failure are fresh until the
    threshold (the second sighting at the earliest), escalate there exactly once
    and are quiet afterwards; a permanent one (forbidden, unauthorized) escalates
    at once.  And only a permanent one holds the target: for half an hour after
    its last sighting, then one attempt is let through. *)
Theorem repeated_failure_alerts_once f key x evs :
  x ≠ "" → 1 ≤ fk_after f → fk_msg f !! key ≠ Some x → Forall (λ '(t, k, msg), k = key → msg = x) evs →
  let '(vs, f') := verdicts key f evs in
  vs = verdict_at (fk_after f) (permanentFailure x) <$> seqZ 1 (Z.of_nat (length (times key evs))) ∧
  ∀ t, last (times key evs) = Some t → ∀ now,
    held now f' key = if permanentFailure x && (now - t <=? permanentHoldFor) then Some x else None.
Proof.
  intros Hx Ha Hm Hev. pose proof (verdicts_fresh key x evs f Hx Ha Hm Hev) as H.
  destruct (verdicts key f evs) as [vs f']. destruct H as [-> Hs]. split; [done|].
  intros t Ht now. destruct (Hs t Ht) as [n Hn]. by eapply held_seen.
Qed.

Section Witnesses.
Import Scenario.
#[local] Existing Instance life_chart.
#[local] Existing Instance life_laws.
#[local] Existing Instance step_chart.
#[local] Existing Instance step_laws.

Definition reconciler : Reconciler := {| rc_eng := engine; rc_audit := true |}.

(** The first release of a service nobody deployed yet. *)
Definition first : Outcome * option err * World Sqlite.Db :=
  Reconcile sunny reconciler (web "v1") ann (start Sqlite.empty).

Lemma first_reconciled :
  first.1.2 = None ∧ oc_Reconciled first.1.1 = true ∧ (r_Phase <$> oc_Rollout first.1.1) = Some PhasePromoted.
Proof. vm_compute. done. Qed.

Lemma reconcile_settles_witness :
  ∃ r, oc_Rollout first.1.1 = Some r ∧ Settled (r_Phase r) = true ∧ phase_in first.2 (r_ID r) = Some (r_Phase r).
Proof.
  destruct first_reconciled as (He & Hr & _).
  pose proof (reconcile_settles sunny reconciler (web "v1") ann (start Sqlite.empty)) as H.
  fold first in H. destruct first as [[out er] w']. by apply H.
Defined.

(** Live already has what Git asks for. *)
Definition in_sync : Env := outside_live "v1" (λ _, None) (λ _, Ok healthy).

Definition heartbeat : Outcome * option err * World Sqlite.Db :=
  Reconcile in_sync reconciler (web "v1") ann (start Sqlite.empty).

Lemma heartbeat_ok : heartbeat.1.2 = None ∧ oc_Rollout heartbeat.1.1 = None.
Proof. vm_compute. done. Qed.

Lemma reconcile_without_rollout_is_idle_witness : quiet Probe (start Sqlite.empty) heartbeat.2.
Proof.
  destruct heartbeat_ok as (He & Hr).
  pose proof (reconcile_without_rollout_is_idle in_sync reconciler (web "v1") ann (start Sqlite.empty)) as H.
  fold heartbeat in H. destruct heartbeat as [[out er] w']. by apply H.
Defined.

(** A canary at its first bake. *)
Definition baking_world : World Sqlite.Db :=
  (Reconcile sunny reconciler (service "web" "v1" canary true) ann (start Sqlite.empty)).2.
Definition baking_id : string := "ro-19700101T000003.000000000".

Lemma baking_row : (λ r, (r_TargetRef r, r_Phase r)) <$> rollouts_of (w_store baking_world) !! baking_id =
  Some ("web", PhaseDeploying).
Proof. vm_compute. reflexivity. Qed.

Lemma baking_in_flight : in_flight_row baking_world "web".
Proof.
  pose proof baking_row as H. destruct (rollouts_of (w_store baking_world) !! baking_id) as [r|] eqn:Hr; [|discriminate].
  exists baking_id, r. injection H as Ht Hp. split_and!; [exact Hr|exact Ht|by left].
Qed.

Lemma reconcile_steps_the_rollout_in_flight_witness :
  in_flight_row baking_world "web" ∧
  ∀ id, is_Some (rollouts_of (w_store (Reconcile sunny reconciler (service "web" "v2" canary true) ann baking_world).2) !! id) →
        is_Some (rollouts_of (w_store baking_world) !! id).
Proof.
  split; [exact baking_in_flight|].
  exact (proj1 (reconcile_steps_the_rollout_in_flight sunny reconciler (service "web" "v2" canary true) ann baking_world
    baking_in_flight)).
Defined.

(** The same refusal of "web" three times, a failure of "api" in between. *)
Definition refusals : list (Time * string * string) :=
  [(0, "web", "apply: Forbidden"); (1, "api", "timeout"); (Minute, "web", "apply: Forbidden");
   (2 * Minute, "web", "apply: Forbidden")].

Lemma repeated_failure_alerts_once_witness :
  (verdicts "web" (newFailStreak 10) refusals).1 = [failEscalate; failQuiet; failQuiet] ∧
  held (20 * Minute) (verdicts "web" (newFailStreak 10) refusals).2 "web" = Some "apply: Forbidden" ∧
  held (40 * Minute) (verdicts "web" (newFailStreak 10) refusals).2 "web" = None.
Proof.
  pose proof (repeated_failure_alerts_once (newFailStreak 10) "web" "apply: Forbidden" refusals
    ltac:(done) ltac:(done) ltac:(done) ltac:(repeat constructor; done)) as H.
  destruct (verdicts "web" (newFailStreak 10) refusals) as [vs f']. destruct H as [-> H].
  split; [reflexivity|]. split; by rewrite (H (2 * Minute) eq_refl).
Defined.
End Witnesses.
