(* ===== verification/WatchSafety.v ===== *)
(** * Watching repositories: what a tick promises

    Theorems on the watcher: the batch is ordered by its dependencies and loses
    no config, a batch with one unwilling target applies nothing, and a config
    waits for the targets it depends on. *)

From S2P Require Import Prelude Encoding GoTime Statekit Config Progressive Model Lifecycle Depgraph Risk Analysis Security Store.
From S2P Require Import World Git ConfigLoad ImageSelect ImageAuto EngineBase EngineGates EngineRollback EngineDeploy Reap Reconcile Watch Scenario Frame.
From S2P Require Import EngineLocks EngineMoves EngineSession EngineSafety EngineVerify EngineCanary ReconcileSafety.

(** ** The order of a batch *)
Lemma dedup_spec seen configs :
  NoDup ((λ nc, ref_of (nc_Config nc)) <$> dedup seen configs) ∧
  (∀ r, r ∈ ((λ nc, ref_of (nc_Config nc)) <$> dedup seen configs) ↔ r ∉ seen ∧ r ∈ ((λ nc, ref_of (nc_Config nc)) <$> configs)) ∧
  sublist (dedup seen configs) configs.
Proof.
  revert seen. induction configs as [|nc configs IH]; intros seen; simpl.
  { split_and!; [constructor|set_solver|constructor]. }
  case_bool_decide as Hin.
  - destruct (IH seen) as (H1 & H2 & H3). split_and!; [done| |by constructor].
    intros r. rewrite H2, elem_of_cons. naive_solver.
  - destruct (IH ({[ref_of (nc_Config nc)]} ∪ seen)) as (H1 & H2 & H3). split_and!.
    + apply NoDup_cons. split; [|done]. intros Hr%H2. set_solver.
    + intros r. rewrite fmap_cons, !elem_of_cons, H2. clear -Hin.
      destruct (decide (r = ref_of (nc_Config nc))); set_solver.
    + by constructor.
Qed.

Lemma byRef_spec (pairs : list cfgPair) (m : gmap string cfgPair) r :
  NoDup (pair_ref <$> pairs) →
  (∀ p, p ∈ pairs → m !! pair_ref p = None) →
  ∀ p, foldl (λ m p, <[pair_ref p := p]> m) m pairs !! r = Some p ↔
       (p ∈ pairs ∧ pair_ref p = r) ∨ m !! r = Some p.
Proof.
  revert m. induction pairs as [|q pairs IH]; intros m Hnd Hm p; simpl; [set_solver|].
  apply NoDup_cons in Hnd as [Hq Hnd].
  assert (∀ p, p ∈ pairs → pair_ref p ≠ pair_ref q) as Hne
    by (intros p' Hp' E; apply Hq; rewrite <- E; by apply list_elem_of_fmap_2).
  rewrite IH; [|done|intros p' Hp'; rewrite lookup_insert_ne by (symmetry; auto); apply Hm; set_solver].
  rewrite lookup_insert_Some, elem_of_cons. specialize (Hm q ltac:(set_solver)).
  split; [naive_solver|]. intros [[[->|?] ?]|?]; [naive_solver..|].
  right; right. split; [|done]. congruence.
Qed.

Lemma pick_spec byRef seen refs :
  NoDup refs → (∀ r, r ∈ refs → r ∉ seen) →
  (pick byRef seen refs).1 = omap (λ r, byRef !! r) refs ∧
  ∀ r, r ∈ (pick byRef seen refs).2 ↔ r ∈ seen ∨ (r ∈ refs ∧ is_Some (byRef !! r)).
Proof.
  revert seen. induction refs as [|r refs IH]; intros seen Hnd Hs; simpl; [set_solver|].
  apply NoDup_cons in Hnd as [Hr Hnd]. destruct (byRef !! r) as [p|] eqn:Hp.
  - rewrite bool_decide_eq_false_2 by (apply Hs; set_solver).
    destruct (IH ({[r]} ∪ seen)) as [H1 H2]; [done|set_solver|].
    destruct (pick byRef _ refs) as [out seen'] eqn:E; simpl in *. split; [by rewrite H1|].
    intros r'. rewrite H2, elem_of_cons, elem_of_union, elem_of_singleton.
    split; [|naive_solver]. intros [[->|?]|?]; [|naive_solver..]. right. rewrite Hp. eauto.
  - destruct (IH seen) as [H1 H2]; [done|set_solver|]. split; [done|].
    intros r'. rewrite H2, elem_of_cons. split; [naive_solver|].
    intros [?|[[->|?] Hi]]; [naive_solver| |naive_solver]. rewrite Hp in Hi. by destruct Hi.
Qed.

Lemma omap_split {A B} (f : A → option B) l a p b :
  omap f l = a ++ p :: b → ∃ l1 x l2, l = l1 ++ x :: l2 ∧ omap f l1 = a ∧ f x = Some p.
Proof.
  revert a. induction l as [|y l IH]; intros a; simpl; [by destruct a|].
  destruct (f y) as [z|] eqn:Hy.
  - destruct a as [|a0 a]; simpl; intros [= <- E].
    + by exists [], y, l.
    + destruct (IH a E) as (l1 & x & l2 & -> & <- & ?). exists (y :: l1), x, l2. simpl. by rewrite Hy.
  - intros E. destruct (IH a E) as (l1 & x & l2 & -> & <- & ?). exists (y :: l1), x, l2. simpl. by rewrite Hy.
Qed.

Lemma layered_before g D ls l1 n l2 p :
  layered g D ls → concat ls = l1 ++ n :: l2 → p ∈ preds g n → p ∉ D → p ∈ l1.
Proof.
  intros Hls. revert l1. induction Hls as [D Hs|D l ls Hl Hnd _ _ IH]; intros l1 E Hp HpD; simpl in E.
  { by destruct l1. }
  apply app_eq_app in E as [l' [[-> E]|[-> E]]].
  - destruct l' as [|m l']; simplify_eq/=.
    + destruct (decide (p ∈ l1)); [done|]. rewrite app_nil_r in Hl.
      assert (p ∈ ([] : list string)); [|set_solver]. apply IH; [done|done|].
      rewrite app_nil_r. set_solver.
    + exfalso. assert (preds g m ⊆ D) as Hm by (apply Hl; set_solver). set_solver.
  - destruct (decide (p ∈ l)); [set_solver|]. apply elem_of_app; right. apply IH; [done|done|set_solver].
Qed.

Definition pairs_of (ncs : list NamedConfig) (cfgs : list Config.t) : list cfgPair :=
  zip_with (λ nc cfg, {| cp_nc := nc; cp_cfg := cfg |}) ncs cfgs.

Definition batch_deps (ps : list cfgPair) : list Dependency := mjoin (pair_deps <$> ps).

Lemma batch_deps_edge ps a b :
  deps_edge (batch_deps ps) a b ↔ ∃ p, p ∈ ps ∧ pair_ref p = b ∧ a ∈ Config.sp_DependsOn (Config.spec (cp_cfg p)).
Proof.
  unfold deps_edge, batch_deps. split.
  - intros (d & Hd & <- & <-). apply list_elem_of_join in Hd as (l & Hd & (p & -> & Hp)%list_elem_of_fmap).
    apply list_elem_of_fmap in Hd as (a & -> & Ha). eauto.
  - intros (p & Hp & <- & Ha). exists {| dep_From := a; dep_To := pair_ref p |}. split; [|done].
    apply list_elem_of_join. exists (pair_deps p). split; [|by apply list_elem_of_fmap_2].
    unfold pair_deps. apply list_elem_of_fmap. eauto.
Qed.

(** Either the batch keeps its order, for want of dependencies or for a cycle
    among them, or it follows the layers of the graph. *)
Lemma order_cases ncs cfgs :
  let pairs := pairs_of ncs cfgs in
  let g := New (pair_ref <$> pairs) (batch_deps pairs) in
  NoDup (pair_ref <$> pairs) →
  (orderByDependsOn ncs cfgs = pairs ∧ (batch_deps pairs = [] ∨ HasCycle g = true)) ∨
  ∃ ls (m : gmap string cfgPair), layered g ∅ ls ∧ orderByDependsOn ncs cfgs = omap (λ r, m !! r) (concat ls) ∧
    ∀ r p, m !! r = Some p ↔ p ∈ pairs ∧ pair_ref p = r.
Proof.
  intros pairs g Hnd. unfold orderByDependsOn. fold (pairs_of ncs cfgs). fold pairs.
  fold (batch_deps pairs). fold g. destruct (Nat.eqb_spec (length (batch_deps pairs)) 0) as [E|E].
  { left. split; [done|]. left. by apply nil_length_inv. }
  destruct (New_spec (pair_ref <$> pairs) (batch_deps pairs)) as (Hwf & Hn & _). fold g in Hwf, Hn.
  pose proof (Layers_spec g Hwf) as HL. destruct (Layers g) as [ls|er] eqn:EL.
  2:{ left. split; [done|]. right. unfold HasCycle. by rewrite EL. }
  right. set (m := foldl _ ∅ pairs).
  assert (∀ r p, m !! r = Some p ↔ p ∈ pairs ∧ pair_ref p = r) as Hm.
  { intros r p. unfold m. rewrite byRef_spec by done. rewrite lookup_empty. naive_solver. }
  exists ls, m. destruct (layered_nodes _ _ _ HL) as [Hcd Hc].
  assert (mjoin ls = concat ls) as -> by (clear; induction ls; simpl; congruence).
  destruct (pick_spec m ∅ (concat ls) Hcd) as [H1 H2]; [set_solver|].
  destruct (pick m ∅ (concat ls)) as [out seen]; simpl in *. split_and!; [done| |done].
  rewrite H1. assert (filter (λ p, pair_ref p ∉ seen) pairs = []) as ->; [|apply app_nil_r].
  apply elem_of_nil_inv. intros p [Hns Hp]%list_elem_of_filter. apply Hns, H2. right. split.
  - apply Hc. split; [|set_solver]. apply Hn. left. by apply list_elem_of_fmap_2.
  - exists p. by apply Hm.
Qed.

Lemma NoDup_omap_inj {A B} (f : A → option B) (l : list A) :
  (∀ x y z, f x = Some z → f y = Some z → x = y) → NoDup l → NoDup (omap f l).
Proof.
  intros Hf. induction 1 as [|x l Hx _ IH]; simpl; [constructor|].
  destruct (f x) as [z|] eqn:E; [|done]. constructor; [|done].
  intros (y & Hy & Ey)%list_elem_of_omap. apply Hx. by rewrite (Hf x y z).
Qed.

Lemma pairs_refs ncs : pair_ref <$> pairs_of ncs (nc_Config <$> ncs) = (λ nc, ref_of (nc_Config nc)) <$> ncs.
Proof. induction ncs as [|nc ncs IH]; [done|]. cbn. f_equal. exact IH. Qed.

Lemma dedup_pairs_NoDup configs :
  NoDup (pair_ref <$> pairs_of (dedup ∅ configs) (nc_Config <$> dedup ∅ configs)).
Proof. rewrite pairs_refs. apply dedup_spec. Qed.

Lemma order_permutes ncs cfgs :
  NoDup (pair_ref <$> pairs_of ncs cfgs) → orderByDependsOn ncs cfgs ≡ₚ pairs_of ncs cfgs.
Proof.
  intros Hnd. destruct (order_cases ncs cfgs Hnd) as [[-> _]|(ls & m & HL & -> & Hm)]; [done|].
  destruct (New_spec (pair_ref <$> pairs_of ncs cfgs) (batch_deps (pairs_of ncs cfgs))) as (_ & Hn & _).
  destruct (layered_nodes _ _ _ HL) as [Hcd Hc]. apply NoDup_Permutation.
  - apply NoDup_omap_inj; [|done]. intros x y p [_ <-]%Hm [_ <-]%Hm. done.
  - by eapply NoDup_fmap_1.
  - intros p. rewrite list_elem_of_omap. split; [by intros (r & _ & [? _]%Hm)|].
    intros Hp. exists (pair_ref p). split; [|by apply Hm]. apply Hc. split; [|set_solver].
    apply Hn. left. by apply list_elem_of_fmap_2.
Qed.

Lemma order_before ncs cfgs before p after q :
  NoDup (pair_ref <$> pairs_of ncs cfgs) →
  (∀ n, ¬ tc (deps_edge (batch_deps (pairs_of ncs cfgs))) n n) →
  orderByDependsOn ncs cfgs = before ++ p :: after →
  q ∈ pairs_of ncs cfgs → pair_ref q ∈ Config.sp_DependsOn (Config.spec (cp_cfg p)) → q ∈ before.
Proof.
  intros Hnd Hac Ho Hq Hd.
  assert (p ∈ pairs_of ncs cfgs) as Hp
    by (rewrite <- (order_permutes ncs cfgs Hnd), Ho; set_solver).
  assert (deps_edge (batch_deps (pairs_of ncs cfgs)) (pair_ref q) (pair_ref p)) as He
    by (apply batch_deps_edge; eauto).
  destruct (New_spec (pair_ref <$> pairs_of ncs cfgs) (batch_deps (pairs_of ncs cfgs))) as (Hwf & _ & Hed).
  destruct (order_cases ncs cfgs Hnd) as [[_ [Hn|Hc]]|(ls & m & HL & Ho' & Hm)].
  - destruct He as (d & Hd' & _). rewrite Hn in Hd'. set_solver.
  - apply HasCycle_spec in Hc as [n Hn%deps_edge_tc]; [|done]. by destruct (Hac n).
  - rewrite Ho in Ho'. destruct (omap_split _ _ _ _ _ (eq_sym Ho')) as (l1 & x & l2 & El & <- & Hx).
    apply list_elem_of_omap. exists (pair_ref q). split; [|by apply Hm].
    apply Hm in Hx as [_ <-]. eapply layered_before; [exact HL|exact El| |set_solver].
    by apply (wf_sym _ Hwf), Hed.
Qed.

(** ** Touching nothing *)
Section Ticking.
Context {S : Type} `{!Store S, !StoreLaws S}.
Notation HW := (EngineDeploy.HW (S := S)).
Context `{!Statechart Phase LifeContext unit, !Statechart StepState StepContext HW}.
Context (env : Env).
Implicit Types (w : World S).

Lemma quiet_objection l e c root : keeps (quiet (S := S) l) (objection env e c root).
Proof. unfold objection. frame. Qed.

Lemma preflight_passes e cs w0 :
  triple (quiet Probe w0) (Preflight env e cs) (λ errs w, quiet Probe w0 w ∧
    (errs = [] → Forall (λ '(c, root), ∃ w1, quiet Probe w0 w1 ∧ (objection env e c root w1).1 = None) cs)).
Proof.
  induction cs as [|[c root] cs IH]; cbn [Preflight]; [apply t_ret; intros w Hw; split; [done|constructor]|].
  intros w Hw. unfold mbind, M_bind. pose proof (quiet_objection Probe e c root w) as Hq.
  destruct (objection env e c root w) as [found w1] eqn:Ho. specialize (IH w1 ltac:(by etransitivity)).
  destruct (Preflight env e cs w1) as [rest w2]. destruct IH as [Hw2 Hrest]. simpl in *. split; [done|].
  destruct found as [er|]; [done|]. intros Hr. constructor; [|by apply Hrest]. exists w. by rewrite Ho.
Qed.

(** A promoted rollout of the target is stored. *)
Definition promoted_row w (ref : string) : Prop :=
  ∃ id r, rollouts_of (w_store w) !! id = Some r ∧ r_TargetRef r = ref ∧ r_Phase r = PhasePromoted.

Lemma isPromoted_sound ref w0 :
  triple (quiet Probe w0) (isPromoted ref) (λ ok w, quiet Probe w0 w ∧ (ok = Ok true → promoted_row w0 ref)).
Proof.
  intros w Hw. unfold isPromoted, on_result, mbind, M_bind, List, store.
  pose proof (quiet_list Probe 0 w) as Hq. unfold store in Hq.
  pose proof (list_rollouts_spec (w_store w)) as [_ Hrs].
  destruct (ListRollouts 0 (w_store w)) as [[rs|er] s]; simpl in *; [|by split; [etransitivity|]].
  split; [by etransitivity|]. destruct (newest_of ref rs) as [r|] eqn:Hn; [|done].
  intros [= Hp]. apply bool_decide_eq_true in Hp. unfold newest_of in Hn.
  assert (r ∈ filter (λ r, r_TargetRef r = ref) rs) as [Href Hr]%list_elem_of_filter
    by (destruct (filter _ rs); simplify_eq/=; set_solver).
  rewrite Hrs in Hr. apply list_elem_of_fmap in Hr as ([id r'] & -> & Hr%elem_of_map_to_list).
  destruct Hw as (_ & Hv & _). exists id, r'. split_and!; [|done..].
  unfold same_view in Hv. naive_solver congruence.
Qed.

Lemma waiting_on_sound deps w0 :
  "" ∉ deps →
  triple (quiet Probe w0) (waiting_on deps) (λ wait w, quiet Probe w0 w ∧ (wait = Ok "" → Forall (promoted_row w0) deps)).
Proof.
  induction deps as [|d deps IH]; intros Hne; cbn [waiting_on]; [by apply t_ret; intros w Hw|].
  eapply t_bind; [apply isPromoted_sound|]. intros [ok|er]; [|by apply t_ret; intros w [Hw _]].
  destruct ok; simpl.
  - intros w [Hw Hd]. destruct (IH ltac:(set_solver) w Hw) as [Hw' Hds]. split; [done|].
    intros Hwait. constructor; auto.
  - apply t_ret. intros w [Hw _]. split; [done|]. intros [= ->]. set_solver.
Qed.

Lemma quiet_inFlight l ref : keeps (quiet (S := S) l) (inFlight ref).
Proof. unfold inFlight. frame. Qed.

Lemma tick_config_waits wt r changed dir p w0 :
  "" ∉ Config.sp_DependsOn (Config.spec (cp_cfg p)) →
  triple (quiet Probe w0) (tick_config env wt r changed dir p) (λ _ w', quiet Probe w0 w' ∨
    Forall (promoted_row w0) (Config.sp_DependsOn (Config.spec (cp_cfg p)))).
Proof.
  intros Hne. unfold tick_config. cbv zeta. eapply t_bind; [by apply waiting_on_sound|].
  intros [wait|er]; [|by apply t_ret; intros w1 [Hw _]; left].
  destruct (decide (wait = "")) as [->|Hw].
  - rewrite bool_decide_eq_true_2 by done. simpl. intros w1 [Hw1 Hd]. right. auto.
  - rewrite bool_decide_eq_false_2 by done. simpl. apply t_ret. intros w1 [Hw1 _]. by left.
Qed.

Lemma tick_batch_unanimous wt r changed dir ordered w0 :
  wt_preflight wt = true →
  triple (quiet Probe w0) (tick_batch env wt r changed dir ordered) (λ out w',
    (quiet Probe w0 w' ∧ ∃ er, out.1 = [failed_outcome (rs_Name r) changed er]) ∨
    Forall (λ '(c, root), ∃ w1, quiet Probe w0 w1 ∧ (objection env (rc_eng (wt_rec wt)) c root w1).1 = None)
      (rootedConfigs dir ordered)).
Proof.
  intros Hp. unfold tick_batch. cbv zeta.
  set (wt1 := if changed then _ else wt). assert (wt_preflight wt1 = true ∧ wt_rec wt1 = wt_rec wt) as [-> Hrec]
    by (unfold wt1; by destruct changed).
  apply t_within; [by frame|]. intros t. case_match; [apply t_ret; intros w1 Hw1; left; simpl; eauto|].
  eapply t_bind; [apply preflight_passes|]. intros errs. rewrite Hrec.
  destruct errs as [|er errs]; simpl.
  - intros w1 [_ Hall]. right. auto.
  - apply t_ret. intros w1 [Hw1 _]. left. simpl. eauto.
Qed.
End Ticking.

(** ** Properties *)

(** The batch is ordered by its dependencies and loses nothing.  Of the
    configs a repository declares, one per target ref is kept; whatever depends
    on whatever, each of these is reconciled exactly once; and unless the
    dependencies form a cycle, a config comes after every config of the batch it
    depends on. *)
Theorem order_respects_dependencies configs :
  let declared := dedup ∅ configs in
  let pairs := pairs_of declared (nc_Config <$> declared) in
  let ordered := orderByDependsOn declared (nc_Config <$> declared) in
  (∀ ref, ref ∈ pair_ref <$> ordered ↔ ref ∈ (λ nc, ref_of (nc_Config nc)) <$> configs) ∧
  NoDup (pair_ref <$> ordered) ∧ ordered ≡ₚ pairs ∧
  ((∀ n, ¬ tc (deps_edge (batch_deps pairs)) n n) →
   ∀ before p after q, ordered = before ++ p :: after → q ∈ pairs →
     pair_ref q ∈ Config.sp_DependsOn (Config.spec (cp_cfg p)) → q ∈ before).
Proof.
  intros declared pairs ordered. pose proof (dedup_pairs_NoDup configs) as Hnd.
  pose proof (order_permutes _ _ Hnd) as Hp. destruct (dedup_spec ∅ configs) as (_ & Hr & _).
  split_and!; [| |exact Hp|].
  - intros ref. unfold ordered, declared. rewrite Hp, pairs_refs, Hr. set_solver.
  - unfold ordered, declared. by rewrite Hp.
  - intros Hac before p after q. by apply order_before.
Qed.

(** C21. A batch applies all of itself or nothing.  With preflight on, a tick of a
    repository's batch either looked only - nothing deployed, no command run,
    nothing stored - and reports one failure for the whole batch, or every
    config of the batch rendered, built its target and had no objection when
    asked, before anything was touched. *)
Theorem batch_applies_only_when_unanimous {S} `{!Store S, !StoreLaws S}
    `{!Statechart Phase LifeContext unit, !Statechart StepState StepContext (World S * option err)}
    env wt r changed dir ordered (w : World S) :
  wt_preflight wt = true →
  let '((outs, _), w') := tick_batch env wt r changed dir ordered w in
  (quiet Probe w w' ∧ ∃ er, outs = [failed_outcome (rs_Name r) changed er]) ∨
  Forall (λ '(c, root), ∃ w1, quiet Probe w w1 ∧ (objection env (rc_eng (wt_rec wt)) c root w1).1 = None)
    (rootedConfigs dir ordered).
Proof.
  intros Hp. pose proof (tick_batch_unanimous env wt r changed dir ordered w Hp w ltac:(reflexivity)) as H.
  by destruct (tick_batch env wt r changed dir ordered w) as [[outs wt'] w'].
Qed.

(** A config waits for what it depends on.  The step of a tick for one config
    touches nothing unless every target the config depends on (by the schema a
    non-empty name) has a promoted rollout in the store. *)
Theorem dependents_wait {S} `{!Store S, !StoreLaws S}
    `{!Statechart Phase LifeContext unit, !Statechart StepState StepContext (World S * option err)}
    env wt r changed dir p (w : World S) :
  "" ∉ Config.sp_DependsOn (Config.spec (cp_cfg p)) →
  quiet Probe w (tick_config env wt r changed dir p w).2 ∨
  Forall (promoted_row w) (Config.sp_DependsOn (Config.spec (cp_cfg p))).
Proof. intros Hne. by apply tick_config_waits. Qed.

Section Witnesses.
Import Scenario.
#[local] Existing Instance life_chart.
#[local] Existing Instance step_chart.

(** A service that depends on others. *)
Definition dependent (ref : string) (deps : list string) : Config.t :=
  let c := service ref "v1" rolling true in
  let sp := Config.spec c in
  {| Config.APIVersion := Config.APIVersion c; Config.ConfigKind := Config.ConfigKind c; Config.Meta := Config.Meta c;
     Config.spec := {|
       Config.sp_Target := Config.sp_Target sp; Config.sp_Environments := []; Config.sp_Strategy := rolling;
       Config.sp_Risk := Config.sp_Risk sp; Config.sp_Rollback := Config.sp_Rollback sp; Config.sp_Analysis := None;
       Config.sp_FeatureFlags := None; Config.sp_TrafficRouting := None; Config.sp_ImagePolicy := None;
       Config.sp_Database := None; Config.sp_DependsOn := deps; Config.sp_Schedule := "";
       Config.sp_Verification := "" |} |}.

Definition declares (ref : string) (deps : list string) : NamedConfig :=
  {| nc_Path := ref +:+ ".yaml"; nc_Config := dependent ref deps |}.

(** A shop: the edge needs web and api, both need the database; "web" is declared
    a second time. *)
Definition shop : list NamedConfig :=
  [declares "edge" ["web"; "api"]; declares "web" ["db"]; declares "api" ["db"]; declares "web" []; declares "db" []].

Definition shop_batch : list cfgPair := orderByDependsOn (dedup ∅ shop) (nc_Config <$> dedup ∅ shop).

Lemma shop_order : pair_ref <$> shop_batch = ["db"; "api"; "web"; "edge"].
Proof. vm_compute. reflexivity. Qed.

Lemma order_respects_dependencies_witness :
  NoDup (pair_ref <$> shop_batch) ∧ ∀ ref, ref ∈ pair_ref <$> shop_batch ↔ ref ∈ (λ nc, ref_of (nc_Config nc)) <$> shop.
Proof. destruct (order_respects_dependencies shop) as (H1 & H2 & _). split; [exact H2|exact H1]. Defined.

Definition shop_repo : RepoSpec := {| rs_Name := "shop"; rs_URL := "git@github.com:acme/shop.git"; rs_Branch := "main"; rs_Initiator := ann |}.

Definition watcher : Watcher := {|
  wt_rec := {| rc_eng := engine; rc_audit := true |}; wt_baseDir := "/repos"; wt_preflight := true; wt_logf := true;
  wt_lease := None; wt_imageAuto := None; wt_held := ∅; wt_sources := ∅; wt_awaiting := ∅; wt_orphans := newReaper 3; wt_lastSeen := ∅; wt_drifting := newDriftStreak 3;
  wt_failures := newFailStreak stuckAfterCycles |}.

Definition shop_tick : list RepoOutcome * Watcher * World Sqlite.Db :=
  tick_batch sunny watcher shop_repo true "/repo" shop_batch (start Sqlite.empty).

(** In one tick the whole shop is rolled out, the database first. *)
Lemma shop_ticks :
  ro_Err <$> shop_tick.1.1 = [None; None; None; None] ∧
  omap (λ ef, match ef with EApply t _ => Some (Config.tg_Ref t) | _ => None end) (rev (w_trace shop_tick.2)) =
    ["db"; "api"; "web"; "edge"].
Proof. vm_compute. done. Qed.

Lemma batch_applies_only_when_unanimous_witness :
  Forall (λ '(c, root), ∃ w1, quiet Probe (start Sqlite.empty) w1 ∧
    (objection sunny (rc_eng (wt_rec watcher)) c root w1).1 = None) (rootedConfigs "/repo" shop_batch).
Proof.
  pose proof (batch_applies_only_when_unanimous sunny watcher shop_repo true "/repo" shop_batch (start Sqlite.empty)) as H.
  specialize (H eq_refl). fold shop_tick in H. destruct shop_ticks as [Ht _]. destruct shop_tick as [[outs wt'] w'].
  destruct H as [[_ [er Ho]]|H]; [|exact H]. simpl in Ht. rewrite Ho in Ht. discriminate.
Defined.

Definition edge_pair : cfgPair := {| cp_nc := declares "edge" ["web"]; cp_cfg := dependent "edge" ["web"] |}.

(** The edge alone waits: nobody deployed web. *)
Lemma dependents_wait_witness :
  quiet Probe (start Sqlite.empty) (tick_config sunny watcher shop_repo true "/repo" edge_pair (start Sqlite.empty)).2.
Proof.
  destruct (dependents_wait sunny watcher shop_repo true "/repo" edge_pair (start Sqlite.empty)) as [H|H].
  - by_decision.
  - exact H.
  - exfalso. apply Forall_cons in H as [(id & r & Hr & _) _]. vm_compute in Hr. discriminate.
Defined.
End Witnesses.
