(* ===== verification/DaemonSafety.v ===== *)
(** * The daemon: everything at once

    [cmd/rollopsd] puts the surfaces, the watcher, GitHub's webhook and the
    schedule loop on one engine and one store.  Each event runs with the memory -
    the policy, the tokens, the sessions, the cluster registry, the watcher - it
    finds, so a history of the daemon is a list of events with theirs; what holds
    of every list holds of every interleaving of whole operations, reloads
    included. *)

From S2P Require Import Prelude Encoding GoTime Statekit Config Progressive Model Lifecycle Depgraph Risk Analysis Auth Store.
From S2P Require Import World Git ConfigLoad ImageSelect Transport ImageAuto EngineBase EngineGates EngineRollback EngineDeploy Reap Reconcile Watch.
From S2P Require Import Security Surface Api Grpc Mcp Ui Daemon Scenario LoadScenario Frame EngineLocks EngineMoves EngineSession SurfaceSafety.
From S2P Require Import WatchSafety.

(** ** What Git and the registries leave alone *)
Section Outside.
Context {S : Type} `{!Store S, !StoreLaws S} (env : Env).
Notation Q m := (keeps (quiet (S := S) All) m).

Lemma quiet_git dir args : Q (git env dir args).
Proof. unfold git. frame. Qed.
#[local] Hint Resolve quiet_git : frames.
Lemma quiet_git_ok dir args : Q (git_ok env dir args).
Proof. unfold git_ok. frame. Qed.
#[local] Hint Resolve quiet_git_ok : frames.
Lemma quiet_Clone url branch dir : Q (Clone env url branch dir).
Proof. unfold Clone. frame. Qed.
Lemma quiet_Head src : Q (Head env src).
Proof. unfold Head. frame. Qed.
#[local] Hint Resolve quiet_Head : frames.
Lemma quiet_Pull src : Q (Pull env src).
Proof. unfold Pull, VerifyHeadSignature. frame. Qed.
Lemma quiet_CommitFile src p c m : Q (CommitFile env src p c m).
Proof. unfold CommitFile. frame. Qed.
#[local] Hint Resolve quiet_CommitFile : frames.
Lemma quiet_CommitFileOnBranch src h p c m : Q (CommitFileOnBranch env src h p c m).
Proof. unfold CommitFileOnBranch. frame. Qed.
Lemma quiet_RemoteFileMatches src b p c : Q (RemoteFileMatches env src b p c).
Proof. unfold RemoteFileMatches. frame. Qed.
Lemma quiet_githubAPI src m p b : Q (githubAPI env src m p b).
Proof. unfold githubAPI. frame. Qed.
#[local] Hint Resolve quiet_githubAPI : frames.
Lemma quiet_createOrFindPR src o r h b t bd : Q (createOrFindPR env src o r h b t bd).
Proof. unfold createOrFindPR, findOpenPR. frame. Qed.
#[local] Hint Resolve quiet_createOrFindPR : frames.
Lemma quiet_OpenPullRequest src h b t bd : Q (OpenPullRequest env src h b t bd).
Proof. unfold OpenPullRequest, enableAutoMerge. frame. Qed.

Lemma quiet_challenged sc m e r h : Q (challenged env sc m e r h).
Proof. unfold challenged, doMethod, token, http. frame. Qed.
#[local] Hint Resolve quiet_challenged : frames.
Lemma quiet_tag_pages sc n e r h b all : Q (tag_pages env sc n e r h b all).
Proof. revert e all. induction n as [|n IH]; intros e all; cbn [tag_pages]; unfold scanner_get; frame. Qed.
#[local] Hint Resolve quiet_tag_pages : frames.
Lemma quiet_Tags sc image : Q (Tags (TagLister := scanner_lister env sc) image).
Proof. simpl. unfold scanner_Tags. frame. Qed.
Lemma quiet_Digest sc image : Q (Digest (TagLister := scanner_lister env sc) image).
Proof. simpl. unfold scanner_Digest. frame. Qed.
#[local] Hint Resolve quiet_Tags quiet_Digest : frames.
#[local] Hint Resolve quiet_CommitFileOnBranch quiet_RemoteFileMatches quiet_OpenPullRequest : frames.

Lemma quiet_digest_among sc repo pinned tags : Q (digest_among (TagLister0 := scanner_lister env sc) repo pinned tags).
Proof. induction tags as [|t tags IH]; cbn [digest_among]; frame. Qed.
#[local] Hint Resolve quiet_digest_among : frames.
Lemma quiet_resolve sc image pol : Q (resolve (TagLister0 := scanner_lister env sc) env image pol).
Proof. unfold resolve, selectSemver, migrate, semverForDigest, pinnedRef. frame. Qed.
#[local] Hint Resolve quiet_resolve : frames.
Lemma quiet_ensureProposal src nc h m f t seen : Q (ensureProposal env src nc h m f t seen).
Proof. unfold ensureProposal. frame. Qed.
#[local] Hint Resolve quiet_ensureProposal : frames.
Lemma quiet_Process sc src nc : Q (Process (TagLister0 := scanner_lister env sc) env src nc).
Proof. unfold Process, writeBump, proposeViaPR, pushBump, Push, PushBranch. frame. Qed.
End Outside.

(** ** The watcher approves nothing *)
Section Watching.
Context {S : Type} `{!Store S, !StoreLaws S}.
Notation HW := (EngineDeploy.HW (S := S)).
Context `{!Statechart Phase LifeContext unit, !StatechartLaws Phase LifeContext unit}.
Context `{!Statechart StepState StepContext HW, !StatechartLaws StepState StepContext HW}.
Context (env : Env) (ap : string → bool) (w0 : World S).
Notation ev := (evolves env ap true w0).
Notation Q m := (keeps (quiet (S := S) All) m).
#[local] Hint Resolve quiet_rc_record quiet_inFlight quiet_objection quiet_Clone quiet_Pull quiet_Process : frames.

Lemma quiet_report_orphans wt vs : Q (report_orphans env wt vs).
Proof.
  revert wt. induction vs as [|v vs IH]; intros wt; cbn [report_orphans]; [frame|].
  unfold reportOrphan, reapOrphan, logOrphanReap. frame.
Qed.
Lemma quiet_image_phase sc wt r src ncs : Q (image_phase env sc wt r src ncs).
Proof.
  revert wt. induction ncs as [|nc ncs IH]; intros wt; cbn [image_phase]; [frame|]. unfold image_one. frame.
Qed.
Lemma quiet_Preflight e cs : Q (Preflight env e cs).
Proof. induction cs as [|[c root] cs IH]; cbn [Preflight]; frame. Qed.
Lemma quiet_dangling e cs : Q (WarnDanglingMiddlewares env e cs).
Proof.
  unfold WarnDanglingMiddlewares. assert (Q (rendered_all env e cs)) as H; [|frame].
  induction cs as [|[c root] cs IH]; cbn [rendered_all]; [frame|]. unfold rendered. frame.
Qed.
Lemma quiet_waitingOn c : Q (waitingOn c).
Proof.
  unfold waitingOn. assert (∀ deps, Q (waiting_on deps)) as H; [|frame].
  induction deps as [|d deps IH]; cbn [waiting_on]; [frame|]. unfold isPromoted, List. frame.
Qed.
Lemma quiet_clone wt r : Q (clone env wt r).
Proof. unfold clone. frame. Qed.
#[local] Hint Resolve quiet_report_orphans quiet_image_phase quiet_Preflight quiet_dangling quiet_waitingOn quiet_clone : frames.

Lemma quiet_logOutcomes wt os : Q (logOutcomes env wt os).
Proof.
  unfold logOutcomes. assert (∀ wt, Q (log_outcomes env wt os)) as H; [|frame].
  induction os as [|o os IH]; intros wt'; cbn [log_outcomes]; [frame|].
  unfold log_outcome, reportPermanentFailure. frame.
Qed.

Lemma t_reconcile_config wt r changed dir p : triple ev (reconcile_config env wt r changed dir p) (λ _, ev).
Proof.
  unfold reconcile_config, reportPersistentDrift. eapply t_bind; [apply t_Reconcile|]. intros [o er]. m_steps.
Qed.

Lemma t_tick_configs wt r changed dir ps : triple ev (tick_configs env wt r changed dir ps) (λ _, ev).
Proof.
  revert wt. induction ps as [|p ps IH]; intros wt; cbn [tick_configs]; [m_steps|].
  eapply t_bind with (Q' := λ _, ev).
  - unfold tick_config. m_steps; apply t_reconcile_config.
  - intros [o wt1]. eapply t_bind; [apply IH|]. intros [os wt2]. m_steps.
Qed.

Lemma t_tick_pulled wt r src cloned : triple ev (tick_pulled env wt r src cloned) (λ _, ev).
Proof. unfold tick_pulled, tick_loaded, tick_batch, tick_warned. m_steps; apply t_tick_configs. Qed.

Lemma t_tickOne wt r : triple ev (tickOne env wt r) (λ _, ev).
Proof.
  unfold tickOne. case_bool_decide; [m_steps|]. eapply t_bind with (Q' := λ _, ev); [|intros []; m_steps].
  unfold tick_repo. m_steps; apply t_tick_pulled.
Qed.

Lemma t_TickHint wt hint repos : triple ev (TickHint env wt hint repos) (λ _, ev).
Proof.
  assert (∀ wt repos, triple ev (tick_repos env wt repos) (λ _, ev)) as Hrepos.
  { intros wt' rs. revert wt'. induction rs as [|r rs IH]; intros wt'; cbn [tick_repos]; [m_steps|].
    eapply t_bind; [apply t_tickOne|]. intros [out wt1]. eapply t_bind; [apply IH|]. intros [outs wt2]. m_steps. }
  unfold TickHint. m_steps; apply Hrepos.
Qed.
End Watching.

(** ** Messages *)
Section Serving.
Context {S : Type} `{!Store S, !StoreLaws S}.
Notation HW := (EngineDeploy.HW (S := S)).
Context `{!Statechart Phase LifeContext unit, !StatechartLaws Phase LifeContext unit}.
Context `{!Statechart StepState StepContext HW, !StatechartLaws StepState StepContext HW}.
Context `{!Host, !Crypto, !Yaml, !Bodies} {Sess : Type} `{!Sessions Sess} (env : Env) (e : Engine) (fs : FS).
Implicit Types (w : World S) (mem : Memory (Sess := Sess)).

(** A message is served as operations its caller may perform, or as a sync. *)
Lemma deliver_acts mem m w :
  acts_as env e (mm_policy mem) (caller mem m) (deliver env e fs mem m) w ∨
  ∃ id run, caller mem m = Some id ∧ granted (mm_policy mem) id PermApply any_scope ∧ sync_now env mem = Some run ∧
    (deliver env e fs mem m w).2 = (run w).2.
Proof.
  destruct m as [verified r|md req|h t|r]; simpl.
  - left. unfold requireClientCertIfConfigured.
    destruct (mm_clientCA mem), verified; simpl; try apply acts_as_fmap, Handler_acts.
    apply acts_as_quiet, keeps_ret, _.
  - left. apply acts_as_fmap, grpc_acts.
  - left. apply acts_as_fmap, mcp_acts.
  - destruct (uiAuth _ _ _ _) as [[status|[id cookie]] s]; simpl; [left; apply acts_as_quiet, keeps_ret, _|].
    destruct (acts_console env e (mm_policy mem) (sync_now env mem) (Some id) (cr_Request r) w)
      as [Ha|(id' & run & [= <-] & ? & ? & Hr)]; [left; by apply acts_as_fmap|].
    right. exists id, run. split_and!; [done..|]. rewrite <- Hr. by apply bind_ret_world.
Qed.

Lemma sync_evolves mem run ap w : sync_now env mem = Some run → evolves env ap true w (run w).2.
Proof.
  intros [= <-]. destruct (mm_watcher mem) as [[wt repos]|]; [|reflexivity].
  rewrite bind_ret_world by done. by apply (t_TickHint env ap w).
Qed.

(** An event that can approve nothing but what [ap] allows. *)
Lemma happen_evolves ap mem ev w :
  (∀ m id ro, ev = Served m → caller mem m = Some id → granted_on (mm_policy mem) id PermApprove w ro → ap ro = true) →
  evolves env ap true w (happen env e fs mem ev w).2.
Proof.
  intros Hap. destruct ev as [m| |r|at_]; cbn [happen]; try rewrite bind_ret_world by done.
  - destruct (deliver_acts mem m w) as [(ops & w1 & Hi & -> & Hp)|(id & run & _ & _ & Hs & ->)]; [|by eapply sync_evolves].
    transitivity w1; [by eapply evolves_still, still_quiet|].
    apply evolves_session. intros op ro Hop Ha. destruct (Hp op Hop) as (id & Hc & Hper).
    destruct op; simpl in Ha; try done. split_bool. subst. destruct Hper as [_ Hg]. by eapply Hap.
  - destruct (mm_watcher mem) as [[wt repos]|]; [|reflexivity]. rewrite bind_ret_world by done.
    unfold tickAndRecord. apply evolves_triple. intros w0. eapply t_bind; [apply t_TickHint|]. intros [os wt1].
    pose proof (quiet_logOutcomes (S := S) env). unfold List. m_steps.
  - unfold WebhookHandler, tick_drop. apply evolves_triple. intros w0. m_steps.
    eapply t_bind with (Q' := λ _, evolves env ap true w0); [|intros []; m_steps].
    destruct (mm_watcher mem) as [[wt repos]|]; [|m_steps].
    eapply t_bind; [apply t_TickHint|]. intros [os wt1]. m_steps.
  - apply evolves_triple. intros w0. by apply t_FireDueSchedules.
Qed.
End Serving.

(** ** What agents may do by default *)
Section Agents.
Context `{!Host, !Crypto}.

(** An identity of the map: the comparison of digests invents none. *)
Lemma token_Identify_in (t : gmap string Identity) tok id : token_Identify t tok = Some id → ∃ k, t !! k = Some id.
Proof.
  unfold token_Identify. case_bool_decide; [done|].
  assert (∀ l acc, (∀ id, acc = Some id → ∃ k, t !! k = Some id) → (∀ kv, kv ∈ l → t !! kv.1 = Some kv.2) →
    foldl (λ found '(known, id), if sha256 tok == sha256 known then Some id else found) acc l = Some id →
    ∃ k, t !! k = Some id) as Hl.
  { induction l as [|[k v] l IH]; intros acc Ha Hin; simpl; [apply Ha|]. apply IH.
    - case_bool_decide; [|done]. intros ? [= <-]. exists k. apply (Hin (k, v)). by left.
    - intros kv Hkv. apply Hin. by right. }
  apply Hl; [done|]. intros [k v] Hkv. by apply elem_of_map_to_list in Hkv.
Qed.

Lemma mcp_tokens_are_agents (t : gmap string Identity) : loadMCPTokens = Ok t → ∀ k id, t !! k = Some id → k ≠ "" ∧ ∃ name, name ≠ "" ∧ id = agent_of name.
Proof.
  assert (∀ raw src, parseMCPTokens raw src = Ok t → ∀ k id, t !! k = Some id → k ≠ "" ∧ ∃ name, name ≠ "" ∧ id = agent_of name) as Hp.
  { unfold parseMCPTokens. intros raw src. case_bool_decide; [by intros [= <-] k id Hk%lookup_empty_Some|].
    destruct (json_tokens raw) as [m|]; [|done]. intros [= <-] k id. rewrite map_lookup_imap, bind_Some.
    intros (name & _ & Hn). repeat case_bool_decide; simplify_eq/=. eauto. }
  unfold loadMCPTokens. case_bool_decide; simpl; [apply Hp|]. destruct (Daemon.files _); [apply Hp|done].
Qed.

(** The bootstrap policy lets an agent look and plan. *)
Lemma agents_look oidcOn name perm s :
  Authorize (bind_groups oidcOn DefaultRBACPolicy) (agent_of name) perm s = None → perm = PermPlan ∨ perm = PermStatus.
Proof.
  intros Ha. assert (Can (bind_groups oidcOn DefaultRBACPolicy) (agent_of name) perm s = true) as Hc by (unfold Can; by rewrite Ha).
  apply Can_spec in Hc as (role & Hr & Hal).
  assert (po_roles (bind_groups oidcOn DefaultRBACPolicy) = po_roles DefaultRBACPolicy) as Hroles
    by (unfold bind_groups; by repeat case_match).
  assert (∀ key, (∀ g, key ≠ "group:" +:+ g) →
    bound_to (bind_groups oidcOn DefaultRBACPolicy) key = bound_to DefaultRBACPolicy key) as Hb.
  { intros key Hk. assert (∀ p g rs, bound_to (Bind p ("group:" +:+ g) rs) key = bound_to p key) as Hbind
      by (intros; unfold bound_to, Bind; simpl; by rewrite lookup_insert_ne).
    unfold bind_groups. repeat case_match; by rewrite ?Hbind. }
  unfold rolesFor in Hr. simpl in Hr. rewrite !Hb in Hr by done. rewrite app_nil_r in Hr.
  assert (role = RoleAgent) as ->.
  { apply elem_of_app in Hr. destruct Hr as [Hr|Hr].
    - destruct (decide (name = "*")) as [->|Hn]; [by vm_compute in Hr; set_solver|].
      unfold bound_to, DefaultRBACPolicy in Hr. simpl in Hr. rewrite !lookup_insert_ne in Hr by (intros Heq; first [discriminate Heq | apply Hn; by injection Heq]).
      by apply elem_of_nil in Hr.
    - vm_compute in Hr. set_solver. }
  unfold role_allows in Hal. rewrite Hroles in Hal. destruct perm; vm_compute in Hal; try discriminate Hal; auto.
Qed.
End Agents.

(** ** Properties *)
Section Properties.
Context {S : Type} `{!Store S, !StoreLaws S}.
Context `{!Statechart Phase LifeContext unit, !StatechartLaws Phase LifeContext unit}.
Context `{!Statechart StepState StepContext (World S * option err),
          !StatechartLaws StepState StepContext (World S * option err)}.
Context `{!Host, !Crypto, !Yaml, !Bodies} {Sess : Type} `{!Sessions Sess} (env : Env) (e : Engine) (fs : FS).
Implicit Types (w : World S) (mem : Memory (Sess := Sess)) (es : list (Memory (Sess := Sess) * Event)).

Lemma history_ticks es w : (w_tick w ≤ w_tick (history_runs env e fs es w).2)%nat.
Proof.
  revert w. induction es as [|[mem ev] es IH]; intros w; simpl; [lia|].
  pose proof (happen_evolves env e fs (λ _, true) mem ev w) as [Ht _]; [done|].
  unfold mbind, M_bind. destruct (happen env e fs mem ev w) as [[] w1]. etransitivity; [exact Ht|apply IH].
Qed.

Definition gated_phase (p : Phase) : Prop := p = PhaseAwaitingApproval ∨ p = PhaseRolledBack.

Lemma history_keeps_gate es w ro r :
  rollouts_of (w_store w) !! ro = Some r → gated_phase (r_Phase r) →
  (∀ mem m id, (mem, Served m) ∈ es → caller mem m = Some id →
     Authorize (mm_policy mem) id PermApprove (target_scope (r_TargetRef r)) ≠ None) →
  (∀ n, (w_tick w ≤ n < w_tick (history_runs env e fs es w).2)%nat → ro ≠ id_at env n) →
  ∃ r', rollouts_of (w_store (history_runs env e fs es w).2) !! ro = Some r' ∧ gated_phase (r_Phase r').
Proof.
  revert w r. induction es as [|[mem ev] es IH]; intros w r Hr Hp Hno Hn; simpl in *; [by exists r|].
  pose proof (happen_evolves env e fs (λ i, bool_decide (i ≠ ro)) mem ev w) as (Htick & He & _).
  { intros m id i -> Hc (r0 & Hr0 & Hg). apply bool_decide_eq_true_2. intros ->. rewrite Hr in Hr0. injection Hr0 as <-.
    eapply Hno; [by left|done|done]. }
  unfold mbind, M_bind in *. destruct (happen env e fs mem ev w) as [[] w2]. simpl in *.
  pose proof (history_ticks es w2) as Hle.
  destruct (He ro r Hr) as [(n & Hlt & Hid)|(r2 & Hr2 & Hm & Ht & _)]; [destruct (Hn n); [lia|done]|].
  rewrite bool_decide_eq_false_2 in Hm by (by intros []).
  apply (IH w2 r2); [done| | |].
  - destruct Hp as [Hp|Hp]; rewrite Hp in Hm; [by apply moves_awaiting|right; by eapply moves_final].
  - intros mem' m id Hm' Hc. rewrite Ht. eapply Hno; [by right|done].
  - intros n Hlt. apply Hn. lia.
Qed.

(** C10. Serving a message refines the engine's sessions under RBAC, on every
    surface.  What an HTTP request, a gRPC call, an agent's tool call or a console
    request does to the world, beyond reading the store and probing targets, is a
    sequence of engine operations, and each is one the policy in force grants the
    caller the message authenticates as - with that caller as its initiator or
    approver, and for the target of the config or of the stored rollout it is
    about; or it is the console's sync, for a caller who may apply anywhere.  A
    message without a valid credential does nothing. *)
Theorem messages_are_authorized_operations mem m w :
  (∃ ops w1, quiet Probe w w1 ∧ (deliver env e fs mem m w).2 = (session env e ops w1).2 ∧
     ∀ op, op ∈ ops → ∃ id, caller mem m = Some id ∧ permits (mm_policy mem) id w op) ∨
  ∃ id run, caller mem m = Some id ∧ granted (mm_policy mem) id PermApply any_scope ∧ sync_now env mem = Some run ∧
    (deliver env e fs mem m w).2 = (run w).2.
Proof. apply deliver_acts. Qed.

(** C9. Nothing that happens to the daemon bypasses the approval gate.  Whatever
    messages arrive over whatever surfaces, whatever the watcher finds in Git,
    whatever GitHub's webhook and the schedule loop trigger, in whatever order and
    under policies and tokens reloaded between them, a rollout awaiting approval is
    still awaiting approval or rolled back, as long as no caller of the history
    may approve on its target. *)
Theorem daemon_cannot_bypass_approval es w ro r :
  rollouts_of (w_store w) !! ro = Some r → r_Phase r = PhaseAwaitingApproval →
  (∀ mem m id, (mem, Served m) ∈ es → caller mem m = Some id →
     Authorize (mm_policy mem) id PermApprove (target_scope (r_TargetRef r)) ≠ None) →
  let w' := (history_runs env e fs es w).2 in
  (∀ n, (w_tick w ≤ n < w_tick w')%nat → ro ≠ id_at env n) →
  ∃ r', rollouts_of (w_store w') !! ro = Some r' ∧
        (r_Phase r' = PhaseAwaitingApproval ∨ r_Phase r' = PhaseRolledBack).
Proof. intros Hr Hp Hno w' Hn. eapply history_keeps_gate; [done|by left|done|done]. Qed.

Lemma quiet_plans ops w : (∀ op, op ∈ ops → ∃ c, op = OpPlan c) → quiet Probe w (session env e ops w).2.
Proof.
  revert w. induction ops as [|op ops IH]; intros w Hops; simpl; [reflexivity|].
  destruct (Hops op) as [c ->]; [by left|]. pose proof (keeps_discard (quiet Probe) _ (quiet_Plan (S := S) env Probe e c) w) as Hq.
  unfold mbind, M_bind. simpl. destruct (discard (Plan env e c) w) as [[] w1].
  etransitivity; [exact Hq|]. apply IH. intros op Hop. apply Hops. by right.
Qed.

(** By default agents only look.  When the daemon was booted without a policy
    file, a tool call - any tool, any arguments, any token - leaves the stored
    rollouts, the schedules, the freeze and the locks as they are and does nothing
    outside but probe targets; no tool can be talked into deploying. *)
Theorem agents_only_look_by_default oidcOn mem authorization t w :
  getenv "ROLLOPS_POLICY_FILE" = "" → boot oidcOn = Ok (mm_policy mem, mm_mcp mem) →
  quiet Probe w (deliver env e fs mem (ToolCall authorization t) w).2.
Proof.
  unfold boot, buildPolicy. intros -> Hboot. simpl in Hboot. injection Hboot as Hp Ht.
  assert (∀ k id, (mm_mcp mem : gmap string Identity) !! k = Some id → ∃ name, id = agent_of name) as Hagents.
  { intros k id Hk. rewrite <- Ht in Hk. destruct loadMCPTokens as [tokens|] eqn:Hl.
    - destruct (mcp_tokens_are_agents tokens Hl k id Hk) as (_ & name & _ & ->). by exists name.
    - by apply lookup_empty_Some in Hk. }
  destruct (mcp_acts env e fs getenv (swappable_Identify (Some (mm_mcp mem))) (mm_policy mem) (mm_registry mem) authorization t w)
    as (ops & w1 & Hq & Hs & Hops).
  cbn [deliver]. unfold fmap, M_fmap. rewrite bind_ret_world, Hs by done. etransitivity; [exact Hq|]. apply quiet_plans.
  intros op Hop. destruct (Hops op Hop) as (id & Hid & Hper). unfold known in Hid. case_bool_decide; [done|].
  apply token_Identify_in in Hid as (k & Hk). destruct (Hagents k id Hk) as [name ->]. rewrite <- Hp in Hper.
  destruct op; simpl in Hper; try done; unfold granted_on, granted in Hper; [by eexists|..];
    exfalso; destruct_and?; repeat match goal with H : ∃ _, _ |- _ => destruct H end; destruct_and?;
    match goal with H : Authorize _ _ _ _ = None |- _ => apply agents_look in H; naive_solver end.
Qed.
End Properties.

(** ** The console's door *)

(** What the session service promises: it vouches only for tokens it issued. *)
Class SessionLaws (Sess : Type) `{!Sessions Sess} := {
  issued : Sess → gset string;
  validate_issued : ∀ t tok s, (session_Validate t tok s).1 = true → tok ∈ issued s;
  validate_keeps : ∀ t tok s, issued (session_Validate t tok s).2 ⊆ issued s;
  issue_adds : ∀ t s,
    match session_Issue t s with
    | (Ok tok, s') => issued s' ⊆ {[tok]} ∪ issued s
    | (Err _, s') => issued s' ⊆ issued s
    end;
}.

Section Door.
Context `{!Host, !Crypto} {Sess : Type} `{!Sessions Sess, !SessionLaws Sess}.

(** One request at the door: it is let in with the password, or with the token of
    a session that is open, and a session is opened for the password only, which
    hands its token to this request. *)
Lemma basicAuth_enters t r (s : Sess) :
  let '(out, s') := basicAuth t r s in
  (∀ id c, out = inr (id, c) → id = uiIdentity ∧ ui_pass ≠ "" ∧
     (password_ok r = true ∨ ∃ tok, cr_Cookie r = Some tok ∧ tok ∈ issued s)) ∧
  (∀ tok, tok ∈ issued s' → tok ∈ issued s ∨ out = inr (uiIdentity, Some tok) ∨ ∃ status, out = inl status ∧ tok ∈ issued s) ∧
  (∀ id tok, out = inr (id, Some tok) → password_ok r = true).
Proof.
  unfold basicAuth. case_bool_decide as Hpass; [naive_solver|]. unfold cookie_ok.
  assert (∀ b (s1 : Sess), (b = true → ∃ tok, cr_Cookie r = Some tok ∧ tok ∈ issued s) → issued s1 ⊆ issued s →
    let '(out, s') := (if b then (inr (uiIdentity, None), s1)
                       else if negb (password_ok r) then (inl 401, s1)
                       else match session_Issue t s1 with
                            | (Err _, s2) => (inl 500, s2)
                            | (Ok tok, s2) => (inr (uiIdentity, Some tok), s2)
                            end) in
    (∀ id c, out = inr (id, c) → id = uiIdentity ∧ ui_pass ≠ "" ∧
       (password_ok r = true ∨ ∃ tok, cr_Cookie r = Some tok ∧ tok ∈ issued s)) ∧
    (∀ tok, tok ∈ issued s' → tok ∈ issued s ∨ out = inr (uiIdentity, Some tok) ∨ ∃ status, out = inl status ∧ tok ∈ issued s) ∧
    (∀ id tok, out = inr (id, Some tok) → password_ok r = true)) as Hrest.
  { intros b s1 Hb Hsub. destruct b; [naive_solver|]. destruct (password_ok r) eqn:Hpw; simpl; [|naive_solver].
    pose proof (issue_adds t s1) as Hi. destruct (session_Issue t s1) as [[tok|er] s2]; [|naive_solver].
    split_and!; [naive_solver| |naive_solver]. intros tok' [->%elem_of_singleton|Ht]%Hi%elem_of_union; naive_solver. }
  destruct (cr_Cookie r) as [tok|]; [|by apply (Hrest false s)].
  pose proof (validate_issued t tok s) as Hv. pose proof (validate_keeps t tok s) as Hk.
  destruct (session_Validate t tok s) as [b s1]. apply (Hrest b s1); [naive_solver|done].
Qed.

Definition let_in_by_oidc (oidc : option OIDCConfig) (t : Time) (r : ConsoleRequest) (id : Identity) : Prop :=
  ∃ cfg, oidc = Some cfg ∧ oidc_Identify cfg t (bearer (hr_Authorization (cr_Request r))) = Some id.

Lemma uiAuth_enters oidc t r (s : Sess) :
  let '(out, s') := uiAuth oidc t r s in
  (∀ id c, out = inr (id, c) → let_in_by_oidc oidc t r id ∨
     (id = uiIdentity ∧ ui_pass ≠ "" ∧ (password_ok r = true ∨ ∃ tok, cr_Cookie r = Some tok ∧ tok ∈ issued s))) ∧
  (∀ tok, tok ∈ issued s' → tok ∈ issued s ∨ (out = inr (uiIdentity, Some tok) ∧ password_ok r = true)).
Proof.
  pose proof (basicAuth_enters t r s) as Hb. unfold uiAuth.
  destruct oidc as [cfg|]; [|destruct (basicAuth t r s); naive_solver].
  destruct (oidc_Identify cfg t _) as [id|] eqn:Hid; [|destruct (basicAuth t r s); naive_solver].
  case_bool_decide; simpl; [destruct (basicAuth t r s); naive_solver|]. split; [|naive_solver].
  intros id' c [= <- <-]. left. by exists cfg.
Qed.

(** Visits from a state whose open sessions are [Given]: the token a visit rides on
    is given, or was handed to an earlier visit with the password. *)
Lemma visits_need_credentials oidc rs : ∀ (s : Sess) i id c t r,
  console_visits oidc rs s !! i = Some (inr (id, c)) → rs !! i = Some (t, r) →
  let_in_by_oidc oidc t r id ∨
  (id = uiIdentity ∧ ui_pass ≠ "" ∧
   (password_ok r = true ∨ ∃ tok, cr_Cookie r = Some tok ∧
     (tok ∈ issued s ∨ ∃ j t' r', (j < i)%nat ∧ rs !! j = Some (t', r') ∧ password_ok r' = true ∧
        console_visits oidc rs s !! j = Some (inr (uiIdentity, Some tok))))).
Proof.
  induction rs as [|[t0 r0] rs IH]; intros s i id c t r; cbn [console_visits]; [done|].
  pose proof (uiAuth_enters oidc t0 r0 s) as Hu. destruct (uiAuth oidc t0 r0 s) as [out s1]. destruct Hu as [Hin Hs1].
  destruct i as [|i]; cbn [lookup list_lookup].
  - intros [= ->] [= <- <-]. destruct (Hin id c eq_refl) as [?|(-> & Hp & [?|(tok & ? & ?)])]; [by left|right..]; naive_solver.
  - intros Hv Hr. destruct (IH s1 i id c t r Hv Hr) as [?|(-> & Hp & [?|(tok & Hc & Hg)])]; [by left|right..]; [naive_solver|].
    split_and!; [done|done|]. right. exists tok. split; [done|]. destruct Hg as [Hg|(j & t' & r' & Hj & Hr' & Hpw & Ho)].
    + destruct (Hs1 tok Hg) as [?|[-> Hpw]]; [by left|]. right. exists 0%nat, t0, r0. split_and!; [lia|done..].
    + right. exists (Datatypes.S j), t', r'. split_and!; [lia|done..].
Qed.

(** C12. Nobody enters the console without a credential.  Through any sequence of
    console requests from the start of the daemon, a request is let in either as
    the identity its own signed OIDC token names, or as the configured operator;
    and then a password is configured, and the request presents exactly that user
    and password or carries the very token that was set as the cookie of an
    earlier request that did.  With neither OIDC nor a password the console is
    closed. *)
Theorem console_needs_credentials oidc rs (s : Sess) i id c t r :
  issued s = ∅ → console_visits oidc rs s !! i = Some (inr (id, c)) → rs !! i = Some (t, r) →
  (∃ cfg, oidc = Some cfg ∧ oidc_Identify cfg t (bearer (hr_Authorization (cr_Request r))) = Some id) ∨
  (id = uiIdentity ∧ ui_pass ≠ "" ∧
   (password_ok r = true ∨
    ∃ tok j t' r', cr_Cookie r = Some tok ∧ (j < i)%nat ∧ rs !! j = Some (t', r') ∧ password_ok r' = true ∧
      console_visits oidc rs s !! j = Some (inr (uiIdentity, Some tok)))).
Proof.
  intros Hs Hv Hr. destruct (visits_need_credentials oidc rs s i id c t r Hv Hr) as [?|(-> & Hp & [?|(tok & Hc & Hg)])]; [by left|right..].
  - naive_solver.
  - split_and!; [done|done|]. right. destruct Hg as [Hg|(j & t' & r' & ?)]; [set_solver|]. exists tok, j, t', r'. naive_solver.
Qed.
End Door.

(** ** A daemon to evaluate on *)
Section Witnesses.
Import Scenario.
#[local] Existing Instance life_chart.
#[local] Existing Instance life_laws.
#[local] Existing Instance step_chart.
#[local] Existing Instance step_laws.
#[local] Existing Instance Auth.Demo.crypto.

(** A body is the id, the target or the reason it names; all are forced. *)
#[local] Instance plain_bodies : Bodies := {
  json_id_force := λ s, Some (s, true);
  json_target_force := λ s, Some (s, true);
  json_active_reason := λ s, Some (true, s);
}.
#[local] Instance no_documents : Yaml := texts "" [].

(** No policy file, a console password, and one agent's token. *)
#[local] Instance host : Host := {
  Daemon.files := λ _, Err ErrNotFound;
  getenv := Transport.Demo.vars [("ROLLOPS_UI_PASSWORD", "pw"); ("ROLLOPS_MCP_TOKENS", "tokens")];
  yaml_policy := λ _, Ok None;
  json_tokens := λ _, Ok {[ "t-bot" := "bot" ]};
}.

(** Sessions are numbered; the state is the set of those issued. *)
#[local] Instance numbered : Sessions (gset string) := {
  session_Validate := λ _ tok s, (bool_decide (tok ∈ s), s);
  session_Issue := λ _ s, let tok := pretty (size s) in (Ok tok, {[ tok ]} ∪ s);
}.
#[local] Instance numbered_laws : SessionLaws (gset string).
Proof.
  refine {| issued := λ s : gset string, s |}.
  - intros t tok s H%bool_decide_eq_true. exact H.
  - done.
  - intros t s. simpl. done.
Defined.

Definition no_files : FS := LoadScenario.files false.

(** [ann] may deploy and promote, but not approve. *)
Definition deployers : Policy := Bind DefaultRBACPolicy "human:ann" [RoleAgentDeploy].
Definition ann_only (policy : Policy) (mcp : TokenAuth) : Memory (Sess := gset string) := {|
  mm_now := 0; mm_clientCA := false; mm_registry := []; mm_policy := policy; mm_admin := {[ "t-ann" := ann ]};
  mm_oidc := None; mm_mcp := mcp; mm_sessions := ∅; mm_watcher := None |}.
Definition anns : Memory (Sess := gset string) := ann_only deployers {[ "t-ann" := ann ]}.

Definition post (path authorization body : string) : Request :=
  {| hr_Method := "POST"; hr_Path := path; hr_Authorization := authorization; hr_Query := ∅; hr_Body := Ok body |}.
Definition happenings : list (Memory (Sess := gset string) * Event) :=
  [(anns, Served (Http false (post "/v1/approve" "Bearer t-ann" gated_id)));
   (anns, Served (Http false (post "/v1/promote" "Bearer t-ann" gated_id)));
   (anns, Served (Http false (post "/v1/approve" "Bearer guess" gated_id)));
   (anns, Served (Http false (post "/v1/apply" "Bearer t-ann" "api")));
   (anns, Served (GrpcCall ["t-ann"] (GApprove gated_id))); (anns, Served (GrpcCall ["Bearer t-ann"] (GResume gated_id)));
   (anns, Served (ToolCall "Bearer t-ann" (TPromote gated_id true))); (anns, Served (ToolCall "" (TApprove gated_id)));
   (anns, Served (Console {| cr_Request := post "/ui/api/approve" "" gated_id; cr_Cookie := Some "0" |}));
   (anns, Polled); (anns, Hooked {| hk_Method := "POST"; hk_Body := Ok "push"; hk_Signature := "sha256=00" |});
   (anns, Fired 100)].

Notation w' := (history_runs sunny engine no_files happenings gated).2.

(** How the HTTP surface answers. *)
Example statuses :
  (λ r, (Handler sunny engine no_files getenv (httpAuth anns) deployers [] r gated).1.1.1) <$>
    [post "/v1/approve" "Bearer t-ann" gated_id; post "/v1/promote" "Bearer t-ann" gated_id;
     post "/v1/approve" "Bearer guess" gated_id; post "/v1/freeze" "Bearer t-ann" ""; post "/v1/apply" "Bearer t-ann" "api"]
    = [403; 412; 401; 403; 202].
Proof. vm_compute. reflexivity. Qed.

(** Someone who may approve and nothing else. *)
Definition approvers : Policy := Bind (DefineRole DefaultRBACPolicy "approver" (grants_of [PermApprove])) "human:ann" ["approver"].

Lemma messages_witness :
  ∃ ops w1, quiet Probe gated w1 ∧
    (deliver sunny engine no_files (ann_only approvers ∅) (GrpcCall ["t-ann"] (GApprove gated_id)) gated).2 =
      (session sunny engine ops w1).2 ∧
    ∀ op, op ∈ ops → permits approvers ann gated op.
Proof.
  destruct (messages_are_authorized_operations sunny engine no_files (ann_only approvers ∅) (GrpcCall ["t-ann"] (GApprove gated_id)) gated)
    as [(ops & w1 & Hi & Hs & Hp)|(id & run & Hc & Hg & _ & _)].
  - exists ops, w1. split; [exact Hi|]. split; [exact Hs|]. intros op (id & Hc & Hper)%Hp.
    vm_compute in Hc. by injection Hc as <-.
  - vm_compute in Hc. injection Hc as <-. vm_compute in Hg. discriminate Hg.
Defined.

Lemma fresh_history n : (w_tick gated ≤ n < w_tick w')%nat → gated_id ≠ id_at sunny n.
Proof.
  assert (w_tick gated = 17 ∧ (w_tick w' <=? 90) = true)%nat as [-> Ht%Nat.leb_le] by (vm_compute; split; reflexivity).
  assert (forallb (λ n, negb (bool_decide (gated_id = id_at sunny n))) (seq 17 73) = true) as Hall
    by (vm_compute; reflexivity).
  intros Hn. rewrite forallb_forall in Hall. specialize (Hall n).
  rewrite in_seq, negb_true_iff, bool_decide_eq_false in Hall. apply Hall. lia.
Qed.

Lemma nobody_approves :
  forallb (λ '(mem, ev), match ev with
                         | Served m => match caller mem m with
                                       | Some id => match Authorize (mm_policy mem) id PermApprove (target_scope "web") with
                                                    | Some _ => true
                                                    | None => false
                                                    end
                                       | None => true
                                       end
                         | _ => true
                         end) happenings = true.
Proof. vm_compute. reflexivity. Qed.

Lemma daemon_witness :
  ∃ r', rollouts_of (w_store w') !! gated_id = Some r' ∧
        (r_Phase r' = PhaseAwaitingApproval ∨ r_Phase r' = PhaseRolledBack).
Proof.
  pose proof gated_row as Hw. destruct (rollouts_of (w_store gated) !! gated_id) as [r|] eqn:Hr; [|discriminate].
  apply (daemon_cannot_bypass_approval sunny engine no_files happenings gated gated_id r).
  - exact Hr.
  - by injection Hw.
  - intros mem m id Hm Hc. assert (r_TargetRef r = "web") as -> by (by injection Hw).
    pose proof nobody_approves as Hall. rewrite forallb_forall in Hall.
    apply list_elem_of_In in Hm. specialize (Hall _ Hm). simpl in Hall. rewrite Hc in Hall. by intros Ha; rewrite Ha in Hall.
  - exact fresh_history.
Defined.

(** The daemon as [boot] leaves it: the bootstrap policy and the agent's token. *)
Definition booted : Memory (Sess := gset string) :=
  ann_only (bind_groups false DefaultRBACPolicy) {[ "t-bot" := agent_of "bot" ]}.

Lemma agents_witness :
  caller booted (ToolCall "Bearer t-bot" (TApprove gated_id)) = Some (agent_of "bot") ∧
  quiet Probe gated (deliver sunny engine no_files booted (ToolCall "Bearer t-bot" (TApprove gated_id)) gated).2.
Proof.
  split; [vm_compute; reflexivity|].
  apply (agents_only_look_by_default sunny engine no_files false booted "Bearer t-bot" (TApprove gated_id) gated).
  - vm_compute. reflexivity.
  - vm_compute. reflexivity.
Defined.

(** With the password, then with the cookie it was given, then without. *)
Definition visits : list (Time * ConsoleRequest) :=
  [(0, {| cr_Request := post "/ui/" ("Basic " +:+ EncodeToString StdEncoding "admin:pw") ""; cr_Cookie := None |});
   (1, {| cr_Request := post "/ui/" "" ""; cr_Cookie := Some "0" |});
   (2, {| cr_Request := post "/ui/" "" ""; cr_Cookie := Some "7" |})].

Lemma console_witness :
  console_visits None visits ∅ = [inr (uiIdentity, Some "0"); inr (uiIdentity, None); inl 401] ∧
  ((∃ cfg, None = Some cfg ∧ oidc_Identify cfg 1 (bearer "") = Some uiIdentity) ∨
   (uiIdentity = uiIdentity ∧ ui_pass ≠ "" ∧
    (password_ok {| cr_Request := post "/ui/" "" ""; cr_Cookie := Some "0" |} = true ∨
     ∃ tok j t' r', Some "0" = Some tok ∧ (j < 1)%nat ∧ visits !! j = Some (t', r') ∧ password_ok r' = true ∧
       console_visits None visits ∅ !! j = Some (inr (uiIdentity, Some tok))))).
Proof.
  split; [vm_compute; reflexivity|].
  apply (console_needs_credentials None visits ∅ 1 uiIdentity None 1 {| cr_Request := post "/ui/" "" ""; cr_Cookie := Some "0" |});
    [reflexivity|vm_compute; reflexivity|reflexivity].
Defined.
End Witnesses.
