(* ===== verification/ImageSafety.v ===== *)
(** * Image automation: what it promises

    Theorems on the registry client and the automation: credentials go to
    trusted realms only, a digest pin survives every update, what is deployed was
    pushed to Git first, and a proposal leaves the tracked branch alone. *)

From S2P Require Import Prelude Encoding GoTime Statekit Config Progressive Model Lifecycle Risk Analysis Security Store.
From S2P Require Import World Git ConfigLoad ImageSelect ImageAuto EngineBase EngineGates EngineRollback EngineDeploy Scenario Frame EngineLocks EngineMoves.

(** ** Acting on the outside *)
Section Acts.
Context {S : Type}.
Implicit Types (w : World S).

(** Only the trace changed, by interactions that satisfy [P]. *)
Definition acts (P : Effect → Prop) w w' : Prop :=
  ∃ tr, w' = set_trace (tr ++ w_trace w) w ∧ Forall P tr.

#[global] Instance acts_preorder P : PreOrder (acts P).
Proof.
  split.
  - intros w. exists []. split; [by destruct w|constructor].
  - intros w1 w2 w3 (t1 & -> & F1) (t2 & -> & F2). exists (t2 ++ t1). split; [|by apply Forall_app].
    unfold set_trace. simpl. by rewrite app_assoc.
Qed.

Lemma acts_mono (P Q : Effect → Prop) w w' : (∀ ef, P ef → Q ef) → acts P w w' → acts Q w w'.
Proof. intros H (tr & -> & F). exists tr. split; [done|]. eapply Forall_impl; [exact F|apply H]. Qed.

Lemma acts_ask (P : Effect → Prop) {A} ef (f : list Effect → A) : P ef → keeps (acts P) (ask (S := S) ef f).
Proof. intros HP w. exists [ef]. split; [done|]. by constructor. Qed.
End Acts.

#[export] Hint Extern 2 (keeps (acts _) (ask _ _)) => apply acts_ask; solve [done | naive_solver] : frames.

(** ** Credentials *)
Section Credentials.
Context {S : Type} (env : Env) (sc : Scanner).

(** The hosts Docker Hub answers under. *)
Definition docker_hosts : list string := ["docker.io"; "registry-1.docker.io"; "index.docker.io"; "auth.docker.io"].

(** A URL that the parser reads as https at the registry itself, port included,
    or at a host of Docker's when the registry is one too. *)
Definition home_realm (registry realm : string) : Prop :=
  ∃ authority hostname, o_url env realm = Ok ("https", authority, hostname) ∧ authority ≠ "" ∧
    (authority = registry ∨ (hostname ∈ docker_hosts ∧ registry ∈ docker_hosts)).

Lemma trusted_is_home realm registry : realmTrusted env realm registry = true → home_realm registry realm.
Proof.
  unfold realmTrusted, isDockerHub, home_realm. destruct (o_url env realm) as [[[scheme authority] hostname]|er]; [|done].
  case_bool_decide as Hs; [|done]. case_bool_decide as Ha; [done|]. subst. simpl. intros Ht.
  exists authority, hostname. split; [done|]. split; [done|]. apply orb_true_iff in Ht as [Ht|Ht].
  - left. by apply bool_decide_eq_true in Ht.
  - apply andb_true_iff in Ht as [H1 H2]. right. split; by eapply bool_decide_eq_true.
Qed.

(** An HTTP request that carries the credential only to such a realm. *)
Definition guarded (host : string) (ef : Effect) : Prop :=
  match ef with
  | EHttp rq => ∀ cred, hq_Basic rq = Some cred →
      ∃ realm rest, hq_URL rq = realm +:+ "?service=" +:+ rest ∧ home_realm host realm
  | _ => False
  end.
Notation K host m := (keeps (acts (S := S) (guarded host)) m).

Lemma doMethod_guarded host method url bearer : K host (doMethod env method url bearer).
Proof. unfold doMethod, http. frame. Qed.
#[local] Hint Resolve doMethod_guarded : frames.

Lemma token_guarded host challenge repo : K host (token env sc challenge repo host).
Proof.
  unfold token, http. cbv zeta. case_bool_decide; [by frame|].
  apply keeps_on_result; [apply _| |intros ?; by frame|intros ?; by frame].
  apply acts_ask. intros cred. simpl. destruct (realmTrusted env _ host) eqn:Ht; [|by rewrite andb_false_r].
  intros _. eexists _, _. split; [done|]. by apply trusted_is_home.
Qed.
#[local] Hint Resolve token_guarded : frames.

Lemma challenged_guarded host method endpoint repo : K host (challenged env sc method endpoint repo host).
Proof. unfold challenged. frame. Qed.
#[local] Hint Resolve challenged_guarded : frames.

Lemma tag_pages_guarded host pages endpoint repo base all : K host (tag_pages env sc pages endpoint repo host base all).
Proof.
  revert endpoint all. induction pages as [|pages IH]; intros endpoint all; simpl; case_bool_decide; try by frame.
  unfold scanner_get. by frame.
Qed.

Lemma Tags_guarded image : K (ParseRef image).1 (scanner_Tags env sc image).
Proof. unfold scanner_Tags. destruct (ParseRef image) as [host repo]. apply tag_pages_guarded. Qed.

Lemma Digest_guarded image : K (ParseRef image).1 (scanner_Digest env sc image).
Proof. unfold scanner_Digest. destruct (ParseRef image) as [host repo]. frame. Qed.

Lemma guarded_requests host tr : Forall (guarded host) tr → ∃ rqs, tr = EHttp <$> rqs.
Proof.
  induction 1 as [|ef tr Hef _ [rqs ->]]; [by exists []|]. destruct ef; try done. by exists (r :: rqs).
Qed.

Lemma Digest_nonempty image : triple (λ _ : World S, True) (scanner_Digest env sc image) (λ d _, d ≠ Ok "").
Proof.
  unfold scanner_Digest. destruct (ParseRef image) as [host repo]. cbv zeta. intros w _. unfold on_result, mbind, M_bind.
  destruct (challenged _ _ _ _ _ _ w) as [[resp|er] w1]; simpl; [|done].
  case_match; [done|]. case_bool_decide as E; [done|]. by intros [= ?].
Qed.

#[global] Instance scanner_laws : TagListerLaws S (TagLister0 := scanner_lister env sc).
Proof.
  split.
  - intros image w d Hd ->. by apply (Digest_nonempty image w I).
  - intros image w. destruct (Tags_guarded image w) as (tr & Hw & (rqs & ->)%guarded_requests). by exists rqs.
  - intros image w. destruct (Digest_guarded image w) as (tr & Hw & (rqs & ->)%guarded_requests). by exists rqs.
Qed.
End Credentials.

(** ** Pins *)
Definition pin_of (ref : string) : string := (splitDigestRef ref).2.

Lemma append_assoc (a b c : string) : a +:+ (b +:+ c) = (a +:+ b) +:+ c.
Proof. induction a as [|x a IH]; [done|]. exact (f_equal (String x) IH). Qed.

Lemma pin_of_pinned a d : d ≠ "" → pin_of (a +:+ "@" +:+ d) ≠ "".
Proof.
  intros Hd. unfold pin_of, splitDigestRef.
  assert (∃ i, IndexByte (a +:+ "@" +:+ d) at_sign = Some i ∧ str_drop (i + 1) (a +:+ "@" +:+ d) ≠ "") as (i & -> & Hi); [|done].
  induction a as [|c a IH].
  - exists O. split; [done|]. exact Hd.
  - change (String c a +:+ "@" +:+ d) with (String c (a +:+ "@" +:+ d)). cbn [IndexByte].
    case_bool_decide as E.
    + exists O. split; [done|]. simpl. destruct a; done.
    + destruct IH as (i & -> & Hi). exists (Datatypes.S i). split; [done|]. exact Hi.
Qed.

Section Pins.
Context {S : Type} (env : Env) `{!TagLister S, !TagListerLaws S}.
Implicit Types (w : World S).

(** A reference, if there is one, is pinned. *)
Definition still_pinned (out : resolved) : Prop := out.2 = None → rs_Ref out.1 ≠ "" → pin_of (rs_Ref out.1) ≠ "".

Lemma selectSemver_pinned repo tag pol w : still_pinned (selectSemver env repo tag true pol w).1.
Proof.
  unfold still_pinned, selectSemver, on_result, mbind, M_bind. destruct (Tags repo w) as [[tags|er] w1]; [|done]. cbv zeta.
  destruct (SelectTag _ _ _ _ _) as [t|]; [|done]. destruct (policy_Validate _ _ _ _) as [er|]; [done|].
  unfold pinnedRef, mbind, M_bind. cbv zeta.
  destruct (Digest _ w1) as [[d|er] w2]; [|done]. destruct (decide (d = "")) as [->|Hd]; [done|].
  rewrite bool_decide_eq_false_2 by done. simpl. intros _ _.
  rewrite (append_assoc ":" t), (append_assoc repo). by apply pin_of_pinned.
Qed.

Lemma migrate_pinned repo pinned pol w : pinned ≠ "" → still_pinned (migrate env repo pinned pol w).1.
Proof.
  intros Hp. unfold still_pinned, migrate, on_result, mbind, M_bind. destruct (Tags repo w) as [[tags|er] w1]; [|done].
  destruct (semverForDigest _ _ _ _ _ w1) as [[t|] w2]; [|done]. destruct (policy_Validate _ _ _ _) as [er|]; [done|].
  simpl. intros _ _. rewrite (append_assoc ":" t), (append_assoc repo). by apply pin_of_pinned.
Qed.

Lemma resolve_pinned image pol w : pin_of image ≠ "" → still_pinned (resolve env image pol w).1.
Proof.
  unfold pin_of, resolve. intros Hp. destruct (registryAllowed _ _) as [er|]; [done|].
  destruct (splitDigestRef image) as [[repo tag] digest]. simpl in Hp. case_bool_decide.
  - unfold still_pinned, on_result, mbind, M_bind. pose proof (digest_nonempty (repo +:+ ":" +:+ tag) w) as Hd.
    destruct (Digest _ w) as [[d|er] w1]; [|done].
    case_bool_decide; [done|]. intros _ _. simpl.
    apply pin_of_pinned. by apply Hd.
  - rewrite (bool_decide_eq_false_2 (digest = "")) by done. simpl.
    destruct (IsSemver tag); [apply selectSemver_pinned|by apply migrate_pinned].
Qed.
End Pins.

(** ** Git *)
Section Writing.
Context {S : Type} (env : Env) (src : Source).
Implicit Types (w : World S).

(** Talks to git, files and HTTP only, and satisfies [P] when it runs git. *)
Definition writes (P : list string → Prop) (ef : Effect) : Prop :=
  match ef with
  | EGit _ _ args => P args
  | EReadFile _ | EWriteFile _ _ | EHttp _ => True
  | _ => False
  end.

(** A git command that pushes nothing, or only a branch other than the tracked one. *)
Definition polite (head : string) (args : list string) : Prop :=
  list.head args = Some "push" → args = ["push"; "--force"; "origin"; head +:+ ":" +:+ head] ∧ head ≠ src_branch src.

Notation K P m := (keeps (acts (S := S) (writes P)) m).

Lemma git_writes (P : list string → Prop) dir args : P args → K P (git env dir args).
Proof.
  intros HP. unfold git. apply keeps_bind; [apply _|apply keeps_read; apply _|]. intros [tok|er]; [|apply keeps_ret; apply _].
  apply keeps_bind; [apply _|by apply acts_ask|]. intros [out er]. apply keeps_ret. apply _.
Qed.
Lemma git_ok_writes (P : list string → Prop) dir args : P args → K P (git_ok env dir args).
Proof. intros HP. unfold git_ok. apply keeps_bind; [apply _|by apply git_writes|]. intros [? ?]. apply keeps_ret. apply _. Qed.

Lemma asks_acts P w rqs : acts (S := S) (writes P) w (set_trace ((EHttp <$> rqs) ++ w_trace w) w).
Proof. eexists. split; [done|]. apply Forall_fmap, Forall_true. done. Qed.

Section Asking.
Context `{!TagLister S, !TagListerLaws S}.

Lemma Tags_writes P image : K P (Tags image).
Proof. intros w. destruct (tags_asks image w) as [rqs ->]. apply asks_acts. Qed.
Lemma Digest_writes P image : K P (Digest image).
Proof. intros w. destruct (digest_asks image w) as [rqs ->]. apply asks_acts. Qed.
#[local] Hint Resolve Tags_writes Digest_writes : frames.

Lemma resolve_writes P image pol : K P (resolve env image pol).
Proof.
  assert (∀ repo pinned tags, K P (digest_among repo pinned tags)) as Hd.
  { intros repo pinned tags. induction tags as [|t tags IH]; simpl; frame. }
  unfold resolve, selectSemver, migrate, semverForDigest, pinnedRef. frame.
Qed.
End Asking.

Lemma githubAPI_writes P method path body : K P (githubAPI env src method path body).
Proof. unfold githubAPI. frame. Qed.
#[local] Hint Resolve githubAPI_writes : frames.

Lemma OpenPullRequest_writes P head base title body : K P (OpenPullRequest env src head base title body).
Proof. unfold OpenPullRequest, createOrFindPR, findOpenPR, enableAutoMerge. frame. Qed.

Lemma CommitFile_writes (P : list string → Prop) path content msg :
  (∀ args, list.head args ≠ Some "push" → P args) → K P (CommitFile env src path content msg).
Proof.
  intros HP. unfold CommitFile, Head. cbv zeta. frame; by first [apply git_ok_writes, HP | apply git_writes, HP | apply acts_ask].
Qed.

Lemma head_not_push (args : list string) : list.head args ≠ Some "push" → ∀ head, polite head args.
Proof. by intros H head ?. Qed.

(** The commands of the proposal path, the push apart. *)
Ltac polite_git := apply git_ok_writes || apply git_writes; by apply head_not_push.

Lemma CommitFileOnBranch_polite head path content msg :
  K (polite head) (CommitFileOnBranch env src head path content msg).
Proof.
  unfold CommitFileOnBranch. frame; try polite_git.
  apply CommitFile_writes. intros args Ha. by apply head_not_push.
Qed.

Lemma CommitFileOnBranch_other head path content msg w c :
  (CommitFileOnBranch env src head path content msg w).1 = Ok c → head ≠ src_branch src.
Proof.
  unfold CommitFileOnBranch. destruct (decide (head = src_branch src)) as [->|]; [|done].
  by rewrite (bool_decide_eq_true_2 (src_branch src = src_branch src)), orb_true_r by done.
Qed.

Lemma proposeViaPR_polite nc patched msg from to seen :
  K (polite (prBranchName (Config.md_Name (Config.Meta (nc_Config nc))))) (proposeViaPR env src nc patched msg from to seen).
Proof.
  unfold proposeViaPR. cbv zeta. set (head := prBranchName _).
  assert (∀ P, K P (ensureProposal env src nc head msg from to seen)) as He
    by (intros P; unfold ensureProposal; apply keeps_on_result; [apply _|apply OpenPullRequest_writes|intros ?; by frame..]).
  apply keeps_bind; [apply _|unfold RemoteFileMatches; frame; polite_git|]. intros same. destruct same; [apply He|].
  unfold on_result. apply (keeps_bind_post _ (λ c, ∀ b, c = Ok b → head ≠ src_branch src)).
  - apply CommitFileOnBranch_polite.
  - intros w b. apply CommitFileOnBranch_other.
  - intros [committed|er] Hc; [|by frame]. destruct committed; simpl; [|apply He].
    apply keeps_on_error; [apply _| |intros ?; by frame|].
    + apply git_ok_writes. intros _. split; [done|]. by apply (Hc true).
    + apply keeps_on_result; [apply _|apply OpenPullRequest_writes|intros ?; by frame..].
Qed.

(** *** What comes back *)
Definition kept (nc : NamedConfig) (p : Processed) : Prop :=
  pr_Config p = nc_Config nc ∧ pr_Ref p = "" ∧ Deployed (is_Outcome (pr_Status p)) = false.

Notation keeps_config nc m := (triple (λ _ : World S, True) m (λ p _, kept nc p)).

Lemma t_step {A B} (m : M S A) (k : A → M S B) Q :
  (∀ a, triple (λ _, True) (k a) Q) → triple (λ _, True) (m ≫= k) Q.
Proof. intros Hk. by apply (t_bind_fact (λ _, True)). Qed.

Lemma proposeViaPR_kept nc patched msg from to seen : keeps_config nc (proposeViaPR env src nc patched msg from to seen).
Proof.
  assert (∀ head, keeps_config nc (ensureProposal env src nc head msg from to seen)) as He
    by (intros head; apply t_step; intros [?|?]; by apply t_ret).
  unfold proposeViaPR. cbv zeta. apply t_step. intros same. destruct same; [apply He|].
  apply t_step. intros [committed|er]; [|by apply t_ret]. destruct committed; simpl; [|apply He].
  apply t_step. intros [er|]; [by apply t_ret|]. apply t_step. intros [?|?]; by apply t_ret.
Qed.

(** *** What the trace shows, newest first *)

(** The trace before [before] grew out of [base]. *)
Definition since (base tr : list Effect) : Prop := ∃ mid, tr = mid ++ base.

(** A git command ran in the checkout and succeeded; [before] is the trace when it started. *)
Definition succeeded (args : list string) (tr before : list Effect) : Prop :=
  ∃ later header, tr = later ++ EGit (src_dir src) header args :: before ∧
    (o_git env (EGit (src_dir src) header args :: before) (src_dir src) (header ++ args)).2 = None.

(** The file was written with the content, without an error, since [base]. *)
Definition saved (base : list Effect) (path content : string) (tr : list Effect) : Prop :=
  let file := path_join (src_dir src) (Clean path) in
  ∃ later before, tr = later ++ EWriteFile file content :: before ∧ since base before ∧
    o_write_file env (EWriteFile file content :: before) file content = None.

(** After that, git added the file. *)
Definition staged base path content tr : Prop :=
  ∃ before, succeeded ["add"; Clean path] tr before ∧ saved base path content before.

(** After that, git committed what was staged, or found nothing staged that
    the branch does not have already. *)
Definition committed base path content tr : Prop :=
  ∃ before, staged base path content before ∧
    ((∃ message, succeeded ["-c"; "user.name=rollops"; "-c"; "user.email=rollops@localhost"; "commit"; "-m"; message] tr before) ∨
     succeeded ["diff"; "--cached"; "--quiet"] tr before).

(** After that, the tracked branch was pushed. *)
Definition pushed (base : list Effect) (nc : NamedConfig) (content : string) (tr : list Effect) : Prop :=
  ∃ before, succeeded ["push"; "origin"; src_branch src] tr before ∧ committed base (nc_Path nc) content before.

(** What stays true of a trace as it grows. *)
Definition lasting (I : list Effect → Prop) : Prop := ∀ later tr, I tr → I (later ++ tr).

Lemma since_lasting base : lasting (since base).
Proof. intros later tr [mid ->]. exists (later ++ mid). by rewrite app_assoc. Qed.
Lemma succeeded_lasting args before : lasting (λ tr, succeeded args tr before).
Proof. intros l tr (later & header & -> & H). exists (l ++ later), header. by rewrite app_assoc. Qed.
Lemma saved_lasting base path content : lasting (saved base path content).
Proof. intros l tr (later & before & -> & H). exists (l ++ later), before. by rewrite app_assoc. Qed.
Lemma staged_lasting base path content : lasting (staged base path content).
Proof. intros l tr (before & H1 & H2). exists before. split; [by apply succeeded_lasting|done]. Qed.
Lemma committed_lasting base path content : lasting (committed base path content).
Proof.
  intros l tr (before & H1 & H2). exists before. split; [done|].
  destruct H2 as [[message H2]|H2]; [left; exists message|right]; by apply succeeded_lasting.
Qed.

Notation traced I := (λ w : World S, I (w_trace w)).

Lemma t_lasting {A B} P (m : M S A) (k : A → M S B) I Q :
  lasting I → K P m → (∀ a, triple (traced I) (k a) Q) → triple (traced I) (m ≫= k) Q.
Proof.
  intros HI Hm Hk w Hw. specialize (Hm w) as (tr & Hw1 & _). unfold mbind, M_bind. destruct (m w) as [a w1].
  cbn [snd] in Hw1. subst. apply Hk. by apply HI.
Qed.

(** A git command that gives no error succeeded, after what held before it. *)
Lemma git_succeeds args I : lasting I →
  triple (traced I) (git env (src_dir src) args)
    (λ oe w, I (w_trace w) ∧ (oe.2 = None → ∃ before, I before ∧ succeeded args (w_trace w) before)).
Proof.
  intros HI w Hw. unfold git, mbind, M_bind, read, ask. destruct (o_git_token env (w_trace w)) as [tok|er]; [|done].
  simpl. destruct (o_git env _ _ _) as [out er] eqn:Hg. simpl. split; [by apply (HI [_])|].
  destruct er; [done|]. intros _. exists (w_trace w). split; [done|]. exists [], (auth_header tok). by rewrite Hg.
Qed.

Lemma git_ok_succeeds args I : lasting I →
  triple (traced I) (git_ok env (src_dir src) args)
    (λ er w, er = None → ∃ before, I before ∧ succeeded args (w_trace w) before).
Proof.
  intros HI w Hw. unfold git_ok, mbind, M_bind. pose proof (git_succeeds args I HI w Hw) as H.
  destruct (git env (src_dir src) args w) as [[out er] w1]. apply H.
Qed.

Lemma CommitFile_committed base path content msg :
  triple (traced (since base)) (CommitFile env src path content msg)
    (λ c w, is_ok c = true → committed base path content (w_trace w)).
Proof.
  unfold CommitFile. cbv zeta. destruct (invalid_path (Clean path)); [by apply t_ret|].
  eapply (t_bind _ _ _ (λ er w, er = None → saved base path content (w_trace w)));
    [intros w Hw Hn; by exists [], (w_trace w)|].
  intros [er|]; [by apply t_ret|]. eapply t_pre; [intros w Hw; exact (Hw eq_refl)|].
  eapply t_bind; [apply git_ok_succeeds, saved_lasting|].
  intros [er|]; [by apply t_ret|]. apply (t_pre _ (traced (staged base path content))).
  { intros w Hw. destruct (Hw eq_refl) as (before & ? & ?). by exists before. }
  eapply t_bind; [apply git_succeeds, staged_lasting|]. intros [out [er|]].
  - destruct (out != ""); [by apply t_ret|]. eapply t_pre; [intros w [Hw _]; exact Hw|].
    eapply t_bind; [apply git_ok_succeeds, staged_lasting|]. intros [er'|]; [by apply t_ret|].
    apply (t_pre _ (traced (committed base path content))).
    { intros w Hw. destruct (Hw eq_refl) as (before & ? & ?). exists before. split; [done|]. left. by exists msg. }
    apply (t_lasting (λ _, True)); [apply committed_lasting| |intros [?|?]; by apply t_ret].
    unfold Head. apply keeps_bind; [apply _|by apply git_writes|intros [? ?]; apply keeps_ret; apply _].
  - apply t_ret. intros w [_ Hw] _. destruct (Hw eq_refl) as (before & ? & ?). exists before. auto.
Qed.

Lemma Push_pushed base nc content :
  triple (traced (committed base (nc_Path nc) content)) (Push env src) (λ er w, er = None → pushed base nc content (w_trace w)).
Proof.
  eapply t_post; [|apply git_ok_succeeds, committed_lasting]. intros er w H Hn. destruct (H Hn) as (before & ? & ?). by exists before.
Qed.

(** The config handed over is what the pushed file loads as. *)
Definition bumped (base : list Effect) (nc : NamedConfig) (p : Processed) (tr : list Effect) : Prop :=
  ∃ content, o_load env content = Ok (pr_Config p) ∧ pushed base nc content tr.

Lemma pushBump_leads base nc patched msg newRef seen :
  triple (traced (since base)) (pushBump env src nc patched msg newRef seen)
    (λ p w, kept nc p ∨ bumped base nc p (w_trace w)).
Proof.
  unfold pushBump, on_result, on_error. eapply t_bind; [apply CommitFile_committed|]. intros [c|er]; [|by apply t_ret; left].
  eapply t_pre; [intros w Hw; exact (Hw eq_refl)|]. eapply t_bind; [apply Push_pushed|].
  intros [er|]; [by apply t_ret; left|]. destruct (o_load env patched) as [b|er] eqn:Hl; [|by apply t_ret; left].
  apply t_ret. intros w Hw. right. exists patched. split; [exact Hl|by apply Hw].
Qed.
End Writing.

(** *** A cycle of the automation *)
Section Cycle.
Context {S : Type} (env : Env) `{!TagLister S, !TagListerLaws S} (src : Source).
Implicit Types (w : World S).

Notation traced I := (λ w : World S, I (w_trace w)).

Lemma writeBump_leads base nc pol res seen :
  triple (traced (since base)) (writeBump env src nc pol res seen) (λ p w, kept nc p ∨
    (Config.WritebackMode (Some pol) ≠ Config.WritebackPullRequest ∧ bumped env src base nc p (w_trace w))).
Proof.
  unfold writeBump. cbv zeta. apply (t_lasting (λ _, True)); [apply since_lasting|by apply acts_ask|].
  intros [data|er]; [|by apply t_ret; left].
  destruct (PatchRolloutImageRef _ _ _ _) as [[patched [|]]|er]; [| |by apply t_ret; left].
  - case_bool_decide as Hm.
    + apply (t_pre _ (λ _, True)); [done|]. eapply t_post; [|apply proposeViaPR_kept]. intros p w Hk. by left.
    + eapply t_post; [|apply pushBump_leads]. intros p w [Hk|Hb]; [by left|by right].
  - apply t_ret. intros w _. left. by destruct (requireCurrentIdentities seen).
Qed.

Lemma Process_leads base nc :
  triple (traced (since base)) (Process env src nc) (λ p w, kept nc p ∨
    (∃ pol, Config.sp_ImagePolicy (Config.spec (nc_Config nc)) = Some pol ∧
       Config.WritebackMode (Some pol) ≠ Config.WritebackPullRequest ∧ bumped env src base nc p (w_trace w))).
Proof.
  unfold Process. destruct (Config.sp_ImagePolicy _) as [pol|]; [|by apply t_ret; left].
  case_bool_decide; [by apply t_ret; left|]. cbv zeta. case_bool_decide; [by apply t_ret; left|].
  apply (t_lasting (λ _, True)); [apply since_lasting|by apply resolve_writes|].
  intros [res [er|]]; [by apply t_ret; left|]. case_bool_decide.
  - apply t_ret. intros w _. left. by destruct (requireCurrentIdentities _).
  - eapply t_post; [|apply writeBump_leads]. intros p w [Hk|Hb]; [by left|]. right. by exists pol.
Qed.

Lemma Process_polite nc pol :
  Config.sp_ImagePolicy (Config.spec (nc_Config nc)) = Some pol →
  Config.WritebackMode (Some pol) = Config.WritebackPullRequest →
  keeps (acts (S := S) (writes (polite src (prBranchName (Config.md_Name (Config.Meta (nc_Config nc)))))))
    (Process env src nc).
Proof.
  intros Hp Hm. unfold Process. rewrite Hp. cbv zeta. case_bool_decide; [by frame|]. case_bool_decide; [by frame|].
  apply keeps_bind; [apply _|by apply resolve_writes|]. intros [res [er|]]; [by frame|]. case_bool_decide; [by frame|].
  unfold writeBump. cbv zeta. rewrite Hm. apply keeps_on_result; [apply _|by apply acts_ask|intros ?; by frame|].
  intros data. destruct (PatchRolloutImageRef _ _ _ _) as [[patched [|]]|er]; [|by frame|by frame].
  rewrite bool_decide_eq_true_2 by done. apply proposeViaPR_polite.
Qed.
End Cycle.

(** ** Properties *)

(** C24. The registry credential stays home.  Listing the tags or asking for the
    digest of an image sends only HTTP requests, and a request carries the
    credential only when it goes to a token realm whose URL is https and names the
    image's own registry, host and port, or one of Docker's hosts for an image of
    theirs, whatever realm a challenge names. *)
Theorem credentials_go_to_trusted_realms {S} env sc image (w : World S) :
  acts (guarded env (ParseRef image).1) w (scanner_Tags env sc image w).2 ∧
  acts (guarded env (ParseRef image).1) w (scanner_Digest env sc image w).2.
Proof. split; [apply Tags_guarded|apply Digest_guarded]. Qed.

(** A digest pin survives every update.  Whatever the mode and whatever the
    registry answers, when the current image is pinned to a digest and [resolve]
    decides on a new reference, that reference is pinned to a digest too. *)
Theorem pin_survives_update {S} `{!TagLister S, !TagListerLaws S} env image pol (w : World S) :
  pin_of image ≠ "" →
  let '((res, er), _) := resolve env image pol w in
  er = None → rs_Ref res ≠ "" → pin_of (rs_Ref res) ≠ "".
Proof.
  intros Hp. pose proof (resolve_pinned env image pol w Hp) as H.
  destruct (resolve env image pol w) as [[res er] w']. exact H.
Qed.

(** C23. Git leads the cluster.  [Process] hands the reconcile the config of the
    checkout and no new image, unless the policy writes by push and, in this
    order and during this call, the new config was written to its file, git added
    the file, git committed it (or found that the branch has it already) and git
    pushed the tracked branch, all without an error; then it hands over what the
    pushed file loads as. *)
Theorem git_leads_the_cluster {S} `{!TagLister S, !TagListerLaws S} env src nc (w : World S) :
  let '(p, w') := Process env src nc w in
  kept nc p ∨
  ∃ pol, Config.sp_ImagePolicy (Config.spec (nc_Config nc)) = Some pol ∧
    Config.WritebackMode (Some pol) ≠ Config.WritebackPullRequest ∧ bumped env src (w_trace w) nc p (w_trace w').
Proof.
  pose proof (Process_leads env src (w_trace w) nc w (ex_intro _ [] eq_refl)) as H. by destruct (Process env src nc w) as [p w'].
Qed.

(** A proposal leaves the tracked branch alone.  With pull-request writeback
    the automation deploys nothing, and the only thing it ever pushes is its own
    branch, which is not the tracked one. *)
Theorem proposals_spare_the_tracked_branch {S} `{!TagLister S, !TagListerLaws S} env src nc pol (w : World S) :
  Config.sp_ImagePolicy (Config.spec (nc_Config nc)) = Some pol →
  Config.WritebackMode (Some pol) = Config.WritebackPullRequest →
  let '(p, w') := Process env src nc w in
  kept nc p ∧ acts (writes (polite src (prBranchName (Config.md_Name (Config.Meta (nc_Config nc)))))) w w'.
Proof.
  intros Hp Hm. pose proof (Process_leads env src (w_trace w) nc w (ex_intro _ [] eq_refl)) as H. pose proof (Process_polite env src nc pol Hp Hm w) as Ha.
  destruct (Process env src nc w) as [p w']. split; [|done]. destruct H as [?|(pol' & Hp' & Hm' & _)]; [done|congruence].
Qed.

Section Witnesses.
Import Scenario.

(** A registry that challenges every request without a token, naming a realm, and
    then answers; git that has something to commit. *)
Definition answer (realm : string) (status : Z) (body : string) : HttpResponse := {|
  hp_Status := status;
  hp_Authenticate := "Bearer realm=" +:+ String dquote (realm +:+ String dquote "");
  hp_Digest := "sha256:bb"; hp_Link := ""; hp_Body := body |}.

Definition registry (realm : string) : HttpRequest → result HttpResponse := λ rq,
  if HasPrefix (hq_URL rq) realm then Ok (answer realm 200 "token")
  else if HasPrefix (hq_URL rq) "https://api.github.com" then Ok (answer realm 201 "pr")
  else Ok (answer realm (if hq_Bearer rq == "" then 401 else 200) "tags").

Definition git_answers (args : list string) : string * option err :=
  if bool_decide (args = ["diff"; "--cached"; "--quiet"]) then ("", Some (Errorf "exit status 1")) else ("abc", None).

Definition document : Node :=
  let key k := NOther k [] in
  NDocument [NMapping [key "spec"; NMapping [key "target"; NMapping [key "spec"; NMapping [key "image"; NOther "old" []]]]]].

Definition reached (scheme host : string) : Env := {|
  o_build := o_build sunny; o_apply := o_apply sunny; o_observe := o_observe sunny; o_health := o_health sunny;
  o_differ := o_differ sunny; o_diff := o_diff sunny; o_renderer := o_renderer sunny; o_referenced := o_referenced sunny;
  o_render := o_render sunny; o_inspector := o_inspector sunny; o_resources := o_resources sunny;
  o_preflighter := o_preflighter sunny; o_preflight := o_preflight sunny; o_reaper := o_reaper sunny;
  o_reap := o_reap sunny; o_router := o_router sunny; o_traffic := o_traffic sunny;
  o_flag_provider := o_flag_provider sunny; o_flag := o_flag sunny; o_exec := o_exec sunny; o_environ := o_environ sunny;
  o_metrics := o_metrics sunny; o_series_capable := o_series_capable sunny; o_query := o_query sunny;
  o_series := o_series sunny; o_secret := o_secret sunny; o_govern := o_govern sunny; o_artifact := o_artifact sunny;
  o_rate := o_rate sunny; o_ctx_done := o_ctx_done sunny; o_cel := o_cel sunny; o_cel_vars := o_cel_vars sunny;
  o_sha256 := o_sha256 sunny; o_spec_sum := o_spec_sum sunny; o_now := o_now sunny;
  o_git := λ _ _ args, git_answers args; o_git_token := λ _, Ok ""; o_read_file := λ _ _, Ok "yaml";
  o_write_file := λ _ _ _, None; o_remove_all := λ _ _, None; o_http := λ _ rq, registry (scheme +:+ "://" +:+ host +:+ "/token") rq;
  o_load_all := λ _ _, Ok []; o_dangling := o_dangling sunny; o_load := λ _, Ok (web "v1.2.4"); o_yaml := λ _, Ok document; o_yaml_out := λ _, Ok "patched";
  o_regexp := λ p, Ok (λ s, s == p); o_url := λ _, Ok (scheme, host, host); o_json_out := λ _, "{}";
  o_json_tags := λ _, Ok ["v1.2.3"; "v1.2.4"; "v2.0.0-rc1"]; o_json_token := λ _, Ok ("t0", "");
  o_json_pr := λ _, Ok ("id", "https://github.com/acme/shop/pull/1"); o_json_prs := λ _, Ok [];
  o_json_hook := λ _, Ok ("", "", ""); o_hmac := λ key body, key +:+ body |}.

Definition online : Env := reached "https" "ghcr.io".

Definition scanner : Scanner := {| sc_Username := "bot"; sc_Password := "pat" |}.
#[local] Instance lister : TagLister Sqlite.Db := scanner_lister online scanner.
#[local] Instance lister_laws : TagListerLaws Sqlite.Db := scanner_laws online scanner.

Definition tracking (writeback : string) : Config.ImagePolicy := {|
  Config.ip_Mode := "patch"; Config.ip_Pattern := ""; Config.ip_AllowMutableTags := false;
  Config.ip_AllowedRegistries := ["ghcr.io"]; Config.ip_Writeback := writeback |}.

Definition pinned_image : string := "ghcr.io/acme/app:v1.2.3@sha256:aa".

(** Where the credential went. *)
Definition credential_urls (w : World Sqlite.Db) : list string :=
  omap (λ ef, match ef with EHttp rq => if hq_Basic rq then Some (hq_URL rq) else None | _ => None end) (w_trace w).

(** It goes to the registry's own realm over https, and neither to another host
    nor over http. *)
Lemma credentials_go_to_trusted_realms_witness :
  let w := start Sqlite.empty in let image := "ghcr.io/acme/app:v1.2.3" in
  let asked scheme host := (scanner_Digest (reached scheme host) scanner image w).2 in
  credential_urls (asked "https" "ghcr.io") = ["https://ghcr.io/token?service=&scope=repository:acme/app:pull"] ∧
  credential_urls (asked "https" "evil.example") = [] ∧ credential_urls (asked "http" "ghcr.io") = [] ∧
  acts (guarded online "ghcr.io") w (asked "https" "ghcr.io") ∧
  acts (guarded (reached "https" "evil.example") "ghcr.io") w (asked "https" "evil.example").
Proof.
  intros w image asked. split_and!; [vm_compute; reflexivity..| |].
  - apply (credentials_go_to_trusted_realms online scanner image w).
  - apply (credentials_go_to_trusted_realms (reached "https" "evil.example") scanner image w).
Defined.

Definition resolved_image : resolved * World Sqlite.Db := resolve online pinned_image (tracking "") (start Sqlite.empty).

Lemma resolved_image_ok : resolved_image.1.2 = None ∧ rs_Ref resolved_image.1.1 = "ghcr.io/acme/app:v1.2.4@sha256:bb".
Proof. vm_compute. done. Qed.

Lemma pin_survives_update_witness : pin_of (rs_Ref resolved_image.1.1) ≠ "".
Proof.
  destruct resolved_image_ok as [He Hr].
  pose proof (pin_survives_update online pinned_image (tracking "") (start Sqlite.empty) ltac:(by vm_compute)) as H.
  fold resolved_image in H. destruct resolved_image as [[res er] w']. apply H; [exact He|]. simpl in Hr. rewrite Hr. done.
Defined.

Definition shop_source : Source :=
  {| src_dir := "/repos/shop"; src_branch := "main"; src_url := "git@github.com:acme/shop.git"; src_apiBase := "" |}.

(** The web service, its image tracked. *)
Definition tracked (writeback : string) : NamedConfig :=
  let c := web pinned_image in let s := Config.spec c in
  {| nc_Path := "web.yaml";
     nc_Config := {| Config.APIVersion := Config.APIVersion c; Config.ConfigKind := Config.ConfigKind c;
       Config.Meta := Config.Meta c;
       Config.spec := {|
         Config.sp_Target := Config.sp_Target s; Config.sp_Environments := []; Config.sp_Strategy := Config.sp_Strategy s;
         Config.sp_Risk := Config.sp_Risk s; Config.sp_Rollback := Config.sp_Rollback s; Config.sp_Analysis := None;
         Config.sp_FeatureFlags := None; Config.sp_TrafficRouting := None;
         Config.sp_ImagePolicy := Some (tracking writeback); Config.sp_Database := None; Config.sp_DependsOn := [];
         Config.sp_Schedule := ""; Config.sp_Verification := "" |} |} |}.

(** Both ways of writing: a push deploys at once, a proposal waits. *)
Lemma both_ways :
  is_Outcome (pr_Status (Process online shop_source (tracked "push") (start Sqlite.empty)).1) = ImageOutcomeBumped ∧
  is_Outcome (pr_Status (Process online shop_source (tracked "pull-request") (start Sqlite.empty)).1) = ImageOutcomeProposed.
Proof. vm_compute. done. Qed.

Lemma git_leads_the_cluster_witness :
  bumped online shop_source [] (tracked "push") (Process online shop_source (tracked "push") (start Sqlite.empty)).1
    (w_trace (Process online shop_source (tracked "push") (start Sqlite.empty)).2).
Proof.
  pose proof (git_leads_the_cluster online shop_source (tracked "push") (start Sqlite.empty)) as H.
  destruct both_ways as [Hb _].
  destruct (Process online shop_source (tracked "push") (start Sqlite.empty)) as [p w'].
  destruct H as [(_ & _ & Hk)|(pol & _ & _ & H)]; [|exact H]. simpl in Hb. rewrite Hb in Hk. discriminate.
Defined.

Lemma proposals_spare_the_tracked_branch_witness :
  kept (tracked "pull-request") (Process online shop_source (tracked "pull-request") (start Sqlite.empty)).1.
Proof.
  pose proof (proposals_spare_the_tracked_branch online shop_source (tracked "pull-request") (tracking "pull-request")
    (start Sqlite.empty) eq_refl eq_refl) as H.
  destruct (Process online shop_source (tracked "pull-request") (start Sqlite.empty)) as [p w']. exact (proj1 H).
Defined.
End Witnesses.
