(* ===== verification/KubeSafety.v ===== *)
(** * What the kubernetes target may do

    The commands a target starts, over every answer of the tools: where its
    sources may come from, the confinement of every [kubectl] it starts, which
    operations change the cluster, when an apply is skipped, and what an
    unreachable cluster reads as. *)

From S2P Require Import Prelude Encoding Config Model Security World ImageSelect Reap Git ConfigLoad Process.
From S2P Require Import KubeRender KubeCluster KubeTarget.

(** ** Sources stay below the root *)

(** The stack of a relative path: plain names above the leading [..]s. *)
Definition relative_stack (st : list string) : Prop := ∃ names ups, st = names ++ ups ∧ Forall plain names ∧ Forall (.= "..") ups.

Lemma relative_step st part : lacks slash part → relative_stack st → relative_stack (clean_step false st part).
Proof.
  intros Hl (names & ups & -> & Hn & Hu). unfold clean_step.
  repeat case_bool_decide; simpl; try by exists names, ups.
  - subst. destruct names as [|top names]; simpl.
    + destruct ups as [|u ups]; [exists [], [".."]; by repeat constructor|]. inversion_clear Hu. subst.
      rewrite bool_decide_eq_true_2 by done. exists [], (".." :: ".." :: ups). by repeat constructor.
    + inversion_clear Hn as [|?? Hp]. rewrite bool_decide_eq_false_2 by apply Hp. by exists names, ups.
  - exists (part :: names), ups. split; [done|]. split; [|done]. constructor; [|done]. done.
Qed.

Lemma relative_clean st parts : Forall (lacks slash) parts → relative_stack st → relative_stack (foldl (clean_step false) st parts).
Proof.
  revert st. induction parts as [|p parts IH]; intros st Hl Hst; [done|]. inversion_clear Hl. simpl.
  apply IH; [done|]. by apply relative_step.
Qed.

(** A cleaned relative path that does not start with [..] is a chain of names. *)
Lemma Clean_relative path :
  HasPrefix path "/" = false → Clean path ≠ ".." → HasPrefix (Clean path) "../" = false →
  ∃ names, Forall plain names ∧ Clean path = (if Join names "/" == "" then "." else Join names "/").
Proof.
  intros Hr Hup Hpre. unfold Clean in *. rewrite Hr in *.
  destruct (relative_clean [] (Split path slash)) as (names & ups & Hst & Hn & Hu).
  { apply Forall_forall. intros x. apply Split_parts_lack. }
  { by exists [], []. }
  exists (rev names). split; [by apply Forall_rev|]. rewrite Hst in *. rewrite rev_app_distr in *.
  destruct ups as [|u ups _] using rev_ind; [done|].
  exfalso. apply Forall_app in Hu as [_ Hu]. inversion_clear Hu. subst u.
  rewrite rev_app_distr in *. simpl in *. destruct (rev ups ++ rev names) as [|x rest]; simpl in *; [done|].
  by rewrite (HasPrefix_app "") in Hpre.
Qed.

(** [p] is [root] joined with plain names, or [root] itself: below it by the
    text of the path. *)
Definition beneath (root p : string) : Prop :=
  ∃ names, Forall plain names ∧ p = path_join root (if Join names "/" == "" then "." else Join names "/").

Lemma Clean_rooted_prefix p : HasPrefix p "/" = true → HasPrefix (Clean p) "/" = true.
Proof. intros Hp. rewrite Clean_rooted by done. apply (HasPrefix_app "/"). Qed.

(** Below an absolute root: its components with plain names after them. *)
Lemma beneath_components root p : HasPrefix root "/" = true → beneath root p →
  ∃ names, Forall plain names ∧ components p = names ++ components root.
Proof.
  intros Hroot (names & Hn & ->). rewrite components_path_join by done. case_bool_decide as He.
  - exists []. by split.
  - rewrite push_joined by done. exists (rev names). split; [by apply Forall_rev|done].
Qed.

Lemma resolve_beneath root path p :
  root ≠ "" → isRemoteSource path = false → resolveSourcePath root path = Ok p → beneath root p.
Proof.
  intros Hroot Hrem. unfold resolveSourcePath. rewrite Hrem, bool_decide_false by done.
  destruct (HasPrefix (Clean path) "/") eqn:Habs; simpl; [done|].
  destruct (bool_decide_reflect (Clean path = "..")) as [|Hup]; simpl; [done|].
  destruct (HasPrefix (Clean path) "../") eqn:Hpre; [done|]. intros [= <-].
  destruct (HasPrefix path "/") eqn:Hr; [by rewrite Clean_rooted_prefix in Habs|].
  destruct (Clean_relative path) as (names & Hn & ->); [done..|]. by exists names.
Qed.

(** A source the rendering tool is given: beneath the root, or what the code
    takes for a remote one. *)
Definition source (root p : string) : Prop := isRemoteSource p = true ∨ beneath root p.

Lemma resolve_source root path p : root ≠ "" → resolveSourcePath root path = Ok p → source root p.
Proof.
  intros Hroot Hp. destruct (isRemoteSource path) eqn:Hr; [|right; by eapply resolve_beneath].
  left. unfold resolveSourcePath in Hp. rewrite Hr in Hp. by injection Hp as <-.
Qed.

Lemma values_args_sources root files args :
  root ≠ "" → values_args root files = Ok args →
  ∃ vfs, args = mjoin ((λ f, ["-f"; f]) <$> vfs) ∧ Forall (source root) vfs.
Proof.
  intros Hroot. revert args. induction files as [|f files IH]; intros args; simpl; [intros [= <-]; by exists []|].
  destruct (resolveSourcePath root f) as [vf|] eqn:Hf; [|done].
  destruct (values_args root files) as [rest|] eqn:Hrest; [|done]. intros [= <-].
  destruct (IH rest) as (vfs & -> & Hv); [done|]. exists (vf :: vfs). split; [done|].
  constructor; [by eapply resolve_source|done].
Qed.

(** What rendering a referenced source may ask: a file, an overlay or a chart
    and values files, each a [source]; a chart of a repository goes by name. *)
Inductive referenced (root : string) : ToolCall → Prop :=
| ref_file p : source root p → referenced root (TReadFile p)
| ref_overlay p : source root p → referenced root (TExec "kubectl" None ["kustomize"; p])
| ref_chart release chart repo version ns vfs :
    repo ≠ "" ∨ source root chart → Forall (source root) vfs →
    referenced root (TExec "helm" None (["template"; release; chart] ++ flag "--repo" repo ++ flag "--version" version ++
                                        flag "--namespace" ns ++ mjoin ((λ f, ["-f"; f]) <$> vfs))).

Section Sources.
Context `{Tools}.

Lemma runKustomize_referenced root path : root ≠ "" → issues (referenced root) (runKustomize root path).
Proof.
  intros Hroot. unfold runKustomize. destruct (resolveSourcePath root path) as [target|] eqn:Hp; [|apply issues_ret].
  issue. apply ref_overlay. by eapply resolve_source.
Qed.

Lemma renderPath_referenced root path : root ≠ "" → issues (referenced root) (renderPath root path).
Proof.
  intros Hroot. unfold renderPath. case_bool_decide; [apply issues_ret|].
  destruct (resolveSourcePath root path) as [target|] eqn:Hp; [|apply issues_ret].
  unfold os_ReadFile. issue. apply ref_file. by eapply resolve_source.
Qed.

Lemma renderHelmFrom_referenced root h : root ≠ "" → issues (referenced root) (renderHelmFrom h root).
Proof.
  intros Hroot. unfold renderHelmFrom. case_bool_decide; [apply issues_ret|].
  destruct (if _ && _ then _ else _) as [chart|] eqn:Hc; [|apply issues_ret].
  destruct (stringList _) as [files|]; [|apply issues_ret].
  destruct (values_args root files) as [args|] eqn:Hv; [|apply issues_ret].
  apply values_args_sources in Hv as (vfs & -> & Hv); [|done].
  issue. apply ref_chart; [|done].
  destruct (bool_decide_reflect (str h "repo" = "")) as [He|]; [right|by left]. simpl in Hc.
  destruct (isRemoteSource (str h "chart")) eqn:Hr; simpl in Hc; [left; congruence|by eapply resolve_source].
Qed.

End Sources.

(** ** What a source escapes by *)
Section Escapes.
Context `{Tools}.

(** No root, no confinement: the path the configuration gives is read. *)
Theorem without_a_root_paths_are_as_given path tr :
  path ≠ "" → (renderManifestFrom [("path", AString path)] "" tr).2 = TReadFile path :: tr.
Proof.
  intros Hp. unfold renderManifestFrom, renderPath, os_ReadFile, call, attempt_result, mbind, Prog_bind, mret, Prog_ret. simpl.
  rewrite bool_decide_false by done. unfold resolveSourcePath. rewrite (bool_decide_true ("" = "")) by done.
  destruct (isRemoteSource path); simpl; by destruct (tl_read _).
Qed.

(** A doubled slash makes a local path pass for a remote one, so it is neither
    rooted nor refused: the daemon reads the file. *)
Theorem doubled_slash_leaves_the_root tr :
  (renderManifestFrom [("path", AString "/etc//shadow")] "/srv/checkout" tr).2 = TReadFile "/etc//shadow" :: tr ∧
  ¬ beneath "/srv/checkout" "/etc//shadow".
Proof.
  split.
  - unfold renderManifestFrom, renderPath, os_ReadFile, call, attempt_result, mbind, Prog_bind, mret, Prog_ret. simpl.
    by destruct (tl_read _).
  - intros (names & _ & Hc)%beneath_components; [|done]. assert (components "/etc//shadow" = ["shadow"; "etc"]) as He by done.
    rewrite He in Hc. change (components "/srv/checkout") with ["checkout"; "srv"] in Hc.
    assert (last ["shadow"; "etc"] = last (names ++ ["checkout"; "srv"])) as Hl by by rewrite Hc.
    by rewrite last_app in Hl.
Qed.

(** The subdirectory of a bundle is joined without a check: [..] leaves the
    directory it was fetched to. *)
Theorem bundle_path_leaves_the_bundle :
  path_join (tree_root "/tmp/rollops-oci-1" "../../etc") "passwd" = "/etc/passwd".
Proof. reflexivity. Qed.

(** A release name is an argument of its own: one that starts with dashes is an
    option of [helm]. *)
Theorem release_name_is_an_option tr :
  let h := [("chart", AString "chart"); ("releaseName", AString "--post-renderer=./run.sh")] in
  (renderHelmFrom h "/srv/checkout" tr).2 =
    TExec "helm" None ["template"; "--post-renderer=./run.sh"; "/srv/checkout/chart"] :: tr.
Proof.
  unfold renderHelmFrom, run, execRunner, call, attempt_result, mbind, Prog_bind, mret, Prog_ret. simpl.
  by destruct (pr_fail _).
Qed.

(** The image override sees the documents before a syntax error only, and
    renders as if the manifest ended there. *)
Theorem override_hides_a_syntax_error whole cut image :
  (tl_nodes whole).1 = (tl_nodes cut).1 → overrideContainerImage whole image = overrideContainerImage cut image.
Proof. unfold overrideContainerImage. by intros ->. Qed.

Lemma label_docs_error val docs e : ∃ e', label_docs val docs (Some e) = Err e'.
Proof.
  induction docs as [|[doc| |e'] docs [e'' IH]]; simpl; [by exists e|rewrite IH; by exists e''|by exists e''|by exists e'].
Qed.
End Escapes.

(** ** The commands of a cluster *)
Definition labelled (val : string) (doc : list (string * any)) : Prop :=
  ∃ meta labels, any_at doc "metadata" = Some (AMap meta) ∧ any_at meta "labels" = Some (AMap labels) ∧
    any_at labels PruneLabel = Some (AString val).

Lemma any_at_cons p m k : any_at (p :: m) k = if decide (p.1 = k) then Some p.2 else any_at m k.
Proof. unfold any_at. rewrite filter_cons. by case_decide. Qed.

Lemma any_at_set m k v : any_at (any_set m k v) k = Some v.
Proof.
  induction m as [|[k' v'] m IH]; simpl; [by rewrite any_at_cons, decide_True|].
  case_bool_decide; rewrite any_at_cons; simpl; [by rewrite decide_True|by rewrite decide_False].
Qed.

Lemma any_at_set_ne m k k' v : k' ≠ k → any_at (any_set m k v) k' = any_at m k'.
Proof.
  intros Hne. induction m as [|[k2 v2] m IH]; simpl; [by rewrite any_at_cons, decide_False|].
  case_bool_decide; rewrite !any_at_cons; simpl; [subst; by rewrite !decide_False|by rewrite IH].
Qed.

Lemma label_doc_labelled val doc : labelled val (label_doc val doc).
Proof. eexists _, _. unfold label_doc. by rewrite !any_at_set. Qed.

Lemma label_docs_labelled val docs end_err out : label_docs val docs end_err = Ok out → Forall (labelled val) out.
Proof.
  revert out. induction docs as [|[doc| |e] docs IH]; intros out; simpl; try done.
  - destruct end_err; [done|]. intros [= <-]. constructor.
  - destruct (label_docs val docs end_err) as [rest|]; [|done]. intros [= <-]. constructor; [apply label_doc_labelled|by apply IH].
  - by apply IH.
Qed.

(** Labelling touches [metadata.labels] only: the rest of a document, its
    selectors and pod template included, is what was declared. *)
Lemma label_doc_frame val doc k : k ≠ "metadata" → any_at (label_doc val doc) k = any_at doc k.
Proof. intros Hk. unfold label_doc. by rewrite any_at_set_ne. Qed.

Lemma flag_set name value : value ≠ "" → flag name value = [name; value].
Proof. intros Hv. unfold flag. by rewrite bool_decide_eq_false_2. Qed.

Lemma labelValue_nonempty ref : labelValue ref ≠ "".
Proof. unfold labelValue, label_end. by case_bool_decide. Qed.

Section Uses.
Context `{Tools}.

(** How a target uses [kubectl], by the arguments after the common ones. *)
Inductive kubectl_use (k : kubectlCluster) : option string → list string → Prop :=
| use_get path : HasPrefix path "-" = false → kubectl_use k None ["get"; kc_resource k; "-o"; path]
| use_pods ns selector : kubectl_use k None ["get"; "pods"; "-n"; ns; "-l"; selector; "-o"; pods_path]
| use_status wait : kubectl_use k None ["rollout"; "status"; kc_resource k; "--timeout=" +:+ wait]
| use_diff manifest : kubectl_use k (Some manifest) ["diff"; "-f"; "-"]
| use_dry_run docs out : Forall (labelled (kc_pruneVal k)) docs → tl_docs_out docs = Ok out →
    kubectl_use k (Some out) ["apply"; "--dry-run=server"; "-f"; "-"]
| use_apply docs out : Forall (labelled (kc_pruneVal k)) docs → tl_docs_out docs = Ok out →
    kubectl_use k (Some out) (["apply"; "-f"; "-"] ++ pruneArgs (kc_prune k) (kc_pruneVal k))
| use_annotate checksum :
    kubectl_use k None ["annotate"; "--overwrite"; kc_resource k; ChecksumAnnotation +:+ "=" +:+ checksum]
| use_reap : kc_reapOnDelete k = true → kc_pruneVal k ≠ "" →
    kubectl_use k None (reapArgs (kc_reapTypes k) (kc_pruneVal k)).

(** A use that asks questions only. *)
Definition harmless (args : list string) : Prop :=
  match args with
  | "get" :: _ | "rollout" :: "status" :: _ | "diff" :: _ | "apply" :: "--dry-run=server" :: _ => True
  | _ => False
  end.

(** The calls of a cluster, those of [P] among its uses. *)
Inductive used (k : kubectlCluster) (P : list string → Prop) : ToolCall → Prop :=
| used_kubectl stdin args : kubectl_use k stdin args → P args → used k P (TExec "kubectl" stdin (baseArgs k ++ args)).

Lemma labelManifest_labelled manifest val out :
  labelManifest manifest val = Ok out → ∃ docs, Forall (labelled val) docs ∧ tl_docs_out docs = Ok out.
Proof.
  unfold labelManifest. destruct (tl_docs manifest) as [docs end_err].
  destruct (label_docs val docs end_err) as [out'|] eqn:Hl; [|done]. intros Ho. exists out'.
  split; [by eapply label_docs_labelled|done].
Qed.

Section Cluster.
Context (k : kubectlCluster).
Let quiet := used k harmless.
Let all := used k (λ _, True).

Lemma kc_Preflight_issues manifest : issues quiet (kc_Preflight k manifest).
Proof.
  unfold kc_Preflight. destruct (labelManifest _ _) as [out|] eqn:Hl; [|apply issues_ret].
  apply labelManifest_labelled in Hl as (docs & Hd & Ho). unfold kc_run. issue. constructor; [by econstructor|done].
Qed.

Lemma kc_LiveChecksum_issues : issues quiet (kc_LiveChecksum k).
Proof. unfold kc_LiveChecksum, kc_run. issue. constructor; [by constructor|done]. Qed.
Lemma kc_LiveYAML_issues : issues quiet (kc_LiveYAML k).
Proof. unfold kc_LiveYAML, kc_run. issue. constructor; [by constructor|done]. Qed.
Lemma kc_Diff_issues manifest : issues quiet (kc_Diff k manifest).
Proof. unfold kc_Diff, kc_run. issue. all: constructor; [by constructor|done]. Qed.
Lemma kc_Healthy_issues : issues quiet (kc_Healthy k).
Proof. unfold kc_Healthy, rolloutWait, conditionHealthy, kc_run. issue. all: constructor; [by constructor|done]. Qed.
Lemma kc_Resources_issues : issues quiet (kc_Resources k).
Proof. unfold kc_Resources, pods, kc_run. issue. all: constructor; [by constructor|done]. Qed.

Lemma kc_Apply_issues manifest checksum : issues all (kc_Apply k manifest checksum).
Proof.
  unfold kc_Apply. destruct (labelManifest _ _) as [out|] eqn:Hl; [|apply issues_ret].
  apply labelManifest_labelled in Hl as (docs & Hd & Ho). unfold kc_run. issue.
  all: constructor; [|done]; by econstructor.
Qed.

Lemma kc_ReapTarget_issues : issues all (kc_ReapTarget k).
Proof.
  unfold kc_ReapTarget. destruct (kc_reapOnDelete k) eqn:Hr; simpl; [|apply issues_ret].
  case_bool_decide; [apply issues_ret|]. unfold kc_run. issue. constructor; [|done]. by constructor.
Qed.
End Cluster.
End Uses.

(** ** The operations of a target *)
Inductive KOp :=
| KPreflight (m : RawManifest)
| KApply (m : RawManifest)
| KObserve
| KDiff (m : RawManifest)
| KRender (m : RawManifest)
| KResources
| KReap
| KHealth.

(** A call that fetches or renders a source; it names no cluster. *)
Inductive renders : ToolCall → Prop :=
| rd_tool name stdin args : name ∈ ["helm"; "oras"; "aws"; "gsutil"] → renders (TExec name stdin args)
| rd_kustomize p : renders (TExec "kubectl" None ["kustomize"; p])
| rd_read p : renders (TReadFile p)
| rd_temp p : renders (TMkdirTemp p)
| rd_remove p : renders (TRemoveAll p).

Section Operations.
Context `{Tools}.

Definition kt_perform (t : KTarget) (op : KOp) : Prog ToolCall unit :=
  match op with
  | KPreflight m => kt_Preflight t m;; mret tt
  | KApply m => kt_Apply t m;; mret tt
  | KObserve => kt_Observe t;; mret tt
  | KDiff m => kt_Diff t m;; mret tt
  | KRender m => kt_Render m;; mret tt
  | KResources => kt_Resources t;; mret tt
  | KReap => kt_ReapTarget t;; mret tt
  | KHealth => kt_Health t;; mret tt
  end.

Lemma run_renders name stdin args : renders (TExec name stdin args) → issues renders (run name stdin args).
Proof. intros Hr. unfold run, execRunner. by issue. Qed.
Lemma tool_renders name stdin args : name ∈ ["helm"; "oras"; "aws"; "gsutil"] → issues renders (run name stdin args).
Proof. intros Hn. by apply run_renders, rd_tool. Qed.
Lemma read_renders p : issues renders (os_ReadFile p).
Proof. apply issues_call, rd_read. Qed.
Lemma temp_renders p : issues renders (os_MkdirTemp p).
Proof. apply issues_call, rd_temp. Qed.
Lemma remove_renders p : issues renders (os_RemoveAll p).
Proof. apply issues_call, rd_remove. Qed.
Lemma kustomize_renders p : issues renders (run "kubectl" None ["kustomize"; p]).
Proof. apply run_renders, rd_kustomize. Qed.

Ltac rendering :=
  repeat first [ apply tool_renders; by_decision | apply kustomize_renders | apply read_renders | apply temp_renders
               | apply remove_renders | issue_step ].

Lemma renderTree_renders root mode file src : issues renders (renderTree root mode file src).
Proof. unfold renderTree. rendering. Qed.
Lemma renderBucket_renders b : issues renders (renderBucket b).
Proof. unfold renderBucket. rendering; apply renderTree_renders. Qed.
Lemma renderOCI_renders o : issues renders (renderOCI o).
Proof. unfold renderOCI. rendering; apply renderTree_renders. Qed.
Lemma renderHelm_renders h : issues renders (renderHelm h).
Proof. unfold renderHelm. rendering. Qed.
Lemma renderHelmFrom_renders h root : issues renders (renderHelmFrom h root).
Proof. unfold renderHelmFrom. rendering. Qed.
Lemma runKustomize_renders root path : issues renders (runKustomize root path).
Proof. unfold runKustomize. rendering. Qed.
Lemma renderPath_renders root path : issues renders (renderPath root path).
Proof. unfold renderPath. rendering. Qed.

Lemma renderSource_renders spec root : issues renders (renderSource spec root).
Proof.
  unfold renderSource, renderManifestFrom, renderKustomize.
  repeat first [ apply renderPath_renders | apply runKustomize_renders | apply renderHelmFrom_renders
               | apply renderHelm_renders | apply renderBucket_renders | apply renderOCI_renders | issue_step ].
Qed.

Lemma manifestFromSpec_renders spec root : issues renders (manifestFromSpec spec root).
Proof.
  unfold manifestFromSpec. destruct (tl_json spec); [|apply issues_ret].
  unfold render. apply issues_result; [apply renderSource_renders|intros; apply issues_ret..].
Qed.

Lemma desiredManifest_renders m : issues renders (desiredManifest m).
Proof. unfold desiredManifest. case_bool_decide; [apply manifestFromSpec_renders|apply issues_ret]. Qed.

(** The operations that ask only. *)
Definition asks (op : KOp) : Prop := match op with KApply _ | KReap => False | _ => True end.
#[global] Instance asks_dec op : Decision (asks op).
Proof. destruct op; solve_decision. Defined.

(** A call of an operation: rendering, or a use of the target's cluster. *)
Definition operated (k : kubectlCluster) (P : list string → Prop) (c : ToolCall) : Prop := renders c ∨ used k P c.

Lemma issues_renders {A} k P (m : Prog ToolCall A) : issues renders m → issues (operated k P) m.
Proof. apply issues_mono. by left. Qed.
Lemma issues_used {A} k P (m : Prog ToolCall A) : issues (used k P) m → issues (operated k P) m.
Proof. apply issues_mono. by right. Qed.
Lemma used_any k P c : used k P c → used k (λ _, True) c.
Proof. intros [stdin args Hu _]. by constructor. Qed.
Lemma issues_any {A} k (m : Prog ToolCall A) : issues (used k harmless) m → issues (used k (λ _, True)) m.
Proof. apply issues_mono, used_any. Qed.

Lemma asking_issues k ignore op :
  asks op → issues (operated k harmless) (kt_perform {| kt_cl := kubectl_cluster k; kt_ignore := ignore |} op).
Proof.
  destruct op; simpl; intros []; apply issues_fmap;
    unfold kt_Preflight, kt_Observe, kt_Diff, kt_Render, kt_Resources, kt_Health; simpl;
    repeat first [ apply issues_renders, desiredManifest_renders | apply issues_renders, manifestFromSpec_renders
                 | apply issues_used, kc_Preflight_issues | apply issues_used, kc_LiveChecksum_issues
                 | apply issues_used, kc_LiveYAML_issues | apply issues_used, kc_Diff_issues
                 | apply issues_used, kc_Healthy_issues | apply issues_used, kc_Resources_issues | issue_step ].
Qed.

Lemma applying_issues k ignore m :
  issues (operated k (λ _, True)) (kt_Apply {| kt_cl := kubectl_cluster k; kt_ignore := ignore |} m).
Proof.
  unfold kt_Apply, apply_and_stamp; simpl.
  repeat first [ apply issues_renders, desiredManifest_renders | apply issues_used, kc_Apply_issues
               | apply issues_used, issues_any, kc_LiveChecksum_issues | apply issues_used, issues_any, kc_Diff_issues
               | issue_step ].
Qed.

Lemma perform_issues k ignore op :
  issues (operated k (λ _, True)) (kt_perform {| kt_cl := kubectl_cluster k; kt_ignore := ignore |} op).
Proof.
  destruct (decide (asks op)) as [Ha|Ha].
  - eapply issues_mono; [|by apply asking_issues]. intros c [Hr|Hu]; [by left|right; by eapply used_any].
  - destruct op; try by destruct Ha.
    + apply issues_fmap, applying_issues.
    + apply issues_fmap, issues_used, kc_ReapTarget_issues.
Qed.

(** The cluster a configured target acts on. *)
Lemma newTarget_spec cfg conf tr t tr' :
  newTarget cfg conf tr = (Ok t, tr') →
  ∃ k, t = {| kt_cl := kubectl_cluster k; kt_ignore := parseIgnore (Config.tg_Spec cfg) |} ∧
    kc_namespace k ≠ "" ∧ CheckNamespace conf (kc_namespace k) = None ∧
    (cf_confineCluster conf = true → kc_kubeconfig k = "" ∧ kc_context k = "") ∧
    kc_pruneVal k = labelValue (Config.tg_Ref cfg) ∧
    kc_reapOnDelete k = spec_bool (Config.tg_Spec cfg) "reapOnDelete" ∧
    kc_prune k = spec_bool (Config.tg_Spec cfg) "prune" ∧
    kc_reapTypes k = spec_strSlice (Config.tg_Spec cfg) "reapTypes" ∧
    kc_resource k = spec_str (Config.tg_Spec cfg) "resource".
Proof.
  unfold newTarget. case_bool_decide; [done|]. unfold attempt_result, mbind, Prog_bind, newKubectl.
  set (ns := if _ == "" then _ else _). assert (ns ≠ "") as Hns by (unfold ns; by case_bool_decide).
  destruct (CheckNamespace conf ns) eqn:Hc; [done|]. unfold mbind at 1, Prog_bind.
  match goal with |- context [if cf_confineCluster conf && ?b then ?x else ?y] =>
    destruct ((if cf_confineCluster conf && b then x else y) tr) as [u tr1] end.
  unfold mret, Prog_ret. intros [= <- <-].
  eexists. split; [done|]. simpl. split_and!; try done. by intros ->.
Qed.

(** The words a target itself passes that start with a dash. *)
Definition own_words : list string :=
  ["-f"; "-"; "-o"; "--overwrite"; "--dry-run=server"; "--prune"; "--selector"; "--ignore-not-found"].

(** No word of the arguments is an option but the target's own ones, none of
    which chooses a cluster, credentials or a namespace. *)
Definition chooses_nothing (args : list string) : Prop :=
  ∀ a, a ∈ args → HasPrefix a "-" = true → a ∈ own_words ∨ HasPrefix a "--timeout=" = true.

(** The resource and the types to reap that are declared are no options. *)
Definition declares_words (spec : gmap string any) : Prop :=
  HasPrefix (spec_str spec "resource") "-" = false ∧ HasPrefix (Join (spec_strSlice spec "reapTypes") ",") "-" = false.

Lemma use_chooses_nothing k stdin args :
  HasPrefix (kc_resource k) "-" = false → HasPrefix (Join (kc_reapTypes k) ",") "-" = false → kubectl_use k stdin args →
  chooses_nothing args ∨ ∃ ns selector, args = ["get"; "pods"; "-n"; ns; "-l"; selector; "-o"; pods_path].
Proof.
  intros Hres Hty Hu. assert (∀ l, forallb (λ a, negb (HasPrefix a "-") || bool_decide (a ∈ own_words) || HasPrefix a "--timeout=") l = true →
    chooses_nothing l) as Hb.
  { intros l Hl a Hin Hd. rewrite forallb_forall in Hl. specialize (Hl a (proj1 (list_elem_of_In _ _) Hin)). rewrite Hd in Hl.
    apply orb_true_iff in Hl as [Hl|Hl]; [left|by right]. by apply bool_decide_eq_true_1 in Hl. }
  assert (∀ a b, HasPrefix (a +:+ b) a = true) as Hpre by apply HasPrefix_app.
  destruct Hu; [left; apply Hb; cbn [forallb]|right; eauto|left; apply Hb; cbn [forallb]..|].
  - rewrite Hres, H0. by vm_compute.
  - rewrite Hres, Hpre. by rewrite !orb_true_r.
  - by vm_compute.
  - by vm_compute.
  - unfold pruneArgs. destruct (kc_prune k); by vm_compute.
  - rewrite Hres. change (HasPrefix (ChecksumAnnotation +:+ "=" +:+ checksum) "-") with false. by vm_compute.
  - left. apply Hb. unfold reapArgs. cbn [forallb].
    assert (HasPrefix (Join (match kc_reapTypes k with [] => defaultReapTypes | _ => kc_reapTypes k end) ",") "-" = false) as ->
      by (destruct (kc_reapTypes k); [done|exact Hty]).
    change (HasPrefix (PruneLabel +:+ "=" +:+ kc_pruneVal k) "-") with false. by vm_compute.
Qed.


(** What is declared as the resource reaches [kubectl] as it is: confined to one
    namespace and to the daemon's credentials, a target whose resource is an
    option passes it on. *)
Theorem declared_option_is_passed_on conf ns option_ tr :
  CheckNamespace conf ns = None → ns ≠ "" → option_ ≠ "" →
  let spec : gmap string any := {[ "resource" := AString option_; "namespace" := AString ns ]} in
  let cfg := {| Config.tg_Kind := "kubernetes"; Config.tg_Ref := "web"; Config.tg_Criticality := ""; Config.tg_Env := "";
                Config.tg_Spec := spec |} in
  ∃ t, newTarget cfg conf tr = (Ok t, tr) ∧
    (kt_perform t KObserve tr).2 = TExec "kubectl" None ["-n"; ns; "get"; option_; "-o"; checksum_path] :: tr.
Proof.
  intros Hns Hne Ho spec cfg. unfold newTarget. cbn [Config.tg_Spec cfg].
  assert (spec_str spec "resource" = option_) as Hr by done. assert (spec_str spec "namespace" = ns) as Hn by done.
  rewrite Hr, bool_decide_false by done. unfold newKubectl. rewrite Hn, Hr, (bool_decide_false (ns = "")), Hns by done.
  change (spec_str spec "kubeconfig") with "". change (spec_str spec "context") with "".
  rewrite !(bool_decide_true ("" = "")) by done. cbn [negb orb]. rewrite andb_false_r.
  eexists. split; [reflexivity|]. cbn [kt_perform kt_Observe]. unfold kt_Observe. cbn [kt_cl kubectl_cluster].
  unfold attempt_result, mbind, Prog_bind, mret, Prog_ret. cbn. unfold kc_LiveChecksum, kc_run, call, mbind, Prog_bind, mret, Prog_ret.
  unfold baseArgs. cbn [kc_kubeconfig kc_context kc_namespace kc_resource]. rewrite (flag_set "-n") by done.
  destruct (cf_confineCluster conf); cbn; repeat case_match; by simplify_eq.
Qed.

(** C14. Everything but an apply and a reap leaves the cluster alone: such an
    operation renders, reads, diffs and asks for server-side dry runs.  An apply
    sends objects that all carry the label of the target's own reference, with
    pruning limited to that label, and then stamps the declared resource; a reap
    is one [kubectl delete] limited to that label, of a target that opted in. *)
Theorem changes_are_the_targets_own cfg conf tr0 t tr1 op tr c :
  newTarget cfg conf tr0 = (Ok t, tr1) →
  c ∈ (kt_perform t op tr).2 → c ∉ tr → ¬ renders c →
  let own := labelValue (Config.tg_Ref cfg) in
  let spec := Config.tg_Spec cfg in
  ∃ base stdin args, c = TExec "kubectl" stdin (base ++ args) ∧
    (harmless args ∨
     (∃ docs out, stdin = Some out ∧ tl_docs_out docs = Ok out ∧ Forall (labelled own) docs ∧
        args = ["apply"; "-f"; "-"] ++ pruneArgs (spec_bool spec "prune") own) ∨
     (∃ checksum, args = ["annotate"; "--overwrite"; spec_str spec "resource"; ChecksumAnnotation +:+ "=" +:+ checksum]) ∨
     (spec_bool spec "reapOnDelete" = true ∧ own ≠ "" ∧ args = reapArgs (spec_strSlice spec "reapTypes") own)) ∧
    (asks op → harmless args).
Proof.
  intros (k & -> & _ & _ & _ & Hl & Hr & Hp & Ht & Hres)%newTarget_spec Hc Htr Hrd own spec.
  unfold own, spec. rewrite <- Hl, <- Hr, <- Hp, <- Ht, <- Hres.
  destruct (decide (asks op)) as [Ha|Ha].
  { destruct (issues_trace _ _ _ _ (asking_issues k _ op Ha) Hc) as [?|[?|[stdin args _ Hh]]]; [done|done|].
    exists (baseArgs k), stdin, args. split_and!; [done|by left|done]. }
  destruct (issues_trace _ _ _ _ (perform_issues k _ op) Hc) as [?|[?|[stdin args Hu _]]]; [done|done|].
  exists (baseArgs k), stdin, args. split_and!; [done| |done].
  destruct Hu as [| | | | |docs out Hd Ho|checksum|]; [by left..| | |].
  - right. left. by exists docs, out.
  - right. right. left. by exists checksum.
  - right. right. by right.
Qed.
End Operations.

Module KubeDemo.

(** Tools that succeed with fixed outputs. *)
#[export] Instance tools : Tools := {|
  tl_exec _ := {| pr_out := "sum-1"; pr_err := ""; pr_fail := None |};
  tl_read _ := Ok "kind: Deployment";
  tl_mkdir _ := Ok "/tmp/rollops-oci-1";
  tl_json s := if s == "{}" then Some {[ "manifestFrom" := AMap [("path", AString "app.yaml")] ]} else None;
  tl_docs raw :=
    if raw == "broken" then ([], Some (Errorf "yaml: line 2"))
    else if raw == "ingress" then
      ([DDoc [("kind", AString "Ingress");
              ("metadata", AMap [("name", AString "web"); ("annotations",
                 AMap [(TraefikRouterMiddlewaresAnnotation, AString "auth@kubernetescrd")])])]], None)
    else ([DDoc [("kind", AString "Deployment")]], None);
  tl_docs_out _ := Ok "labelled";
  tl_nodes raw := ([], if raw == "broken" then Some (Errorf "yaml: line 2") else None);
  tl_nodes_out _ := Ok "";
  tl_nodes_close _ := None;
  tl_yaml raw :=
    if raw == "live" then Ok (AMap [("metadata", AMap [("labels", AMap [(PruneLabel, AString "web")])]); ("replicas", AInt 3)])
    else Ok (AMap [("replicas", AInt 2)]);
  tl_marshal _ := Ok "";
  tl_conditions _ := Ok [];
  tl_labels _ := Ok ∅ |}.

Definition cfg : Config.Target :=
  {| Config.tg_Kind := "kubernetes"; Config.tg_Ref := "web"; Config.tg_Criticality := ""; Config.tg_Env := "";
     Config.tg_Spec := {[ "resource" := AString "deployment/web"; "namespace" := AString "team-a";
                          "kubeconfig" := AString "/repo/kubeconfig"; "reapOnDelete" := ABool true ]} |}.
Definition conf : Confinement :=
  {| cf_commands := {| as_enabled := false; as_values := ∅ |};
     cf_namespaces := {| as_enabled := true; as_values := {["team-a"]} |};
     cf_confineCluster := true; cf_allowedEnv := [] |}.
Definition manifest : RawManifest :=
  {| rm_Kind := "kubernetes"; rm_Spec := "raw"; rm_Checksum := "sum-2"; rm_Root := ""; rm_Rendered := "" |}.

Definition observe_call : ToolCall := TExec "kubectl" None ["-n"; "team-a"; "get"; "deployment/web"; "-o"; checksum_path].
Definition reap_call : ToolCall :=
  TExec "kubectl" None ["-n"; "team-a"; "delete"; "all"; "--selector"; "rollops.klarlabs.de/target=web"; "--ignore-not-found"].



Lemma changes_are_the_targets_own_witness :
  ∃ base stdin args, reap_call = TExec "kubectl" stdin (base ++ args) ∧
    (harmless args ∨
     (∃ docs out, stdin = Some out ∧ tl_docs_out docs = Ok out ∧ Forall (labelled "web") docs ∧
        args = ["apply"; "-f"; "-"] ++ pruneArgs false "web") ∨
     (∃ checksum, args = ["annotate"; "--overwrite"; "deployment/web"; ChecksumAnnotation +:+ "=" +:+ checksum]) ∨
     (true = true ∧ "web" ≠ "" ∧ args = reapArgs [] "web")) ∧
    (asks KReap → harmless args).
Proof.
  eapply (changes_are_the_targets_own cfg conf [] _ _ KReap []); [reflexivity|vm_compute; left|apply not_elem_of_nil|].
  intros Hr. inversion Hr as [? ? ? Hn| | | |]. revert Hn. by_decision.
Defined.
End KubeDemo.
