(* ===== verification/KubeVerdicts.v ===== *)
(** * What the kubernetes target reports

    When an apply is reported as done or as not needed, what a failing [kubectl]
    reads as, why ignored differences have no effect on what rollops applied,
    and the exact set of middleware warnings. *)

From S2P Require Import Prelude Encoding Config Model Security World ImageSelect Git Reap ConfigLoad Process.
From S2P Require Import KubeRender KubeCluster KubeTarget KubeSafety.

Ltac run_prog := unfold attempt_result, attempt_error, mbind, Prog_bind, mret, Prog_ret, call in *.

Section Reports.
Context `{Tools} (k : kubectlCluster) (ignore : list string).

#[local] Notation t := {| kt_cl := kubectl_cluster k; kt_ignore := ignore |}.

(** The commands of an apply. *)
Definition read_stamp : ToolCall := TExec "kubectl" None (baseArgs k ++ ["get"; kc_resource k; "-o"; checksum_path]).
Definition diff_of (manifest : string) : ToolCall :=
  TExec "kubectl" (Some (match labelManifest manifest (kc_pruneVal k) with Ok l => l | Err _ => manifest end))
        (baseArgs k ++ ["diff"; "-f"; "-"]).
Definition apply_of (labeled : string) : ToolCall :=
  TExec "kubectl" (Some labeled) (baseArgs k ++ ["apply"; "-f"; "-"] ++ pruneArgs (kc_prune k) (kc_pruneVal k)).
Definition stamp_of (checksum : string) : ToolCall :=
  TExec "kubectl" None (baseArgs k ++ ["annotate"; "--overwrite"; kc_resource k; ChecksumAnnotation +:+ "=" +:+ checksum]).

(** The manifest was applied, and then the stamp was set. *)
Definition applied (manifest checksum : string) (tr tr' : list ToolCall) : Prop :=
  ∃ labeled, labelManifest manifest (kc_pruneVal k) = Ok labeled ∧
    tr' = stamp_of checksum :: apply_of labeled :: tr ∧
    pr_fail (tl_exec (apply_of labeled :: tr)) = None ∧ pr_fail (tl_exec tr') = None.

Lemma apply_and_stamp_ok manifest checksum tr res tr' :
  apply_and_stamp t manifest checksum tr = (Ok res, tr') → re_Changed res = true ∧ applied manifest checksum tr tr'.
Proof.
  unfold apply_and_stamp, kc_Apply; simpl. run_prog. unfold kc_Apply.
  destruct (labelManifest manifest (kc_pruneVal k)) as [labeled|] eqn:Hl; [|done].
  unfold kc_run. run_prog. simpl.
  destruct (pr_fail (tl_exec (_ :: tr))) as [e|] eqn:Ha; [done|]. simpl.
  destruct (pr_fail (tl_exec (_ :: _ :: tr))) as [e|] eqn:Hs; [done|]. simpl. intros [= <- <-].
  split; [done|]. by exists labeled.
Qed.

(** The live stamp is the wanted one, and a diff of the labelled manifest ran
    without an error and showed nothing. *)
Definition in_sync (manifest checksum : string) (tr tr' : list ToolCall) : Prop :=
  checksum ≠ "" ∧ tr' = diff_of manifest :: read_stamp :: tr ∧
  pr_fail (tl_exec (read_stamp :: tr)) = None ∧ TrimSpace (pr_out (tl_exec (read_stamp :: tr))) = checksum ∧
  (pr_fail (tl_exec tr') = None ∨ ∃ text, pr_fail (tl_exec tr') = Some (PExit 1 text)) ∧
  TrimSpace (pr_out (tl_exec tr')) = "".

Lemma kc_Diff_blank manifest tr d tr' :
  kc_Diff k manifest tr = (Ok d, tr') → TrimSpace d = "" →
  tr' = diff_of manifest :: tr ∧
  (pr_fail (tl_exec tr') = None ∨ ∃ text, pr_fail (tl_exec tr') = Some (PExit 1 text)) ∧
  TrimSpace (pr_out (tl_exec tr')) = "".
Proof.
  unfold kc_Diff, kc_run. run_prog. simpl. fold (diff_of manifest).
  destruct (pr_fail (tl_exec (diff_of manifest :: tr))) as [e|] eqn:Hf; simpl.
  - case_bool_decide as He; [|done]. destruct e as [code text|]; simpl in He; [|done]. injection He as ->.
    intros [= <- <-]. case_bool_decide; intros; rewrite Hf; by eauto.
  - intros [= <- <-]. case_bool_decide; intros; rewrite Hf; by eauto.
Qed.

Lemma kc_Diff_trace manifest tr : (kc_Diff k manifest tr).2 = diff_of manifest :: tr.
Proof. unfold kc_Diff, kc_run. by run_prog. Qed.

Lemma kc_LiveChecksum_trace tr : (kc_LiveChecksum k tr).2 = read_stamp :: tr.
Proof. unfold kc_LiveChecksum, kc_run. by run_prog. Qed.

Lemma kc_LiveChecksum_ok tr c tr' :
  kc_LiveChecksum k tr = (Ok c, tr') → c ≠ "" →
  pr_fail (tl_exec (read_stamp :: tr)) = None ∧ TrimSpace (pr_out (tl_exec (read_stamp :: tr))) = c.
Proof.
  unfold kc_LiveChecksum, kc_run. run_prog. simpl. fold read_stamp.
  destruct (pr_fail _) as [e|]; simpl; [|by intros [= <- <-]].
  destruct (isNotFound _); by intros [= <- <-].
Qed.

(** C15. An apply reports a change only after the manifest was applied and the stamp
    set, each by a command that succeeded, and reports that nothing was needed
    only when the live stamp is the wanted one and a diff that did not fail was
    blank.  A matching stamp alone is never trusted. *)
Theorem apply_answer_is_earned m tr res tr' :
  kt_Apply t m tr = (Ok res, tr') →
  ∃ manifest tr1, desiredManifest m tr = (Ok manifest, tr1) ∧
    if re_Changed res then ∃ tr2, applied manifest (rm_Checksum m) tr2 tr'
    else in_sync manifest (rm_Checksum m) tr1 tr'.
Proof.
  unfold kt_Apply. run_prog. destruct (desiredManifest m tr) as [[manifest|] tr1]; [|done]. intros Hrun.
  exists manifest, tr1. split; [done|].
  change (cl_LiveChecksum (kt_cl t)) with (kc_LiveChecksum k) in Hrun.
  change (cl_Diff (kt_cl t) manifest) with (kc_Diff k manifest) in Hrun.
  assert (∀ tr2, apply_and_stamp t manifest (rm_Checksum m) tr2 = (Ok res, tr') →
    if re_Changed res then ∃ tr2, applied manifest (rm_Checksum m) tr2 tr' else in_sync manifest (rm_Checksum m) tr1 tr') as Hdo.
  { intros tr2 [-> Ha]%apply_and_stamp_ok. by exists tr2. }
  pose proof (kc_LiveChecksum_trace tr1) as Htr.
  destruct (kc_LiveChecksum k tr1) as [cur tr2] eqn:Hc. simpl in Htr. subst tr2.
  case_bool_decide as Heq; [|by eapply Hdo]. case_bool_decide as Hne; [by eapply Hdo|].
  change (true && negb false) with true in Hrun. cbv iota beta in Hrun.
  destruct cur as [c|]; [|by subst]. subst c.
  destruct (kc_Diff k manifest (read_stamp :: tr1)) as [[d|] tr3] eqn:Hd; [|by eapply Hdo].
  case_bool_decide as Hb; [|by eapply Hdo]. injection Hrun as <- <-.
  apply kc_Diff_blank in Hd as (-> & Hf & Ho); [|done]. apply kc_LiveChecksum_ok in Hc as [? ?]; [|done]. by split_and!.
Qed.

(** *** A cluster that does not answer *)
Lemma Contains_here s sub : HasPrefix s sub = true → Contains s sub = true.
Proof. intros Hs. destruct s; unfold Contains; by rewrite Hs. Qed.

Lemma Contains_spec s sub : Contains s sub = true ↔ ∃ a b, s = a +:+ sub +:+ b.
Proof.
  split.
  - induction s as [|c s IH]; intros [Hs|Hs]%orb_true_iff; try done;
      try by (apply HasPrefix_spec in Hs as [b Hb]; exists "", b).
    destruct (IH Hs) as (a & b & ->). by exists (String c a), b.
  - intros (a & b & ->). induction a as [|c a IH]; [by apply Contains_here, (HasPrefix_app sub b)|].
    change (HasPrefix (String c (a +:+ sub +:+ b)) sub || Contains (a +:+ sub +:+ b) sub = true). by rewrite IH, orb_true_r.
Qed.

Lemma Contains_app a s b sub : Contains s sub = true → Contains (a +:+ s +:+ b) sub = true.
Proof.
  rewrite !Contains_spec. intros (x & y & ->). exists (a +:+ x), (y +:+ b). by rewrite <- !str_app_assoc.
Qed.

(** What the error of a failed [kubectl] says: its arguments, how the process ended
    and what it printed. *)
Definition message (args : list string) (e : procErr) (p : Proc) : string :=
  "kubectl " +:+ Join args " " +:+ ": " +:+ err_str (proc_err e) +:+ ": " +:+ TrimSpace (pr_err p).
Definition shows (msg sign : string) : Prop := ∃ a b, msg = a +:+ sign +:+ b.

(** The signs of a server that did not answer. *)
Definition no_answer (msg : string) : Prop :=
  shows msg "Unable to connect to the server" ∨ shows msg "The connection to the server" ∨ shows msg "connection refused" ∨
  shows msg "i/o timeout" ∨ shows msg "TLS handshake timeout" ∨ shows msg "(ServiceUnavailable)" ∨
  shows msg "(InternalError)" ∨ shows msg "the server is currently unable to handle the request".

Lemma run_message args e p :
  err_str (Wrap ("kubectl " +:+ Join args " " +:+ ": ") (proc_err e) (": " +:+ TrimSpace (pr_err p))) = message args e p.
Proof. unfold message. cbn [err_str]. by rewrite <- !str_app_assoc. Qed.

Lemma isUnreachable_iff er : isUnreachable er = true ↔ no_answer (err_str er).
Proof.
  unfold isUnreachable, no_answer, shows. rewrite existsb_exists. unfold unreachableMarkers. split.
  - intros (m & Hin & Hm%Contains_spec). cbn [In] in Hin. naive_solver.
  - intros Hs. repeat destruct Hs as [Hs|Hs]; (eexists; split; [|apply Contains_spec; exact Hs]); cbn [In]; tauto.
Qed.

Lemma isNotFound_iff er : isNotFound er = true ↔ shows (err_str er) "(NotFound)".
Proof. apply Contains_spec. Qed.

Definition healthy_or (v : bool * string) : HealthStatus :=
  if v.1 then {| hs_State := HealthHealthy; hs_Reason := "" |} else {| hs_State := HealthUnhealthy; hs_Reason := v.2 |}.

(** The health check ends with one command, whose answer [q] decides. *)
Definition health_of (args : list string) (out : string) : HealthStatus :=
  match args with "rollout" :: _ => healthy_or (true, "") | _ => healthy_or (evalConditions out (kc_healthCond k)) end.

Lemma health_decided args (q : Proc) tr1 r :
  (r = match pr_fail q with
       | Some e => if isUnreachable (Wrap ("kubectl " +:+ Join args " " +:+ ": ") (proc_err e) (": " +:+ TrimSpace (pr_err q)))
                   then Err (Wrap "kubernetes: health: " (Wrap ("kubectl " +:+ Join args " " +:+ ": ") (proc_err e) (": " +:+ TrimSpace (pr_err q))) "")
                   else Ok (healthy_or (false, TrimSpace (pr_out q)))
       | None => Ok (health_of args (pr_out q))
       end) → tl_exec tr1 = q →
  match pr_fail q with
  | None => r = Ok (health_of args (pr_out q))
  | Some e => (no_answer (message args e q) → ∃ er, r = Err er) ∧
              (¬ no_answer (message args e q) → r = Ok {| hs_State := HealthUnhealthy; hs_Reason := TrimSpace (pr_out q) |})
  end.
Proof.
  intros -> _. destruct (pr_fail q) as [e|]; [|done]. rewrite <- run_message, <- isUnreachable_iff.
  destruct (isUnreachable _); split; intros; by eauto || done.
Qed.

(** C16. A cluster that did not answer gives no verdict.  A stamp that was read is
    what [kubectl] printed; one that could not be read is absent exactly when the
    message says [(NotFound)], and an error otherwise.  A health check ends with one
    command: when it succeeded, it decides; when it failed with one of the eight
    signs of a server that cannot be reached in its message, there is an error and
    no verdict; and every other failure - also of a [kubectl] that could not be
    started, which [missing_kubectl_reads_unhealthy] shows - reads as unhealthy. *)
Theorem no_answer_no_verdict tr :
  let read := ["get"; kc_resource k; "-o"; checksum_path] in
  let p := tl_exec (TExec "kubectl" None (baseArgs k ++ read) :: tr) in
  let '(health, tr') := kt_Health t tr in
  match pr_fail p with
  | None => (kt_Observe t tr).1 = Ok (TrimSpace (pr_out p))
  | Some e => (shows (message read e p) "(NotFound)" → (kt_Observe t tr).1 = Ok "") ∧
              (¬ shows (message read e p) "(NotFound)" → ∃ er, (kt_Observe t tr).1 = Err er)
  end ∧
  ∃ args tr1, tr' = TExec "kubectl" None (baseArgs k ++ args) :: tr1 ∧
    match pr_fail (tl_exec tr') with
    | None => health = Ok (health_of args (pr_out (tl_exec tr')))
    | Some e => (no_answer (message args e (tl_exec tr')) → ∃ er, health = Err er) ∧
                (¬ no_answer (message args e (tl_exec tr')) →
                   health = Ok {| hs_State := HealthUnhealthy; hs_Reason := TrimSpace (pr_out (tl_exec tr')) |})
    end.
Proof.
  intros read p. destruct (kt_Health t tr) as [health tr'] eqn:Hh. split.
  - unfold kt_Observe; simpl. run_prog. unfold kc_LiveChecksum, kc_run. run_prog. cbn [fst snd].
    fold read p. destruct (pr_fail p) as [e|]; cbn [fmap option_fmap option_map ce_err]; [|done]. rewrite <- run_message, <- isNotFound_iff.
    destruct (isNotFound _); naive_solver.
  - revert Hh. unfold kt_Health; simpl. run_prog. unfold kc_Healthy. destruct (_ && _).
    + unfold rolloutWait, kc_run. run_prog. cbn [fst snd].
      set (wait := pretty _ +:+ "s"). set (args := ["rollout"; "status"; kc_resource k; "--timeout=" +:+ wait]).
      set (tr1 := TExec "kubectl" None (baseArgs k ++ args) :: _). intros Hh. exists args.
      eexists. split; [by destruct (pr_fail (tl_exec tr1)); cbn [fmap option_fmap option_map ce_err] in Hh; [destruct (isUnreachable _)|]; injection Hh as _ <-|].
      assert (tr' = tr1) as -> by (by destruct (pr_fail (tl_exec tr1)); cbn [fmap option_fmap option_map ce_err] in Hh; [destruct (isUnreachable _)|]; injection Hh as _ <-).
      eapply (health_decided args (tl_exec tr1) tr1); [|done].
      destruct (pr_fail (tl_exec tr1)); cbn [fmap option_fmap option_map ce_err] in Hh |- *; [destruct (isUnreachable _)|]; by injection Hh as <-.
    + unfold conditionHealthy, kc_run. run_prog. cbn [fst snd].
      set (args := ["get"; kc_resource k; "-o"; _]). set (tr1 := TExec "kubectl" None (baseArgs k ++ args) :: _). intros Hh. exists args.
      eexists. split; [by destruct (pr_fail (tl_exec tr1)); cbn [fmap option_fmap option_map ce_err] in Hh; [destruct (isUnreachable _)|]; injection Hh as _ <-|].
      assert (tr' = tr1) as -> by (by destruct (pr_fail (tl_exec tr1)); cbn [fmap option_fmap option_map ce_err] in Hh; [destruct (isUnreachable _)|]; injection Hh as _ <-).
      eapply (health_decided args (tl_exec tr1) tr1); [|done].
      destruct (pr_fail (tl_exec tr1)); cbn [fmap option_fmap option_map ce_err] in Hh |- *; [destruct (isUnreachable _)|]; by injection Hh as <-.
Qed.
End Reports.

(** ** Ignored differences *)

(** The value below a chain of keys. *)
Fixpoint at_path (v : any) (keys : list string) : option any :=
  match keys with
  | [] => Some v
  | key :: keys => match v with AMap m => any_at m key ≫= λ v, at_path v keys | _ => None end
  end.

Lemma any_at_del_ne m k k' : k' ≠ k → any_at (any_del m k) k' = any_at m k'.
Proof.
  intros Hne. induction m as [|[k2 v2] m IH]; [done|]. unfold any_del in *. rewrite filter_cons, any_at_cons. simpl.
  case_decide; simpl; [by rewrite any_at_cons, IH|]. rewrite decide_False by congruence. done.
Qed.

Lemma any_at_del m k : any_at (any_del m k) k = None.
Proof.
  unfold any_at, any_del. rewrite list_filter_filter. by rewrite filter_none by (apply Forall_forall; intros; simpl; tauto).
Qed.

Lemma any_at_map m key (f : any → any) k :
  any_at ((λ kv, if kv.1 == key then (kv.1, f kv.2) else kv) <$> m) k = (if decide (k = key) then f else id) <$> any_at m k.
Proof.
  induction m as [|[k2 v2] m IH]; [done|]. rewrite fmap_cons, !any_at_cons, IH. simpl.
  case_bool_decide; simpl; repeat case_decide; subst; simpl; try done.
Qed.

(** Deleting at a pointer keeps what does not lie below it. *)
Lemma deleteAt_keeps v parts keys x :
  ¬ (parts `prefix_of` keys) → at_path v keys = Some x → ∃ x', at_path (deleteAt v parts) keys = Some x'.
Proof.
  revert v keys x. induction parts as [|p parts IH]; intros v keys x Hpre Hx; [by exfalso; apply Hpre, prefix_nil|].
  destruct keys as [|key keys]; [by eexists|]. simpl in Hx. destruct v as [| | | | | |m]; try done.
  destruct (any_at m key) as [y|] eqn:Hy; [|done]. simpl in Hx.
  destruct parts as [|p' parts]; simpl.
  - rewrite any_at_del_ne; [rewrite Hy; by eexists|]. intros <-. apply Hpre. by exists keys.
  - rewrite (any_at_map m p (λ v, deleteAt v (p' :: parts))), Hy. simpl. case_decide; simpl; [subst|by eexists].
    eapply IH; [|done]. intros Hp. by apply Hpre, prefix_cons.
Qed.

(** Deleting adds nothing. *)
Lemma deleteAt_adds_nothing v parts keys : at_path v keys = None → at_path (deleteAt v parts) keys = None.
Proof.
  revert v keys. induction parts as [|p parts IH]; intros v keys Hx; [done|].
  destruct keys as [|key keys]; [done|]. simpl in Hx. destruct v as [| | | | |l|m]; try by destruct parts.
  - destruct parts; simpl; [done|]. by repeat case_match.
  - destruct parts as [|p' parts]; simpl.
    + destruct (decide (key = p)) as [->|Hne]; [by rewrite any_at_del|by rewrite any_at_del_ne].
    + rewrite (any_at_map m p (λ v, deleteAt v (p' :: parts))). destruct (any_at m key) as [y|]; [|done]. simpl in *.
      case_decide; simpl; [by apply IH|done].
Qed.

Lemma deepEqual_map m m' : deepEqual (AMap m) (AMap m') = true →
  ∀ k v, any_at m k = Some v → ∃ v', any_at m' k = Some v' ∧ deepEqual v v' = true.
Proof.
  simpl. intros [_ Hall]%andb_prop k v. induction m as [|[k2 v2] m IH]; [done|].
  apply andb_prop in Hall as [Hv Hall]. rewrite any_at_cons. simpl. case_decide; [|by apply IH].
  intros [= <-]. subst. destruct (any_at m' k) as [v'|]; [by exists v'|done].
Qed.

Lemma deepEqual_at keys : ∀ v v' x, deepEqual v v' = true → at_path v keys = Some x → ∃ x', at_path v' keys = Some x'.
Proof.
  induction keys as [|key keys IH]; intros v v' x He Hx; [by eexists|]. simpl in *.
  destruct v as [| | | | | |m]; try done. destruct v' as [| | | | | |m']; try done.
  destruct (any_at m key) as [y|] eqn:Hy; [|done]. simpl in Hx.
  destruct (deepEqual_map _ _ He _ _ Hy) as (y' & -> & Hd). simpl. by eapply IH.
Qed.

Definition strip_all (v : any) (ptrs : list string) : any := foldl (λ v p, deleteAt v (pointerParts p)) v ptrs.

Lemma strip_keeps ptrs keys : (∀ p, p ∈ ptrs → ¬ (pointerParts p `prefix_of` keys)) →
  ∀ v x, at_path v keys = Some x → ∃ x', at_path (strip_all v ptrs) keys = Some x'.
Proof.
  induction ptrs as [|p ptrs IH]; intros Hp v x Hx; [by eexists|]. simpl.
  destruct (deleteAt_keeps v (pointerParts p) keys x) as [x' Hx']; [apply Hp; constructor|done|].
  eapply IH; [|exact Hx']. intros q Hq. apply Hp. by constructor.
Qed.

Lemma strip_adds_nothing ptrs keys v : at_path v keys = None → at_path (strip_all v ptrs) keys = None.
Proof.
  revert v. induction ptrs as [|p ptrs IH]; intros v Hv; [done|]. simpl. by apply IH, deleteAt_adds_nothing.
Qed.

Definition label_path : list string := ["metadata"; "labels"; PruneLabel].

Lemma noise_spares_the_label p : p ∈ kubeNoise → ¬ (pointerParts p `prefix_of` label_path).
Proof.
  intros Hp. assert (Forall (λ p, ¬ (pointerParts p `prefix_of` label_path)) kubeNoise) as Hall by by_decision.
  by eapply Forall_forall in Hall.
Qed.

Section Ignoring.
Context `{Tools}.

(** The comparison behind [ignoreDifferences] never finds a live object that
    rollops applied equal to the manifest as declared: the live object carries
    the label every apply adds, the declared one does not, and no pointer that
    spares the label changes that.  The differences to ignore are thus reported
    like any other. *)
Theorem ignored_differences_still_show live desired a b val ignore :
  tl_yaml live = Ok a → tl_yaml desired = Ok b →
  at_path a label_path = Some (AString val) → at_path b label_path = None →
  (∀ p, p ∈ ignore → ¬ (pointerParts p `prefix_of` label_path)) →
  equivalentIgnoring live desired ignore = Ok false.
Proof.
  intros Ha Hb Hla Hlb Hspare. unfold equivalentIgnoring. rewrite Ha, Hb. f_equal.
  fold (strip_all a (kubeNoise ++ ignore)) (strip_all b (kubeNoise ++ ignore)). apply not_true_iff_false. intros He.
  destruct (strip_keeps (kubeNoise ++ ignore) label_path) with (v := a) (x := AString val) as [x Hx]; [|done|].
  { intros p [Hp|Hp]%elem_of_app; [by apply noise_spares_the_label|by apply Hspare]. }
  destruct (deepEqual_at _ _ _ _ He Hx) as [x' Hx'].
  by rewrite strip_adds_nothing in Hx'.
Qed.
End Ignoring.

(** ** Dangling middlewares *)
Definition as_doc (d : decoded) : option (list (string * any)) := match d with DDoc doc => Some doc | _ => None end.

(** Every cut of [s] at a hyphen. *)
Lemma hyphen_splits_spec before s ns name :
  (ns, name) ∈ hyphen_splits before s ↔ ∃ mid, ns = before +:+ mid ∧ s = mid +:+ "-" +:+ name.
Proof.
  revert before. induction s as [|c s IH]; intros before; simpl.
  - split; [by intros ?%elem_of_nil|]. intros (mid & _ & Hm). by destruct mid.
  - rewrite elem_of_app, IH. split.
    + intros [Hc|(mid & -> & ->)].
      * case_bool_decide; [|by apply elem_of_nil in Hc]. apply list_elem_of_singleton in Hc as [= -> ->].
        exists "". split; [by rewrite str_app_empty_r|]. by subst.
      * exists (String c mid). split; [by rewrite <- str_app_assoc|done].
    + intros (mid & -> & Hs). destruct mid as [|d mid].
      * left. change ("" +:+ "-" +:+ name) with (String hyphen name) in Hs. injection Hs as -> ->. rewrite bool_decide_eq_true_2 by done. rewrite str_app_empty_r. apply list_elem_of_singleton. done.
      * right. injection Hs as -> Hs. exists mid. split; [by rewrite <- str_app_assoc|done].
Qed.

Section Warnings.
Context `{Tools}.

(** What the manifests declare, by one pass over their documents. *)
Definition declared (manifests : list string) : gset string * list mwNeed :=
  foldl (λ acc raw, foldl scan_doc acc (omap as_doc (tl_docs raw).1)) (∅, []) manifests.

Lemma scan_from fuel raw n acc :
  (tl_docs raw).2 = None → (length (tl_docs raw).1 - n < fuel)%nat →
  scanManifestDocs fuel raw n acc = Some (foldl scan_doc acc (omap as_doc (drop n (tl_docs raw).1))).
Proof.
  intros He. revert n acc. induction fuel as [|fuel IH]; intros n acc Hf; [lia|]. simpl. unfold Decode.
  destruct (tl_docs raw) as [docs end_err] eqn:Ed. simpl in *. subst end_err.
  destruct (docs !! n) as [d|] eqn:Hn.
  - apply lookup_lt_Some in Hn as Hlt. rewrite (drop_S _ _ _ Hn). destruct d; simpl; apply IH; lia.
  - apply lookup_ge_None in Hn. by rewrite drop_ge.
Qed.

(** On a manifest that the decoder cannot read to its end the loop never ends:
    the error is answered for ever, and only [io.EOF] stops the loop. *)
Theorem scan_hangs_on_a_syntax_error raw e :
  (tl_docs raw).2 = Some e → ∀ fuel n acc, scanManifestDocs fuel raw n acc = None.
Proof.
  intros He fuel. induction fuel as [|fuel IH]; intros n acc; [done|]. simpl. unfold Decode.
  destruct (tl_docs raw) as [docs end_err] eqn:Ed. simpl in He. subst end_err.
  destruct (docs !! n) as [[]|]; apply IH.
Qed.

Definition readable (fuel : nat) (raw : string) : Prop := (tl_docs raw).2 = None ∧ (length (tl_docs raw).1 < fuel)%nat.

Lemma scan_all_declared fuel manifests acc : Forall (readable fuel) manifests →
  scan_all fuel manifests acc = Some (foldl (λ acc raw, foldl scan_doc acc (omap as_doc (tl_docs raw).1)) acc manifests).
Proof.
  intros Hr. revert acc. induction Hr as [|raw manifests [He Hf] _ IH]; intros acc; [done|]. simpl.
  rewrite scan_from by (done || lia). rewrite drop_0. apply IH.
Qed.

Section Steady.
Context (exists_ : string → string → Prog ToolCall (bool * option err)) (live : string → string → bool * option err).

(** The cluster answers alike throughout. *)
Hypothesis steady : ∀ ns name tr, (exists_ ns name tr).1 = live ns name.

Definition present (inBatch : gset string) (ns name : string) : Prop :=
  ns +:+ "/" +:+ name ∈ inBatch ∨ live ns name = (true, None).

(** A token names a middleware by its name, or by its namespace and name with a
    hyphen between. *)
Definition resolves (inBatch : gset string) (n : mwNeed) : Prop :=
  present inBatch (mw_ingressNS n) (mw_token n) ∨
  ∃ ns name, mw_token n = ns +:+ "-" +:+ name ∧ ns ≠ "" ∧ name ≠ "" ∧ present inBatch ns name.

Lemma liveOrBatch_spec inBatch ns name tr : (liveOrBatch inBatch exists_ ns name tr).1 = true ↔ present inBatch ns name.
Proof.
  unfold liveOrBatch, present. case_bool_decide as Hb; [split; [by left|done]|].
  unfold mbind, Prog_bind, mret, Prog_ret. specialize (steady ns name tr).
  destruct (exists_ ns name tr) as [[b [e|]] tr']; simpl in *; rewrite <- steady; destruct b; simpl; naive_solver.
Qed.

Lemma any_resolved_spec inBatch l tr : (any_resolved inBatch exists_ l tr).1 = true ↔
  ∃ ns name, (ns, name) ∈ l ∧ ns ≠ "" ∧ name ≠ "" ∧ present inBatch ns name.
Proof.
  revert tr. induction l as [|[ns name] l IH]; intros tr; simpl.
  - split; [done|]. by intros (? & ? & ?%elem_of_nil & _).
  - setoid_rewrite elem_of_cons. destruct (bool_decide_reflect (ns = "")), (bool_decide_reflect (name = "")); simpl.
    1-3: rewrite IH; naive_solver.
    unfold mbind, Prog_bind. pose proof (liveOrBatch_spec inBatch ns name tr) as Hl.
    destruct (liveOrBatch inBatch exists_ ns name tr) as [[] tr']; simpl in *; [naive_solver|]. rewrite IH. naive_solver.
Qed.

Lemma middlewareResolved_spec inBatch n tr :
  (middlewareResolved inBatch exists_ (mw_token n) (mw_ingressNS n) tr).1 = true ↔ resolves inBatch n.
Proof.
  unfold middlewareResolved, resolves, mbind, Prog_bind.
  pose proof (liveOrBatch_spec inBatch (mw_ingressNS n) (mw_token n) tr) as Hl.
  destruct (liveOrBatch inBatch exists_ (mw_ingressNS n) (mw_token n) tr) as [[] tr']; simpl in *; [naive_solver|].
  rewrite any_resolved_spec. setoid_rewrite hyphen_splits_spec. simpl. split.
  - intros (ns & name & (mid & -> & ->) & ? & ? & ?). right. by exists mid, name.
  - intros [?|(ns & name & -> & ? & ? & ?)]; [naive_solver|]. exists ns, name. by split; [exists ns|].
Qed.

Lemma warnings_spec inBatch needs seen tr : NoDup seen →
  let out := (warnings inBatch exists_ needs seen tr).1 in
  NoDup out ∧ ∀ w, w ∈ out ↔ w ∈ seen ∨ ∃ n, n ∈ needs ∧ w = warning n ∧ ¬ resolves inBatch n.
Proof.
  revert seen tr. induction needs as [|n needs IH]; intros seen tr Hnd; simpl.
  - split; [done|]. intros w. split; [by left|]. intros [?|(? & ?%elem_of_nil & _)]; done.
  - unfold mbind, Prog_bind. pose proof (middlewareResolved_spec inBatch n tr) as Hr.
    destruct (middlewareResolved _ _ _ _ tr) as [b tr']. simpl in Hr. setoid_rewrite elem_of_cons.
    destruct b; simpl.
    + destruct (IH seen tr') as [? Hw]; [done|]. split; [done|]. intros w. rewrite Hw. naive_solver.
    + case_bool_decide as Hs.
      * destruct (IH seen tr') as [? Hw]; [done|]. split; [done|]. intros w. rewrite Hw. naive_solver.
      * destruct (IH (seen ++ [warning n]) tr') as [? Hw].
        { apply NoDup_app. split_and!; [done| |apply NoDup_singleton]. by intros x Hx ->%list_elem_of_singleton. }
        split; [done|]. intros w. rewrite Hw, elem_of_app, list_elem_of_singleton. naive_solver.
Qed.

(** On manifests that can be read to their end, the warnings are exactly those of
    the middlewares an Ingress of the batch names and that neither the batch
    declares nor the cluster has, each once. *)
Theorem warnings_are_exact fuel manifests tr :
  Forall (readable fuel) manifests →
  ∃ p, DanglingMiddlewareWarnings fuel manifests exists_ = Some p ∧ NoDup (p tr).1 ∧
    ∀ w, w ∈ (p tr).1 ↔ ∃ n, n ∈ (declared manifests).2 ∧ w = warning n ∧ ¬ resolves (declared manifests).1 n.
Proof.
  intros Hr. unfold DanglingMiddlewareWarnings. rewrite scan_all_declared by done. fold (declared manifests).
  destruct (declared manifests) as [inBatch needs]. eexists. split; [done|].
  destruct (warnings_spec inBatch needs [] tr) as [? Hw]; [constructor|]. split; [done|].
  intros w. rewrite Hw. simpl. split; [intros [?%elem_of_nil|?]; done|by right].
Qed.
End Steady.
End Warnings.

Module VerdictDemo.
Import KubeDemo.

Definition cluster : kubectlCluster :=
  {| kc_kubeconfig := ""; kc_context := ""; kc_namespace := "team-a"; kc_resource := "deployment/web"; kc_prune := false;
     kc_reapOnDelete := false; kc_reapTypes := []; kc_pruneVal := "web"; kc_healthCond := "" |}.

Lemma apply_answer_is_earned_witness :
  ∃ manifest tr1, desiredManifest KubeDemo.manifest [] = (Ok manifest, tr1) ∧
    ∃ tr2, applied cluster manifest "sum-2" tr2
      [stamp_of cluster "sum-2"; apply_of cluster "labelled"; read_stamp cluster].
Proof.
  exact (apply_answer_is_earned cluster [] KubeDemo.manifest [] {| re_Changed := true; re_Detail := "applied to cluster" |}
           [stamp_of cluster "sum-2"; apply_of cluster "labelled"; read_stamp cluster] eq_refl).
Defined.

(** The tools, with one answer for every command. *)
Definition answering (p : Proc) : Tools := {|
  tl_exec _ := p; tl_read := tl_read; tl_mkdir := tl_mkdir; tl_json := tl_json; tl_docs := tl_docs; tl_docs_out := tl_docs_out;
  tl_nodes := tl_nodes; tl_nodes_out := tl_nodes_out; tl_nodes_close := tl_nodes_close; tl_yaml := tl_yaml;
  tl_marshal := tl_marshal; tl_conditions := tl_conditions; tl_labels := tl_labels |}.

(** A daemon without [kubectl] finds every resource unhealthy. *)
Theorem missing_kubectl_reads_unhealthy :
  let absent := {| pr_out := ""; pr_err := ""; pr_fail := Some (PFail "exec: kubectl: executable file not found in $PATH") |} in
  (@kt_Health {| kt_cl := @kubectl_cluster (answering absent) cluster; kt_ignore := [] |} []).1 =
    Ok {| hs_State := HealthUnhealthy; hs_Reason := "" |}.
Proof. by vm_compute. Qed.

Example refused_connection_has_no_verdict :
  let refused := {| pr_out := ""; pr_err := "The connection to the server 10.0.0.1 was refused"; pr_fail := Some (PExit 1 "exit status 1") |} in
  is_ok (@kt_Health {| kt_cl := @kubectl_cluster (answering refused) cluster; kt_ignore := [] |} []).1 = false.
Proof. by vm_compute. Qed.

Lemma ignored_differences_still_show_witness : equivalentIgnoring "live" "desired" ["/replicas"] = Ok false.
Proof.
  eapply (ignored_differences_still_show "live" "desired"); [reflexivity|reflexivity|reflexivity|reflexivity|].
  intros p ->%list_elem_of_singleton. by_decision.
Defined.

Lemma scan_hangs_on_a_syntax_error_witness : ∀ fuel n acc, scanManifestDocs fuel "broken" n acc = None.
Proof. exact (scan_hangs_on_a_syntax_error "broken" (Errorf "yaml: line 2") eq_refl). Defined.

(** A cluster without middlewares. *)
Definition none_live (_ _ : string) : bool * option err := (false, None).
Definition ask_none (ns name : string) : Prog ToolCall (bool * option err) := mret (none_live ns name).

Lemma warnings_are_exact_witness :
  ∃ p, DanglingMiddlewareWarnings 2 ["ingress"] ask_none = Some p ∧ NoDup (p []).1 ∧
    (p []).1 = [warning {| mw_ingressNS := "default"; mw_ingressName := "web"; mw_token := "auth" |}].
Proof.
  destruct (warnings_are_exact ask_none none_live (λ _ _ _, eq_refl) 2 ["ingress"] []) as (p & Hp & Hnd & _); [by repeat constructor|].
  exists p. split; [exact Hp|]. split; [exact Hnd|]. injection Hp as <-. reflexivity.
Defined.
End VerdictDemo.
