(* ===== verification/PluginSafety.v ===== *)
(** * What a plugin may do

    Which binaries are started and with what environment, which manifests are
    admitted, that a refused plugin is torn down, that a target behind a plugin is
    the target itself, that its standard error is capped, and what the built-in
    router patches. *)

From S2P Require Import Prelude Encoding Json Config Model Security World ImageSelect Git ConfigLoad Process KubeRender.
From S2P Require Import KubeCluster KubeTarget Hosts Plugins.

Ltac run_prog := unfold attempt_result, attempt_error, mbind, Prog_bind, Act_bind, mret, Prog_ret, Act_ret, call in *.

(** ** Admission *)
Section Admission.
Context `{PluginOS}.

(** A file was read, at some point of the trace, with this content. *)
Definition was_read (path content : string) (tr : list PCall) : Prop :=
  ∃ before, (PRead path :: before) `suffix_of` tr ∧ po_read (PRead path :: before) = Ok content.

Lemma was_read_more path content tr tr' : tr `suffix_of` tr' → was_read path content tr → was_read path content tr'.
Proof. intros Hs (b & Hb & Hr). exists b. split; [by etrans|done]. Qed.

(** The pin and, when a key is configured, the signature hold of what was read. *)
Definition pinned (path pin : string) (tr : list PCall) : Prop :=
  pin ≠ "" ∧ ∃ content, was_read path content tr ∧ EqualFold (hex_encode (po_sha256 content)) pin = true.

Definition signs (pub : publicKey) (content sig : string) : Prop :=
  match pub with
  | ECDSAKey k => po_ecdsa k (po_sha256 content) sig = true
  | Ed25519Key k => po_ed25519 k content sig = true
  | RSAKey k => po_rsa k (po_sha256 content) sig = None
  | OtherKey _ => False
  end.

Definition signed (path : string) (tr : list PCall) : Prop :=
  ∃ pem pub b64 sig content,
    was_read (Clean (po_getenv PublicKeyEnv)) pem tr ∧ parsePublicKey pem = Ok pub ∧
    was_read (path +:+ ".sig") b64 tr ∧ DecodeString StdEncoding (TrimSpace b64) = Some sig ∧
    was_read path content tr ∧ signs pub content sig.

(** The only calls of a program are reads. *)
Definition reads (c : PCall) : Prop := ∃ p, c = PRead p.

Lemma VerifyBinary_reads path pin : issues reads (VerifyBinary path pin).
Proof. unfold VerifyBinary, read_file. issue. by eexists. Qed.
Lemma verifyCosign_reads path b64 pem : issues reads (verifyCosignSignature path b64 pem).
Proof. unfold verifyCosignSignature, read_file. issue. all: by eexists. Qed.
Lemma VerifyArtifact_reads path pin : issues reads (VerifyArtifact path pin).
Proof.
  unfold VerifyArtifact, read_file.
  repeat first [ apply VerifyBinary_reads | apply verifyCosign_reads | issue_step ]. all: by eexists.
Qed.

Lemma issues_suffix {E A} (P : E → Prop) (m : Prog E A) tr : issues P m → tr `suffix_of` (m tr).2.
Proof. intros Hm. destruct (Hm tr) as (new & -> & _). by exists new. Qed.

Lemma VerifyBinary_ok path pin tr tr' : VerifyBinary path pin tr = (None, tr') → pinned path pin tr'.
Proof.
  unfold VerifyBinary. case_bool_decide as Hp; [done|]. unfold read_file. run_prog.
  destruct (po_read (PRead path :: tr)) as [content|] eqn:Hr; [|done]. simpl.
  destruct (EqualFold _ _) eqn:He; [|done]. intros [= <-]. split; [done|]. exists content. split; [by exists tr|done].
Qed.

Lemma verifyCosign_ok path b64 pem tr tr' :
  verifyCosignSignature path b64 pem tr = (None, tr') →
  ∃ pub sig content, parsePublicKey pem = Ok pub ∧ DecodeString StdEncoding (TrimSpace b64) = Some sig ∧
    was_read path content tr' ∧ signs pub content sig.
Proof.
  unfold verifyCosignSignature. destruct (parsePublicKey pem) as [pub|]; [|done].
  destruct (DecodeString StdEncoding (TrimSpace b64)) as [sig|]; [|done]. unfold read_file. run_prog.
  destruct (po_read (PRead path :: tr)) as [content|] eqn:Hr; [|done].
  destruct pub as [k|k|k|ty]; simpl.
  - destruct (po_ecdsa _ _ _) eqn:Hv; [|done]. intros [= <-]. eexists _, sig, content. split_and!; try done. by exists tr.
  - destruct (po_read (PRead path :: PRead path :: tr)) as [content2|] eqn:Hr2; [|done].
    destruct (po_ed25519 _ _ _) eqn:Hv; [|done]. intros [= <-]. eexists _, sig, content2. split_and!; try done. by eexists.
  - destruct (po_rsa _ _ _) eqn:Hv; [done|]. intros [= <-]. eexists _, sig, content. split_and!; try done. by exists tr.
  - done.
Qed.

Lemma VerifyArtifact_ok path pin tr tr' :
  VerifyArtifact path pin tr = (None, tr') →
  pinned path pin tr' ∧ (po_getenv PublicKeyEnv ≠ "" → signed path tr').
Proof.
  unfold VerifyArtifact, attempt_error, mbind, Prog_bind, Act_bind. destruct (VerifyBinary path pin tr) as [[e|] tr1] eqn:Hb; [done|].
  apply VerifyBinary_ok in Hb as [Hne (content & Hr & He)].
  assert (∀ tr2, tr1 `suffix_of` tr2 → pinned path pin tr2) as Hpin.
  { intros tr2 Hs. split; [done|]. exists content. split; [by eapply was_read_more|done]. }
  case_bool_decide as Hk; [intros [= <-]; split; [by apply Hpin|done]|].
  destruct (Contains _ ".."); [done|]. unfold read_file. run_prog.
  destruct (po_read (PRead (Clean _) :: tr1)) as [pem|] eqn:Hpem; [|done].
  destruct (po_read (PRead (path +:+ ".sig") :: _)) as [b64|] eqn:Hsig; [|done]. intros Hv.
  pose proof (issues_suffix _ _ (PRead (path +:+ ".sig") :: PRead (Clean (po_getenv PublicKeyEnv)) :: tr1) (verifyCosign_reads path b64 pem)) as Hs.
  rewrite Hv in Hs. simpl in Hs. split; [apply Hpin; etrans; [|exact Hs]; by do 2 apply suffix_cons_r|]. intros _.
  apply verifyCosign_ok in Hv as (pub & sig & c2 & Hpub & Hdec & Hread & Hsg).
  exists pem, pub, b64, sig, c2. split_and!; try done.
  - exists tr1. split; [etrans; [|exact Hs]; by apply suffix_cons_r|done].
  - eexists. split; [exact Hs|done].
Qed.

(** *** The default policy *)
Lemma refused_none ok l : refused ok l = None ↔ ∀ v, v ∈ l → ok v = true.
Proof.
  unfold refused. induction l as [|v l IH]; simpl; [split; [by intros _ v ?%elem_of_nil|done]|].
  rewrite filter_cons. setoid_rewrite elem_of_cons. destruct (ok v) eqn:Hv.
  - rewrite decide_False by done. rewrite IH. naive_solver.
  - rewrite decide_True by done. simpl. split; [done|]. intros Hall. by rewrite Hall in Hv; [|left].
Qed.

(** What the policy of the daemon admits. *)
Definition admissible (m : PluginManifest) : Prop :=
  effectiveRisk m ∈ [""; RiskPassive; RiskActive] ∧
  sa_NetworkHosts (pm_Safety m) = [] ∧
  (∀ e, e ∈ sa_EnvVars (pm_Safety m) → allowed e (splitList (po_getenv AllowedEnvEnv)) = true) ∧
  (sa_NeedsConfirmation (pm_Safety m) = true → allowed (pm_Name m) (splitList (po_getenv ConfirmEnv)) = true).

Lemma risk_admitted eff :
  (eff != "") && match riskRank eff with None => true | Some rank => default 0 (riskRank RiskActive) <? rank end = false ↔
  eff ∈ [""; RiskPassive; RiskActive].
Proof.
  rewrite !elem_of_cons, elem_of_nil. unfold riskRank. simpl.
  destruct (bool_decide_reflect (eff = "")) as [->|]; simpl; [naive_solver|].
  destruct (bool_decide_reflect (eff = RiskPassive)) as [->|]; simpl; [naive_solver|].
  destruct (bool_decide_reflect (eff = RiskActive)) as [->|]; simpl; [naive_solver|].
  destruct (bool_decide_reflect (eff = RiskInvasive)) as [->|]; simpl; naive_solver.
Qed.

Lemma default_policy_exact m : policy_Validate (DefaultPolicy po_getenv) m = None ↔ admissible m.
Proof.
  unfold policy_Validate, admissible. simpl. rewrite <- risk_admitted.
  destruct ((effectiveRisk m != "") && _) eqn:Hrisk; [naive_solver|]. rewrite andb_false_r.
  destruct (sa_NeedsConfirmation (pm_Safety m)) eqn:Hc; simpl.
  1: destruct (allowed (pm_Name m) _) eqn:Hn; simpl; [|naive_solver].
  all: destruct (refused _ (sa_NetworkHosts _)) as [h|] eqn:Hh;
    [split; [done|]; intros (_ & He & _); by rewrite He in Hh|].
  all: assert (sa_NetworkHosts (pm_Safety m) = []) as Hnil by
    (destruct (sa_NetworkHosts (pm_Safety m)) as [|h l]; [done|]; by pose proof (proj1 (refused_none _ _) Hh h (list_elem_of_here h l))).
  all: destruct (refused _ (sa_EnvVars _)) as [e|] eqn:He;
    [split; [done|]; intros (_ & _ & Hall & _); by rewrite (proj2 (refused_none _ _) Hall) in He|].
  all: pose proof (proj1 (refused_none _ _) He) as Henv.
  all: rewrite (proj2 (refused_none _ _)) by done; naive_solver.
Qed.

(** *** Starting a plugin *)
Definition plugin_env : list string := ConfineEnv (splitList (po_getenv AllowedEnvEnv)) po_environ.

(** A process was started after [tr]. *)
Definition started_since (tr tr' : list PCall) : Prop :=
  ∃ path env before, (PStart path env :: before) `suffix_of` tr' ∧ tr `suffix_of` before ∧
    po_start (PStart path env :: before) = Started.
Definition torn_down (tr : list PCall) : Prop := ∃ before, tr = PKill :: before ∨ tr = PClose :: before.

Lemma awaitHandshake_trace tr : (awaitHandshake tr).2 = PAwaitHandshake :: tr.
Proof. done. Qed.

(** How a launch ends: with a connection, with nothing started, or torn down. *)
Lemma Launch_ends path allowedEnv tr r tr' :
  Launch path allowedEnv tr = (r, tr') →
  let begun := PStart path (ConfineEnv allowedEnv po_environ) :: tr in
  match r with
  | None => ∃ addr, tr' = PDial addr :: PAwaitHandshake :: begun
  | Some _ => (tr' = begun ∧ po_start begun ≠ Started) ∨ tr' = PKill :: PAwaitHandshake :: begun ∨
              ∃ addr, tr' = PKill :: PDial addr :: PAwaitHandshake :: begun
  end.
Proof.
  intros Hl begun. unfold Launch, buildPluginEnv, killLaunch in Hl. run_prog. fold begun in Hl.
  destruct (po_start begun) as [|e|e] eqn:Hs; [|injection Hl as <- <-; left; split; [done|congruence]..].
  pose proof (awaitHandshake_trace begun) as Ht. destruct (awaitHandshake begun) as [[hs|e] tr1]; simpl in Ht; subst tr1.
  - destruct (handshake_Verify hs); [injection Hl as <- <-; by right; left|].
    destruct (po_dial _); injection Hl as <- <-; [right; right|]; by exists (hd_Addr hs).
  - injection Hl as <- <-. by right; left.
Qed.

(** Reads add no start. *)
Lemma reads_add_no_start {A} (m : Prog PCall A) tr path env :
  issues reads m → PStart path env ∈ (m tr).2 → PStart path env ∈ tr.
Proof. intros Hm Hin. destruct (issues_trace _ _ _ _ Hm Hin) as [?|[? ?]]; done. Qed.

(** The starts of a run that verified [real], started it, and went on without
    starting more. *)
Lemma starts_are_verified binary real pin tr tr1 more path env :
  VerifyArtifact real pin (PEvalSymlinks binary :: tr) = (None, tr1) →
  (∀ p e, PStart p e ∉ more) →
  PStart path env ∈ more ++ PStart real plugin_env :: tr1 → PStart path env ∉ tr →
  pinned path pin (more ++ PStart real plugin_env :: tr1) ∧
  (po_getenv PublicKeyEnv ≠ "" → signed path (more ++ PStart real plugin_env :: tr1)) ∧ env = plugin_env.
Proof.
  intros Hv Hmore Hin Hout. pose proof (VerifyArtifact_reads real pin) as Hreads.
  assert (PStart path env ∉ tr1) as Hnot.
  { intros Ht. pose proof (reads_add_no_start _ (PEvalSymlinks binary :: tr) path env Hreads) as Hback. rewrite Hv in Hback.
    apply Hback in Ht. by apply elem_of_cons in Ht as [?|?]. }
  apply elem_of_app in Hin as [Hin|Hin]; [by apply Hmore in Hin|].
  apply elem_of_cons in Hin as [[= -> ->]|Hin]; [|done].
  apply VerifyArtifact_ok in Hv as [[Hne (content & Hr & He)] Hsig].
  assert (tr1 `suffix_of` more ++ PStart real plugin_env :: tr1) as Hs by (by apply suffix_app_r, suffix_cons_r).
  split_and!; [split; [done|]; exists content; split; [by eapply was_read_more|done]| |done].
  intros Hk. destruct (Hsig Hk) as (pem & pub & b64 & sg & c2 & ? & ? & ? & ? & ? & ?).
  exists pem, pub, b64, sg, c2. split_and!; try done; by eapply was_read_more.
Qed.

Lemma started_since_new tr new :
  started_since tr (new ++ tr) → ∃ k path env j, new = k ++ PStart path env :: j ∧ po_start (PStart path env :: j ++ tr) = Started.
Proof.
  intros (path & env & before & [k Hk] & [j ->] & Hs). exists k, path, env, j. split; [|done].
  apply (app_inv_tail tr). by rewrite Hk, <- (assoc_L (++)).
Qed.

Lemma nothing_started tr new : (∀ p e, PStart p e ∉ new) → ¬ started_since tr (new ++ tr).
Proof.
  intros Hn (k & path & env & j & -> & _)%started_since_new. apply (Hn path env). apply elem_of_app. right. left.
Qed.

(** C35. Whatever the outside answers, a builder starts a binary only after its
    content was read and hashes to the pin, was signed with the configured key if
    there is one, and with the confined environment; it hands the plugin on only
    when its manifest is within the policy and declares the capability; and it
    leaves no process behind otherwise. *)
Theorem plugin_is_verified_before_it_runs binary pin capability resolve wrap tr r tr' :
  start_plugin binary pin capability resolve wrap tr = (r, tr') →
  (∀ path env, PStart path env ∈ tr' → PStart path env ∉ tr →
     pinned path pin tr' ∧ (po_getenv PublicKeyEnv ≠ "" → signed path tr') ∧ env = plugin_env) ∧
  match r with
  | None => ∃ resp, po_manifest tr' = Ok resp ∧ admissible (manifestFromProto resp) ∧
              HasCapability (manifestFromProto resp) capability = true
  | Some _ => started_since tr tr' → torn_down tr'
  end.
Proof.
  unfold start_plugin, client_Manifest, proc_Close. run_prog.
  destruct (po_eval _) as [real|e].
  2:{ intros [= <- <-]. split; [by intros path env [?|?]%elem_of_cons|]. intros Hs. exfalso. revert Hs.
      apply (nothing_started tr [_]). by intros p e' ?%list_elem_of_singleton. }
  destruct (VerifyArtifact_reads real pin (PEvalSymlinks binary :: tr)) as (new & Hnew & Hr).
  assert (∀ p e, PStart p e ∉ new ++ [PEvalSymlinks binary]) as Hno.
  { intros p e' [Hin|Hin%list_elem_of_singleton]%elem_of_app; [|done].
    rewrite Forall_forall in Hr. by destruct (Hr _ Hin). }
  destruct (VerifyArtifact real pin (PEvalSymlinks binary :: tr)) as [[e|] tr1] eqn:Hv; simpl in Hnew.
  { intros [= <- <-]. rewrite Hnew. split.
    - intros path env Hin Hout. exfalso. rewrite cons_middle, (assoc_L (++)) in Hin. apply elem_of_app in Hin as [Hin|?]; [|done].
      by apply Hno in Hin.
    - intros Hs. exfalso. rewrite cons_middle, (assoc_L (++)) in Hs. by apply nothing_started in Hs. }
  destruct (Launch real _ tr1) as [[e|] tr2] eqn:Hl; apply Launch_ends in Hl; simpl in Hl; fold plugin_env in Hl.
  - intros [= <- <-]. split.
    + intros path env.
      destruct Hl as [[-> _]|[->|[addr ->]]];
        [apply (starts_are_verified binary real pin tr tr1 [])|apply (starts_are_verified binary real pin tr tr1 [_; _])
        |apply (starts_are_verified binary real pin tr tr1 [_; _; _])]; try done; set_solver.
    + intros Hs. destruct Hl as [[-> Hns]|[->|[addr ->]]]; [|by eexists; left..]. exfalso.
      subst tr1. rewrite (cons_middle (PEvalSymlinks binary)), (assoc_L (++)) in Hs.
      apply (started_since_new tr (PStart real plugin_env :: new ++ [PEvalSymlinks binary])) in Hs as (k & p & en & j & Hk & Hst).
      destruct k as [|c k]; [injection Hk as <- <- <-|injection Hk as <- Hk].
      * apply Hns. by rewrite (cons_middle (PEvalSymlinks binary)), (assoc_L (++)).
      * apply (Hno p en). rewrite Hk. apply elem_of_app. right. left.
  - destruct Hl as [addr ->].
    destruct (po_manifest _) as [resp|e] eqn:Hm.
    2:{ intros [= <- <-]. split; [|by eexists; right]. intros path env.
        apply (starts_are_verified binary real pin tr tr1 [_; _; _; _]); [done|set_solver]. }
    destruct (policy_Validate _ _) as [e|] eqn:Hp.
    { intros [= <- <-]. split; [|by eexists; right]. intros path env.
      apply (starts_are_verified binary real pin tr tr1 [_; _; _; _]); [done|set_solver]. }
    destruct (HasCapability _ _) eqn:Hc; simpl; intros [= <- <-]; split.
    + intros path env. apply (starts_are_verified binary real pin tr tr1 [_; _; _]); [done|set_solver].
    + exists resp. split_and!; try done. by apply default_policy_exact.
    + intros path env. apply (starts_are_verified binary real pin tr tr1 [_; _; _; _]); [done|set_solver].
    + by eexists; right.
Qed.
End Admission.

(** ** A plugin is the target it wraps *)
Section Transparent.
Context {W : Type} `{WireLaws} (t : PluginTarget W) (name version : string) (safety : Safety) (grpc : err → err).

(** The host's client over the plugin's server; [grpc] is what an error of a
    handler becomes on the way. *)
Definition remote (capability tool input : string) : Act W (result string) :=
  r ← InvokeTool (ServeTarget name version t safety) capability tool input;
  mret (match r with
        | Ok out => Ok out
        | Err er => Err (Wrap ("plugin: invoke " +:+ capability +:+ "/" +:+ tool +:+ ": ") (grpc er) "")
        end).

Definition invoke_error (tool : string) (er : err) : err := Wrap ("plugin: invoke " +:+ CapabilityTarget +:+ "/" +:+ tool +:+ ": ") (grpc er) "".

(** An answer of the target as the host sees it. *)
Definition seen {A B} (tool : string) (f : A → result B) (r : result A * W) : result B * W :=
  (match r.1 with Ok a => f a | Err er => Err (invoke_error tool er) end, r.2).

(** The fields that travel. *)
Definition wire_manifest (m : RawManifest) : RawManifest :=
  {| rm_Kind := rm_Kind m; rm_Spec := rm_Spec m; rm_Checksum := rm_Checksum m; rm_Root := ""; rm_Rendered := "" |}.

Lemma served_apply : sv_tools (ServeTarget name version t safety) !! "target/apply" =
  Some (λ inp, match dec_apply_in inp with
               | Err er => mret (Err er)
               | Ok req => map_ok (λ res, enc_apply_out {| ao_Changed := re_Changed res; ao_Detail := re_Detail res |})
                             (pt_Apply t {| rm_Kind := ai_Kind req; rm_Spec := ai_Spec req; rm_Checksum := ai_Checksum req;
                                            rm_Root := ""; rm_Rendered := "" |})
               end).
Proof. simpl. rewrite !lookup_insert_ne by done. by rewrite lookup_insert_eq. Qed.
Lemma served_observe : sv_tools (ServeTarget name version t safety) !! "target/observe" =
  Some (λ _, map_ok (λ fp, enc_observe {| oo_Value := fp_Value fp; oo_Meta := fp_Meta fp |}) (pt_Observe t)).
Proof. simpl. rewrite lookup_insert_ne by done. by rewrite lookup_insert_eq. Qed.
Lemma served_health : sv_tools (ServeTarget name version t safety) !! "target/health" =
  Some (λ _, map_ok (λ hs, enc_health {| ho_State := health_int (hs_State hs); ho_Reason := hs_Reason hs |}) (pt_Health t)).
Proof. simpl. by rewrite lookup_insert_eq. Qed.

Ltac run_act := unfold remote, InvokeTool, map_ok, mbind, Act_bind, mret, Act_ret.

(** The target answers in UTF-8, from this state. *)
Record speaks_utf8 (m : RawManifest) (w : W) : Prop := {
  apply_utf8 : ∀ r w', pt_Apply t m w = (Ok r, w') → valid_utf8 (re_Detail r);
  observe_utf8 : ∀ fp w', pt_Observe t w = (Ok fp, w') →
    valid_utf8 (fp_Value fp) ∧ map_Forall (λ k v, valid_utf8 k ∧ valid_utf8 v) (fp_Meta fp);
  health_utf8 : ∀ hs w', pt_Health t w = (Ok hs, w') → valid_utf8 (hs_Reason hs);
}.

(** The target a host drives through a plugin is the target the plugin serves:
    same answers, same effects, with errors marked as the plugin's; only an
    unknown health, which the protocol does not have, becomes an error, and a
    manifest arrives without its local root and captured rendering. The
    specification may be any bytes; the rest of the text is UTF-8. *)
Lemma plugin_is_transparent m w :
  valid_utf8 (rm_Kind m) → valid_utf8 (rm_Checksum m) → speaks_utf8 (wire_manifest m) w →
  adapter_Apply remote m w = seen ToolApply Ok (pt_Apply t (wire_manifest m) w) ∧
  adapter_Observe remote w = seen ToolObserve Ok (pt_Observe t w) ∧
  adapter_Health remote w =
    seen ToolHealth (λ hs, match hs_State hs with
                           | HealthUnknown => Err (Errorf "plugin: invalid health state 0")
                           | _ => Ok hs
                           end) (pt_Health t w).
Proof.
  intros Hk Hc [Ha Ho Hh]. split_and!.
  - unfold adapter_Apply. run_act. change (CapabilityTarget +:+ "/" +:+ ToolApply) with "target/apply".
    rewrite served_apply, apply_in_wire by done. run_act. simpl. fold (wire_manifest m). unfold seen.
    destruct (pt_Apply t (wire_manifest m) w) as [[[ch d]|e] w']; [|done]. specialize (Ha _ _ eq_refl).
    simpl. by rewrite apply_out_wire.
  - unfold adapter_Observe. run_act. change (CapabilityTarget +:+ "/" +:+ ToolObserve) with "target/observe".
    rewrite served_observe. run_act. unfold seen.
    destruct (pt_Observe t w) as [[[v mt]|e] w']; [|done]. destruct (Ho _ _ eq_refl) as [Hv Hm].
    simpl. by rewrite observe_wire.
  - unfold adapter_Health. run_act. change (CapabilityTarget +:+ "/" +:+ ToolHealth) with "target/health".
    rewrite served_health. run_act. unfold seen.
    destruct (pt_Health t w) as [[[st reason]|e] w']; [|done]. specialize (Hh _ _ eq_refl).
    simpl. rewrite health_wire by (done || (destruct st; simpl; lia)). by destruct st.
Qed.

(** The manifest arrives as it was built. *)
Lemma manifest_survives m : manifestFromProto (manifestToProto m) = m.
Proof. by destruct m. Qed.

Lemma served_target_has_its_capability :
  HasCapability (manifestFromProto (GetManifest (ServeTarget name version t safety))) CapabilityTarget = true.
Proof. done. Qed.
End Transparent.

(** ** Handshake *)

(** The line a served plugin prints is understood and accepted by the host. *)
Theorem handshake_is_understood addr :
  addr ≠ "" → lacks pipe addr → trim_left (String.rev addr) = String.rev addr →
  let h := {| hd_ProtocolVersion := ProtocolVersion; hd_Cookie := Cookie; hd_Addr := addr |} in
  ParseHandshake (handshake_Line h) = Some h ∧ handshake_Verify h = None.
Proof.
  intros Hne Hl Htrim h. split.
  - unfold ParseHandshake.
    assert (handshake_Line h = "ROLLOPS_PLUGIN|1|ROLLOPS_TARGET_PLUGIN_V1" +:+ String pipe addr) as -> by done.
    assert (TrimSpace ("ROLLOPS_PLUGIN|1|ROLLOPS_TARGET_PLUGIN_V1" +:+ String pipe addr) =
            "ROLLOPS_PLUGIN|1|ROLLOPS_TARGET_PLUGIN_V1" +:+ String pipe addr) as ->.
    { unfold TrimSpace. change (trim_left ("ROLLOPS_PLUGIN|1|ROLLOPS_TARGET_PLUGIN_V1" +:+ String pipe addr))
        with ("ROLLOPS_PLUGIN|1|ROLLOPS_TARGET_PLUGIN_V1" +:+ String pipe addr).
      rewrite rev_app_str, rev_cons_str. destruct (String.rev addr) as [|c s] eqn:Er.
      { by destruct addr; [|rewrite rev_cons_str in Er; destruct (String.rev addr)]. }
      simpl in Htrim. destruct (Ascii.is_space c) eqn:Ec.
      { exfalso. assert (∀ x, str_len (trim_left x) ≤ str_len x)%nat as Hlen.
        { unfold str_len. intros x. induction x as [|d x IH]; simpl; [lia|]. destruct (Ascii.is_space d); simpl; lia. }
        pose proof (Hlen s) as Hs. rewrite Htrim in Hs. unfold str_len in Hs. simpl in Hs. lia. }
      assert (trim_left ((String c s +:+ String pipe "") +:+ String.rev "ROLLOPS_PLUGIN|1|ROLLOPS_TARGET_PLUGIN_V1") =
              (String c s +:+ String pipe "") +:+ String.rev "ROLLOPS_PLUGIN|1|ROLLOPS_TARGET_PLUGIN_V1") as ->.
      { simpl. by rewrite Ec. }
      rewrite <- Er, <- rev_cons_str, <- rev_app_str, rev_involutive_str. done. }
    rewrite Split_app, (Split_lacks pipe addr) by done. done.
  - unfold handshake_Verify. simpl. by rewrite bool_decide_eq_false_2.
Qed.

(** ** Standard error is capped *)
Fixpoint payload_of (out : list relayed) : string :=
  match out with [] => "" | RChunk s :: out => s +:+ payload_of out | _ :: out => payload_of out end.

Lemma str_take_app r a b : str_take r (a +:+ b) = str_take r a +:+ str_take (r - str_len (str_take r a)) b.
Proof.
  revert r. induction a as [|c a IH]; intros [|r]; simpl; try done.
  change (str_len (String c (str_take r a))) with (S (str_len (str_take r a))). by rewrite IH.
Qed.

Lemma str_take_drop n s : str_take n s +:+ str_drop n s = s.
Proof.
  revert n. induction s as [|c s IH]; intros [|n]; try done.
  change (String c (str_take n s +:+ str_drop n s) = String c s). by rewrite IH.
Qed.

Lemma str_take_all n s : (str_len s ≤ n)%nat → str_take n s = s.
Proof. unfold str_len. revert n. induction s as [|c s IH]; intros [|n]; simpl; intros; [done|done|lia|]. rewrite IH; [done|lia]. Qed.

Lemma capped_write_payload fuel c p out c' :
  (str_len p < fuel)%nat → capped_write fuel c p = (out, c') →
  payload_of out = str_take (cw_remaining c) p ∧ cw_remaining c' = (cw_remaining c - str_len (payload_of out))%nat.
Proof.
  revert c p out c'. induction fuel as [|fuel IH]; intros c p out c' Hf; [lia|]. simpl.
  case_bool_decide as Hp; [intros [= <- <-]; subst p; simpl; split; [by destruct (cw_remaining c)|unfold str_len; simpl; lia]|].
  destruct (Nat.eqb_spec (cw_remaining c) 0) as [Hr|Hr].
  { intros [= <- <-]. rewrite Hr. destruct (cw_truncated c); simpl; rewrite ?Hr; by destruct p. }
  assert (0 < str_len p)%nat by (unfold str_len; destruct p; simpl in *; [done|lia]).
  assert (∃ chunk rest mid, (match newline_at p with None => (p, "", true) | Some i => (str_take (i + 1) p, str_drop (i + 1) p, false) end)
    = (chunk, rest, mid) ∧ p = chunk +:+ rest ∧ (str_len rest < fuel)%nat) as (chunk & rest & mid & -> & -> & Hrest).
  { destruct (newline_at p) as [i|]; eexists _, _, _; (split; [done|]).
    - rewrite str_take_drop, str_len_drop. split; [done|lia].
    - rewrite str_app_empty_r. split; [done|unfold str_len; simpl; lia]. }
  destruct (capped_write fuel _ rest) as [o c2] eqn:Hw. intros [= <- <-].
  apply IH in Hw as [Hpay Hrem]; [|done]. simpl in Hpay, Hrem.
  assert (payload_of ((if cw_midLine c then [] else [RPrefix]) ++ RChunk (str_take (cw_remaining c) chunk) :: o) =
          str_take (cw_remaining c) chunk +:+ payload_of o) as -> by by destruct (cw_midLine c).
  rewrite Hrem, str_length_app, Hpay, str_take_app. split; [done|lia].
Qed.

(** A plugin's standard error over any number of writes. *)
Fixpoint writes (c : cappedWriter) (ps : list string) : list relayed :=
  match ps with [] => [] | p :: ps => let '(out, c') := Write c p in out ++ writes c' ps end.

Lemma payload_app a b : payload_of (a ++ b) = payload_of a +:+ payload_of b.
Proof. induction a as [|[|s|] a IH]; simpl; try done. by rewrite IH, str_app_assoc. Qed.

(** However a plugin writes to its standard error, the daemon relays exactly the
    first bytes of it up to the cap, in order, and drops the rest. *)
Theorem stderr_is_capped c ps : payload_of (writes c ps) = str_take (cw_remaining c) (Join ps "").
Proof.
  revert c. induction ps as [|p ps IH]; intros c; [by destruct (cw_remaining c)|].
  assert (Join (p :: ps) "" = p +:+ Join ps "") as ->.
  { destruct ps; [by rewrite str_app_empty_r|done]. }
  simpl. destruct (Write c p) as [out c'] eqn:Hw. unfold Write in Hw.
  apply capped_write_payload in Hw as [Hpay Hrem]; [|lia].
  rewrite payload_app, IH, Hrem, str_take_app, Hpay. done.
Qed.

(** ** The built-in router *)
Lemma elem_of_zip_seq {A} (l : list A) i x : (i, x) ∈ zip (seq 0 (length l)) l ↔ l !! i = Some x.
Proof.
  rewrite list_elem_of_lookup. split.
  - intros [n Hn]. apply lookup_zip_with_Some in Hn as (j & y & [= -> ->] & Hs & Hl). apply lookup_seq in Hs as [-> _]. done.
  - intros Hl. exists i. apply lookup_zip_with_Some. exists i, x. split; [done|]. split; [|done].
    apply lookup_seq. split; [lia|]. by apply lookup_lt_Some in Hl.
Qed.

(** A change of weight patches exactly the backends of the two services, in every
    rule of the route: the canary gets the weight, the stable service what is
    left of a hundred. *)
Theorem router_patches_the_two_services c rules op :
  op ∈ route_ops c rules ↔
  ∃ ri refs bi name weight, rules !! ri = Some refs ∧ refs !! bi = Some name ∧
    op = {| op_Op := "add"; op_Path := "/spec/rules/" +:+ pretty ri +:+ "/backendRefs/" +:+ pretty bi +:+ "/weight"; op_Value := weight |} ∧
    ((name = tc_CanaryService c ∧ weight = tc_Weight c) ∨
     (name ≠ tc_CanaryService c ∧ name = tc_StableService c ∧ weight = 100 - tc_Weight c)).
Proof.
  unfold route_ops, rule_ops. rewrite list_elem_of_bind. split.
  - intros ([ri refs] & Hop & Hin). apply elem_of_zip_seq in Hin.
    apply list_elem_of_omap in Hop as ([bi name] & Hb & Hop). apply elem_of_zip_seq in Hb.
    apply fmap_Some in Hop as (weight & Hw & ->). exists ri, refs, bi, name, weight. split_and!; try done.
    unfold backend_weight in Hw. repeat case_bool_decide; naive_solver.
  - intros (ri & refs & bi & name & weight & Hri & Hbi & -> & Hw). exists (ri, refs). split; [|by apply elem_of_zip_seq].
    apply list_elem_of_omap. exists (bi, name). split; [by apply elem_of_zip_seq|].
    apply fmap_Some. exists weight. split; [|done]. unfold backend_weight.
    destruct Hw as [[-> ->]|(Hne & -> & ->)]; [by rewrite bool_decide_eq_true_2|].
    by rewrite bool_decide_eq_false_2, bool_decide_eq_true_2.
Qed.

Lemma attempt_result_run {E A B} (m : Prog E (result A)) (h : err → Prog E B) (k : A → Prog E B) tr :
  attempt_result m h k tr = match m tr with (Ok a, tr') => k a tr' | (Err e, tr') => h e tr' end.
Proof. unfold attempt_result, mbind, Prog_bind. by destruct (m tr) as [[] ?]. Qed.

(** The router acts with the credentials, the context and the namespace of the
    repository's configuration, whatever the confinement of the daemon: building
    it does not ask. *)
Theorem router_is_not_confined `{Tools} parse_route marshal_ops cfg c tr `{PluginOS} :
  Config.tr_Provider cfg = "gateway" →
  (∀ ptr, BuildRouter (Some cfg) ptr = (Ok (GatewayRouter (Config.tr_Kubeconfig cfg) (Config.tr_Context cfg)), ptr)) ∧
  ∃ more, (gateway_SetWeight parse_route marshal_ops (Config.tr_Kubeconfig cfg) (Config.tr_Context cfg) c tr).2 =
    more ++ TExec "kubectl" None
      (flag "--kubeconfig" (Config.tr_Kubeconfig cfg) ++ flag "--context" (Config.tr_Context cfg) ++
       ["get"; "httproute"; tc_Route c; "-n"; tc_Namespace c; "-o"; "json"]) :: tr.
Proof.
  intros Hg. split.
  - intros ptr. unfold BuildRouter. by rewrite Hg.
  - assert (∀ A (m : Prog ToolCall A) tr0, issues (λ _, True) m → ∃ more, (m tr0).2 = more ++ tr0) as Hmore.
    { intros A m tr0 Hm. destruct (Hm tr0) as (new & Hn & _). by exists new. }
    unfold gateway_SetWeight. rewrite attempt_result_run, (assoc_L (++)).
    destruct (gateway_kubectl _ _ None _ tr) as [r tr'] eqn:Hk. injection Hk as Hr <-.
    destruct r; apply Hmore; issue; unfold gateway_kubectl; issue; done.
Qed.

Module PluginDemo.

(** A host on which one plugin is installed. *)
#[export] Instance os : PluginOS := {|
  po_getenv k := if k == AllowedEnvEnv then "REGION" else "";
  po_environ := ["PATH=/bin"; "REGION=eu"; "ROLLOPS_ADMIN_TOKEN=x"];
  po_eval _ := Ok "/opt/plugins/exotic";
  po_read _ := Ok "binary";
  po_start _ := Started;
  po_await _ := WLines ["starting"; "ROLLOPS_PLUGIN|1|ROLLOPS_TARGET_PLUGIN_V1|/tmp/p/plugin.sock"] None;
  po_dial _ := None;
  po_manifest _ := Ok (manifestToProto (target_manifest "acme/exotic" "1.0.0"
                         {| sa_NetworkHosts := []; sa_FilePaths := ["/srv"]; sa_EnvVars := ["REGION"];
                            sa_RiskClass := RiskActive; sa_NeedsConfirmation := false |}));
  po_invoke _ := Ok "{}";
  po_sha256 s := s;
  po_pem s := Some s;
  po_pkix s := Ok (ECDSAKey s);
  po_ecdsa _ _ _ := true;
  po_ed25519 _ _ _ := true;
  po_rsa _ _ _ := None |}.

Definition load : Prog PCall (option err) := start_plugin "/opt/plugins/current" "62696e617279" CapabilityTarget "" (prefixed "").

Definition loaded : list PCall :=
  [PGetManifest; PDial "/tmp/p/plugin.sock"; PAwaitHandshake;
   PStart "/opt/plugins/exotic" ["PATH=/bin"; "REGION=eu"];
   PRead "/opt/plugins/exotic"; PEvalSymlinks "/opt/plugins/current"].

Lemma plugin_is_verified_before_it_runs_witness :
  load [] = (None, loaded) ∧ pinned "/opt/plugins/exotic" "62696e617279" loaded ∧ ["PATH=/bin"; "REGION=eu"] = plugin_env.
Proof.
  assert (load [] = (None, loaded)) as Hl by (vm_compute; reflexivity). split; [exact Hl|].
  pose proof (plugin_is_verified_before_it_runs "/opt/plugins/current" "62696e617279" CapabilityTarget "" (prefixed "") []
                None loaded Hl) as [Hs _].
  destruct (Hs "/opt/plugins/exotic" ["PATH=/bin"; "REGION=eu"]) as (H1 & _ & H2).
  - do 3 right. left.
  - apply not_elem_of_nil.
  - split; [exact H1|exact H2].
Defined.

Lemma handshake_is_understood_witness :
  ParseHandshake "ROLLOPS_PLUGIN|1|ROLLOPS_TARGET_PLUGIN_V1|/tmp/p.sock" =
    Some {| hd_ProtocolVersion := 1; hd_Cookie := Cookie; hd_Addr := "/tmp/p.sock" |}.
Proof. refine (proj1 (handshake_is_understood "/tmp/p.sock" _ _ _)); vm_compute; try done; auto 20. Defined.

(** A target that keeps the last checksum it was given. *)
Definition keeper : PluginTarget string := {|
  pt_Apply m w := (Ok {| re_Changed := bool_decide (w ≠ rm_Checksum m); re_Detail := "kept" |}, rm_Checksum m);
  pt_Observe w := (Ok {| fp_Value := w; fp_Meta := ∅ |}, w);
  pt_Health w := (Ok {| hs_State := HealthHealthy; hs_Reason := "" |}, w) |}.
Definition keeper_manifest : RawManifest :=
  {| rm_Kind := "exotic"; rm_Spec := "size: 3"; rm_Checksum := "new"; rm_Root := "/repo"; rm_Rendered := "" |}.
Definition keeper_safety : Safety :=
  {| sa_NetworkHosts := []; sa_FilePaths := []; sa_EnvVars := []; sa_RiskClass := RiskActive; sa_NeedsConfirmation := false |}.

End PluginDemo.
