(* ===== verification/PluginWire.v ===== *)
(** * The payloads of a plugin as JSON

    [pkg/plugin/wire.go]: the documents the host and a plugin exchange, written
    and read by [encoding/json] as [Json] has it.  The laws the plugin theorems
    ask of a codec hold of it, so a plugin is the target it serves with no
    assumption on the codec left.  How a [float64] is written is a parameter. *)

From S2P Require Import Prelude Encoding GoTime Json Config Model Security World ImageSelect Git ConfigLoad Process KubeRender.
From S2P Require Import KubeCluster KubeTarget Hosts Plugins PluginSafety.

(** ** Reading and writing a field *)
Definition into_bytes (old : string) (v : json) : result string :=
  match v with
  | JStr s => match DecodeString StdEncoding s with Some b => Ok b | None => Err wrong_type end
  | JNull => Ok ""
  | _ => Err wrong_type
  end.

Definition into_int (old : Z) (v : json) : result Z :=
  match v with
  | JNum lit => match strconv_Atoi lit with Some n => Ok n | None => Err wrong_type end
  | JNull => Ok old
  | _ => Err wrong_type
  end.

Definition decode_into {A} (field : A → string → json → result A) (zero : A) (s : string) : result A :=
  try v <- Unmarshal s; into_struct field zero v.

(** [strconv.ParseFloat] and the form [Marshal] gives a number. *)
Class FloatText := { float_parse : string → result float; float_text : float → string }.

Section Payloads.
Context `{FloatText}.

Definition ApplyInput_json (x : ApplyInput) : json :=
  JObj [("kind", JStr (ai_Kind x)); ("spec", JStr (EncodeToString StdEncoding (ai_Spec x))); ("checksum", JStr (ai_Checksum x))].
Definition ApplyInput_field (x : ApplyInput) (k : string) (v : json) : result ApplyInput :=
  if EqualFold k "kind" then try s <- into_string (ai_Kind x) v; Ok {| ai_Kind := s; ai_Spec := ai_Spec x; ai_Checksum := ai_Checksum x |}
  else if EqualFold k "spec" then try s <- into_bytes (ai_Spec x) v; Ok {| ai_Kind := ai_Kind x; ai_Spec := s; ai_Checksum := ai_Checksum x |}
  else if EqualFold k "checksum" then try s <- into_string (ai_Checksum x) v; Ok {| ai_Kind := ai_Kind x; ai_Spec := ai_Spec x; ai_Checksum := s |}
  else Ok x.

Definition ApplyOutput_json (x : ApplyOutput) : json := JObj [("changed", JBool (ao_Changed x)); ("detail", JStr (ao_Detail x))].
Definition ApplyOutput_field (x : ApplyOutput) (k : string) (v : json) : result ApplyOutput :=
  if EqualFold k "changed" then try b <- into_bool (ao_Changed x) v; Ok {| ao_Changed := b; ao_Detail := ao_Detail x |}
  else if EqualFold k "detail" then try s <- into_string (ao_Detail x) v; Ok {| ao_Changed := ao_Changed x; ao_Detail := s |}
  else Ok x.

Definition ObserveOutput_json (x : ObserveOutput) : json := JObj [("value", JStr (oo_Value x)); ("meta", of_strings (oo_Meta x))].
Definition ObserveOutput_field (x : ObserveOutput) (k : string) (v : json) : result ObserveOutput :=
  if EqualFold k "value" then try s <- into_string (oo_Value x) v; Ok {| oo_Value := s; oo_Meta := oo_Meta x |}
  else if EqualFold k "meta" then try m <- into_strings (oo_Meta x) v; Ok {| oo_Value := oo_Value x; oo_Meta := m |}
  else Ok x.

Definition HealthOutput_json (x : HealthOutput) : json := JObj [("state", JNum (pretty (ho_State x))); ("reason", JStr (ho_Reason x))].
Definition HealthOutput_field (x : HealthOutput) (k : string) (v : json) : result HealthOutput :=
  if EqualFold k "state" then try n <- into_int (ho_State x) v; Ok {| ho_State := n; ho_Reason := ho_Reason x |}
  else if EqualFold k "reason" then try s <- into_string (ho_Reason x) v; Ok {| ho_State := ho_State x; ho_Reason := s |}
  else Ok x.

Definition FlagChange_json (x : FlagChange) : json :=
  JObj [("flag", JStr (fc_Flag x)); ("environment", JStr (fc_Environment x)); ("percentage", JNum (pretty (fc_Percentage x)));
        ("disabled", JBool (fc_Disabled x))].
Definition FlagChange_field (x : FlagChange) (k : string) (v : json) : result FlagChange :=
  let 'Build_FlagChange flag env pct off := x in
  if EqualFold k "flag" then try s <- into_string flag v; Ok (Build_FlagChange s env pct off)
  else if EqualFold k "environment" then try s <- into_string env v; Ok (Build_FlagChange flag s pct off)
  else if EqualFold k "percentage" then try n <- into_int pct v; Ok (Build_FlagChange flag env n off)
  else if EqualFold k "disabled" then try b <- into_bool off v; Ok (Build_FlagChange flag env pct b)
  else Ok x.

Definition TrafficChange_json (x : TrafficChange) : json :=
  JObj [("route", JStr (tc_Route x)); ("namespace", JStr (tc_Namespace x)); ("stableService", JStr (tc_StableService x));
        ("canaryService", JStr (tc_CanaryService x)); ("weight", JNum (pretty (tc_Weight x)))].
Definition TrafficChange_field (x : TrafficChange) (k : string) (v : json) : result TrafficChange :=
  let 'Build_TrafficChange route ns stable canary weight := x in
  if EqualFold k "route" then try s <- into_string route v; Ok (Build_TrafficChange s ns stable canary weight)
  else if EqualFold k "namespace" then try s <- into_string ns v; Ok (Build_TrafficChange route s stable canary weight)
  else if EqualFold k "stableService" then try s <- into_string stable v; Ok (Build_TrafficChange route ns s canary weight)
  else if EqualFold k "canaryService" then try s <- into_string canary v; Ok (Build_TrafficChange route ns stable s weight)
  else if EqualFold k "weight" then try n <- into_int weight v; Ok (Build_TrafficChange route ns stable canary n)
  else Ok x.

Definition MetricQuery_json (q : string) : json := JObj [("query", JStr q)].
Definition MetricQuery_field (q : string) (k : string) (v : json) : result string :=
  if EqualFold k "query" then into_string q v else Ok q.

Definition MetricResult_json (f : float) : json := JObj [("value", JNum (float_text f))].
Definition MetricResult_field (f : float) (k : string) (v : json) : result float :=
  if EqualFold k "value" then match v with JNum lit => float_parse lit | JNull => Ok f | _ => Err wrong_type end else Ok f.

#[export] Instance json_wire : Wire := {|
  enc_apply_in x := Marshal (ApplyInput_json x);
  dec_apply_in := decode_into ApplyInput_field {| ai_Kind := ""; ai_Spec := ""; ai_Checksum := "" |};
  enc_apply_out x := Marshal (ApplyOutput_json x);
  dec_apply_out := decode_into ApplyOutput_field {| ao_Changed := false; ao_Detail := "" |};
  enc_observe x := Marshal (ObserveOutput_json x);
  dec_observe := decode_into ObserveOutput_field {| oo_Value := ""; oo_Meta := ∅ |};
  enc_health x := Marshal (HealthOutput_json x);
  dec_health := decode_into HealthOutput_field {| ho_State := 0; ho_Reason := "" |};
  enc_flag x := Marshal (FlagChange_json x);
  dec_flag := decode_into FlagChange_field (Build_FlagChange "" "" 0 false);
  enc_traffic x := Marshal (TrafficChange_json x);
  dec_traffic := decode_into TrafficChange_field (Build_TrafficChange "" "" "" "" 0);
  enc_query q := Marshal (MetricQuery_json q);
  dec_query := decode_into MetricQuery_field "";
  enc_metric f := Marshal (MetricResult_json f);
  dec_metric := decode_into MetricResult_field PrimFloat.zero |}.
End Payloads.

(** ** The laws *)

(** Names of members are compared by evaluation. *)
Ltac eval_names :=
  cbn [into_struct fold_members]; unfold ApplyInput_field, ApplyOutput_field, ObserveOutput_field, HealthOutput_field;
  repeat match goal with |- context [EqualFold ?a ?b] =>
    let r := eval vm_compute in (EqualFold a b) in change (EqualFold a b) with r end; cbv iota;
  cbn [into_string into_bool ai_Kind ai_Spec ai_Checksum ao_Changed ao_Detail oo_Value oo_Meta ho_State ho_Reason].

Lemma decode_exact {A} (field : A → string → json → result A) zero v :
  well_formed v = true → valid_json v = true → (nesting v ≤ 100)%nat → decode_into field zero (Marshal v) = into_struct field zero v.
Proof. intros Hw Hv Hn. unfold decode_into. rewrite Unmarshal_exact; [done..|by apply shallow]. Qed.

(** Base64 is ASCII, so it is UTF-8. *)
Fixpoint ascii_only (s : string) : bool := match s with String c s => byte_in 0 0x7F c && ascii_only s | "" => true end.
Lemma ascii_valid s : ascii_only s = true → valid_utf8 s = true.
Proof.
  unfold valid_utf8. induction s as [|c s IH]; [done|]. cbn [ascii_only runes]. intros Ha. split_bool. rewrite H. cbn [forallb].
  by rewrite IH.
Qed.

Lemma letter_ascii url n : 0 ≤ n < 64 → byte_in 0 0x7F (letter url n) = true.
Proof.
  intros Hn. assert (forallb (λ n, byte_in 0 0x7F (letter url n)) (seqZ 0 64) = true) as H by (destruct url; vm_compute; done).
  rewrite forallb_forall in H. apply H, list_elem_of_In, elem_of_seqZ. lia.
Qed.

Lemma base64_ascii enc s : ascii_only (EncodeToString enc s) = true.
Proof.
  induction s as [|a|a b|a b c s IH] using string_ind3; [done|..];
    pose proof (byte_range a); try pose proof (byte_range b); try pose proof (byte_range c);
    cbn [EncodeToString ascii_only]; rewrite !letter_ascii by by_parts; [by destruct (enc_pad enc)..|done].
Qed.

Lemma fold_strings (m : gmap string string) l acc : ∃ m',
  fold_members strings_member acc ((λ k, (k, JStr (default "" (m !! k)))) <$> l) = Ok m' ∧
  ∀ k, m' !! k = if bool_decide (k ∈ l) then Some (default "" (m !! k)) else acc !! k.
Proof.
  revert acc. induction l as [|k l IH]; intros acc; [exists acc; split; [done|intros k]; by rewrite bool_decide_false by set_solver|].
  cbn [fmap list_fmap fold_members strings_member into_string]. destruct (IH (<[k := default "" (m !! k)]> acc)) as (m' & Hf & Hl).
  exists m'. split; [done|]. intros k'. rewrite Hl. destruct (decide (k' = k)) as [->|Hne].
  - rewrite lookup_insert_eq, (bool_decide_true (k ∈ k :: l)) by set_solver. by case_bool_decide.
  - rewrite lookup_insert_ne by done. case_bool_decide; case_bool_decide; set_solver.
Qed.

Lemma into_of_strings m : into_strings ∅ (of_strings m) = Ok m.
Proof.
  unfold of_strings. destruct (Nat.eqb_spec (size m) 0) as [E|]; [by apply map_size_empty_iff in E as ->|].
  unfold into_strings. cbn [into_struct]. destruct (fold_strings m (sort_strings (elements (dom m))) ∅) as (m' & -> & Hl). f_equal.
  apply map_eq. intros k. rewrite Hl.
  assert (k ∈ sort_strings (elements (dom m)) ↔ k ∈ dom m) as Hd by (unfold sort_strings; rewrite merge_sort_Permutation; apply elem_of_elements).
  rewrite elem_of_dom in Hd. destruct (m !! k) as [v|] eqn:Ek.
  - rewrite bool_decide_true; [done|]. apply Hd. by eexists.
  - rewrite bool_decide_false; [done|]. intros [? Hk]%Hd. congruence.
Qed.

Lemma of_strings_json m : well_formed (of_strings m) = true ∧ (nesting (of_strings m) ≤ 1)%nat.
Proof.
  unfold of_strings. case_match; [split; [done|simpl; lia]|]. cbn [well_formed nesting]. set (l := sort_strings _). clearbody l.
  induction l as [|k l [IHw IHn]]; [done|]. cbn [fmap list_fmap forallb snd foldr well_formed nesting]. rewrite IHw. split; [done|]. lia.
Qed.

Lemma of_strings_valid m : map_Forall (λ k v, valid_utf8 k ∧ valid_utf8 v) m → valid_json (of_strings m) = true.
Proof.
  intros Hm. unfold of_strings. case_match; [done|]. cbn [valid_json]. apply forallb_forall. intros [k v] Hin%list_elem_of_In.
  apply list_elem_of_fmap in Hin as (k' & [= -> ->] & Hk). unfold sort_strings in Hk. rewrite merge_sort_Permutation in Hk.
  apply elem_of_elements, elem_of_dom in Hk as [v Hk]. rewrite Hk. cbn [fst snd valid_json default from_option id].
  destruct (Hm _ _ Hk) as [H1 H2]. apply Is_true_true in H1, H2. by rewrite H1, H2.
Qed.

(** ** Integers *)
Lemma pretty_char_digit x : (x < 10)%N → ParseDuration.is_digit (pretty_N_char x) = true ∧
  ParseDuration.digit (pretty_N_char x) = Some (Z.of_N x) ∧
  pretty_N_char x ≠ Ascii.ascii_of_nat 45 ∧ pretty_N_char x ≠ Ascii.ascii_of_nat 43.
Proof.
  intros Hx. assert (x = 0 ∨ x = 1 ∨ x = 2 ∨ x = 3 ∨ x = 4 ∨ x = 5 ∨ x = 6 ∨ x = 7 ∨ x = 8 ∨ x = 9)%N as Hc by lia.
  naive_solver.
Qed.

Lemma pretty_go_reads x : (0 < x)%N → ∀ s,
  atoi_go 0 (pretty_N_go x s) = atoi_go (Z.of_N x) s ∧ (digits_of (pretty_N_go x s)).2 = (digits_of s).2 ∧
  ∃ c t, pretty_N_go x s = String c t ∧ c ≠ Ascii.ascii_of_nat 45 ∧ c ≠ Ascii.ascii_of_nat 43.
Proof.
  induction (N.lt_wf_0 x) as [x _ IH]. intros Hx s. rewrite pretty_N_go_step by done.
  destruct (pretty_char_digit (x `mod` 10)) as (Hd & Hv & Hn); [apply N.mod_lt; lia|].
  assert (∀ y, (x / 10)%N = y → Z.of_N y * 10 + Z.of_N (x `mod` 10) = Z.of_N x) as Hxy
    by (intros y <-; pose proof (N.div_mod x 10); lia).
  assert (∀ y, atoi_go y (String (pretty_N_char (x `mod` 10)) s) = atoi_go (y * 10 + Z.of_N (x `mod` 10)) s) as Ha
    by (intros y; cbn [atoi_go]; by rewrite Hv).
  assert ((digits_of (String (pretty_N_char (x `mod` 10)) s)).2 = (digits_of s).2) as Hs
    by (cbn [digits_of]; rewrite Hd; by destruct (digits_of s)).
  destruct (decide (x / 10 = 0)%N) as [E|E].
  - rewrite E, pretty_N_go_0, Ha, Hs. rewrite <- (Hxy _ E). split; [f_equal; lia|]. split; [done|]. by eexists _, s.
  - destruct (IH (x / 10)%N) with (s := String (pretty_N_char (x `mod` 10)) s) as (H1 & H2 & H3); [by apply N.div_lt|by apply N.neq_0_lt_0|].
    rewrite H1, Ha, H2, Hs, (Hxy _ eq_refl). done.
Qed.

Lemma strconv_Atoi_pretty z : -2 ^ 63 ≤ z < 2 ^ 63 → strconv_Atoi (pretty z) = Some z.
Proof.
  intros Hz. destruct z as [|p|p]; [done| |]; unfold strconv_Atoi.
  - change (pretty (Z.pos p)) with (pretty_N_go (Npos p) "").
    destruct (pretty_go_reads (Npos p) ltac:(lia) "") as (Ha & Hd & c & t & E & H1 & H2). rewrite E in *.
    rewrite !bool_decide_false by done. rewrite Hd. cbn [snd digits_of orb negb]. cbv zeta.
    rewrite (bool_decide_true ("" = "")) by done. cbn [negb]. rewrite Ha. cbn [atoi_go].
    rewrite (proj2 (Z.ltb_ge _ (- 2 ^ 63))), (proj2 (Z.ltb_ge (2 ^ 63 - 1) _)) by lia. done.
  - change (pretty (Z.neg p)) with (String (Ascii.ascii_of_nat 45) (pretty_N_go (Npos p) "")).
    cbv iota beta. rewrite bool_decide_true by done.
    destruct (pretty_go_reads (Npos p) ltac:(lia) "") as (Ha & Hd & c & t & E & _ & _). rewrite E in *.
    rewrite bool_decide_false by done. rewrite Hd. cbn [snd digits_of orb negb]. cbv zeta.
    rewrite (bool_decide_true ("" = "")) by done. cbn [negb]. rewrite Ha. cbn [atoi_go].
    rewrite (proj2 (Z.ltb_ge _ (- 2 ^ 63))), (proj2 (Z.ltb_ge (2 ^ 63 - 1) _)) by lia. done.
Qed.

#[export] Instance json_wire_laws `{FloatText} : WireLaws.
Proof.
  split.
  - intros [k sp c] Hk Hc. apply Is_true_true in Hk, Hc. cbn [ai_Kind ai_Checksum] in *. unfold enc_apply_in, dec_apply_in, json_wire, ApplyInput_json.
    cbn [ai_Kind ai_Spec ai_Checksum]. rewrite decode_exact; [|done| |vm_compute; lia].
    + eval_names. cbn [into_bytes]. by rewrite DecodeString_EncodeToString.
    + cbn [valid_json forallb fst snd]. rewrite Hk, Hc, (ascii_valid _ (base64_ascii _ _)). done.
  - intros [c d] Hd. apply Is_true_true in Hd. cbn [ao_Detail] in *. unfold enc_apply_out, dec_apply_out, json_wire, ApplyOutput_json.
    cbn [ao_Changed ao_Detail]. rewrite decode_exact; [|done| |vm_compute; lia].
    + by eval_names.
    + cbn [valid_json forallb fst snd]. by rewrite Hd.
  - intros [v m] Hv Hm. apply Is_true_true in Hv. cbn [oo_Value oo_Meta] in *. unfold enc_observe, dec_observe, json_wire, ObserveOutput_json.
    cbn [oo_Value oo_Meta]. destruct (of_strings_json m) as [Hw Hn]. rewrite decode_exact.
    + eval_names. by rewrite into_of_strings.
    + cbn [well_formed forallb snd]. by rewrite Hw.
    + cbn [valid_json forallb fst snd]. by rewrite Hv, of_strings_valid.
    + cbn [nesting fmap list_fmap foldr snd]. lia.
  - intros [st r] Hr Hs. apply Is_true_true in Hr. cbn [ho_State ho_Reason] in *. unfold enc_health, dec_health, json_wire, HealthOutput_json.
    cbn [ho_State ho_Reason]. rewrite decode_exact.
    + eval_names. unfold into_int. by rewrite strconv_Atoi_pretty.
    + cbn [well_formed forallb snd]. by rewrite bool_decide_true by apply pretty_number.
    + cbn [valid_json forallb fst snd]. by rewrite Hr.
    + vm_compute. lia.
Qed.

(** C36. The target a host drives through a plugin, over the documents of
    [wire.go] as they are written and read, is the target the plugin serves for
    the manifest without its local root and captured rendering, which do not
    travel: same answers, same effects, with errors marked as the plugin's, except
    that a health the target calls unknown, which the protocol does not have,
    becomes an error.  The specification may be any bytes; the manifest's kind and
    checksum and the texts the target answers with are UTF-8. *)
Theorem plugin_is_transparent_over_json `{FloatText} {W} (t : PluginTarget W) name version safety grpc m w :
  valid_utf8 (rm_Kind m) → valid_utf8 (rm_Checksum m) → speaks_utf8 t (wire_manifest m) w →
  adapter_Apply (remote t name version safety grpc) m w = seen grpc ToolApply Ok (pt_Apply t (wire_manifest m) w) ∧
  adapter_Observe (remote t name version safety grpc) w = seen grpc ToolObserve Ok (pt_Observe t w) ∧
  adapter_Health (remote t name version safety grpc) w =
    seen grpc ToolHealth (λ hs, match hs_State hs with
                                | HealthUnknown => Err (Errorf "plugin: invalid health state 0")
                                | _ => Ok hs
                                end) (pt_Health t w).
Proof. apply plugin_is_transparent. Qed.

#[local] Instance demo_floats : FloatText := {| float_parse := λ _, Err wrong_type; float_text := λ _, "0" |}.

Lemma plugin_is_transparent_over_json_witness :
  adapter_Apply (remote PluginDemo.keeper "acme/exotic" "1.0.0" PluginDemo.keeper_safety id) PluginDemo.keeper_manifest "old" =
    (Ok {| re_Changed := true; re_Detail := "kept" |}, "new").
Proof.
  rewrite (proj1 (plugin_is_transparent_over_json PluginDemo.keeper "acme/exotic" "1.0.0" PluginDemo.keeper_safety id PluginDemo.keeper_manifest "old" I I
    ltac:(by split; [intros r w' [= <- <-]|intros fp w' [= <- <-]; split; [|apply map_Forall_empty]|intros hs w' [= <- <-]]))).
  reflexivity.
Defined.
