(* ===== verification/Conformance.v ===== *)
(** * The conformance suites

    The contract tests a target ([pkg/conformance]) and a flag provider
    ([pkg/flagconformance]) are held to, as the suites run them: each check on a
    fresh instance.  A target that passes also passes behind a plugin, and fails
    behind one when it fails. *)

From S2P Require Import Prelude Encoding Json Config Model Security World ImageSelect Git ConfigLoad Process KubeRender.
From S2P Require Import KubeCluster KubeTarget Hosts Plugins PluginSafety PluginWire.

(** ** Targets ([conformance.go]) *)
Section Targets.
Context {W : Type}.
Implicit Types t : PluginTarget W.

Definition CheckIdempotent t (m : RawManifest) : Act W (option err) :=
  r ← pt_Apply t m;
  match r with
  | Err e => mret (Some (Wrap "conformance: first apply failed: " e ""))
  | Ok _ =>
      fp ← pt_Observe t;
      match fp with
      | Err e => mret (Some (Wrap "conformance: observe after apply: " e ""))
      | Ok fp =>
          if (rm_Checksum m != "") && (fp_Value fp != rm_Checksum m) then
            mret (Some (Errorf ("conformance: after apply, observed fingerprint " +:+ quote (fp_Value fp) +:+
                                " != desired checksum " +:+ quote (rm_Checksum m))))
          else
            res ← pt_Apply t m;
            mret (match res with
                  | Err e => Some (Wrap "conformance: second apply failed: " e "")
                  | Ok res => if re_Changed res then
                      Some (Errorf "conformance: re-applying identical desired state reported Changed=true; Apply must be idempotent")
                      else None
                  end)
      end
  end.

Definition CheckFingerprintStable t : Act W (option err) :=
  first ← pt_Observe t;
  match first with
  | Err e => mret (Some (Wrap "conformance: observe (1): " e ""))
  | Ok first =>
      second ← pt_Observe t;
      mret (match second with
            | Err e => Some (Wrap "conformance: observe (2): " e "")
            | Ok second => if fp_Value first != fp_Value second then
                Some (Errorf ("conformance: fingerprint unstable: " +:+ quote (fp_Value first) +:+ " != " +:+
                              quote (fp_Value second) +:+ " across consecutive observes"))
                else None
            end)
  end.

Definition CheckHealth t : Act W (option err) :=
  hs ← pt_Health t;
  mret (match hs with
        | Err e => Some (Wrap "conformance: health: " e "")
        | Ok hs => if hs_State hs == HealthUnknown then
            Some (Errorf "conformance: Health returned HealthUnknown; a target must report a concrete liveness state") else None
        end).

(** The second subtest applies before it observes. *)
Definition CheckStableAfterApply t (m : RawManifest) : Act W (option err) :=
  r ← pt_Apply t m;
  match r with Err e => mret (Some (Wrap "apply before observe: " e "")) | Ok _ => CheckFingerprintStable t end.

(** What a factory hands out: a bound target and the state it starts from. *)
Definition Factory : Type := nat → result (PluginTarget W * W).

Definition subtest (factory : Factory) (n : nat) (name : string) (test : PluginTarget W → Act W (option err)) : string * option err :=
  (name, match factory n with
         | Err e => Some (Wrap "construct target: " e "")
         | Ok (t, w) => (test t w).1
         end).

Definition conformance_Run (factory : Factory) (sample : RawManifest) : list (string * option err) :=
  [subtest factory 0 "Idempotent" (λ t, CheckIdempotent t sample);
   subtest factory 1 "FingerprintStable" (λ t, CheckStableAfterApply t sample);
   subtest factory 2 "Health" CheckHealth].
End Targets.
Arguments Factory : clear implicits.

(** ** Flag providers ([flagconformance.go]) *)
Section Flags.
Context {W : Type}.

(** [ApplyFlag] under a context that is cancelled or not. *)
Definition FlagProvider : Type := bool → FlagChange → Act W (option err).
Implicit Types p : FlagProvider.

Definition canaryRange : list Z := [0; 1; 25; 50; 100].

Definition flag_with (sample : FlagChange) (pct : Z) (disabled : bool) : FlagChange :=
  {| fc_Flag := fc_Flag sample; fc_Environment := fc_Environment sample; fc_Percentage := pct; fc_Disabled := disabled |}.

Fixpoint check_range p (sample : FlagChange) (l : list Z) : Act W (option err) :=
  match l with
  | [] => mret None
  | pct :: l =>
      er ← p false (flag_with sample pct false);
      match er with
      | Some e => mret (Some (Wrap ("flagconformance: ApplyFlag at " +:+ pretty pct +:+
                   "% failed; a provider must accept the full 0-100 canary range: ") e ""))
      | None => check_range p sample l
      end
  end.
Definition CheckCanaryRange p (sample : FlagChange) : Act W (option err) := check_range p sample canaryRange.

Definition flag_CheckIdempotent p (sample : FlagChange) : Act W (option err) :=
  let c := flag_with sample 50 false in
  er ← p false c;
  match er with
  | Some e => mret (Some (Wrap "flagconformance: first ApplyFlag failed: " e ""))
  | None =>
      er ← p false c;
      mret ((λ e, Wrap "flagconformance: re-applying the identical change failed; ApplyFlag must be idempotent: " e "") <$> er)
  end.

Definition CheckDisabled p (sample : FlagChange) : Act W (option err) :=
  er ← p false (flag_with sample 0 true);
  mret ((λ e, Wrap "flagconformance: ApplyFlag with Disabled=true failed; a provider must drive the disabled state: " e "") <$> er).

Definition CheckHonorsContext p (sample : FlagChange) : Act W (option err) :=
  er ← p true (flag_with sample 50 false);
  mret (match er with
        | None => Some (Errorf "flagconformance: ApplyFlag returned nil under a cancelled context; a provider must thread the context into its backend calls")
        | Some _ => None
        end).

Definition flag_subtest (factory : nat → result (FlagProvider * W)) (n : nat) (name : string) (test : FlagProvider → Act W (option err))
    : string * option err :=
  (name, match factory n with Err e => Some (Wrap "construct provider: " e "") | Ok (p, w) => (test p w).1 end).

Definition flagconformance_Run (factory : nat → result (FlagProvider * W)) (sample : FlagChange) : list (string * option err) :=
  [flag_subtest factory 0 "CanaryRange" (λ p, CheckCanaryRange p sample);
   flag_subtest factory 1 "Idempotent" (λ p, flag_CheckIdempotent p sample);
   flag_subtest factory 2 "Disabled" (λ p, CheckDisabled p sample);
   flag_subtest factory 3 "HonorsContext" (λ p, CheckHonorsContext p sample)].
End Flags.

(** ** What passing means *)
Section Meaning.
Context {W : Type} `{FloatText}.
Implicit Types t : PluginTarget W.

(** A target that answers in UTF-8 whatever it is asked. *)
Definition utf8_target t : Prop := ∀ m w, speaks_utf8 t m w.

(** The target behind a plugin. *)
Definition plugged (name version : string) (safety : Safety) (grpc : err → err) t : PluginTarget W := {|
  pt_Apply := adapter_Apply (remote t name version safety grpc);
  pt_Observe := adapter_Observe (remote t name version safety grpc);
  pt_Health := adapter_Health (remote t name version safety grpc) |}.

(** The two runs end in the same state, both passed or both failed. *)
Definition same_verdict {A} (r r' : option A * W) : Prop := (r.1 = None ↔ r'.1 = None) ∧ r.2 = r'.2.

(** What a target answers behind a plugin, where the whole manifest travels. *)
Record behind (t t' : PluginTarget W) (m : RawManifest) : Prop := {
  behind_apply : ∀ w, (pt_Apply t' m w).2 = (pt_Apply t m w).2 ∧
    match (pt_Apply t m w).1 with Ok r => (pt_Apply t' m w).1 = Ok r | Err _ => is_ok (pt_Apply t' m w).1 = false end;
  behind_observe : ∀ w, (pt_Observe t' w).2 = (pt_Observe t w).2 ∧
    match (pt_Observe t w).1 with Ok r => (pt_Observe t' w).1 = Ok r | Err _ => is_ok (pt_Observe t' w).1 = false end;
  behind_health : ∀ w, (pt_Health t' w).2 = (pt_Health t w).2 ∧
    match (pt_Health t w).1 with
    | Ok r => if hs_State r == HealthUnknown then is_ok (pt_Health t' w).1 = false else (pt_Health t' w).1 = Ok r
    | Err _ => is_ok (pt_Health t' w).1 = false
    end;
}.

Lemma plugged_behind name version safety grpc t m : utf8_target t → valid_utf8 (rm_Kind m) → valid_utf8 (rm_Checksum m) →
  rm_Root m = "" → rm_Rendered m = "" → behind t (plugged name version safety grpc t) m.
Proof.
  intros Ht Hk Hc Hr Hd. assert (wire_manifest m = m) as Hm by (destruct m; simpl in *; by subst).
  split; intros w; destruct (plugin_is_transparent t name version safety grpc m w Hk Hc (Ht _ w)) as (Ha & Ho & Hh);
    cbn [plugged pt_Apply pt_Observe pt_Health].
  - rewrite Ha, Hm. unfold seen. cbn [fst snd]. by destruct (pt_Apply t m w) as [[]].
  - rewrite Ho. unfold seen. cbn [fst snd]. by destruct (pt_Observe t w) as [[]].
  - rewrite Hh. unfold seen. cbn [fst snd]. destruct (pt_Health t w) as [[[[] reason]|e] w']; done.
Qed.

Lemma idempotent_behind t t' m w : behind t t' m → same_verdict (CheckIdempotent t m w) (CheckIdempotent t' m w).
Proof.
  intros [Ha Ho _]. unfold CheckIdempotent, mbind, Act_bind, mret, Act_ret.
  pose proof (Ha w) as [E1 V1]. destruct (pt_Apply t m w) as [[r1|e1] w1], (pt_Apply t' m w) as [[r1'|e1'] w1']; simplify_eq/=; try done.
  pose proof (Ho w1) as [E2 V2]. destruct (pt_Observe t w1) as [[f|e2] w2], (pt_Observe t' w1) as [[f'|e2'] w2']; simplify_eq/=; try done.
  case_match; [done|].
  pose proof (Ha w2) as [E3 V3]. destruct (pt_Apply t m w2) as [[r3|e3] w3], (pt_Apply t' m w2) as [[r3'|e3'] w3']; simplify_eq/=; try done.
Qed.

Lemma stable_behind t t' m w : behind t t' m → same_verdict (CheckStableAfterApply t m w) (CheckStableAfterApply t' m w).
Proof.
  intros [Ha Ho _]. unfold CheckStableAfterApply, CheckFingerprintStable, mbind, Act_bind, mret, Act_ret.
  pose proof (Ha w) as [E1 V1]. destruct (pt_Apply t m w) as [[r1|e1] w1], (pt_Apply t' m w) as [[r1'|e1'] w1']; simplify_eq/=; try done.
  pose proof (Ho w1) as [E2 V2]. destruct (pt_Observe t w1) as [[f|e2] w2], (pt_Observe t' w1) as [[f'|e2'] w2']; simplify_eq/=; try done.
  pose proof (Ho w2) as [E3 V3]. destruct (pt_Observe t w2) as [[g|e3] w3], (pt_Observe t' w2) as [[g'|e3'] w3']; simplify_eq/=; try done.
Qed.

Lemma health_behind t t' m w : behind t t' m → same_verdict (CheckHealth t w) (CheckHealth t' w).
Proof.
  intros [_ _ Hh]. unfold CheckHealth, mbind, Act_bind, mret, Act_ret. pose proof (Hh w) as [E1 V1].
  destruct (pt_Health t w) as [[h|e] w1], (pt_Health t' w) as [[h'|e'] w1']; simplify_eq/=; try done;
    repeat case_bool_decide; simplify_eq/=; try done; by split.
Qed.

Definition passes (run : list (string * option err)) : Prop := Forall (λ s, s.2 = None) run.

(** A target passes the conformance suite behind a plugin exactly when it passes
    it directly. *)
Theorem conformance_survives_the_plugin name version safety grpc (factory : Factory W) m :
  (∀ n t w, factory n = Ok (t, w) → utf8_target t) → valid_utf8 (rm_Kind m) → valid_utf8 (rm_Checksum m) →
  rm_Root m = "" → rm_Rendered m = "" →
  passes (conformance_Run factory m) ↔
  passes (conformance_Run (λ n, try tw <- factory n; Ok (plugged name version safety grpc tw.1, tw.2)) m).
Proof.
  intros Hf Hk Hc Hr Hd. unfold passes, conformance_Run, subtest. rewrite !Forall_cons, !Forall_nil. cbn [snd].
  assert (∀ (n : nat) (test : PluginTarget W → Act W (option err)),
    (∀ t t' w, behind t t' m → same_verdict (test t w) (test t' w)) →
    match factory n with Err e => Some (Wrap "construct target: " e "") | Ok (t, w) => (test t w).1 end = None ↔
    match (try tw <- factory n; Ok (plugged name version safety grpc tw.1, tw.2)) with
    | Err e => Some (Wrap "construct target: " e "") | Ok (t, w) => (test t w).1 end = None) as Hsame.
  { intros n test Hcheck. destruct (factory n) as [[t w]|e] eqn:En; [|done]. cbn [fst snd].
    apply Hcheck. apply plugged_behind; try done. by eapply Hf. }
  rewrite (Hsame 0%nat (λ t, CheckIdempotent t m)), (Hsame 1%nat (λ t, CheckStableAfterApply t m)), (Hsame 2%nat CheckHealth); [done|..];
    intros; first [by eapply health_behind|by apply stable_behind|by apply idempotent_behind].
Qed.
End Meaning.

(** A target that keeps what it was given passes, directly and behind a plugin. *)
Definition careful : PluginTarget string := {|
  pt_Apply m w := (Ok {| re_Changed := w != rm_Checksum m; re_Detail := "" |}, rm_Checksum m);
  pt_Observe w := (Ok {| fp_Value := if valid_utf8 w then w else ""; fp_Meta := ∅ |}, w);
  pt_Health w := (Ok {| hs_State := HealthHealthy; hs_Reason := "" |}, w) |}.
Definition careful_manifest : RawManifest :=
  {| rm_Kind := "exotic"; rm_Spec := "size: 3"; rm_Checksum := "new"; rm_Root := ""; rm_Rendered := "" |}.

#[local] Existing Instance demo_floats.

Lemma conformance_survives_the_plugin_witness :
  passes (conformance_Run (λ _, try tw <- Ok (careful, ""); Ok (plugged "acme/exotic" "1.0.0" PluginDemo.keeper_safety id tw.1, tw.2)) careful_manifest).
Proof.
  apply (conformance_survives_the_plugin "acme/exotic" "1.0.0" PluginDemo.keeper_safety id (λ _, Ok (careful, "")) careful_manifest);
    [|vm_compute; done..|].
  - intros n t w [= <- <-] m w0. split; [intros r w' [= <- <-]; done| |intros hs w' [= <- <-]; done].
    intros fp w' [= <- <-]. split; [|apply map_Forall_empty]. cbn [fp_Value]. by destruct (valid_utf8 w0) eqn:E; [apply Is_true_true|].
  - unfold passes. vm_compute. repeat constructor.
Defined.
