(* ===== verification/MarketSafety.v ===== *)
(** * What the plugin commands install

    Nothing is put into a plugin directory that was not read and hashed first;
    what comes from the registry has the digest the index publishes and, when the
    release is signed, the publisher's signature; and where signatures are
    required nothing unsigned is installed, by any command.  The rules are those
    of programs whose calls may depend on what was called before. *)

From S2P Require Import Prelude Encoding Provenance Model Security World Git Process Marketplace.

(** ** Programs whose calls depend on the past *)
Section Past.
Context {E : Type} (Good : list E → E → Prop).

(** Every call of [new], made after [tr], was good when it was made. *)
Fixpoint good_since (new tr : list E) : Prop :=
  match new with [] => True | c :: new => Good (new ++ tr) c ∧ good_since new tr end.

Lemma good_since_app a b tr : good_since (a ++ b) tr ↔ good_since a (b ++ tr) ∧ good_since b tr.
Proof. induction a as [|c a IH]; simpl; [tauto|]. rewrite IH, <- (assoc_L (++)). tauto. Qed.

(** [m] after [tr] makes good calls only and ends in [Q]. *)
Definition wp {A} (m : Prog E A) (Q : A → list E → Prop) (tr : list E) : Prop :=
  ∃ new, (m tr).2 = new ++ tr ∧ good_since new tr ∧ Q (m tr).1 (m tr).2.

Lemma wp_ret {A} (a : A) (Q : A → list E → Prop) tr : Q a tr → wp (mret a) Q tr.
Proof. intros HQ. by exists []. Qed.

Lemma wp_call {A} e (f : list E → A) (Q : A → list E → Prop) tr : Good tr e → Q (f (e :: tr)) (e :: tr) → wp (call e f) Q tr.
Proof. intros Hg HQ. by exists [e]. Qed.

Lemma wp_bind {A B} (m : Prog E A) (k : A → Prog E B) Q tr : wp m (λ a, wp (k a) Q) tr → wp (m ≫= k) Q tr.
Proof.
  intros (new & Hn & Hg & more & Hm & Hg' & HQ). unfold wp, mbind, Prog_bind in *.
  destruct (m tr) as [a tr'] eqn:Em. simpl in *. subst tr'. exists (more ++ new).
  split; [by rewrite Hm, (assoc_L (++))|]. split; [by apply good_since_app|done].
Qed.

Lemma wp_result {A B} (m : Prog E (result A)) h (k : A → Prog E B) Q tr :
  wp m (λ r, match r with Ok a => wp (k a) Q | Err e => wp (h e) Q end) tr → wp (attempt_result m h k) Q tr.
Proof. intros Hm. apply wp_bind. destruct Hm as (new & Hn & Hg & H). exists new. split_and!; [done..|]. by destruct ((m tr).1). Qed.

Lemma wp_error {B} (m : Prog E (option err)) h (k : Prog E B) Q tr :
  wp m (λ r, match r with Some e => wp (h e) Q | None => wp k Q end) tr → wp (attempt_error m h k) Q tr.
Proof. intros Hm. apply wp_bind. destruct Hm as (new & Hn & Hg & H). exists new. split_and!; [done..|]. by destruct ((m tr).1). Qed.

Lemma wp_mono {A} (m : Prog E A) (Q Q' : A → list E → Prop) tr :
  wp m Q tr → (∀ a tr', tr `suffix_of` tr' → Q a tr' → Q' a tr') → wp m Q' tr.
Proof.
  intros (new & Hn & Hg & HQ) Himp. exists new. split_and!; [done..|]. apply Himp; [|done]. rewrite Hn. by exists new.
Qed.

Lemma wp_finally {A} (after : Prog E unit) (m : Prog E A) Q tr :
  wp m (λ a, wp after (λ _, Q a)) tr → wp (finally after m) Q tr.
Proof.
  intros Hm. apply wp_bind. eapply wp_mono; [exact Hm|]. intros a tr' _ Ha. apply wp_bind.
  eapply wp_mono; [exact Ha|]. intros [] tr2 _ HQ. by apply wp_ret.
Qed.
End Past.

(** ** What has been established when a file is installed *)
Section Vetted.
Context `{CliHost}.
Notation P := (Prog CliCall).

(** A file was read with this content. *)
Definition file_was (path content : string) (tr : list CliCall) : Prop :=
  ∃ before, (CRead path :: before) `suffix_of` tr ∧ cl_read (CRead path :: before) = Ok content.

(** Cosign accepted a file for this verifier. *)
Definition accepted (v : CosignBlobVerifier) (path : string) (tr : list CliCall) : Prop :=
  ∃ before, (CVerifyBlob v path :: before) `suffix_of` tr ∧
    (VerifyBlob (λ _, cl_cosign (CVerifyBlob v path :: before)) v path 0%nat).1 = (true, "verified", None).

(** An index was downloaded. *)
Definition index_was (idx : PluginIndex) (tr : list CliCall) : Prop :=
  ∃ url before body ended, (CGet url :: before) `suffix_of` tr ∧
    cl_get (CGet url :: before) = DResponse 200 body ended ∧ cl_index body ended = Ok idx.

(** An artifact the index has for this plugin and platform, with the identity of
    its release. *)
Definition published (idx : PluginIndex) (name : string) (art : Artifact) (cos : option Cosign) : Prop :=
  ∃ p ver v, p ∈ idx ∧ rp_Name p = name ∧ rp_Versions p !! ver = Some v ∧ art ∈ ve_Artifacts v ∧ cos = ve_Cosign v ∧
    ar_OS art = cl_goos ∧ ar_Arch art = cl_goarch.

(** The digest is the published one, and a signed release has the publisher's
    signature. *)
Definition as_published (art : Artifact) (cos : option Cosign) (src : string) (tr : list CliCall) : Prop :=
  (∃ content, file_was src content tr ∧ EqualFold (hex_encode (cl_sha256 content)) (ar_SHA256 art) = true) ∧
  (∀ c, cos = Some c → Signed art = true →
     ∃ v, cb_CertIdentity v = co_Identity c ∧ cb_CertOIDCIssuer v = co_Issuer c ∧ accepted v src tr).

(** A file the operator named: a path that was looked up and exists, installed
    from there, or an https URL. *)
Definition named (source src : string) (tr : list CliCall) : Prop :=
  (src = source ∧ ∃ before, (CStat source :: before) `suffix_of` tr ∧ cl_stat (CStat source :: before) = None) ∨
  HasPrefix source "https://" = true.

(** When a file may be installed: it is as published under a name - the one
    asked for, if any - in a downloaded index, or is what was asked for by path or
    URL; and with required signatures one was accepted. *)
Definition vetted (asked : option string) (required : bool) (tr : list CliCall) (c : CliCall) : Prop :=
  match c with
  | CInstall src dst =>
      ((∃ idx name art cos, (∀ source, asked = Some source → name = source) ∧
          index_was idx tr ∧ published idx name art cos ∧ as_published art cos src tr) ∨
       (∃ source content, asked = Some source ∧ named source src tr ∧ file_was src content tr)) ∧
      (required = true → ∃ v, accepted v src tr)
  | _ => True
  end.

Lemma file_was_more p c tr tr' : tr `suffix_of` tr' → file_was p c tr → file_was p c tr'.
Proof. intros Hs (b & Hb & Hr). exists b. split; [by etrans|done]. Qed.
Lemma accepted_more v p tr tr' : tr `suffix_of` tr' → accepted v p tr → accepted v p tr'.
Proof. intros Hs (b & Hb & Hr). exists b. split; [by etrans|done]. Qed.
Lemma index_was_more i tr tr' : tr `suffix_of` tr' → index_was i tr → index_was i tr'.
Proof. intros Hs (u & b & bd & en & Hb & Hr). exists u, b, bd, en. split; [by etrans|done]. Qed.

Lemma named_more source p tr tr' : tr `suffix_of` tr' → named source p tr → named source p tr'.
Proof. intros Hs [(-> & b & Hb & Hr)|Hu]; [left|by right]. split; [done|]. exists b. split; [by etrans|done]. Qed.

Definition is_install (c : CliCall) : bool := match c with CInstall _ _ => true | _ => false end.

(** What the operator asks for: the source of an install, and signatures, by the
    environment or by the flag as [flag.Parse] reads it. *)
Definition asked_for (args : list string) : option string :=
  match args with sub :: source :: _ => if sub == "install" then Some source else None | _ => None end.

Definition flag_demands (flags : list Flag) (args : list string) : bool :=
  match flag_parse flags ∅ args with
  | Ok (vals, _) => bool_decide (vals !! "require-signature" = Some "true")
  | Err _ => false
  end.

Definition after_operand (args : list string) : list string :=
  match args with a :: rest => if HasPrefix a "-" then args else rest | [] => [] end.

Definition signature_demanded (args : list string) : bool :=
  truthy (cl_getenv "ROLLOPS_PLUGIN_REQUIRE_SIGNATURE") ||
  match args with
  | sub :: rest => flag_demands (if sub == "install" then install_flags else update_flags) (after_operand rest)
  | [] => false
  end.

Section Rules.
Context (asked : option string) (required : bool).
Notation wpv := (wp (vetted asked required)).

(** Programs that install nothing. *)
Lemma wp_quiet {A} (m : P A) (Q : A → list CliCall → Prop) tr :
  issues (λ c, is_install c = false) m → (∀ a tr', tr `suffix_of` tr' → Q a tr') → wpv m Q tr.
Proof.
  intros Hi HQ. destruct (Hi tr) as (new & Hn & HF). exists new. split; [done|]. split.
  - clear Hn. induction HF as [|c new Hc HF IH]; simpl; [done|]. split; [by destruct c|done].
  - apply HQ. rewrite Hn. by exists new.
Qed.

Lemma wp_step {A} e (f : list CliCall → A) (Q : A → list CliCall → Prop) tr :
  is_install e = false → Q (f (e :: tr)) (e :: tr) → wpv (call e f) Q tr.
Proof. intros He HQ. apply wp_call; [by destruct e|done]. Qed.

Lemma wp_println text (k : P (result string)) Q tr : wpv k Q (CPrint (text +:+ nl) :: tr) → wpv (println text;; k) Q tr.
Proof. intros Hk. apply wp_bind, wp_step; done. Qed.

Lemma wp_sha256File path tr :
  wpv (sha256File path) (λ r tr', match r with
                                  | Ok sum => ∃ content, file_was path content tr' ∧ sum = hex_encode (cl_sha256 content)
                                  | Err _ => True
                                  end) tr.
Proof.
  apply wp_result, wp_step; [done|]. destruct (cl_read _) as [content|e] eqn:Hr; apply wp_ret; [|done].
  exists content. split; [|done]. by exists tr.
Qed.

Lemma wp_verify_blob v path tr :
  wpv (verify_blob v path) (λ r tr', r.2 = None ∧ (r.1.1 = true → accepted v path tr')) tr.
Proof.
  apply wp_step; [done|].
  destruct (VerifyBlob _ v path 0%nat) as [[[ok reason] verr] n] eqn:Hv. simpl.
  assert ((ok, reason, verr) = (true, "verified", None) ∨ ok = false ∧ verr = None) as [Hok|[-> ->]]; [| |done].
  { unfold VerifyBlob, Provenance.run, mbind, Run_bind, mret, Run_ret in Hv.
    destruct (cl_cosign _ _) as [out [er|]]; injection Hv as <- <- <- <-; [by right|by left]. }
  injection Hok as -> -> ->. split; [done|]. intros _. exists tr. split; [done|]. by rewrite Hv.
Qed.

Lemma wp_check_signature v path tr :
  wpv (check_signature v path) (λ r tr', ∀ v', r = None → v = Some v' → accepted v' path tr') tr.
Proof.
  destruct v as [v|]; [|by apply wp_ret]. apply wp_bind, wp_step; [done|]. apply wp_bind.
  eapply wp_mono; [apply wp_verify_blob|]. intros [[ok reason] verr] tr1 _ [Hv Ha]. simpl in *. subst verr.
  destruct ok; simpl; [|by apply wp_ret]. apply wp_bind, wp_step; [done|]. apply wp_ret.
  intros v' _ [= <-]. eapply accepted_more; [|by apply Ha]. by eexists [_].
Qed.

Lemma quiet_in_place src : issues (λ c, is_install c = false) (in_place src).
Proof. unfold in_place, fail. issue; done. Qed.
Lemma quiet_downloaded pattern src : issues (λ c, is_install c = false) (downloaded pattern src).
Proof. unfold downloaded, to_temp, fail, remove. issue; done. Qed.
Lemma quiet_downloadTemp src : issues (λ c, is_install c = false) (downloadTemp src).
Proof. unfold downloadTemp. destruct (negb _); [apply quiet_in_place|apply quiet_downloaded]. Qed.
Lemma quiet_fetchPlugin src : issues (λ c, is_install c = false) (fetchPlugin src).
Proof. unfold fetchPlugin, fail. repeat case_match; first [apply quiet_downloaded|apply quiet_in_place|apply issues_ret]. Qed.
Lemma wp_fetchPlugin source tr :
  wpv (fetchPlugin source) (λ r tr', ∀ path c, r = Ok (path, c) → named source path tr') tr.
Proof.
  unfold fetchPlugin. destruct (HasPrefix source "https://") eqn:Hp.
  - apply wp_quiet; [apply quiet_downloaded|]. intros r tr' _ path c _. by right.
  - destruct (Contains _ _); [by apply wp_ret|]. apply wp_error, wp_step; [done|].
    destruct (cl_stat _) eqn:Hs; apply wp_ret; [done|]. intros path c [= <- _]. left. split; [done|]. by exists tr.
Qed.
Lemma quiet_cleanup c : issues (λ c, is_install c = false) (cleanup c).
Proof. unfold cleanup, remove. issue; done. Qed.
Lemma quiet_cleanup_all l : issues (λ c, is_install c = false) (cleanup_all l).
Proof. induction l as [|c l IH]; simpl; [apply issues_ret|]. apply issues_bind; [apply quiet_cleanup|done]. Qed.

Lemma wp_fetch url tr : wpv (Fetch url) (λ r tr', ∀ idx, r = Ok idx → index_was idx tr') tr.
Proof.
  apply wp_bind, wp_step; [done|]. apply wp_ret. intros idx. destruct (cl_get _) as [e|e|status body ended] eqn:Hg; [done..|].
  destruct (Z.eqb_spec status 200) as [->|]; simpl; [|done]. destruct (cl_index _ _) eqn:Hi; [|done]. intros [= <-].
  by exists url, tr, body, ended.
Qed.

(** *** A resolved artifact *)
Definition signature_fits (cos : option Cosign) (art : Artifact) (v : option CosignBlobVerifier) : Prop :=
  match v with
  | Some v => ∀ c, cos = Some c → cb_CertIdentity v = co_Identity c ∧ cb_CertOIDCIssuer v = co_Issuer c
  | None => ∀ c, cos = Some c → Signed art = false
  end.

Lemma wp_signature_material c art tr :
  wpv (signature_material c art) (λ r tr', ∀ v, r.1 = Ok v → signature_fits (Some c) art (Some v)) tr.
Proof.
  unfold signature_material. destruct (_ != _).
  - apply wp_result, wp_quiet; [apply quiet_downloadTemp|]. intros [[p cl]|e] tr1 _; apply wp_ret; [|done].
    intros v [= <-] c' [= <-]. done.
  - apply wp_result, wp_quiet; [apply quiet_downloadTemp|]. intros [[p cl]|e] tr1 _; [|by apply wp_ret].
    destruct (_ != _); [|apply wp_ret; by intros v [= <-] c' [= <-]].
    apply wp_result, wp_quiet; [apply quiet_downloadTemp|]. intros [[q cl']|e] tr2 _; apply wp_ret; [|done].
    intros v [= <-] c' [= <-]. done.
Qed.

Lemma wp_place_artifact name art cos v dest path idx tr :
  index_was idx tr → (∀ source, asked = Some source → name = source) → published idx name art cos →
  signature_fits cos art v → (required = true → is_Some v) → wpv (place_artifact name art v dest path) (λ _ _, True) tr.
Proof.
  intros Hidx Hname Hpub Hfit Hreq. apply wp_error. eapply wp_mono; [apply wp_check_signature|].
  intros [e|] tr1 Hs1 Ha; [by apply wp_ret|]. apply wp_result. eapply wp_mono; [apply wp_sha256File|].
  intros [sum|e] tr2 Hs2 Hsum; [|by apply wp_ret]. destruct Hsum as (content & Hf & ->).
  destruct (EqualFold _ _) eqn:Heq; simpl; [|by apply wp_ret].
  apply wp_println, wp_error, wp_step; [done|]. set (tr3 := CMkdirAll _ :: _).
  assert (tr2 `suffix_of` tr3) as Hs3 by by eexists [_; _].
  destruct (cl_mkdir tr3); [by apply wp_ret|].
  apply wp_error, wp_call; [|destruct (cl_install _); by apply wp_ret].
  assert (∀ v', v = Some v' → accepted v' path tr3) as Hacc.
  { intros v' Hv. eapply accepted_more; [|by apply Ha]. by etrans. }
  split.
  - left. exists idx, name, art, cos. split; [done|]. split; [eapply index_was_more; [|done]; by do 2 (etrans; [done|])|]. split; [done|]. split.
    + exists content. split; [by eapply file_was_more|done].
    + intros c Hc Hsig. destruct v as [v|].
      * exists v. destruct (Hfit c Hc). split_and!; [done..|by apply Hacc].
      * by rewrite (Hfit c Hc) in Hsig.
  - intros Hr. destruct (Hreq Hr) as [v' Hv]. exists v'. by apply Hacc.
Qed.

Lemma wp_install_artifact name art cos v dest requireSig idx tr :
  index_was idx tr → (∀ source, asked = Some source → name = source) → published idx name art cos →
  signature_fits cos art v → (required = true → requireSig = true) → wpv (install_artifact name art v dest requireSig) (λ _ _, True) tr.
Proof.
  intros Hidx Hname Hpub Hfit Hreq.
  assert (∀ tr', tr `suffix_of` tr' → (required = true → is_Some v) →
    wpv (attempt (path, c) <- fetchPlugin (ar_URL art) catch er => fail (Wrap "fetch: " er "");
         finally (cleanup c) (place_artifact name art v dest path)) (λ _ _, True) tr') as Hgo.
  { intros tr' Hs Hv. apply wp_result, wp_quiet; [apply quiet_fetchPlugin|]. intros [[path c]|e] tr1 Hs1; [|by apply wp_ret].
    apply wp_finally. eapply wp_mono; [apply (wp_place_artifact name art cos v dest path idx); [|done..]; apply (index_was_more idx tr); [by etrans|done]|].
    intros a tr2 _ _. by apply wp_quiet; [apply quiet_cleanup|]. }
  unfold install_artifact. destruct v as [v|].
  - assert (wpv (mret tt;; attempt (path, c) <- fetchPlugin (ar_URL art) catch er => fail (Wrap "fetch: " er "");
         finally (cleanup c) (place_artifact name art (Some v) dest path)) (λ _ _, True) tr) as Hv.
    { apply wp_bind, wp_ret. apply Hgo; [done|by eexists]. }
    by destruct requireSig.
  - destruct requireSig; [by apply wp_ret|]. apply wp_println, Hgo; [by eexists [_]|].
    intros Hr. by discriminate (Hreq Hr).
Qed.

Lemma wp_resolveAndInstall name art cos dest requireSig idx tr :
  index_was idx tr → (∀ source, asked = Some source → name = source) → published idx name art cos →
  (required = true → requireSig = true) → wpv (resolveAndInstall name art cos dest requireSig) (λ _ _, True) tr.
Proof.
  intros Hidx Hname Hpub Hreq. unfold resolveAndInstall. destruct cos as [c|].
  2:{ apply wp_bind, wp_ret. by eapply wp_install_artifact. }
  apply wp_println. assert (index_was idx (CPrint (("registry: " +:+ name +:+ " is published by " +:+ co_Identity c) +:+ nl) :: tr))
    as Hidx1 by (eapply index_was_more; [|done]; by eexists [_]).
  destruct (Signed art) eqn:Hsig.
  - apply wp_bind. eapply wp_mono; [apply wp_signature_material|]. intros [[v|e] cl] tr1 Hs1 Hfit; simpl in Hfit; apply wp_finally.
    + eapply wp_mono; [apply (wp_install_artifact name art (Some c) (Some v) dest requireSig idx); [by eapply index_was_more|done|done|exact (Hfit v eq_refl)|done]|].
      intros a tr2 _ _. by apply wp_quiet; [apply quiet_cleanup_all|].
    + apply wp_ret. by apply wp_quiet; [apply quiet_cleanup_all|].
  - eapply wp_install_artifact; [done|done|done| |done]. by intros c' _.
Qed.

Lemma Resolve_published idx name version art cos :
  Resolve idx name version cl_goos cl_goarch = Ok (art, cos) → published idx name art cos.
Proof.
  unfold Resolve, Find. destruct (head (filter _ idx)) as [p|] eqn:Hp; [|done].
  destruct (rp_Versions p !! _) as [v|] eqn:Hv; [|done].
  destruct (head (filter _ (ve_Artifacts v))) as [a|] eqn:Ha; [|done]. intros [= <- <-].
  apply head_Some_elem_of, list_elem_of_filter in Hp as [Hn Hp]. apply head_Some_elem_of, list_elem_of_filter in Ha as [Hpl Ha].
  unfold for_platform in Hpl. apply andb_true_iff in Hpl as [?%bool_decide_eq_true ?%bool_decide_eq_true].
  by exists p, (if version == "" then rp_Latest p else version), v.
Qed.

Lemma wp_install_named source version dir name reg requireSig tr :
  (∀ s, asked = Some s → source = s) → (required = true → requireSig = true) → wpv (install_named source version dir name reg requireSig) (λ _ _, True) tr.
Proof.
  intros Hname Hreq. apply wp_result. eapply wp_mono; [apply wp_fetch|]. intros [idx|e] tr1 _ Hidx; [|by apply wp_ret].
  specialize (Hidx idx eq_refl). destruct (Resolve _ _ _ _ _) as [[art cos]|e] eqn:Hres; [|by apply wp_ret].
  apply Resolve_published in Hres. apply wp_result. eapply wp_mono; [by eapply wp_resolveAndInstall|].
  intros [sum|e] tr2 _ _; [|by apply wp_ret]. apply wp_bind, wp_quiet; [|intros; by apply wp_ret].
  unfold printInstalledPin, println, print. issue; done.
Qed.

Lemma wp_check_manual source path v requireSig tr :
  (required = true → requireSig = true) →
  wpv (check_manual source path v requireSig) (λ r tr', r = None → required = true → accepted v path tr') tr.
Proof.
  intros Hreq. unfold check_manual. destruct (blob_Configured v).
  - apply wp_bind. eapply wp_mono; [apply wp_verify_blob|]. intros [[ok reason] verr] tr1 _ [Hv Ha]. simpl in *. subst verr.
    destruct ok; simpl; [|by apply wp_ret]. apply wp_bind, wp_step; [done|]. apply wp_ret. intros _ _.
    eapply accepted_more; [|by apply Ha]. by eexists [_].
  - destruct requireSig; [by apply wp_ret|]. apply wp_bind, wp_step; [done|]. apply wp_ret. intros _ Hr. by discriminate (Hreq Hr).
Qed.

Lemma wp_install_source source dir name v requireSig tr :
  asked = Some source → (required = true → requireSig = true) → wpv (install_source source dir name v requireSig) (λ _ _, True) tr.
Proof.
  intros Hex Hreq. apply wp_result. eapply wp_mono; [apply wp_fetchPlugin|]. intros [[path c]|e] tr1 _ Hn; [|by apply wp_ret].
  specialize (Hn path c eq_refl). apply wp_finally. eapply wp_mono with (Q := λ _ _, True); [|intros; by apply wp_quiet; [apply quiet_cleanup|]].
  apply wp_error. eapply wp_mono; [by apply wp_check_manual|]. intros [e|] tr2 Hs2 Ha; [by apply wp_ret|].
  apply wp_result. eapply wp_mono; [apply wp_sha256File|]. intros [sum|e] tr3 Hs3 Hsum; [|by apply wp_ret].
  destruct Hsum as (content & Hf & _). apply wp_error, wp_step; [done|]. set (tr4 := _ :: tr3).
  destruct (cl_mkdir tr4); [by apply wp_ret|]. assert (tr3 `suffix_of` tr4) as Hs4 by by eexists [_].
  apply wp_error, wp_call.
  - split; [right; exists source, content; split; [done|]; split; [|by eapply file_was_more]|].
    { eapply named_more; [|exact Hn]. etrans; [exact Hs2|by etrans]. }
    intros Hr. exists v. eapply accepted_more; [|by apply Ha]. by etrans.
  - destruct (cl_install _); [by apply wp_ret|]. apply wp_bind, wp_quiet; [|intros; by apply wp_ret].
    unfold printInstalledPin, println, print. issue; done.
Qed.

(** *** The commands *)
Lemma wp_update_one idx dir apply requireSig name tr :
  asked = None → index_was idx tr → (required = true → requireSig = true) →
  wpv (update_one idx dir apply requireSig name) (λ _ _, True) tr.
Proof.
  intros Hno Hidx Hreq. apply wp_result, wp_quiet; [unfold sha256File, fail; issue; done|].
  intros [sum|e] tr1 Hs1; [|by apply wp_ret]. apply wp_bind. exists []. split_and!; [done..|]. simpl.
  destruct (FindVersionBySHA _ _ _ _ _) as [[plugin ver]|]; [|by apply wp_bind, wp_step; [|apply wp_ret]].
  case_bool_decide; [by apply wp_bind, wp_step; [|apply wp_ret]|]. apply wp_bind, wp_step; [done|].
  set (tr2 := _ :: tr1). assert (tr `suffix_of` tr2) as Hs2 by (etrans; [done|by eexists [_]]).
  destruct (negb apply); [by apply wp_ret|]. destruct (Resolve _ _ _ _ _) as [[art cos]|e] eqn:Hres; [|by apply wp_ret].
  apply Resolve_published in Hres. apply wp_result.
  eapply wp_mono; [eapply wp_resolveAndInstall; [by eapply index_was_more|by rewrite Hno|done..]|].
  intros [newSum|e] tr3 _ _; [|by apply wp_ret]. by apply wp_bind, wp_step; [|apply wp_ret].
Qed.

Lemma quiet_installed_file dir e : issues (λ c, is_install c = false) (installed_file dir e).
Proof. unfold installed_file. issue; done. Qed.

Lemma wp_update_all idx dir only apply requireSig entries outdated tr :
  asked = None → index_was idx tr → (required = true → requireSig = true) →
  wpv (update_all idx dir only apply requireSig entries outdated) (λ _ _, True) tr.
Proof.
  intros Hno Hidx Hreq. revert outdated tr Hidx. induction entries as [|e entries IH]; intros outdated tr Hidx; [by apply wp_ret|].
  cbn [update_all]. destruct (_ && _); [by apply IH|]. apply wp_bind, wp_quiet; [apply quiet_installed_file|].
  intros [i|] tr1 Hs1; [|apply IH; by eapply index_was_more]. apply wp_bind.
  eapply wp_mono; [apply wp_update_one; [done|by eapply index_was_more|done]|].
  intros [[er|] old] tr2 Hs2 _; [by apply wp_ret|]. apply IH. apply (index_was_more idx tr); [by etrans|done].
Qed.

Lemma quiet_fs_Parse set flags args : issues (λ c, is_install c = false) (fs_Parse set flags args).
Proof. unfold fs_Parse, println, print. issue; done. Qed.

Lemma wp_fs_Parse set flags args tr :
  wpv (fs_Parse set flags args) (λ r _, ∀ v, r = Ok v → flag_parse flags ∅ args = Ok v) tr.
Proof.
  unfold fs_Parse. destruct (flag_parse flags ∅ args) as [r|e]; [apply wp_ret; by intros v [= <-]|].
  unfold println, print. case_match; repeat first [apply wp_bind | apply wp_step; [done|] | apply wp_ret]; done.
Qed.

Lemma wp_install_Parse args tr :
  wpv (install_Parse args) (λ r _, ∀ v, r = Ok v → flag_parse install_flags ∅ args = Ok v) tr.
Proof.
  unfold install_Parse. destruct (flag_parse install_flags ∅ args) as [r|e]; [apply wp_ret; by intros v [= <-]|].
  unfold install_usage, println, print. case_match; repeat first [apply wp_bind | apply wp_step; [done|] | apply wp_ret]; done.
Qed.

(** A demanded signature is required by the command. *)
Lemma demanded_required flags vals args rest :
  required = truthy (cl_getenv "ROLLOPS_PLUGIN_REQUIRE_SIGNATURE") || flag_demands flags args →
  flag_parse flags ∅ args = Ok (vals, rest) →
  required = true → requireSignature (flag_value flags vals "require-signature" == "true") = true.
Proof.
  intros -> Hp. unfold flag_demands. rewrite Hp. unfold requireSignature. intros Hr. apply orb_true_iff in Hr as [->|Hr];
    [apply orb_true_r|]. apply bool_decide_eq_true in Hr. unfold flag_value. rewrite Hr. done.
Qed.

Lemma wp_pluginUpdate args tr :
  asked = None → required = truthy (cl_getenv "ROLLOPS_PLUGIN_REQUIRE_SIGNATURE") || flag_demands update_flags (after_operand args) →
  wpv (pluginUpdate args) (λ _ _, True) tr.
Proof.
  intros Hno Hreq. unfold pluginUpdate.
  assert (∃ only, match args with a :: rest => if HasPrefix a "-" then ("", args) else (a, rest) | [] => ("", []) end =
    (only, after_operand args)) as [only ->] by (destruct args as [|a rest]; simpl; [|case_match]; eauto).
  apply wp_result. eapply wp_mono; [apply wp_fs_Parse|]. intros [[vals extra]|e] tr1 _ Hp; [|by apply wp_ret].
  specialize (Hp _ eq_refl).
  destruct (match extra with [] => _ | _ => _ end) as [only' extra']. destruct (negb _); [by apply wp_ret|].
  apply wp_result. eapply wp_mono; [apply wp_fetch|]. intros [idx|e] tr2 _ Hidx; [|by apply wp_ret].
  specialize (Hidx idx eq_refl). apply wp_bind, wp_step; [done|]. set (tr3 := _ :: tr2).
  destruct (cl_readdir tr3) as [entries| |e]; [|by apply wp_bind, wp_step; [|apply wp_ret]|by apply wp_ret].
  apply wp_bind. eapply wp_mono; [apply wp_update_all; [done|eapply index_was_more; [by eexists [_]|done]|by eapply demanded_required]|].
  intros [[er|] outdated] tr4 _ _; [by apply wp_ret|].
  destruct (_ && _); apply wp_bind; [by apply wp_step; [|apply wp_ret]|by apply wp_ret, wp_ret].
Qed.

Lemma wp_pluginInstall args tr :
  (∀ source rest, args = source :: rest → asked = Some source) →
  required = truthy (cl_getenv "ROLLOPS_PLUGIN_REQUIRE_SIGNATURE") || flag_demands install_flags (after_operand args) →
  wpv (pluginInstall args) (λ _ _, True) tr.
Proof.
  intros Hex Hreq. assert (issues (λ c, is_install c = false) install_usage) as Hu by (unfold install_usage, println, print; issue; done).
  destruct args as [|source rest]; cbn [pluginInstall].
  { apply wp_bind, wp_quiet; [done|]. intros; by apply wp_ret. }
  specialize (Hex source rest eq_refl). cbn [after_operand] in Hreq.
  destruct (HasPrefix source "-"); [apply wp_bind, wp_quiet; [done|]; intros; by apply wp_ret|].
  apply wp_result. eapply wp_mono; [apply wp_install_Parse|].
  intros [[vals extra]|e] tr1 _ Hp; [|by apply wp_ret]. specialize (Hp _ eq_refl).
  destruct (negb _); [apply wp_bind, wp_quiet; [done|]; intros; by apply wp_ret|].
  apply wp_bind, wp_quiet; [unfold isPathOrURL; issue; done|]. intros [] tr2 _; simpl.
  - apply wp_install_source; [done|by eapply demanded_required].
  - apply wp_install_named; [by rewrite Hex; intros s [= ->]|by eapply demanded_required].
Qed.

Notation silent := (issues (λ c, is_install c = false)).

Lemma quiet_fetch url : silent (Fetch url).
Proof. unfold Fetch. issue; done. Qed.

Lemma quiet_pluginSearch args : silent (pluginSearch args).
Proof. pose proof quiet_fetch. pose proof quiet_fs_Parse. unfold pluginSearch, println, print. issue; done. Qed.

Lemma quiet_print_versions p vers : silent (foldr (λ ver k, print_version p ver;; k) (mret tt) vers).
Proof.
  induction vers as [|v vers IH]; simpl; [apply issues_ret|]. apply issues_bind; [|done].
  unfold print_version, println, print. issue; done.
Qed.

Lemma quiet_pluginInfo args : silent (pluginInfo args).
Proof.
  pose proof quiet_fetch. pose proof quiet_fs_Parse. pose proof quiet_print_versions.
  unfold pluginInfo, println, print. issue; done.
Qed.

Lemma quiet_list_rows dir entries rows : silent (list_rows dir entries rows).
Proof.
  revert rows. induction entries as [|e entries IH]; intros rows; simpl; [apply issues_ret|].
  pose proof quiet_installed_file. unfold sha256File, fail. issue; done.
Qed.

Lemma quiet_pluginList args : silent (pluginList args).
Proof.
  pose proof quiet_fs_Parse. pose proof quiet_list_rows. unfold pluginList, no_directory, println, print. issue; done.
Qed.

Lemma wp_plugin args tr :
  asked = asked_for args → required = signature_demanded args → wpv (plugin args) (λ _ _, True) tr.
Proof.
  intros Hex Hreq. destruct args as [|sub rest]; cbn [plugin]; [by apply wp_ret|].
  case_bool_decide; [by apply wp_quiet; [apply quiet_pluginSearch|]|].
  case_bool_decide; [by apply wp_quiet; [apply quiet_pluginInfo|]|].
  case_bool_decide as Hsub.
  { apply wp_pluginInstall; [|unfold signature_demanded in Hreq; by rewrite bool_decide_true in Hreq].
    intros source rest' ->. by rewrite Hex; unfold asked_for; rewrite bool_decide_true. }
  destruct (_ || _); [by apply wp_quiet; [apply quiet_pluginList|]|].
  destruct (_ || _); [|by apply wp_ret]. unfold signature_demanded in Hreq. rewrite bool_decide_false in Hreq by done.
  apply wp_pluginUpdate; [|done]. rewrite Hex. destruct rest; [done|]. unfold asked_for. by rewrite bool_decide_false.
Qed.
End Rules.

Lemma good_since_at (Good : list CliCall → CliCall → Prop) later c before tr :
  good_since Good (later ++ c :: before) tr → Good (before ++ tr) c.
Proof. intros [_ [Hc _]]%good_since_app. done. Qed.

End Vetted.

Module MarketDemo.

Definition artifact : Artifact :=
  {| ar_OS := "linux"; ar_Arch := "amd64"; ar_URL := "https://cdn.example/exotic"; ar_SHA256 := "62696E617279";
     ar_Bundle := "https://cdn.example/exotic.bundle"; ar_Signature := ""; ar_Certificate := "" |}.
Definition publisher : Cosign := {| co_Identity := "https://ci.example/acme"; co_Issuer := "https://issuer.example" |}.
Definition release : Version := {| ve_Cosign := Some publisher; ve_Artifacts := [artifact] |}.
Definition exotic : RPlugin :=
  {| rp_Name := "exotic"; rp_Description := "an exotic target"; rp_Homepage := ""; rp_Capabilities := ["target"];
     rp_Latest := "1.1.0"; rp_Versions := {[ "1.0.0" := release; "1.1.0" := release ]} |}.

(** A machine where the registry has one plugin, whose releases are the same
    binary; [require] is the setting for signatures. *)
Definition machine_with (require : string) (range : list (string * Version) → list (string * Version)) : CliHost := {|
  cl_getenv k := if k == "ROLLOPS_PLUGIN_REQUIRE_SIGNATURE" then require else if k == "ROLLOPS_PLUGIN_DIR" then "/opt/plugins" else "";
  cl_home := Some "/root";
  cl_goos := "linux";
  cl_goarch := "amd64";
  cl_version := ("dev", "unknown", "unknown");
  cl_f3 _ := "0.000";
  cl_read _ := Ok "binary";
  cl_stat _ := Some (Errorf "no such file");
  cl_readdir _ := DirEntries [("exotic", false)];
  cl_info _ := Ok {| fi_Regular := true; fi_Perm := 493; fi_Size := 6 |};
  cl_get tr := match tr with CGet url :: _ => DResponse 200 url None | _ => DFailed (Errorf "closed") end;
  cl_temp tr := Ok ("/tmp/" +:+ pretty (length tr));
  cl_write _ := None;
  cl_mkdir _ := None;
  cl_install _ := None;
  cl_cosign _ _ := ("Verified OK", None);
  cl_sha256 s := s;
  cl_index body _ := if body == DefaultURL then Ok [exotic] else Err (Errorf "not an index");
  cl_range _ := range;
  cl_now _ := 0;
  cl_poll _ := None;
  cl_tool _ := ToolMissing;
  cl_daemon _ := Err (Errorf "refused");
  cl_opendb _ := None;
  cl_notify _ := None;
  cl_govern _ := None |}.

Definition machine := machine_with "true".

Definition args : list string := ["install"; "exotic"; "--require-signature"].

(** The commands before the copy, newest first, on a machine that asks for no
    signatures. *)
#[local] Instance lenient : CliHost := machine_with "" id.
Definition vetting : list CliCall := drop 5 (plugin args []).2.


(** A binary that several releases share is reported as either of them, as Go's
    map order has it: up to date on one run, outdated on the next. *)
Theorem update_depends_on_map_order :
  (∃ line, (plugin (H := machine id) ["update"] []).2 !! 0%nat = Some line ∧
           (plugin (H := machine (@rev _)) ["update"] []).2 !! 0%nat ≠ Some line) ∧
  (∀ l : list (string * Version), rev l ≡ₚ l).
Proof.
  split; [|intros l; symmetry; apply Permutation_rev].
  eexists. split; [vm_compute; reflexivity|]. vm_compute. discriminate.
Qed.
End MarketDemo.
