(* ===== verification/CliSafety.v ===== *)
(** * What the commands do

    In process, no sequence of commands releases the approval gate but [approve];
    the commands that look change nothing; [apply --wait] ends, drives the rollout
    it waits for and nothing else, and succeeds exactly when the rollout was
    promoted or waits on a person. *)

From S2P Require Import Prelude Encoding GoTime Statekit Config Progressive Model Lifecycle Risk Analysis Security Store World.
From S2P Require Import EngineBase EngineGates EngineRollback EngineDeploy Git ConfigLoad Scenario Process Hosts Marketplace Surface Cli.
From S2P Require Import Frame EngineLocks EngineMoves EngineSession SurfaceSafety.

(** ** Commands and the state of their backend *)
Section Backend.
Context {W : Type} (R : W → W → Prop) `{!PreOrder R}.
Notation Cmd := (Act (list CliCall * W)).

Definition act_keeps {A} (m : Act W A) : Prop := ∀ w, R w (m w).2.
(** Whatever [m] does, the backend's state is in [R]. *)
Definition cmd_keeps {A} (m : Cmd A) : Prop := ∀ s, R s.2 (m s).2.2.

Lemma ck_ret {A} (a : A) : cmd_keeps (mret a).
Proof. intros s. simpl. reflexivity. Qed.
Lemma ck_bind {A B} (m : Cmd A) (k : A → Cmd B) : cmd_keeps m → (∀ a, cmd_keeps (k a)) → cmd_keeps (m ≫= k).
Proof.
  intros Hm Hk s. unfold mbind, Act_bind. pose proof (Hm s) as H1. destruct (m s) as [a s1]. simpl in H1.
  etransitivity; [exact H1|apply Hk].
Qed.
Lemma ck_result {A B} (m : Cmd (result A)) h (k : A → Cmd B) :
  cmd_keeps m → (∀ e, cmd_keeps (h e)) → (∀ a, cmd_keeps (k a)) → cmd_keeps (act_result m h k).
Proof. intros Hm Hh Hk. apply ck_bind; [done|]. by intros []. Qed.
Lemma ck_host {A} (p : Prog CliCall A) : cmd_keeps (host p).
Proof. intros [tr w]. unfold host. destruct (p tr). simpl. reflexivity. Qed.
Lemma ck_backend {A} (m : Act W A) : act_keeps m → cmd_keeps (backend m).
Proof. intros Hm [tr w]. unfold backend. pose proof (Hm w). by destruct (m w). Qed.
End Backend.

Ltac ck_step :=
  match goal with
  | |- cmd_keeps _ (mret _) => apply ck_ret; apply _
  | |- cmd_keeps _ (act_result _ _ _) => apply ck_result; [apply _| |intros ?|intros ?]
  | |- cmd_keeps _ (mbind _ _) => apply ck_bind; [apply _| |intros ?]
  | |- cmd_keeps _ (host _) => apply ck_host; apply _
  | |- cmd_keeps _ (backend _) => apply ck_backend
  | |- cmd_keeps _ (match ?x with _ => _ end) => destruct x
  | |- cmd_keeps _ (let '_ := ?x in _) => destruct x
  | |- cmd_keeps _ _ => assumption
  end.
Ltac ck := repeat ck_step.
#[global] Typeclasses Opaque Act.

Section Commands.
Context {W : Type} (R : W → W → Prop) `{!PreOrder R} `{!CliHost, !Yaml} (fs : FS) (ops : Operations W) (actor : Identity) (dr : Doctor).
Notation Cmd := (Act (list CliCall * W)).
Notation K := (cmd_keeps R).

Lemma ck_say line : K (say line).
Proof. unfold say. ck. Qed.
Lemma ck_done : K done_.
Proof. unfold done_. ck. Qed.
Lemma ck_failed er : K (failed er).
Proof. unfold failed. ck. Qed.
Lemma ck_write_all l : K (write_all l).
Proof. induction l as [|s l IH]; simpl; unfold write_out; ck. Qed.

(** The operations that look keep [R]. *)
Record looks : Prop := {
  l_Plan : ∀ root c, act_keeps R (op_Plan ops root c);
  l_Status : ∀ id, act_keeps R (op_Status ops id);
  l_Verify : ∀ id, act_keeps R (op_Verify ops id);
  l_History : ∀ f ref, op_History ops = Some f → act_keeps R (f ref);
  l_Fleet : ∀ f name, op_FleetStatus ops = Some f → act_keeps R (f name);
}.

(** The operations that act keep it. *)
Record acts_within : Prop := {
  a_Apply : ∀ root req, act_keeps R (op_Apply ops root req);
  a_Promote : ∀ id force, act_keeps R (op_Promote ops id force);
  a_Reject : ∀ id, act_keeps R (op_Reject ops id);
  a_Pause : ∀ id, act_keeps R (op_Pause ops id);
  a_Resume : ∀ id, act_keeps R (op_Resume ops id);
  a_Abort : ∀ id, act_keeps R (op_Abort ops id);
  a_Rollback : ∀ ref force, act_keeps R (op_RollbackLast ops ref force);
  a_Freeze : ∀ on reason, act_keeps R (op_Freeze ops on reason);
  a_InFlight : ∀ f ref, op_InFlight ops = Some f → act_keeps R (f ref);
  a_Drive : ∀ f root c id, op_Drive ops = Some f → act_keeps R (f root c id);
}.

Lemma ck_plan_each root docs : looks → K (plan_each ops root docs).
Proof.
  intros Hl. pose proof ck_write_all. induction docs as [|d docs IH]; cbn [plan_each]; [apply ck_done|].
  unfold failed. ck; try done. apply (l_Plan Hl).
Qed.

Lemma ck_plan args : looks → K (plan fs ops args).
Proof. intros Hl. pose proof ck_plan_each. unfold plan, say, failed. ck; auto. Qed.

Lemma ck_status args : looks → K (status ops args).
Proof.
  intros Hl. unfold status, say, refuse, failed, done_. destruct args as [|id args]; [ck|].
  destruct (op_History ops) as [f|] eqn:Hf; ck; [apply (l_Status Hl)|by apply (l_History Hl)|apply (l_Status Hl)].
Qed.

Lemma ck_fleet args : looks → K (fleet ops args).
Proof.
  intros Hl. pose proof ck_write_all. unfold fleet, count_note, write_out, say, refuse, failed, done_.
  destruct args as [|id args]; [ck|]. destruct (op_FleetStatus ops) as [f|] eqn:Hf; [|ck]. ck; try done. by apply (l_Fleet Hl).
Qed.

Lemma ck_verify args : looks → K (verify ops args).
Proof.
  intros Hl. pose proof ck_write_all. unfold verify, say, refuse, failed, done_. destruct args as [|id args]; ck; try done. apply (l_Verify Hl).
Qed.

Lemma ck_verdict name er ok after : K (verdict name er ok after).
Proof. unfold verdict, say. ck. Qed.

Lemma ck_doctor args : K (doctor fs dr args).
Proof.
  pose proof ck_verdict. pose proof ck_write_all.
  unfold doctor, check_config, check_clusters_file, check_tools, probeRenderTools, check_tool, check_daemon, check_database,
    check_notify, check_governance, skipped, say, refuse, failed, done_. ck; done.
Qed.

Lemma ck_advance root c id : looks → acts_within → act_keeps R (advance ops root c id).
Proof.
  intros Hl Ha. unfold advance. destruct (op_Drive ops) as [f|] eqn:Hf; [by apply (a_Drive Ha)|apply (l_Status Hl)].
Qed.

Lemma ck_wait_loop fuel root c timeout deadline note r :
  looks → acts_within → K (wait_loop ops fuel root c timeout deadline note r).
Proof.
  intros Hl Ha. pose proof ck_advance. revert note r. induction fuel as [|fuel IH]; intros note r; cbn [wait_loop]; [ck|].
  unfold wait_round, say, refuse, failed, done_. ck; auto.
Qed.

Lemma ck_waitForRollout fuel root c r timeout : looks → acts_within → K (waitForRollout ops fuel root c r timeout).
Proof. intros Hl Ha. pose proof ck_wait_loop. unfold waitForRollout. ck; auto. Qed.

Lemma ck_apply fuel args : looks → acts_within → K (apply ops actor fuel args).
Proof.
  intros Hl Ha. pose proof ck_waitForRollout. unfold apply, wait_for_busy.
  destruct (op_InFlight ops) as [f|] eqn:Hf; unfold say, refuse, failed, done_; ck; auto;
    first [apply (l_Plan Hl)|apply (a_Apply Ha)|by apply (a_InFlight Ha)].
Qed.

Lemma ck_rolloutIDCmd name op args : (∀ id, head args = Some id → act_keeps R (op id)) → K (rolloutIDCmd name op args).
Proof. intros Hop. unfold rolloutIDCmd, say, refuse, failed, done_. destruct args as [|id args]; ck. by apply Hop. Qed.

(** A command keeps what the operations keep; [approve] what approving the named
    rollout keeps. *)
Lemma ck_Run fuel args :
  looks → acts_within → (∀ id rest, args = "approve" :: id :: rest → act_keeps R (op_Approve ops id)) →
  K (Run fs ops actor dr fuel args).
Proof.
  intros Hl Ha Hap. unfold Run, usage. destruct args as [|cmd rest]; [unfold done_; ck|].
  repeat (case_bool_decide; [|]); subst; simpl; unfold version, usage, refuse, failed, done_, say; ck;
    first [by apply ck_plan|by apply ck_apply|by apply ck_status|by apply ck_fleet|by apply ck_verify|apply ck_doctor|idtac].
  - unfold promote, say, refuse, failed, done_. ck. apply (a_Promote Ha).
  - apply ck_rolloutIDCmd. intros id Hid. destruct rest as [|id' rest]; [done|]. injection Hid as <-. by eapply Hap.
  - apply ck_rolloutIDCmd. intros id _. apply (a_Reject Ha).
  - apply ck_rolloutIDCmd. intros id _. apply (a_Pause Ha).
  - apply ck_rolloutIDCmd. intros id _. apply (a_Resume Ha).
  - apply ck_rolloutIDCmd. intros id _. apply (a_Abort Ha).
  - unfold rollback, say, refuse, failed, done_. ck. apply (a_Rollback Ha).
  - unfold freeze, say, failed, done_. ck. apply (a_Freeze Ha).
  - unfold freeze, say, failed, done_. ck. apply (a_Freeze Ha).
Qed.

(** The commands that only look. *)
Definition looking : list string :=
  ["plan"; "status"; "fleet"; "verify"; "doctor"; "plugin"; "version"; "--version"; "help"; "-h"; "--help"].

Lemma ck_looking fuel cmd rest : looks → cmd ∈ looking → K (Run fs ops actor dr fuel (cmd :: rest)).
Proof.
  intros Hl Hcmd. unfold looking in Hcmd. unfold Run, version, usage, say, done_.
  repeat (apply elem_of_cons in Hcmd as [->|Hcmd]); [simpl; ck..|by apply not_elem_of_nil in Hcmd];
    first [by apply ck_plan|by apply ck_status|by apply ck_fleet|by apply ck_verify|apply ck_doctor].
Qed.
End Commands.

(** ** In process *)
Section InProcess.
Context {S : Type} `{!Store S, !StoreLaws S}.
Notation HW := (EngineDeploy.HW (S := S)).
Context `{!Statechart Phase LifeContext unit, !StatechartLaws Phase LifeContext unit}.
Context `{!Statechart StepState StepContext HW, !StatechartLaws StepState StepContext HW}.
Context `{!CliHost, !Yaml} (env : Env) (e : Engine) (fs : FS) (actor : Identity) (dr : Doctor).
Notation ops := (EngineOps (S := S) env e actor).

Lemma replied_world (m : M S outcome) w : (replied m w).2 = (m w).2.
Proof. unfold replied. apply bind_ret_world. by intros [] ?. Qed.
Lemma ok_view_world {A B} (f : A → B) (m : M S (result A)) w : (ok_view f m w).2 = (m w).2.
Proof. unfold ok_view. by apply bind_ret_world. Qed.

Lemma quiet_fleet l name : keeps (quiet (S := S) l) (FleetStatus name).
Proof. unfold FleetStatus. frame. Qed.

Lemma looks_quiet : looks (quiet (S := S) Exec) ops.
Proof.
  split.
  - intros root c w. simpl. rewrite ok_view_world. apply (quiet_Plan env Exec).
  - intros id w. simpl. unfold engine_Status. rewrite bind_ret_world by done. apply quiet_load.
  - intros id w. simpl. rewrite ok_view_world. by apply quiet_Verify.
  - intros f ref [= <-] w. apply quiet_history.
  - intros f name [= <-] w. rewrite ok_view_world. apply quiet_fleet.
Qed.

Lemma looks_evolve ap : looks (evolves (S := S) env ap true) ops.
Proof.
  assert (∀ w w' : World S, quiet Exec w w' → evolves env ap true w w') as Hq by (intros; by eapply evolves_still, still_quiet).
  destruct looks_quiet as [Hp Hs Hv Hh Hf].
  split; [intros root c w|intros id w|intros id w|intros f ref Heq w|intros f name Heq w]; apply Hq;
    [apply Hp|apply Hs|apply Hv|by apply Hh|by apply Hf].
Qed.

(** An operation of the engine under whatever root. *)
Lemma evolves_op {A} ap e' op (m : M S A) w :
  (m w).2 = (perform env e' op w).2 → (∀ id, approves op id = true → ap id = true) → evolves env ap true w (m w).2.
Proof. intros ->. apply evolves_perform. Qed.

Lemma evolves_reply ap e' op (m : M S outcome) w :
  (m w).2 = (perform env e' op w).2 → (∀ id, approves op id = true → ap id = true) → evolves env ap true w (replied m w).2.
Proof. rewrite replied_world. apply evolves_op. Qed.

Lemma drive_evolves ap root c id : keeps (evolves (S := S) env ap true) (Drive env e root c id).
Proof.
  assert (∀ A (m : M S A), keeps (quiet All) m → keeps (evolves env ap true) m) as Hq
    by (intros A m Hm w; by eapply evolves_still, still_quiet).
  unfold Drive. apply keeps_on_result; [apply _|apply Hq, quiet_load|intros; apply keeps_ret, _|].
  intros r. destruct (r_Phase r); try (apply keeps_ret, _).
  - apply keeps_bind; [apply _| |intros []; apply keeps_ret, _]. intros w.
    apply (evolves_op ap (with_root root e) (OpTick id c)); [|done]. symmetry. apply discard_world.
  - apply keeps_bind; [apply _|apply Hq, quiet_priorManifest|]. intros p.
    apply keeps_bind; [apply _| |intros []; apply keeps_ret, _]. intros w.
    apply (evolves_op ap (with_root root e) (OpVerifyOrRollback id (default (r_Desired r) p) c)); [|done]. symmetry. apply discard_world.
Qed.

Lemma acts_evolve ap : acts_within (evolves (S := S) env ap true) ops.
Proof.
  split; [intros root req w|intros id force w|intros id w..|intros ref force w|intros on reason w|intros f ref [= <-] w|intros f root c id [= <-] w];
    simpl.
  - apply (evolves_reply ap (with_root root e) (OpApply req)); [symmetry; apply discard_world|done].
  - apply (evolves_reply ap e (OpPromote id actor force)); [symmetry; apply discard_world|done].
  - apply (evolves_reply ap e (OpReject id actor)); [symmetry; apply discard_world|done].
  - apply (evolves_reply ap e (OpPause id actor)); [symmetry; apply discard_world|done].
  - apply (evolves_reply ap e (OpResume id actor)); [symmetry; apply discard_world|done].
  - apply (evolves_reply ap e (OpAbort id actor)); [symmetry; apply discard_world|done].
  - apply (evolves_reply ap e (OpRollbackLast ref force)); [symmetry; apply discard_world|done].
  - apply (evolves_op ap e (OpFreeze on actor reason)); [symmetry; apply discard_world|done].
  - rewrite ok_view_world. apply (evolves_quiet env All), quiet_InFlight.
  - apply drive_evolves.
Qed.

(** A command evolves the store; only [approve] approves, and what it names. *)
Lemma run_evolves ap fuel args s :
  (∀ id rest, args = "approve" :: id :: rest → ap id = true) →
  evolves env ap true s.2 (Run fs ops actor dr fuel args s).2.2.
Proof.
  intros Hap. apply ck_Run; [apply _|apply looks_evolve|apply acts_evolve|].
  intros id rest Hargs w. apply (evolves_reply ap e (OpApprove id actor)); [symmetry; apply discard_world|].
  intros id' Hid. simpl in Hid. apply bool_decide_eq_true in Hid as <-. by eapply Hap.
Qed.

(** Commands one after the other, on the same store. *)
Fixpoint runs (cmds : list (nat * list string)) (s : list CliCall * World S) : list CliCall * World S :=
  match cmds with [] => s | (fuel, args) :: cmds => runs cmds (Run fs ops actor dr fuel args s).2 end.

Lemma runs_evolve ap cmds s :
  (∀ fuel id rest, (fuel, "approve" :: id :: rest) ∈ cmds → ap id = true) → evolves env ap true s.2 (runs cmds s).2.
Proof.
  revert s. induction cmds as [|[fuel args] cmds IH]; intros s Hap; simpl; [reflexivity|].
  etransitivity; [apply (run_evolves ap fuel args)|apply IH].
  - intros id rest ->. eapply Hap. by left.
  - intros fuel' id rest Hin. eapply Hap. by right.
Qed.
End InProcess.

(** ** Waiting *)
Section Waiting.
Context {W : Type} `{!CliHost} (ops : Operations W) (root : string) (c : Config.t).

Fixpoint polls (tr : list CliCall) : Z :=
  match tr with [] => 0 | CPoll :: tr => 1 + polls tr | _ :: tr => polls tr end.

(** The clock is not set back, and a poll takes its time. *)
Definition ticking : Prop :=
  ∀ new tr, cl_now (CNow :: tr) + waitPoll * polls new ≤ cl_now (CNow :: new ++ CNow :: tr).

Definition succeeded (r : RolloutView) : bool :=
  (rv_Phase r == phase_str PhasePromoted) || (rv_Phase r == phase_str PhaseAwaitingApproval) || (rv_Phase r == phase_str PhasePaused).
Definition rolled_back (r : RolloutView) : bool := rv_Phase r == phase_str PhaseRolledBack.

(** A view with the error that came with it as its note. *)
Definition with_reason (r : RolloutView) (er : option err) : RolloutView :=
  match er with Some er => if rv_Note r == "" then noted r (err_str er) else r | None => r end.

(** Advancing the rollout again and again, as long as it is not settled. *)
Inductive waited : RolloutView → W → RolloutView → W → Prop :=
| waited_now r w : waited r w r w
| waited_more r w next er w1 r' w' :
    succeeded r = false → rolled_back r = false → advance ops root c (rv_ID r) w = ((next, er), w1) →
    er = None ∨ rolled_back next = true → waited (with_reason next er) w1 r' w' → waited r w r' w'.

(** How a wait ends: with the last view, and with success exactly when that is
    promoted or waits on a person; a rollback is reported with its reason. *)
Definition ends (r : RolloutView) (w : W) (out : exit * (list CliCall * W)) : Prop :=
  ∃ res tr' w' r' w1, out = (Some res, (tr', w')) ∧ waited r w r' w1 ∧
    (w' = w1 ∨ w' = (advance ops root c (rv_ID r') w1).2) ∧
    (res = None ↔ succeeded r' = true) ∧
    (rolled_back r' = true → res = Some (Errorf ("rollout " +:+ rv_ID r' +:+ ": rolled back: " +:+ rv_Note r'))).

Lemma ends_now r w tr' res :
  (res = None ↔ succeeded r = true) →
  (rolled_back r = true → res = Some (Errorf ("rollout " +:+ rv_ID r +:+ ": rolled back: " +:+ rv_Note r))) →
  ends r w (Some res, (tr', w)).
Proof. intros H1 H2. exists res, tr', w, r, w. split_and!; [done|apply waited_now|by left|done|done]. Qed.

Lemma ends_step r w next er w1 out :
  succeeded r = false → rolled_back r = false → advance ops root c (rv_ID r) w = ((next, er), w1) →
  er = None ∨ rolled_back next = true → ends (with_reason next er) w1 out → ends r w out.
Proof.
  intros H1 H2 Ha He (res & tr' & w' & r' & w2 & -> & Hw & Hend & Hres & Hrb).
  exists res, tr', w', r', w2. split_and!; try done. by eapply waited_more.
Qed.

(** A round before which [polls new] polls were made. *)
Lemma wait_round_ends again timeout tr0 new r w :
  ticking → succeeded r = false → rolled_back r = false →
  (∀ next new' w', polls new' = 1 + polls new → waitPoll * polls new ≤ timeout → ends next w' (again next (new' ++ CNow :: tr0, w'))) →
  ends r w (wait_round ops again root c timeout (cl_now (CNow :: tr0) + timeout) r (new ++ CNow :: tr0, w)).
Proof.
  intros Ht Hs Hr Hagain. unfold wait_round, mbind, Act_bind, host, call. pose proof (Ht new tr0) as Hclock.
  destruct (Z.ltb_spec (cl_now (CNow :: tr0) + timeout) (cl_now (CNow :: new ++ CNow :: tr0))) as [Hlate|Hearly].
  { apply ends_now; [by rewrite Hs|by rewrite Hr]. }
  destruct (cl_poll _) as [er|]; [apply ends_now; [by rewrite Hs|by rewrite Hr]|].
  unfold backend. destruct (advance ops root c (rv_ID r) w) as [[next er] w1] eqn:Ha.
  assert (∀ next', ends next' w1 (again next' (CPoll :: CNow :: new ++ CNow :: tr0, w1))) as Hgo.
  { intros next'. apply (Hagain next' (CPoll :: CNow :: new)); [done|lia]. }
  destruct er as [er|]; [|eapply (ends_step r w next None); [done..|by left|apply Hgo]].
  case_bool_decide as Hb; simpl negb; cbn iota.
  - eapply (ends_step r w next (Some er)); [done..| |apply Hgo]. right. by apply bool_decide_eq_true_2.
  - exists (Some er), (CPoll :: CNow :: new ++ CNow :: tr0), w1, r, w. split_and!; [done|apply waited_now| |by rewrite Hs|by rewrite Hr].
    right. by rewrite Ha.
Qed.

Lemma poll_bound timeout k : waitPoll * k ≤ timeout → 0 ≤ k → k ≤ Z.of_nat (Z.to_nat (timeout / waitPoll)).
Proof.
  intros Hk H0. assert (0 < waitPoll) by (unfold waitPoll, Second; lia).
  assert (k ≤ timeout / waitPoll) by (apply Z.div_le_lower_bound; lia). lia.
Qed.

Lemma wait_loop_ends timeout tr0 fuel new note r w :
  ticking → let n := Z.to_nat (timeout / waitPoll) in
  0 ≤ polls new → polls new ≤ Z.of_nat n + 1 → Z.of_nat n + 2 ≤ Z.of_nat fuel + polls new →
  ends r w (wait_loop ops fuel root c timeout (cl_now (CNow :: tr0) + timeout) note r (new ++ CNow :: tr0, w)).
Proof.
  intros Ht n. revert new note r w. induction fuel as [|fuel IH]; intros new note r w Hp0 Hp1 Hf; [lia|].
  cbn [wait_loop]. case_bool_decide as Hprom.
  { apply ends_now; unfold succeeded, rolled_back; rewrite Hprom; [by rewrite bool_decide_eq_true_2|by vm_compute]. }
  case_bool_decide as Hrb.
  { apply ends_now; unfold succeeded, rolled_back; [rewrite Hrb|done]. split; [done|by vm_compute]. }
  destruct (_ || _) eqn:Hop.
  { apply ends_now; unfold succeeded, rolled_back; [|by rewrite bool_decide_eq_false_2]. rewrite <- orb_assoc, Hop, orb_true_r. done. }
  assert (succeeded r = false) as Hs by (unfold succeeded; rewrite <- orb_assoc, Hop, orb_false_r; by apply bool_decide_eq_false_2).
  assert (rolled_back r = false) as Hr by (by apply bool_decide_eq_false_2).
  unfold mbind at 1, Act_bind at 1. destruct (_ != _);
    [apply (wait_round_ends _ timeout tr0 (CPrint (wait_line r +:+ nl) :: new))|apply (wait_round_ends _ timeout tr0 new)]; try done;
    intros next new' w' Hp Hle; cbn [polls] in *; pose proof (poll_bound timeout (polls new) Hle Hp0); apply IH; lia.
Qed.

(** Every poll since [base] was started right after the clock showed no more than
    the deadline. *)
Fixpoint on_time (deadline : Time) (base new : list CliCall) : Prop :=
  match new with
  | [] => True
  | CPoll :: new => (∃ b, new ++ base = CNow :: b ∧ cl_now (CNow :: b) ≤ deadline) ∧ on_time deadline base new
  | _ :: new => on_time deadline base new
  end.

Definition punctual (deadline : Time) (base tr : list CliCall) : Prop := ∃ new, tr = new ++ base ∧ on_time deadline base new.

Lemma punctual_step deadline base e tr : e ≠ CPoll → punctual deadline base tr → punctual deadline base (e :: tr).
Proof. intros He (new & -> & Hn). exists (e :: new). split; [done|]. by destruct e. Qed.

Lemma punctual_poll deadline base tr : cl_now (CNow :: tr) ≤ deadline → punctual deadline base tr →
  punctual deadline base (CPoll :: CNow :: tr).
Proof. intros Hd (new & -> & Hn). exists (CPoll :: CNow :: new). split; [done|]. split; [|done]. by exists (new ++ base). Qed.

Lemma wait_loop_punctual timeout deadline base fuel : ∀ note r tr w, punctual deadline base tr →
  punctual deadline base (wait_loop ops fuel root c timeout deadline note r (tr, w)).2.1.
Proof.
  induction fuel as [|fuel IH]; intros note r tr w Hp; cbn [wait_loop]; [done|].
  assert (∀ note tr, punctual deadline base tr → punctual deadline base
    (wait_round ops (wait_loop ops fuel root c timeout deadline note) root c timeout deadline r (tr, w)).2.1) as Hround.
  { clear note tr Hp. intros note tr Hp. unfold wait_round, mbind, Act_bind, host, call.
    destruct (Z.ltb_spec deadline (cl_now (CNow :: tr))); [by apply punctual_step|].
    assert (punctual deadline base (CPoll :: CNow :: tr)) as Hp2 by by apply punctual_poll.
    destruct (cl_poll _); [done|]. unfold backend. destruct (advance _ _ _ _ w) as [[next [er|]] w1]; [|by apply IH].
    destruct (_ != _); [done|by apply IH]. }
  repeat (destruct (_ == _); [by first [apply punctual_step | done]|]). destruct (_ || _); [by apply punctual_step|].
  unfold mbind, Act_bind. destruct (_ != _); apply Hround; [by apply punctual_step|done].
Qed.

(** C38. [apply --wait] ends: when the clock goes on and a poll takes its ten
    seconds, the wait returns within one round per poll of its timeout and two
    more, whatever the backend answers, and starts no poll after the deadline; it
    may return later than the deadline, by the poll and the backend call it had
    started by then.  It has only advanced the rollout it was given, from view to
    view, and it succeeds exactly when the last view is promoted, or held by or
    waiting for a person; a rolled-back rollout is reported as such, with the
    reason. *)
Theorem wait_ends_with_the_verdict fuel r timeout tr w :
  ticking → (Z.to_nat (timeout / waitPoll) + 2 ≤ fuel)%nat →
  let out := waitForRollout ops fuel root c r timeout (tr, w) in
  ends r w out ∧ punctual (cl_now (CNow :: tr) + timeout) (CNow :: tr) out.2.1.
Proof.
  intros Ht Hf. unfold waitForRollout, mbind, Act_bind, host, call. split.
  - apply (wait_loop_ends timeout tr fuel []); [done|simpl; lia..].
  - apply wait_loop_punctual. by exists [].
Qed.
End Waiting.

(** ** Properties *)

(** The commands of the one-shot program do not bypass the approval gate.
    Whatever is run, forced promotions and rollbacks, waits, pauses and aborts
    included, with whatever the host, the targets and the store answer, a rollout
    that awaits approval is still awaiting approval or rolled back, unless it was
    named to [approve]. *)
Theorem commands_keep_the_gate {S} `{!Store S, !StoreLaws S}
    `{!Statechart Phase LifeContext unit, !StatechartLaws Phase LifeContext unit}
    `{!Statechart StepState StepContext (World S * option err),
      !StatechartLaws StepState StepContext (World S * option err)}
    `{!CliHost, !Yaml} env e fs actor dr cmds (s : list CliCall * World S) id r :
  rollouts_of (w_store s.2) !! id = Some r → r_Phase r = PhaseAwaitingApproval →
  (∀ fuel rest, (fuel, "approve" :: id :: rest) ∉ cmds) →
  let w' := (runs env e fs actor dr cmds s).2 in
  (∀ n, (w_tick s.2 ≤ n < w_tick w')%nat → id ≠ id_at env n) →
  ∃ r', rollouts_of (w_store w') !! id = Some r' ∧
        (r_Phase r' = PhaseAwaitingApproval ∨ r_Phase r' = PhaseRolledBack).
Proof.
  intros Hr Hp Hno w' Hn.
  destruct (runs_evolve env e fs actor dr (λ i, bool_decide (i ≠ id)) cmds s) as (_ & He & _).
  { intros fuel i rest Hin. apply bool_decide_eq_true_2. intros ->. by eapply Hno. }
  destruct (He id r Hr) as [(n & Hlt & Hid)|(r' & Hr' & Ha)]; [by destruct (Hn n Hlt)|].
  exists r'. split; [done|]. destruct Ha as [Hm _]. rewrite Hp in Hm.
  rewrite bool_decide_eq_false_2 in Hm by (by intros []). by apply moves_awaiting.
Qed.

(** The commands that look leave the stored rollouts, schedules and freeze and
    the locks as they are, and touch no target; [verify] may run smoke tests. *)
Theorem looking_changes_nothing {S} `{!Store S, !StoreLaws S}
    `{!Statechart Phase LifeContext unit, !StatechartLaws Phase LifeContext unit}
    `{!Statechart StepState StepContext (World S * option err),
      !StatechartLaws StepState StepContext (World S * option err)}
    `{!CliHost, !Yaml} env e fs actor dr fuel cmd rest (s : list CliCall * World S) :
  cmd ∈ looking → quiet Exec s.2 (Run fs (EngineOps env e actor) actor dr fuel (cmd :: rest) s).2.2.
Proof. intros Hc. apply ck_looking; [apply _|apply looks_quiet|done]. Qed.

(** ** On a concrete machine *)
Module CliDemo.
Import Scenario.
#[local] Existing Instance life_chart.
#[local] Existing Instance life_laws.
#[local] Existing Instance step_chart.
#[local] Existing Instance step_laws.

(** A clock that shows ten seconds more at every reading after a poll, and a
    file system with one configuration. *)
#[local] Instance machine : CliHost := {|
  cl_getenv _ := "";
  cl_home := None;
  cl_goos := "linux";
  cl_goarch := "amd64";
  cl_version := ("1.2.0", "unknown", "unknown");
  cl_f3 _ := "0.000";
  cl_read _ := Ok "web";
  cl_stat _ := None;
  cl_readdir _ := DirMissing;
  cl_info _ := Err (Errorf "no such file");
  cl_get _ := DFailed (Errorf "offline");
  cl_temp _ := Err (Errorf "read-only");
  cl_write _ := None;
  cl_mkdir _ := None;
  cl_install _ := None;
  cl_cosign _ _ := ("", None);
  cl_sha256 s := s;
  cl_index _ _ := Err (Errorf "not an index");
  cl_range _ := id;
  cl_now tr := waitPoll * polls tr;
  cl_poll _ := None;
  cl_tool _ := ToolRan "/bin/kubectl" "v1.31" None;
  cl_daemon _ := Ok "1.2.0";
  cl_opendb _ := None;
  cl_notify _ := None;
  cl_govern _ := None |}.

#[local] Instance documents : Yaml := {|
  yaml_head _ := Ok (Config.SchemaVersion, Config.Kind);
  yaml_set _ := Err (Errorf "no set");
  yaml_clusters _ := Err (Errorf "no clusters");
  yaml_marshal _ := Err (Errorf "unused");
  load data := Ok (service "api" data canary true);
  sprint _ := "";
  map_order m := (map_to_list m).*1 |}.

Definition files : FS :=
  {| fs_lstat _ := Err (Errorf "none"); fs_read _ := Err (Errorf "none"); fs_stat_dir _ := Err (Errorf "none"); fs_readdir _ := Err (Errorf "none") |}.
Definition asked : Doctor :=
  {| dc_DBPath := ""; dc_DaemonAddr := ""; dc_Token := ""; dc_Probe := true; dc_Notifier := None; dc_Governor := None |}.

Definition command (args : list string) (s : list CliCall * World Sqlite.Db) : exit * (list CliCall * World Sqlite.Db) :=
  Run files (EngineOps sunny engine ann) ann asked 200 args s.

(** What a run printed. *)
Definition printed (out : exit * (list CliCall * World Sqlite.Db)) : list string :=
  omap (λ c, match c with CPrint t => Some t | _ => None end) (rev out.2.1).

Example apply_waits_out_a_canary :
  let out := command ["apply"; "--wait"; "api.yaml"] ([], start Sqlite.empty) in
  out.1 = Some None ∧ phases out.2.2 = [("ro-19700101T000003.000000000", PhasePromoted)] ∧
  last (printed out) = Some ("rollout ro-19700101T000003.000000000: promoted" +:+ nl).
Proof. vm_compute. auto. Qed.

(** Everything but [approve], on a rollout that awaits approval. *)
Definition insisting : list (nat * list string) :=
  [(200, ["promote"; "--force"; gated_id]); (200, ["resume"; gated_id]); (200, ["unfreeze"]); (200, ["approve"; "ro-other"]);
   (200, ["apply"; "--wait-timeout=1m"; "web"]); (200, ["abort"; gated_id]); (200, ["verify"; gated_id])]%nat.

Lemma fresh_insisting n :
  (w_tick gated ≤ n < w_tick (runs sunny engine files ann asked insisting ([], gated)).2)%nat → gated_id ≠ id_at sunny n.
Proof.
  assert (w_tick gated = 17 ∧ (w_tick (runs sunny engine files ann asked insisting ([], gated)).2 <=? 80) = true)%nat as [-> Ht%Nat.leb_le]
    by (vm_compute; split; reflexivity).
  assert (forallb (λ n, negb (bool_decide (gated_id = id_at sunny n))) (seq 17 63) = true) as Hall by (vm_compute; reflexivity).
  intros Hn. rewrite forallb_forall in Hall. specialize (Hall n).
  rewrite in_seq, negb_true_iff, bool_decide_eq_false in Hall. apply Hall. lia.
Qed.

Lemma not_approved fuel rest : (fuel, "approve" :: gated_id :: rest) ∉ insisting.
Proof.
  unfold insisting. intros Hin. repeat (apply elem_of_cons in Hin as [[= _ ?]|Hin]); [done..|by apply not_elem_of_nil in Hin].
Qed.

Lemma commands_keep_the_gate_witness :
  ∃ r', rollouts_of (w_store (runs sunny engine files ann asked insisting ([], gated)).2) !! gated_id = Some r' ∧
        (r_Phase r' = PhaseAwaitingApproval ∨ r_Phase r' = PhaseRolledBack).
Proof.
  pose proof gated_row as Hw. destruct (rollouts_of (w_store gated) !! gated_id) as [r|] eqn:Hr; [|discriminate].
  apply (commands_keep_the_gate sunny engine files ann asked insisting ([], gated) gated_id r Hr).
  - by injection Hw.
  - exact not_approved.
  - exact fresh_insisting.
Defined.

Lemma polls_app a b : polls (a ++ b) = polls a + polls b.
Proof. induction a as [|[] a IH]; cbn [polls app]; lia. Qed.

Lemma machine_ticks : ticking.
Proof. intros new tr. simpl. rewrite polls_app. cbn [polls]. lia. Qed.

(** A rollout that never gets anywhere is given up after the timeout. *)
Definition stuck : RolloutView :=
  {| rv_ID := "ro-1"; rv_Phase := "deploying"; rv_TargetRef := "api"; rv_Strategy := "canary"; rv_StepIndex := 1; rv_StepTotal := 2;
     rv_StepWeight := 10; rv_Note := "" |}.

Lemma wait_ends_with_the_verdict_witness :
  let out := waitForRollout (EngineOps sunny engine ann) 8 "/repo" (web "v1") stuck Minute ([], start Sqlite.empty) in
  out.1 = Some (Some ErrNotFound) ∧
  ends (EngineOps sunny engine ann) "/repo" (web "v1") stuck (start Sqlite.empty) out ∧ punctual Minute [CNow] out.2.1.
Proof.
  split; [vm_compute; reflexivity|].
  apply (wait_ends_with_the_verdict (EngineOps sunny engine ann) "/repo" (web "v1") 8 stuck Minute [] (start Sqlite.empty) machine_ticks).
  vm_compute. lia.
Defined.

(** The deadline is looked at before a poll, not after it: a wait of one second
    returns ten seconds later. *)
Example a_short_wait_overshoots :
  let out := waitForRollout (EngineOps sunny engine ann) 8 "/repo" (web "v1") stuck Second ([], start Sqlite.empty) in
  out.1 = Some (Some ErrNotFound) ∧ cl_now (CNow :: out.2.1) = 10 * Second.
Proof. vm_compute. auto. Qed.

(** *** A failed read makes a rollback re-apply the broken release

    [Drive] takes the prior manifest with [PriorManifest], which drops a store
    error, so the fallback is the manifest that just failed its gates; the
    reconciler refuses in that case. *)
Definition stormy : Env := outside (λ _, None) (λ _, Ok unhealthy).

(** The first release is promoted, the second deployed; reading the list of
    rollouts fails once. *)
Definition second_release (faults : list (option err)) : World Sqlite.Db :=
  let w := (session sunny engine [OpApply (request (web "v1") ann false); OpPromote "ro-19700101T000002.000000000" ann true;
                                  OpApply (request (web "v2") ann false)] (start Sqlite.empty)).2 in
  let d := w_store w in
  set_store {| Sqlite.db_rollouts := Sqlite.db_rollouts d; Sqlite.db_history := Sqlite.db_history d; Sqlite.db_target_state := Sqlite.db_target_state d;
               Sqlite.db_schedules := Sqlite.db_schedules d; Sqlite.db_freeze := Sqlite.db_freeze d; Sqlite.db_leases := Sqlite.db_leases d;
               Sqlite.db_faults := faults |} w.

(** What [Drive] applies to a release whose gates fail: the first release again,
    but the second itself, recorded as rolled back, when the list of rollouts
    could not be read. *)
Theorem a_failed_read_restores_the_broken_release :
  let drive faults := Drive stormy engine "/repo" (web "v2") "ro-19700101T000017.000000000" (second_release faults) in
  let shown out := (rv_Phase out.1.1, out.1.2, deployed out.2) in
  shown (drive []) = ("rolled-back", None, ["v1"; "v2"; "v1"]) ∧
  shown (drive [None; Some (Errorf "disk I/O error")]) = ("rolled-back", None, ["v1"; "v2"; "v2"]).
Proof. vm_compute. auto. Qed.
End CliDemo.
