(* ===== verification/OutboundSafety.v ===== *)
(** * What the calls to other services guarantee

    The governor fails closed and can check what it was asked; a webhook passes
    the signature check of this program's own receiver; a secret reference reads
    no variable but those meant for it; a metric without an aggregation is one
    series; a token is served only while it lives. *)

From Stdlib Require Import Floats.
From S2P Require Import Prelude Encoding GoTime TimeParse Json Config Model Analysis World Git ConfigLoad Process Outbound.

(** ** Texts that are JSON *)
(** An object of texts, whatever they are, is read back. *)
Definition flat (v : json) : bool := match v with JStr _ | JBool _ | JNull => true | _ => false end.
Lemma flat_object_reads l : forallb (λ kv, flat kv.2) l = true → Unmarshal (Marshal (JObj l)) = Ok (ToValid_json (JObj l)).
Proof.
  intros Hl. apply Unmarshal_Marshal.
  - cbn [well_formed]. induction l as [|[k v] l IH]; [done|]. cbn [forallb snd] in *. split_bool. rewrite IH by done. by destruct v.
  - cbn [nesting]. assert (foldr max O ((λ kv, nesting kv.2) <$> l) = O) as ->; [|apply shallow; lia].
    induction l as [|[k v] l IH]; [done|]. cbn [forallb snd fmap list_fmap foldr] in *. split_bool. rewrite IH by done. by destruct v.
Qed.

Lemma omit_empty_flat name s : forallb (λ kv, flat kv.2) (omit_empty_member name s) = true.
Proof. unfold omit_empty_member. by case_match. Qed.

Section Safety.
Context `{Net}.

Lemma governor_reads_request q : Unmarshal (Marshal (wireRequest q)) = Ok (ToValid_json (wireRequest q)).
Proof. apply flat_object_reads. rewrite !forallb_app, !omit_empty_flat. done. Qed.

Lemma receiver_reads_event ev : Unmarshal (Marshal (event_json ev)) = Ok (ToValid_json (event_json ev)).
Proof. apply flat_object_reads. rewrite !forallb_app, !omit_empty_flat. done. Qed.

(** What is signed passes the check of [internal/git/webhook.go]. *)
Lemma signature_verifies secret body header : ("X-Rollops-Signature", header) ∈ signature_header secret body →
  VerifySignature nt_hmac secret body header = None.
Proof.
  unfold signature_header. case_bool_decide; simpl; [by intros ?%elem_of_nil|]. intros [= ->]%list_elem_of_singleton.
  unfold VerifySignature. destruct (trim_prefix_app "sha256=" (hex_encode (nt_hmac secret body))) as [-> ->].
  simpl. rewrite hex_roundtrip. by rewrite bool_decide_true.
Qed.

(** ** The governor *)

(** What a reader of an object finds under a name: a text, or nothing. *)
Definition text (members : list (string * json)) (name : string) : string :=
  match head (filter (λ kv, kv.1 = name) members) with Some (_, JStr s) => s | _ => "" end.

(** The question, member by member; what is not UTF-8 is replaced. *)
Definition asks (q : GovRequest) (members : list (string * json)) : Prop :=
  NoDup members.*1 ∧
  text members "action" = ToValid (gq_Action q) ∧ text members "target_ref" = ToValid (gq_TargetRef q) ∧
  text members "environment" = ToValid (gq_Environment q) ∧ text members "version" = ToValid (gq_Version q) ∧
  text members "actor_id" = ToValid (id_Name (gq_Actor q)) ∧ text members "actor_kind" = ToValid (id_Kind (gq_Actor q)).

Lemma request_asks q : ∃ members, Unmarshal (Marshal (wireRequest q)) = Ok (JObj members) ∧ asks q members.
Proof.
  eexists. split; [apply governor_reads_request|]. destruct q as [action ref [kind name groups] env version].
  unfold asks, omit_empty_member. cbn [gq_Action gq_TargetRef gq_Environment gq_Version gq_Actor id_Name id_Kind].
  repeat case_bool_decide; subst; (split; [apply (bool_decide_unpack _); vm_compute; exact I|]);
    repeat split; unfold text; reflexivity.
Qed.
Definition positive_timeout (p : HTTPProvider) : Duration := if gp_Timeout p <=? 0 then defaultGovernanceTimeout else gp_Timeout p.

Lemma positive_timeout_pos p : 0 < positive_timeout p.
Proof. unfold positive_timeout, defaultGovernanceTimeout, Second. destruct (Z.leb_spec (gp_Timeout p) 0); lia. Qed.

(** A decision that allows was written: some member [allowed] is [true]. *)
Lemma allowed_is_written l d d' : fold_members decision_field d l = Ok d' → gd_Allowed d'.1 = true →
  gd_Allowed d.1 = true ∨ ∃ k, (k, JBool true) ∈ l ∧ EqualFold k "allowed" = true.
Proof.
  revert d. induction l as [|[k v] l IH]; intros d Hf Ha; [left; by simplify_eq/=|]. cbn [fold_members] in Hf.
  destruct (decision_field d k v) as [d1|] eqn:Ed; [|done].
  destruct (IH d1 Hf Ha) as [H1|(k' & Hk & He)]; [|right; exists k'; split; [by right|done]].
  destruct d as [g ev]. unfold decision_field in Ed. destruct (EqualFold k "allowed") eqn:Ek.
  - destruct v; simplify_eq/=; [by left|]. right. exists k. subst. by split; [left|].
  - left. repeat case_match; simplify_eq/=; done.
Qed.

Lemma decode_allowed body d : decode_decision body = Ok d → gd_Allowed d.1 = true →
  ∃ l rest k, first_value body = Some (JObj l, rest) ∧ (k, JBool true) ∈ l ∧ EqualFold k "allowed" = true.
Proof.
  unfold decode_decision, Decode. destruct (first_value body) as [[v rest]|] eqn:Ev; [|done].
  destruct v; try done; cbn [into_struct]; intros Hd Ha; [by simplify_eq/=|].
  destruct (allowed_is_written _ _ _ Hd Ha) as [?|(k & Hk)]; [done|]. by exists l, rest, k.
Qed.

Lemma http_Evaluate_asked p q d tr tr' : http_Evaluate p q tr = (Ok d, tr') →
  tr' = CDo (governor_request p (Marshal (wireRequest q))) (Some (positive_timeout p)) :: tr ∧
  ∃ resp, nt_Do tr' = Ok resp ∧ os_Code resp = 200 ∧ decode_decision (os_Body resp) = Ok d.
Proof.
  unfold http_Evaluate. destruct (nt_NewRequest _); [done|]. fold (positive_timeout p).
  unfold attempt_result, Do, call, mbind, Prog_bind, mret, Prog_ret.
  destruct (nt_Do _) as [resp|e] eqn:Er; [|done]. destruct (Z.eqb_spec (os_Code resp) 200) as [Hc|]; [|done]. cbn [negb].
  destruct (decode_decision (os_Body resp)) eqn:Ed; [|done]. intros [= <- <-]. split; [done|]. by exists resp.
Qed.

(** C25. With a governor configured, an action is allowed only by an answer 200 whose
    document has a member [allowed] that is [true], to one request sent to the
    configured address within a positive time limit.  The request's document
    carries the action, the target, the environment, the version and the actor's
    name and kind that are asked about, and, when a secret is configured - it is
    optional - a signature that the secret verifies.  Unreachable, broken or
    silent governors allow nothing. *)
Theorem governor_fails_closed getenv q d tr tr' :
  getenv "ROLLOPS_GOVERNANCE_URL" ≠ "" →
  hook_Evaluate (governance_FromEnv getenv) q tr = (Ok d, tr') → gd_Allowed d.1 = true →
  ∃ r timeout members resp l rest k,
    tr' = CDo r (Some timeout) :: tr ∧ 0 < timeout ∧ or_URL r = getenv "ROLLOPS_GOVERNANCE_URL" ∧
    Unmarshal (or_Body r) = Ok (JObj members) ∧ asks q members ∧
    (getenv "ROLLOPS_GOVERNANCE_SECRET" ≠ "" → ∃ sig, ("X-Rollops-Signature", sig) ∈ or_Header r ∧
      VerifySignature nt_hmac (getenv "ROLLOPS_GOVERNANCE_SECRET") (or_Body r) sig = None) ∧
    nt_Do tr' = Ok resp ∧ os_Code resp = 200 ∧
    first_value (os_Body resp) = Some (JObj l, rest) ∧ (k, JBool true) ∈ l ∧ EqualFold k "allowed" = true.
Proof.
  intros Hu. unfold governance_FromEnv. rewrite bool_decide_false by done.
  set (p := {| gp_URL := _ |}). cbn [hook_Evaluate]. case_match; [done|].
  unfold attempt_result, mbind, Prog_bind. destruct (http_Evaluate p q tr) as [[d0|e] tr0] eqn:Eh; [|done].
  unfold mret, Prog_ret. intros [= <- <-] Ha.
  assert (gd_Allowed d0.1 = true) as Ha0. { destruct (gd_Allowed d0.1) eqn:E; [done|]. simpl in Ha. case_bool_decide; simpl in Ha; congruence. }
  apply http_Evaluate_asked in Eh as (-> & resp & Hr & Hc & Hd). destruct (decode_allowed _ _ Hd Ha0) as (l & rest & k & Hk).
  destruct (request_asks q) as (members & Hq & Hasks).
  eexists _, (positive_timeout p), members, resp, l, rest, k. split; [reflexivity|].
  split; [apply positive_timeout_pos|]. split; [done|]. split; [exact Hq|]. split; [done|]. split; [|by destruct Hk as (?&?&?)].
  intros Hs. eexists. split; [|apply signature_verifies]; [|].
  - cbn [governor_request or_Header]. apply elem_of_app. right. apply elem_of_app. right. unfold signature_header.
    rewrite (bool_decide_false (gp_Secret p = "")) by done. left.
  - unfold signature_header. rewrite bool_decide_false by done. left.
Qed.

(** ** Notifications *)

(** Every request of a webhook with a secret carries the event and a signature
    that the receiver of this program accepts. *)
Theorem webhooks_are_authentic h ev tr r timeout : wh_Secret h ≠ "" → CDo r timeout ∈ (webhook_Notify h ev tr).2 → CDo r timeout ∉ tr →
  or_URL r = wh_URL h ∧ Unmarshal (or_Body r) = Ok (ToValid_json (event_json ev)) ∧
  ∃ sig, ("X-Rollops-Signature", sig) ∈ or_Header r ∧ VerifySignature nt_hmac (wh_Secret h) (or_Body r) sig = None.
Proof.
  intros Hs Hin Hnew.
  assert (issues (λ c, c = CDo (webhook_request h (Marshal (event_json ev))) None) (webhook_Notify h ev)) as Hi.
  { unfold webhook_Notify. destruct (nt_NewRequest _); [apply issues_ret|].
    apply issues_result; [by apply issues_call|intros; apply issues_ret..]. }
  destruct (issues_trace _ _ _ _ Hi Hin) as [?|[= -> ->]]; [done|]. split; [done|]. split; [apply receiver_reads_event|].
  eexists. split; [|apply signature_verifies].
  - cbn [webhook_request or_Header]. apply elem_of_app. right. unfold signature_header.
    rewrite (bool_decide_false (wh_Secret h = "")) by done. left.
  - unfold signature_header. rewrite (bool_decide_false (wh_Secret h = "")) by done. left.
Qed.

(** Every channel in turn, whatever the others answer. *)
Fixpoint each_channel (ns : list Notifier) (ev : Event) : Prog NetCall (list (option err)) :=
  match ns with [] => mret [] | n :: ns => er ← Notify n ev; ers ← each_channel ns ev; mret (er :: ers) end.

Lemma multi_go_each ns first ev tr :
  multi_go ns first ev tr =
  (let '(ers, tr') := each_channel ns ev tr in (match first with Some e => Some e | None => head (omap id ers) end, tr')).
Proof.
  revert first tr. induction ns as [|n ns IH]; intros first tr; cbn [multi_go each_channel]; unfold mbind, Prog_bind, mret, Prog_ret.
  - by destruct first.
  - destruct (Notify n ev tr) as [er tr1]. rewrite IH. destruct (each_channel ns ev tr1) as [ers tr2].
    destruct first, er; done.
Qed.

(** [Multi] tries each channel once, in order, and reports the first failure. *)
Theorem every_channel_is_tried ns ev tr :
  multi_Notify ns ev tr = (let '(ers, tr') := each_channel ns ev tr in (head (omap id ers), tr')).
Proof. apply multi_go_each. Qed.

(** ** Secrets *)
Definition vault_prefix (addr : string) : string := trim_slashes_back addr +:+ "/v1/".

(** What resolving a reference may call. *)
Definition secret_call (addr token : string) (c : NetCall) : Prop :=
  match c with
  | CDo r _ => addr ≠ "" ∧ HasPrefix (or_URL r) (vault_prefix addr) = true ∧ or_Header r = [("X-Vault-Token", token)]
  | CLookupEnv key => HasPrefix key "ROLLOPS_SECRET_" = true
  | _ => False
  end.

Lemma env_issues addr token ref : issues (secret_call addr token) (secret_env ref).
Proof. apply issues_bind; [apply issues_call; apply HasPrefix_app|intros; apply issues_ret]. Qed.

Lemma vault_issues addr token mount ref : addr ≠ "" →
  issues (secret_call addr token) (vault_Resolve {| va_Addr := addr; va_Token := token; va_Mount := mount |} ref).
Proof.
  intros Ha. unfold vault_Resolve. destruct (parseRef _ _) as [[[m path] key]|e]; [|apply issues_ret].
  destruct (nt_NewRequest _); [apply issues_ret|]. apply issues_result; [|intros; apply issues_ret..].
  apply issues_call. split; [done|]. split; [|done]. cbn [or_URL vault_url va_Addr]. unfold vault_url, vault_prefix. cbn [va_Addr].
  apply HasPrefix_spec. eexists. by rewrite <- str_app_assoc.
Qed.

(** Whatever a configuration names as a secret, the provider reads only the
    variables under its prefix and asks only Vault, with the token of Vault. *)
Theorem references_are_contained getenv provider ref tr tr' :
  secrets_FromEnv getenv tr = (Ok provider, tr') →
  ∃ token, issues (secret_call (TrimSpace (getenv "VAULT_ADDR")) token) (provider ref).
Proof.
  unfold secrets_FromEnv. case_bool_decide as Ha.
  - unfold mret, Prog_ret. intros [= <- _]. exists "". apply env_issues.
  - unfold attempt_result, mbind, Prog_bind. destruct (vault_token getenv tr) as [[token|e] tr1]; [|done].
    unfold mret, Prog_ret. intros [= <- _]. exists token. unfold chain_Resolve. cbn [chain_go].
    apply issues_bind; [by apply vault_issues|]. intros [sec|e]; [apply issues_ret|].
    apply issues_bind; [apply env_issues|]. intros [sec|e']; apply issues_ret.
Qed.

(** The value of a secret, by where it comes from. *)
Definition vault_says (v : VaultProvider) (ref : string) (tr : list NetCall) (val : string) : Prop :=
  ∃ mount path key c resp data,
    parseRef ref (va_Mount v) = Ok (mount, path, key) ∧ nt_Do (c :: tr) = Ok resp ∧ os_Code resp = 200 ∧
    (try doc <- Decode (os_Body resp); vault_data doc) = Ok data ∧ data !! key = Some val.

Lemma vault_Resolve_Ok v ref tr s tr' : vault_Resolve v ref tr = (Ok s, tr') → vault_says v ref tr (Reveal s).
Proof.
  unfold vault_Resolve. destruct (parseRef _ _) as [[[m path] key]|e] eqn:Ep; [|done]. destruct (nt_NewRequest _); [done|].
  unfold attempt_result, Do, call, mbind, Prog_bind, mret, Prog_ret. destruct (nt_Do _) as [resp|e] eqn:Er; [|done].
  unfold vault_answer. destruct (Z.eqb_spec (os_Code resp) 404); [done|]. destruct (Z.eqb_spec (os_Code resp) 200) as [Hc|]; [|done].
  cbn [negb]. destruct (try doc <- Decode (os_Body resp); vault_data doc) as [data|e] eqn:Ed; [|done].
  destruct (data !! key) as [val|] eqn:El; [|done]. intros [= <- _]. eexists m, path, key, _, resp, data. by split_and!.
Qed.

(** Vault comes first; the environment answers only where Vault does not, and
    never with an empty value. *)
Lemma secrets_from_vault_first v ref tr s tr' :
  chain_Resolve [vault_Resolve v; secret_env] ref tr = (Ok s, tr') →
  vault_says v ref tr (Reveal s) ∨
  ∃ e tr1, vault_Resolve v ref tr = (Err e, tr1) ∧ tr' = CLookupEnv ("ROLLOPS_SECRET_" +:+ envKey ref) :: tr1 ∧
           nt_LookupEnv tr' = Some (Reveal s) ∧ Reveal s ≠ "".
Proof.
  unfold chain_Resolve. cbn [chain_go]. unfold mbind at 1, Prog_bind at 1.
  destruct (vault_Resolve v ref tr) as [[s0|e] tr1] eqn:Ev.
  - unfold mret, Prog_ret. intros [= <- <-]. left. by eapply vault_Resolve_Ok.
  - unfold secret_env, env_Resolve, call, mbind, Prog_bind, mret, Prog_ret. cbv zeta.
    destruct (nt_LookupEnv _) as [v'|] eqn:El; [|done]. case_bool_decide as Hv; [done|]. intros [= <- <-]. right. by exists e, tr1.
Qed.

(** ** Prometheus *)
Definition prometheus_provider (addr : string) : MetricsProvider (list NetCall) := {|
  mp_Query := Query addr;
  mp_Series := Some (λ q, r ← QuerySeries addr q; mret (match r with Ok l => Ok (ss_Value <$> l) | Err e => Err e end)) |}.

(** The answer the samples are those of. *)
Definition prom_says (addr query : string) (tr tr' : list NetCall) (samples : list SeriesSample) : Prop :=
  ∃ resp doc, tr' = CDo {| or_Method := "GET"; or_URL := prom_url addr query; or_Header := []; or_Body := "" |} None :: tr ∧
    nt_Do tr' = Ok resp ∧ os_Code resp = 200 ∧ decode_prom (os_Body resp) = Ok doc ∧ pr_Status doc = "success" ∧
    parse_samples (pr_ResultType doc) (pr_Result doc) = Ok samples ∧ length samples = length (pr_Result doc) ∧ samples ≠ [].

Lemma parse_samples_len t l samples : parse_samples t l = Ok samples → length samples = length l.
Proof.
  revert samples. induction l as [|raw l IH]; simpl; intros samples; [by intros [= <-]|].
  destruct (parseSample t raw); [|done]. destruct (parse_samples t l) as [rest|]; [|done]. intros [= <-]. simpl. by rewrite (IH rest).
Qed.

Lemma QuerySeries_says addr query tr samples tr' : QuerySeries addr query tr = (Ok samples, tr') → prom_says addr query tr tr' samples.
Proof.
  unfold QuerySeries. destruct (nt_NewRequest _); [done|].
  unfold attempt_result, Do, call, mbind, Prog_bind, mret, Prog_ret. destruct (nt_Do _) as [resp|e] eqn:Er; [|done].
  unfold prom_answer. destruct (Z.eqb_spec (os_Code resp) 200) as [Hc|]; [|done]. cbn [negb].
  destruct (decode_prom (os_Body resp)) as [doc|] eqn:Ed; [|done]. case_bool_decide as Hs; [|done]. cbn [negb].
  destruct (Nat.eqb_spec (length (pr_Result doc)) 0) as [|Hne]; [done|]. intros [= Hp <-]. exists resp, doc.
  pose proof (parse_samples_len _ _ _ Hp) as Hl. split_and!; try done. intros ->. simpl in Hl. lia.
Qed.

(** A metric is judged on every series of the answer: without an aggregation
    there is exactly one, with one the aggregation saw them all. *)
Theorem metric_sees_every_series (prog : list (string * any) → result any) t addr m tr f tr' :
  queryMetric {| an_provider := prometheus_provider addr; an_tmpl := t; an_prog := prog |} m tr = (Ok f, tr') →
  ∃ samples, prom_says addr (me_Query m) tr tr' samples ∧
    if me_Aggregation m == "" then ∃ labels, samples = [{| ss_Labels := labels; ss_Value := f |}]
    else Aggregate (ss_Value <$> samples) (me_Aggregation m) = Ok f.
Proof.
  unfold queryMetric. cbn [an_provider prometheus_provider mp_Query mp_Series]. case_bool_decide as Hagg.
  - unfold Query, attempt_result, mbind, Prog_bind. destruct (QuerySeries addr (me_Query m) tr) as [[samples|e] tr1] eqn:Eq; [|done].
    unfold mret, Prog_ret. destruct samples as [|[labels v] [|? ?]]; [done| |done]. intros [= <- <-].
    eexists. split; [by apply QuerySeries_says|]. by exists labels.
  - unfold mbind, Prog_bind. destruct (QuerySeries addr (me_Query m) tr) as [[samples|e] tr1] eqn:Eq; unfold mret, Prog_ret; [|done].
    intros [= Ha <-]. exists samples. split; [by apply QuerySeries_says|done].
Qed.

(** The answer to a query that evaluates to a scalar, as the HTTP API documents
    it: the result is the pair itself. *)
Definition scalar_document (ts : json) (v : string) : json :=
  JObj [("status", JStr "success"); ("data", JObj [("resultType", JStr "scalar"); ("result", JArr [ts; JStr v])])].

(** No scalar is ever read: the client takes the pair for two results. *)
Lemma scalars_are_refused addr query tr v lit resp :
  nt_NewRequest (prom_url addr query) = None → os_Code resp = 200 → os_Body resp = Marshal (scalar_document (JNum lit) v) →
  scan_number lit = Some (lit, "") → (∀ tr, nt_Do tr = Ok resp) →
  (Query addr query tr).1 = Err (Errorf "analysis: bad scalar result").
Proof.
  intros Hreq Hc Hb Hlit Hdo. unfold Query, QuerySeries. rewrite Hreq.
  unfold attempt_result, Do, call, mbind, Prog_bind, mret, Prog_ret. rewrite Hdo. unfold prom_answer. rewrite Hc. cbn [Z.eqb negb].
  unfold decode_prom. pose proof (Decode_Marshal (scalar_document (JNum lit) v) "") as Hd. rewrite str_app_empty_r in Hd.
  rewrite Hb, Hd; [|cbn [scalar_document well_formed forallb snd]; by rewrite bool_decide_true|apply shallow; vm_compute; lia|done].
  vm_compute. done.
Qed.

(** ** GitHub App tokens *)

(** The token was a member [token] of an answer 201 to a request made since
    [base], with the expiry the answer gave or, when it gave none, an hour after
    the clock was read next. *)
Definition minted (base tr : list NetCall) (token : string) (exp : Time) : Prop :=
  ∃ later r mid resp given members k, let asked := CDo r None :: mid ++ base in
    tr = later ++ asked ∧ nt_Do asked = Ok resp ∧ os_Code resp = 201 ∧
    Unmarshal (limited (os_Body resp)) = Ok (JObj members) ∧ (k, JStr token) ∈ members ∧ EqualFold k "token" = true ∧
    token_answer resp = Ok (token, given) ∧
    exp = if decide (given = zero_time) then nt_Now (CNow :: asked) + Hour else given.

Lemma minted_later new base tr token exp : minted base tr token exp → minted base (new ++ tr) token exp.
Proof.
  intros (later & r & mid & resp & given & members & k & -> & Hm). exists (new ++ later), r, mid, resp, given, members, k.
  cbv zeta. by rewrite <- (app_assoc new later).
Qed.
Lemma minted_earlier new base tr token exp : minted (new ++ base) tr token exp → minted base tr token exp.
Proof.
  intros (later & r & mid & resp & given & members & k & Hm). exists later, r, (mid ++ new), resp, given, members, k.
  cbv zeta in *. by rewrite <- (app_assoc mid new base).
Qed.

(** A token that is not empty was written: some member [token] is it. *)
Lemma token_is_written l x y : fold_members token_field x l = Ok y → y.1 ≠ x.1 →
  ∃ k, (k, JStr y.1) ∈ l ∧ EqualFold k "token" = true.
Proof.
  revert x. induction l as [|[k v] l IH]; intros x Hf Hy; [by simplify_eq/=|]. cbn [fold_members] in Hf.
  destruct (token_field x k v) as [x1|] eqn:Ex; [|done]. destruct (decide (y.1 = x1.1)) as [E|Hne].
  - exists k. unfold token_field in Ex. destruct (EqualFold k "token"); [|by repeat case_match; simplify_eq/=].
    split; [|done]. rewrite E in *. destruct v; simplify_eq/=; left.
  - destruct (IH x1 Hf Hne) as (k' & Hk & He). exists k'. by split; [right|].
Qed.

Lemma token_answer_member resp token given : token_answer resp = Ok (token, given) →
  ∃ members k, Unmarshal (limited (os_Body resp)) = Ok (JObj members) ∧ (k, JStr token) ∈ members ∧ EqualFold k "token" = true.
Proof.
  unfold token_answer. destruct (os_Code resp =? 201); [|done]. cbn [negb].
  destruct (Unmarshal _) as [v|]; [|done]. destruct (into_struct token_field ("", zero_time) v) as [[tok ex]|] eqn:Et; [|done].
  case_bool_decide as Hn; [done|]. intros [= -> ->]. destruct v; simplify_eq/=.
  destruct (token_is_written _ _ _ Et Hn) as [k Hk]. by exists l, k.
Qed.

Lemma token_answer_code resp x : token_answer resp = Ok x → os_Code resp = 201 ∧ x.1 ≠ "".
Proof.
  unfold token_answer. destruct (Z.eqb_spec (os_Code resp) 201); [|done]. cbn [negb]. case_match; [|done]. destruct a as [tok ex].
  case_bool_decide; [done|]. by intros [= <-].
Qed.

Lemma mint_minted g tr token exp tr' : mint g tr = (Ok (token, exp), tr') →
  token ≠ "" ∧ minted tr tr' token exp.
Proof.
  unfold mint, signJWT, read_clock, attempt_result, Do, call, mbind, Prog_bind, mret, Prog_ret.
  destruct (nt_SignPKCS1v15 _ _) as [sig|]; [|done]. destruct (nt_NewRequest _); [done|].
  destruct (nt_Do _) as [resp|] eqn:Er; [|done]. destruct (token_answer resp) as [[tok given]|] eqn:Et; [|done].
  pose proof (token_answer_code _ _ Et) as [Hc Ht]. destruct (token_answer_member _ _ _ Et) as (members & k & Hm).
  case_bool_decide as Hz; intros [= <- <- <-]; (split; [done|]).
  - eexists [CNow], _, [_], resp, given, members, k. cbv zeta. rewrite decide_True by done. split; [reflexivity|]. naive_solver.
  - eexists [], _, [_], resp, given, members, k. cbv zeta. rewrite decide_False by done. split; [reflexivity|]. naive_solver.
Qed.

(** One call: a cached token with more than a minute to live, without asking
    anyone; or a new one, which is then the cached one; or an error, and the
    cache is what it was. *)
Lemma Token_cases g tr r g' tr' : Token g tr = ((r, g'), tr') →
  (r = Ok (ga_token g) ∧ g' = g ∧ tr' = CNow :: tr ∧ ga_token g ≠ "" ∧ nt_Now tr' + 60 * Second < ga_exp g) ∨
  (∃ new, tr' = new ++ tr ∧ r = Ok (ga_token g') ∧ ga_token g' ≠ "" ∧ minted tr tr' (ga_token g') (ga_exp g')) ∨
  (∃ e new, tr' = new ++ tr ∧ r = Err e ∧ g' = g).
Proof.
  assert (∀ tr, (attempt r <- mint g catch e => mret (Err e, g); mret (Ok r.1, set_token g r.1 r.2)) tr = ((r, g'), tr') →
    (∃ new, tr' = new ++ tr ∧ r = Ok (ga_token g') ∧ ga_token g' ≠ "" ∧ minted tr tr' (ga_token g') (ga_exp g')) ∨
    (∃ e new, tr' = new ++ tr ∧ r = Err e ∧ g' = g)) as Hmint.
  { intros tr0. unfold attempt_result, mbind, Prog_bind, mret, Prog_ret. destruct (mint g tr0) as [[[tok ex]|e] tr1] eqn:Em; intros [= <- <- <-].
    - left. apply mint_minted in Em as [Ht Hm]. pose proof Hm as (later & q & mid & ? & ? & ? & ? & Htr & _).
      exists (later ++ CDo q None :: mid). split; [|done]. by rewrite Htr, <- app_assoc.
    - right. assert (issues (λ _, True) (mint g)) as Hi.
      { unfold mint, signJWT, read_clock. apply issues_result; [apply issues_bind; [by apply issues_call|intros; apply issues_ret]|intros; apply issues_ret|].
        intros jwt. destruct (nt_NewRequest _); [apply issues_ret|]. apply issues_result; [by apply issues_call|intros; apply issues_ret|].
        intros resp. destruct (token_answer resp) as [[tok given]|]; [|apply issues_ret]. case_match; [|apply issues_ret].
        apply issues_bind; [by apply issues_call|intros; apply issues_ret]. }
      destruct (Hi tr0) as (new & Hn & _). rewrite Em in Hn. by exists e, new. }
  unfold Token. unfold mbind at 1, Prog_bind at 1. case_bool_decide as Ht; cbn [negb]; unfold mret at 1, Prog_ret at 1.
  - intros E. right. by apply Hmint.
  - unfold read_clock, call, mbind at 1, Prog_bind at 1. unfold mret at 1, Prog_ret at 1.
    destruct (Z.ltb_spec (nt_Now (CNow :: tr)) (ga_exp g - 60 * Second)) as [Hlt|].
    + unfold mret, Prog_ret. intros [= <- <- <-]. left. split_and!; try done. lia.
    + intros E. right. destruct (Hmint _ E) as [(new & -> & Hm)|(e & new & -> & Hm)]; [left; exists (new ++ [CNow])|right; exists e, (new ++ [CNow])];
        rewrite <- app_assoc; [|done]. destruct Hm as (? & ? & Hm). split_and!; try done. by apply (minted_earlier [CNow]).
Qed.

(** One call of many: the calls made before it, its answer, those made after it
    and the state it leaves. *)
Record Served := { sv_before : list NetCall; sv_answer : result string; sv_after : list NetCall; sv_app : GitHubApp }.

Fixpoint serve (n : nat) (g : GitHubApp) (tr : list NetCall) : list Served :=
  match n with
  | O => []
  | S n => let '(r, g', tr') := Token g tr in
           {| sv_before := tr; sv_answer := r; sv_after := tr'; sv_app := g' |} :: serve n g' tr'
  end.

Definition cache_ok (g : GitHubApp) (tr : list NetCall) : Prop := ga_token g = "" ∨ minted [] tr (ga_token g) (ga_exp g).

Lemma Token_keeps g tr r g' tr' : cache_ok g tr → Token g tr = ((r, g'), tr') → cache_ok g' tr'.
Proof.
  intros Hg E. destruct (Token_cases _ _ _ _ _ E) as [(_ & -> & -> & _ & _)|[(new & -> & _ & _ & Hm)|(e & new & -> & _ & ->)]].
  - destruct Hg as [?|Hm]; [by left|right]. by apply (minted_later [CNow]).
  - right. apply (minted_earlier tr). by rewrite app_nil_r.
  - destruct Hg as [?|Hm]; [by left|right]. by apply minted_later.
Qed.

Lemma serve_reaches n g tr s : cache_ok g tr → s ∈ serve n g tr →
  ∃ g0, cache_ok g0 (sv_before s) ∧ Token g0 (sv_before s) = ((sv_answer s, sv_app s), sv_after s).
Proof.
  revert g tr. induction n as [|n IH]; intros g tr Hg; cbn [serve]; [by intros ?%elem_of_nil|].
  destruct (Token g tr) as [[r g'] tr'] eqn:E. intros [->|Hs]%elem_of_cons; [by exists g|].
  apply (IH g' tr'); [by eapply Token_keeps|done].
Qed.

(** C33. Of any sequence of calls, every token handed out was minted in it, and
    either it was minted by an answer received during the call that hands it out,
    or that call only read the clock, which showed more than a minute before the
    token's expiry.  A mint that fails hands out nothing. *)
Theorem served_tokens_are_live appID installationID pemKey base g n s token :
  NewGitHubApp appID installationID pemKey [WithGitHubAPIBase base] = Ok g → s ∈ serve n g [] → sv_answer s = Ok token →
  token ≠ "" ∧ minted [] (sv_after s) token (ga_exp (sv_app s)) ∧
  (sv_after s = CNow :: sv_before s ∧ nt_Now (sv_after s) + 60 * Second < ga_exp (sv_app s) ∨
   minted (sv_before s) (sv_after s) token (ga_exp (sv_app s))).
Proof.
  intros Hnew Hs Ha. assert (cache_ok g []) as Hg.
  { left. unfold NewGitHubApp in Hnew. case_match; [done|]. destruct (parseRSAPrivateKey pemKey); [|done]. by simplify_eq. }
  destruct (serve_reaches n g [] s Hg Hs) as (g0 & Hg0 & E). rewrite Ha in E.
  destruct (Token_cases _ _ _ _ _ E) as [([= ->] & Hap & Htr & Hne & Hlt)|[(new & Htr & [= ->] & Hne & Hm)|(e & new & _ & [=] & _)]].
  - split; [done|]. split; [|left; by rewrite Hap]. rewrite Hap, Htr. destruct Hg0 as [?|Hm]; [done|]. by apply (minted_later [CNow]).
  - split; [done|]. split; [|by right]. apply (minted_earlier (sv_before s)). by rewrite app_nil_r.
Qed.

(** The claims GitHub reads in the second part of a token request's bearer: the
    application as issuer, issued a minute ago and valid for ten minutes from
    then. *)
Lemma jwt_reads_back appID now : valid_utf8 appID = true →
  ∃ c, DecodeString RawURLEncoding (base64URL (Marshal (jwt_claims appID now))) = Some c ∧
       Unmarshal c = Ok (JObj [("exp", JNum (pretty (unix now + 540))); ("iat", JNum (pretty (unix now - 60))); ("iss", JStr appID)]).
Proof.
  intros Hv. exists (Marshal (jwt_claims appID now)). split; [apply DecodeString_EncodeToString|].
  assert (jwt_claims appID now = JObj [("exp", JNum (pretty (unix now + 540))); ("iat", JNum (pretty (unix now - 60))); ("iss", JStr appID)]) as E.
  { unfold jwt_claims, unix, Minute. repeat f_equal; unfold Second; Z.to_euclidean_division_equations; lia. }
  rewrite E. apply Unmarshal_exact.
  - cbn [well_formed forallb snd]. by rewrite !bool_decide_true by apply pretty_number.
  - cbn [valid_json forallb fst snd]. by rewrite Hv.
  - apply shallow. vm_compute. lia.
Qed.

Lemma signed_claims g tr jwt tr' : signJWT g tr = (Ok jwt, tr') →
  tr' = CNow :: tr ∧ ∃ sig, nt_SignPKCS1v15 (ga_key g) (signing_input (ga_appID g) (nt_Now tr')) = Ok sig ∧
  jwt = signing_input (ga_appID g) (nt_Now tr') +:+ "." +:+ base64URL sig.
Proof.
  unfold signJWT, read_clock, call, mbind, Prog_bind, mret, Prog_ret. destruct (nt_SignPKCS1v15 _ _) as [sig|] eqn:Es; [|done].
  intros [= <- <-]. split; [done|]. by exists sig.
Qed.

(** ** References to Vault *)
Lemma cut_last_app c a b : lacks c b → cut_last c (a +:+ String c b) = Some (a, b).
Proof.
  intros Hb. assert (cut_last c b = None) as Hn.
  { induction b as [|d b IH]; [done|]. destruct Hb as [Hd Hb]. cbn [cut_last]. rewrite (IH Hb). by rewrite bool_decide_false. }
  induction a as [|d a IH]; [change ("" +:+ String c b) with (String c b); cbn [cut_last]; rewrite Hn; by rewrite bool_decide_true|].
  change (String d a +:+ String c b) with (String d (a +:+ String c b)). cbn [cut_last]. by rewrite IH.
Qed.

Lemma cut_first_app c a b : lacks c a → cut_first c (a +:+ String c b) = Some (a, b).
Proof.
  induction a as [|d a IH]; [intros _; change ("" +:+ String c b) with (String c b); cbn [cut_first]; by rewrite bool_decide_true|].
  intros [Hd Ha]. change (String d a +:+ String c b) with (String d (a +:+ String c b)). cbn [cut_first].
  rewrite bool_decide_false by done. by rewrite IH.
Qed.

Definition vault_ref (mount path key : string) : string := mount +:+ String slash path +:+ String hash_sign key.

(** A reference names its mount, path and key: the mount up to the first slash,
    the key after the last hash sign. *)
Theorem vault_references_are_read mount path key fallback :
  mount ≠ "" → path ≠ "" → key ≠ "" → lacks slash mount → lacks hash_sign key →
  parseRef (vault_ref mount path key) fallback = Ok (mount, path, key).
Proof.
  intros Hm Hp Hk Hs Hh. unfold parseRef, vault_ref. rewrite str_app_assoc. rewrite cut_last_app by done.
  rewrite cut_first_app by done. cbn [default from_option id]. by rewrite !bool_decide_false.
Qed.
End Safety.

(** ** Examples *)
Definition demo_answer (url : string) : string :=
  if HasPrefix url "https://gov" then Marshal (JObj [("Allowed", JBool true); ("reason", JNull)])
  else if HasPrefix url "http://prom" then
    Marshal (JObj [("status", JStr "success"); ("data", JObj [("resultType", JStr "vector");
      ("result", JArr [JObj [("metric", JObj [("job", JStr "web")]); ("value", JArr [JNum "1"; JStr "0.5"])]])])])
  else Marshal (JObj [("token", JStr "ghs_1"); ("expires_at", JStr "2026-01-01T01:00:00Z")]).

Definition demo_net : Net := {|
  nt_NewRequest := λ _, None;
  nt_Do := λ tr, match tr with
                 | CDo r _ :: _ => Ok {| os_Code := if or_Method r == "POST" then if HasPrefix (or_URL r) "https://gov" then 200 else 201 else 200;
                                         os_Status := "200 OK"; os_Body := demo_answer (or_URL r) |}
                 | _ => Err (Errorf "no answer")
                 end;
  nt_LookupEnv := λ _, Some "hunter2";
  nt_ReadFile := λ _, Err (Errorf "no file");
  nt_Now := λ tr, match ParseRFC3339 "2026-01-01T00:00:00Z" with Ok t => t + Z.of_nat (length tr) * Second | Err _ => 0 end;
  nt_Mail := λ _, None;
  nt_Transport := λ _, None;
  nt_Initialize := λ _, None;
  nt_CallTool := λ _, Ok (false, []);
  nt_hmac := λ k m, k +:+ "|" +:+ m;
  nt_pem := λ s, Some s;
  nt_PKCS1 := λ s, Ok s;
  nt_PKCS8 := λ _, Err (Errorf "unused");
  nt_SignPKCS1v15 := λ k m, Ok ("signed by " +:+ k);
  nt_ParseFloat := λ s, if s == "0.5" then Ok 0.5%float else if s == "1" then Ok 1%float else Err not_a_number;
  nt_FormatFloat := λ _, "1";
|}.

Definition demo_env (k : string) : string :=
  if k == "ROLLOPS_GOVERNANCE_URL" then "https://gov/decide" else if k == "ROLLOPS_GOVERNANCE_SECRET" then "s3" else
  if k == "VAULT_ADDR" then "http://vault/" else if k == "VAULT_TOKEN" then "t" else "".
Definition demo_query : GovRequest :=
  {| gq_Action := "apply"; gq_TargetRef := "web"; gq_Actor := {| id_Kind := "human"; id_Name := "ada"; id_Groups := [] |};
     gq_Environment := "prod"; gq_Version := "" |}.
Definition demo_event : Event :=
  {| nk_Kind := NotifyPromoted; nk_TargetRef := "web"; nk_RolloutID := "r1"; nk_Detail := ""; nk_Version := ""; nk_Environment := "prod" |}.

Lemma governor_fails_closed_witness :
  ∃ r members, Unmarshal (or_Body r) = Ok (JObj members) ∧ asks demo_query members ∧
       (@hook_Evaluate demo_net (governance_FromEnv demo_env) demo_query []).2 = [CDo r (Some (5 * Second))].
Proof.
  destruct (@governor_fails_closed demo_net demo_env demo_query ({| gd_Allowed := true; gd_Reason := "" |}, ∅) []
    (@hook_Evaluate demo_net (governance_FromEnv demo_env) demo_query []).2) as (r & timeout & members & resp & l & rest & k & Htr & _ & _ & Hb & Ha & _).
  - vm_compute. discriminate.
  - vm_compute. reflexivity.
  - reflexivity.
  - exists r, members. split; [exact Hb|]. split; [exact Ha|]. rewrite Htr. revert Htr. vm_compute. intros [= <- <-]. reflexivity.
Defined.

Definition demo_hook : Webhook := {| wh_URL := "https://hook"; wh_Secret := "s3" |}.
Lemma webhooks_are_authentic_witness :
  VerifySignature (@nt_hmac demo_net) "s3" (Marshal (event_json demo_event))
    ("sha256=" +:+ hex_encode (@nt_hmac demo_net "s3" (Marshal (event_json demo_event)))) = None.
Proof.
  destruct (@webhooks_are_authentic demo_net demo_hook demo_event [] (@webhook_request demo_net demo_hook (Marshal (event_json demo_event))) None)
    as (_ & _ & sig & Hin & Hv).
  - discriminate.
  - left.
  - apply not_elem_of_nil.
  - apply elem_of_cons in Hin as [[=]|Hin]. apply list_elem_of_singleton in Hin as [= ->]. exact Hv.
Defined.

Lemma references_are_contained_witness :
  ∃ provider token, (@secrets_FromEnv demo_net demo_env []).1 = Ok provider ∧
    issues (secret_call "http://vault/" token) (provider "kv/prod/db#password").
Proof.
  destruct (@references_are_contained demo_net demo_env
    (@chain_Resolve [@vault_Resolve demo_net {| va_Addr := "http://vault/"; va_Token := "t"; va_Mount := "" |}; @secret_env demo_net])
    "kv/prod/db#password" [] []) as [token Ht].
  - vm_compute. reflexivity.
  - eexists _, token. split; [|exact Ht]. vm_compute. reflexivity.
Defined.

Lemma metric_sees_every_series_witness :
  ∃ samples, @prom_says demo_net "http://prom" "up" []
    [CDo {| or_Method := "GET"; or_URL := "http://prom/api/v1/query?query=up"; or_Header := []; or_Body := "" |} None] samples ∧
    length samples = 1%nat.
Proof.
  destruct (@metric_sees_every_series demo_net (λ _, Ok (ABool true))
    {| te_Metrics := []; te_Condition := ""; te_Interval := 0; te_Count := 1; te_FailureLimit := 0 |} "http://prom"
    {| me_Name := "up"; me_Query := "up"; me_Aggregation := "" |} []
    0.5%float [CDo {| or_Method := "GET"; or_URL := "http://prom/api/v1/query?query=up"; or_Header := []; or_Body := "" |} None])
    as (samples & Hs & Hone).
  - vm_compute. reflexivity.
  - exists samples. split; [exact Hs|]. cbn [me_Aggregation] in Hone. rewrite bool_decide_true in Hone by reflexivity.
    destruct Hone as [labels ->]. reflexivity.
Defined.

Definition demo_app : GitHubApp :=
  {| ga_appID := "7"; ga_installationID := "9"; ga_key := "pem"; ga_apiBase := "https://api"; ga_token := ""; ga_exp := zero_time |}.
Definition demo_served (i : nat) : Served :=
  default {| sv_before := []; sv_answer := Ok ""; sv_after := []; sv_app := demo_app |} (@serve demo_net 2 demo_app [] !! i).

(** The first call mints the token it hands out, the second finds it cached. *)
Lemma served_tokens_are_live_witness :
  (sv_answer (demo_served 0) = Ok "ghs_1" ∧
   @minted demo_net (sv_before (demo_served 0)) (sv_after (demo_served 0)) "ghs_1" (ga_exp (sv_app (demo_served 0)))) ∧
  (sv_answer (demo_served 1) = Ok "ghs_1" ∧ sv_after (demo_served 1) = CNow :: sv_before (demo_served 1) ∧
   @minted demo_net [] (sv_after (demo_served 1)) "ghs_1" (ga_exp (sv_app (demo_served 1)))).
Proof.
  assert (∀ i, (i < 2)%nat → demo_served i ∈ @serve demo_net 2 demo_app []) as Hin.
  { intros i Hi. apply (list_elem_of_lookup_2 _ i). destruct i as [|[|i]]; [vm_compute; reflexivity..|lia]. }
  split; (split; [vm_compute; reflexivity|]).
  - destruct (@served_tokens_are_live demo_net "7" "9" "pem" "https://api" demo_app 2 (demo_served 0) "ghs_1"
      eq_refl (Hin 0%nat ltac:(lia)) ltac:(vm_compute; reflexivity)) as (_ & _ & [[Hc _]|Hm]); [|exact Hm].
    exfalso. apply (f_equal length) in Hc. revert Hc. vm_compute. discriminate.
  - split; [vm_compute; reflexivity|].
    apply (@served_tokens_are_live demo_net "7" "9" "pem" "https://api" demo_app 2 (demo_served 1) "ghs_1"
      eq_refl (Hin 1%nat ltac:(lia)) ltac:(vm_compute; reflexivity)).
Defined.

Lemma vault_references_are_read_witness : parseRef (vault_ref "kv" "prod/db" "password") "" = Ok ("kv", "prod/db", "password").
Proof. apply vault_references_are_read; try discriminate; simpl; repeat split; try discriminate. Defined.

(** A reference written differently can be the same variable; the subject of a
    mail is neither one line nor ASCII when the target's name is not. *)
Example variables_collide : envKey "db-pass" = envKey "db.pass" ∧ envKey "db-pass" = envKey "db/pass".
Proof. done. Qed.

Example subject_takes_any_name : 
  let ev := {| nk_Kind := NotifyPromoted; nk_TargetRef := "web" +:+ crlf +:+ "Bcc: x@y"; nk_RolloutID := ""; nk_Detail := ""; nk_Version := ""; nk_Environment := "" |} in
  event_Subject ev = "Rollops: web" +:+ crlf +:+ "Bcc: x@y promoted".
Proof. done. Qed.

(** Vault's empty value is a hit, where an empty variable is none. *)
Example empty_vault_value_is_a_hit :
  vault_answer "kv/a#k" "k" {| os_Code := 200; os_Status := "200 OK";
    os_Body := Marshal (JObj [("data", JObj [("data", JObj [("k", JStr "")])])]) |} = Ok (NewSecret "").
Proof. vm_compute. reflexivity. Qed.
