(* ===== verification/BootSafety.v ===== *)
(** * What an engine that booted is

    The daemon and the one-shot command go through [internal/boot]; whatever the
    environment says, the engine has the guardrails, reads the freeze from the
    store, and a freeze that was engaged before a restart still stops it. *)

From S2P Require Import Prelude Encoding GoTime TimeParse Statekit Json Config Progressive Model Lifecycle Security Provenance Store World Git ConfigLoad.
From S2P Require Import EngineBase EngineGates EngineRollback EngineDeploy Scenario Process Outbound Boot Frame EngineSafety OutboundSafety.

Section Booted.
Context `{Net, Codec} (cosign : nat → list string → string * option err).
Context {S : Type} `{!Store S} (getenv : string → string).

Lemma boot_Ok s tr b st tr' : boot_Options cosign getenv (Some s) tr = ((Ok b, st), tr') →
  ∃ row prov, (LoadFreeze s).1 = Ok row ∧ st = Some (LoadFreeze s).2 ∧ b = assemble cosign getenv row prov.
Proof.
  unfold boot_Options. destruct (LoadFreeze s) as [[row|e] s']; [|done].
  unfold attempt_result, mbind, Prog_bind. destruct (secrets_FromEnv getenv tr) as [[prov|e] tr1]; [|done].
  unfold mret, Prog_ret. intros [= <- <- <-]. by exists row, prov.
Qed.

Lemma assembled_engine row prov host pid :
  let b := assemble cosign getenv row prov in
  let e := New getenv host pid (bt_options b) in
  e_guardrails e = Some boot_guardrails ∧ e_audit e = true ∧ e_secrets e = true ∧
  e_confinement e = ConfinementFromEnv getenv ∧ e_governance e = bool_decide (is_Some (bt_governance b)) ∧
  e_artifact e = (λ g, (g.1, true)) <$> bt_gate b ∧ e_notifier e = bool_decide (is_Some (bt_notifier b)) ∧
  e_analysis e = analysisEnabled (getenv "ROLLOPS_ANALYSIS") ∧ e_owner e ≠ "" ∧
  fz_active (bt_freeze b) = fs_Active row ∧ (fs_Active row = true → fz_reason (bt_freeze b) = fs_Reason row).
Proof.
  unfold assemble. destruct (artifactGate cosign getenv) as [gate describe]. cbn [bt_options bt_governance bt_gate bt_notifier bt_freeze].
  unfold New. rewrite !foldl_app.
  destruct (analysisEnabled _), gate as [[mode v]|], (notify_FromEnv getenv).1, (governance_FromEnv getenv), (fs_Active row);
    split_and!; try done; simpl; by case_bool_decide.
Qed.

Lemma assembled_parts row prov : bt_governance (assemble cosign getenv row prov) = governance_FromEnv getenv ∧
  bt_gate (assemble cosign getenv row prov) = (artifactGate cosign getenv).1.
Proof. unfold assemble. by destruct (artifactGate cosign getenv). Qed.

Lemma governed : is_Some (governance_FromEnv getenv) ↔ getenv "ROLLOPS_GOVERNANCE_URL" ≠ "".
Proof. unfold governance_FromEnv. case_bool_decide; naive_solver. Qed.

Lemma gate_enforces g : (artifactGate cosign getenv).1 = Some g → g.1 = VerifyEnforce.
Proof. unfold artifactGate. case_match; [done|]. by intros [= <-]. Qed.
End Booted.

(** ** Properties *)

(** Whatever the environment holds, an engine that boots has the audit trail,
    the policy floor, the agent limit and the freeze of the store; it asks the
    governor exactly when one is configured, verifies artifacts exactly when a
    gate is, is confined as the environment says, and starts frozen exactly when
    the store says so.  A store whose freeze cannot be read boots nothing. *)
Theorem booted_engines_are_guarded `{Net, Codec} {S} `{!Store S, !StoreLaws S} cosign getenv (s : S) tr b st tr' host pid :
  boot_Options cosign getenv (Some s) tr = ((Ok b, st), tr') →
  let e := New getenv host pid (bt_options b) in
  e_guardrails e = Some {| gr_Floor := DefaultPolicyFloor; gr_Freeze := true; gr_AgentLimit := true; gr_FreezeSource := true |} ∧
  e_audit e = true ∧ e_secrets e = true ∧ e_confinement e = ConfinementFromEnv getenv ∧
  (e_governance e = true ↔ getenv "ROLLOPS_GOVERNANCE_URL" ≠ "") ∧
  (e_artifact e = Some (VerifyEnforce, true) ↔ is_Some (artifactGate cosign getenv).1) ∧ e_owner e ≠ "" ∧
  fz_active (bt_freeze b) = fs_Active (freeze_of s).
Proof.
  intros Hb. apply boot_Ok in Hb as (row & prov & Hl & -> & ->).
  pose proof (load_freeze_spec s) as [_ Hf]. rewrite Hl in Hf. subst row.
  destruct (assembled_engine cosign getenv (freeze_of s) prov host pid) as (H1 & H2 & H3 & H4 & H5 & H6 & _ & _ & H7 & H8 & _).
  cbv zeta in *. split_and!; try done.
  - destruct (assembled_parts cosign getenv (freeze_of s) prov) as [Hg _]. rewrite H5, bool_decide_eq_true, Hg. apply governed.
  - destruct (assembled_parts cosign getenv (freeze_of s) prov) as [_ Hg]. rewrite H6, Hg.
    destruct (artifactGate cosign getenv).1 as [g|] eqn:Eg; simpl; [|split; [done|by intros [? [=]]]].
    rewrite (gate_enforces cosign getenv g Eg). split; [by eexists|done].
Qed.

(** C37. A freeze survives a restart: with the stored freeze engaged, the engine that
    boots refuses every apply, deploys nothing and leaves the store as it is.  The
    error is the freeze, except for an agent that has produced no plan, which is
    told so before the freeze is looked at. *)
Theorem restart_keeps_the_freeze `{Net, Codec} {S} `{!Store S, !StoreLaws S, !Statechart Phase LifeContext unit}
    `{!Statechart StepState StepContext (World S * option err)} cosign getenv env (s s' : S) tr b tr' host pid req :
  fs_Active (freeze_of s) = true → boot_Options cosign getenv (Some s) tr = ((Ok b, Some s'), tr') →
  let e := New getenv host pid (bt_options b) in
  let w := MkWorld s' ∅ (bt_freeze b) [] 0 [] in
  ∃ er, (Apply env e req w).1 = (None, Some er) ∧ quiet Probe w (Apply env e req w).2 ∧
    if decide (id_Kind (rq_Initiator req) = "agent" ∧ rq_Planned req = false)
    then er = Errorf "engine: apply: agent-driven rollout requires a produced plan first"
    else errors_Is er ErrFrozen = true.
Proof.
  intros Hf Hb e w. apply boot_Ok in Hb as (row & prov & Hl & [= ->] & ->).
  pose proof (load_freeze_spec s) as [(_ & _ & Hv) _].
  destruct (assembled_engine cosign getenv row prov host pid) as (Hg & _).
  destruct (frozen_Apply env e boot_guardrails req w Hg eq_refl) as (er & w' & Ha & Hq & Hi).
  { left. unfold frozen. cbn [w w_store]. by rewrite Hv. }
  exists er. rewrite Ha. split_and!; [done..|]. destruct (decide _) as [[Hk Hp]|Hn].
  - revert Ha. unfold Apply. rewrite Hk, Hp. by intros [= <- _].
  - apply Hi. destruct (decide (id_Kind (rq_Initiator req) = "agent")); [right|by left].
    destruct (rq_Planned req) eqn:Hp; [done|]. by destruct Hn.
Qed.

Section Witnesses.
Import Scenario.
#[local] Existing Instance life_chart.
#[local] Existing Instance step_chart.

Definition boot_codec : Codec := Demo.codec Demo.good.
#[local] Existing Instance boot_codec.
#[local] Existing Instance demo_net.

Definition boot_env (k : string) : string := if k == "ROLLOPS_GOVERNANCE_URL" then "https://gov/decide" else "".
Definition no_cosign (n : nat) (args : list string) : string * option err := ("", Some (Errorf "no cosign")).

(** The store after the freeze of [frozen_world]. *)
Definition frozen_db : Sqlite.Db := w_store frozen_world.
Definition booted : Booted :=
  match (boot_Options no_cosign boot_env (Some frozen_db) []).1.1 with
  | Ok b => b
  | Err _ => assemble no_cosign boot_env {| fs_Active := false; fs_Reason := ""; fs_By := ann; fs_At := 0 |} secret_env
  end.

Lemma booted_engines_are_guarded_witness :
  e_governance (New boot_env "host" 7 (bt_options booted)) = true ∧ fz_active (bt_freeze booted) = true.
Proof.
  destruct (booted_engines_are_guarded no_cosign boot_env frozen_db [] booted (Some (LoadFreeze frozen_db).2) [] "host" 7)
    as (_ & _ & _ & _ & Hg & _ & _ & Hf); [vm_compute; reflexivity|].
  split; [apply Hg; vm_compute; discriminate|]. rewrite Hf. vm_compute. reflexivity.
Defined.

(** An agent's request without a plan. *)
Definition unplanned : ApplyRequest := let r := request (web "v1") ann false in {|
  rq_Config := rq_Config r; rq_Initiator := {| id_Kind := "agent"; id_Name := "bot"; id_Groups := [] |}; rq_Root := rq_Root r;
  rq_Planned := false; rq_NeedsApproval := false; rq_Risk := rq_Risk r |}.

(** Refused: a person, and an agent without a plan. *)
Lemma restart_keeps_the_freeze_witness :
  let apply req := (Apply sunny (New boot_env "host" 7 (bt_options booted)) req
           (MkWorld (LoadFreeze frozen_db).2 ∅ (bt_freeze booted) [] 0 [])).1 in
  (∃ er, apply (request (web "v1") ann false) = (None, Some er) ∧ errors_Is er ErrFrozen = true) ∧
  apply unplanned = (None, Some (Errorf "engine: apply: agent-driven rollout requires a produced plan first")).
Proof.
  intros apply. split.
  - destruct (restart_keeps_the_freeze no_cosign boot_env sunny frozen_db (LoadFreeze frozen_db).2 [] booted [] "host" 7 (request (web "v1") ann false))
      as (er & Ha & _ & Hi); [vm_compute; reflexivity..|].
    exists er. split; [exact Ha|exact Hi].
  - destruct (restart_keeps_the_freeze no_cosign boot_env sunny frozen_db (LoadFreeze frozen_db).2 [] booted [] "host" 7 unplanned)
      as (er & Ha & _ & Hi); [vm_compute; reflexivity..|].
    rewrite decide_True in Hi by done. rewrite <- Hi. exact Ha.
Defined.

(** The switch of the metric analysis is read more narrowly than the others. *)
Example analysis_ignores_on : analysisEnabled "on" = false ∧ truthy "on" = true.
Proof. done. Qed.

(** A blank address of Vault is announced, and not used. *)
Example blank_vault_is_announced :
  let env k := if k == "VAULT_ADDR" then " " else "" in
  bt_log (assemble no_cosign env {| fs_Active := false; fs_Reason := ""; fs_By := ann; fs_At := 0 |} secret_env) !! 0%nat =
    Some "rollops: secret chain Vault+Env ( )" ∧
  (@secrets_FromEnv demo_net env []).1 = Ok secret_env.
Proof. split; vm_compute; reflexivity. Qed.
End Witnesses.
