(* ===== verification/Probes.v ===== *)
(** * Probes, metrics and the resilience envelope

    What tells an operator that the daemon is well, and what keeps it well:
    - [procgroup/pids.go]: the liveness probe, which fails when the container is
      about to run out of processes;
    - [sqlite/ready.go] and [rollopsd/readyz.go]: the readiness probe;
    - [metrics/metrics.go] and [reconcile/metrics.go]: the counters of the ticks
      and the gauge of the oldest rollout in flight;
    - [step/step.go]: the retries and the circuit breaker around a target, for
      any implementation of the resilience library, the class [Fortify];
    - [studio/studio.go] and [version/version.go].

    The liveness probe is exact, every outcome of a tick is counted once under
    its own label, the gauge is the age of the oldest of the latest rollouts in
    flight, and a guarded target is called a bounded number of times.  The last
    theorems show that a breaker made anew for every operation sheds nothing. *)

From S2P Require Import Prelude Encoding GoTime Statekit Progressive Model Lifecycle Store World Git ConfigLoad ImageSelect EngineBase EngineGates EngineDeploy Reconcile Watch Surface Daemon KubeCluster PluginWire.

(** The programs of this file are the engine's. *)
#[local] Existing Instance M_ret.
#[local] Existing Instance M_bind.

(** ** Liveness ([procgroup/pids.go]) *)
Definition DefaultHeadroom : Z := 64.
Definition DefaultCgroupRoot : string := "/sys/fs/cgroup".

(** A [ps_Max] of zero is unlimited. *)
Record PIDsStats := { ps_Current : Z; ps_Max : Z }.

(** The error of [strconv.Atoi]. *)
Definition Atoi_error (s : string) : err :=
  let body := match s with
              | String c rest => if bool_decide (c = Ascii.ascii_of_nat 45 ∨ c = Ascii.ascii_of_nat 43) then rest else s
              | EmptyString => s
              end in
  Errorf ("strconv.Atoi: parsing " +:+ quote s +:+
          (if (body == "") || ((digits_of body).2 != "") then ": invalid syntax" else ": value out of range")).

Definition Atoi_result (s : string) : result Z :=
  match strconv_Atoi s with Some n => Ok n | None => Err (Atoi_error s) end.

Definition wrap_result {A} (pre : string) (r : result A) : result A :=
  match r with Ok a => Ok a | Err e => Err (Wrap pre e "") end.

Definition parseMax (raw : string) : result Z :=
  let s := TrimSpace raw in
  if s == "max" then Ok 0 else wrap_result "pids.max: " (Atoi_result s).

Definition UnderPressure (s : PIDsStats) (headroom : Z) : bool :=
  if ps_Max s <=? 0 then false
  else
    let headroom := if headroom <=? 0 then DefaultHeadroom else headroom in
    ps_Max s - headroom <=? ps_Current s.

Definition effectiveHeadroom (h : Z) : Z := if h <=? 0 then DefaultHeadroom else h.

Section Livez.
(** [os.ReadFile] at the time of the probe; a probe reads a path once. *)
Context (ReadFile : string → result string).

Definition readPair (dir curName maxName : string) : result (Z * Z) :=
  try curRaw <- ReadFile (path_join dir curName);
  try maxRaw <- ReadFile (path_join dir maxName);
  try current <- wrap_result "pids.current: " (Atoi_result (TrimSpace curRaw));
  try max <- parseMax maxRaw;
  Ok (current, max).

Definition ReadPIDs (cgroupRoot : string) : result PIDsStats :=
  match readPair cgroupRoot "pids.current" "pids.max" with
  | Ok (current, max) => Ok {| ps_Current := current; ps_Max := max |}
  | Err _ =>
      try (current, max) <- readPair (path_join cgroupRoot "pids") "pids.current" "pids.max";
      Ok {| ps_Current := current; ps_Max := max |}
  end.

Definition LivezStatus (cgroupRoot : string) (headroom : Z) : Z * string :=
  match ReadPIDs cgroupRoot with
  | Err _ => (200, "ok")
  | Ok s =>
      if UnderPressure s headroom then
        (503, "pids pressure: " +:+ pretty (ps_Current s) +:+ "/" +:+ pretty (ps_Max s) +:+ " (headroom " +:+
              pretty (effectiveHeadroom headroom) +:+ ")" +:+ String newline_char "")
      else (200, "ok")
  end.

(** [GET /livez] of the daemon. *)
Definition livez : Z * string := LivezStatus DefaultCgroupRoot DefaultHeadroom.
End Livez.

(** ** Readiness ([sqlite/ready.go], [rollopsd/readyz.go]) *)

(** The two queries, with the database's answers. *)
Definition Ready (quick_check : result string) (rollouts : result Z) : option err :=
  match quick_check with
  | Err e => Some (Wrap "sqlite: quick_check: " e "")
  | Ok answer =>
      if answer != "ok" then Some (Errorf ("sqlite: quick_check: " +:+ answer))
      else match rollouts with Err e => Some (Wrap "sqlite: read rollouts: " e "") | Ok _ => None end
  end.

Definition readyzHandler (ready : option err) : Z * string :=
  match ready with
  | Some e => (503, "store not ready: " +:+ err_str e +:+ String newline_char "")
  | None => (200, "")
  end.

(** ** Metrics ([metrics/metrics.go], [reconcile/metrics.go]) *)

(** The interface the watcher records to, over the state of the sink. *)
Class MetricsSink (K : Type) := {
  ObserveTick : Duration → K → K;
  CountReconcile : string → K → K;
  IncDrift : K → K;
  IncOutcome : string → K → K;
  SetOldestInFlight : Duration → K → K;
}.

(** The instruments of the daemon.  The histogram keeps what it observed; times
    are in nanoseconds, as instants are, and shown in seconds. *)
Record Metrics := {
  mx_reconcileLatency : list Duration;
  mx_driftTotal : Z;
  mx_rolloutOutcomes : gmap string Z;
  mx_reconcileTotal : gmap string Z;
  mx_oldestInFlight : Duration;
}.

Definition NewMetrics : Metrics := {|
  mx_reconcileLatency := []; mx_driftTotal := 0; mx_rolloutOutcomes := ∅; mx_reconcileTotal := ∅; mx_oldestInFlight := 0 |}.

(** [WithLabelValues(l).Inc()]: a label is made on its first use. *)
Definition bump (l : string) (m : gmap string Z) : gmap string Z := <[l := default 0 (m !! l) + 1]> m.

#[export] Instance metrics_sink : MetricsSink Metrics := {
  ObserveTick d m := {|
    mx_reconcileLatency := mx_reconcileLatency m ++ [d]; mx_driftTotal := mx_driftTotal m;
    mx_rolloutOutcomes := mx_rolloutOutcomes m; mx_reconcileTotal := mx_reconcileTotal m;
    mx_oldestInFlight := mx_oldestInFlight m |};
  CountReconcile l m := {|
    mx_reconcileLatency := mx_reconcileLatency m; mx_driftTotal := mx_driftTotal m;
    mx_rolloutOutcomes := mx_rolloutOutcomes m; mx_reconcileTotal := bump l (mx_reconcileTotal m);
    mx_oldestInFlight := mx_oldestInFlight m |};
  IncDrift m := {|
    mx_reconcileLatency := mx_reconcileLatency m; mx_driftTotal := mx_driftTotal m + 1;
    mx_rolloutOutcomes := mx_rolloutOutcomes m; mx_reconcileTotal := mx_reconcileTotal m;
    mx_oldestInFlight := mx_oldestInFlight m |};
  IncOutcome l m := {|
    mx_reconcileLatency := mx_reconcileLatency m; mx_driftTotal := mx_driftTotal m;
    mx_rolloutOutcomes := bump l (mx_rolloutOutcomes m); mx_reconcileTotal := mx_reconcileTotal m;
    mx_oldestInFlight := mx_oldestInFlight m |};
  SetOldestInFlight d m := {|
    mx_reconcileLatency := mx_reconcileLatency m; mx_driftTotal := mx_driftTotal m;
    mx_rolloutOutcomes := mx_rolloutOutcomes m; mx_reconcileTotal := mx_reconcileTotal m;
    mx_oldestInFlight := d |};
}.

Section Recording.
Context {K : Type} `{!MetricsSink K}.

Definition settled_phase (o : RepoOutcome) : option string :=
  match ro_Err o, oc_Rollout (ro_Outcome o) with
  | None, Some r => if Settled (r_Phase r) then Some (phase_str (r_Phase r)) else None
  | _, _ => None
  end.

(** The body of the loop; [None] of [tick_result] is its [continue]. *)
Definition record_outcome (k : K) (o : RepoOutcome) : K :=
  match tick_result o with
  | None => k
  | Some l =>
      let k := CountReconcile l k in
      let k := if oc_Drift (ro_Outcome o) then IncDrift k else k in
      match settled_phase o with Some p => IncOutcome p k | None => k end
  end.

Definition recordTick (sink : option K) (d : Duration) (outcomes : list RepoOutcome) : option K :=
  (λ k, foldl record_outcome (ObserveTick d k) outcomes) <$> sink.

Definition recordInFlight {S : Type} `{!Store S} (env : Env) (sink : option K) : M S (option K) :=
  match sink with
  | None => mret None
  | Some k =>
      get rs <- List 0 catch _ => mret (Some k);
      t ← now env;
      mret (Some (SetOldestInFlight (oldestInFlight t rs) k))
  end.
End Recording.

(** [tickAndRecord] with its metrics; [d] is what the tick took. *)
Definition tick_metered {S : Type} `{!Store S} `{!Statechart Phase LifeContext unit, !Statechart StepState StepContext (EngineDeploy.HW (S := S))}
    {K : Type} `{!MetricsSink K} (env : Env) (sink : option K) (d : Duration) (wt : Watcher) (repos : list RepoSpec)
    : M S (Watcher * option K) :=
  '(os, wt) ← TickHint env wt "" repos;
  wt ← logOutcomes env wt os;
  let sink := recordTick sink d os in
  sink ← recordInFlight env sink;
  mret (wt, sink).

(** ** The resilience envelope ([step/step.go]) *)

(** The configuration of the resilience library and what a breaker counts. *)
Record RetryConfig := { rc_MaxAttempts : Z; rc_InitialDelay : Duration; rc_MaxDelay : Duration }.
Record Counts := { cn_ConsecutiveFailures : Z }.

(** An operation on the world a target acts on. *)
Definition Effectful (W A : Type) : Type := W → result A * W.

(** The library: [retry.Execute] and the breaker with its own state.  Waiting
    between attempts is [idle]. *)
Class Fortify (W : Type) := {
  idle : W → W → Prop;
  Execute : ∀ A, RetryConfig → Effectful W A → Effectful W A;
  Breaker : Type;
  NewBreaker : (Counts → bool) → Breaker;
  cb_Execute : ∀ A, Effectful W A → Breaker * W → result A * (Breaker * W);
  ErrCircuitOpen : err;
}.
Arguments Execute {W _ A} _ _ _.
Arguments cb_Execute {W _ A} _ _.

(** [attempts f n w r w']: at most [n] runs of [f], each but the last a failure,
    the result that of the last run; or an error, when the caller gave up. *)
Inductive attempts {W A} `{!Fortify W} (f : Effectful W A) : nat → W → result A → W → Prop :=
| attempts_none n w e : attempts f n w (Err e) w
| attempts_ok n w a w' : f w = (Ok a, w') → attempts f (Datatypes.S n) w (Ok a) w'
| attempts_fail n w e w' : f w = (Err e, w') → attempts f (Datatypes.S n) w (Err e) w'
| attempts_again n w e w1 w2 r w' :
    f w = (Err e, w1) → idle w1 w2 → attempts f n w2 r w' → attempts f (Datatypes.S n) w r w'.

(** What is documented: a retry makes up to [MaxAttempts] attempts; a breaker
    runs the operation and returns its result, or is open and returns
    [ErrCircuitOpen] without running it; a new breaker is closed. *)
Class FortifyLaws (W : Type) `{!Fortify W} : Prop := {
  retry_attempts : ∀ A cfg (f : Effectful W A) w r w',
    1 ≤ rc_MaxAttempts cfg → Execute cfg f w = (r, w') → attempts f (Z.to_nat (rc_MaxAttempts cfg)) w r w';
  breaker_runs_or_sheds : ∀ A (f : Effectful W A) b w r b' w',
    cb_Execute f (b, w) = (r, (b', w')) → f w = (r, w') ∨ (r = Err ErrCircuitOpen ∧ w' = w);
  breaker_starts_closed : ∀ A trip (f : Effectful W A) w r b w',
    cb_Execute f (NewBreaker trip, w) = (r, (b, w')) → f w = (r, w');
}.

Record Policy := { po_MaxAttempts : Z; po_InitialDelay : Duration; po_MaxDelay : Duration; po_FailureThreshold : Z }.
Definition DefaultPolicy : Policy := {|
  po_MaxAttempts := 3; po_InitialDelay := 100 * Millisecond; po_MaxDelay := 5 * Second; po_FailureThreshold := 5 |}.

(** [pt.Target]; [it_Close] is there when the target is an [io.Closer]. *)
Record InnerTarget (W Res : Type) := {
  it_Apply : Manifest → Effectful W Res;
  it_Observe : Effectful W Fingerprint;
  it_Health : Effectful W HealthStatus;
  it_Close : option (W → option err * W);
}.
Arguments it_Apply {W Res} _ _ _.
Arguments it_Observe {W Res} _ _.
Arguments it_Health {W Res} _ _.
Arguments it_Close {W Res} _.

Section Guarded.
Context {W Res : Type} `{!Fortify W}.

Record Guarded := { gd_inner : InnerTarget W Res; gd_retry : RetryConfig; gd_cb : Breaker }.

Definition Wrap_target (inner : InnerTarget W Res) (p : Policy) : Guarded :=
  let rc := {| rc_MaxAttempts := po_MaxAttempts p; rc_InitialDelay := po_InitialDelay p; rc_MaxDelay := po_MaxDelay p |} in
  let threshold := if po_FailureThreshold p == 0 then 5 else po_FailureThreshold p in
  {| gd_inner := inner; gd_retry := rc; gd_cb := NewBreaker (λ c, threshold <=? cn_ConsecutiveFailures c) |}.

Definition Guarded_Apply (g : Guarded) (m : Manifest) (w : W) : result Res * (Guarded * W) :=
  let '(r, (b, w)) := cb_Execute (Execute (gd_retry g) (it_Apply (gd_inner g) m)) (gd_cb g, w) in
  (r, ({| gd_inner := gd_inner g; gd_retry := gd_retry g; gd_cb := b |}, w)).

Definition Guarded_Observe (g : Guarded) : Effectful W Fingerprint := Execute (gd_retry g) (it_Observe (gd_inner g)).
Definition Guarded_Health (g : Guarded) : Effectful W HealthStatus := Execute (gd_retry g) (it_Health (gd_inner g)).

Definition Guarded_Close (g : Guarded) (w : W) : option err * W :=
  match it_Close (gd_inner g) with Some close => close w | None => (None, w) end.

(** The engine's [build], of what the registry built. *)
Definition Engine_build (Build : result (InnerTarget W Res)) (p : Policy) : result Guarded :=
  try inner <- Build; Ok (Wrap_target inner p).

(** What every operation of the engine does: build, then apply. *)
Definition build_apply (Build : result (InnerTarget W Res)) (p : Policy) (m : Manifest) (w : W) : result Res * W :=
  match Engine_build Build p with
  | Err e => (Err e, w)
  | Ok g => let '(r, (_, w)) := Guarded_Apply g m w in (r, w)
  end.
End Guarded.
Arguments Guarded W Res {_}.

(** ** The workspace boundary ([studio/studio.go]) and the version *)
Definition OSSWorkspace : string := "oss".

Definition Boundary_Validate (workspace : string) : option err :=
  if (workspace == "") || (workspace == OSSWorkspace) then None
  else Some (Errorf ("studio: workspace " +:+ quote workspace +:+ " requires managed studio layer")).

Record FleetApp := { fa_Workspace : string; fa_Target : string; fa_Phase : string; fa_Health : string; fa_Sync : string; fa_Risk : string }.
Record FleetDashboard := { fd_Workspaces : Z; fd_Apps : list FleetApp }.

Definition app_workspace (a : FleetApp) : string := if fa_Workspace a == "" then OSSWorkspace else fa_Workspace a.

Definition NewFleetDashboard (apps : list FleetApp) : FleetDashboard :=
  let seen := foldl (λ seen a, {[app_workspace a]} ∪ seen) (∅ : gset string) apps in
  {| fd_Workspaces := Z.of_nat (size seen); fd_Apps := apps |}.

Definition version_String (Version Commit Date : string) : string :=
  "rollops " +:+ Version +:+ " (" +:+ Commit +:+ ", " +:+ Date +:+ ")".

(** ** The liveness probe is exact *)

(** Text without white space. *)
Fixpoint no_blank (s : string) : Prop :=
  match s with EmptyString => True | String c s => Ascii.is_space c = false ∧ no_blank s end.

Lemma no_blank_app a b : no_blank (a +:+ b) ↔ no_blank a ∧ no_blank b.
Proof. induction a as [|c a IH]; simpl; naive_solver. Qed.
Lemma no_blank_rev a : no_blank (String.rev a) ↔ no_blank a.
Proof. induction a as [|c a IH]; [done|]. rewrite rev_cons_str, no_blank_app. simpl. naive_solver. Qed.
Lemma trim_left_blank a : no_blank a → trim_left a = a.
Proof. destruct a as [|c a]; [done|]. by intros [Hc _]; simpl; rewrite Hc. Qed.

(** A line of text loses its newline and nothing else. *)
Lemma TrimSpace_line a : no_blank a → TrimSpace (a +:+ String newline_char "") = a.
Proof.
  intros Ha. unfold TrimSpace. destruct a as [|c a]; [done|]. destruct Ha as [Hc Ha].
  assert (trim_left (String c a +:+ String newline_char "") = String c a +:+ String newline_char "") as -> by (simpl; by rewrite Hc).
  rewrite rev_app_str. change (String.rev (String newline_char "") +:+ ?x) with (String newline_char x).
  change (trim_left (String newline_char ?x)) with (trim_left x).
  rewrite trim_left_blank by (by rewrite no_blank_rev). apply rev_involutive_str.
Qed.

Lemma no_blank_digits x s : no_blank s → no_blank (pretty_N_go x s).
Proof.
  revert s. induction (N.lt_wf_0 x) as [x _ IH]. intros s Hs.
  assert (x = 0 ∨ 0 < x)%N as [-> | Hx] by lia; [by rewrite pretty_N_go_0|].
  rewrite pretty_N_go_step by done. apply IH; [by apply N.div_lt|].
  split; [|done]. unfold pretty_N_char. by repeat case_match.
Qed.
Lemma no_blank_pretty (z : Z) : no_blank (pretty z).
Proof. destruct z as [|p|p]; [by split|by apply no_blank_digits|]. split; [done|]. by apply no_blank_digits. Qed.

(** What the kernel writes into a file of the controller. *)
Definition kernel_line (z : Z) : string := pretty z +:+ String newline_char "".

Lemma Atoi_kernel_line z : -2 ^ 63 ≤ z < 2 ^ 63 → Atoi_result (TrimSpace (kernel_line z)) = Ok z.
Proof. intros Hz. unfold kernel_line, Atoi_result. by rewrite TrimSpace_line, strconv_Atoi_pretty by auto using no_blank_pretty. Qed.

Lemma parseMax_kernel_line z : -2 ^ 63 ≤ z < 2 ^ 63 → parseMax (kernel_line z) = Ok z.
Proof.
  intros Hz. unfold parseMax. rewrite bool_decide_false.
  - by rewrite Atoi_kernel_line.
  - unfold kernel_line. rewrite TrimSpace_line by apply no_blank_pretty. intros E.
    pose proof (strconv_Atoi_pretty z Hz) as H. by rewrite E in H.
Qed.

Lemma readPair_kernel ReadFile dir c m :
  -2 ^ 63 ≤ c < 2 ^ 63 → -2 ^ 63 ≤ m < 2 ^ 63 →
  ReadFile (path_join dir "pids.current") = Ok (kernel_line c) →
  ReadFile (path_join dir "pids.max") = Ok (kernel_line m) →
  readPair ReadFile dir "pids.current" "pids.max" = Ok (c, m).
Proof. intros Hc Hm H1 H2. unfold readPair. by rewrite H1, H2, Atoi_kernel_line, parseMax_kernel_line. Qed.

Lemma LivezStatus_code ReadFile root h :
  (LivezStatus ReadFile root h).1 = 503 ↔
  ∃ s, ReadPIDs ReadFile root = Ok s ∧ 0 < ps_Max s ∧ ps_Max s - ps_Current s ≤ effectiveHeadroom h.
Proof.
  unfold LivezStatus, UnderPressure, effectiveHeadroom. destruct (ReadPIDs ReadFile root) as [s|e]; [|naive_solver].
  destruct (ps_Max s <=? 0) eqn:Em; [split; [done|]; intros (? & [= <-] & ? & ?); lia|].
  destruct (_ - _ <=? _) eqn:Ep; simpl.
  - split; [intros _; exists s; repeat split; lia|done].
  - split; [done|]. intros (? & [= <-] & ? & ?). lia.
Qed.

(** The liveness probe of the daemon answers 503 exactly when the container has
    at most 64 process slots left: for every count and limit the kernel can write
    into the controller's files, in either layout of the file system (those of
    version 1 are read when the others are absent). *)
Theorem livez_is_exact ReadFile (v2 : bool) c m :
  0 ≤ c < 2 ^ 63 → 0 < m < 2 ^ 63 →
  (v2 = false → ∃ e, ReadFile "/sys/fs/cgroup/pids.current" = Err e) →
  ReadFile (if v2 then "/sys/fs/cgroup/pids.current" else "/sys/fs/cgroup/pids/pids.current") = Ok (kernel_line c) →
  ReadFile (if v2 then "/sys/fs/cgroup/pids.max" else "/sys/fs/cgroup/pids/pids.max") = Ok (kernel_line m) →
  (livez ReadFile).1 = (if m - c <=? 64 then 503 else 200).
Proof.
  intros Hc Hm Hv H1 H2.
  assert (ReadPIDs ReadFile DefaultCgroupRoot = Ok {| ps_Current := c; ps_Max := m |}) as E.
  { unfold ReadPIDs. destruct v2.
    - by rewrite (readPair_kernel _ _ c m) by (lia || done).
    - destruct (Hv eq_refl) as [e He]. unfold readPair at 1. change (path_join DefaultCgroupRoot "pids.current") with "/sys/fs/cgroup/pids.current".
      rewrite He. by rewrite (readPair_kernel _ _ c m) by (lia || done). }
  unfold livez, LivezStatus. rewrite E. unfold UnderPressure. cbn [ps_Max ps_Current].
  rewrite (proj2 (Z.leb_gt m 0)) by lia. change (DefaultHeadroom <=? 0) with false. unfold DefaultHeadroom. cbv iota zeta.
  destruct (Z.leb_spec (m - c) 64), (Z.leb_spec (m - 64) c); done || lia.
Qed.

Definition cgroup_v1 (path : string) : result string :=
  if path == "/sys/fs/cgroup/pids/pids.current" then Ok (kernel_line 8000)
  else if path == "/sys/fs/cgroup/pids/pids.max" then Ok (kernel_line 8050) else Err ErrNotFound.

Lemma livez_is_exact_witness : (livez cgroup_v1).1 = 503 ∧ (livez cgroup_v1).2 = "pids pressure: 8000/8050 (headroom 64)" +:+ String newline_char "".
Proof.
  split; [|by vm_compute].
  apply (livez_is_exact cgroup_v1 false 8000 8050); try lia; [intros _; by eexists|by vm_compute..].
Defined.

(** A limit that cannot be read, or none, is not pressure. *)
Example livez_unlimited : livez (λ p, if HasSuffix p "max" then Ok "max" else Ok (kernel_line 100000)) = (200, "ok").
Proof. by vm_compute. Qed.
Example livez_unreadable : livez (λ _, Err ErrNotFound) = (200, "ok").
Proof. by vm_compute. Qed.

(** ** The store is ready only when it was read *)
Theorem readyz_is_exact quick_check rollouts :
  (readyzHandler (Ready quick_check rollouts)).1 = 200 ↔ quick_check = Ok "ok" ∧ ∃ n, rollouts = Ok n.
Proof.
  unfold readyzHandler, Ready. destruct quick_check as [a|e]; [|naive_solver].
  destruct (decide (a = "ok")) as [->|Ha].
  - rewrite bool_decide_true by done. destruct rollouts; naive_solver.
  - rewrite bool_decide_false by done. naive_solver.
Qed.

(** ** Every outcome is counted once *)
Definition counted (m : gmap string Z) (l : string) : Z := default 0 (m !! l).

Lemma counted_bump l l' m : counted (bump l m) l' = counted m l' + (if decide (l = l') then 1 else 0).
Proof.
  unfold counted, bump. case_decide as E; [subst; by rewrite lookup_insert_eq|]. rewrite lookup_insert_ne by done. lia.
Qed.

Definition outcomes_as (l : string) (os : list RepoOutcome) : list RepoOutcome := filter (λ o, tick_result o = Some l) os.
Definition drifted (os : list RepoOutcome) : list RepoOutcome :=
  filter (λ o, is_Some (tick_result o) ∧ oc_Drift (ro_Outcome o) = true) os.
Definition settled_as (p : string) (os : list RepoOutcome) : list RepoOutcome := filter (λ o, settled_phase o = Some p) os.

Definition observed (d : Duration) (os : list RepoOutcome) (k k' : Metrics) : Prop :=
  mx_reconcileLatency k' = mx_reconcileLatency k ++ [d] ∧
  mx_driftTotal k' = mx_driftTotal k + Z.of_nat (length (drifted os)) ∧
  (∀ l, counted (mx_reconcileTotal k') l = counted (mx_reconcileTotal k) l + Z.of_nat (length (outcomes_as l os))) ∧
  (∀ p, counted (mx_rolloutOutcomes k') p = counted (mx_rolloutOutcomes k) p + Z.of_nat (length (settled_as p os))) ∧
  mx_oldestInFlight k' = mx_oldestInFlight k.

Lemma settled_is_result o p : settled_phase o = Some p → is_Some (tick_result o).
Proof. unfold settled_phase, tick_result. destruct (ro_Err o); [done|]. by eexists. Qed.

Lemma record_outcome_counts k o :
  mx_reconcileLatency (record_outcome k o) = mx_reconcileLatency k ∧
  mx_driftTotal (record_outcome k o) = mx_driftTotal k + Z.of_nat (length (drifted [o])) ∧
  (∀ l, counted (mx_reconcileTotal (record_outcome k o)) l = counted (mx_reconcileTotal k) l + Z.of_nat (length (outcomes_as l [o]))) ∧
  (∀ p, counted (mx_rolloutOutcomes (record_outcome k o)) p = counted (mx_rolloutOutcomes k) p + Z.of_nat (length (settled_as p [o]))) ∧
  mx_oldestInFlight (record_outcome k o) = mx_oldestInFlight k.
Proof.
  unfold record_outcome, drifted, outcomes_as, settled_as. rewrite !filter_cons, !filter_nil. pose proof (settled_is_result o) as Hs.
  destruct (tick_result o) as [l|] eqn:Et.
  - destruct (oc_Drift (ro_Outcome o)) eqn:Ed, (settled_phase o) as [p|] eqn:Ep; simpl;
      repeat split; try done; intros; rewrite ?filter_cons, ?filter_nil, ?counted_bump, ?Et, ?Ep;
      repeat (case_decide; simpl); naive_solver lia.
  - destruct (settled_phase o) as [p|] eqn:Ep; [by destruct (Hs p eq_refl)|].
    repeat split; try done; intros; rewrite ?filter_cons, ?filter_nil, ?Et, ?Ep; repeat (case_decide; simpl); naive_solver lia.
Qed.

Lemma record_outcomes_count os : ∀ k,
  let k' := foldl record_outcome k os in
  mx_reconcileLatency k' = mx_reconcileLatency k ∧
  mx_driftTotal k' = mx_driftTotal k + Z.of_nat (length (drifted os)) ∧
  (∀ l, counted (mx_reconcileTotal k') l = counted (mx_reconcileTotal k) l + Z.of_nat (length (outcomes_as l os))) ∧
  (∀ p, counted (mx_rolloutOutcomes k') p = counted (mx_rolloutOutcomes k) p + Z.of_nat (length (settled_as p os))) ∧
  mx_oldestInFlight k' = mx_oldestInFlight k.
Proof.
  induction os as [|o os IH]; intros k; cbn [foldl].
  - unfold drifted, outcomes_as, settled_as. simpl. rewrite ?filter_nil. repeat split; intros; simpl; lia || done.
  - destruct (IH (record_outcome k o)) as (H1 & H2 & H3 & H4 & H5), (record_outcome_counts k o) as (G1 & G2 & G3 & G4 & G5).
    assert (∀ P `{∀ x, Decision (P x)}, length (filter P (o :: os)) = (length (filter P [o]) + length (filter P os))%nat) as Hf
      by (intros P ?; by rewrite <- length_app, <- filter_app).
    unfold drifted, outcomes_as, settled_as in *. cbv zeta.
    split; [congruence|]. split; [rewrite Hf; lia|]. split; [intros l; rewrite H3, G3, Hf; lia|].
    split; [intros p; rewrite H4, G4, Hf; lia|congruence].
Qed.

(** The four results partition what a tick counts; a follower's is nothing. *)
Definition tick_labels : list string := ["error"; "reconciled"; "drift"; "insync"].
Lemma tick_result_label o l : tick_result o = Some l → l ∈ tick_labels.
Proof. unfold tick_result. intros. repeat case_match; simplify_eq; set_solver. Qed.

(** Recording a tick counts every outcome exactly once under its own result
    (error, reconciled, drift or insync), a follower's refusal under none, every
    drift and every settled rollout once, and the latency once; nothing else
    moves. *)
Theorem every_outcome_is_counted_once k d os :
  ∃ k', recordTick (Some k) d os = Some k' ∧ observed d os k k' ∧
    list_sum (length <$> ((λ l, outcomes_as l os) <$> tick_labels)) = length (filter (λ o, is_Some (tick_result o)) os).
Proof.
  eexists. split; [done|]. split.
  - destruct (record_outcomes_count os (ObserveTick d k)) as (H1 & H2 & H3 & H4 & H5). by repeat split.
  - unfold outcomes_as. induction os as [|o os IH]; [done|]. cbn [fmap list_fmap tick_labels list_sum foldr] in IH |- *.
    rewrite !filter_cons. pose proof (tick_result_label o) as Hl. destruct (tick_result o) as [l|].
    + specialize (Hl l eq_refl). rewrite (decide_True (P := is_Some (Some l))) by done.
      unfold tick_labels in Hl. rewrite !elem_of_cons, elem_of_nil in Hl.
      destruct Hl as [->|[->|[->|[->|[]]]]]; repeat (case_decide; simplify_eq); cbn [length]; lia.
    + by repeat (case_decide; simplify_eq).
Qed.

(** ** The gauge of rollouts in flight *)
Definition in_flight_phase (r : Rollout) : bool := (r_Phase r == PhaseDeploying) || (r_Phase r == PhaseVerifying).

(** [r] is a newest rollout of its target among [rs]. *)
Definition newest (rs : list Rollout) (r : Rollout) : Prop :=
  r ∈ rs ∧ ∀ r', r' ∈ rs → r_TargetRef r' = r_TargetRef r → r_UpdatedAt r' ≤ r_UpdatedAt r.

Lemma latest_spec rs ref :
  match foldl latest_step ∅ rs !! ref with
  | Some r => r_TargetRef r = ref ∧ newest rs r
  | None => ∀ r, r ∈ rs → r_TargetRef r ≠ ref
  end.
Proof.
  induction rs as [|x rs IH] using rev_ind; [simpl; rewrite lookup_empty; by intros r ?%elem_of_nil|].
  rewrite foldl_app. cbn [foldl]. unfold latest_step at 1.
  destruct (decide (r_TargetRef x = ref)) as [<-|Hne].
  - destruct (foldl latest_step ∅ rs !! r_TargetRef x) as [cur|] eqn:Ec.
    + destruct IH as [Ht [Hin Hmax]]. destruct (Z.ltb_spec (r_UpdatedAt cur) (r_UpdatedAt x)).
      * rewrite lookup_insert_eq. split; [done|]. split; [set_solver|]. intros r' [Hr|Hr]%elem_of_app Hr'.
        -- specialize (Hmax r' Hr). rewrite Ht in Hmax. specialize (Hmax Hr'). lia.
        -- apply list_elem_of_singleton in Hr as ->. lia.
      * rewrite Ec. split; [done|]. split; [set_solver|]. intros r' [Hr|Hr]%elem_of_app Hr'; [by apply Hmax|].
        by apply list_elem_of_singleton in Hr as ->.
    + rewrite lookup_insert_eq. split; [done|]. split; [set_solver|]. intros r' [Hr|Hr]%elem_of_app Hr'; [by destruct (IH r' Hr)|].
      apply list_elem_of_singleton in Hr as ->. lia.
  - assert (∀ m : gmap string Rollout, latest_step m x !! ref = m !! ref) as Hk
      by (intros m; unfold latest_step; repeat case_match; by rewrite ?lookup_insert_ne).
    fold (latest_step (foldl latest_step ∅ rs) x). rewrite Hk. destruct (foldl latest_step ∅ rs !! ref) as [r|].
    + destruct IH as [Ht [Hin Hmax]]. split; [done|]. split; [set_solver|]. intros r' [Hr|Hr]%elem_of_app Hr'; [by apply Hmax|].
      apply list_elem_of_singleton in Hr as ->. congruence.
    + intros r [Hr|Hr]%elem_of_app; [by apply IH|]. by apply list_elem_of_singleton in Hr as ->.
Qed.

Lemma oldest_spec now l : ∀ g, 0 ≤ g →
  let g' := foldl (λ oldest r,
    if (r_Phase r == PhaseDeploying) || (r_Phase r == PhaseVerifying) then Z.max oldest (now - r_UpdatedAt r) else oldest) g l in
  g ≤ g' ∧ (∀ r, r ∈ l → in_flight_phase r = true → now - r_UpdatedAt r ≤ g') ∧
  (g' = g ∨ ∃ r, r ∈ l ∧ in_flight_phase r = true ∧ now - r_UpdatedAt r = g').
Proof.
  induction l as [|x l IH]; intros g Hg; cbn [foldl]; cbv zeta.
  - split; [done|]. split; [by intros r ?%elem_of_nil|by left].
  - change ((r_Phase x == PhaseDeploying) || (r_Phase x == PhaseVerifying)) with (in_flight_phase x).
    destruct (in_flight_phase x) eqn:Ex.
    + destruct (IH (Z.max g (now - r_UpdatedAt x)) ltac:(lia)) as (H1 & H2 & H3). cbv zeta in *.
      split; [lia|]. split.
      * intros r [->|Hr]%elem_of_cons Hf; [lia|by apply H2].
      * destruct H3 as [E|(r & Hr & Hf & E)]; [|right; exists r; set_solver].
        destruct (Z.max_spec g (now - r_UpdatedAt x)) as [[? M]|[? M]]; [right; exists x; repeat split; [set_solver|done|lia]|left; lia].
    + destruct (IH g Hg) as (H1 & H2 & H3). cbv zeta in *. split; [done|]. split.
      * intros r [->|Hr]%elem_of_cons Hf; [congruence|by apply H2].
      * destruct H3 as [E|(r & Hr & Hf & E)]; [by left|right; exists r; set_solver].
Qed.

(** The gauge bounds the age of every target's newest rollout while that is
    deploying or verifying, and a positive gauge is the age of one of them: a
    target that is stuck shows, and what shows is stuck. *)
Theorem gauge_shows_the_oldest now rs :
  0 ≤ oldestInFlight now rs ∧
  (∀ r, r ∈ rs → in_flight_phase r = true → (∀ r', r' ∈ rs → r_TargetRef r' = r_TargetRef r → r_UpdatedAt r ≤ r_UpdatedAt r' → r' = r) →
        now - r_UpdatedAt r ≤ oldestInFlight now rs) ∧
  (oldestInFlight now rs ≠ 0 → ∃ r, newest rs r ∧ in_flight_phase r = true ∧ now - r_UpdatedAt r = oldestInFlight now rs).
Proof.
  unfold oldestInFlight. set (m := foldl latest_step ∅ rs). destruct (oldest_spec now (map_to_list m).*2 0 ltac:(done)) as (H1 & H2 & H3).
  assert (∀ r, r ∈ (map_to_list m).*2 → newest rs r) as Hm.
  { intros r ([ref r0] & -> & Hin)%list_elem_of_fmap. apply elem_of_map_to_list in Hin. simpl. pose proof (latest_spec rs ref) as H.
    fold m in H. rewrite Hin in H. by destruct H. }
  split; [done|]. split.
  - intros r Hin Hf Hnew. apply H2; [|done]. pose proof (latest_spec rs (r_TargetRef r)) as H. fold m in H.
    destruct (m !! r_TargetRef r) as [cur|] eqn:Ec; [|by destruct (H r Hin)]. destruct H as [Ht [Hc Hmax]].
    assert (cur = r) as ->; [|apply list_elem_of_fmap; exists (r_TargetRef r, r); by rewrite elem_of_map_to_list].
    apply Hnew; [done..|]. by apply Hmax.
  - intros Hne. destruct H3 as [|(r & Hr & Hf & E)]; [done|]. exists r. auto.
Qed.

(** ** The metered tick is the daemon's tick *)
Theorem metering_changes_nothing {S : Type} `{!Store S}
    `{!Statechart Phase LifeContext unit, !Statechart StepState StepContext (EngineDeploy.HW (S := S))}
    {K : Type} `{!MetricsSink K} env (k : K) d wt repos (w : World S) :
  let '(p, w') := tick_metered env (Some k) d wt repos w in
  tickAndRecord env wt repos w = (p.1, w').
Proof.
  unfold tick_metered, tickAndRecord, recordInFlight, mbind, M_bind. destruct (TickHint env wt "" repos w) as [[os wt1] w1].
  destruct (logOutcomes env wt1 os w1) as [wt2 w2]. cbn [recordTick fmap option_fmap option_map].
  unfold on_result, mbind, M_bind. cbn. destruct (List 0 w2) as [[rs|e] w3]; [|done]. by destruct (now env w3).
Qed.

(** ** A guarded target *)
Section GuardedProofs.
Context {W Res : Type} `{!Fortify W, !FortifyLaws W}.
Implicit Types (g : Guarded W Res) (inner : InnerTarget W Res).

(** Attempts are runs of the operation: what each run may cost, [n] may cost [n]
    times, and a success is that of a run. *)
Lemma attempts_cost {A} (f : Effectful W A) (cost : W → nat) n w r w' :
  (∀ w r w', f w = (r, w') → cost w' ≤ cost w + 1)%nat → (∀ w w', idle w w' → cost w' = cost w) →
  attempts f n w r w' → (cost w' ≤ cost w + n)%nat.
Proof.
  intros Hf Hi. induction 1 as [|n w a w' Ha|n w e w' Ha|n w e w1 w2 r w' Ha Hw _ IH]; [lia|apply Hf in Ha; lia..|].
  apply Hf in Ha. apply Hi in Hw. lia.
Qed.

Lemma attempts_success {A} (f : Effectful W A) n w a w' : attempts f n w (Ok a) w' → ∃ w0, f w0 = (Ok a, w').
Proof. remember (Ok a) as r eqn:E. induction 1; simplify_eq; eauto. Qed.

Lemma Guarded_Apply_inv g m w r g' w' :
  Guarded_Apply g m w = (r, (g', w')) → 1 ≤ rc_MaxAttempts (gd_retry g) →
  gd_inner g' = gd_inner g ∧ gd_retry g' = gd_retry g ∧
  (attempts (it_Apply (gd_inner g) m) (Z.to_nat (rc_MaxAttempts (gd_retry g))) w r w').
Proof.
  unfold Guarded_Apply. destruct (cb_Execute _ _) as [r0 [b w0]] eqn:E. intros [= <- <- <-] Hmax. split; [done|]. split; [done|].
  destruct (breaker_runs_or_sheds _ _ _ _ _ _ _ E) as [Hr|[-> ->]]; [by eapply retry_attempts|constructor].
Qed.

(** The applies of one guarded target, one after the other. *)
Fixpoint Guarded_Applies g (ms : list Manifest) (w : W) : list (result Res) * (Guarded W Res * W) :=
  match ms with
  | [] => ([], (g, w))
  | m :: ms => let '(r, (g, w)) := Guarded_Apply g m w in
               let '(rs, gw) := Guarded_Applies g ms w in (r :: rs, gw)
  end.

(** Any sequence of applies of a guarded target calls the target itself at most
    [MaxAttempts] times each, whatever the breaker has counted, and an apply that
    succeeds ended in a successful apply of the target. *)
Theorem guarded_applies_are_bounded inner p (calls : W → nat) ms w rs g' w' :
  1 ≤ po_MaxAttempts p →
  (∀ m w r w', it_Apply inner m w = (r, w') → calls w' ≤ calls w + 1)%nat →
  (∀ w w', idle w w' → calls w' = calls w) →
  Guarded_Applies (Wrap_target inner p) ms w = (rs, (g', w')) →
  (calls w' ≤ calls w + Z.to_nat (po_MaxAttempts p) * length ms)%nat ∧
  (∀ a, Ok a ∈ rs → ∃ m w0 w1, m ∈ ms ∧ it_Apply inner m w0 = (Ok a, w1)).
Proof.
  intros Hmax Hc Hi.
  assert (∀ g, gd_inner g = inner → rc_MaxAttempts (gd_retry g) = po_MaxAttempts p → ∀ rs w,
    Guarded_Applies g ms w = (rs, (g', w')) →
    (calls w' ≤ calls w + Z.to_nat (po_MaxAttempts p) * length ms)%nat ∧
    (∀ a, Ok a ∈ rs → ∃ m w0 w1, m ∈ ms ∧ it_Apply inner m w0 = (Ok a, w1))) as H; [|by apply H].
  clear rs w. induction ms as [|m ms IH]; intros g Hg Hr rs w E; cbn [Guarded_Applies] in E.
  - simplify_eq. split; [simpl; lia|]. by intros a ?%elem_of_nil.
  - destruct (Guarded_Apply g m w) as [r [g1 w1]] eqn:Ea. destruct (Guarded_Applies g1 ms w1) as [rs1 gw] eqn:Es. simplify_eq.
    destruct (Guarded_Apply_inv _ _ _ _ _ _ Ea ltac:(lia)) as (Hg1 & Hr1 & Ht).
    destruct (IH g1 Hg1 ltac:(congruence) rs1 w1 Es) as [H1 H2]. rewrite Hr in Ht. split.
    + apply (attempts_cost _ calls) in Ht; [|eauto..]. simpl. lia.
    + intros a [<-|Ha]%elem_of_cons.
      * apply attempts_success in Ht as [w0 Hw]. exists m, w0, w1. set_solver.
      * destruct (H2 a Ha) as (m' & w0 & w2 & Hin & Hw). exists m', w0, w2. set_solver.
Qed.

(** The engine builds, and so wraps, a target for every operation: what its
    breaker counts is forgotten with it.  However often a target failed before,
    an operation's apply is the retried apply of the target and nothing is shed. *)
Theorem rebuilt_breakers_shed_nothing inner p m w :
  build_apply (Ok inner) p m w =
  Execute {| rc_MaxAttempts := po_MaxAttempts p; rc_InitialDelay := po_InitialDelay p; rc_MaxDelay := po_MaxDelay p |} (it_Apply inner m) w.
Proof.
  unfold build_apply, Engine_build, Guarded_Apply, Wrap_target. cbn [gd_retry gd_inner gd_cb].
  destruct (cb_Execute _ _) as [r [b w']] eqn:E. by rewrite (breaker_starts_closed _ _ _ _ _ _ _ E).
Qed.
End GuardedProofs.

(** ** An implementation with the laws *)
Section RefFortify.
Context {W : Type}.

Fixpoint ref_retry {A} (n : nat) (f : Effectful W A) (w : W) : result A * W :=
  match n with
  | O => f w
  | Datatypes.S n => match f w with (Err _, w) => ref_retry n f w | ok => ok end
  end.

(** The breaker's predicate and the failures in a row; it stays open. *)
Definition ref_breaker : Type := (Counts → bool) * Z.
Definition ref_open (b : ref_breaker) : bool := (0 <? b.2) && b.1 {| cn_ConsecutiveFailures := b.2 |}.

#[local] Instance ref_fortify : Fortify W := {
  idle := eq;
  Execute A cfg f := ref_retry (Z.to_nat (rc_MaxAttempts cfg - 1)) f;
  Breaker := ref_breaker;
  NewBreaker trip := (trip, 0);
  cb_Execute A f := λ '(b, w),
    if ref_open b then (Err (Errorf "circuit breaker is open"), (b, w))
    else match f w with
         | (Ok a, w) => (Ok a, ((b.1, 0), w))
         | (Err e, w) => (Err e, ((b.1, b.2 + 1), w))
         end;
  ErrCircuitOpen := Errorf "circuit breaker is open";
}.

Lemma ref_retry_attempts {A} (f : Effectful W A) n w r w' : ref_retry n f w = (r, w') → attempts f (Datatypes.S n) w r w'.
Proof.
  revert w. induction n as [|n IH]; intros w E; cbn [ref_retry] in E; destruct (f w) as [[a|e] w1] eqn:Ef; simplify_eq;
    eauto using attempts_ok, attempts_fail. by eapply attempts_again; [done| |apply IH].
Qed.

#[local] Instance ref_fortify_laws : FortifyLaws W.
Proof.
  split.
  - intros A cfg f w r w' Hm E. apply ref_retry_attempts in E.
    by replace (Z.to_nat (rc_MaxAttempts cfg)) with (Datatypes.S (Z.to_nat (rc_MaxAttempts cfg - 1))) by lia.
  - intros A f b w r b' w' E. simpl in E. repeat case_match; simplify_eq; auto.
  - intros A trip f w r b w' E. simpl in E. repeat case_match; simplify_eq; auto.
Qed.
End RefFortify.

(** A target that is down; its world counts the calls. *)
Definition down : InnerTarget nat unit := {|
  it_Apply := λ _ w, (Err (Errorf "connection refused"), Datatypes.S w);
  it_Observe := λ w, (Err (Errorf "connection refused"), Datatypes.S w);
  it_Health := λ w, (Err (Errorf "connection refused"), Datatypes.S w);
  it_Close := None |}.

Definition some_manifest : Manifest := {|
  m_Kind := "kubernetes"; m_Spec := ∅; m_Labels := ∅; m_Checksum := ""; m_Root := ""; m_Rendered := "" |}.

#[local] Existing Instance ref_fortify.
#[local] Existing Instance ref_fortify_laws.

Lemma guarded_applies_are_bounded_witness :
  let '(rs, (_, w')) := Guarded_Applies (Wrap_target down DefaultPolicy) (replicate 7 some_manifest) 0%nat in
  w' = 15%nat ∧ (w' ≤ 0 + 3 * 7)%nat.
Proof.
  destruct (Guarded_Applies _ _ _) as [rs [g' w']] eqn:E. split; [by vm_compute in E; simplify_eq|].
  apply (guarded_applies_are_bounded down DefaultPolicy id (replicate 7 some_manifest) 0%nat rs g' w');
    [by vm_compute|intros m w r w1 [= <- <-]; simpl; lia|by intros ?? ->|exact E].
Defined.

(** Seven applies of one guarded target reach a target that is down for the first
    five; seven operations of the engine reach it every time. *)
Fixpoint rebuild_applies (n : nat) (w : nat) : nat :=
  match n with
  | O => w
  | Datatypes.S n => rebuild_applies n (build_apply (Ok down) DefaultPolicy some_manifest w).2
  end.
Example a_kept_breaker_sheds : (Guarded_Applies (Wrap_target down DefaultPolicy) (replicate 7 some_manifest) 0%nat).2.2 = 15%nat.
Proof. by vm_compute. Qed.
Example a_rebuilt_breaker_does_not : rebuild_applies 7 0 = 21%nat.
Proof. by vm_compute. Qed.

(** ** The boundary of the open core *)
Lemma workspaces_seen apps : ∀ seen : gset string,
  foldl (λ seen a, {[app_workspace a]} ∪ seen) seen apps = list_to_set (app_workspace <$> apps) ∪ seen.
Proof. induction apps as [|a apps IH]; intros seen; cbn [foldl fmap list_fmap list_to_set]; [set_solver|]. rewrite IH. set_solver. Qed.

(** A dashboard whose applications all pass the boundary shows one workspace, or
    none when it is empty. *)
Theorem oss_is_one_workspace apps :
  (∀ a, a ∈ apps → Boundary_Validate (fa_Workspace a) = None) →
  fd_Workspaces (NewFleetDashboard apps) = (if decide (apps = []) then 0 else 1).
Proof.
  intros H. unfold NewFleetDashboard. cbn [fd_Workspaces]. rewrite workspaces_seen.
  assert (∀ a, a ∈ apps → app_workspace a = OSSWorkspace) as Hw.
  { intros a Ha. specialize (H a Ha). unfold Boundary_Validate, app_workspace in *. repeat case_bool_decide; simplify_eq/=; done. }
  destruct apps as [|a apps]; [done|]. rewrite decide_False by done.
  replace (_ ∪ ∅ : gset string) with ({[OSSWorkspace]} : gset string); [by rewrite size_singleton|].
  apply set_eq. intros x. rewrite elem_of_union, elem_of_list_to_set, elem_of_singleton, list_elem_of_fmap. split.
  - intros ->. left. exists a. split; [by rewrite Hw by set_solver|set_solver].
  - intros [(y & -> & Hy)|?]; [by apply Hw|set_solver].
Qed.
