(* ===== verification/Migrate.v ===== *)
(** * Opening the database

    [Open] of [store/sqlite/sqlite.go] with the migrations it embeds: the tables
    are created when they are not there, and each later migration adds columns,
    statement by statement, where an answer that the column is there already is
    taken for success.  SQLite itself is the class [Ddl]; its laws are what its
    documentation says of [CREATE TABLE IF NOT EXISTS] and of
    [ALTER TABLE ... ADD COLUMN].

    Whatever version of the program made a database, opening it succeeds, every
    column the statements of the store name is there afterwards, and opening it
    again changes nothing.  The last part is how a command is kept in a column: it
    is read back as written up to the bytes that are not UTF-8. *)

From S2P Require Import Prelude Encoding Json Model Store World Git ConfigLoad ImageSelect.

Definition newline_text : string := String newline_char "".

(** ** The migrations *)

(** [migrations/0001_init.sql]. *)
Definition migration0001 : string := Join [
  "-- 0001_init: runtime state for Rollops. Git holds desired state; these tables";
  "-- hold observed state, in-flight rollouts, schedules, and history only.";
  "";
  "CREATE TABLE IF NOT EXISTS rollouts (";
  "    id             TEXT PRIMARY KEY,";
  "    target_ref     TEXT NOT NULL,";
  "    phase          TEXT NOT NULL,";
  "    strategy       TEXT NOT NULL,";
  "    manifest       BLOB NOT NULL,          -- JSON-encoded target.Manifest";
  "    risk_score     REAL NOT NULL DEFAULT 0,";
  "    initiator_kind TEXT NOT NULL DEFAULT '',";
  "    initiator_name TEXT NOT NULL DEFAULT '',";
  "    created_at     TEXT NOT NULL,          -- RFC3339Nano";
  "    updated_at     TEXT NOT NULL";
  ");";
  "CREATE INDEX IF NOT EXISTS idx_rollouts_target ON rollouts(target_ref);";
  "";
  "-- One row per target: the last observed fingerprint, for drift detection.";
  "CREATE TABLE IF NOT EXISTS target_state (";
  "    target_ref  TEXT PRIMARY KEY,";
  "    fingerprint TEXT NOT NULL,";
  "    meta        BLOB NOT NULL DEFAULT '{}',  -- JSON map (never secrets)";
  "    observed_at TEXT NOT NULL";
  ");";
  "";
  "CREATE TABLE IF NOT EXISTS schedules (";
  "    id             TEXT PRIMARY KEY,";
  "    target_ref     TEXT NOT NULL,";
  "    due_at         TEXT NOT NULL,           -- RFC3339Nano";
  "    manifest       BLOB NOT NULL,";
  "    initiator_kind TEXT NOT NULL DEFAULT '',";
  "    initiator_name TEXT NOT NULL DEFAULT ''";
  ");";
  "CREATE INDEX IF NOT EXISTS idx_schedules_due ON schedules(due_at);";
  "";
  "-- Append-only audit/history: one row per persisted rollout transition.";
  "CREATE TABLE IF NOT EXISTS history (";
  "    seq            INTEGER PRIMARY KEY AUTOINCREMENT,";
  "    rollout_id     TEXT NOT NULL,";
  "    target_ref     TEXT NOT NULL,";
  "    phase          TEXT NOT NULL,";
  "    note           TEXT NOT NULL DEFAULT '',";
  "    initiator_kind TEXT NOT NULL DEFAULT '',";
  "    initiator_name TEXT NOT NULL DEFAULT '',";
  "    at             TEXT NOT NULL";
  ");";
  "CREATE INDEX IF NOT EXISTS idx_history_target ON history(target_ref, seq DESC);";
  "";
  "-- Runtime leases for multi-instance coordination (target locks, reconcile";
  "-- leader election). Expired leases are stealable; desired state never lives";
  "-- here.";
  "CREATE TABLE IF NOT EXISTS leases (";
  "    key        TEXT PRIMARY KEY,";
  "    owner      TEXT NOT NULL,";
  "    expires_at TEXT NOT NULL";
  ");";
  "CREATE INDEX IF NOT EXISTS idx_leases_expires ON leases(expires_at);";
  ""] newline_text.

(** [migrations/0002_step_progress.sql]. *)
Definition migration0002 : string := Join [
  "-- Progressive step progress, persisted per health-gated step so operator";
  ("-- surfaces can show live " +:+ String dquote "canary 2/3 (50%)" +:+ String dquote " state. Applied idempotently:");
  ("-- each statement is executed separately and " +:+ String dquote "duplicate column" +:+ String dquote " is ignored.");
  "ALTER TABLE rollouts ADD COLUMN step_index INTEGER NOT NULL DEFAULT 0;";
  "ALTER TABLE rollouts ADD COLUMN step_total INTEGER NOT NULL DEFAULT 0;";
  "ALTER TABLE rollouts ADD COLUMN step_weight INTEGER NOT NULL DEFAULT 0;";
  ""] newline_text.

(** [migrations/0003_db_rollback.sql]. *)
Definition migration0003 : string := Join [
  "-- Database rollback command captured at deploy time, so a manual or agent-driven";
  "-- rollback can reverse the database too, not only the auto-rollback path that";
  "-- still holds the config. db_rollback_cmd is a JSON array of argv (empty or NULL";
  "-- means no hook). Applied idempotently: each statement runs separately and";
  ("-- " +:+ String dquote "duplicate column" +:+ String dquote " is ignored.");
  "ALTER TABLE rollouts ADD COLUMN db_rollback_cmd TEXT NOT NULL DEFAULT '';";
  "ALTER TABLE rollouts ADD COLUMN db_rollback_timeout TEXT NOT NULL DEFAULT '';";
  ""] newline_text.

(** [migrations/0004_db_migrate_gate.sql]. *)
Definition migration0004 : string := Join [
  "-- Forward migration command and backward-compatibility flag captured at deploy";
  "-- time, so a rollback can be gated: a release that ran a non-backwardCompatible";
  "-- migration with no reverse command is unsafe to roll back without force.";
  "-- db_migrate_cmd is a JSON array of argv (empty or NULL means no forward";
  "-- migration ran). Applied idempotently: each statement runs separately and";
  ("-- " +:+ String dquote "duplicate column" +:+ String dquote " is ignored.");
  "ALTER TABLE rollouts ADD COLUMN db_migrate_cmd TEXT NOT NULL DEFAULT '';";
  "ALTER TABLE rollouts ADD COLUMN db_backward_compatible INTEGER NOT NULL DEFAULT 0;";
  ""] newline_text.

(** [migrations/0005_db_migrate_when.sql]. *)
Definition migration0005 : string := Join [
  "-- Forward-migration timeout and timing captured at deploy time, so a deferred";
  "-- post-promote migration can run from the persisted rollout (the config is no";
  "-- longer in hand at promote). db_migrate_when is pre-deploy (default) or";
  "-- post-promote. Applied idempotently: each statement runs separately and";
  ("-- " +:+ String dquote "duplicate column" +:+ String dquote " is ignored.");
  "ALTER TABLE rollouts ADD COLUMN db_migrate_timeout TEXT NOT NULL DEFAULT '';";
  "ALTER TABLE rollouts ADD COLUMN db_migrate_when TEXT NOT NULL DEFAULT '';";
  ""] newline_text.

(** [migrations/0006_rollout_note.sql]. *)
Definition migration0006 : string := Join [
  "-- Persist the latest transition note on the rollout row (not just in history),";
  "-- so Status surfaces it to API consumers (gRPC/REST/MCP) the way CLI/UI read it";
  ("-- from history. Applied idempotently: " +:+ String dquote "duplicate column" +:+ String dquote " is ignored.");
  "ALTER TABLE rollouts ADD COLUMN note TEXT NOT NULL DEFAULT '';";
  ""] newline_text.

(** [migrations/0007_delivery_reset.sql]. *)
Definition migration0007 : string := Join [
  "-- Progressive-delivery descriptors captured at deploy time so a later rollback";
  "-- (auto, manual, or agent-driven) can reset the delivery plane — shift traffic";
  "-- back to stable and disable the coupled feature flag — without the config in";
  "-- hand. Each column stores the config descriptor as JSON ('' / NULL means that";
  "-- delivery mechanism was not configured). Applied idempotently: each statement";
  ("-- runs separately and " +:+ String dquote "duplicate column" +:+ String dquote " is ignored.");
  "ALTER TABLE rollouts ADD COLUMN delivery_traffic TEXT NOT NULL DEFAULT '';";
  "ALTER TABLE rollouts ADD COLUMN delivery_flag TEXT NOT NULL DEFAULT '';";
  ""] newline_text.

(** [migrations/0008_analysis.sql]. *)
Definition migration0008 : string := Join [
  "-- Metric-analysis descriptor captured at deploy time so a later manual Verify";
  "-- (and the Promote that follows) can run the same metric-analysis gate as the";
  "-- auto path, which still holds the config. Stores the config.Analysis descriptor";
  "-- as JSON ('' / NULL means no analysis was configured). Applied idempotently:";
  ("-- each statement runs separately and " +:+ String dquote "duplicate column" +:+ String dquote " is ignored.");
  "ALTER TABLE rollouts ADD COLUMN analysis TEXT NOT NULL DEFAULT '';";
  ""] newline_text.

(** [migrations/0009_smoke_test.sql]. *)
Definition migration0009 : string := Join [
  "-- Smoke-test descriptor captured at deploy time so a later manual Verify (and";
  "-- the Promote that follows) can run the same smoke gate as the auto path, which";
  "-- still holds the config. Stores the config.SmokeTest descriptor as JSON";
  "-- ('' / NULL means no smoke test was configured). Applied idempotently: each";
  ("-- statement runs separately and " +:+ String dquote "duplicate column" +:+ String dquote " is ignored.");
  "ALTER TABLE rollouts ADD COLUMN smoke_test TEXT NOT NULL DEFAULT '';";
  ""] newline_text.

(** [migrations/0010_freeze.sql]. *)
Definition migration0010 : string := Join [
  "-- 0010_freeze: persist the emergency kill-switch so a daemon restart does not";
  "-- silently lift it. Runtime state only — one row, id=1.";
  "";
  "CREATE TABLE IF NOT EXISTS runtime_freeze (";
  "    id      INTEGER PRIMARY KEY CHECK (id = 1),";
  "    active  INTEGER NOT NULL DEFAULT 0,";
  "    reason  TEXT NOT NULL DEFAULT '',";
  "    by_kind TEXT NOT NULL DEFAULT '',";
  "    by_name TEXT NOT NULL DEFAULT '',";
  "    at      TEXT NOT NULL DEFAULT ''";
  ");";
  ""] newline_text.

(** [migrations/0011_stepper_snap.sql]. *)
Definition migration0011 : string := Join [
  "-- Tick-driven canary stepper snapshot. Opaque JSON (plan + statekit snapshot +";
  "-- step entered-at) so a restart resumes a mid-pause bake. Empty means the";
  "-- rollout is not tick-driven. Applied idempotently: each statement runs";
  ("-- separately and " +:+ String dquote "duplicate column" +:+ String dquote " is ignored.");
  "ALTER TABLE rollouts ADD COLUMN stepper_snap TEXT NOT NULL DEFAULT '';";
  ""] newline_text.

(** [migrations/0012_rollback_blocked.sql]. *)
Definition migration0012 : string := Join [
  "-- Why auto-rollback is disabled for a rollout, decided before it deployed.";
  "-- '' means auto-rollback may run. Set when the recorded rollback target is not";
  "-- what was live (the target was changed outside rollops, or the comparison";
  "-- could not be made), so a failed deploy is left for a human rather than";
  ("-- " +:+ String dquote "restored" +:+ String dquote " to a state that was never running. Applied idempotently.");
  "ALTER TABLE rollouts ADD COLUMN rollback_blocked TEXT NOT NULL DEFAULT '';";
  ""] newline_text.

(** The tables a creating migration declares, each with its columns: a table
    starts at its own line and its columns are the indented lines below. *)
Definition create_prefix : string := "CREATE TABLE IF NOT EXISTS ".
Definition first_word (s : string) : string := hd "" (Split (TrimSpace s) (Ascii.ascii_of_nat 32)).

Definition read_line (acc : list (string * list string)) (line : string) : list (string * list string) :=
  if HasPrefix line create_prefix then acc ++ [(first_word (TrimPrefix line create_prefix), [])]
  else if HasPrefix line "    " then
    match reverse acc with
    | (t, cs) :: rest => reverse rest ++ [(t, cs ++ [first_word line])]
    | [] => acc
    end
  else acc.
Definition tables_of (sql : string) : list (string * list string) := foldl read_line [] (Split sql newline_char).

(** ** Opening ([sqlite.go]) *)
Class Ddl (Db : Type) := {
  Exec : string → Db → option err * Db;
  columns : Db → gset (string * string);
  settled_on : string → Db → Prop;   (* all the tables and indexes a script declares are there *)
}.

Section Open.
Context {Db : Type} `{!Ddl Db}.
(** [sql.Open] and [Ping], of the data source name. *)
Context (sql_Open Ping : string → option err).

(** The statements of a migration: comments and blank lines are dropped, the rest
    is cut at the semicolons. *)
Definition statements (migration : string) : list string :=
  let lines := filter (λ l, l ≠ "" ∧ HasPrefix l "--" = false) (TrimSpace <$> Split migration newline_char) in
  let text := Join ((λ l, l +:+ newline_text) <$> lines) "" in
  filter (λ s, s ≠ "") ((λ chunk, TrimSpace (ReplaceAll chunk newline_text " ")) <$> Split text (Ascii.ascii_of_nat 59)).

Fixpoint exec_statements (stmts : list string) (db : Db) : option err * Db :=
  match stmts with
  | [] => (None, db)
  | stmt :: stmts =>
      let '(r, db) := Exec stmt db in
      match r with
      | Some e => if negb (Contains (err_str e) "duplicate column") then (Some e, db) else exec_statements stmts db
      | None => exec_statements stmts db
      end
  end.
Definition applyAddColumns (migration : string) (db : Db) : option err * Db := exec_statements (statements migration) db.

Definition add_columns : list (string * string) :=
  [("0002", migration0002); ("0003", migration0003); ("0004", migration0004); ("0005", migration0005);
   ("0006", migration0006); ("0007", migration0007); ("0008", migration0008); ("0009", migration0009)].

Fixpoint apply_all (ms : list (string * string)) (db : Db) : option err * Db :=
  match ms with
  | [] => (None, db)
  | (name, m) :: ms =>
      let '(r, db) := applyAddColumns m db in
      match r with Some e => (Some (Wrap ("sqlite: migrate " +:+ name +:+ ": ") e ""), db) | None => apply_all ms db end
  end.

Definition exec_script (pre sql : string) (db : Db) : option err * Db :=
  let '(r, db) := Exec sql db in (match r with Some e => Some (Wrap pre e "") | None => None end, db).

Definition dsn (path : string) : string :=
  "file:" +:+ path +:+ "?_pragma=busy_timeout(5000)&_pragma=journal_mode(WAL)&_pragma=foreign_keys(on)".

(** The error, or none, and the database. *)
Definition Open (path : string) (db : Db) : option err * Db :=
  match sql_Open (dsn path) with
  | Some e => (Some (Wrap "sqlite: open: " e ""), db)
  | None =>
  match Ping (dsn path) with
  | Some e => (Some (Wrap "sqlite: ping: " e ""), db)
  | None =>
  match exec_script "sqlite: migrate: " migration0001 db with
  | (Some e, db) => (Some e, db)
  | (None, db) =>
  match apply_all add_columns db with
  | (Some e, db) => (Some e, db)
  | (None, db) =>
  match exec_script "sqlite: migrate 0010: " migration0010 db with
  | (Some e, db) => (Some e, db)
  | (None, db) => apply_all [("0011", migration0011); ("0012", migration0012)] db
  end end end end end.
End Open.

(** ** What SQLite documents *)
Definition has_table (t : string) (cols : gset (string * string)) : bool := bool_decide (t ∈ (set_map fst cols : gset string)).

(** [CREATE TABLE IF NOT EXISTS], for each of the tables. *)
Definition with_table (cols : gset (string * string)) (tb : string * list string) : gset (string * string) :=
  if has_table tb.1 cols then cols else cols ∪ list_to_set (pair tb.1 <$> tb.2).
Definition with_tables (ts : list (string * list string)) (cols : gset (string * string)) : gset (string * string) :=
  foldl with_table cols ts.

Definition alter (t c : string) (definition : list string) : string :=
  Join (["ALTER"; "TABLE"; t; "ADD"; "COLUMN"; c] ++ definition) " ".

(** A name, and the definitions of a column that may be added to a table with
    rows: [NOT NULL] with a default. *)
Definition is_name (s : string) : Prop := s ≠ "" ∧ lacks (Ascii.ascii_of_nat 32) s.
Definition addable : list (list string) := [["INTEGER"; "NOT"; "NULL"; "DEFAULT"; "0"]; ["TEXT"; "NOT"; "NULL"; "DEFAULT"; "''"]].
Definition scripts : list string := [migration0001; migration0010].

Class DdlLaws (Db : Type) `{!Ddl Db} : Prop := {
  alter_adds : ∀ t c d db, is_name t → is_name c → d ∈ addable → has_table t (columns db) = true → (t, c) ∉ columns db →
    ∃ db', Exec (alter t c d) db = (None, db') ∧ columns db' = {[(t, c)]} ∪ columns db ∧
           ∀ s, s ∈ scripts → settled_on s db → settled_on s db';
  alter_refuses : ∀ t c d db, is_name t → is_name c → d ∈ addable → (t, c) ∈ columns db →
    ∃ e, Exec (alter t c d) db = (Some e, db) ∧ Contains (err_str e) "duplicate column" = true;
  create_adds : ∀ s db, s ∈ scripts →
    ∃ db', Exec s db = (None, db') ∧ columns db' = with_tables (tables_of s) (columns db) ∧
           settled_on s db' ∧ ∀ s', s' ∈ scripts → settled_on s' db → settled_on s' db';
  create_keeps : ∀ s db, s ∈ scripts → settled_on s db → Exec s db = (None, db);
}.

(** ** The columns the store names *)
Definition rollouts_columns : list string :=
  ["id"; "target_ref"; "phase"; "strategy"; "manifest"; "risk_score"; "initiator_kind"; "initiator_name"; "step_index";
   "step_total"; "step_weight"; "db_rollback_cmd"; "db_rollback_timeout"; "db_migrate_cmd"; "db_backward_compatible";
   "db_migrate_timeout"; "db_migrate_when"; "delivery_traffic"; "delivery_flag"; "analysis"; "smoke_test"; "stepper_snap";
   "rollback_blocked"; "note"; "created_at"; "updated_at"].
Definition history_columns : list string :=
  ["seq"; "rollout_id"; "target_ref"; "phase"; "note"; "initiator_kind"; "initiator_name"; "at"].
Definition target_state_columns : list string := ["target_ref"; "fingerprint"; "meta"; "observed_at"].
Definition schedules_columns : list string := ["id"; "target_ref"; "due_at"; "manifest"; "initiator_kind"; "initiator_name"].
Definition freeze_columns : list string := ["id"; "active"; "reason"; "by_kind"; "by_name"; "at"].
Definition leases_columns : list string := ["key"; "owner"; "expires_at"].

Definition used_columns : list (string * string) :=
  (pair "rollouts" <$> rollouts_columns) ++ (pair "history" <$> history_columns) ++
  (pair "target_state" <$> target_state_columns) ++ (pair "schedules" <$> schedules_columns) ++
  (pair "runtime_freeze" <$> freeze_columns) ++ (pair "leases" <$> leases_columns).

(** What a migration adds to [rollouts], read off its statements. *)
Definition parse_alter (s : string) : option (string * list string) :=
  match Split s (Ascii.ascii_of_nat 32) with
  | a :: t :: r :: b :: d :: c :: def => if [a; t; r; b; d] == ["ALTER"; "TABLE"; "rollouts"; "ADD"; "COLUMN"] then Some (c, def) else None
  | _ => None
  end.
Definition additions (m : string) : list (string * list string) := omap parse_alter (statements m).

Fixpoint lacksb (sep : Ascii.ascii) (s : string) : bool :=
  match s with EmptyString => true | String c s => (c != sep) && lacksb sep s end.
Lemma lacksb_lacks sep s : lacksb sep s = true → lacks sep s.
Proof. induction s as [|c s IH]; simpl; [done|]. intros [?%negb_true_iff%bool_decide_eq_false_1 ?]%andb_true_iff. auto. Qed.

Definition only_adds (m : string) : bool :=
  (statements m == ((λ p, alter "rollouts" p.1 p.2) <$> additions m)) &&
  forallb (λ p, (p.1 != "") && lacksb (Ascii.ascii_of_nat 32) p.1 && bool_decide (p.2 ∈ addable)) (additions m).

Definition late : list (string * string) := [("0011", migration0011); ("0012", migration0012)].
Definition added (ms : list (string * string)) : list (string * string) :=
  pair "rollouts" <$> (ms ≫= λ m, (additions m.2).*1).

Lemma migrations_only_add : forallb (only_adds ∘ snd) (add_columns ++ late) = true.
Proof. by vm_compute. Qed.

Lemma only_adds_spec m : only_adds m = true →
  statements m = ((λ p, alter "rollouts" p.1 p.2) <$> additions m) ∧ Forall (λ p, is_name p.1 ∧ p.2 ∈ addable) (additions m).
Proof.
  intros [H1%bool_decide_eq_true_1 H2]%andb_true_iff. split; [done|]. apply Forall_forall. intros p Hp.
  rewrite forallb_forall in H2. specialize (H2 p (proj1 (list_elem_of_In _ _) Hp)).
  apply andb_true_iff in H2 as [[H3%negb_true_iff%bool_decide_eq_false_1 H4%lacksb_lacks]%andb_true_iff H5%bool_decide_eq_true_1].
  by repeat split.
Qed.

(** ** Tables *)
Lemma has_table_elem t cols : has_table t cols = true ↔ ∃ c, (t, c) ∈ cols.
Proof.
  unfold has_table. rewrite bool_decide_eq_true, elem_of_map. split.
  - intros ([t' c] & -> & H). by exists c.
  - intros [c H]. by exists (t, c).
Qed.
Lemma has_table_mono t cols cols' : cols ⊆ cols' → has_table t cols = true → has_table t cols' = true.
Proof. rewrite !has_table_elem. set_solver. Qed.

Lemma with_table_mono cols tb : cols ⊆ with_table cols tb.
Proof. unfold with_table. case_match; set_solver. Qed.
Lemma with_tables_mono ts cols : cols ⊆ with_tables ts cols.
Proof.
  revert cols. induction ts as [|tb ts IH]; intros cols; cbn; [done|]. transitivity (with_table cols tb); [apply with_table_mono|apply IH].
Qed.

Lemma with_table_other t cols tb : tb.1 ≠ t → has_table t (with_table cols tb) = has_table t cols.
Proof.
  intros Hne. apply eq_true_iff_eq. rewrite !has_table_elem. unfold with_table. case_match; [done|].
  split; intros [c Hc]; exists c; [|set_solver]. apply elem_of_union in Hc as [?|Hc]; [done|].
  apply elem_of_list_to_set, list_elem_of_fmap in Hc as (x & [= -> ->] & _). done.
Qed.
Lemma with_tables_other t ts cols : t ∉ ts.*1 → has_table t (with_tables ts cols) = has_table t cols.
Proof.
  revert cols. induction ts as [|tb ts IH]; intros cols Ht; [done|]. rewrite fmap_cons, not_elem_of_cons in Ht. destruct Ht as [H1 H2].
  change (with_tables (tb :: ts) cols) with (with_tables ts (with_table cols tb)). rewrite IH by done. by apply with_table_other.
Qed.

(** A database made by an earlier version: a table is there with the columns it
    was created with, or it is not there. *)
Definition made_earlier (ts : list (string * list string)) (cols : gset (string * string)) : Prop :=
  ∀ t cs, (t, cs) ∈ ts → has_table t cols = true → ∀ c, c ∈ cs → (t, c) ∈ cols.

Lemma with_tables_has ts cols : NoDup ts.*1 → made_earlier ts cols → ∀ t cs c, (t, cs) ∈ ts → c ∈ cs → (t, c) ∈ with_tables ts cols.
Proof.
  revert cols. induction ts as [|tb ts IH]; intros cols Hnd Hm t cs c Hin Hc; [by apply elem_of_nil in Hin|].
  rewrite fmap_cons, NoDup_cons in Hnd. destruct Hnd as [Hfresh Hnd].
  change (with_tables (tb :: ts) cols) with (with_tables ts (with_table cols tb)).
  apply elem_of_cons in Hin as [<-|Hin].
  - apply with_tables_mono. unfold with_table. destruct (has_table t cols) eqn:Et; cbn [fst snd]; rewrite Et.
    + by eapply Hm; [left|..].
    + apply elem_of_union_r, elem_of_list_to_set, list_elem_of_fmap. by exists c.
  - eapply IH; [done| |exact Hin|exact Hc]. intros t' cs' Hin' Ht' c' Hc'. apply with_table_mono.
    rewrite with_table_other in Ht'; [by eapply Hm; [right|..]|]. intros E. apply Hfresh. rewrite E. by apply list_elem_of_fmap; exists (t', cs').
Qed.

(** ** Opening is safe to repeat *)
Section OpenProofs.
Context {Db : Type} `{!Ddl Db, !DdlLaws Db}.
Implicit Types (db : Db).

Lemma rollouts_name : is_name "rollouts".
Proof. split; [done|]. by apply lacksb_lacks. Qed.

Lemma exec_alters l : ∀ db,
  Forall (λ p, is_name p.1 ∧ p.2 ∈ addable) l → has_table "rollouts" (columns db) = true →
  ∃ db', exec_statements ((λ p, alter "rollouts" p.1 p.2) <$> l) db = (None, db') ∧
         columns db' = list_to_set (pair "rollouts" <$> l.*1) ∪ columns db ∧
         ∀ s, s ∈ scripts → settled_on s db → settled_on s db'.
Proof.
  induction l as [|[c d] l IH]; intros db Hl Ht; cbn [fmap list_fmap exec_statements].
  { exists db. split; [done|]. split; [set_solver|done]. }
  apply Forall_cons in Hl as [[Hc Hd] Hl]. cbn [fst snd] in *. destruct (decide (("rollouts", c) ∈ columns db)) as [Hin|Hin].
  - destruct (alter_refuses "rollouts" c d db rollouts_name Hc Hd Hin) as (e & -> & ->). cbn [negb].
    destruct (IH db Hl Ht) as (db' & E & Hcol & Hs). exists db'. split; [done|]. split; [rewrite Hcol; set_solver|done].
  - destruct (alter_adds "rollouts" c d db rollouts_name Hc Hd Ht Hin) as (db1 & -> & H1 & H2).
    destruct (IH db1 Hl) as (db' & E & Hcol & Hs); [eapply has_table_mono; [|exact Ht]; set_solver|].
    exists db'. split; [done|]. split; [rewrite Hcol, H1; set_solver|eauto].
Qed.

Lemma exec_alters_present l db :
  Forall (λ p, is_name p.1 ∧ p.2 ∈ addable) l → (∀ c, c ∈ l.*1 → ("rollouts", c) ∈ columns db) →
  exec_statements ((λ p, alter "rollouts" p.1 p.2) <$> l) db = (None, db).
Proof.
  induction l as [|[c d] l IH]; intros Hl Hp; cbn [fmap list_fmap exec_statements]; [done|].
  apply Forall_cons in Hl as [[Hc Hd] Hl]. cbn [fst snd] in *.
  destruct (alter_refuses "rollouts" c d db rollouts_name Hc Hd) as (e & -> & ->); [apply Hp; set_solver|]. cbn [negb].
  apply IH; [done|]. intros c' Hc'. apply Hp. set_solver.
Qed.

Lemma apply_all_adds ms : ∀ db, forallb (only_adds ∘ snd) ms = true → has_table "rollouts" (columns db) = true →
  ∃ db', apply_all ms db = (None, db') ∧ columns db' = list_to_set (added ms) ∪ columns db ∧
         ∀ s, s ∈ scripts → settled_on s db → settled_on s db'.
Proof.
  induction ms as [|[name m] ms IH]; intros db Ho Ht; cbn [apply_all].
  { exists db. split; [done|]. split; [set_solver|done]. }
  apply andb_true_iff in Ho as [Hm Ho]. apply only_adds_spec in Hm as [E Hf]. cbn [snd] in *. unfold applyAddColumns. rewrite E.
  destruct (exec_alters _ db Hf Ht) as (db1 & -> & H1 & H2).
  destruct (IH db1 Ho) as (db' & E' & Hcol & Hs); [eapply has_table_mono; [|exact Ht]; set_solver|].
  exists db'. split; [done|]. split; [|eauto]. rewrite Hcol, H1. unfold added. cbn [mbind list_bind]. rewrite fmap_app, list_to_set_app_L.
  cbn [snd]. rewrite (assoc_L (∪)). f_equal. apply (comm_L (∪)).
Qed.

Lemma apply_all_present ms db : forallb (only_adds ∘ snd) ms = true → (∀ p, p ∈ added ms → p ∈ columns db) → apply_all ms db = (None, db).
Proof.
  induction ms as [|[name m] ms IH]; intros Ho Hp; cbn [apply_all]; [done|].
  apply andb_true_iff in Ho as [Hm Ho]. apply only_adds_spec in Hm as [E Hf]. cbn [snd] in *. unfold applyAddColumns.
  unfold added in Hp. cbn [mbind list_bind snd] in Hp. rewrite fmap_app in Hp.
  rewrite E, exec_alters_present; [|done|].
  - apply IH; [done|]. intros p Hin. apply Hp. by apply elem_of_app; right.
  - intros c Hc. apply Hp. apply elem_of_app. left. apply list_elem_of_fmap. by exists c.
Qed.

Lemma script_runs pre s db : s ∈ scripts →
  ∃ db', exec_script pre s db = (None, db') ∧ columns db' = with_tables (tables_of s) (columns db) ∧
         settled_on s db' ∧ ∀ s', s' ∈ scripts → settled_on s' db → settled_on s' db'.
Proof. intros Hs. destruct (create_adds s db Hs) as (db' & E & H). exists db'. unfold exec_script. by rewrite E. Qed.
Lemma script_settled pre s db : s ∈ scripts → settled_on s db → exec_script pre s db = (None, db).
Proof. intros Hs Hd. unfold exec_script. by rewrite create_keeps. Qed.

Definition names_distinct (ts1 ts2 : list (string * list string)) : bool :=
  bool_decide (NoDup (ts1 ++ ts2).*1) && bool_decide ("rollouts" ∈ ts1.*1) && forallb (λ tb, tb.2 != []) ts1.

Lemma tables_distinct : names_distinct (tables_of migration0001) (tables_of migration0010) = true.
Proof. by vm_compute. Qed.

Definition all_tables : list (string * list string) := tables_of migration0001 ++ tables_of migration0010.

Lemma used_are_declared : forallb (λ p, bool_decide (p ∈ (all_tables ≫= λ tb, pair tb.1 <$> tb.2) ++ added (add_columns ++ late))) used_columns = true.
Proof. by vm_compute. Qed.

Lemma script_0001 : migration0001 ∈ scripts.
Proof. by left. Qed.
Lemma script_0010 : migration0010 ∈ scripts.
Proof. by right; left. Qed.

(** The four stages of an opening. *)
Definition stage1 db db1 : Prop := exec_script "sqlite: migrate: " migration0001 db = (None, db1).
Definition stage3 db db3 : Prop := exec_script "sqlite: migrate 0010: " migration0010 db = (None, db3).

Lemma Open_stages sql_Open Ping path db db1 db2 db3 db4 :
  sql_Open (dsn path) = None → Ping (dsn path) = None →
  stage1 db db1 → apply_all add_columns db1 = (None, db2) → stage3 db2 db3 → apply_all late db3 = (None, db4) →
  Open sql_Open Ping path db = (None, db4).
Proof. unfold Open, stage1, stage3. intros -> -> -> -> -> E. exact E. Qed.

Lemma base_present ts1 ts2 cols : names_distinct ts1 ts2 = true → made_earlier (ts1 ++ ts2) cols →
  ∀ t cs c, (t, cs) ∈ ts1 → c ∈ cs → (t, c) ∈ with_tables ts1 cols.
Proof.
  intros [[Hn%bool_decide_eq_true_1 _]%andb_true_iff _]%andb_true_iff Hm. rewrite fmap_app, NoDup_app in Hn.
  apply with_tables_has; [apply Hn|]. intros t cs Hin. apply Hm. by apply elem_of_app; left.
Qed.

Lemma rollouts_present ts1 ts2 cols : names_distinct ts1 ts2 = true → made_earlier (ts1 ++ ts2) cols →
  has_table "rollouts" (with_tables ts1 cols) = true.
Proof.
  intros Hd Hm. pose proof (base_present ts1 ts2 cols Hd Hm) as B.
  apply andb_true_iff in Hd as [[_ Hr%bool_decide_eq_true_1]%andb_true_iff Hne]. apply list_elem_of_fmap in Hr as ([t cs] & -> & Hin).
  rewrite forallb_forall in Hne. specialize (Hne _ (proj1 (list_elem_of_In _ _) Hin)). apply negb_true_iff, bool_decide_eq_false_1 in Hne.
  destruct cs as [|c cs]; [done|]. apply has_table_elem. exists c. by eapply B; [|left].
Qed.

Lemma later_present ts1 ts2 extra cols : names_distinct ts1 ts2 = true → made_earlier (ts1 ++ ts2) cols →
  ∀ t cs c, (t, cs) ∈ ts2 → c ∈ cs → (t, c) ∈ with_tables ts2 (list_to_set (pair "rollouts" <$> extra) ∪ with_tables ts1 cols).
Proof.
  intros [[Hn%bool_decide_eq_true_1 Hr%bool_decide_eq_true_1]%andb_true_iff _]%andb_true_iff Hm.
  rewrite fmap_app, NoDup_app in Hn. destruct Hn as (_ & Hd & Hn).
  apply with_tables_has; [done|]. intros t cs Hin Ht c Hc. apply elem_of_union_r, with_tables_mono.
  assert (t ∈ ts2.*1) as Ht2 by (by apply list_elem_of_fmap; exists (t, cs)).
  eapply Hm; [by apply elem_of_app; right| |done]. apply has_table_elem in Ht as [c' [Hc'|Hc']%elem_of_union].
  - apply elem_of_list_to_set, list_elem_of_fmap in Hc' as (? & [= -> ->] & _). by destruct (Hd "rollouts").
  - rewrite <- (with_tables_other _ ts1); [apply has_table_elem; by exists c'|]. intros H1. by apply (Hd t).
Qed.

#[local] Strategy opaque [tables_of statements additions migration0001 migration0010].

(** Whichever earlier version made the database (or none), opening it succeeds,
    loses no column, leaves every column that the store's statements name, and
    opening it again, any number of times, changes nothing. *)
Theorem opening_migrates_once sql_Open Ping path db :
  sql_Open (dsn path) = None → Ping (dsn path) = None → made_earlier all_tables (columns db) →
  ∃ db', Open sql_Open Ping path db = (None, db') ∧ columns db ⊆ columns db' ∧
         (∀ p, p ∈ used_columns → p ∈ columns db') ∧ Open sql_Open Ping path db' = (None, db').
Proof.
  intros Ho Hp Hm. pose proof migrations_only_add as Hadd. rewrite forallb_app in Hadd. apply andb_true_iff in Hadd as [Ha Hl].
  destruct (script_runs "sqlite: migrate: " _ db script_0001) as (db1 & E1 & C1 & T1 & _).
  pose proof (base_present _ _ _ tables_distinct Hm) as B1. rewrite <- C1 in B1.
  assert (has_table "rollouts" (columns db1) = true) as R1.
  { rewrite C1. exact (rollouts_present _ _ _ tables_distinct Hm). }
  destruct (apply_all_adds add_columns db1 Ha R1) as (db2 & E2 & C2 & K2).
  destruct (script_runs "sqlite: migrate 0010: " _ db2 script_0010) as (db3 & E3 & C3 & T3 & K3).
  assert (columns db2 ⊆ columns db3) as M3 by (rewrite C3; apply with_tables_mono).
  assert (columns db1 ⊆ columns db2) as M2 by (rewrite C2; apply union_subseteq_r).
  destruct (apply_all_adds late db3 Hl) as (db4 & E4 & C4 & K4); [eapply has_table_mono; [|exact R1]; by transitivity (columns db2)|].
  assert (columns db3 ⊆ columns db4) as M4 by (rewrite C4; apply union_subseteq_r).
  assert (∀ p, p ∈ added add_columns → p ∈ columns db2) as P2 by (intros p Hin; rewrite C2; by apply elem_of_union_l, elem_of_list_to_set).
  assert (∀ p, p ∈ added late → p ∈ columns db4) as P4 by (intros p Hin; rewrite C4; by apply elem_of_union_l, elem_of_list_to_set).
  exists db4. split; [by eapply Open_stages|]. split; [|split].
  - transitivity (columns db1); [rewrite C1; apply with_tables_mono|]. by transitivity (columns db2); [|transitivity (columns db3)].
  - intros p Hu. pose proof used_are_declared as H. rewrite forallb_forall in H.
    specialize (H p (proj1 (list_elem_of_In _ _) Hu)). apply bool_decide_eq_true_1, elem_of_app in H as [H|H].
    + apply list_elem_of_bind in H as ([t cs] & (c & -> & Hc)%list_elem_of_fmap & [Ht|Ht]%elem_of_app).
      * by eapply M4, M3, M2, B1.
      * apply M4. rewrite C3, C2, C1. exact (later_present _ _ _ _ tables_distinct Hm _ _ _ Ht Hc).
    + unfold added in H. rewrite bind_app, fmap_app in H. apply elem_of_app in H as [H|H]; [by apply M4, M3, P2|by apply P4].
  - apply (Open_stages _ _ _ db4 db4 db4 db4 db4); [done|done| | | |].
    + apply script_settled; [apply script_0001|]. apply K4, K3, K2; auto using script_0001.
    + apply apply_all_present; [done|]. intros p Hin. by apply M4, M3, P2.
    + apply script_settled; [apply script_0010|]. apply K4; auto using script_0010.
    + by apply apply_all_present.
Qed.
End OpenProofs.

(** ** A database with the laws, and an old one opened *)
Definition ref_columns (db : gset (string * string)) : gset (string * string) := db.

Definition ref_exec (s : string) (db : gset (string * string)) : option err * gset (string * string) :=
  if bool_decide (s ∈ scripts) then (None, with_tables (tables_of s) db)
  else
    match Split s (Ascii.ascii_of_nat 32) with
    | _ :: _ :: t :: _ :: _ :: c :: _ =>
        if bool_decide ((t, c) ∈ db) then (Some (Errorf ("duplicate column name: " +:+ c)), db)
        else if has_table t db then (None, {[(t, c)]} ∪ db) else (Some (Errorf ("no such table: " +:+ t)), db)
    | _ => (Some (Errorf "syntax error"), db)
    end.

#[local] Instance ref_ddl : Ddl (gset (string * string)) := {
  Exec := ref_exec; columns := ref_columns;
  settled_on s db := ∀ tb, tb ∈ tables_of s → has_table tb.1 db = true;
}.

Lemma with_tables_settled ts cols : (∀ tb, tb ∈ ts → has_table tb.1 cols = true) → with_tables ts cols = cols.
Proof.
  induction ts as [|tb ts IH]; intros H; [done|]. change (with_tables (tb :: ts) cols) with (with_tables ts (with_table cols tb)).
  unfold with_table. rewrite H by (by left). apply IH. intros tb' Hin. apply H. by right.
Qed.

Lemma with_tables_settles ts cols : forallb (λ tb, tb.2 != []) ts = true → ∀ tb, tb ∈ ts → has_table tb.1 (with_tables ts cols) = true.
Proof.
  revert cols. induction ts as [|tb0 ts IH]; intros cols Hne tb Hin; [by apply elem_of_nil in Hin|].
  apply andb_true_iff in Hne as [H0%negb_true_iff%bool_decide_eq_false_1 Hne].
  change (with_tables (tb0 :: ts) cols) with (with_tables ts (with_table cols tb0)).
  apply elem_of_cons in Hin as [->|Hin]; [|by apply IH]. eapply has_table_mono; [apply with_tables_mono|].
  unfold with_table. destruct (has_table tb0.1 cols) eqn:Et; [done|]. apply has_table_elem.
  destruct tb0 as [t [|c cs]]; [done|]. exists c. apply elem_of_union_r, elem_of_list_to_set. by left.
Qed.

Lemma scripts_declare : forallb (λ s, forallb (λ tb, tb.2 != []) (tables_of s)) scripts = true.
Proof. by vm_compute. Qed.

Lemma alter_is_no_script t c d : alter t c d ∉ scripts.
Proof.
  assert (∀ s, s ∈ scripts → HasPrefix s "-" = true) as H by (apply Forall_forall; by repeat constructor).
  intros Hin. specialize (H _ Hin). by vm_compute in H.
Qed.

Lemma alter_words t c d : is_name t → is_name c → d ∈ addable →
  Split (alter t c d) (Ascii.ascii_of_nat 32) = ["ALTER"; "TABLE"; t; "ADD"; "COLUMN"; c] ++ d.
Proof.
  intros [_ Ht] [_ Hc] Hd. unfold alter. apply Split_Join; [done|].
  assert (∀ s, lacksb (Ascii.ascii_of_nat 32) s = true → lacks (Ascii.ascii_of_nat 32) s) as L by apply lacksb_lacks.
  assert (Forall (lacks (Ascii.ascii_of_nat 32)) d) as Hdl.
  { unfold addable in Hd. apply elem_of_cons in Hd as [->|Hd]; [|apply list_elem_of_singleton in Hd as ->]; rewrite !Forall_cons; repeat (split; [by apply L|]); by constructor. }
  apply Forall_app. split; [|done]. rewrite !Forall_cons. repeat (split; [first [exact Ht|exact Hc|by apply L]|]). by constructor.
Qed.

Lemma ref_alter t c d db : is_name t → is_name c → d ∈ addable →
  ref_exec (alter t c d) db =
    if bool_decide ((t, c) ∈ db) then (Some (Errorf ("duplicate column name: " +:+ c)), db)
    else if has_table t db then (None, {[(t, c)]} ∪ db) else (Some (Errorf ("no such table: " +:+ t)), db).
Proof.
  intros Ht Hc Hd. unfold ref_exec. rewrite bool_decide_false by apply alter_is_no_script. by rewrite alter_words.
Qed.

#[local] Instance ref_ddl_laws : DdlLaws (gset (string * string)).
Proof.
  split.
  - intros t c d db Ht Hc Hd Htab Hin. exists ({[(t, c)]} ∪ db). unfold columns, ref_ddl, ref_columns in *. cbn [Exec].
    rewrite ref_alter, bool_decide_false, Htab by done. split; [done|]. split; [done|]. intros s Hs Hset tb Htb.
    eapply has_table_mono; [|by apply Hset]. apply union_subseteq_r.
  - intros t c d db Ht Hc Hd Hin. eexists. unfold columns, ref_ddl, ref_columns in *. cbn [Exec].
    rewrite ref_alter, bool_decide_true by done. by split.
  - intros s db Hs. eexists. cbn [Exec ref_ddl]. unfold ref_exec. rewrite bool_decide_true by done. split; [done|]. split; [done|].
    pose proof scripts_declare as H. rewrite forallb_forall in H. split.
    + cbn [settled_on ref_ddl]. apply with_tables_settles, H. by apply list_elem_of_In.
    + intros s' _ Hset tb Htb. eapply has_table_mono; [apply with_tables_mono|by apply Hset].
  - intros s db Hs Hset. cbn [Exec ref_ddl]. unfold ref_exec. rewrite bool_decide_true by done. by rewrite with_tables_settled.
Qed.

(** A database of the first version, with one column of a later one. *)
Definition old_database : gset (string * string) :=
  {[("rollouts", "note")]} ∪ with_tables (tables_of migration0001) ∅.

Definition earlierb (ts : list (string * list string)) (cols : gset (string * string)) : bool :=
  forallb (λ tb, negb (has_table tb.1 cols) || forallb (λ c, bool_decide ((tb.1, c) ∈ cols)) tb.2) ts.

Lemma earlierb_made ts cols : earlierb ts cols = true → made_earlier ts cols.
Proof.
  unfold earlierb. intros H t cs Hin Ht c Hc. rewrite forallb_forall in H. specialize (H _ (proj1 (list_elem_of_In _ _) Hin)).
  cbn [fst snd] in H. rewrite Ht in H. cbn [negb orb] in H. rewrite forallb_forall in H.
  specialize (H c (proj1 (list_elem_of_In _ _) Hc)). by apply bool_decide_eq_true_1 in H.
Qed.

Lemma old_is_earlier : earlierb all_tables (columns old_database) = true.
Proof. by vm_compute. Qed.
Lemma blocked_is_used : bool_decide (("rollouts", "rollback_blocked") ∈ used_columns) = true.
Proof. by vm_compute. Qed.

#[local] Strategy opaque [all_tables used_columns old_database Open].

Lemma opening_migrates_once_witness : ∃ db',
  Open (λ _, None) (λ _, None) "rollops.db" old_database = (None, db') ∧ ("rollouts", "rollback_blocked") ∈ db' ∧
  Open (λ _, None) (λ _, None) "rollops.db" db' = (None, db').
Proof.
  destruct (opening_migrates_once (λ _, None) (λ _, None) "rollops.db" old_database eq_refl eq_refl (earlierb_made all_tables (columns old_database) old_is_earlier))
    as (db' & H1 & _ & H2 & H3).
  exists db'. split; [exact H1|]. split; [|exact H3]. exact (H2 _ (bool_decide_eq_true_1 _ blocked_is_used)).
Defined.

(** A failing statement that is no duplicate stops the opening. *)
Example open_reports_a_failure :
  (applyAddColumns (Db := gset (string * string)) migration0006 ∅).1 = Some (Errorf "no such table: rollouts").
Proof. by vm_compute. Qed.

(** ** Commands and descriptors in a column *)
Definition encodeDBCmd (cmd : list string) : string :=
  if (length cmd =? 0)%nat then "" else Marshal (JArr (JStr <$> cmd)).

(** [json.Unmarshal] into a [[]string]: a null leaves the element empty. *)
Fixpoint into_texts (l : list json) : result (list string) :=
  match l with
  | [] => Ok []
  | v :: l => try s <- into_string "" v; try rest <- into_texts l; Ok (s :: rest)
  end.
Definition decodeDBCmd (s : string) : result (list string) :=
  if s == "" then Ok []
  else
    try v <- Unmarshal s;
    match v with JArr l => into_texts l | JNull => Ok [] | _ => Err wrong_type end.

Definition blobBytes (s : string) : option string := if s == "" then None else Some s.

Lemma into_texts_strings cmd : into_texts (JStr <$> cmd) = Ok cmd.
Proof. induction cmd as [|a cmd IH]; [done|]. cbn. by rewrite IH. Qed.

Lemma argv_well_formed cmd : well_formed (JArr (JStr <$> cmd)) = true ∧ (nesting (JArr (JStr <$> cmd)) ≤ 100)%nat.
Proof.
  split.
  - cbn [well_formed]. by induction cmd.
  - cbn [nesting]. assert (foldr max O (nesting <$> (JStr <$> cmd)) = O) as -> by (by induction cmd). lia.
Qed.

(** A command is read back from its column with every byte that is not part of a
    UTF-8 text replaced, so as it was exactly when its words are UTF-8. *)
Theorem stored_command_reads_back cmd : decodeDBCmd (encodeDBCmd cmd) = Ok (ToValid <$> cmd).
Proof.
  unfold encodeDBCmd. destruct cmd as [|a cmd]; [done|]. cbn [length Nat.eqb]. set (v := JArr (JStr <$> a :: cmd)).
  destruct (argv_well_formed (a :: cmd)) as [Hw Hn]. fold v in Hw, Hn. unfold decodeDBCmd.
  assert (Marshal v ≠ "") as Hne by done. rewrite bool_decide_false by done.
  rewrite Unmarshal_Marshal by auto using shallow. subst v. cbn [ToValid_json].
  assert (ToValid_json <$> (JStr <$> a :: cmd) = JStr <$> (ToValid <$> a :: cmd)) as -> by (by rewrite <- !list_fmap_compose).
  apply into_texts_strings.
Qed.

(** A word that is not UTF-8 comes back as another one. *)
Example binary_argument_is_replaced :
  decodeDBCmd (encodeDBCmd ["restore"; String (Ascii.ascii_of_nat 255) ""]) = Ok ["restore"; replacement].
Proof. by vm_compute. Qed.
