(* ===== verification/Rows.v ===== *)
(** * Rollouts as rows

    [SaveRollout] and [LoadRollout] of [store/sqlite/sqlite.go] at the level of
    the SQL they send: the columns by name, the values bound to them - JSON for
    the manifest and the commands, RFC3339Nano for the times -, the upsert, the
    transaction with its deferred rollback, and the way back with every error of
    scanning, parsing and decoding.  The database is a committed state and, inside
    a transaction, a working copy; a statement outside a transaction commits at
    once, so a statement moved out of it, or a transaction never committed, shows.
    Every call can fail: [cn_faults] is the list of outcomes to come, an exhausted
    list being a healthy database.

    Byte slices are texts here, nil being empty, as is the nil map; the five
    descriptors are nil or bytes.  That [Store.Sqlite] keeps a rollout as the value
    it decodes to is justified by [rows_refine_the_store]. *)

From Stdlib Require Import Floats.
From S2P Require Import Prelude Encoding GoTime TimeParse Json Config Model Store KubeTarget Plugins PluginWire Surface Migrate.

(** ** The rollout, with its bytes *)
Record RowManifest := {
  rd_Kind : string; rd_Spec : string; rd_Labels : gmap string string; rd_Checksum : string; rd_Root : string; rd_Rendered : string;
}.

Record RowRollout := {
  rw_ID : string; rw_TargetRef : string; rw_Phase : string; rw_Strategy : string; rw_Desired : RowManifest;
  rw_RiskScore : float; rw_Initiator : Identity; rw_StepIndex : Z; rw_StepTotal : Z; rw_StepWeight : Z;
  rw_DBRollbackCmd : list string; rw_DBRollbackTimeout : string; rw_DBMigrateCmd : list string;
  rw_DBBackwardCompatible : bool; rw_DBMigrateTimeout : string; rw_DBMigrateWhen : string;
  rw_DeliveryTraffic : option string; rw_DeliveryFlag : option string; rw_Analysis : option string;
  rw_SmokeTest : option string; rw_StepperSnap : option string; rw_RollbackBlocked : string; rw_Note : string;
  rw_CreatedAt : Time; rw_UpdatedAt : Time;
}.

(** *** The manifest as JSON: [Root] has no member, [Rendered] only when there is one *)
Definition bytes_json (s : string) : json := if s == "" then JNull else JStr (EncodeToString StdEncoding s).

Definition RowManifest_json (m : RowManifest) : json :=
  JObj ([("Kind", JStr (rd_Kind m)); ("Spec", bytes_json (rd_Spec m)); ("Labels", of_strings (rd_Labels m));
         ("Checksum", JStr (rd_Checksum m))] ++
        (if rd_Rendered m == "" then [] else [("rendered", bytes_json (rd_Rendered m))])).

Definition RowManifest_field (m : RowManifest) (k : string) (v : json) : result RowManifest :=
  let 'Build_RowManifest kind spec labels sum root rendered := m in
  if EqualFold k "Kind" then try s <- into_string kind v; Ok (Build_RowManifest s spec labels sum root rendered)
  else if EqualFold k "Spec" then try s <- into_bytes spec v; Ok (Build_RowManifest kind s labels sum root rendered)
  else if EqualFold k "Labels" then try l <- into_strings labels v; Ok (Build_RowManifest kind spec l sum root rendered)
  else if EqualFold k "Checksum" then try s <- into_string sum v; Ok (Build_RowManifest kind spec labels s root rendered)
  else if EqualFold k "rendered" then try s <- into_bytes rendered v; Ok (Build_RowManifest kind spec labels sum root s)
  else Ok m.

Definition no_manifest : RowManifest := Build_RowManifest "" "" ∅ "" "" "".

(** ** SQL *)
Inductive Sql := SNull | SInt (z : Z) | SReal (f : float) | SText (s : string) | SBlob (s : string).

(** A row by column. *)
Abbreviation Row := (gmap string Sql).

Record Tables := { tb_rollouts : gmap string Row; tb_history : list Row (* newest first: seq DESC *) }.
Record Conn := { cn_committed : Tables; cn_tx : option Tables; cn_faults : list (option err) }.

Definition Sq (A : Type) : Type := Conn → A * Conn.
#[global] Instance Sq_ret : MRet Sq := λ A a c, (a, c).
#[global] Instance Sq_bind : MBind Sq := λ A B k m c, let '(a, c') := m c in k a c'.

(** The outcome of one call of the driver. *)
Definition outcome : Sq (option err) := λ c,
  (default None (head (cn_faults c)),
   {| cn_committed := cn_committed c; cn_tx := cn_tx c; cn_faults := tail (cn_faults c) |}).

Definition set_tx (tx : option Tables) (c : Conn) : Conn :=
  {| cn_committed := cn_committed c; cn_tx := tx; cn_faults := cn_faults c |}.
Definition set_committed (t : Tables) (c : Conn) : Conn :=
  {| cn_committed := t; cn_tx := cn_tx c; cn_faults := cn_faults c |}.

Definition BeginTx : Sq (option err) :=
  λ c, let '(e, c) := outcome c in match e with Some e => (Some e, c) | None => (None, set_tx (Some (cn_committed c)) c) end.

(** A statement: in the transaction, or committed at once when there is none. *)
Definition Exec (stmt : Tables → result Tables) : Sq (option err) :=
  λ c, let '(e, c) := outcome c in
  match e with
  | Some e => (Some e, c)
  | None =>
      match stmt (default (cn_committed c) (cn_tx c)) with
      | Err e => (Some e, c)
      | Ok t => (None, match cn_tx c with Some _ => set_tx (Some t) c | None => set_committed t c end)
      end
  end.

(** A failed commit ends the transaction too. *)
Definition Commit : Sq (option err) :=
  λ c, let '(e, c) := outcome c in
  match e with
  | Some e => (Some e, set_tx None c)
  | None => (None, set_tx None (set_committed (default (cn_committed c) (cn_tx c)) c))
  end.

Definition Rollback : Sq unit := λ c, (tt, set_tx None c).

Definition Query {A} (q : Tables → A) : Sq (result A) :=
  λ c, let '(e, c) := outcome c in (match e with Some e => Err e | None => Ok (q (default (cn_committed c) (cn_tx c))) end, c).

(** *** Binding: SQLite keeps no NaN and no negative zero *)
Definition bind_real (f : float) : Sql :=
  if PrimFloat.is_nan f then SNull else if PrimFloat.eqb f PrimFloat.zero then SReal PrimFloat.zero else SReal f.
Definition bind_bool (b : bool) : Sql := SInt (if b then 1 else 0).
Definition bind_bytes (b : option string) : Sql := SText (default "" b).

(** *** The statements *)

(** The columns [ON CONFLICT(id) DO UPDATE] sets from the new row. *)
Definition updated_columns : list string :=
  ["phase"; "strategy"; "manifest"; "risk_score"; "step_index"; "step_total"; "step_weight"; "db_rollback_cmd";
   "db_rollback_timeout"; "db_migrate_cmd"; "db_backward_compatible"; "db_migrate_timeout"; "db_migrate_when";
   "delivery_traffic"; "delivery_flag"; "analysis"; "smoke_test"; "stepper_snap"; "rollback_blocked"; "note"; "updated_at"].

Definition overlay (cols : list string) (new old : Row) : Row :=
  foldr (λ c row, match new !! c with Some v => <[c := v]> row | None => row end) old cols.

(** Every column but the key is [NOT NULL]. *)
Definition no_null (values : list Sql) : bool := forallb (λ v, match v with SNull => false | _ => true end) values.
Definition null_err : err := Errorf "constraint failed: NOT NULL constraint failed".

Definition upsert_rollout (id : string) (values : list Sql) (t : Tables) : result Tables :=
  let new : Row := list_to_map (zip rollouts_columns values) in
  if negb (no_null values) then Err null_err
  else Ok {| tb_rollouts := <[id := match tb_rollouts t !! id with
                                    | None => new
                                    | Some old => overlay updated_columns new old
                                    end]> (tb_rollouts t);
             tb_history := tb_history t |}.

Definition history_insert_columns : list string := ["rollout_id"; "target_ref"; "phase"; "note"; "initiator_kind"; "initiator_name"; "at"].

Definition append_history (values : list Sql) (t : Tables) : result Tables :=
  if negb (no_null values) then Err null_err
  else Ok {| tb_rollouts := tb_rollouts t; tb_history := list_to_map (zip history_insert_columns values) :: tb_history t |}.

Definition select_rollout (id : string) (t : Tables) : option (list (option Sql)) :=
  (λ row : Row, (λ c, row !! c) <$> rollouts_columns) <$> tb_rollouts t !! id.

(** *** Saving *)
Definition rollout_values (r : RowRollout) : list Sql :=
  [SText (rw_ID r); SText (rw_TargetRef r); SText (rw_Phase r); SText (rw_Strategy r);
   SBlob (Marshal (RowManifest_json (rw_Desired r))); bind_real (rw_RiskScore r);
   SText (id_Kind (rw_Initiator r)); SText (id_Name (rw_Initiator r));
   SInt (rw_StepIndex r); SInt (rw_StepTotal r); SInt (rw_StepWeight r);
   SText (encodeDBCmd (rw_DBRollbackCmd r)); SText (rw_DBRollbackTimeout r); SText (encodeDBCmd (rw_DBMigrateCmd r));
   bind_bool (rw_DBBackwardCompatible r); SText (rw_DBMigrateTimeout r); SText (rw_DBMigrateWhen r);
   bind_bytes (rw_DeliveryTraffic r); bind_bytes (rw_DeliveryFlag r); bind_bytes (rw_Analysis r); bind_bytes (rw_SmokeTest r);
   bind_bytes (rw_StepperSnap r); SText (rw_RollbackBlocked r); SText (rw_Note r);
   SText (FormatRFC3339Nano (rw_CreatedAt r)); SText (FormatRFC3339Nano (rw_UpdatedAt r))].

Definition history_values (r : RowRollout) : list Sql :=
  [SText (rw_ID r); SText (rw_TargetRef r); SText (rw_Phase r); SText (rw_Note r);
   SText (id_Kind (rw_Initiator r)); SText (id_Name (rw_Initiator r)); SText (FormatRFC3339Nano (rw_UpdatedAt r))].

(** [json.Marshal] of these types has no error. *)
Definition SaveRollout (r : RowRollout) : Sq (option err) :=
  e ← BeginTx;
  match e with
  | Some e => mret (Some (Wrap "sqlite: begin: " e ""))
  | None =>
      res ← (e ← Exec (upsert_rollout (rw_ID r) (rollout_values r));
             match e with
             | Some e => mret (Some (Wrap "sqlite: save rollout: " e ""))
             | None =>
                 e ← Exec (append_history (history_values r));
                 match e with
                 | Some e => mret (Some (Wrap "sqlite: append history: " e ""))
                 | None =>
                     e ← Commit;
                     mret (match e with Some e => Some (Wrap "sqlite: commit: " e "") | None => None end)
                 end
             end);
      Rollback;; mret res
  end.

(** *** Loading *)
Definition bad_scan : err := Errorf "sql: Scan error: unsupported conversion".
Definition scan_text (v : option Sql) : result string :=
  match v with Some (SText s) | Some (SBlob s) => Ok s | _ => Err bad_scan end.
Definition scan_int (v : option Sql) : result Z := match v with Some (SInt z) => Ok z | _ => Err bad_scan end.
Definition scan_real (v : option Sql) : result float := match v with Some (SReal f) => Ok f | _ => Err bad_scan end.
Definition scan_bool (v : option Sql) : result bool :=
  match v with Some (SInt z) => if z =? 0 then Ok false else if z =? 1 then Ok true else Err bad_scan | _ => Err bad_scan end.

(** The columns as scanned, in their order: the rollout but for what is decoded,
    and the texts to decode - two commands, the manifest, two times. *)
Record Scanned := { sd_rollout : RowRollout; sd_dbCmd : string; sd_migCmd : string; sd_manifest : string;
                    sd_created : string; sd_updated : string }.

Definition Scan (cells : list (option Sql)) : result Scanned :=
  match cells with
  | [c0; c1; c2; c3; c4; c5; c6; c7; c8; c9; c10; c11; c12; c13; c14; c15; c16; c17; c18; c19; c20; c21; c22; c23; c24; c25] =>
      try id <- scan_text c0; try ref <- scan_text c1; try phase <- scan_text c2; try strategy <- scan_text c3;
      try manifest <- scan_text c4; try risk <- scan_real c5; try kind <- scan_text c6; try name <- scan_text c7;
      try index <- scan_int c8; try total <- scan_int c9; try weight <- scan_int c10;
      try dbCmd <- scan_text c11; try dbTimeout <- scan_text c12; try migCmd <- scan_text c13; try compatible <- scan_bool c14;
      try migTimeout <- scan_text c15; try migWhen <- scan_text c16; try traffic <- scan_text c17; try flag <- scan_text c18;
      try analysis <- scan_text c19; try smoke <- scan_text c20; try snap <- scan_text c21; try blocked <- scan_text c22;
      try note <- scan_text c23; try created <- scan_text c24; try updated <- scan_text c25;
      Ok {| sd_rollout := {|
              rw_ID := id; rw_TargetRef := ref; rw_Phase := phase; rw_Strategy := strategy; rw_Desired := no_manifest;
              rw_RiskScore := risk; rw_Initiator := {| id_Kind := kind; id_Name := name; id_Groups := [] |};
              rw_StepIndex := index; rw_StepTotal := total; rw_StepWeight := weight; rw_DBRollbackCmd := [];
              rw_DBRollbackTimeout := dbTimeout; rw_DBMigrateCmd := []; rw_DBBackwardCompatible := compatible;
              rw_DBMigrateTimeout := migTimeout; rw_DBMigrateWhen := migWhen; rw_DeliveryTraffic := blobBytes traffic;
              rw_DeliveryFlag := blobBytes flag; rw_Analysis := blobBytes analysis; rw_SmokeTest := blobBytes smoke;
              rw_StepperSnap := blobBytes snap; rw_RollbackBlocked := blocked; rw_Note := note;
              rw_CreatedAt := zero_time; rw_UpdatedAt := zero_time |};
            sd_dbCmd := dbCmd; sd_migCmd := migCmd; sd_manifest := manifest; sd_created := created; sd_updated := updated |}
  | _ => Err bad_scan
  end.

Definition decoded (r : RowRollout) (m : RowManifest) (dbCmd migCmd : list string) (created updated : Time) : RowRollout := {|
  rw_ID := rw_ID r; rw_TargetRef := rw_TargetRef r; rw_Phase := rw_Phase r; rw_Strategy := rw_Strategy r; rw_Desired := m;
  rw_RiskScore := rw_RiskScore r; rw_Initiator := rw_Initiator r; rw_StepIndex := rw_StepIndex r; rw_StepTotal := rw_StepTotal r;
  rw_StepWeight := rw_StepWeight r; rw_DBRollbackCmd := dbCmd; rw_DBRollbackTimeout := rw_DBRollbackTimeout r;
  rw_DBMigrateCmd := migCmd; rw_DBBackwardCompatible := rw_DBBackwardCompatible r; rw_DBMigrateTimeout := rw_DBMigrateTimeout r;
  rw_DBMigrateWhen := rw_DBMigrateWhen r; rw_DeliveryTraffic := rw_DeliveryTraffic r; rw_DeliveryFlag := rw_DeliveryFlag r;
  rw_Analysis := rw_Analysis r; rw_SmokeTest := rw_SmokeTest r; rw_StepperSnap := rw_StepperSnap r;
  rw_RollbackBlocked := rw_RollbackBlocked r; rw_Note := rw_Note r; rw_CreatedAt := created; rw_UpdatedAt := updated |}.

(** An error under the message of the step it came from. *)
Definition wrapped {A} (what : string) (r : result A) : result A :=
  match r with Ok a => Ok a | Err e => Err (Wrap ("sqlite: " +:+ what +:+ ": ") e "") end.

Definition decode_row (cells : list (option Sql)) : result RowRollout :=
  try s <- wrapped "load rollout" (Scan cells);
  try dbCmd <- wrapped "unmarshal db rollback cmd" (decodeDBCmd (sd_dbCmd s));
  try migCmd <- wrapped "unmarshal db migrate cmd" (decodeDBCmd (sd_migCmd s));
  try m <- wrapped "unmarshal manifest" (decode_into RowManifest_field no_manifest (sd_manifest s));
  try created <- wrapped "parse created_at" (ParseRFC3339 (sd_created s));
  try updated <- wrapped "parse updated_at" (ParseRFC3339 (sd_updated s));
  Ok (decoded (sd_rollout s) m dbCmd migCmd created updated).

Definition LoadRollout (id : string) : Sq (result RowRollout) :=
  q ← Query (select_rollout id);
  mret (match q with
        | Err e => Err (Wrap "sqlite: load rollout: " e "")
        | Ok None => Err ErrNotFound
        | Ok (Some cells) => decode_row cells
        end).

(** ** Columns *)
Lemma columns_read (cols : list string) (vals : list Sql) : NoDup cols → length vals = length cols →
  (λ c, (list_to_map (zip cols vals) : Row) !! c) <$> cols = Some <$> vals.
Proof.
  revert vals. induction cols as [|c cols IH]; intros [|v vals] Hn Hl; try done. apply NoDup_cons in Hn as [Hc Hn].
  cbn [zip zip_with list_to_map foldr fmap list_fmap uncurry fst snd]. f_equal; [apply lookup_insert_eq|].
  injection Hl as Hl. rewrite <- (IH vals Hn Hl). apply list_fmap_ext. intros i c' Hi.
  apply lookup_insert_ne. intros ->. apply Hc. by eapply list_elem_of_lookup_2.
Qed.

Lemma overlay_lookup cols new old c :
  overlay cols new old !! c = if decide (c ∈ cols) then union_with (λ v _, Some v) (new !! c) (old !! c) else old !! c.
Proof.
  induction cols as [|c' cols IH]; [done|]. cbn [overlay foldr]. fold (overlay cols new old).
  destruct (decide (c = c')) as [->|Hne].
  - rewrite decide_True by set_solver. destruct (new !! c') as [v|] eqn:Ev.
    + rewrite lookup_insert_eq. by destruct (old !! c').
    + rewrite IH. rewrite ?Ev. by case_decide; destruct (old !! c').
  - assert (match new !! c' with Some v => <[c':=v]> (overlay cols new old) | None => overlay cols new old end !! c =
            overlay cols new old !! c) as -> by (destruct (new !! c'); [by rewrite lookup_insert_ne|done]).
    rewrite IH. case_decide; case_decide; set_solver.
Qed.

Lemma rollouts_columns_NoDup : NoDup rollouts_columns.
Proof. apply (bool_decide_unpack _). vm_compute. exact I. Qed.

(** ** What a row can hold *)
Definition kept_manifest (m : RowManifest) : RowManifest :=
  Build_RowManifest (rd_Kind m) (rd_Spec m) (rd_Labels m) (rd_Checksum m) "" (rd_Rendered m).

(** A rollout without what has no column: the root and the initiator's groups. *)
Definition kept (r : RowRollout) : RowRollout :=
  let r' := decoded r (kept_manifest (rw_Desired r)) (rw_DBRollbackCmd r) (rw_DBMigrateCmd r) (rw_CreatedAt r) (rw_UpdatedAt r) in
  {| rw_ID := rw_ID r'; rw_TargetRef := rw_TargetRef r'; rw_Phase := rw_Phase r'; rw_Strategy := rw_Strategy r'; rw_Desired := rw_Desired r';
     rw_RiskScore := rw_RiskScore r'; rw_Initiator := without_groups (rw_Initiator r'); rw_StepIndex := rw_StepIndex r';
     rw_StepTotal := rw_StepTotal r'; rw_StepWeight := rw_StepWeight r'; rw_DBRollbackCmd := rw_DBRollbackCmd r';
     rw_DBRollbackTimeout := rw_DBRollbackTimeout r'; rw_DBMigrateCmd := rw_DBMigrateCmd r';
     rw_DBBackwardCompatible := rw_DBBackwardCompatible r'; rw_DBMigrateTimeout := rw_DBMigrateTimeout r';
     rw_DBMigrateWhen := rw_DBMigrateWhen r'; rw_DeliveryTraffic := rw_DeliveryTraffic r'; rw_DeliveryFlag := rw_DeliveryFlag r';
     rw_Analysis := rw_Analysis r'; rw_SmokeTest := rw_SmokeTest r'; rw_StepperSnap := rw_StepperSnap r';
     rw_RollbackBlocked := rw_RollbackBlocked r'; rw_Note := rw_Note r'; rw_CreatedAt := rw_CreatedAt r'; rw_UpdatedAt := rw_UpdatedAt r' |}.

(** A row that was there keeps its id, target, initiator and creation time. *)
Definition over (o r : RowRollout) : RowRollout :=
  {| rw_ID := rw_ID o; rw_TargetRef := rw_TargetRef o; rw_Phase := rw_Phase r; rw_Strategy := rw_Strategy r; rw_Desired := rw_Desired r;
     rw_RiskScore := rw_RiskScore r; rw_Initiator := rw_Initiator o; rw_StepIndex := rw_StepIndex r;
     rw_StepTotal := rw_StepTotal r; rw_StepWeight := rw_StepWeight r; rw_DBRollbackCmd := rw_DBRollbackCmd r;
     rw_DBRollbackTimeout := rw_DBRollbackTimeout r; rw_DBMigrateCmd := rw_DBMigrateCmd r;
     rw_DBBackwardCompatible := rw_DBBackwardCompatible r; rw_DBMigrateTimeout := rw_DBMigrateTimeout r;
     rw_DBMigrateWhen := rw_DBMigrateWhen r; rw_DeliveryTraffic := rw_DeliveryTraffic r; rw_DeliveryFlag := rw_DeliveryFlag r;
     rw_Analysis := rw_Analysis r; rw_SmokeTest := rw_SmokeTest r; rw_StepperSnap := rw_StepperSnap r;
     rw_RollbackBlocked := rw_RollbackBlocked r; rw_Note := rw_Note r; rw_CreatedAt := rw_CreatedAt o; rw_UpdatedAt := rw_UpdatedAt r |}.

(** The score is a number SQLite keeps. *)
Definition real_kept (f : float) : Prop := bind_real f = SReal f.

(** What is written as JSON is UTF-8, the times have four digits of year, and a
    descriptor is nil or not empty. *)
Record storable (r : RowRollout) : Prop := {
  st_real : real_kept (rw_RiskScore r);
  st_kind : valid_utf8 (rd_Kind (rw_Desired r)) = true;
  st_checksum : valid_utf8 (rd_Checksum (rw_Desired r)) = true;
  st_labels : map_Forall (λ k v, valid_utf8 k ∧ valid_utf8 v) (rd_Labels (rw_Desired r));
  st_commands : Forall (λ a, valid_utf8 a = true) (rw_DBRollbackCmd r ++ rw_DBMigrateCmd r);
  st_descriptors : Some "" ∉ [rw_DeliveryTraffic r; rw_DeliveryFlag r; rw_Analysis r; rw_SmokeTest r; rw_StepperSnap r];
  st_created : 0 ≤ year_of (rw_CreatedAt r) ≤ 9999;
  st_updated : 0 ≤ year_of (rw_UpdatedAt r) ≤ 9999;
}.

Lemma bytes_json_ok s : well_formed (bytes_json s) = true ∧ nesting (bytes_json s) = O ∧ valid_json (bytes_json s) = true.
Proof. unfold bytes_json. case_match; [done|]. split_and!; [done..|]. cbn [valid_json]. apply ascii_valid, base64_ascii. Qed.

Lemma into_bytes_json old s : into_bytes old (bytes_json s) = Ok s.
Proof.
  unfold bytes_json. case_bool_decide; [by subst|]. cbn [into_bytes]. by rewrite DecodeString_EncodeToString.
Qed.

Lemma manifest_reads_back m :
  valid_utf8 (rd_Kind m) = true → valid_utf8 (rd_Checksum m) = true →
  map_Forall (λ k v, valid_utf8 k ∧ valid_utf8 v) (rd_Labels m) →
  decode_into RowManifest_field no_manifest (Marshal (RowManifest_json m)) = Ok (kept_manifest m).
Proof.
  intros Hk Hc Hl. destruct m as [kind spec labels sum root rendered]. cbn [rd_Kind rd_Checksum rd_Labels] in *.
  destruct (bytes_json_ok spec) as (Hsw & Hsn & Hsv), (bytes_json_ok rendered) as (Hrw & Hrn & Hrv), (of_strings_json labels) as [Hlw Hln].
  unfold RowManifest_json, kept_manifest. cbn [rd_Kind rd_Spec rd_Labels rd_Checksum rd_Rendered].
  rewrite decode_exact.
  - case_bool_decide; subst; cbn [app into_struct fold_members]; unfold RowManifest_field, no_manifest; eval_names;
      rewrite !into_bytes_json, into_of_strings; [done|]. eval_names. by rewrite into_bytes_json.
  - cbn [well_formed]. case_bool_decide; cbn [app forallb snd well_formed]; by rewrite ?Hsw, ?Hlw, ?Hrw.
  - cbn [valid_json]. rewrite forallb_app. cbn [forallb fst snd valid_json]. rewrite Hk, Hc, Hsv, (of_strings_valid _ Hl).
    case_bool_decide; cbn [forallb fst snd]; by rewrite ?Hrv.
  - cbn [nesting]. case_bool_decide; cbn [app fmap list_fmap foldr snd nesting]; rewrite ?Hsn, ?Hrn; lia.
Qed.

Lemma command_reads_back cmd : Forall (λ a, valid_utf8 a = true) cmd → decodeDBCmd (encodeDBCmd cmd) = Ok cmd.
Proof.
  intros Hv. rewrite stored_command_reads_back. f_equal. induction Hv as [|a cmd Ha Hv IH]; [done|].
  cbn [fmap list_fmap]. f_equal; [by apply concat_runes|done].
Qed.

Lemma descriptor_reads_back b : b ≠ Some "" → blobBytes (default "" b) = b.
Proof. unfold blobBytes. destruct b as [s|]; [|done]. simpl. intros Hb. rewrite bool_decide_false; [done|]. by intros ->. Qed.

(** The texts of the columns decode to what was encoded. *)
Lemma saved_texts_decode r : storable r →
  decodeDBCmd (encodeDBCmd (rw_DBRollbackCmd r)) = Ok (rw_DBRollbackCmd r) ∧
  decodeDBCmd (encodeDBCmd (rw_DBMigrateCmd r)) = Ok (rw_DBMigrateCmd r) ∧
  decode_into RowManifest_field no_manifest (Marshal (RowManifest_json (rw_Desired r))) = Ok (kept_manifest (rw_Desired r)) ∧
  ParseRFC3339 (FormatRFC3339Nano (rw_CreatedAt r)) = Ok (rw_CreatedAt r) ∧
  ParseRFC3339 (FormatRFC3339Nano (rw_UpdatedAt r)) = Ok (rw_UpdatedAt r).
Proof.
  intros [_ Hk Hc Hl Hcmds _ Ht1 Ht2]. apply Forall_app in Hcmds as [Hcmd1 Hcmd2].
  split_and!; first [by apply command_reads_back | by apply manifest_reads_back | by apply parse_format].
Qed.

Lemma saved_descriptors r : storable r →
  blobBytes (default "" (rw_DeliveryTraffic r)) = rw_DeliveryTraffic r ∧ blobBytes (default "" (rw_DeliveryFlag r)) = rw_DeliveryFlag r ∧
  blobBytes (default "" (rw_Analysis r)) = rw_Analysis r ∧ blobBytes (default "" (rw_SmokeTest r)) = rw_SmokeTest r ∧
  blobBytes (default "" (rw_StepperSnap r)) = rw_StepperSnap r.
Proof.
  intros [_ _ _ _ _ Hd _ _]. rewrite !not_elem_of_cons in Hd. destruct Hd as (? & ? & ? & ? & ? & _).
  split_and!; apply descriptor_reads_back; congruence.
Qed.

Lemma scan_bind_bool b : scan_bool (Some (bind_bool b)) = Ok b.
Proof. by destruct b. Qed.

(** *** Scanned rows *)
Lemma decode_row_Ok cells o : decode_row cells = Ok o ↔
  ∃ s dbCmd migCmd m created updated, Scan cells = Ok s ∧ decodeDBCmd (sd_dbCmd s) = Ok dbCmd ∧ decodeDBCmd (sd_migCmd s) = Ok migCmd ∧
    decode_into RowManifest_field no_manifest (sd_manifest s) = Ok m ∧ ParseRFC3339 (sd_created s) = Ok created ∧
    ParseRFC3339 (sd_updated s) = Ok updated ∧ o = decoded (sd_rollout s) m dbCmd migCmd created updated.
Proof.
  unfold decode_row, wrapped. split.
  - intros H. repeat (case_match; try done). simplify_eq. eauto 20.
  - intros (s & dbCmd & migCmd & m & created & updated & -> & -> & -> & -> & -> & -> & ->). done.
Qed.

(** The row of a rollout as it is scanned, with the columns an update keeps. *)
Definition scanned (r : RowRollout) (id ref kind name created : string) : Scanned := {|
  sd_rollout := {|
    rw_ID := id; rw_TargetRef := ref; rw_Phase := rw_Phase r; rw_Strategy := rw_Strategy r; rw_Desired := no_manifest;
    rw_RiskScore := rw_RiskScore r; rw_Initiator := {| id_Kind := kind; id_Name := name; id_Groups := [] |};
    rw_StepIndex := rw_StepIndex r; rw_StepTotal := rw_StepTotal r; rw_StepWeight := rw_StepWeight r; rw_DBRollbackCmd := [];
    rw_DBRollbackTimeout := rw_DBRollbackTimeout r; rw_DBMigrateCmd := []; rw_DBBackwardCompatible := rw_DBBackwardCompatible r;
    rw_DBMigrateTimeout := rw_DBMigrateTimeout r; rw_DBMigrateWhen := rw_DBMigrateWhen r;
    rw_DeliveryTraffic := blobBytes (default "" (rw_DeliveryTraffic r)); rw_DeliveryFlag := blobBytes (default "" (rw_DeliveryFlag r));
    rw_Analysis := blobBytes (default "" (rw_Analysis r)); rw_SmokeTest := blobBytes (default "" (rw_SmokeTest r));
    rw_StepperSnap := blobBytes (default "" (rw_StepperSnap r)); rw_RollbackBlocked := rw_RollbackBlocked r; rw_Note := rw_Note r;
    rw_CreatedAt := zero_time; rw_UpdatedAt := zero_time |};
  sd_dbCmd := encodeDBCmd (rw_DBRollbackCmd r); sd_migCmd := encodeDBCmd (rw_DBMigrateCmd r);
  sd_manifest := Marshal (RowManifest_json (rw_Desired r)); sd_created := created; sd_updated := FormatRFC3339Nano (rw_UpdatedAt r) |}.

Lemma scan_saved r : real_kept (rw_RiskScore r) →
  Scan (Some <$> rollout_values r) =
  Ok (scanned r (rw_ID r) (rw_TargetRef r) (id_Kind (rw_Initiator r)) (id_Name (rw_Initiator r)) (FormatRFC3339Nano (rw_CreatedAt r))).
Proof.
  intros Hreal. unfold rollout_values. rewrite Hreal. cbn [fmap list_fmap Scan]. rewrite scan_bind_bool. reflexivity.
Qed.

(** The cells of a row after an update. *)
Definition updated_cells (old : Row) (values : list Sql) : list (option Sql) :=
  zip_with (λ c v, if bool_decide (c ∈ updated_columns) then Some v else old !! c) rollouts_columns values.

(** What a scan read in the columns that an update keeps. *)
Lemma Scan_kept (old : Row) s : Scan ((λ c, old !! c) <$> rollouts_columns) = Ok s →
  scan_text (old !! "id") = Ok (rw_ID (sd_rollout s)) ∧ scan_text (old !! "target_ref") = Ok (rw_TargetRef (sd_rollout s)) ∧
  scan_text (old !! "initiator_kind") = Ok (id_Kind (rw_Initiator (sd_rollout s))) ∧
  scan_text (old !! "initiator_name") = Ok (id_Name (rw_Initiator (sd_rollout s))) ∧
  scan_text (old !! "created_at") = Ok (sd_created s) ∧ id_Groups (rw_Initiator (sd_rollout s)) = [].
Proof.
  unfold rollouts_columns. cbn [fmap list_fmap Scan]. intros Hs.
  repeat match type of Hs with (try _ <- ?x; _) = _ => destruct x eqn:?; [|done] end. injection Hs as <-. done.
Qed.

Lemma updated_cells_explicit old v0 v1 v2 v3 v4 v5 v6 v7 v8 v9 v10 v11 v12 v13 v14 v15 v16 v17 v18 v19 v20 v21 v22 v23 v24 v25 :
  updated_cells old [v0; v1; v2; v3; v4; v5; v6; v7; v8; v9; v10; v11; v12; v13; v14; v15; v16; v17; v18; v19; v20; v21; v22; v23; v24; v25] =
  [old !! "id"; old !! "target_ref"; Some v2; Some v3; Some v4; Some v5; old !! "initiator_kind"; old !! "initiator_name";
   Some v8; Some v9; Some v10; Some v11; Some v12; Some v13; Some v14; Some v15; Some v16; Some v17; Some v18; Some v19; Some v20;
   Some v21; Some v22; Some v23; old !! "created_at"; Some v25].
Proof. reflexivity. Qed.

Lemma scan_updated r (old : Row) s : real_kept (rw_RiskScore r) →
  Scan ((λ c, old !! c) <$> rollouts_columns) = Ok s →
  Scan (updated_cells old (rollout_values r)) =
  Ok (scanned r (rw_ID (sd_rollout s)) (rw_TargetRef (sd_rollout s)) (id_Kind (rw_Initiator (sd_rollout s)))
        (id_Name (rw_Initiator (sd_rollout s))) (sd_created s)).
Proof.
  intros Hreal (H1 & H2 & H3 & H4 & H5 & _)%Scan_kept. unfold rollout_values. rewrite updated_cells_explicit, Hreal.
  cbn [Scan]. rewrite H1, H2, H3, H4, H5, scan_bind_bool. reflexivity.
Qed.

(** *** Rows of the statements *)
Lemma upserted_cells (old : Row) values : length values = length rollouts_columns →
  (λ c, overlay updated_columns (list_to_map (zip rollouts_columns values)) old !! c) <$> rollouts_columns = updated_cells old values.
Proof.
  intros Hl. pose proof (columns_read rollouts_columns values rollouts_columns_NoDup Hl) as Hr. unfold updated_cells.
  set (new := list_to_map _) in *. clearbody new. revert values Hl Hr.
  induction rollouts_columns as [|c cols IH]; intros [|v values] Hl Hr; try done.
  cbn [fmap list_fmap zip_with] in *. injection Hr as Hc Hr. f_equal; [|by apply IH; [injection Hl|]].
  rewrite overlay_lookup, Hc. case_decide; case_bool_decide; try done. by destruct (old !! c).
Qed.

Lemma fresh_cells values : length values = length rollouts_columns →
  (λ c, (list_to_map (zip rollouts_columns values) : Row) !! c) <$> rollouts_columns = Some <$> values.
Proof. apply columns_read, rollouts_columns_NoDup. Qed.

(** A rollout saved where there was no row, and where there was one. *)
Lemma decode_saved r : storable r → decode_row (Some <$> rollout_values r) = Ok (kept r).
Proof.
  intros Hst. destruct (saved_texts_decode r Hst) as (H1 & H2 & H3 & H4 & H5). apply decode_row_Ok.
  eexists _, _, _, _, _, _. split; [by apply scan_saved, st_real|].
  split; [exact H1|]. split; [exact H2|]. split; [exact H3|]. split; [exact H4|]. split; [exact H5|].
  destruct (saved_descriptors r Hst) as (D1 & D2 & D3 & D4 & D5). unfold decoded, scanned. cbn. by rewrite D1, D2, D3, D4, D5.
Qed.

Lemma decode_updated r (old : Row) o : storable r →
  decode_row ((λ c, old !! c) <$> rollouts_columns) = Ok o → decode_row (updated_cells old (rollout_values r)) = Ok (over o (kept r)).
Proof.
  intros Hst (s & dbCmd & migCmd & m & created & updated & Hs & _ & _ & _ & Hc & _ & ->)%decode_row_Ok.
  destruct (saved_texts_decode r Hst) as (H1 & H2 & H3 & _ & H5). apply decode_row_Ok.
  eexists _, _, _, _, _, _. split; [by apply scan_updated; [apply st_real|]|].
  split; [exact H1|]. split; [exact H2|]. split; [exact H3|]. split; [exact Hc|]. split; [exact H5|].
  destruct (Scan_kept _ _ Hs) as (_ & _ & _ & _ & _ & Hg). destruct (rw_Initiator (sd_rollout s)) as [kind name groups] eqn:Ei.
  simpl in Hg. subst groups. unfold over, decoded, scanned. cbn. destruct (saved_descriptors r Hst) as (D1 & D2 & D3 & D4 & D5).
  by rewrite Ei, D1, D2, D3, D4, D5.
Qed.

(** ** Transactions *)

(** A load from a database without failures. *)
Definition healthy_load (id : string) (t : Tables) : result RowRollout :=
  (LoadRollout id {| cn_committed := t; cn_tx := None; cn_faults := [] |}).1.

Lemma healthy_load_row id t :
  healthy_load id t = match tb_rollouts t !! id with
                      | None => Err ErrNotFound
                      | Some row => decode_row ((λ c, row !! c) <$> rollouts_columns)
                      end.
Proof. unfold healthy_load, LoadRollout, Query, select_rollout, mbind, Sq_bind. simpl. by destruct (tb_rollouts t !! id). Qed.

Lemma Ok_inj {A} (a b : A) : Ok a = Ok b → a = b.
Proof. by intros [=]. Qed.

(** What the statements make of the tables. *)
Lemma upsert_Ok id values t t' : upsert_rollout id values t = Ok t' →
  tb_history t' = tb_history t ∧
  tb_rollouts t' = <[id := match tb_rollouts t !! id with
                           | None => list_to_map (zip rollouts_columns values)
                           | Some old => overlay updated_columns (list_to_map (zip rollouts_columns values)) old
                           end]> (tb_rollouts t).
Proof. unfold upsert_rollout. destruct (no_null values); [|done]. by intros <-%Ok_inj. Qed.

Lemma append_Ok values t t' : append_history values t = Ok t' →
  tb_rollouts t' = tb_rollouts t ∧ tb_history t' = list_to_map (zip history_insert_columns values) :: tb_history t.
Proof. unfold append_history. destruct (no_null values); [|done]. by intros <-%Ok_inj. Qed.

Lemma history_columns_NoDup : NoDup history_insert_columns.
Proof. apply (bool_decide_unpack _). vm_compute. exact I. Qed.

(** A save from outside a transaction: what it commits, if it commits. *)
Lemma SaveRollout_cases r c : cn_tx c = None →
  cn_tx (SaveRollout r c).2 = None ∧
  match (SaveRollout r c).1 with
  | Some _ => cn_committed (SaveRollout r c).2 = cn_committed c
  | None => ∃ t, upsert_rollout (rw_ID r) (rollout_values r) (cn_committed c) = Ok t ∧
                 append_history (history_values r) t = Ok (cn_committed (SaveRollout r c).2)
  end.
Proof.
  destruct c as [t tx faults]. simpl. intros ->. unfold SaveRollout, mbind, Sq_bind, BeginTx, Exec, Commit, Rollback, outcome.
  cbn [cn_faults cn_tx cn_committed]. destruct (default None (head faults)); [done|]. cbn [set_tx cn_faults cn_tx cn_committed].
  destruct (default None (head (tail faults))); [done|]. cbn [cn_faults cn_tx cn_committed default from_option id].
  destruct (upsert_rollout _ _ t) as [t1|e]; [|done]. cbn [set_tx cn_faults cn_tx cn_committed].
  destruct (default None (head (tail (tail faults)))); [done|]. cbn [cn_faults cn_tx cn_committed default from_option id].
  destruct (append_history _ t1) as [t2|e] eqn:Ea; [|done]. cbn [set_tx cn_faults cn_tx cn_committed].
  destruct (default None (head (tail (tail (tail faults))))); [done|]. split; [done|]. by exists t1.
Qed.

Lemma real_no_null r : real_kept (rw_RiskScore r) → no_null (rollout_values r) = true.
Proof. intros Hr. unfold rollout_values. rewrite Hr. done. Qed.

(** ** Properties *)

(** C27. Saving a rollout is all or nothing, and what was saved is loaded.  A save
    that fails - at any call, or on a score that is not a number - leaves the
    committed tables as they were.  A save that succeeds commits one history row
    with the rollout's id, target, phase, note, initiator and time, leaves every
    other row of the rollouts alone, and a load from a healthy database then gives
    back the rollout that was saved, through the JSON of its manifest and
    commands, the texts of its times and its twenty-six columns; only the checkout
    root and the initiator's groups, which have no column, are gone, and a row
    that was there keeps its id, target, initiator and creation time.  On a healthy
    database the save succeeds.  The load is for rollouts a row can hold: UTF-8 in
    what goes through JSON, four-digit years, a score that is a number, descriptors
    that are absent or not empty. *)
Theorem saved_rollouts_are_loaded r c :
  cn_tx c = None →
  let c' := (SaveRollout r c).2 in
  cn_tx c' = None ∧
  match (SaveRollout r c).1 with
  | Some _ => cn_committed c' = cn_committed c
  | None =>
      (∃ row : Row, tb_history (cn_committed c') = row :: tb_history (cn_committed c) ∧
         (λ k, row !! k) <$> ["rollout_id"; "target_ref"; "phase"; "note"; "initiator_kind"; "initiator_name"; "at"] =
         (λ s, Some (SText s)) <$> [rw_ID r; rw_TargetRef r; rw_Phase r; rw_Note r; id_Kind (rw_Initiator r); id_Name (rw_Initiator r);
                                    FormatRFC3339Nano (rw_UpdatedAt r)]) ∧
      (∀ id, id ≠ rw_ID r → tb_rollouts (cn_committed c') !! id = tb_rollouts (cn_committed c) !! id) ∧
      (storable r →
         (tb_rollouts (cn_committed c) !! rw_ID r = None → healthy_load (rw_ID r) (cn_committed c') = Ok (kept r)) ∧
         (∀ o, healthy_load (rw_ID r) (cn_committed c) = Ok o → healthy_load (rw_ID r) (cn_committed c') = Ok (over o (kept r))))
  end ∧
  (cn_faults c = [] → real_kept (rw_RiskScore r) → (SaveRollout r c).1 = None).
Proof.
  intros Htx c'. destruct (SaveRollout_cases r c Htx) as [Hno Hcases]. fold c' in Hno, Hcases. split; [done|]. split.
  - destruct (SaveRollout r c).1; [done|]. destruct Hcases as (t & [Hh Hrows]%upsert_Ok & [Hr Hhist]%append_Ok).
    rewrite Hhist, Hh, !healthy_load_row, Hr, Hrows. split; [|split].
    + eexists. split; [reflexivity|]. apply (columns_read history_insert_columns (history_values r) history_columns_NoDup eq_refl).
    + intros id Hid. by rewrite lookup_insert_ne.
    + intros Hst. rewrite lookup_insert_eq. split.
      * intros ->. rewrite (fresh_cells (rollout_values r) eq_refl). by apply decode_saved.
      * intros o. destruct (tb_rollouts (cn_committed c) !! rw_ID r) as [old|]; [|done]. intros Ho.
        rewrite (upserted_cells old (rollout_values r) eq_refl). by apply decode_updated.
  - intros Hf Hr. destruct c as [t tx faults]. cbn in Htx, Hf. subst. unfold SaveRollout, mbind, Sq_bind, BeginTx, Exec, Commit, outcome.
    cbn. unfold upsert_rollout. by rewrite real_no_null.
Qed.

(** ** Values and rows

    How a rollout of the engine's model stands for one with its bytes, given how
    the bytes of a specification and of the descriptors read. *)
Section Refinement.
Context (spec_reads : string → gmap string any → Prop) (blob_reads : ∀ A, option string → blob A → Prop).

Record stands_for (raw : RowRollout) (r : Rollout) : Prop := {
  sf_ID : rw_ID raw = r_ID r; sf_ref : rw_TargetRef raw = r_TargetRef r; sf_phase : rw_Phase raw = phase_str (r_Phase r);
  sf_strategy : rw_Strategy raw = strategy_str (r_Strategy r);
  sf_kind : rd_Kind (rw_Desired raw) = m_Kind (r_Desired r); sf_spec : spec_reads (rd_Spec (rw_Desired raw)) (m_Spec (r_Desired r));
  sf_labels : rd_Labels (rw_Desired raw) = m_Labels (r_Desired r); sf_sum : rd_Checksum (rw_Desired raw) = m_Checksum (r_Desired r);
  sf_root : rd_Root (rw_Desired raw) = m_Root (r_Desired r); sf_rendered : rd_Rendered (rw_Desired raw) = m_Rendered (r_Desired r);
  sf_risk : rw_RiskScore raw = r_RiskScore r; sf_initiator : rw_Initiator raw = r_Initiator r; sf_note : rw_Note raw = r_Note r;
  sf_index : rw_StepIndex raw = r_StepIndex r; sf_total : rw_StepTotal raw = r_StepTotal r; sf_weight : rw_StepWeight raw = r_StepWeight r;
  sf_back : rw_DBRollbackCmd raw = r_DBRollbackCmd r; sf_back_time : rw_DBRollbackTimeout raw = r_DBRollbackTimeout r;
  sf_mig : rw_DBMigrateCmd raw = r_DBMigrateCmd r; sf_mig_time : rw_DBMigrateTimeout raw = r_DBMigrateTimeout r;
  sf_when : rw_DBMigrateWhen raw = r_DBMigrateWhen r; sf_compatible : rw_DBBackwardCompatible raw = r_DBBackwardCompatible r;
  sf_traffic : blob_reads _ (rw_DeliveryTraffic raw) (r_DeliveryTraffic r); sf_flag : blob_reads _ (rw_DeliveryFlag raw) (r_DeliveryFlag r);
  sf_analysis : blob_reads _ (rw_Analysis raw) (r_Analysis r); sf_blocked : rw_RollbackBlocked raw = r_RollbackBlocked r;
  sf_smoke : blob_reads _ (rw_SmokeTest raw) (r_SmokeTest r); sf_snap : blob_reads _ (rw_StepperSnap raw) (r_StepperSnap r);
  sf_created : rw_CreatedAt raw = r_CreatedAt r; sf_updated : rw_UpdatedAt raw = r_UpdatedAt r;
}.

(** What a save leaves of a rollout in a row is what [stored] says of its value,
    for a new row and for one that was there. *)
Theorem rows_refine_the_store raw r o old :
  stands_for raw r →
  stands_for (kept raw) (stored None r) ∧
  (stands_for o old → rw_ID o = rw_ID raw → stands_for (over o (kept raw)) (stored (Some old) r)).
Proof.
  intros []. split; [by constructor; simpl; congruence|]. intros [] Hid. by constructor; simpl; congruence.
Qed.
End Refinement.

Module RowDemo.
Definition t0 : Time := 1790000000 * Second.
Definition release (spec note : string) (at_ : Time) : RowRollout := {|
  rw_ID := "ro-1"; rw_TargetRef := "web"; rw_Phase := "deploying"; rw_Strategy := "canary";
  rw_Desired := {| rd_Kind := "kubernetes"; rd_Spec := spec; rd_Labels := {["team" := "shop"]}; rd_Checksum := "sum"; rd_Root := "/repo"; rd_Rendered := "" |};
  rw_RiskScore := 0.5%float; rw_Initiator := {| id_Kind := "human"; id_Name := "ann"; id_Groups := ["ops"] |}; rw_StepIndex := 1; rw_StepTotal := 3;
  rw_StepWeight := 20; rw_DBRollbackCmd := ["db"; "down"]; rw_DBRollbackTimeout := "5m"; rw_DBMigrateCmd := []; rw_DBBackwardCompatible := true;
  rw_DBMigrateTimeout := ""; rw_DBMigrateWhen := ""; rw_DeliveryTraffic := None; rw_DeliveryFlag := None; rw_Analysis := None;
  rw_SmokeTest := Some "[1]"; rw_StepperSnap := None; rw_RollbackBlocked := ""; rw_Note := note; rw_CreatedAt := t0; rw_UpdatedAt := at_ |}.

Definition fresh : Conn := {| cn_committed := {| tb_rollouts := ∅; tb_history := [] |}; cn_tx := None; cn_faults := [] |}.
Definition first : RowRollout := release "v1" "first" t0.
Definition second : RowRollout := release "v2" "second" (t0 + Minute).
Definition after_first : Conn := (SaveRollout first fresh).2.

Lemma release_storable spec note at_ : 0 ≤ year_of at_ ≤ 9999 → storable (release spec note at_).
Proof.
  intros Ht. split.
  - vm_compute. reflexivity.
  - reflexivity.
  - reflexivity.
  - apply (map_Forall_singleton (λ k v, valid_utf8 k ∧ valid_utf8 v) "team" "shop"). done.
  - by repeat constructor.
  - cbn. rewrite !not_elem_of_cons. repeat split; try done. apply not_elem_of_nil.
  - vm_compute. split; discriminate.
  - exact Ht.
Qed.

(** Saved, saved again, and loaded each time. *)
Lemma saved_rollouts_are_loaded_witness :
  (SaveRollout first fresh).1 = None ∧ healthy_load "ro-1" (cn_committed after_first) = Ok (kept first) ∧
  (SaveRollout second after_first).1 = None ∧
  healthy_load "ro-1" (cn_committed (SaveRollout second after_first).2) = Ok (over (kept first) (kept second)).
Proof.
  destruct (saved_rollouts_are_loaded first fresh eq_refl) as (Hno & Hsaved & Hok). fold after_first in Hno, Hsaved.
  assert ((SaveRollout first fresh).1 = None) as H1 by (by apply Hok). rewrite H1 in Hsaved.
  destruct Hsaved as (_ & _ & Hload). destruct Hload as [Hload _]; [apply release_storable; vm_compute; split; discriminate|].
  specialize (Hload eq_refl). destruct (saved_rollouts_are_loaded second after_first Hno) as (_ & Hsaved & Hok2).
  assert ((SaveRollout second after_first).1 = None) as H2 by (by apply Hok2). rewrite H2 in Hsaved.
  destruct Hsaved as (_ & _ & Hload2). destruct Hload2 as [_ Hload2]; [apply release_storable; vm_compute; split; discriminate|].
  split; [exact H1|]. split; [exact Hload|]. split; [exact H2|]. exact (Hload2 (kept first) Hload).
Defined.

(** A commit that fails leaves nothing of the save; a score that is not a number
    is refused; a manifest that does not decode is an error of the load. *)
Example saves_can_fail :
  let full := Some (Errorf "database or disk is full") in
  let out := SaveRollout first {| cn_committed := cn_committed fresh; cn_tx := None; cn_faults := [None; None; None; full] |} in
  (err_str <$> out.1, cn_committed out.2) = (Some "sqlite: commit: database or disk is full", cn_committed fresh) ∧
  (err_str <$> (Exec (append_history [SNull]) fresh).1) = Some "constraint failed: NOT NULL constraint failed" ∧
  bind_real PrimFloat.nan = SNull ∧
  healthy_load "ro-1" {| tb_rollouts := (λ row, <["manifest" := SBlob "{"]> row) <$> tb_rollouts (cn_committed after_first); tb_history := [] |} =
    Err (Wrap "sqlite: unmarshal manifest: " bad_json "").
Proof. vm_compute. auto. Qed.
End RowDemo.
